(* ===== verification/_CoqProject ===== *)
-Q . S2P
Prelude.v
Effects.v
BTreeMap.v
Settlement.v
Interpretation.v
Machine.v
Stash.v
Buffer.v
WorkQueue.v
RateLimiter.v
Deduplicator.v
Correlator.v
OrderGate.v
Sequencer.v
PriorityQueue.v
Timers.v
TimedBehaviors.v
Lease.v
CircuitBreaker.v
Workflow.v
Restart.v
Latch.v
Barrier.v
Acknowledgements.v
ShutdownPlan.v
Termination.v
ShutdownCoordinator.v
Selection.v
Router.v
RouterPolicies.v
Registry.v
Resolver.v
Topic.v
PubSub.v
Presence.v
Cache.v
Configuration.v
Health.v
Readiness.v
TerminationMonitor.v
Task.v
Creation.v
ChildShutdown.v
Workers.v
WorkerPreparation.v
WorkerStartup.v
ProxyWorker.v
ProxyState.v
StableProxy.v
ProxyTransition.v
ProxyInvariant.v
ProxySafety.v
ProxyOperation.v
PoolAssignment.v
PoolPolicy.v
PoolWorker.v
PoolMembers.v
PoolDrain.v
FifoProtocol.v
FifoShutdown.v
FifoPool.v
FifoInvariant.v
FifoHandlers.v
FifoLifecycle.v
FifoRun.v
FifoCorrect.v
KeyedBinding.v
KeyedProtocol.v
KeyedRetirement.v
KeyedPool.v
KeyedRecovery.v
KeyedTransition.v
KeyedInvariant.v
KeyedHandlers.v
KeyedDrain.v
KeyedRun.v
KeyedCorrect.v
Directory.v
DirectoryInvariant.v
DirectoryCorrect.v
