(* ===== verification/Prelude.v ===== *)
(** * Bombay Behavior: a verification library for the pure actor fold

    ** The program

    The repository is a Rust workspace.  [crates/behavior] defines what an
    actor is: a pure fold.  A [Behavior] owns private state; one transition
    consumes one event and returns either a typed error or an [Actions] value,
    which lists the effects the actor asks for (typed sends, child creations)
    and its verdict (continue, become a phase, stop).  Nothing is performed by
    the fold.  A separate interpreter walks the [Actions] value and settles
    every requested effect exactly once, into caller-owned progress that
    survives cancellation.  [crates/actors] is a catalogue of such folds: flow
    control and routing, stashing, state machines, timers and leases, workflow
    coordination, restart admission, and the supervised templates built of
    them.  Folds compose by wrapping ([Stash], [Periodic], ...) and by
    addressing each other through [DeliveryRoute]s.

    ** How the code is translated

    A transition [fn transition(&mut self, event) -> Result<Actions, E>]
    becomes a function from the state record and the event to the new state
    and a [result].  A state left behind by an error path is returned too, so
    that "the rejection changed nothing" is a theorem and not a convention.
    Enums become inductive types, structs records, with the source's names
    (suffixed where two of them clash in one file).  [u32] and [u64] are [N]
    with the bound of each operation written out ([checked_add],
    [saturating_add]); collection lengths ([usize]) are [nat].  An [expect] or
    an indexing that could panic is [None] of an [option] and is proved not to
    occur.  Time is a number of nanoseconds.  [Vec], [VecDeque] and
    [BinaryHeap] are lists with the operation's meaning; [BTreeMap] is the
    sorted map of BTreeMap.v.  A trait is a class, a trait bound a [Context]
    hypothesis of the section, and a generic parameter a section variable.
    An [Arc] that the code compares with [Arc::ptr_eq] is an allocation number:
    the functions that create one run in the monad [Alloc] of Workers.v, which
    passes the next number along.

    Code outside the repository (the runtime that delivers, creates and keeps
    the clock) never has a definition here.  The interpreter of single items is
    a section variable of Settlement.v and Interpretation.v; delivery routes
    are the class [DeliveryRoute] with the laws [RouteLaws], which the three
    route types of the source satisfy (instances in Effects.v).

    ** The files

    - Prelude.v: results, machine integers, list search, runs of a step
      function ([run], [trace], [otrace], [collect]) with the generic run
      theorems the components instantiate, and the shared tactics and hints.
    - Effects.v: the algebra of [crates/behavior/src] ([next.rs],
      [user_event.rs], [transition.rs], [actor/creation.rs],
      [actor/addressing.rs], [effects/sending.rs], [effects/actions.rs]) and
      the routes of [crates/actors/src/composition/delivery_route.rs].
    - BTreeMap.v: ordered maps and [Ord].
    - Settlement.v, Interpretation.v: [effects/sending.rs] and
      [effects/actions.rs], that is [SendEffects::interpret], progress and
      its finishing, [SendLayer], the creation leg, [Actions::interpret].
      Lanes meet the whole action through the interface classes
      [SendSettlements] and [SettlementSpec].
    - Machine.v ([machine.rs]); Stash.v ([stash/queue.rs], [stash/limit.rs]).
    - Buffer.v, WorkQueue.v, RateLimiter.v, Deduplicator.v, Correlator.v,
      OrderGate.v, Sequencer.v, PriorityQueue.v, CircuitBreaker.v,
      Acknowledgements.v: the files of the same names in [routing/].
    - Timers.v ([protocol/timer.rs], [time/domain.rs]); TimedBehaviors.v
      ([time/one_shot.rs], [periodic.rs], [receive_timeout.rs],
      [deadline.rs]); Lease.v ([time/lease.rs]).
    - Workflow.v ([workflow/coordinator.rs]), Latch.v, Barrier.v.
    - Restart.v ([templates/restart.rs]).
    - Termination.v: outcomes, stop facts and requests ([termination.rs],
      [protocol/mod.rs]), [StopOnShutdown] and [FinalizeOnShutdown]
      ([shutdown.rs]), [Watch] ([watch.rs]), [PropagateTermination]
      ([lifecycle/termination_propagation.rs]).
    - ShutdownPlan.v and ShutdownCoordinator.v
      ([lifecycle/shutdown_coordinator.rs]): plans, dependency trees, and the
      two coordinators as one fold over the interface class [ShutdownLane].
    - Selection.v, Router.v, RouterPolicies.v: the selection policies of
      [routing/router/] and the router over the interface of a policy.
    - Registry.v, Resolver.v, Topic.v, PubSub.v, Presence.v: the folds of
      [discovery/], with publish-subscribe as a family of topics.
    - Cache.v ([persistence/cache.rs]); Configuration.v (with the versioned
      evidence that all three share), Health.v and Readiness.v
      ([operations/]).
    - TerminationMonitor.v ([lifecycle/termination_monitor.rs] with the
      observation protocol of [protocol/established.rs]); Task.v
      ([lifecycle/task.rs], [composition/message_adapter.rs]).
    - ChildShutdown.v ([lifecycle/child_shutdown.rs]): the declaration of
      shutdown phases and the wrapper that reports their plan; the products and
      sums that the source nests per child are indexed by its position.
    - Creation.v: what the interpreter returns for a child creation, and the
      folds that read it ([templates/proxy_creation.rs], [templates/worker/]).
    - Workers.v, WorkerPreparation.v, WorkerStartup.v: capacities, rosters,
      schedule correlations and drain deadlines; preparing the workers of a
      roster; initializing and starting one ([templates/capacity.rs],
      [roster.rs], [schedule.rs], [drain.rs], [templates/worker/]).
    - The stable proxy ([templates/proxy/]): ProxyWorker.v ([worker/mod.rs],
      the authority over one worker), ProxyState.v ([protocol.rs], [state.rs],
      [effects.rs]), StableProxy.v and ProxyTransition.v ([mod.rs]: the parts
      that serve, and shutdown with the whole transition), ProxyOperation.v
      ([operation.rs]: how an owner drives a proxy through its host).  Its
      theorems are in ProxyInvariant.v and ProxySafety.v.
    - Pools ([templates/pool/]): PoolAssignment.v ([assignment.rs]: the join of
      a delivery, a completion and a stop), PoolPolicy.v ([policy.rs],
      [shutdown.rs], [customer.rs], [templates/diagnostic.rs]), PoolWorker.v
      ([worker.rs]: one role, from creation to retirement), PoolMembers.v (the
      searches and the construction of members that the two pools share).
      PoolDrain.v holds what both pools' proofs need: what a
      member counts for in the accounts of sources, startups and restarts, and
      how the retirement of workers progresses.
    - The FIFO pool ([templates/pool/queue/]): FifoProtocol.v ([protocol.rs],
      [event.rs], [requests.rs], [job.rs], [config.rs] and the states of
      [mod.rs]), FifoShutdown.v ([mod.rs]: the drain), FifoPool.v ([mod.rs]:
      the operating handlers, [init], [transition], and [build]).  Its invariant and accounts are in
      FifoInvariant.v; FifoHandlers.v and FifoLifecycle.v show handler by
      handler that they are kept; FifoRun.v measures the drain and joins the
      handlers into one step; FifoCorrect.v states what holds over runs.
    - The keyed pool ([templates/pool/router/]): KeyedBinding.v ([binding.rs]:
      the table of keys and its generations, with its proofs), KeyedProtocol.v
      ([protocol.rs], [event.rs], [requests.rs], [job.rs], [role.rs],
      [config.rs] and the states of [mod.rs]), KeyedRetirement.v
      ([shutdown.rs]), KeyedPool.v ([mod.rs]: submissions, service, startup,
      binding commands), KeyedRecovery.v ([recovery.rs]), KeyedTransition.v
      ([assignment.rs], and [init], [transition] and [new]).  Its proofs follow
      the FIFO pool's: KeyedInvariant.v, KeyedHandlers.v, KeyedDrain.v (the
      retirement), KeyedRun.v (creations, commands, one step) and
      KeyedCorrect.v.
    - The dynamic supervisor ([templates/supervisor/directory/]): Directory.v
      ([protocol.rs], [lifecycle.rs], [diagnostic.rs], [event.rs],
      [requests.rs], [capacity.rs], [config.rs], [entry/] and [mod.rs]).  An
      entry taken out of the map while a handler works on it is the map without
      it; the route of lifecycle messages is any [DeliveryRoute].  Its
      invariant and the accounts of each handler are in DirectoryInvariant.v,
      the drain and what holds over runs in DirectoryCorrect.v.

    In each component file [new] is the constructor, [transition] the
    behavior's transition and the other operations carry the name of the
    method they translate.

    ** What the theorems show

    - Interpretation: walking an action attempts every effect once and in
      order, never again after it was settled, resumes on the same progress
      after any cancellation, stops at corrupt progress, and the status read
      off a settlement tells which of its items were accepted.
    - Machine and stash: a phase change replays what was deferred until
      nothing more can run, a failing transition leaves the machine unchanged,
      released input is replayed in order, and a stash never exceeds its limit.
    - Routing: over whole runs from the constructor, nothing is lost,
      duplicated or reordered; bounds hold; each refused input is returned with
      the reason; correlation and acknowledgement tables refine one automaton
      per key; the breaker is single-flight and opens at its threshold.
    - Time: timer generations increase and at most one is live, a wrapper is
      transparent to the wrapped behavior, ticks, timeouts and deadlines fire
      when and only when they should, and a lease's generations fence its
      owners.
    - Workflow: validation terminates and decides acyclicity; steps start once
      and after their prerequisites; a latch releases all or none; a barrier's
      runs decompose into complete generations.
    - Restart: the budget bounds the charges of every window although it
      forgets old ones; the delays follow the configured formulas.
    - Termination: a dependency tree compiles to the earliest valid layers;
      a declaration of phases becomes one plan, once every child is
      established, whatever the order; phases are asked to stop in order and
      only after the earlier ones stopped; shutdown completes when the children do; exactly one terminal
      report is propagated; a monitor's phase counts its whole history.
    - Routers: membership and policy agree; each policy selects what its
      reference definition selects; removing a member moves only its own keys;
      reports are admitted per stream and in order.
    - Discovery and operations: a registry refines a finite map, a cache an LRU
      list; topics are independent; presence generations fence stale timers;
      readings keep the newest evidence.
    - Workers: a preparation carries each role once, and a startup result
      belongs to the request that issued its grant.
    - Stable proxy: an unexpected event changes nothing and is returned whole;
      admissible events keep the correlations of the state; no worker, plan or
      result is lost or duplicated; every submission gets one answer; there is
      at most one worker at any time; a retiring proxy stops once its
      outstanding inputs arrived, except in the states of
      [proxy_refuses_predecessor], where the code refuses the one input it
      waits for.

    - Pools: the answers about an assignment join in any order, and foreign or
      repeated ones are handed back.  Over every run of a FIFO pool each
      accepted job gets exactly one terminal answer, to its own customer, or is
      still held; no worker is idle while a job waits, and jobs are assigned in
      admission order; the startup limit is respected and used; the one source
      of replacement workers is never lost; no input makes the pool panic; and
      a draining pool asks for nothing new and ends with its outstanding
      answers.
    - Keyed pool: the same account of customers, each under the binding its job
      was accepted with; roles hold only jobs of their own keys, in order; a key
      sticks to its role until a command moves it; binding commands refine a
      compare-and-swap on generations, and a generation that was replaced never
      comes back; the source, the startup limit, panics and the retirement as in
      the FIFO pool.
    - Dynamic supervisor: over every run each submitted worker is handed to a
      proxy, returned or held, exactly once; every service it admits ends with
      exactly one message; capacity and startup limit hold and no entry waits
      beside a free startup; every command gets one reply on its own lane, and a
      refused input changes nothing; a shutdown reaches every entry, admits
      nothing more and can change entries only a bounded number of times; while
      no refused stop has made an entry available again, the answers that the
      entries wait for empty the directory in any order; the actor stops exactly
      when its last entry is gone or its deadline is over.

    Four theorems state where the code departs from the repository's documents,
    and are no properties of a correct program: [proxy_refuses_predecessor],
    [keyed_retiring_unanswered], [keyed_pre_ready_stop_ignored] and
    [directory_stranded].

    Run theorems quantify over every event sequence from the constructor, and
    are proved by an invariant of one step and a generic induction.

    ** Fuel and termination

    [Machine.drain_loop] is defined by well-founded recursion on the deferred
    messages outside and inside the current batch.  [Sequencer.release] has the
    number of pending entries as fuel; [release_fuel] shows that more changes
    nothing.  [Workflow.reach_loop] has one more than the number of steps as
    fuel; validation is proved never to exhaust it.  [ShutdownPlan.layer_loop]
    likewise has one more than the number of nodes, and each round removes one.
    [FifoPool.fill_loop] has the length of the backlog as fuel, of which each
    round takes one job; [fill_loop_ok] shows that it ends with no idle worker
    or no job.  [Directory.shutdown_loop] has the number of entries as fuel;
    [shutdown_loop_spec] shows that it visits each of them once.
    Every other operation is structural.

    ** What is not modelled, and the plan

    Not modelled: the type-level occurrence and birth machinery (no run-time
    content), the derive macros, the test kit and repository tools, formatting
    and error display; the test modules inside the sources (such as
    [creation_custody.rs]).  Left for later: the roster supervisor
    ([templates/supervisor/roster/]: rounds of recovery over a fixed roster);
    source admission ([SourceProgress] and the source leg of [Actions]); the
    interpreter's custody of exact-incarnation shutdown requests; heterogeneous
    products of children and their dispatch. *)

From stdpp Require Import base list list_numbers numbers option gmap sorting.
From Stdlib Require Import NArith Lia.

(** ** Notation scope and hint database of the development *)

Declare Scope bombay_scope.
Delimit Scope bombay_scope with bombay.

Create HintDb bombay discriminated.
Create Rewrite HintDb bombay.

(** ** Results

    Rust's [Result<T, E>], with the source's constructor names. *)

Inductive result (T E : Type) : Type :=
| Ok (value : T)
| Err (error : E).
Arguments Ok {T E} _.
Arguments Err {T E} _.

Definition map_result {T U E} (f : T -> U) (r : result T E) : result U E :=
  match r with Ok t => Ok (f t) | Err e => Err e end.

Definition map_err {T E F} (f : E -> F) (r : result T E) : result T F :=
  match r with Ok t => Ok t | Err e => Err (f e) end.

Definition is_ok {T E} (r : result T E) : bool :=
  match r with Ok _ => true | Err _ => false end.

(** ** Machine-width integers

    [u32] and [u64] values are natural numbers in [N]; the operations that the
    source uses on them are written out with their bound.  [usize] values that
    are lengths of in-memory collections are [nat]. *)

Definition u32_max : N := 4294967295%N.
Definition u64_max : N := 18446744073709551615%N.

Definition checked_add (max x y : N) : option N :=
  if (x + y <=? max)%N then Some (x + y)%N else None.

Definition saturating_add (max x y : N) : N := N.min max (x + y).

Lemma checked_add_Some max x y z :
  checked_add max x y = Some z <-> z = (x + y)%N /\ (x + y <= max)%N.
Proof.
  unfold checked_add. destruct (N.leb_spec (x + y) max); split.
  - intros [= <-]; auto.
  - intros [-> _]; reflexivity.
  - discriminate.
  - lia.
Qed.

Lemma checked_add_None max x y :
  checked_add max x y = None <-> (max < x + y)%N.
Proof.
  unfold checked_add. destruct (N.leb_spec (x + y) max); split; try discriminate; auto; lia.
Qed.

(** A counter that is exhausted bounds nothing any more. *)
Definition below (next : option N) (x : N) : Prop :=
  match next with Some n => (x < n)%N | None => True end.

Lemma below_checked_add n x : below (Some n) x -> below (checked_add u64_max n 1) x.
Proof. unfold checked_add. destruct (_ <=? _)%N; simpl; lia. Qed.

Lemma below_next n : below (checked_add u64_max n 1) n.
Proof. unfold checked_add. destruct (_ <=? _)%N; simpl; lia. Qed.

Lemma saturating_add_le max x y : (saturating_add max x y <= max)%N.
Proof. unfold saturating_add; lia. Qed.

Lemma saturating_add_eq max x y :
  (x + y <= max)%N -> saturating_add max x y = (x + y)%N.
Proof. unfold saturating_add; lia. Qed.

#[export] Hint Resolve saturating_add_le : bombay.

(** ** Lists as [Vec] and [VecDeque]

    [iter().position(p)] with a boolean predicate. *)

(** [Option::or] *)
Definition option_or {X} (x y : option X) : option X := match x with Some _ => x | None => y end.

Lemma option_or_None {X} (x y : option X) : option_or x y = None -> x = None /\ y = None.
Proof. by destruct x, y. Qed.

Fixpoint position {A} (p : A -> bool) (l : list A) : option nat :=
  match l with
  | [] => None
  | x :: l => if p x then Some 0 else S <$> position p l
  end.

Lemma position_Some {A} (p : A -> bool) l i :
  position p l = Some i ->
  exists x, l !! i = Some x /\ p x = true /\
    forall j y, j < i -> l !! j = Some y -> p y = false.
Proof.
  revert i. induction l as [|a l IH]; intros i; simpl; [discriminate|].
  destruct (p a) eqn:Ha.
  - intros [= <-]. exists a. repeat split; auto. lia.
  - destruct (position p l) as [k|] eqn:Hk; simpl; [|discriminate].
    intros [= <-]. destruct (IH k eq_refl) as (x & Hx & Hp & Hmin).
    exists x. repeat split; auto.
    intros [|j] y Hj; simpl; [by intros [= ->]|]. intros; apply (Hmin j); auto; lia.
Qed.

Lemma position_None {A} (p : A -> bool) l :
  position p l = None <-> Forall (fun x => p x = false) l.
Proof.
  induction l as [|a l IH]; simpl; [split; auto|].
  destruct (p a) eqn:Ha.
  - split; [discriminate|]. intros H; inversion H; congruence.
  - rewrite Forall_cons, <- IH. destruct (position p l); simpl; naive_solver.
Qed.

(** [iter().find(p)] reads the element at [iter().position(p)]. *)
Lemma find_position {A} (p : A -> bool) l :
  List.find p l = position p l ≫= fun i => l !! i.
Proof.
  induction l as [|a l IH]; simpl; [done|].
  destruct (p a); simpl; [done|]. rewrite IH. by destruct (position p l).
Qed.

(** Searching after replacing the found element by one with the same answer. *)
Lemma find_insert_position {A} (p : A -> bool) l i x :
  position p l = Some i -> p x = true -> List.find p (<[i := x]> l) = Some x.
Proof.
  revert i. induction l as [|a l IH]; intros i; simpl; [discriminate|].
  destruct (p a) eqn:Ha; [intros [= <-] Hx; simpl; by rewrite Hx|].
  destruct (position p l) as [j|]; simpl; [|discriminate].
  intros [= <-] Hx. simpl. rewrite Ha. auto.
Qed.

(** Replacing an element that another search skips, by one it skips too. *)
Lemma find_insert_other {A} (p : A -> bool) l i x y :
  l !! i = Some y -> p y = false -> p x = false -> List.find p (<[i := x]> l) = List.find p l.
Proof.
  revert i. induction l as [|a l IH]; intros [|i] Hi Hy Hx; simplify_eq/=.
  - by rewrite Hx, Hy.
  - destruct (p a); auto.
Qed.

Lemma find_snoc {A} (p : A -> bool) l x :
  List.find p (l ++ [x]) =
    match List.find p l with Some y => Some y | None => if p x then Some x else None end.
Proof. induction l as [|a l IH]; simpl; [done|]. destruct (p a); auto. Qed.

Lemma position_lt {A} (p : A -> bool) l i :
  position p l = Some i -> i < length l.
Proof.
  intros (x & Hx & _)%position_Some. by apply lookup_lt_Some in Hx.
Qed.

(** [v.remove(v.iter().position(p)?)]: the position, the removed element and
    the rest; and [v.insert(i, x)]. *)
Definition take_at {A} (p : A -> bool) (l : list A) : option (nat * A * list A) :=
  match position p l with
  | None => None
  | Some i => match l !! i with Some x => Some (i, x, base.delete i l) | None => None end
  end.

Definition insert_at {A} (i : nat) (x : A) (l : list A) : list A := take i l ++ x :: drop i l.

Lemma take_at_Some {A} (p : A -> bool) l i x rest :
  take_at p l = Some (i, x, rest) ->
  l !! i = Some x /\ p x = true /\ rest = base.delete i l /\ position p l = Some i.
Proof.
  unfold take_at. destruct (position p l) as [j|] eqn:Hp; [|done].
  destruct (l !! j) as [y|] eqn:Hj; [|done]. intros [= -> -> <-].
  apply position_Some in Hp as (y & Hy & Hpy & _). by simplify_eq.
Qed.

Lemma take_at_None {A} (p : A -> bool) l : take_at p l = None <-> Forall (fun x => p x = false) l.
Proof.
  unfold take_at. rewrite <- position_None. destruct (position p l) as [j|] eqn:Hp; [|done].
  apply position_Some in Hp as (y & Hy & _). rewrite Hy. done.
Qed.

Lemma take_at_Permutation {A} (p : A -> bool) l i x rest :
  take_at p l = Some (i, x, rest) -> l ≡ₚ x :: rest.
Proof. intros (Hi & _ & -> & _)%take_at_Some. by apply delete_Permutation. Qed.

Lemma insert_at_Permutation {A} i (x : A) l : insert_at i x l ≡ₚ x :: l.
Proof. unfold insert_at. rewrite <- Permutation_middle. by rewrite take_drop. Qed.

Lemma insert_at_length {A} i (x : A) l : length (insert_at i x l) = S (length l).
Proof. by rewrite insert_at_Permutation. Qed.

Lemma insert_at_delete {A} i (x y : A) l :
  l !! i = Some y -> insert_at i x (base.delete i l) = <[i := x]> l.
Proof.
  revert i. induction l as [|z l IH]; intros [|i] Hi; simplify_eq/=; [done|].
  unfold insert_at in *. simpl. f_equal. by apply IH.
Qed.

Lemma reinserted {A} p (m : A) l rest f : take_at f l = Some (p, m, rest) -> insert_at p m rest = l.
Proof.
  intros (Hm & _ & -> & _)%take_at_Some. rewrite (insert_at_delete _ _ _ _ Hm). by apply list_insert_id.
Qed.

Lemma NoDup_snoc {X} (l : list X) x : NoDup l -> x ∉ l -> NoDup (l ++ [x]).
Proof.
  intros Hl Hx. apply list.NoDup_app. split_and!; [done| |apply NoDup_singleton].
  by intros y Hy ->%list_elem_of_singleton.
Qed.

(** ** Vectors as ordered sets *)

(** [if !v.contains(&x) { v.push(x) }]: a vector used as an ordered set. *)
Definition push_unique {X} `{!EqDecision X} (l : list X) (x : X) : list X :=
  if bool_decide (x ∈ l) then l else l ++ [x].

Lemma push_unique_NoDup {X} `{!EqDecision X} (l : list X) x : NoDup l -> NoDup (push_unique l x).
Proof. intros. unfold push_unique. case_bool_decide; [done|by apply NoDup_snoc]. Qed.

Lemma push_all_NoDup {X} `{!EqDecision X} (xs l : list X) :
  NoDup l -> NoDup (fold_left push_unique xs l).
Proof. revert l. induction xs as [|x xs IH]; intros l Hl; simpl; auto using push_unique_NoDup. Qed.

Lemma elem_of_push_all {X} `{!EqDecision X} (x : X) (xs l : list X) :
  x ∈ fold_left push_unique xs l <-> x ∈ l \/ x ∈ xs.
Proof.
  revert l. induction xs as [|y xs IH]; intros l; simpl; [rewrite elem_of_nil; tauto|].
  rewrite IH, elem_of_cons. unfold push_unique. case_bool_decide as Hy.
  - split; [tauto|]. intros [?|[->|?]]; auto.
  - rewrite elem_of_app, list_elem_of_singleton. tauto.
Qed.

(** Deleting at the position of [r] filters it out. *)
Lemma position_eq_Some {X} `{!EqDecision X} (l : list X) r i :
  position (fun x => bool_decide (x = r)) l = Some i -> l !! i = Some r.
Proof. by intros (x & Hx & ->%bool_decide_eq_true_1 & _)%position_Some. Qed.

Lemma position_eq_None {X} `{!EqDecision X} (l : list X) r :
  position (fun x => bool_decide (x = r)) l = None <-> r ∉ l.
Proof.
  rewrite position_None, list.Forall_forall. split.
  - intros H Hr. by apply H, bool_decide_eq_false_1 in Hr.
  - intros H x Hx. apply bool_decide_eq_false_2. by intros ->.
Qed.

Lemma position_eq_lookup {X} `{!EqDecision X} (l : list X) r i :
  NoDup l -> l !! i = Some r -> position (fun x => bool_decide (x = r)) l = Some i.
Proof.
  intros Hl Hi. destruct (position _ l) as [j|] eqn:Hj.
  - apply position_eq_Some in Hj. f_equal. by eapply NoDup_lookup.
  - apply position_eq_None in Hj. by apply list_elem_of_lookup_2 in Hi.
Qed.

Lemma filter_ne_id {X} `{!EqDecision X} (l : list X) r :
  r ∉ l -> filter (fun x => x <> r) l = l.
Proof.
  induction l as [|y l IH]; [done|]. intros [Hy Hl]%not_elem_of_cons.
  by rewrite filter_cons_True, IH.
Qed.

Lemma delete_filter_ne {X} `{!EqDecision X} (l : list X) r i :
  NoDup l -> l !! i = Some r -> base.delete i l = filter (fun x => x <> r) l.
Proof.
  revert i. induction l as [|y l IH]; intros i; [done|].
  intros [Hy Hl]%list.NoDup_cons. destruct i as [|i]; simpl.
  - intros [= ->]. rewrite filter_cons_False by (by intros []). by rewrite filter_ne_id.
  - intros Hi. rewrite filter_cons_True; [by rewrite (IH i)|].
    intros ->. by apply list_elem_of_lookup_2 in Hi.
Qed.

(** ** Folding a step function over a sequence of events, and invariants

    [run step s es] feeds the events in order; [reachable] is the same notion
    as an inductive predicate, used for invariants by rule induction. *)

Section Reachability.
  Context {S E : Type} (step : S -> E -> S).

Fixpoint run (s : S) (es : list E) : S :=
  match es with [] => s | e :: es => run (step s e) es end.

Inductive reachable (s0 : S) : S -> Prop :=
| reachable_init : reachable s0 s0
| reachable_step s e : reachable s0 s -> reachable s0 (step s e).

Lemma run_app s es1 es2 : run s (es1 ++ es2) = run (run s es1) es2.
Proof. revert s; induction es1; simpl; auto. Qed.

Lemma reachable_run s0 s : reachable s0 s <-> exists es, run s0 es = s.
Proof.
  split.
  - induction 1 as [|s e _ [es <-]]; [by exists []|].
    exists (es ++ [e]). by rewrite run_app.
  - intros [es <-]. induction es as [|e es IH] using rev_ind; [constructor|].
    rewrite run_app; simpl. by constructor.
Qed.

Lemma reachable_invariant (I : S -> Prop) s0 :
  I s0 -> (forall s e, I s -> I (step s e)) ->
  forall s, reachable s0 s -> I s.
Proof. intros H0 Hs s. induction 1; auto. Qed.

End Reachability.

(** ** Traces of folds that emit an output per event

    [trace] runs a total fold; [otrace] runs a fold that may panic ([None]),
    which ends the run. *)

Section Traces.
  Context {S E O : Type}.

Fixpoint trace (step : S -> E -> S * O) (s : S) (es : list E) : S * list O :=
  match es with
  | [] => (s, [])
  | e :: es =>
      let '(s1, o) := step s e in
      let '(s2, os) := trace step s1 es in (s2, o :: os)
  end.

Fixpoint otrace (step : S -> E -> option (S * O)) (s : S) (es : list E) : option (S * list O) :=
  match es with
  | [] => Some (s, [])
  | e :: es =>
      match step s e with
      | None => None
      | Some (s1, o) =>
          match otrace step s1 es with
          | None => None
          | Some (s2, os) => Some (s2, o :: os)
          end
      end
  end.

Lemma otrace_app step s es1 es2 s1 os1 s2 os2 :
  otrace step s es1 = Some (s1, os1) -> otrace step s1 es2 = Some (s2, os2) ->
  otrace step s (es1 ++ es2) = Some (s2, os1 ++ os2).
Proof.
  revert s os1. induction es1 as [|e es1 IH]; intros s os1; simpl; [by intros [= -> <-]|].
  destruct (step s e) as [[s' o]|]; [|done].
  destruct (otrace step s' es1) as [[s'' os]|] eqn:Ht; [|done]. intros [= -> <-] H2.
  by rewrite (IH _ _ Ht H2).
Qed.

Lemma trace_length step s es : length (snd (trace step s es)) = length es.
Proof.
  revert s; induction es as [|e es IH]; intros s; simpl; [done|].
  destruct (step s e) as [s1 o]. specialize (IH s1).
  destruct (trace step s1 es). simpl in *. by rewrite IH.
Qed.

Lemma trace_app_fst step s es1 es2 :
  (trace step s (es1 ++ es2)).1 = (trace step (trace step s es1).1 es2).1.
Proof.
  revert s. induction es1 as [|e es1 IH]; intros s; [done|]. cbn [app trace].
  destruct (step s e) as [s1 o]. specialize (IH s1).
  destruct (trace step s1 (es1 ++ es2)), (trace step s1 es1). exact IH.
Qed.

Lemma trace_snoc_fst step s es e :
  (trace step s (es ++ [e])).1 = (step (trace step s es).1 e).1.
Proof. rewrite trace_app_fst. cbn [trace]. by destruct (step _ e). Qed.

Lemma trace_invariant (I : S -> Prop) step :
  (forall s e, I s -> I (fst (step s e))) ->
  forall es s, I s -> I (fst (trace step s es)).
Proof.
  intros Hstep es. induction es as [|e es IH]; intros s Hs; simpl; [done|].
  specialize (Hstep s e Hs). destruct (step s e) as [s1 o]. simpl in Hstep.
  specialize (IH s1 Hstep). by destruct (trace step s1 es).
Qed.

(** The contributions of the steps of a run, in order: [f] reads one event and
    the output it produced. *)
Fixpoint collect {X} (f : E -> O -> list X) (es : list E) (os : list O) : list X :=
  match es, os with e :: es, o :: os => f e o ++ collect f es os | _, _ => [] end.

(** First-in first-out conservation lifts from one step to a run: if every step
    removes [out] from the front of a queue and appends [inp] to its end, so
    does the whole run. *)
Lemma trace_queue_law {X} (I : S -> Prop) step (queue : S -> list X) (out inp : E -> O -> list X) :
  (forall s e, I s -> I (fst (step s e))) ->
  (forall s e, I s ->
     out e (snd (step s e)) ++ queue (fst (step s e)) = queue s ++ inp e (snd (step s e))) ->
  forall es s, I s ->
    collect out es (snd (trace step s es)) ++ queue (fst (trace step s es)) =
      queue s ++ collect inp es (snd (trace step s es)).
Proof.
  intros HI Hq es. induction es as [|e es IH]; intros s Hs; [symmetry; apply app_nil_r|].
  cbn [trace]. specialize (HI s e Hs). specialize (Hq s e Hs).
  destruct (step s e) as [s1 o]. cbn [fst snd] in *. specialize (IH s1 HI).
  destruct (trace step s1 es) as [s2 os]. cbn [fst snd collect] in *.
  by rewrite <- app_assoc, IH, app_assoc, Hq, app_assoc.
Qed.

(** A relation of every step between event and output holds along a run. *)
Lemma trace_Forall2 (I : S -> Prop) step (R : E -> O -> Prop) :
  (forall s e, I s -> I (fst (step s e))) ->
  (forall s e, I s -> R e (snd (step s e))) ->
  forall es s, I s -> Forall2 R es (snd (trace step s es)).
Proof.
  intros HI HR es. induction es as [|e es IH]; intros s Hs; simpl; [constructor|].
  specialize (HI s e Hs). specialize (HR s e Hs). destruct (step s e) as [s1 o].
  specialize (IH s1 HI). destruct (trace step s1 es). by constructor.
Qed.

(** The same up to reordering, with a state that owns a multiset. *)
Lemma trace_multiset_law {X} (I : S -> Prop) step (own : S -> list X) (out inp : E -> O -> list X) :
  (forall s e, I s -> I (fst (step s e))) ->
  (forall s e, I s ->
     out e (snd (step s e)) ++ own (fst (step s e)) ≡ₚ own s ++ inp e (snd (step s e))) ->
  forall es s, I s ->
    collect out es (snd (trace step s es)) ++ own (fst (trace step s es)) ≡ₚ
      own s ++ collect inp es (snd (trace step s es)).
Proof.
  intros HI Hq es. induction es as [|e es IH]; intros s Hs; [symmetry; by rewrite app_nil_r|].
  cbn [trace]. specialize (HI s e Hs). specialize (Hq s e Hs).
  destruct (step s e) as [s1 o]. cbn [fst snd] in *. specialize (IH s1 HI).
  destruct (trace step s1 es) as [s2 os]. cbn [fst snd collect] in *.
  by rewrite <- app_assoc, IH, app_assoc, Hq, app_assoc.
Qed.

(** The same as an inclusion. *)
Lemma trace_submseteq_law {X} step (own : S -> list X) (out inp : E -> O -> list X) :
  (forall s e, out e (snd (step s e)) ++ own (fst (step s e)) ⊆+ own s ++ inp e (snd (step s e))) ->
  forall es s,
    collect out es (snd (trace step s es)) ++ own (fst (trace step s es)) ⊆+
      own s ++ collect inp es (snd (trace step s es)).
Proof.
  intros Hq es. induction es as [|e es IH]; intros s; [by rewrite app_nil_r|].
  cbn [trace]. specialize (Hq s e).
  destruct (step s e) as [s1 o]. cbn [fst snd] in *. specialize (IH s1).
  destruct (trace step s1 es) as [s2 os]. cbn [fst snd collect] in *.
  rewrite <- app_assoc. etrans; [apply submseteq_skips_l, IH|].
  rewrite !app_assoc. by apply submseteq_skips_r.
Qed.

(** A fold that neither panics nor leaves the invariant never panics on a run. *)
Lemma otrace_total (I : S -> Prop) step :
  (forall s e, I s -> exists s' o, step s e = Some (s', o) /\ I s') ->
  forall es s, I s -> exists s' os, otrace step s es = Some (s', os) /\ I s'.
Proof.
  intros Hstep es. induction es as [|e es IH]; intros s Hs; simpl; [eauto|].
  destruct (Hstep s e Hs) as (s1 & o & -> & H1).
  destruct (IH s1 H1) as (s2 & os & -> & H2). eauto.
Qed.

End Traces.

(** ** Tactics of the development *)

(** Case analysis on the first [match] of the goal, keeping the equation. *)
Ltac split_match :=
  match goal with
  | |- context [match ?x with _ => _ end] =>
      lazymatch x with
      | context [match _ with _ => _ end] => fail
      | _ => let H := fresh "Hm" in destruct x eqn:H
      end
  end.

(** The same in a hypothesis, closing the impossible branches. *)
Ltac split_match_in H :=
  match type of H with
  | context [match ?x with _ => _ end] =>
      lazymatch x with
      | context [match _ with _ => _ end] => fail
      | _ => let Hm := fresh "Hm" in destruct x eqn:Hm; try discriminate H
      end
  end.
