(* ===== verification/Effects.v ===== *)
(** * The behavior algebra: verdicts, creations, sends, actions, events

    Models [crates/behavior/src/next.rs], the value types of
    [actor/creation.rs] and [actor/addressing.rs], the send-effect algebra of
    [effects/sending.rs], [Actions] of [effects/actions.rs], the event algebra
    of [user_event.rs], the [Behavior] trait of [transition.rs], and the
    [DeliveryRoute] contract of [crates/actors/src/composition/delivery_route.rs].

    A Rust trait with associated functions becomes a class; the laws that the
    actors rely on are a second class, discharged by every implementation. *)

From stdpp Require Import base list option numbers.
From S2P Require Import Prelude.

(** ** Verdicts ([next.rs]) *)

Inductive Never : Set := .

Inductive Stopped : Set := the_Stopped.

Inductive Step (Ph R : Type) : Type :=
| Continue
| Goto (phase : Ph)
| Stop (r : R).
Arguments Continue {Ph R}.
Arguments Goto {Ph R} _.
Arguments Stop {Ph R} _.

Definition Become (Ph : Type) : Type := Step Ph Stopped.

Definition is_stop {Ph} (b : Become Ph) : bool :=
  match b with Stop _ => true | _ => false end.

(** ** Creation identities ([actor/creation.rs]) *)

Record CreationId := { creation_number : N }.

Record CreationSequence := { next : option N }.

Definition CreationSequence_new : CreationSequence := {| next := Some 1%N |}.

Definition issue (s : CreationSequence) : CreationSequence * option CreationId :=
  match next s with
  | None => (s, None)
  | Some value =>
      ({| next := checked_add u64_max value 1 |}, Some {| creation_number := value |})
  end.

Inductive CreationKind : Type :=
| Birth
| Replacement (previous : CreationId).

Record CreateChild (New : Type) := {
  id : CreationId;
  child : New;
  kind : CreationKind
}.
Arguments id {New} _.
Arguments child {New} _.
Arguments kind {New} _.

Definition birth {New} (i : CreationId) (c : New) : CreateChild New :=
  {| id := i; child := c; kind := Birth |}.

Definition replacement {New} (i previous : CreationId) (c : New) : CreateChild New :=
  {| id := i; child := c; kind := Replacement previous |}.

(** One ordered creation batch. *)
Record Creations (Item : Type) := mkCreations { items : list Item }.
Arguments mkCreations {Item} _.
Arguments items {Item} _.

Definition Creations_empty {Item} : Creations Item := mkCreations [].
Definition Creations_one {Item} (i : Item) : Creations Item := mkCreations [i].
Definition Creations_and {Item} (c : Creations Item) (i : Item) : Creations Item :=
  mkCreations (items c ++ [i]).
Definition Creations_extend {Item} (c d : Creations Item) : Creations Item :=
  mkCreations (items c ++ items d).
Definition into_one {Item} (c : Creations Item) : result Item (Creations Item) :=
  match items c with [i] => Ok i | _ => Err c end.

(** Issuing [n] times from a fresh sequence. *)
Fixpoint issue_many (n : nat) (s : CreationSequence) : CreationSequence * list (option CreationId) :=
  match n with
  | 0 => (s, [])
  | S n =>
      let '(s, i) := issue s in
      let '(s, ids) := issue_many n s in (s, i :: ids)
  end.

(** ** Send effects ([effects/sending.rs]) *)

Class SendEffects (Sends : Type) := {
  sends_empty : Sends;
  sends_append : Sends -> Sends -> Sends
}.

Class SendEffectsLaws (Sends : Type) `{!SendEffects Sends} := {
  append_empty_l s : sends_append sends_empty s = s;
  append_empty_r s : sends_append s sends_empty = s;
  append_assoc s t u : sends_append s (sends_append t u) = sends_append (sends_append s t) u
}.

(** [SendEffects for Vec<T>]. *)
#[export] Instance Vec_SendEffects T : SendEffects (list T) := {
  sends_empty := [];
  sends_append := app
}.

(** [SendInput<T, Own> for Vec<T>]. *)
Definition Vec_emit {T} (l : list T) (x : T) : list T := l ++ [x].

#[export] Instance Vec_SendEffectsLaws T : SendEffectsLaws (list T).
Proof. split; intros; simpl; [done|apply app_nil_r|apply app_assoc]. Qed.

Inductive NoSends : Set := the_NoSends.

#[export] Instance NoSends_SendEffects : SendEffects NoSends := {
  sends_empty := the_NoSends;
  sends_append _ _ := the_NoSends
}.

#[export] Instance NoSends_SendEffectsLaws : SendEffectsLaws NoSends.
Proof. split; intros; by repeat match goal with s : NoSends |- _ => destruct s end. Qed.

(** Wrapper-owned effects around the inner behavior's effects. *)
Record SendLayer (Owned Inner : Type) := mkSendLayer { owned : Owned; inner : Inner }.
Arguments mkSendLayer {Owned Inner} _ _.
Arguments owned {Owned Inner} _.
Arguments inner {Owned Inner} _.

#[export] Instance SendLayer_SendEffects O I `{!SendEffects O, !SendEffects I} :
  SendEffects (SendLayer O I) := {
  sends_empty := mkSendLayer sends_empty sends_empty;
  sends_append a b :=
    mkSendLayer (sends_append (owned a) (owned b)) (sends_append (inner a) (inner b))
}.

#[export] Instance SendLayer_SendEffectsLaws O I
  `{!SendEffects O, !SendEffects I, !SendEffectsLaws O, !SendEffectsLaws I} :
  SendEffectsLaws (SendLayer O I).
Proof.
  split; simpl.
  - intros []; simpl; by rewrite !append_empty_l.
  - intros []; simpl; by rewrite !append_empty_r.
  - intros [] [] []; simpl; by rewrite !append_assoc.
Qed.

(** The lane of typed interpreter requests. *)
Record InterpreterRequests (M : Type) := mkRequests { requests : list M }.
Arguments mkRequests {M} _.
Arguments requests {M} _.

Definition InterpreterRequests_one {M} (r : M) : InterpreterRequests M := mkRequests [r].

#[export] Instance InterpreterRequests_SendEffects M : SendEffects (InterpreterRequests M) := {
  sends_empty := mkRequests [];
  sends_append a b := mkRequests (requests a ++ requests b)
}.

#[export] Instance InterpreterRequests_SendEffectsLaws M : SendEffectsLaws (InterpreterRequests M).
Proof.
  split; simpl.
  - by intros [].
  - intros []; simpl; by rewrite app_nil_r.
  - intros [] [] []; simpl; by rewrite app_assoc.
Qed.

(** [actions.sends.<lane>.append(InterpreterRequests::one(request))] *)
Definition append_one {M} (x : M) (l : InterpreterRequests M) : InterpreterRequests M :=
  sends_append l (InterpreterRequests_one x).

(** [actions.sends.<lane>.send(item)] *)
Definition send_item {M} (x : M) (l : list M) : list M := l ++ [x].

(** The two-lane product of the routing actors ([routing/mod.rs]). *)
Record DeliveryOutcomes (Deliveries OutcomeSends : Type) := mkDeliveryOutcomes {
  deliveries : Deliveries;
  outcomes : OutcomeSends
}.
Arguments mkDeliveryOutcomes {_ _} _ _.
Arguments deliveries {_ _} _.
Arguments outcomes {_ _} _.

#[export] Instance DeliveryOutcomes_SendEffects D O `{!SendEffects D, !SendEffects O} :
  SendEffects (DeliveryOutcomes D O) := {
  sends_empty := mkDeliveryOutcomes sends_empty sends_empty;
  sends_append a b :=
    mkDeliveryOutcomes (sends_append (deliveries a) (deliveries b))
                       (sends_append (outcomes a) (outcomes b))
}.

#[export] Instance DeliveryOutcomes_SendEffectsLaws D O
  `{!SendEffects D, !SendEffects O, !SendEffectsLaws D, !SendEffectsLaws O} :
  SendEffectsLaws (DeliveryOutcomes D O).
Proof.
  split; simpl.
  - intros []; simpl; by rewrite !append_empty_l.
  - intros []; simpl; by rewrite !append_empty_r.
  - intros [] [] []; simpl; by rewrite !append_assoc.
Qed.

(** ** Actions ([effects/actions.rs]) *)

Record Actions (Ch Ph Sends : Type) := mkActions {
  sends : Sends;
  creates : Creations (CreateChild Ch);
  become_ : Become Ph
}.
Arguments mkActions {Ch Ph Sends} _ _ _.
Arguments sends {Ch Ph Sends} _.
Arguments creates {Ch Ph Sends} _.
Arguments become_ {Ch Ph Sends} _.

Definition map_sends {Ch Ph S T} (f : S -> T) (a : Actions Ch Ph S) : Actions Ch Ph T :=
  mkActions (f (sends a)) (creates a) (become_ a).

Definition map_become {Ch Ph Ph' S} (f : Become Ph -> Become Ph') (a : Actions Ch Ph S) :
  Actions Ch Ph' S :=
  mkActions (sends a) (creates a) (f (become_ a)).

Section ActionConstructors.
  Context {Ch Ph Sends : Type} `{!SendEffects Sends}.

Definition just (b : Become Ph) : Actions Ch Ph Sends :=
  mkActions sends_empty Creations_empty b.
Definition cont : Actions Ch Ph Sends := just Continue.
Definition stop : Actions Ch Ph Sends := just (Stop the_Stopped).
Definition goto (p : Ph) : Actions Ch Ph Sends := just (Goto p).
Definition send (s : Sends) : Actions Ch Ph Sends :=
  mkActions s Creations_empty Continue.
Definition create (c : Creations (CreateChild Ch)) : Actions Ch Ph Sends :=
  mkActions sends_empty c Continue.

End ActionConstructors.

(** ** Events ([user_event.rs]) *)

Record User (A M : Type) := mkUser { from : A; message : M }.
Arguments mkUser {A M} _ _.
Arguments from {A M} _.
Arguments message {A M} _.

Class UserEvent (A M Ev : Type) := {
  user : A -> M -> Ev;
  into_user : Ev -> result (User A M) Ev
}.

Class UserEventLaws (A M Ev : Type) `{!UserEvent A M Ev} := {
  into_user_user a m : into_user (user a m) = Ok (mkUser a m);
  into_user_Ok e u : into_user e = Ok u -> user (from u) (message u) = e;
  into_user_Err e e' : into_user e = Err e' -> e' = e
}.

#[export] Instance User_UserEvent A M : UserEvent A M (User A M) := {
  user a m := mkUser a m;
  into_user u := Ok u
}.

#[export] Instance User_UserEventLaws A M : UserEventLaws A M (User A M).
Proof. split; simpl; [done| |done]. intros [] u [= <-]; done. Qed.

Inductive EventLayer (Owned Inner : Type) : Type :=
| Owned_ (o : Owned)
| Inner_ (i : Inner).
Arguments Owned_ {Owned Inner} _.
Arguments Inner_ {Owned Inner} _.

#[export] Instance EventLayer_UserEvent A M O I `{!UserEvent A M I} :
  UserEvent A M (EventLayer O I) := {
  user a m := Inner_ (user a m);
  into_user e :=
    match e with
    | Inner_ i => map_err Inner_ (into_user i)
    | Owned_ o => Err (Owned_ o)
    end
}.

#[export] Instance EventLayer_UserEventLaws A M O I `{!UserEvent A M I, !UserEventLaws A M I} :
  UserEventLaws A M (EventLayer O I).
Proof.
  split; simpl.
  - intros a m. by rewrite into_user_user.
  - intros [o|i] u; simpl; [discriminate|].
    destruct (into_user i) as [v|e] eqn:He; simpl; [|discriminate].
    intros [= <-]. by rewrite (into_user_Ok _ _ He).
  - intros [o|i] e'; simpl; [by intros [= <-]|].
    destruct (into_user i) as [v|e] eqn:He; simpl; [discriminate|].
    intros [= <-]. by rewrite (into_user_Err _ _ He).
Qed.

(** ** The behavior fold ([transition.rs])

    A fold mutates the behavior in place and returns [Actions] or a controlled
    failure: the state after the call is returned with either outcome. *)

Definition Acted (Ch Ph Sends E : Type) : Type := result (Actions Ch Ph Sends) E.

Record Behavior (St Ev Ch Ph Sends E : Type) := mkBehavior {
  init : St -> St * Acted Ch Ph Sends E;
  transition : St -> Ev -> St * Acted Ch Ph Sends E
}.
Arguments mkBehavior {St Ev Ch Ph Sends E} _ _.
Arguments init {St Ev Ch Ph Sends E} _ _.
Arguments transition {St Ev Ch Ph Sends E} _ _ _.

Definition initialize {St Ev Ch Ph Sends E} (b : Behavior St Ev Ch Ph Sends E) (s : St) :
  St * Acted Ch Ph Sends E := init b s.

Definition delegate_transition {St Ev Ch Ph Sends E} (b : Behavior St Ev Ch Ph Sends E)
  (s : St) (e : Ev) : St * Acted Ch Ph Sends E := transition b s e.

(** ** Recipients and deliveries ([actor/addressing.rs], [delivery_route.rs]) *)

Record Recipient (A : Type) := mkRecipient { address : A }.
Arguments mkRecipient {A} _.
Arguments address {A} _.

#[export] Instance Recipient_EqDecision A `{!EqDecision A} : EqDecision (Recipient A).
Proof. solve_decision. Defined.

Record EstablishedRecipient (Endpoint : Type) := issued { endpoint : Endpoint }.
Arguments issued {Endpoint} _.
Arguments endpoint {Endpoint} _.

Record Delivery (A M : Type) := mkDelivery { to : Recipient A; delivered : M }.
Arguments mkDelivery {A M} _ _.
Arguments to {A M} _.
Arguments delivered {A M} _.

Record EstablishedDelivery (Endpoint M : Type) := mkEstablishedDelivery {
  established_to : EstablishedRecipient Endpoint;
  established_message : M
}.
Arguments mkEstablishedDelivery {Endpoint M} _ _.
Arguments established_to {Endpoint M} _.
Arguments established_message {Endpoint M} _.

Inductive ReplyRoute (A Endpoint : Type) : Type :=
| Logical (r : Recipient A)
| Established (r : EstablishedRecipient Endpoint).
Arguments Logical {A Endpoint} _.
Arguments Established {A Endpoint} _.

Inductive ReplyDelivery (L Es : Type) : Type :=
| LogicalDelivery (d : L)
| EstablishedReply (d : Es).
Arguments LogicalDelivery {L Es} _.
Arguments EstablishedReply {L Es} _.

Record ReplyDeliveries (L Es : Type) := mkReplyDeliveries {
  reply_deliveries : list (ReplyDelivery L Es)
}.
Arguments mkReplyDeliveries {L Es} _.
Arguments reply_deliveries {L Es} _.

#[export] Instance ReplyDeliveries_SendEffects L Es : SendEffects (ReplyDeliveries L Es) := {
  sends_empty := mkReplyDeliveries [];
  sends_append a b := mkReplyDeliveries (reply_deliveries a ++ reply_deliveries b)
}.

#[export] Instance ReplyDeliveries_SendEffectsLaws L Es : SendEffectsLaws (ReplyDeliveries L Es).
Proof.
  split; simpl.
  - by intros [].
  - intros []; simpl; by rewrite app_nil_r.
  - intros [] [] []; simpl; by rewrite app_assoc.
Qed.

(** The sealed route trait: [deliver] turns one message into this route's send
    product. *)
Class DeliveryRoute (Route Msg Sends : Type) := deliver : Route -> Msg -> Sends.

(** What every implementation promises: the addressed communications of a send
    product are a list, [empty] carries none, [append] concatenates, and one
    [deliver] contributes exactly its own message to its own route. *)
Class RouteLaws (Route Msg Sends : Type)
  `{!SendEffects Sends, !DeliveryRoute Route Msg Sends} := {
  addressed : Sends -> list (Route * Msg);
  addressed_empty : addressed sends_empty = [];
  addressed_append s t : addressed (sends_append s t) = addressed s ++ addressed t;
  addressed_deliver r m : addressed (deliver r m) = [(r, m)]
}.

#[export] Instance Recipient_DeliveryRoute A M :
  DeliveryRoute (Recipient A) M (list (Delivery A M)) :=
  fun r m => [mkDelivery r m].

#[export] Instance EstablishedRecipient_DeliveryRoute Ep M :
  DeliveryRoute (EstablishedRecipient Ep) M (list (EstablishedDelivery Ep M)) :=
  fun r m => [mkEstablishedDelivery r m].

#[export] Instance ReplyRoute_DeliveryRoute A Ep M :
  DeliveryRoute (ReplyRoute A Ep) M
    (ReplyDeliveries (Delivery A M) (EstablishedDelivery Ep M)) :=
  fun r m =>
    mkReplyDeliveries
      [match r with
       | Logical r => LogicalDelivery (mkDelivery r m)
       | Established r => EstablishedReply (mkEstablishedDelivery r m)
       end].

#[export] Program Instance Recipient_RouteLaws A M :
  RouteLaws (Recipient A) M (list (Delivery A M)) := {
  addressed l := (fun d => (to d, delivered d)) <$> l
}.
Next Obligation. done. Qed.
Next Obligation. intros; simpl. apply fmap_app. Qed.
Next Obligation. done. Qed.

#[export] Program Instance EstablishedRecipient_RouteLaws Ep M :
  RouteLaws (EstablishedRecipient Ep) M (list (EstablishedDelivery Ep M)) := {
  addressed l := (fun d => (established_to d, established_message d)) <$> l
}.
Next Obligation. done. Qed.
Next Obligation. intros; simpl. apply fmap_app. Qed.
Next Obligation. done. Qed.

#[export] Program Instance ReplyRoute_RouteLaws A Ep M :
  RouteLaws (ReplyRoute A Ep) M (ReplyDeliveries (Delivery A M) (EstablishedDelivery Ep M)) := {
  addressed l :=
    (fun d => match d with
              | LogicalDelivery d => (Logical (to d), delivered d)
              | EstablishedReply d => (Established (established_to d), established_message d)
              end) <$> reply_deliveries l
}.
Next Obligation. done. Qed.
Next Obligation. intros; simpl. apply fmap_app. Qed.
Next Obligation. by intros A Ep M [] m. Qed.

#[export] Hint Rewrite @addressed_empty @addressed_append @addressed_deliver : bombay.

(** ** Folds whose error type is [Never] *)

Definition ok_actions {Ch Ph Sends} (a : Acted Ch Ph Sends Never) : Actions Ch Ph Sends :=
  match a with Ok x => x | Err e => match e with end end.

Definition ok_sends {Ch Ph Sends} (a : Acted Ch Ph Sends Never) : Sends :=
  sends (ok_actions a).

(** The messages, in order, that a send product addresses. *)
Definition messages_of {Route Msg Sends} `{RouteLaws Route Msg Sends} (s : Sends) : list Msg :=
  snd <$> addressed s.

Section MessagesOf.
  Context {Route Msg Sends : Type} `{RouteLaws Route Msg Sends}.

Lemma messages_of_empty : messages_of (sends_empty : Sends) = [].
Proof. unfold messages_of. by rewrite addressed_empty. Qed.

Lemma messages_of_append (s t : Sends) :
  messages_of (sends_append s t) = messages_of s ++ messages_of t.
Proof. unfold messages_of. by rewrite addressed_append, fmap_app. Qed.

Lemma messages_of_deliver (r : Route) (m : Msg) : messages_of (deliver r m) = [m].
Proof. unfold messages_of. by rewrite addressed_deliver. Qed.

(** A loop that appends one delivery per element. *)
Lemma fold_deliver_addressed {X} (to : X -> Route) (msg : X -> Msg) (l : list X) : forall s : Sends,
  addressed (fold_left (fun s x => sends_append s (deliver (to x) (msg x))) l s) =
    addressed s ++ ((fun x => (to x, msg x)) <$> l).
Proof.
  induction l as [|x l IH]; intros s; csimpl; [by rewrite app_nil_r|].
  rewrite IH, addressed_append, addressed_deliver, <- app_assoc. done.
Qed.

End MessagesOf.

#[export] Hint Rewrite @messages_of_empty @messages_of_append @messages_of_deliver : bombay.
