(* ===== verification/BTreeMap.v ===== *)
(** * Ordered maps

    Rust's [BTreeMap] as a strictly sorted association list, with the
    operations that the actors use ([contains_key], [get], [insert], [remove],
    [len], [range(..=k)]).  Rust's [Ord] is a class of total boolean orders. *)

From stdpp Require Import base list option numbers sorting.
From S2P Require Import Prelude.

Class Ord (K : Type) := {
  leb : K -> K -> bool;
  leb_refl x : leb x x = true;
  leb_trans x y z : leb x y = true -> leb y z = true -> leb x z = true;
  leb_antisym x y : leb x y = true -> leb y x = true -> x = y;
  leb_total x y : leb x y = true \/ leb y x = true
}.

#[export] Program Instance nat_Ord : Ord nat := { leb := Nat.leb }.
Next Obligation. intros; apply Nat.leb_refl. Qed.
Next Obligation. intros x y z ?%Nat.leb_le ?%Nat.leb_le; apply Nat.leb_le; lia. Qed.
Next Obligation. intros x y ?%Nat.leb_le ?%Nat.leb_le; lia. Qed.
Next Obligation. intros x y; rewrite !Nat.leb_le; lia. Qed.

#[export] Program Instance N_Ord : Ord N := { leb := N.leb }.
Next Obligation. intros; apply N.leb_refl. Qed.
Next Obligation. intros x y z ?%N.leb_le ?%N.leb_le; apply N.leb_le; lia. Qed.
Next Obligation. intros x y ?%N.leb_le ?%N.leb_le; lia. Qed.
Next Obligation. intros x y; rewrite !N.leb_le; lia. Qed.

Section OrdFacts.
  Context {K : Type} `{!Ord K}.

Definition ltb (x y : K) : bool := negb (leb y x).

Lemma leb_not x y : leb x y = false -> ltb y x = true.
Proof. unfold ltb. by intros ->. Qed.

Lemma ltb_leb x y : ltb x y = true -> leb x y = true.
Proof. unfold ltb. intros ?%negb_true_iff. destruct (leb_total x y); congruence. Qed.

Lemma ltb_irrefl x : ltb x x = false.
Proof. unfold ltb. by rewrite leb_refl. Qed.

Lemma ltb_neq x y : ltb x y = true -> x <> y.
Proof. intros H ->. rewrite ltb_irrefl in H. discriminate. Qed.

Lemma leb_ltb_trans x y z : leb x y = true -> ltb y z = true -> ltb x z = true.
Proof.
  unfold ltb. intros H1 H2%negb_true_iff. apply negb_true_iff.
  destruct (leb z x) eqn:E; [|done]. rewrite (leb_trans _ _ _ E H1) in H2. discriminate.
Qed.

Lemma ltb_trans x y z : ltb x y = true -> ltb y z = true -> ltb x z = true.
Proof. intros H1%ltb_leb. by apply leb_ltb_trans. Qed.

Lemma ltb_or_eq x y : leb x y = true -> ltb x y = true \/ x = y.
Proof.
  intros H. unfold ltb. destruct (leb y x) eqn:E; [right|by left]. by apply leb_antisym.
Qed.

#[export] Instance Ord_EqDecision : EqDecision K | 100.
Proof.
  intros x y. destruct (leb x y) eqn:H1, (leb y x) eqn:H2;
    [left; by apply leb_antisym|right..]; intros ->; rewrite leb_refl in *; discriminate.
Defined.

End OrdFacts.

Section BTreeMap.
  Context {K V : Type} `{!Ord K}.

Definition BTreeMap : Type := list (K * V).

Implicit Types m : BTreeMap.

Fixpoint bt_get (k : K) (m : BTreeMap) : option V :=
  match m with
  | [] => None
  | (k', v) :: m => if bool_decide (k = k') then Some v else bt_get k m
  end.

Definition bt_contains (k : K) (m : BTreeMap) : bool :=
  match bt_get k m with Some _ => true | None => false end.

(** Insertion keeps the order; the value of an existing key is replaced. *)
Fixpoint bt_insert (k : K) (v : V) (m : BTreeMap) : BTreeMap :=
  match m with
  | [] => [(k, v)]
  | (k', v') :: m' =>
      if bool_decide (k = k') then (k, v) :: m'
      else if leb k k' then (k, v) :: m
      else (k', v') :: bt_insert k v m'
  end.

Fixpoint bt_delete (k : K) (m : BTreeMap) : BTreeMap :=
  match m with
  | [] => []
  | (k', v') :: m' => if bool_decide (k = k') then m' else (k', v') :: bt_delete k m'
  end.

(** [remove]: the removed value and the remaining map. *)
Definition bt_remove (k : K) (m : BTreeMap) : option (V * BTreeMap) :=
  match bt_get k m with Some v => Some (v, bt_delete k m) | None => None end.

(** [range(..=k)], in key order. *)
Fixpoint bt_range_to (k : K) (m : BTreeMap) : BTreeMap :=
  match m with
  | [] => []
  | (k', v') :: m' => if leb k' k then (k', v') :: bt_range_to k m' else []
  end.

(** ** Strict sortedness *)

Definition sorted (m : BTreeMap) : Prop :=
  StronglySorted (fun a b => ltb (fst a) (fst b) = true) m.

Lemma sorted_nil : sorted [].
Proof. constructor. Qed.

Lemma sorted_cons k v m :
  sorted ((k, v) :: m) <-> sorted m /\ Forall (fun b => ltb k (fst b) = true) m.
Proof. split; [by inversion 1|intros []; by constructor]. Qed.

Lemma sorted_keys_NoDup m : sorted m -> NoDup (fst <$> m).
Proof.
  induction m as [|[k v] m IH]; [intros; constructor|].
  intros [Hs Hf]%sorted_cons. csimpl. constructor; auto.
  intros ([k' v'] & Hk & Hin)%list_elem_of_fmap; simpl in *; subst.
  rewrite Forall_forall in Hf. specialize (Hf _ Hin). simpl in Hf.
  by rewrite ltb_irrefl in Hf.
Qed.

Lemma bt_get_Some k v m : sorted m -> bt_get k m = Some v <-> (k, v) ∈ m.
Proof.
  induction m as [|[k' v'] m IH]; simpl; [intros; split; [discriminate|by intros ?%not_elem_of_nil]|].
  intros [Hs Hf]%sorted_cons. case_bool_decide; subst.
  - rewrite elem_of_cons. split; [intros [= ->]; auto|]. intros [[= ->]|Hin]; [done|].
    rewrite Forall_forall in Hf. specialize (Hf _ Hin). simpl in Hf. by rewrite ltb_irrefl in Hf.
  - rewrite IH by done. rewrite elem_of_cons. naive_solver.
Qed.

Lemma bt_get_None k m : bt_get k m = None <-> k ∉ (fst <$> m).
Proof.
  induction m as [|[k' v'] m IH]; csimpl; [split; auto; intros _ ?%not_elem_of_nil; done|].
  rewrite not_elem_of_cons. case_bool_decide; naive_solver.
Qed.

Lemma bt_contains_false k m : bt_contains k m = false <-> k ∉ (fst <$> m).
Proof. unfold bt_contains. rewrite <- bt_get_None. destruct (bt_get k m); naive_solver. Qed.

Lemma bt_insert_Permutation k v m :
  k ∉ (fst <$> m) -> bt_insert k v m ≡ₚ (k, v) :: m.
Proof.
  induction m as [|[k' v'] m IH]; csimpl; [done|].
  rewrite not_elem_of_cons. intros [Hk Hm]. case_bool_decide; [done|].
  destruct (leb k k'); [done|]. rewrite IH by done. apply Permutation_swap.
Qed.

Lemma bt_insert_sorted k v m : k ∉ (fst <$> m) -> sorted m -> sorted (bt_insert k v m).
Proof.
  induction m as [|[k' v'] m IH]; csimpl; [intros; repeat constructor|].
  rewrite not_elem_of_cons. intros [Hk Hm] [Hs Hf]%sorted_cons.
  case_bool_decide; [done|]. destruct (leb k k') eqn:Hle.
  - destruct (ltb_or_eq _ _ Hle) as [Hlt|]; [|done].
    apply sorted_cons. split; [by apply sorted_cons|]. constructor; [done|].
    eapply (List.Forall_impl _ _ Hf). Unshelve. intros a Ha. by eapply ltb_trans.
  - apply sorted_cons. split; [auto|]. rewrite bt_insert_Permutation by done.
    constructor; [by apply leb_not|done].
Qed.

Lemma bt_delete_Permutation k v m :
  bt_get k m = Some v -> (k, v) :: bt_delete k m ≡ₚ m.
Proof.
  induction m as [|[k' v'] m IH]; simpl; [discriminate|].
  case_bool_decide; subst; [by intros [= ->]|]. intros H'. rewrite Permutation_swap. by rewrite IH.
Qed.

Lemma bt_delete_Forall (P : K * V -> Prop) k m : Forall P m -> Forall P (bt_delete k m).
Proof. induction 1 as [|[k' v'] m]; simpl; [done|]. by case_bool_decide; [|constructor]. Qed.

Lemma bt_delete_sorted k m : sorted m -> sorted (bt_delete k m).
Proof.
  induction m as [|[k' v'] m IH]; simpl; [done|].
  intros [Hs Hf]%sorted_cons. case_bool_decide; [done|].
  apply sorted_cons. auto using bt_delete_Forall.
Qed.

Lemma bt_get_delete_ne k k' m : k <> k' -> bt_get k (bt_delete k' m) = bt_get k m.
Proof.
  intros Hne. induction m as [|[k1 v1] m IH]; simpl; [done|]. case_bool_decide; subst.
  - by rewrite bool_decide_false by done.
  - simpl. by rewrite IH.
Qed.

Lemma bt_delete_get k m : sorted m -> bt_get k (bt_delete k m) = None.
Proof.
  intros Hs. apply bt_get_None. intros ([k' v] & Hk & Hin)%list_elem_of_fmap.
  simpl in Hk; subst k'. destruct (bt_get k m) as [w|] eqn:Hg.
  - pose proof (sorted_keys_NoDup _ Hs) as Hnd.
    rewrite <- (bt_delete_Permutation _ _ _ Hg) in Hnd. csimpl in *.
    apply NoDup_cons in Hnd as [Hnot _]. apply Hnot, list_elem_of_fmap. by exists (k, v).
  - assert (bt_delete k m = m) as Hd.
    { clear -Hg. induction m as [|[k' v'] m IH]; simpl in *; [done|].
      case_bool_decide; [done|]. by rewrite IH. }
    rewrite Hd in Hin. apply bt_get_None in Hg. apply Hg, list_elem_of_fmap. by exists (k, v).
Qed.

Lemma bt_remove_Some k v m m' :
  bt_remove k m = Some (v, m') -> bt_get k m = Some v /\ m' = bt_delete k m.
Proof. unfold bt_remove. destruct (bt_get k m); [|discriminate]. by intros [= -> ->]. Qed.

Lemma bt_remove_None k m : bt_remove k m = None -> bt_get k m = None.
Proof. unfold bt_remove. destruct (bt_get k m); [discriminate|done]. Qed.

Lemma bt_remove_length k v m m' :
  bt_remove k m = Some (v, m') -> length m = S (length m').
Proof.
  intros [Hg ->]%bt_remove_Some. by rewrite <- (bt_delete_Permutation _ _ _ Hg) at 1.
Qed.

(** Splitting a sorted map at a bound. *)
Lemma bt_range_to_split k m : sorted m ->
  exists rest, m = bt_range_to k m ++ rest /\
    Forall (fun b => leb (fst b) k = true) (bt_range_to k m) /\
    Forall (fun b => ltb k (fst b) = true) rest.
Proof.
  induction m as [|[k' v'] m IH]; simpl; [by exists []|].
  intros [Hs Hf]%sorted_cons. destruct (leb k' k) eqn:Hle.
  - destruct (IH Hs) as (rest & Hm & H1 & H2). exists rest. simpl. split_and!; auto.
    by rewrite <- Hm.
  - exists ((k', v') :: m). split_and!; [done..|]. apply leb_not in Hle.
    constructor; [done|]. eapply (List.Forall_impl _ _ Hf). Unshelve.
    intros a Ha. by eapply ltb_trans.
Qed.

Lemma sorted_app m1 m2 : sorted (m1 ++ m2) -> sorted m1 /\ sorted m2.
Proof.
  induction m1 as [|[k v] m1 IH]; simpl; [intros; split; [constructor|done]|].
  intros [Hs [Hf1 Hf2]%Forall_app]%sorted_cons. destruct (IH Hs) as [H1 H2].
  split; [|done]. by apply sorted_cons.
Qed.

(** Two sorted maps on the two sides of a bound. *)
Lemma sorted_join k (m1 m2 : BTreeMap) :
  sorted m1 -> sorted m2 -> Forall (fun b => leb (fst b) k = true) m1 ->
  Forall (fun b => ltb k (fst b) = true) m2 -> sorted (m1 ++ m2).
Proof.
  intros H1 H2 Hle Hgt. induction m1 as [|[k1 v1] m1 IH]; simpl; [done|].
  apply sorted_cons in H1 as [H1 Hf]. apply Forall_cons in Hle as [Hk Hle].
  apply sorted_cons. split; [auto|]. apply Forall_app. split; [done|].
  eapply Forall_impl; [exact Hgt|]. intros b Hb. by eapply leb_ltb_trans.
Qed.

End BTreeMap.
Arguments BTreeMap : clear implicits.

#[export] Hint Resolve sorted_nil bt_insert_sorted bt_delete_sorted : bombay.

(** [BTreeMap<usize, _>] collected from positions. *)
Definition collect_map {X} (l : list (nat * X)) : @BTreeMap nat X :=
  foldl (fun m kv => bt_insert kv.1 kv.2 m) [] l.

Lemma bt_insert_keys {X} (P : nat -> Prop) k (v : X) (m : @BTreeMap nat X) :
  P k -> Forall (fun kv => P kv.1) m -> Forall (fun kv => P kv.1) (bt_insert k v m).
Proof.
  intros Hk. assert (Hkv : P (k, v).1) by done.
  induction 1 as [|[k' v'] m Hx Hm IH]; cbn [bt_insert]; [auto|].
  case_bool_decide; [auto|]. destruct (leb k k'); auto.
Qed.

Lemma collect_map_keys {X} (P : nat -> Prop) (l : list (nat * X)) :
  Forall (fun kv => P kv.1) l -> Forall (fun kv => P kv.1) (collect_map l).
Proof.
  unfold collect_map. assert (H : forall m : @BTreeMap nat X, Forall (fun kv => P kv.1) m -> Forall (fun kv => P kv.1) l ->
    Forall (fun kv => P kv.1) (foldl (fun m kv => bt_insert kv.1 kv.2 m) m l)); [|intros; apply H; auto].
  induction l as [|[k v] l IH]; intros m Hm Hl; [done|]. inversion_clear Hl. cbn. apply IH; [|done].
  by apply bt_insert_keys.
Qed.
