(* ===== verification/Settlement.v ===== *)
(** * Interpretation of send effects ([crates/behavior/src/effects/sending.rs])

    Caller-owned interpretation progress, the traversal of an ordered lane of
    items, and its products.  The interpreter is a parameter: one call of
    [interpret_item] receives the item slot and the reply slot and returns both
    with its own new state.  An asynchronous call that is dropped before it
    completes leaves its slots as they are; the traversal can be started again
    on the same progress. *)

From stdpp Require Import base list option numbers.
From S2P Require Import Prelude Effects.

(** ** Settlements *)

Inductive InterpreterFault : Type := MissingCapability | CorruptTraversal.

Inductive ItemSettlement (Item Acc Rej Pre : Type) : Type :=
| Accepted (receipt : Acc)
| Rejected (item : Item) (reason : Rej)
| Blocked (item : Item) (prerequisite : Pre)
| Corrupt (item : Item) (fault : InterpreterFault).
Arguments Accepted {Item Acc Rej Pre} _.
Arguments Rejected {Item Acc Rej Pre} _ _.
Arguments Blocked {Item Acc Rej Pre} _ _.
Arguments Corrupt {Item Acc Rej Pre} _ _.

Inductive SettledItem (Item Settlement : Type) : Type :=
| Attempted (s : Settlement)
| Unattempted (i : Item).
Arguments Attempted {Item Settlement} _.
Arguments Unattempted {Item Settlement} _.

Inductive Interpretation (Settlement : Type) : Type :=
| Interpretation_Complete (s : Settlement)
| Interpretation_Corrupt (s : Settlement).
Arguments Interpretation_Complete {Settlement} _.
Arguments Interpretation_Corrupt {Settlement} _.

Definition interpretation_map {S T} (f : S -> T) (x : Interpretation S) : Interpretation T :=
  match x with
  | Interpretation_Complete s => Interpretation_Complete (f s)
  | Interpretation_Corrupt s => Interpretation_Corrupt (f s)
  end.

Definition into_settlement {S} (x : Interpretation S) : S :=
  match x with Interpretation_Complete s | Interpretation_Corrupt s => s end.

Inductive InterpretationProgress (Input Custody Settlement : Type) : Type :=
| Original (i : Input)
| Interpreting (c : Custody)
| Completed (x : Interpretation Settlement).
Arguments Original {Input Custody Settlement} _.
Arguments Interpreting {Input Custody Settlement} _.
Arguments Completed {Input Custody Settlement} _.

(** ** Settlement status, a join semilattice of severities *)

Inductive SettlementStatus : Type := Status_Accepted | Status_Rejected | Status_Corrupt.

Definition combine (x later : SettlementStatus) : SettlementStatus :=
  match x, later with
  | Status_Corrupt, _ | _, Status_Corrupt => Status_Corrupt
  | Status_Rejected, _ | _, Status_Rejected => Status_Rejected
  | Status_Accepted, Status_Accepted => Status_Accepted
  end.

Class ClassifySettlement (S : Type) := settlement_status : S -> SettlementStatus.

#[export] Instance ItemSettlement_Classify I A R P : ClassifySettlement (ItemSettlement I A R P) :=
  fun s => match s with
           | Accepted _ => Status_Accepted
           | Rejected _ _ | Blocked _ _ => Status_Rejected
           | Corrupt _ _ => Status_Corrupt
           end.

#[export] Instance SettledItem_Classify I S `{!ClassifySettlement S} :
  ClassifySettlement (SettledItem I S) :=
  fun s => match s with Attempted s => settlement_status s | Unattempted _ => Status_Corrupt end.

#[export] Instance Interpretation_Classify S `{!ClassifySettlement S} :
  ClassifySettlement (Interpretation S) :=
  fun x => match x with
           | Interpretation_Complete s => settlement_status s
           | Interpretation_Corrupt _ => Status_Corrupt
           end.

#[export] Instance Vec_Classify S `{!ClassifySettlement S} : ClassifySettlement (list S) :=
  fun l => fold_left (fun st s => combine st (settlement_status s)) l Status_Accepted.

Lemma combine_comm x y : combine x y = combine y x.
Proof. by destruct x, y. Qed.
Lemma combine_assoc x y z : combine x (combine y z) = combine (combine x y) z.
Proof. by destruct x, y, z. Qed.
Lemma combine_accepted_l x : combine Status_Accepted x = x.
Proof. by destruct x. Qed.

Lemma vec_status_from {S} `{!ClassifySettlement S} (l : list S) st :
  fold_left (fun st s => combine st (settlement_status s)) l st = combine st (settlement_status l).
Proof.
  change (settlement_status l) with
    (fold_left (fun st s => combine st (settlement_status s)) l Status_Accepted).
  revert st. induction l as [|x l IH]; intros st; cbn [fold_left]; [by destruct st|].
  rewrite IH, (IH (combine Status_Accepted _)), combine_accepted_l. by rewrite combine_assoc.
Qed.

Lemma vec_status_cons {S} `{!ClassifySettlement S} (x : S) (l : list S) :
  settlement_status (x :: l) = combine (settlement_status x) (settlement_status l).
Proof.
  change (settlement_status (x :: l)) with
    (fold_left (fun st s => combine st (settlement_status s)) l
       (combine Status_Accepted (settlement_status x))).
  by rewrite vec_status_from, combine_accepted_l.
Qed.

(** ** Send settlements as an interface

    [SendSettlements] prepares, finishes or leaves untouched the caller-owned
    progress of one send product; [InterpretSends] runs an interpreter over it. *)

Class SendSettlements (Sends Custody Settle : Type) := {
  prepare_interpretation :
    option (InterpretationProgress Sends Custody Settle) ->
    option (InterpretationProgress Sends Custody Settle);
  finish_interpretation :
    option (InterpretationProgress Sends Custody Settle) ->
    option (InterpretationProgress Sends Custody Settle);
  unattempted :
    option (InterpretationProgress Sends Custody Settle) ->
    option (InterpretationProgress Sends Custody Settle)
}.

Class InterpretSends (I Sends Custody Settle : Type) :=
  interpret : option (InterpretationProgress Sends Custody Settle) -> I ->
              option (InterpretationProgress Sends Custody Settle) * I.

(** What a lane promises to the product that contains it: interpreting a cold
    product and finishing it yields the reference settlement [settle]; a
    completed product is left alone and its interpreter is not consulted; an
    untouched product settles as [untouched]. *)
Class SettlementSpec (I Sends Custody Settle : Type)
  `{!SendSettlements Sends Custody Settle, !InterpretSends I Sends Custody Settle} := {
  settle : I -> Sends -> Interpretation Settle * I;
  untouched : Sends -> Settle;
  interpret_original s i :
    let '(p, i') := interpret (Some (Original s)) i in
    finish_interpretation p = Some (Completed (fst (settle i s))) /\ i' = snd (settle i s);
  interpret_completed c i : interpret (Some (Completed c)) i = (Some (Completed c), i);
  finish_completed c : finish_interpretation (Some (Completed c)) = Some (Completed c);
  unattempted_original s :
    unattempted (Some (Original s)) = Some (Completed (Interpretation_Complete (untouched s)))
}.

(** ** One item *)

Section Item.
  Context {I Item Acc Rej Pre : Type}.

Abbreviation reply := (ItemSettlement Item Acc Rej Pre).
Abbreviation custody := (option Item * option reply)%type.
Abbreviation progress := (option (InterpretationProgress Item custody reply)).

  (** One call of the interpreter on an item slot and a reply slot. *)
  Context (interpret_item : I -> custody -> I * custody).

Definition prepare_item (p : progress) : progress :=
  match p with
  | Some (Original item) => Some (Interpreting (Some item, None))
  | retained => retained
  end.

Definition is_corrupt (r : reply) : bool := match r with Corrupt _ _ => true | _ => false end.

Definition finish_item (p : progress) : progress :=
  match p with
  | Some (Interpreting (None, Some received)) =>
      Some (Completed (if is_corrupt received then Interpretation_Corrupt received
                       else Interpretation_Complete received))
  | retained => retained
  end.

(** [ActionItem::interpretation_input] lends the slots only when the item is
    present and no reply was received. *)
Definition settle_item (p : progress) (i : I) : progress * I :=
  match prepare_item p with
  | Some (Interpreting (Some item, None)) =>
      let '(i, c) := interpret_item i (Some item, None) in (Some (Interpreting c), i)
  | p => (p, i)
  end.

(** ** An ordered lane of items *)

Definition prepare_items
  (p : option (InterpretationProgress (list Item) (list progress) (list (SettledItem Item reply)))) :=
  match p with
  | Some (Original items) => Some (Interpreting ((fun item => Some (Original item)) <$> items))
  | retained => retained
  end.

Definition is_interpreting (p : progress) : bool :=
  match p with Some (Interpreting _) => true | _ => false end.
Definition is_original (p : progress) : bool :=
  match p with Some (Original _) => true | _ => false end.
Definition is_completed (p : progress) : bool :=
  match p with Some (Completed _) => true | _ => false end.
Definition is_completed_corrupt (p : progress) : bool :=
  match p with Some (Completed (Interpretation_Corrupt _)) => true | _ => false end.

Fixpoint all_indexed {X} (f : nat -> X -> bool) (k : nat) (l : list X) : bool :=
  match l with [] => true | x :: l => f k x && all_indexed f (S k) l end.

(** The second [while] loop of [finish_item_rows]: every row must be untouched
    or completed, otherwise the rows are restored. *)
Fixpoint receive_rows (received remaining : list progress) : result (list progress) (list progress) :=
  match remaining with
  | [] => Ok received
  | row :: rest =>
      if is_original row || is_completed row then receive_rows (received ++ [row]) rest
      else Err (received ++ [row] ++ rest)
  end.

Definition settled_row (row : progress) : option (SettledItem Item reply) :=
  match row with
  | Some (Original item) => Some (Unattempted item)
  | Some (Completed (Interpretation_Complete r | Interpretation_Corrupt r)) => Some (Attempted r)
  | _ => None
  end.

Definition finish_item_rows (rows : list progress) :
  list progress * option (Interpretation (list (SettledItem Item reply))) :=
  let rows := (fun row => if is_interpreting row then finish_item row else row) <$> rows in
  let corrupt := position is_completed_corrupt rows in
  let complete :=
    all_indexed (fun index row =>
      if match corrupt with Some c => c <? index | None => false end
      then is_original row else is_completed row) 0 rows in
  if negb complete then (rows, None)
  else match receive_rows [] rows with
       | Err rows => (rows, None)
       | Ok received =>
           let settled := omap settled_row received in
           ([], Some (match corrupt with
                      | Some _ => Interpretation_Corrupt settled
                      | None => Interpretation_Complete settled
                      end))
       end.

Definition finish_items
  (p : option (InterpretationProgress (list Item) (list progress) (list (SettledItem Item reply)))) :=
  match p with
  | Some (Interpreting rows) =>
      match finish_item_rows rows with
      | (_, Some received) => Some (Completed received)
      | (rows, None) => Some (Interpreting rows)
      end
  | p => p
  end.

(** One iteration of the loop of [interpret_items]: the row's attempt is
    awaited, then the row is finished. *)
Definition attempt_row (row : progress) (i : I) : progress * I :=
  let '(row, i) := settle_item row i in (finish_item row, i).

(** The [for row in rows] loop of [interpret_items]. *)
Fixpoint interpret_rows (rows : list progress) (i : I) : list progress * I :=
  match rows with
  | [] => ([], i)
  | row :: rest =>
      match row with
      | Some (Completed (Interpretation_Corrupt _)) => (row :: rest, i)
      | Some (Completed (Interpretation_Complete _)) =>
          let '(rest, i) := interpret_rows rest i in (row :: rest, i)
      | None => (row :: rest, i)
      | Some (Original _) | Some (Interpreting _) =>
          let '(row, i) := attempt_row row i in
          match row with
          | Some (Completed (Interpretation_Complete _)) =>
              let '(rest, i) := interpret_rows rest i in (row :: rest, i)
          | _ => (row :: rest, i)
          end
      end
  end.

Definition interpret_items
  (p : option (InterpretationProgress (list Item) (list progress) (list (SettledItem Item reply))))
  (i : I) :=
  match prepare_items p with
  | Some (Interpreting rows) =>
      let '(rows, i) := interpret_rows rows i in (Some (Interpreting rows), i)
  | p => (p, i)
  end.

Definition unattempted_items
  (p : option (InterpretationProgress (list Item) (list progress) (list (SettledItem Item reply)))) :=
  match p with
  | Some (Original items) => Some (Completed (Interpretation_Complete (Unattempted <$> items)))
  | other => other
  end.

#[local] Instance Items_SendSettlements :
  SendSettlements (list Item) (list progress) (list (SettledItem Item reply)) := {
  prepare_interpretation := prepare_items;
  finish_interpretation := finish_items;
  unattempted := unattempted_items
}.

#[local] Instance Items_InterpretSends :
  InterpretSends I (list Item) (list progress) (list (SettledItem Item reply)) :=
  fun p i => let '(p, i) := interpret_items p i in (finish_items p, i).

(** *** Resumption: a settled row is never attempted again, whatever the
    interpreter does *)

Definition is_completed_ok (p : progress) : bool :=
  match p with Some (Completed (Interpretation_Complete _)) => true | _ => false end.

Lemma interpret_rows_skip done rest i :
  Forall (fun row => is_completed_ok row = true) done ->
  interpret_rows (done ++ rest) i =
  (done ++ fst (interpret_rows rest i), snd (interpret_rows rest i)).
Proof.
  induction 1 as [|row done Hrow _ IH]; simpl; [by destruct (interpret_rows rest i)|].
  destruct row as [[| |[|]]|]; try discriminate Hrow. by rewrite IH.
Qed.

Lemma interpret_rows_length rows : forall i, length (fst (interpret_rows rows i)) = length rows.
Proof.
  induction rows as [|row rows IH]; intros i; simpl; [done|].
  repeat (split_match; simpl; try done); try (rewrite Hm0 || rewrite Hm1 || rewrite Hm2);
    match goal with
    | H : interpret_rows rows ?j = (?r, _) |- _ => specialize (IH j); rewrite H in IH; simpl in *; by rewrite IH
    end.
Qed.

(** The same traversal when its future is dropped after [n] attempts: the rows
    reached so far keep what they received. *)
Fixpoint interpret_rows_upto (n : nat) (rows : list progress) (i : I) : list progress * I :=
  match rows with
  | [] => ([], i)
  | row :: rest =>
      match row with
      | Some (Completed (Interpretation_Corrupt _)) => (row :: rest, i)
      | Some (Completed (Interpretation_Complete _)) =>
          let '(rest, i) := interpret_rows_upto n rest i in (row :: rest, i)
      | None => (row :: rest, i)
      | Some (Original _) | Some (Interpreting _) =>
          match n with
          | 0 => (row :: rest, i)
          | S n =>
              let '(row, i) := attempt_row row i in
              match row with
              | Some (Completed (Interpretation_Complete _)) =>
                  let '(rest, i) := interpret_rows_upto n rest i in (row :: rest, i)
              | _ => (row :: rest, i)
              end
          end
      end
  end.

(** *** A consuming interpreter

    The contract of an item port: a call that is lent an item and an empty
    reply slot takes the item and leaves a reply.  [attempt] is that call as a
    function. *)

  Context (attempt : I -> Item -> reply * I).

Definition consuming : Prop :=
  forall i item, interpret_item i (Some item, None) =
    (snd (attempt i item), (None, Some (fst (attempt i item)))).

(** The reference settlement of a lane: attempt the items in order; the first
    corrupt reply leaves every later item unattempted. *)
Fixpoint settle_items (i : I) (items : list Item) :
  Interpretation (list (SettledItem Item reply)) * I :=
  match items with
  | [] => (Interpretation_Complete [], i)
  | x :: xs =>
      let '(r, i) := attempt i x in
      if is_corrupt r then (Interpretation_Corrupt (Attempted r :: (Unattempted <$> xs)), i)
      else let '(rs, i) := settle_items i xs in (interpretation_map (cons (Attempted r)) rs, i)
  end.

(** Rows that a traversal leaves behind, and the settlement they stand for. *)
Inductive settled_shape : list progress -> Interpretation (list (SettledItem Item reply)) -> Prop :=
| shape_nil : settled_shape [] (Interpretation_Complete [])
| shape_ok r rows x :
    settled_shape rows x ->
    settled_shape (Some (Completed (Interpretation_Complete r)) :: rows)
                  (interpretation_map (cons (Attempted r)) x)
| shape_corrupt r xs :
    settled_shape
      (Some (Completed (Interpretation_Corrupt r)) :: ((fun x => Some (Original x)) <$> xs))
      (Interpretation_Corrupt (Attempted r :: (Unattempted <$> xs))).

Lemma interpret_rows_original (H : consuming) xs : forall i,
  settled_shape (fst (interpret_rows ((fun x => Some (Original x)) <$> xs) i))
                (fst (settle_items i xs)) /\
  snd (interpret_rows ((fun x => Some (Original x)) <$> xs) i) = snd (settle_items i xs).
Proof.
  induction xs as [|x xs IH]; intros i; cbn [fmap list_fmap interpret_rows settle_items].
  { split; [constructor|done]. }
  unfold attempt_row, settle_item, prepare_item. rewrite H.
  destruct (attempt i x) as [r i1]. cbn [fst snd finish_item].
  destruct (is_corrupt r) eqn:Hr; [split; [constructor|done]|].
  destruct (IH i1) as [Hshape Hi].
  destruct (interpret_rows ((fun x => Some (Original x)) <$> xs) i1) as [rows i2].
  destruct (settle_items i1 xs) as [rs i3]. cbn [fst snd] in *.
  split; [by constructor|done].
Qed.

Lemma all_indexed_spec {X} (f : nat -> X -> bool) l : forall k,
  (forall j x, l !! j = Some x -> f (k + j) x = true) -> all_indexed f k l = true.
Proof.
  induction l as [|x l IH]; intros k Hf; simpl; [done|].
  rewrite (IH (S k)).
  - specialize (Hf 0 x eq_refl). rewrite Nat.add_0_r in Hf. by rewrite Hf.
  - intros j y Hy. replace (S k + j) with (k + S j) by lia. by apply Hf.
Qed.

Lemma receive_rows_ok remaining : forall received,
  Forall (fun row => is_original row || is_completed row = true) remaining ->
  receive_rows received remaining = Ok (received ++ remaining).
Proof.
  induction remaining as [|row rest IH]; intros received Hall; simpl; [by rewrite app_nil_r|].
  inversion Hall as [|? ? Hrow Hrest]; subst. rewrite Hrow, (IH _ Hrest). by rewrite <- app_assoc.
Qed.

Lemma finish_rows_of (rows : list progress) corrupt :
  Forall (fun row => is_original row || is_completed row = true) rows ->
  position is_completed_corrupt rows = corrupt ->
  (forall j row, rows !! j = Some row ->
     (if match corrupt with Some c => c <? j | None => false end
      then is_original row else is_completed row) = true) ->
  finish_item_rows rows =
  ([], Some (match corrupt with
             | Some _ => Interpretation_Corrupt (omap settled_row rows)
             | None => Interpretation_Complete (omap settled_row rows)
             end)).
Proof.
  intros Hall Hpos Hidx. unfold finish_item_rows.
  assert (Hid : (fun row => if is_interpreting row then finish_item row else row) <$> rows = rows).
  { clear -Hall. induction Hall as [|row rows Hrow _ IH]; [done|].
    rewrite fmap_cons, IH. by destruct row as [[]|]. }
  rewrite Hid, Hpos, all_indexed_spec by done. simpl.
  by rewrite receive_rows_ok.
Qed.

(** The shape as facts about positions. *)
Definition shape_facts (rows : list progress) (x : Interpretation (list (SettledItem Item reply))) :
  Prop :=
  Forall (fun row => is_original row || is_completed row = true) rows /\
  omap settled_row rows = into_settlement x /\
  match x with
  | Interpretation_Complete _ => Forall (fun row => is_completed_ok row = true) rows
  | Interpretation_Corrupt _ =>
      exists c, position is_completed_corrupt rows = Some c /\
        forall j row, rows !! j = Some row ->
          (if c <? j then is_original row else is_completed row) = true
  end.

Lemma shape_facts_corrupt r xs :
  shape_facts (Some (Completed (Interpretation_Corrupt r)) :: ((fun x => Some (Original x)) <$> xs))
              (Interpretation_Corrupt (Attempted r :: (Unattempted <$> xs))).
Proof.
  split; [|split].
  - constructor; [done|]. apply Forall_fmap, Forall_true. done.
  - simpl. f_equal. induction xs as [|x xs IH]; [done|]. simpl. f_equal. exact IH.
  - exists 0. split; [done|]. intros [|j] row; simpl; [by intros [= <-]|].
    rewrite list_lookup_fmap. destruct (xs !! j); simpl; by intros [= <-].
Qed.

Lemma shape_facts_ok r rows x :
  shape_facts rows x ->
  shape_facts (Some (Completed (Interpretation_Complete r)) :: rows)
              (interpretation_map (cons (Attempted r)) x).
Proof.
  intros (Hall & Homap & Hx). split; [by constructor|split].
  { transitivity (Attempted r :: omap settled_row rows); [done|].
    rewrite Homap. by destruct x. }
  destruct x as [ys|ys]; simpl in *; [by constructor|].
  destruct Hx as (c & Hpos & Hidx). exists (S c). rewrite Hpos. split; [done|].
  intros [|j] row; simpl; [by intros [= <-]|]. intros Hj.
  specialize (Hidx j row Hj).
  replace (S c <? S j) with (c <? j); [done|].
  destruct (Nat.ltb_spec c j), (Nat.ltb_spec (S c) (S j)); done || lia.
Qed.

Lemma settled_shape_facts rows x : settled_shape rows x -> shape_facts rows x.
Proof.
  induction 1 as [|r rows x _ IH|r xs].
  - repeat split; constructor.
  - by apply shape_facts_ok.
  - apply shape_facts_corrupt.
Qed.

Lemma shape_finish rows x : settled_shape rows x -> finish_item_rows rows = ([], Some x).
Proof.
  intros (Hall & Homap & Hx)%settled_shape_facts. destruct x as [ys|ys]; simpl in *.
  - rewrite (finish_rows_of rows None), Homap; [done|done| |].
    + apply position_None. eapply Forall_impl; [|exact Hx]. by intros [[| |[]]|].
    + intros j row Hj. apply (Forall_lookup_1 _ _ _ _ Hx) in Hj. by destruct row as [[| |[]]|].
  - destruct Hx as (c & Hpos & Hidx). by rewrite (finish_rows_of rows (Some c)), Homap.
Qed.

Lemma items_interpret_original (H : consuming) items i :
  let '(p, i') := interpret_items (Some (Original items)) i in
  finish_items p = Some (Completed (fst (settle_items i items))) /\ i' = snd (settle_items i items).
Proof.
  unfold interpret_items, prepare_items.
  destruct (interpret_rows_original H items i) as [Hshape Hi].
  destruct (interpret_rows _ i) as [rows i']. simpl in *.
  split; [|done]. by rewrite (shape_finish _ _ Hshape).
Qed.

Program Definition Items_SettlementSpec (H : consuming) :
  SettlementSpec I (list Item) (list progress) (list (SettledItem Item reply)) := {|
  settle := settle_items;
  untouched items := Unattempted <$> items
|}.
Next Obligation.
  intros H items i. unfold interpret, Items_InterpretSends. pose proof (items_interpret_original H items i) as Ho.
  destruct (interpret_items _ i) as [p i']. by destruct Ho as [-> ->].
Qed.
Next Obligation. done. Qed.
Next Obligation. done. Qed.
Next Obligation. done. Qed.

(** A row that an attempt does not complete is left as it is by another one. *)
Lemma attempt_row_stable (H : consuming) row i row1 i1 :
  attempt_row row i = (row1, i1) ->
  is_completed row1 = true \/ attempt_row row1 i1 = (row1, i1).
Proof.
  unfold attempt_row, settle_item.
  destruct row as [[x|[[x|] [r|]]|c]|]; simpl; rewrite ?H; simpl; intros [= <- <-]; auto.
Qed.

Lemma interpret_rows_pending row rest i :
  is_original row || is_interpreting row = true ->
  interpret_rows (row :: rest) i =
  let '(row1, i1) := attempt_row row i in
  if is_completed_ok row1
  then (row1 :: fst (interpret_rows rest i1), snd (interpret_rows rest i1))
  else (row1 :: rest, i1).
Proof.
  intros Hp. destruct row as [[x|c|s]|]; try discriminate Hp; cbn [interpret_rows];
    destruct (attempt_row _ i) as [[[| |[]]|] i1]; simpl; try done;
    by destruct (interpret_rows rest i1).
Qed.

Lemma interpret_rows_upto_pending n row rest i :
  is_original row || is_interpreting row = true ->
  interpret_rows_upto (S n) (row :: rest) i =
  let '(row1, i1) := attempt_row row i in
  if is_completed_ok row1
  then (row1 :: fst (interpret_rows_upto n rest i1), snd (interpret_rows_upto n rest i1))
  else (row1 :: rest, i1).
Proof.
  intros Hp. destruct row as [[x|c|s]|]; try discriminate Hp; cbn [interpret_rows_upto];
    destruct (attempt_row _ i) as [[[| |[]]|] i1]; simpl; try done;
    by destruct (interpret_rows_upto n rest i1).
Qed.

Lemma interpret_rows_ok row rest i :
  is_completed_ok row = true ->
  interpret_rows (row :: rest) i =
  (row :: fst (interpret_rows rest i), snd (interpret_rows rest i)).
Proof.
  destruct row as [[| |[]]|]; try discriminate. intros _. simpl. by destruct (interpret_rows rest i).
Qed.

Lemma interpret_rows_stuck (row : progress) rest i :
  is_completed_ok row = false -> is_completed row = true \/ attempt_row row i = (row, i) ->
  interpret_rows (row :: rest) i = (row :: rest, i).
Proof.
  intros Hok [Hc|Ha]; [by destruct row as [[| |[]]|]|].
  destruct (is_original row || is_interpreting row) eqn:Hp.
  - by rewrite interpret_rows_pending, Ha, Hok.
  - by destruct row as [[| |[]]|].
Qed.

Lemma interpret_rows_resume (H : consuming) rows : forall n i,
  interpret_rows (fst (interpret_rows_upto n rows i)) (snd (interpret_rows_upto n rows i)) =
  interpret_rows rows i.
Proof.
  induction rows as [|row rest IH]; intros n i; [done|].
  destruct (is_original row || is_interpreting row) eqn:Hp.
  - destruct n as [|n]; [by destruct row as [[]|]|].
    rewrite interpret_rows_upto_pending, (interpret_rows_pending row) by done.
    destruct (attempt_row row i) as [row1 i1] eqn:Ha.
    destruct (is_completed_ok row1) eqn:Hok; simpl fst; simpl snd.
    + by rewrite interpret_rows_ok, IH.
    + apply interpret_rows_stuck; [done|]. by eapply attempt_row_stable.
  - destruct row as [[x|c|[s|s]]|]; try discriminate Hp; [|done|done].
    rewrite (interpret_rows_ok (Some (Completed (Interpretation_Complete s))) rest) by done.
    rewrite <- (IH n). simpl. destruct (interpret_rows_upto n rest i) as [rest1 i1]. simpl.
    by destruct (interpret_rows rest1 i1).
Qed.

(** C23. Interpretation is safe to cancel and resume: if the future that traverses
    a lane is dropped after any number of attempts, starting it again on the
    progress it left gives the same rows and the same interpreter state as one
    uninterrupted traversal; and a row that was already accepted, rejected or
    blocked is never attempted again, whatever the interpreter does. *)
Theorem lane_resumes_after_cancellation n rows i :
  consuming ->
  interpret_items (Some (Interpreting (fst (interpret_rows_upto n rows i))))
                  (snd (interpret_rows_upto n rows i)) =
  interpret_items (Some (Interpreting rows)) i /\
  forall done rest j, Forall (fun row => is_completed_ok row = true) done ->
    interpret_items (Some (Interpreting (done ++ rest))) j =
    (let '(rest', j') := interpret_rows rest j in
     (Some (Interpreting (done ++ rest')), j')).
Proof.
  intros H. unfold interpret_items; simpl. split.
  - by rewrite interpret_rows_resume.
  - intros done rest j Hd. rewrite (interpret_rows_skip done rest j Hd).
    by destruct (interpret_rows rest j).
Qed.

End Item.

(** An interpreter over numbers: it accepts even items, rejects odd ones below
    10, and is corrupt from 10 on; its state counts the attempts. *)
Definition demo_attempt (i : nat) (item : nat) : ItemSettlement nat unit unit Never * nat :=
  (if 10 <=? item then Corrupt item CorruptTraversal
   else if Nat.even item then Accepted tt else Rejected item tt, S i).

Definition demo_interpret_item (i : nat)
  (c : option nat * option (ItemSettlement nat unit unit Never)) :
  nat * (option nat * option (ItemSettlement nat unit unit Never)) :=
  match c with
  | (Some item, None) => (snd (demo_attempt i item), (None, Some (fst (demo_attempt i item))))
  | c => (i, c)
  end.

Lemma demo_consuming : consuming demo_interpret_item demo_attempt.
Proof. intros i item. reflexivity. Qed.

Lemma lane_resumes_after_cancellation_witness :
  consuming demo_interpret_item demo_attempt /\
  let rows := (fun x => Some (Original x)) <$> [2; 3; 10; 4] in
  interpret_items demo_interpret_item
    (Some (Interpreting (fst (interpret_rows_upto demo_interpret_item 2 rows 0))))
    (snd (interpret_rows_upto demo_interpret_item 2 rows 0)) =
  interpret_items demo_interpret_item (Some (Interpreting rows)) 0.
Proof.
  split; [exact demo_consuming|].
  apply (lane_resumes_after_cancellation demo_interpret_item demo_attempt 2
           ((fun x => Some (Original x)) <$> [2; 3; 10; 4]) 0 demo_consuming).
Defined.

(** ** Classification agrees with the traversal *)

Section LaneStatus.
  Context {I Item Acc Rej Pre : Type}.
  Context (attempt : I -> Item -> ItemSettlement Item Acc Rej Pre * I).

Lemma status_unattempted (xs : list Item) :
  xs <> [] ->
  settlement_status
    ((Unattempted <$> xs) : list (SettledItem Item (ItemSettlement Item Acc Rej Pre))) =
  Status_Corrupt.
Proof. destruct xs as [|x xs]; [done|]. intros _. by rewrite fmap_cons, vec_status_cons. Qed.

(** The status of a settled lane says whether its traversal was stopped: a
    complete interpretation never classifies as corrupt, a corrupt one always
    does; and no item is lost, duplicated or reordered: settled rows stand for
    the emitted items one to one, with the unattempted ones a suffix. *)
Theorem lane_settlement_status i items :
  let x := fst (settle_items attempt i items) in
  (settlement_status (into_settlement x) = Status_Corrupt <->
   x = Interpretation_Corrupt (into_settlement x)) /\
  length (into_settlement x) = length items /\
  (forall k item, into_settlement x !! k = Some (Unattempted item) ->
     items !! k = Some item /\
     forall k' row, k <= k' -> into_settlement x !! k' = Some row -> exists y, row = Unattempted y).
Proof.
  revert i. induction items as [|y ys IH]; intros i; cbn [settle_items].
  { simpl. split; [by split|]. split; [done|]. intros [|k] item; discriminate. }
  destruct (attempt i y) as [r i1] eqn:Ha. destruct (is_corrupt r) eqn:Hr; simpl.
  - split; [|split].
    + split; [done|]. intros _. rewrite vec_status_cons. by destruct r.
    + by rewrite length_fmap.
    + intros [|k] item; simpl; [discriminate|]. rewrite list_lookup_fmap.
      destruct (ys !! k) as [z|] eqn:Hz; simpl; [|discriminate]. intros [= ->].
      split; [done|]. intros [|k'] row Hk; simpl; [lia|].
      rewrite list_lookup_fmap. destruct (ys !! k'); simpl; [|discriminate]. intros [= <-]; eauto.
  - specialize (IH i1). destruct (settle_items attempt i1 ys) as [x i2]. simpl in *.
    destruct IH as (IHs & IHl & IHu). destruct x as [l|l]; simpl in *.
    all: split; [|split; [by rewrite IHl|]].
    1,3: rewrite vec_status_cons; destruct r; try discriminate Hr; simpl;
         destruct (settlement_status l); simpl; naive_solver congruence.
    all: intros [|k] item; simpl; [discriminate|]; intros Hk;
         destruct (IHu k item Hk) as [? Hsuf]; split; [done|];
         intros [|k'] row Hle; simpl; [lia|]; apply Hsuf; lia.
Qed.

End LaneStatus.
