(* ===== verification/Interpretation.v ===== *)
(** * Interpretation of one complete [Actions] value

    The layered send product ([SendLayer], [effects/sending.rs]), the creation
    leg and [Actions::interpret] ([effects/actions.rs]).  Lanes interact only
    through the [SendSettlements]/[SettlementSpec] interface, so the theorem
    about a whole action value is proved against it. *)

From stdpp Require Import base list option numbers.
From S2P Require Import Prelude Effects Settlement.

(** ** A wrapper's lane around the inner lane: inner first *)

Section Layer.
  Context {I Ow OwC OwS In InC InS : Type}.
  Context `{!SendSettlements Ow OwC OwS, !SendSettlements In InC InS}.
  Context `{!InterpretSends I Ow OwC OwS, !InterpretSends I In InC InS}.

Abbreviation owned_progress := (option (InterpretationProgress Ow OwC OwS)).
Abbreviation inner_progress := (option (InterpretationProgress In InC InS)).
Abbreviation layer_progress :=
  (option (InterpretationProgress (SendLayer Ow In) (SendLayer owned_progress inner_progress)
                                  (SendLayer OwS InS))).

Definition layer_prepare (p : layer_progress) : layer_progress :=
  match p with
  | Some (Original l) =>
      Some (Interpreting (mkSendLayer (Some (Original (owned l))) (Some (Original (inner l)))))
  | other => other
  end.

Definition layer_combined (i : Interpretation InS) (o : Interpretation OwS) :
  Interpretation (SendLayer OwS InS) :=
  match i, o with
  | Interpretation_Complete i, Interpretation_Complete o =>
      Interpretation_Complete (mkSendLayer o i)
  | i, o => Interpretation_Corrupt (mkSendLayer (into_settlement o) (into_settlement i))
  end.

Definition layer_finish (p : layer_progress) : layer_progress :=
  match p with
  | Some (Interpreting l) =>
      match owned l, inner l with
      | Some (Completed o), Some (Completed i) => Some (Completed (layer_combined i o))
      | _, _ => p
      end
  | _ => p
  end.

Definition layer_unattempted (p : layer_progress) : layer_progress :=
  layer_finish
    (match layer_prepare p with
     | Some (Interpreting l) =>
         Some (Interpreting (mkSendLayer (unattempted (owned l)) (unattempted (inner l))))
     | p => p
     end).

Definition layer_interpret (p : layer_progress) (i : I) : layer_progress * I :=
  match layer_prepare p with
  | Some (Interpreting l) =>
      let '(inn, i) := interpret (inner l) i in
      let inn := finish_interpretation inn in
      match inn with
      | Some (Completed (Interpretation_Complete _)) =>
          let '(own, i) := interpret (owned l) i in
          let own := finish_interpretation own in
          (layer_finish (Some (Interpreting (mkSendLayer own inn))), i)
      | Some (Completed (Interpretation_Corrupt _)) =>
          let own := unattempted (owned l) in
          (layer_finish (Some (Interpreting (mkSendLayer own inn))), i)
      | _ => (Some (Interpreting (mkSendLayer (owned l) inn)), i)
      end
  | p => (p, i)
  end.

#[export] Instance SendLayer_SendSettlements :
  SendSettlements (SendLayer Ow In) (SendLayer owned_progress inner_progress) (SendLayer OwS InS) := {
  prepare_interpretation := layer_prepare;
  finish_interpretation := layer_finish;
  unattempted := layer_unattempted
}.

#[export] Instance SendLayer_InterpretSends :
  InterpretSends I (SendLayer Ow In) (SendLayer owned_progress inner_progress) (SendLayer OwS InS) :=
  layer_interpret.

Context `{!SettlementSpec I Ow OwC OwS, !SettlementSpec I In InC InS}.

Definition layer_settle (i : I) (l : SendLayer Ow In) : Interpretation (SendLayer OwS InS) * I :=
  let '(xi, i) := settle i (inner l) in
  match xi with
  | Interpretation_Complete _ =>
      let '(xo, i) := settle i (owned l) in (layer_combined xi xo, i)
  | Interpretation_Corrupt s => (Interpretation_Corrupt (mkSendLayer (untouched (owned l)) s), i)
  end.

Lemma layer_interpret_original l i :
  let '(p, i') := layer_interpret (Some (Original l)) i in
  layer_finish p = Some (Completed (fst (layer_settle i l))) /\ i' = snd (layer_settle i l).
Proof.
  unfold layer_interpret, layer_prepare, layer_settle. cbn [inner owned].
  pose proof (interpret_original (inner l) i) as Hi.
  destruct (interpret (Some (Original (inner l))) i) as [pi i1]. destruct Hi as [-> ->].
  destruct (settle i (inner l)) as [xi i1]. simpl.
  destruct xi as [si|si]; simpl.
  - pose proof (interpret_original (owned l) i1) as Ho.
    destruct (interpret (Some (Original (owned l))) i1) as [po i2]. destruct Ho as [-> ->].
    destruct (settle i1 (owned l)) as [xo i2]. simpl. done.
  - rewrite unattempted_original. simpl. done.
Qed.

#[export] Program Instance SendLayer_SettlementSpec :
  SettlementSpec I (SendLayer Ow In) (SendLayer owned_progress inner_progress) (SendLayer OwS InS) := {|
  settle := layer_settle;
  untouched l := mkSendLayer (untouched (owned l)) (untouched (inner l))
|}.
Next Obligation. intros l i. apply layer_interpret_original. Qed.
Next Obligation. done. Qed.
Next Obligation. done. Qed.
Next Obligation.
  intros l. simpl. unfold layer_unattempted, layer_prepare. cbn [owned inner].
  by rewrite !unattempted_original.
Qed.

End Layer.

(** ** The creation leg *)

Inductive ChildNamespaceExhausted : Type := the_ChildNamespaceExhausted.

Record RoutedCreation (Nonce New : Type) := mkRouted { creation : CreateChild New; child_route : Nonce }.
Arguments mkRouted {Nonce New} _ _.
Arguments creation {Nonce New} _.
Arguments child_route {Nonce New} _.

Inductive CreationSettlement (Requests Settlements : Type) : Type :=
| Creation_Settled (s : Settlements)
| Creation_Rejected (creations : Requests) (reason : ChildNamespaceExhausted)
| Creation_Corrupt (creations : Requests) (fault : InterpreterFault).
Arguments Creation_Settled {Requests Settlements} _.
Arguments Creation_Rejected {Requests Settlements} _ _.
Arguments Creation_Corrupt {Requests Settlements} _ _.

Section Creations.
  Context {I Nonce Ch Res Rej : Type}.

Abbreviation batch := (Creations (CreateChild Ch)).
Abbreviation routed := (RoutedCreation Nonce Ch).
Abbreviation routing_reply := (ItemSettlement batch (Creations routed) ChildNamespaceExhausted Never).
Abbreviation child_reply := (ItemSettlement routed Res Rej Never).
Abbreviation child_row := (option routed * option child_reply)%type.
Abbreviation settlements := (CreationSettlement batch (Creations (SettledItem routed child_reply))).

Inductive CreationInterpretationCustody : Type :=
| Routing (input : option batch) (received : option routing_reply)
| Children (rows : list child_row).

Abbreviation cprogress :=
  (option (InterpretationProgress batch CreationInterpretationCustody settlements)).

  (** The batch route attempt, and the establishment of one routed child. *)
  Context (route_batch : I -> option batch * option routing_reply ->
                         I * (option batch * option routing_reply)).
  Context (dispatch_birth : I -> CreationId -> Nonce -> CreationKind -> Ch -> child_reply * I).

Definition prepare_creations (p : cprogress) : cprogress :=
  match p with
  | Some (Original input) => Some (Interpreting (Routing (Some input) None))
  | retained => retained
  end.

Definition finish_routing (p : cprogress) : cprogress :=
  match p with
  | Some (Interpreting (Routing None (Some received))) =>
      Some (match received with
            | Accepted r => Interpreting (Children ((fun input => (Some input, None)) <$> items r))
            | Rejected item reason =>
                Completed (Interpretation_Complete (Creation_Rejected item reason))
            | Corrupt item fault =>
                Completed (Interpretation_Corrupt (Creation_Corrupt item fault))
            | Blocked _ prerequisite => match prerequisite with end
            end)
  | retained => retained
  end.

Definition settle_child (row : child_row) (i : I) : child_row * I :=
  match row with
  | (Some original, None) =>
      let c := creation original in
      let '(r, i) := dispatch_birth i (id c) (child_route original) (kind c) (child c) in
      ((None, Some r), i)
  | row => (row, i)
  end.

Definition reply_is_corrupt (r : option child_reply) : bool :=
  match r with Some (Corrupt _ _) => true | _ => false end.

(** The child loop of [interpret_creations]; the flag is [false] when the loop
    returned early on a row that is neither pending nor settled. *)
Fixpoint child_loop (rows : list child_row) (i : I) : list child_row * bool * I :=
  match rows with
  | [] => ([], true, i)
  | row :: rest =>
      match row with
      | (None, Some r) =>
          if reply_is_corrupt (Some r) then (row :: rest, true, i)
          else let '(rest, b, i) := child_loop rest i in (row :: rest, b, i)
      | (Some _, None) =>
          let '(row, i) := settle_child row i in
          match row with
          | (None, Some r) =>
              if reply_is_corrupt (Some r) then (row :: rest, true, i)
              else let '(rest, b, i) := child_loop rest i in (row :: rest, b, i)
          | _ => (row :: rest, false, i)
          end
      | _ => (row :: rest, false, i)
      end
  end.

Definition row_settled (row : child_row) : bool :=
  match row with (None, Some _) => true | _ => false end.
Definition row_pending (row : child_row) : bool :=
  match row with (Some _, None) => true | _ => false end.

(** The collecting loop of [finish_creations]; a row of neither shape restores
    every row. *)
Fixpoint collect_children (rows : list child_row) :
  option (list (SettledItem routed child_reply)) :=
  match rows with
  | [] => Some []
  | (None, Some r) :: rest => cons (Attempted r) <$> collect_children rest
  | (Some x, None) :: rest => cons (Unattempted x) <$> collect_children rest
  | _ => None
  end.

Definition finish_creations (p : cprogress) : cprogress :=
  let p := finish_routing p in
  match p with
  | Some (Interpreting (Children rows)) =>
      let corrupt := position (fun row : child_row => reply_is_corrupt (snd row)) rows in
      let complete :=
        all_indexed (fun index row =>
          if match corrupt with Some c => c <? index | None => false end
          then row_pending row else row_settled row) 0 rows in
      if negb complete then p
      else match collect_children rows with
           | None => p
           | Some settled =>
               let s := Creation_Settled (mkCreations settled) in
               Some (Completed (match corrupt with
                                | Some _ => Interpretation_Corrupt s
                                | None => Interpretation_Complete s
                                end))
           end
  | p => p
  end.

Definition interpret_creations (p : cprogress) (i : I) : cprogress * I :=
  let '(p, i) :=
    match prepare_creations p with
    | Some (Interpreting (Routing input received)) =>
        let '(i, (input, received)) := route_batch i (input, received) in
        (Some (Interpreting (Routing input received)), i)
    | p => (p, i)
    end in
  match finish_routing p with
  | Some (Interpreting (Children rows)) =>
      let '(rows, finished, i) := child_loop rows i in
      let p := Some (Interpreting (Children rows)) in
      (if finished then finish_creations p else p, i)
  | p => (p, i)
  end.

(** *** Reference: route the batch once, then establish the children in order *)

  Context (route : I -> batch -> routing_reply * I).

Definition routes_once : Prop :=
  forall i b, route_batch i (Some b, None) = (snd (route i b), (None, Some (fst (route i b)))).

Fixpoint settle_children (i : I) (xs : list routed) :
  Interpretation (list (SettledItem routed child_reply)) * I :=
  match xs with
  | [] => (Interpretation_Complete [], i)
  | x :: xs =>
      let c := creation x in
      let '(r, i) := dispatch_birth i (id c) (child_route x) (kind c) (child c) in
      if reply_is_corrupt (Some r)
      then (Interpretation_Corrupt (Attempted r :: (Unattempted <$> xs)), i)
      else let '(rs, i) := settle_children i xs in (interpretation_map (cons (Attempted r)) rs, i)
  end.

Definition settle_creations (i : I) (b : batch) : Interpretation settlements * I :=
  let '(r, i) := route i b in
  match r with
  | Accepted rs =>
      let '(x, i) := settle_children i (items rs) in
      (interpretation_map (fun l => Creation_Settled (mkCreations l)) x, i)
  | Rejected item reason => (Interpretation_Complete (Creation_Rejected item reason), i)
  | Corrupt item fault => (Interpretation_Corrupt (Creation_Corrupt item fault), i)
  | Blocked _ prerequisite => match prerequisite with end
  end.

(** Rows after the child loop, and the settlement they stand for. *)
Definition rows_facts (rows : list child_row)
  (x : Interpretation (list (SettledItem routed child_reply))) : Prop :=
  collect_children rows = Some (into_settlement x) /\
  match x with
  | Interpretation_Complete _ =>
      Forall (fun row => row_settled row = true /\ reply_is_corrupt (snd row) = false) rows
  | Interpretation_Corrupt _ =>
      exists c, position (fun row : child_row => reply_is_corrupt (snd row)) rows = Some c /\
        forall j row, rows !! j = Some row ->
          (if c <? j then row_pending row else row_settled row) = true
  end.

Lemma collect_pending xs :
  collect_children ((fun x => (Some x, None)) <$> xs) = Some (Unattempted <$> xs).
Proof. induction xs as [|x xs IH]; csimpl; [done|]. by rewrite IH. Qed.

Lemma rows_facts_cons r rows x :
  reply_is_corrupt (Some r) = false -> rows_facts rows x ->
  rows_facts ((None, Some r) :: rows) (interpretation_map (cons (Attempted r)) x).
Proof.
  intros Hr [Hc Hx]. split; [simpl; rewrite Hc; by destruct x|].
  destruct x as [ys|ys]; simpl in *; [by constructor|].
  destruct Hx as (c & Hpos & Hidx). exists (S c). split.
  { destruct r; simpl in *; try discriminate Hr; by rewrite Hpos. }
  intros [|j] row; simpl; [by intros [= <-]|]. intros Hj. specialize (Hidx j row Hj).
  replace (S c <? S j) with (c <? j); [done|].
  destruct (Nat.ltb_spec c j), (Nat.ltb_spec (S c) (S j)); done || lia.
Qed.

Lemma rows_facts_corrupt r xs :
  reply_is_corrupt (Some r) = true ->
  rows_facts ((None, Some r) :: ((fun x => (Some x, None)) <$> xs))
             (Interpretation_Corrupt (Attempted r :: (Unattempted <$> xs))).
Proof.
  intros Hr. split; [cbn [collect_children]; by rewrite collect_pending|].
  exists 0. split; [cbn [position snd]; by rewrite Hr|].
  intros [|j] row; simpl; [by intros [= <-]|].
  rewrite list_lookup_fmap. destruct (xs !! j); simpl; by intros [= <-].
Qed.

Lemma child_loop_pending xs : forall i,
  let '(rows, finished, i') := child_loop ((fun x => (Some x, None)) <$> xs) i in
  rows_facts rows (fst (settle_children i xs)) /\ finished = true /\ i' = snd (settle_children i xs).
Proof.
  induction xs as [|x xs IH]; intros i; cbn [fmap list_fmap child_loop settle_children settle_child].
  { by repeat constructor. }
  destruct (dispatch_birth i _ _ _ _) as [r i1].
  destruct (reply_is_corrupt (Some r)) eqn:Hr; simpl.
  { split; [by apply rows_facts_corrupt|done]. }
  specialize (IH i1). destruct (child_loop _ i1) as [[rows b] i2].
  destruct (settle_children i1 xs) as [y i3]. destruct IH as (Hf & -> & ->). simpl in *.
  split; [by apply rows_facts_cons|done].
Qed.

Lemma finish_creations_facts rows x :
  rows_facts rows x ->
  finish_creations (Some (Interpreting (Children rows))) =
  Some (Completed (interpretation_map (fun l => Creation_Settled (mkCreations l)) x)).
Proof.
  intros [Hc Hx]. unfold finish_creations, finish_routing. rewrite Hc.
  destruct x as [ys|ys]; simpl in *.
  - rewrite (proj2 (position_None _ rows)).
    + rewrite all_indexed_spec; [done|]. intros j row Hj.
      by apply (Forall_lookup_1 _ _ _ _ Hx) in Hj as [? _].
    + eapply Forall_impl; [|exact Hx]. by intros row [_ ?].
  - destruct Hx as (c & -> & Hidx). by rewrite all_indexed_spec.
Qed.

Lemma creations_interpret_original (H : routes_once) b i :
  let '(p, i') := interpret_creations (Some (Original b)) i in
  finish_creations p = Some (Completed (fst (settle_creations i b))) /\
  i' = snd (settle_creations i b).
Proof.
  unfold interpret_creations, prepare_creations, settle_creations. rewrite H.
  destruct (route i b) as [r i1]. simpl.
  destruct r as [rs|item reason|item []|item fault]; simpl; try done.
  pose proof (child_loop_pending (items rs) i1) as Hl.
  destruct (child_loop _ i1) as [[rows b'] i2].
  destruct (settle_children i1 (items rs)) as [x i3]. destruct Hl as (Hf & -> & ->).
  rewrite (finish_creations_facts rows x) by done. simpl. by destruct x.
Qed.

End Creations.
Arguments CreationInterpretationCustody : clear implicits.

(** ** The complete action value *)

Record ActionSettlement (C S Ph : Type) := mkActionSettlement {
  settled_creations : C;
  settled_sends : S;
  settled_become : Become Ph
}.
Arguments mkActionSettlement {C S Ph} _ _ _.
Arguments settled_creations {C S Ph} _.
Arguments settled_sends {C S Ph} _.
Arguments settled_become {C S Ph} _.

#[export] Instance CreationSettlement_Classify R S `{!ClassifySettlement S} :
  ClassifySettlement (CreationSettlement R S) :=
  fun c => match c with
           | Creation_Settled s => settlement_status s
           | Creation_Rejected _ _ => Status_Rejected
           | Creation_Corrupt _ _ => Status_Corrupt
           end.

#[export] Instance ActionSettlement_Classify C S Ph
  `{!ClassifySettlement C, !ClassifySettlement S} : ClassifySettlement (ActionSettlement C S Ph) :=
  fun a => combine (settlement_status (settled_creations a)) (settlement_status (settled_sends a)).

Section ActionValue.
  Context {I Nonce Ch Res Rej Ph Sends SC SS : Type}.
  Context `{!SendSettlements Sends SC SS, !InterpretSends I Sends SC SS}.

Abbreviation abatch := (Creations (CreateChild Ch)).
Abbreviation arouted := (RoutedCreation Nonce Ch).
Abbreviation arouting_reply :=
  (ItemSettlement abatch (Creations arouted) ChildNamespaceExhausted Never).
Abbreviation achild_reply := (ItemSettlement arouted Res Rej Never).
Abbreviation csettlements :=
  (CreationSettlement abatch (Creations (SettledItem arouted achild_reply))).
Abbreviation ccustody := (CreationInterpretationCustody Nonce Ch Res Rej).

  Context (route_batch : I -> option abatch * option arouting_reply ->
                         I * (option abatch * option arouting_reply)).
  Context (dispatch_birth : I -> CreationId -> Nonce -> CreationKind -> Ch -> achild_reply * I).

Record ActionsCustody := mkActionsCustody {
  creates_progress : option (InterpretationProgress abatch ccustody csettlements);
  sends_progress : option (InterpretationProgress Sends SC SS);
  custody_become : Become Ph
}.

Abbreviation aprogress :=
  (option (InterpretationProgress (Actions Ch Ph Sends) ActionsCustody
                                  (ActionSettlement csettlements SS Ph))).

Definition actions_prepare (p : aprogress) : aprogress :=
  match p with
  | Some (Original a) =>
      Some (Interpreting (mkActionsCustody (Some (Original (creates a)))
                                           (Some (Original (sends a))) (become_ a)))
  | retained => retained
  end.

Definition actions_completed (c : Interpretation csettlements) (s : Interpretation SS)
  (b : Become Ph) : Interpretation (ActionSettlement csettlements SS Ph) :=
  let product := mkActionSettlement (into_settlement c) (into_settlement s) b in
  match c, s with
  | Interpretation_Complete _, Interpretation_Complete _ => Interpretation_Complete product
  | _, _ => Interpretation_Corrupt product
  end.

Definition actions_finish (p : aprogress) : aprogress :=
  match p with
  | Some (Interpreting c) =>
      match creates_progress c, sends_progress c with
      | Some (Completed x), Some (Completed y) =>
          Some (Completed (actions_completed x y (custody_become c)))
      | _, _ => p
      end
  | _ => p
  end.

(** [Actions::interpret] with the [Births] creation mode. *)
Definition actions_interpret (p : aprogress) (i : I) : aprogress * I :=
  match actions_prepare p with
  | Some (Interpreting c) =>
      let '(cp, i) := interpret_creations route_batch dispatch_birth (creates_progress c) i in
      let cp := finish_creations cp in
      match cp with
      | Some (Completed (Interpretation_Complete _)) =>
          let '(sp, i) := interpret (sends_progress c) i in
          let sp := finish_interpretation sp in
          (actions_finish (Some (Interpreting (mkActionsCustody cp sp (custody_become c)))), i)
      | Some (Completed (Interpretation_Corrupt _)) =>
          let sp := unattempted (sends_progress c) in
          (actions_finish (Some (Interpreting (mkActionsCustody cp sp (custody_become c)))), i)
      | _ => (Some (Interpreting (mkActionsCustody cp (sends_progress c) (custody_become c))), i)
      end
  | p => (p, i)
  end.

Context `{!SettlementSpec I Sends SC SS}.
Context (route : I -> abatch -> arouting_reply * I).

(** C1. Interpreting an action value from scratch always completes it, creations
    before sends, and never touches the verdict.  When the creation leg settles
    (a rejected batch included), the sends are interpreted from the interpreter
    state the creations left; when it is corrupt, the whole send product stays
    unattempted and the interpreter is not consulted again.  The result is
    complete exactly when both legs are.  A further call changes nothing. *)
Theorem actions_interpretation a i :
  routes_once route_batch route ->
  exists x i',
    actions_interpret (Some (Original a)) i = (Some (Completed x), i') /\
    settled_become (into_settlement x) = become_ a /\
    (let '(c, i1) := settle_creations dispatch_birth route i (creates a) in
     settled_creations (into_settlement x) = into_settlement c /\
     match c with
     | Interpretation_Complete _ =>
         let '(s, i2) := settle i1 (sends a) in
         settled_sends (into_settlement x) = into_settlement s /\ i' = i2 /\
         match s with
         | Interpretation_Complete _ => x = Interpretation_Complete (into_settlement x)
         | Interpretation_Corrupt _ => x = Interpretation_Corrupt (into_settlement x)
         end
     | Interpretation_Corrupt _ =>
         settled_sends (into_settlement x) = untouched (sends a) /\ i' = i1 /\
         x = Interpretation_Corrupt (into_settlement x)
     end) /\
    forall j, actions_interpret (Some (Completed x)) j = (Some (Completed x), j).
Proof.
  intros Hroute. unfold actions_interpret at 1, actions_prepare. cbn [creates_progress sends_progress].
  pose proof (creations_interpret_original route_batch dispatch_birth route Hroute (creates a) i) as Hc.
  destruct (interpret_creations _ _ _ i) as [cp i1]. destruct Hc as [-> ->].
  destruct (settle_creations dispatch_birth route i (creates a)) as [c i1]. simpl.
  destruct c as [sc|sc]; simpl.
  - pose proof (interpret_original (sends a) i1) as Hs.
    destruct (interpret (Some (Original (sends a))) i1) as [sp i2]. destruct Hs as [-> ->].
    destruct (settle i1 (sends a)) as [s i2]. simpl.
    do 2 eexists. split; [done|]. by destruct s.
  - rewrite unattempted_original. simpl. do 2 eexists. split; [done|]. by simpl.
Qed.

End ActionValue.

(** A runtime that counts its calls, routes every batch to consecutive nonces
    and rejects the child named 7. *)
Definition demo_route (i : nat) (b : Creations (CreateChild nat)) :
  ItemSettlement (Creations (CreateChild nat)) (Creations (RoutedCreation nat nat))
    ChildNamespaceExhausted Never * nat :=
  (Accepted (mkCreations (imap (fun k c => mkRouted c (100 + k)) (items b))), S i).

Definition demo_route_batch (i : nat)
  (c : option (Creations (CreateChild nat)) *
       option (ItemSettlement (Creations (CreateChild nat)) (Creations (RoutedCreation nat nat))
                 ChildNamespaceExhausted Never)) :=
  match c with
  | (Some b, None) => (snd (demo_route i b), (None, Some (fst (demo_route i b))))
  | c => (i, c)
  end.

Definition demo_dispatch (i : nat) (cid : CreationId) (r : nat) (k : CreationKind) (c : nat) :
  ItemSettlement (RoutedCreation nat nat) nat unit Never * nat :=
  (if c =? 7 then Rejected (mkRouted {| id := cid; child := c; kind := k |} r) tt
   else Accepted r, S i).

Definition demo_actions : Actions nat Never (list nat) :=
  mkActions [2; 3]
    (mkCreations [birth {| creation_number := 1%N |} 7; birth {| creation_number := 2%N |} 8])
    (Stop the_Stopped).

Lemma actions_interpretation_witness :
  routes_once demo_route_batch demo_route /\
  exists x i',
    actions_interpret (SendSettlements0 := Items_SendSettlements)
      (InterpretSends0 := Items_InterpretSends demo_interpret_item)
      demo_route_batch demo_dispatch (Some (Original demo_actions)) 0 = (Some (Completed x), i') /\
    settled_become (into_settlement x) = Stop the_Stopped.
Proof.
  assert (Hr : routes_once demo_route_batch demo_route) by (intros i b; reflexivity).
  split; [exact Hr|].
  destruct (actions_interpretation (SendSettlements0 := Items_SendSettlements)
      (InterpretSends0 := Items_InterpretSends demo_interpret_item)
      (SettlementSpec0 := Items_SettlementSpec demo_interpret_item demo_attempt demo_consuming)
      demo_route_batch demo_dispatch demo_route demo_actions 0 Hr)
    as (x & i' & H & Hb & _).
  exists x, i'. split; [exact H|exact Hb].
Defined.

Example demo_settles :
  exists x,
  actions_interpret (SendSettlements0 := Items_SendSettlements)
    (InterpretSends0 := Items_InterpretSends demo_interpret_item)
    demo_route_batch demo_dispatch (Some (Original demo_actions)) 0 =
  (Some (Completed (Interpretation_Complete x)), 5).
Proof. eexists. vm_compute. reflexivity. Qed.
