(* ===== verification/Machine.v ===== *)
(** * The finite-state machine behavior ([crates/actors/src/machine.rs])

    A phase function decides, for each message, to stay, go to a phase, defer
    the message or stop.  A phase change replays the deferred messages; the
    replay loop is not structural (a nested phase change appends the newly
    deferred messages to the batch), so it is defined by well-founded recursion
    on a measure that every iteration decreases. *)

From Equations Require Import Equations.
From stdpp Require Import base list option numbers.
From S2P Require Import Prelude Effects.

(** ** Data *)

Inductive Move (P : Type) : Type :=
| Stay
| Move_Goto (next : P)
| Defer
| Move_Stop.
Arguments Stay {P}.
Arguments Move_Goto {P} _.
Arguments Defer {P}.
Arguments Move_Stop {P}.

Record MachineError (A M E : Type) := mkMachineError { event : User A M; cause : E }.
Arguments mkMachineError {A M E} _ _.
Arguments event {A M E} _.
Arguments cause {A M E} _.

Inductive Advance : Type := Advance_Continue | PhaseChanged | Advance_Stop.

Record Machine (St M P : Type) := mkMachine { state : St; phase : P; held : list M }.
Arguments mkMachine {St M P} _ _ _.
Arguments state {St M P} _.
Arguments phase {St M P} _.
Arguments held {St M P} _.

(** Pair a value with the equation that defines it. *)
Definition inspect {X : Type} (x : X) : { y : X | x = y } := exist _ x eq_refl.

Section Machine.
  Context {A St M P E : Type} `{!EqDecision P}.

  (** The phase function: it may update the domain state and either decides a
      move or fails. *)
  Context (on : P -> St -> M -> St * result (Move P) E).

Abbreviation machine := (Machine St M P).

Definition new (s : St) (p : P) : machine := mkMachine s p [].

Definition set_held (m : machine) (h : list M) : machine := mkMachine (state m) (phase m) h.

Definition advance (m : machine) (msg : M) : machine * result Advance E :=
  match on (phase m) (state m) msg with
  | (s, Err e) => (mkMachine s (phase m) (held m), Err e)
  | (s, Ok Stay) => (mkMachine s (phase m) (held m), Ok Advance_Continue)
  | (s, Ok Defer) => (mkMachine s (phase m) (held m ++ [msg]), Ok Advance_Continue)
  | (s, Ok Move_Stop) => (mkMachine s (phase m) (held m), Ok Advance_Stop)
  | (s, Ok (Move_Goto next)) =>
      (mkMachine s next (held m),
       Ok (if decide (next = phase m) then Advance_Continue else PhaseChanged))
  end.

Definition drain_measure (m : machine) (batch : list M) : nat :=
  let t := length batch + length (held m) in t * (t + 1) + length batch.

Lemma advance_continue_measure m msg batch m' :
  advance m msg = (m', Ok Advance_Continue) ->
  drain_measure m' batch < drain_measure m (msg :: batch).
Proof.
  unfold advance, drain_measure.
  destruct (on (phase m) (state m) msg) as [s [[]|e]]; intros H;
    repeat split_match_in H; injection H as <-; simpl; rewrite ?length_app; simpl; lia.
Qed.

Lemma advance_phase_measure m msg batch m' :
  advance m msg = (m', Ok PhaseChanged) ->
  drain_measure (set_held m' []) (batch ++ held m') < drain_measure m (msg :: batch).
Proof.
  unfold advance, drain_measure.
  destruct (on (phase m) (state m) msg) as [s [[]|e]]; intros H;
    try discriminate H; repeat split_match_in H; injection H as <-.
  simpl held; simpl length; rewrite ?length_app.
  set (t := length batch + length (held m)).
  replace (S (length batch) + length (held m)) with (S t) by (subst t; lia).
  rewrite Nat.add_0_r. lia.
Qed.

(** The [while let Some(message) = batch.pop_front()] loop of [drain]. *)
Equations? drain_loop (m : machine) (batch : list M) : machine * result (Step Never Stopped) E
  by wf (drain_measure m batch) lt :=
drain_loop m [] := (m, Ok Continue);
drain_loop m (msg :: batch) with inspect (advance m msg) => {
  | exist _ (m', Err e) _ => (set_held m' (held m' ++ batch), Err e);
  | exist _ (m', Ok Advance_Continue) _ => drain_loop m' batch;
  | exist _ (m', Ok PhaseChanged) _ => drain_loop (set_held m' []) (batch ++ held m');
  | exist _ (m', Ok Advance_Stop) _ => (set_held m' (held m' ++ batch), Ok (Stop the_Stopped)) }.
Proof.
  - by apply advance_continue_measure.
  - by apply advance_phase_measure.
Qed.

Definition drain (m : machine) : machine * result (Step Never Stopped) E :=
  drain_loop (set_held m []) (held m).

(** [Behavior::transition]: the clone is staged and committed on success. *)
Definition transition (m : machine) (ev : User A M) :
  machine * Acted Never Never (list Never) (MachineError A M E) :=
  match advance m (message ev) with
  | (_, Err e) => (m, Err (mkMachineError ev e))
  | (staged, Ok Advance_Stop) => (staged, Ok stop)
  | (staged, Ok PhaseChanged) =>
      match drain staged with
      | (staged, Ok step) => (staged, Ok (just step))
      | (_, Err e) => (m, Err (mkMachineError ev e))
      end
  | (staged, Ok Advance_Continue) => (staged, Ok cont)
  end.

(** ** The machine loses no message it still owes *)

Lemma advance_held m msg m' r :
  advance m msg = (m', r) -> held m' = held m \/ held m' = held m ++ [msg].
Proof.
  unfold advance. destruct (on (phase m) (state m) msg) as [s [[]|e]]; intros H;
    repeat split_match_in H; injection H as <- _; auto.
Qed.

Lemma advance_submseteq m msg m' r batch :
  advance m msg = (m', r) -> held m' ++ batch ⊆+ held m ++ msg :: batch.
Proof.
  intros [-> | ->]%advance_held.
  - apply submseteq_skips_l. by apply submseteq_cons.
  - by rewrite <- app_assoc.
Qed.

Lemma drain_loop_submseteq m batch m' r :
  drain_loop m batch = (m', r) -> held m' ⊆+ held m ++ batch.
Proof.
  revert m' r. funelim (drain_loop m batch); intros m'' r Heq;
    try (etrans; [by eapply H|]); try (injection Heq as <- <-); simpl.
  - by rewrite app_nil_r.
  - by eapply advance_submseteq.
  - rewrite (Permutation_app_comm batch). by eapply advance_submseteq.
  - by eapply advance_submseteq.
  - by eapply advance_submseteq.
Qed.

(** ** Quiescence: every held message is deferred by the current phase *)

Definition deferred (p : P) (msg : M) : Prop := forall s, snd (on p s msg) = Ok Defer.

Definition quiescent (m : machine) : Prop := Forall (deferred (phase m)) (held m).

Section StateIndependent.
  (** The move depends on the phase and the message, not on the domain state. *)
  Hypothesis on_independent :
    forall p s s' msg, snd (on p s msg) = snd (on p s' msg).

Lemma advance_quiescent m msg m' :
  advance m msg = (m', Ok Advance_Continue) -> quiescent m -> quiescent m'.
Proof.
  unfold advance, quiescent. intros H Hq.
  destruct (on (phase m) (state m) msg) as [s [[]|e]] eqn:Hon; try discriminate H;
    repeat split_match_in H; injection H as <-; simpl; subst; auto.
  apply Forall_app; split; [done|]. constructor; [|done].
  intros s'. by rewrite (on_independent _ s' (state m)), Hon.
Qed.

Lemma drain_loop_quiescent m batch m' :
  drain_loop m batch = (m', Ok Continue) -> quiescent m -> quiescent m'.
Proof.
  revert m'. funelim (drain_loop m batch); intros m'' Heq Hq; try discriminate Heq.
  - by injection Heq as <-.
  - apply (H m'' Heq). by eapply advance_quiescent.
  - apply (H m'' Heq). constructor.
Qed.

Lemma transition_quiescent m ev m' a :
  transition m ev = (m', Ok a) -> become_ a = Continue -> quiescent m -> quiescent m'.
Proof.
  unfold transition, drain. intros H Hb Hq.
  destruct (advance m (message ev)) as [m1 [[]|e]] eqn:Ha; simpl in H.
  - injection H as <- _. by eapply advance_quiescent.
  - destruct (drain_loop (set_held m1 []) (held m1)) as [m2 [step|e]] eqn:Hd; [|discriminate H].
    injection H as <- <-. simpl in Hb; subst step.
    eapply drain_loop_quiescent; [done|]. constructor.
  - injection H as _ <-. discriminate Hb.
  - discriminate H.
Qed.

End StateIndependent.

(** A run of the machine: events are fed while every transition succeeds and
    continues. *)
Inductive runs : machine -> list (User A M) -> machine -> Prop :=
| runs_nil m : runs m [] m
| runs_ok m ev evs m1 a m' :
    transition m ev = (m1, Ok a) -> become_ a = Continue ->
    runs m1 evs m' -> runs m (ev :: evs) m'
| runs_err m ev evs m1 e m' :
    transition m ev = (m1, Err e) -> runs m1 evs m' -> runs m (ev :: evs) m'.

Lemma transition_err m ev m' err :
  transition m ev = (m', Err err) -> m' = m /\ event err = ev.
Proof.
  unfold transition. intros H. repeat split_match_in H; injection H as <- <-; done.
Qed.

Lemma transition_ok_submseteq m ev m' a :
  transition m ev = (m', Ok a) -> held m' ⊆+ held m ++ [message ev].
Proof.
  unfold transition, drain. intros H.
  destruct (advance m (message ev)) as [m1 [[]|e]] eqn:Ha; simpl in H; [| | |discriminate H].
  - injection H as <- _. rewrite <- (app_nil_r (held m1)). by eapply advance_submseteq.
  - destruct (drain_loop (set_held m1 []) (held m1)) as [m2 [step|e]] eqn:Hd; [|discriminate H].
    injection H as <- _. apply drain_loop_submseteq in Hd. simpl in Hd. rewrite Hd.
    rewrite <- (app_nil_r (held m1)). by eapply advance_submseteq.
  - injection H as <- _. rewrite <- (app_nil_r (held m1)). by eapply advance_submseteq.
Qed.

(** The machine never strands a runnable message: when the phase function's
    move depends only on the phase and the message, every state reached from a
    new machine by events that are accepted (continuing) or rejected holds only
    messages that its current phase defers. *)
Theorem machine_quiescent s0 p0 evs m :
  (forall p s s' msg, snd (on p s msg) = snd (on p s' msg)) ->
  runs (new s0 p0) evs m -> quiescent m.
Proof.
  intros Hind Hruns. assert (quiescent (new s0 p0)) as Hq by constructor.
  induction Hruns as [m|m ev evs m1 a m' Ht Hb _ IH|m ev evs m1 e m' Ht _ IH].
  - done.
  - apply IH. by eapply transition_quiescent.
  - apply IH. by apply transition_err in Ht as [-> _].
Qed.

(** Every event settles: [transition] (whose replay loop terminates on every
    input) either commits or leaves the machine exactly as it was and returns
    the complete rejected event; a committed transition holds only messages
    that were held before or the event's own message, each at most as often. *)
Theorem machine_transition_atomic m ev :
  match transition m ev with
  | (m', Ok _) => held m' ⊆+ held m ++ [message ev]
  | (m', Err err) => m' = m /\ event err = ev
  end.
Proof.
  destruct (transition m ev) as [m' [a|err]] eqn:Ht.
  - by eapply transition_ok_submseteq.
  - by eapply transition_err.
Qed.

End Machine.

(** A door: message 0 toggles the phase, other messages pass only when open. *)
Definition door (open : bool) (s : nat) (msg : nat) : nat * result (Move bool) Never :=
  if msg =? 0 then (s, Ok (Move_Goto (negb open)))
  else if open then (s + msg, Ok Stay) else (s, Ok Defer).

Example door_replays :
  transition (A := nat) door (mkMachine 10 false [3; 4]) (mkUser 1 0) =
  (mkMachine 17 true [], Ok cont).
Proof. reflexivity. Qed.

Lemma machine_quiescent_witness :
  exists m, runs (A := nat) door (new 10 false) [mkUser 1 3; mkUser 1 0; mkUser 1 0; mkUser 1 5] m /\
    held m = [5] /\ quiescent door m.
Proof.
  exists (mkMachine 13 false [5]).
  assert (Hr : runs (A := nat) door (new 10 false)
    [mkUser 1 3; mkUser 1 0; mkUser 1 0; mkUser 1 5] (mkMachine 13 false [5])).
  { repeat (eapply runs_ok; [reflexivity|reflexivity|]). apply runs_nil. }
  split; [exact Hr|split; [reflexivity|]].
  apply (machine_quiescent (A := nat) door 10 false [mkUser 1 3; mkUser 1 0; mkUser 1 0; mkUser 1 5]).
  - intros p s s' msg. unfold door. destruct (msg =? 0), p; reflexivity.
  - exact Hr.
Defined.
