(* ===== verification/Stash.v ===== *)
(** * Stash behaviors ([crates/actors/src/stash/queue.rs], [stash/limit.rs])

    [UnlimitedStash] wraps an inner behavior with a FIFO of held user inputs and
    a routing decision over the inner state; [Stash] adds a limit and a refusal
    recipient.  The inner behavior is a parameter; its error type is
    uninhabited in every use (the [StaticallyInfallible] bound), which the
    theorems assume as [E -> False].

    The [Drop] of [HeldInputs] puts the unread suffix back behind the reheld
    prefix on every exit of the loop, which the loop below does explicitly. *)

From stdpp Require Import base list option numbers.
From S2P Require Import Prelude Effects.

Inductive StashRoute : Type := Stash_ | Deliver | Release.

Record UnlimitedStash (St A M : Type) := mkStash { inner_state : St; held : list (User A M) }.
Arguments mkStash {St A M} _ _.
Arguments inner_state {St A M} _.
Arguments held {St A M} _.

(** The two send lanes of the bounded stash. *)
Record StashSends (ActorSends Refusals : Type) := mkStashSends {
  actor : ActorSends;
  refusals : Refusals
}.
Arguments mkStashSends {_ _} _ _.
Arguments actor {_ _} _.
Arguments refusals {_ _} _.

(** Two sequences merged into one, keeping the order of each. *)
Inductive interleave {X : Type} : list X -> list X -> list X -> Prop :=
| interleave_nil : interleave [] [] []
| interleave_l x l1 l2 l : interleave l1 l2 l -> interleave (x :: l1) l2 (x :: l)
| interleave_r x l1 l2 l : interleave l1 l2 l -> interleave l1 (x :: l2) (x :: l).

Section Stash.
  Context {St A M Ev Ch Sends E : Type}.
  Context `{!UserEvent A M Ev, !SendEffects Sends}.
  Context (B : Behavior St Ev Ch Never Sends E).
  Context (route : St -> M -> StashRoute).

Abbreviation stash := (UnlimitedStash St A M).
Abbreviation actions := (Actions Ch Never Sends).

Definition new (s : St) : stash := mkStash s [].

(** [UnlimitedStash::take]. *)
Definition take (s : stash) : stash * list (User A M) := (mkStash (inner_state s) [], held s).

(** Merging the actions of one replayed input into the accumulator. *)
Definition accumulate (acc a : actions) : actions :=
  mkActions (sends_append (sends acc) (sends a))
            (Creations_extend (creates acc) (creates a))
            (match become_ a with Stop r => Stop r | _ => become_ acc end).

(** The loop of [drain_into] over the unread inputs. *)
Fixpoint drain_loop (i : St) (reheld unread : list (User A M)) (acc : actions) :
  stash * result actions E :=
  match unread with
  | [] => (mkStash i reheld, Ok acc)
  | u :: rest =>
      match route i (message u) with
      | Stash_ => drain_loop i (reheld ++ [u]) rest acc
      | Deliver | Release =>
          match delegate_transition B i (user (from u) (message u)) with
          | (i', Err e) => (mkStash i' (reheld ++ rest), Err e)
          | (i', Ok a) =>
              if is_stop (become_ a) then (mkStash i' (reheld ++ rest), Ok (accumulate acc a))
              else drain_loop i' reheld rest (accumulate acc a)
          end
      end
  end.

Definition drain_into (s : stash) (acc : actions) : stash * result actions E :=
  drain_loop (inner_state s) [] (held s) acc.

Definition receive (s : stash) (u : User A M) (r : StashRoute) : stash * result actions E :=
  match r with
  | Stash_ => (mkStash (inner_state s) (held s ++ [u]), Ok cont)
  | Deliver =>
      let '(i, a) := delegate_transition B (inner_state s) (user (from u) (message u)) in
      (mkStash i (held s), a)
  | Release =>
      match delegate_transition B (inner_state s) (user (from u) (message u)) with
      | (i, Err e) => (mkStash i (held s), Err e)
      | (i, Ok a) =>
          if is_stop (become_ a) then (mkStash i (held s), Ok a)
          else drain_into (mkStash i (held s)) a
      end
  end.

Definition transition (s : stash) (ev : Ev) : stash * result actions E :=
  match into_user ev with
  | Ok u => receive s u (route (inner_state s) (message u))
  | Err other =>
      let '(i, a) := delegate_transition B (inner_state s) other in (mkStash i (held s), a)
  end.

Definition stash_init (s : stash) : stash * result actions E :=
  let '(i, a) := initialize B (inner_state s) in (mkStash i (held s), a).

Definition unlimited_behavior : Behavior stash Ev Ch Never Sends E :=
  mkBehavior stash_init transition.

(** ** Reference semantics of a replay: the inner behavior fed one input at a
    time, effects appended in order, until an input stops it. *)

Inductive replay : St -> list (User A M) -> actions -> St -> actions -> bool -> Prop :=
| replay_nil i acc : replay i [] acc i acc false
| replay_stop i u acc i' a :
    delegate_transition B i (user (from u) (message u)) = (i', Ok a) ->
    is_stop (become_ a) = true ->
    replay i [u] acc i' (accumulate acc a) true
| replay_next i u us acc i' a i'' acc' b :
    delegate_transition B i (user (from u) (message u)) = (i', Ok a) ->
    is_stop (become_ a) = false ->
    replay i' us (accumulate acc a) i'' acc' b ->
    replay i (u :: us) acc i'' acc' b.

Lemma drain_loop_spec (infallible : E -> False) unread : forall i reheld acc s' r,
  drain_loop i reheld unread acc = (s', r) ->
  exists prefix suffix kept fed acc' stopped,
    unread = prefix ++ suffix /\ interleave kept fed prefix /\
    r = Ok acc' /\ replay i fed acc (inner_state s') acc' stopped /\
    held s' = reheld ++ kept ++ suffix /\
    (stopped = false -> suffix = []).
Proof.
  induction unread as [|u rest IH]; intros i reheld acc s' r; simpl.
  { intros [= <- <-]. exists [], [], [], [], acc, false.
    repeat split; try constructor. simpl. by rewrite app_nil_r. }
  destruct (route i (message u)); simpl.
  1: { intros H. destruct (IH _ _ _ _ _ H) as (p & q & k & f & acc' & b & -> & Hi & -> & Hr & Hh & Hs).
       exists (u :: p), q, (u :: k), f, acc', b. repeat split; auto.
       - by constructor.
       - rewrite Hh. by rewrite <- app_assoc. }
  all: destruct (delegate_transition B i _) as [i' [a|e]] eqn:Hd; [|by destruct (infallible e)].
  all: destruct (is_stop (become_ a)) eqn:Hstop; intros H.
  1,3: injection H as <- <-; exists [u], rest, [], [u], (accumulate acc a), true;
       repeat split; auto; [repeat constructor|by econstructor|discriminate].
  all: destruct (IH _ _ _ _ _ H) as (p & q & k & f & acc' & b & -> & Hi & -> & Hr & Hh & Hs);
    exists (u :: p), q, k, (u :: f), acc', b; repeat split; auto;
    [by constructor|by econstructor].
Qed.

(** Releasing replays the held inputs in order: after a release command that
    does not stop the inner behavior, the held inputs split into a prefix and a
    suffix; the prefix is an order-preserving merge of the inputs kept and the
    inputs fed to the inner behavior one by one, with their effects appended in
    order; what stays held is the kept inputs followed by the unread suffix, and
    the suffix is empty unless a replayed input stopped the actor. *)
Theorem stash_release_replays (infallible : E -> False) s u i a s' r :
  delegate_transition B (inner_state s) (user (from u) (message u)) = (i, Ok a) ->
  is_stop (become_ a) = false ->
  receive s u Release = (s', r) ->
  exists prefix suffix kept fed acts stopped,
    held s = prefix ++ suffix /\ interleave kept fed prefix /\
    r = Ok acts /\ replay i fed a (inner_state s') acts stopped /\
    held s' = kept ++ suffix /\ (stopped = false -> suffix = []).
Proof.
  intros Hd Hs. unfold receive, drain_into. rewrite Hd, Hs. simpl.
  intros H. by apply drain_loop_spec in H.
Qed.

(** ** The bounded stash *)

Context {R RSends : Type} `{!SendEffects RSends, !DeliveryRoute R (User A M) RSends}.

Record Stash := mkBounded { queue : stash; limit : nat; refusal_route : R }.

Definition bounded_new (s : St) (lim : nat) (r : R) : Stash := mkBounded (new s) lim r.

Definition bounded_take (s : Stash) : Stash * list (User A M) :=
  let '(q, us) := take (queue s) in (mkBounded q (limit s) (refusal_route s), us).

Definition with_refusals (rs : RSends) (a : actions) :
  Actions Ch Never (StashSends Sends RSends) :=
  map_sends (fun s => mkStashSends s rs) a.

Definition bounded_init (s : Stash) :
  Stash * result (Actions Ch Never (StashSends Sends RSends)) E :=
  let '(q, r) := stash_init (queue s) in
  (mkBounded q (limit s) (refusal_route s), map_result (with_refusals sends_empty) r).

Definition bounded_transition (s : Stash) (ev : Ev) :
  Stash * result (Actions Ch Never (StashSends Sends RSends)) E :=
  let finish '(q, r) :=
    (mkBounded q (limit s) (refusal_route s), map_result (with_refusals sends_empty) r) in
  match into_user ev with
  | Ok u =>
      let rt := route (inner_state (queue s)) (message u) in
      if match rt with Stash_ => limit s <=? length (held (queue s)) | _ => false end then
        (s, Ok (mkActions (mkStashSends sends_empty (deliver (refusal_route s) u))
                          Creations_empty Continue))
      else finish (receive (queue s) u rt)
  | Err other => finish (transition (queue s) other)
  end.

Definition within_limit (s : Stash) : Prop := length (held (queue s)) <= limit s.

Lemma drain_loop_length unread : forall i reheld acc,
  length (held (fst (drain_loop i reheld unread acc))) <= length reheld + length unread.
Proof.
  induction unread as [|u rest IH]; intros i reheld acc; simpl; [lia|].
  destruct (route i (message u)).
  - specialize (IH i (reheld ++ [u]) acc). rewrite length_app in IH; simpl in IH. lia.
  - destruct (delegate_transition B i _) as [i' [a|e]]; simpl; [|rewrite length_app; lia].
    destruct (is_stop (become_ a)); simpl; [rewrite length_app; lia|].
    specialize (IH i' reheld (accumulate acc a)). lia.
  - destruct (delegate_transition B i _) as [i' [a|e]]; simpl; [|rewrite length_app; lia].
    destruct (is_stop (become_ a)); simpl; [rewrite length_app; lia|].
    specialize (IH i' reheld (accumulate acc a)). lia.
Qed.

Lemma receive_length s u r :
  length (held (fst (receive s u r))) <=
  match r with Stash_ => S (length (held s)) | _ => length (held s) end.
Proof.
  destruct r; simpl.
  - rewrite length_app; simpl; lia.
  - destruct (delegate_transition B _ _); simpl; lia.
  - destruct (delegate_transition B _ _) as [i [a|e]]; simpl; [|lia].
    destruct (is_stop (become_ a)); simpl; [lia|]. apply drain_loop_length.
Qed.

Lemma bounded_transition_within `{!UserEventLaws A M Ev} s ev :
  within_limit s -> within_limit (fst (bounded_transition s ev)).
Proof.
  unfold within_limit, bounded_transition. intros Hl.
  destruct (into_user ev) as [u|other] eqn:Hu.
  - set (rt := route (inner_state (queue s)) (message u)).
    pose proof (receive_length (queue s) u rt) as Hr.
    destruct rt; simpl in *.
    + destruct (Nat.leb_spec (limit s) (length (held (queue s)))); simpl; lia.
    + destruct (delegate_transition B _ _); simpl in *; lia.
    + destruct (delegate_transition B _ _) as [i [a|e]]; simpl in *; [|lia].
      destruct (is_stop (become_ a)); simpl in *; [lia|].
      destruct (drain_into _ _); simpl in *; lia.
  - assert (into_user other = Err other) as Ho.
    { pose proof (into_user_Err _ _ Hu); subst. done. }
    unfold transition. rewrite Ho.
    destruct (delegate_transition B _ _); simpl; lia.
Qed.

(** A bounded stash never holds more inputs than its limit: this holds in
    every state reachable from a new stash, whatever the inner behavior, the
    routing policy and the events. *)
Theorem stash_limit_invariant `{!UserEventLaws A M Ev} s0 lim r s :
  reachable (fun s ev => fst (bounded_transition s ev)) (bounded_new s0 lim r) s ->
  length (held (queue s)) <= lim.
Proof.
  intros H.
  assert (within_limit s /\ limit s = lim) as [Hw <-]; [|done].
  revert s H. apply reachable_invariant; [split; [unfold within_limit; simpl; lia|done]|].
  intros s ev [Hw Hl]. split; [by apply bounded_transition_within|].
  rewrite <- Hl. unfold bounded_transition.
  destruct (into_user ev) as [u|other]; repeat (split_match; simpl; try done).
Qed.

(** A full stash refuses the input: the complete original input goes to the
    refusal recipient, and neither the queue nor the inner behavior changes. *)
Lemma stash_refusal `{!RouteLaws R (User A M) RSends} s ev u :
  into_user ev = Ok u -> route (inner_state (queue s)) (message u) = Stash_ ->
  limit s <= length (held (queue s)) ->
  exists a, bounded_transition s ev = (s, Ok a) /\
    addressed (refusals (sends a)) = [(refusal_route s, u)] /\
    actor (sends a) = sends_empty /\ become_ a = Continue.
Proof.
  intros Hu Hr Hl. unfold bounded_transition. rewrite Hu, Hr.
  destruct (Nat.leb_spec (limit s) (length (held (queue s)))); [|lia].
  eexists; repeat split; simpl. by rewrite addressed_deliver.
Qed.

End Stash.

(** A counter that stops when it receives 0, stashing while its state is odd. *)
Definition demo_inner : Behavior nat (User nat nat) Never Never (list nat) Never :=
  mkBehavior (fun s => (s, Ok cont))
    (fun s u => (s + message u, Ok (if message u =? 0 then stop else send [s]))).

Definition demo_stash_route (s : nat) (m : nat) : StashRoute :=
  if Nat.odd s then (if m =? 1 then Release else Stash_) else Deliver.

Definition demo_held : UnlimitedStash nat nat nat :=
  mkStash 1 [mkUser 5 4; mkUser 5 0; mkUser 6 3].

Lemma stash_release_replays_witness :
  exists prefix suffix kept fed acts stopped,
    held demo_held = prefix ++ suffix /\ interleave kept fed prefix /\
    snd (receive demo_inner demo_stash_route demo_held (mkUser 5 1) Release) = Ok acts /\
    replay demo_inner 2 fed (send [1])
      (inner_state (fst (receive demo_inner demo_stash_route demo_held (mkUser 5 1) Release)))
      acts stopped /\
    held (fst (receive demo_inner demo_stash_route demo_held (mkUser 5 1) Release)) = kept ++ suffix /\
    (stopped = false -> suffix = []).
Proof.
  apply (stash_release_replays demo_inner demo_stash_route (fun e : Never => match e with end)
    demo_held (mkUser 5 1) 2 (send [1])); reflexivity.
Defined.

Lemma stash_limit_invariant_witness :
  exists s, reachable (fun s ev => fst (bounded_transition demo_inner demo_stash_route s ev))
      (bounded_new (A := nat) 1 1 (mkRecipient 3)) s /\ length (held (queue s)) = 1 /\
    length (held (queue s)) <= 1.
Proof.
  eexists.
  assert (Hr : reachable (fun s ev => fst (bounded_transition demo_inner demo_stash_route s ev))
    (bounded_new (A := nat) 1 1 (mkRecipient 3))
    (run (fun s ev => fst (bounded_transition demo_inner demo_stash_route s ev))
       (bounded_new (A := nat) 1 1 (mkRecipient 3)) [mkUser 5 4; mkUser 5 6]))
    by (apply reachable_run; eexists; reflexivity).
  split; [exact Hr|]. split; [reflexivity|].
  exact (stash_limit_invariant demo_inner demo_stash_route 1 1 (mkRecipient 3) _ Hr).
Defined.
