(* ===== verification/Buffer.v ===== *)
(** * The bounded buffer ([crates/actors/src/routing/buffer.rs])

    A FIFO of accepted values with an overflow policy.  The state, the policy,
    the commands and the outcomes are the source's; the [expect] of the
    eviction branch is a panic, modelled by [None]. *)

From stdpp Require Import base list option numbers.
From S2P Require Import Prelude Effects.

(** ** Data *)

Inductive OverflowPolicy : Type := Reject | DropOldest | DropNewest.

Inductive BufferRejection : Type := Full | DroppedNewest.

Inductive BufferOutcome (T : Type) : Type :=
| Accepted (depth : nat)
| Rejected (value : T) (reason : BufferRejection)
| Evicted (value : T)
| Released (remaining : nat)
| Empty.
Arguments Accepted {T} _.
Arguments Rejected {T} _ _.
Arguments Evicted {T} _.
Arguments Released {T} _.
Arguments Empty {T}.

Record Buffered (T Route : Type) := mkBuffered { value : T; reply_to : Route }.
Arguments mkBuffered {T Route} _ _.
Arguments value {T Route} _.
Arguments reply_to {T Route} _.

Record BufferState (T Route : Type) := mkBufferState {
  capacity : nat;
  overflow : OverflowPolicy;
  queued : list (Buffered T Route)
}.
Arguments mkBufferState {T Route} _ _ _.
Arguments capacity {T Route} _.
Arguments overflow {T Route} _.
Arguments queued {T Route} _.

Inductive BufferMessage (T TargetRoute ReplyRoute : Type) : Type :=
| Offer (v : T) (reply : ReplyRoute)
| Release (target : TargetRoute) (reply : ReplyRoute).
Arguments Offer {T TargetRoute ReplyRoute} _ _.
Arguments Release {T TargetRoute ReplyRoute} _ _.

Inductive BufferConfigError : Type := ZeroCapacity.

Record BufferConfiguration := mkConfiguration {
  configured_capacity : nat;
  configured_overflow : OverflowPolicy
}.

(** [BufferConfiguration::new]. *)
Definition configure (cap : nat) (policy : OverflowPolicy) :
  result BufferConfiguration BufferConfigError :=
  if cap =? 0 then Err ZeroCapacity else Ok (mkConfiguration cap policy).

Section Buffer.
  Context {A T TargetRoute ReplyRoute TSends RSends : Type}.
  Context `{!SendEffects TSends, !SendEffects RSends}.
  Context `{!DeliveryRoute TargetRoute T TSends}.
  Context `{!DeliveryRoute ReplyRoute (BufferOutcome T) RSends}.

Definition new (c : BufferConfiguration) : BufferState T ReplyRoute :=
  mkBufferState (configured_capacity c) (configured_overflow c) [].

Definition actions (d : TSends) (o : RSends) :
  Actions Never Never (DeliveryOutcomes TSends RSends) :=
  send (mkDeliveryOutcomes d o).

Definition set_queued (s : BufferState T ReplyRoute) (q : list (Buffered T ReplyRoute)) :
  BufferState T ReplyRoute :=
  mkBufferState (capacity s) (overflow s) q.

(** [Behavior::transition]; [None] is the panic of the [expect]. *)
Definition transition (s : BufferState T ReplyRoute)
  (event : User A (BufferMessage T TargetRoute ReplyRoute)) :
  option (BufferState T ReplyRoute * Acted Never Never (DeliveryOutcomes TSends RSends) Never) :=
  match message event with
  | Offer v reply =>
      if length (queued s) <? capacity s then
        let q := queued s ++ [mkBuffered v reply] in
        Some (set_queued s q, Ok (actions sends_empty (deliver reply (Accepted (length q)))))
      else
        match overflow s with
        | Reject => Some (s, Ok (actions sends_empty (deliver reply (Rejected v Full))))
        | DropNewest =>
            Some (s, Ok (actions sends_empty (deliver reply (Rejected v DroppedNewest))))
        | DropOldest =>
            match queued s with
            | [] => None
            | evicted :: rest =>
                let q := rest ++ [mkBuffered v reply] in
                Some (set_queued s q,
                  Ok (actions sends_empty
                        (sends_append (deliver (reply_to evicted) (Evicted (value evicted)))
                                      (deliver reply (Accepted (length q))))))
            end
        end
  | Release target reply =>
      match queued s with
      | [] => Some (s, Ok (actions sends_empty (deliver reply Empty)))
      | b :: rest =>
          Some (set_queued s rest,
            Ok (actions (deliver target (value b)) (deliver reply (Released (length rest)))))
      end
  end.

(** ** Invariant: positive capacity bounds the queue *)

Definition wf (s : BufferState T ReplyRoute) : Prop :=
  0 < capacity s /\ length (queued s) <= capacity s.

Lemma buffer_wf_new cap policy c : configure cap policy = Ok c -> wf (new c).
Proof.
  unfold configure. destruct (Nat.eqb_spec cap 0); [discriminate|].
  intros [= <-]. unfold wf; simpl; lia.
Qed.

Lemma buffer_step_wf s e :
  wf s -> exists s' o, transition s e = Some (s', o) /\ wf s'.
Proof.
  intros [Hpos Hle]. unfold transition, wf.
  destruct (message e) as [v r|t r].
  - destruct (Nat.ltb_spec (length (queued s)) (capacity s)) as [Hlt|Hge].
    + do 2 eexists; split; [done|]. simpl. rewrite length_app; simpl; lia.
    + destruct (overflow s); [by eauto 6| |by eauto 6].
      destruct (queued s) as [|b q] eqn:Hq; simpl in *; [lia|].
      do 2 eexists; split; [done|]. simpl. rewrite length_app; simpl; lia.
  - destruct (queued s) as [|b q] eqn:Hq; do 2 eexists; (split; [done|]); simpl in *.
    + rewrite Hq; simpl; lia.
    + lia.
Qed.

(** ** What one step accepts, removes and returns *)

Context `{!RouteLaws TargetRoute T TSends}.
Context `{!RouteLaws ReplyRoute (BufferOutcome T) RSends}.

Abbreviation effects := (Acted Never Never (DeliveryOutcomes TSends RSends) Never).

Definition evicted_of (o : BufferOutcome T) : list T :=
  match o with Evicted v => [v] | _ => [] end.
Definition rejected_of (o : BufferOutcome T) : list T :=
  match o with Rejected v _ => [v] | _ => [] end.

(** Values that left the queue in this step: delivered to a target or returned
    as evictions. *)
Definition removed (o : effects) : list T :=
  messages_of (deliveries (ok_sends o)) ++
  (messages_of (outcomes (ok_sends o)) ≫= evicted_of).

(** Values refused by this step and returned to their offerer. *)
Definition refused (o : effects) : list T :=
  messages_of (outcomes (ok_sends o)) ≫= rejected_of.

Definition offered (e : User A (BufferMessage T TargetRoute ReplyRoute)) : list T :=
  match message e with Offer v _ => [v] | Release _ _ => [] end.

Definition values (s : BufferState T ReplyRoute) : list T := value <$> queued s.

(** Values accepted by a step: those offered and not refused. *)
Definition accepted (e : User A (BufferMessage T TargetRoute ReplyRoute)) (o : effects) : list T :=
  match refused o with [] => offered e | _ => [] end.

Lemma buffer_step_fifo s e s' o :
  transition s e = Some (s', o) ->
  removed o ++ values s' = values s ++ accepted e o /\
  refused o ++ accepted e o = offered e.
Proof.
  unfold transition, removed, accepted, refused, offered, values.
  destruct (message e) as [v r|t r]; intros H; repeat split_match_in H;
    injection H as <- <-; simpl; autorewrite with bombay; simpl;
    rewrite ?fmap_app, ?app_nil_r; simpl; rewrite ?Hm, ?Hm0, ?Hm1; simpl;
    rewrite ?fmap_app; done.
Qed.

(** Concatenation of [accepted] along a run. *)
Fixpoint accepted_run (es : list (User A (BufferMessage T TargetRoute ReplyRoute)))
  (os : list effects) : list T :=
  match es, os with
  | e :: es, o :: os => accepted e o ++ accepted_run es os
  | _, _ => []
  end.

Lemma otrace_fifo es : forall s s' os,
  otrace transition s es = Some (s', os) ->
  (os ≫= removed) ++ values s' = values s ++ accepted_run es os /\
  (os ≫= refused) ++ accepted_run es os ≡ₚ es ≫= offered.
Proof.
  induction es as [|e es IH]; intros s s' os; simpl.
  { intros [= <- <-]; simpl. by rewrite app_nil_r. }
  destruct (transition s e) as [[s1 o]|] eqn:Hstep; [|discriminate].
  destruct (otrace transition s1 es) as [[s2 os2]|] eqn:Hrest; [|discriminate].
  intros [= <- <-]. apply buffer_step_fifo in Hstep as [Hq Hr].
  destruct (IH _ _ _ Hrest) as [Hq2 Hr2]. rewrite !bind_cons; simpl accepted_run. split.
  - rewrite <- app_assoc, Hq2, app_assoc, Hq, <- app_assoc. done.
  - rewrite <- Hr, <- Hr2. rewrite <- !app_assoc. f_equiv.
    rewrite !app_assoc. f_equiv. apply Permutation_app_comm.
Qed.

(** On every run of commands from a freshly configured buffer, no command
    panics, the queue never exceeds the configured capacity, and nothing is
    lost: the values that left the queue (released or evicted), followed by the
    values still queued, are exactly the accepted values in order of
    acceptance, and every offered value was either accepted or returned to its
    offerer. *)
Theorem buffer_fifo_conservation cap policy c es :
  configure cap policy = Ok c ->
  exists s' os,
    otrace transition (new c) es = Some (s', os) /\
    length (queued s') <= cap /\
    (os ≫= removed) ++ values s' = accepted_run es os /\
    (os ≫= refused) ++ accepted_run es os ≡ₚ es ≫= offered.
Proof.
  intros Hc.
  assert (Hcap : capacity (new c) = cap).
  { revert Hc. unfold configure. destruct (cap =? 0); [discriminate|]. by intros [= <-]. }
  destruct (otrace_total (fun s => wf s /\ capacity s = cap) transition) with
    (es := es) (s := new c) as (s' & os & Hrun & [Hwf Hs']).
  - intros s e [Hs <-]. destruct (buffer_step_wf s e Hs) as (s1 & o & Hst & Hwf1).
    exists s1, o. repeat split; try done; try apply Hwf1.
    clear -Hst. unfold transition in Hst. repeat split_match_in Hst; by injection Hst as <- _.
  - split; [by eapply buffer_wf_new|done].
  - exists s', os. destruct (otrace_fifo _ _ _ _ Hrun) as [Hq Hr].
    repeat split; auto. destruct Hwf; lia.
Qed.

End Buffer.

(** A buffer of capacity 2 that drops its oldest value. *)
Definition demo_commands :
  list (User nat (BufferMessage nat (Recipient nat) (Recipient nat))) :=
  [mkUser 9 (Offer 1 (mkRecipient 8)); mkUser 9 (Offer 2 (mkRecipient 8));
   mkUser 9 (Offer 3 (mkRecipient 8)); mkUser 9 (Release (mkRecipient 7) (mkRecipient 8))].

Definition demo_transition :=
  transition (A := nat) (T := nat) (TargetRoute := Recipient nat) (ReplyRoute := Recipient nat)
    (TSends := list (Delivery nat nat)) (RSends := list (Delivery nat (BufferOutcome nat))).

Lemma buffer_fifo_conservation_witness :
  exists s' os,
    otrace demo_transition (new (mkConfiguration 2 DropOldest)) demo_commands = Some (s', os) /\
    length (queued s') <= 2 /\
    (os ≫= removed) ++ values s' = accepted_run demo_commands os /\
    (os ≫= refused) ++ accepted_run demo_commands os ≡ₚ demo_commands ≫= offered.
Proof.
  exact (buffer_fifo_conservation (A := nat) (TargetRoute := Recipient nat)
    (ReplyRoute := Recipient nat) 2 DropOldest (mkConfiguration 2 DropOldest) demo_commands eq_refl).
Defined.
