(* ===== verification/WorkQueue.v ===== *)
(** * The work queue ([crates/actors/src/routing/work_queue.rs])

    A bounded FIFO of waiting work and a FIFO of available workers.  Every
    operation of the source is a definition; routes are abstract, with decidable
    equality on worker routes (the source's [PartialEq]). *)

From stdpp Require Import base list option numbers.
From S2P Require Import Prelude Effects.

(** ** Data *)

Inductive WorkQueueRejection : Type := Full.

Inductive WorkQueueOutcome (T : Type) : Type :=
| Queued (depth : nat)
| Dispatched (queued : nat)
| Rejected (value : T) (reason : WorkQueueRejection).
Arguments Queued {T} _.
Arguments Dispatched {T} _.
Arguments Rejected {T} _ _.

Inductive WorkQueueMessage (T WorkerRoute ReplyRoute : Type) : Type :=
| Submit (value : T) (reply_to : ReplyRoute)
| Available (worker : WorkerRoute)
| Withdraw (worker : WorkerRoute).
Arguments Submit {T WorkerRoute ReplyRoute} _ _.
Arguments Available {T WorkerRoute ReplyRoute} _.
Arguments Withdraw {T WorkerRoute ReplyRoute} _.

Record WorkQueueSends (Assignments OutcomeSends : Type) := mkWorkQueueSends {
  assignments : Assignments;
  outcomes : OutcomeSends
}.
Arguments mkWorkQueueSends {_ _} _ _.
Arguments assignments {_ _} _.
Arguments outcomes {_ _} _.

(** [derive(SendProduct)]: lane by lane. *)
#[export] Instance WorkQueueSends_SendEffects D O `{!SendEffects D, !SendEffects O} :
  SendEffects (WorkQueueSends D O) := {
  sends_empty := mkWorkQueueSends sends_empty sends_empty;
  sends_append a b :=
    mkWorkQueueSends (sends_append (assignments a) (assignments b))
                     (sends_append (outcomes a) (outcomes b))
}.

Record Waiting (T Route : Type) := mkWaiting { value : T; reply_to : Route }.
Arguments mkWaiting {T Route} _ _.
Arguments value {T Route} _.
Arguments reply_to {T Route} _.

Record WorkQueue (T WorkerRoute ReplyRoute : Type) := mkWorkQueue {
  capacity : nat;
  available : list WorkerRoute;
  waiting : list (Waiting T ReplyRoute)
}.
Arguments mkWorkQueue {T WorkerRoute ReplyRoute} _ _ _.
Arguments capacity {T WorkerRoute ReplyRoute} _.
Arguments available {T WorkerRoute ReplyRoute} _.
Arguments waiting {T WorkerRoute ReplyRoute} _.

Section WorkQueue.
  Context {A T WorkerRoute ReplyRoute WSends RSends : Type}.
  Context `{!EqDecision WorkerRoute}.
  Context `{!SendEffects WSends, !SendEffects RSends}.
  Context `{!DeliveryRoute WorkerRoute T WSends}.
  Context `{!DeliveryRoute ReplyRoute (WorkQueueOutcome T) RSends}.

Abbreviation queue := (WorkQueue T WorkerRoute ReplyRoute).
Abbreviation queue_actions := (Actions Never Never (WorkQueueSends WSends RSends)).
Abbreviation queue_event := (User A (WorkQueueMessage T WorkerRoute ReplyRoute)).

Definition new (cap : nat) : queue := mkWorkQueue cap [] [].

Definition queue_sends (a : WSends) (o : RSends) : queue_actions := send (mkWorkQueueSends a o).

Definition submit (s : queue) (v : T) (reply : ReplyRoute) : queue * queue_actions :=
  match available s with
  | worker :: rest =>
      (mkWorkQueue (capacity s) rest (waiting s),
       queue_sends (deliver worker v) (deliver reply (Dispatched (length (waiting s)))))
  | [] =>
      if length (waiting s) =? capacity s then
        (s, queue_sends sends_empty (deliver reply (Rejected v Full)))
      else
        let w := waiting s ++ [mkWaiting v reply] in
        (mkWorkQueue (capacity s) (available s) w,
         queue_sends sends_empty (deliver reply (Queued (length w))))
  end.

Definition announce (s : queue) (worker : WorkerRoute) : queue * queue_actions :=
  match waiting s with
  | w :: rest =>
      (mkWorkQueue (capacity s) (available s) rest,
       queue_sends (deliver worker (value w))
                   (deliver (reply_to w) (Dispatched (length rest))))
  | [] =>
      (if bool_decide (worker ∈ available s) then s
       else mkWorkQueue (capacity s) (available s ++ [worker]) (waiting s), cont)
  end.

(** The [Withdraw] arm of the transition. *)
Definition withdraw (s : queue) (worker : WorkerRoute) : queue * queue_actions :=
  (match position (fun candidate => bool_decide (candidate = worker)) (available s) with
   | Some index => mkWorkQueue (capacity s) (base.delete index (available s)) (waiting s)
   | None => s
   end, cont).

Definition transition (s : queue) (event : queue_event) :
  queue * Acted Never Never (WorkQueueSends WSends RSends) Never :=
  let '(s', a) :=
    match message event with
    | Submit v reply => submit s v reply
    | Available worker => announce s worker
    | Withdraw worker => withdraw s worker
    end in
  (s', Ok a).

(** ** Invariant

    Waiting work is bounded, an available worker is listed once, and work never
    waits while a worker is available. *)

Record wf (cap : nat) (s : queue) : Prop := {
  wf_capacity : capacity s = cap;
  wf_bounded : length (waiting s) <= cap;
  wf_unique : NoDup (available s);
  wf_matched : available s = [] \/ waiting s = []
}.

Lemma work_queue_wf_step cap s e : wf cap s -> wf cap (fst (transition s e)).
Proof.
  intros [Hc Hb Hu Hm]. unfold transition, submit, announce, withdraw.
  destruct (message e) as [v r|w|w]; simpl.
  - destruct (available s) as [|w rest] eqn:Ha; simpl.
    + destruct (Nat.eqb_spec (length (waiting s)) (capacity s)); simpl.
      * split; rewrite ?Ha; auto.
      * split; simpl; rewrite ?length_app; simpl; auto; lia.
    + split; simpl; auto; [by inversion Hu|]. right. by destruct Hm.
  - destruct (waiting s) as [|x rest] eqn:Hw; simpl.
    + case_bool_decide; [split; rewrite ?Hw; auto; simpl; lia|].
      split; simpl; auto. apply list.NoDup_app; repeat split; auto; [|apply NoDup_singleton].
      intros y Hy ->%list_elem_of_singleton; done.
    + split; simpl in *; auto; [lia|]. destruct Hm; [by left|discriminate].
  - split_match; simpl; [|by split].
    split; simpl; auto.
    + by eapply sublist_NoDup; [exact Hu|apply sublist_delete].
    + destruct Hm as [-> | ->]; [left|by right]. by destruct n.
Qed.

(** ** What one step admits and assigns *)

Context `{!RouteLaws WorkerRoute T WSends}.
Context `{!RouteLaws ReplyRoute (WorkQueueOutcome T) RSends}.

Abbreviation acted := (Acted Never Never (WorkQueueSends WSends RSends) Never).

(** The assignments one step sends: worker and value. *)
Definition assigned (o : acted) : list (WorkerRoute * T) := addressed (assignments (ok_sends o)).

(** Values returned to their submitter. *)
Definition returned (o : acted) : list T :=
  messages_of (outcomes (ok_sends o)) ≫=
    (fun m => match m with Rejected v _ => [v] | _ => [] end).

Definition submitted (e : queue_event) : list T :=
  match message e with Submit v _ => [v] | _ => [] end.
Definition announced (e : queue_event) : list WorkerRoute :=
  match message e with Available w => [w] | _ => [] end.

(** The submitted value, when the step did not return it. *)
Definition admitted (e : queue_event) (o : acted) : list T :=
  match returned o with [] => submitted e | _ => [] end.

Lemma work_queue_step_fifo cap s e : wf cap s ->
  (snd <$> assigned (snd (transition s e))) ++ (value <$> waiting (fst (transition s e))) =
    (value <$> waiting s) ++ admitted e (snd (transition s e)) /\
  returned (snd (transition s e)) ++ admitted e (snd (transition s e)) = submitted e.
Proof.
  intros [_ _ _ Hm].
  unfold transition, submit, announce, withdraw, admitted, returned, assigned, submitted.
  destruct (message e) as [v r|w|w]; simpl.
  - destruct (available s) as [|w rest] eqn:Ha; simpl.
    + destruct (Nat.eqb_spec (length (waiting s)) (capacity s)); simpl;
        autorewrite with bombay; csimpl; rewrite ?fmap_app; auto using app_nil_r.
    + autorewrite with bombay; csimpl. destruct Hm as [|Hw]; [discriminate|]. by rewrite Hw.
  - destruct (waiting s) as [|x rest] eqn:Hw; simpl; autorewrite with bombay; csimpl.
    + case_bool_decide; simpl; by rewrite ?Hw.
    + by rewrite app_nil_r.
  - autorewrite with bombay; csimpl. split_match; simpl; by rewrite app_nil_r.
Qed.

Lemma work_queue_step_capability s e :
  (fst <$> assigned (snd (transition s e))) ++ available (fst (transition s e)) ⊆+
    available s ++ announced e.
Proof.
  unfold transition, submit, announce, withdraw, assigned, announced.
  destruct (message e) as [v r|w|w]; simpl; rewrite ?app_nil_r.
  - destruct (available s) as [|w rest] eqn:Ha; simpl; autorewrite with bombay; csimpl;
      [|done]. by destruct (_ =? _); simpl; rewrite ?Ha; autorewrite with bombay.
  - destruct (waiting s) as [|x rest] eqn:Hw; simpl; autorewrite with bombay; csimpl.
    + case_bool_decide; simpl; [by apply submseteq_inserts_r|done].
    + rewrite Permutation_app_comm. done.
  - autorewrite with bombay; csimpl. split_match; simpl; [|done].
    apply sublist_submseteq, sublist_delete.
Qed.

(** C32. On every run from an empty queue: waiting work never exceeds the
    capacity and never waits while a worker is available; the values assigned
    to workers, followed by the values still waiting, are exactly the admitted
    values in submission order; every submitted value was admitted or returned
    to its submitter; and each announcement of a worker is good for at most one
    assignment (assigned and still available workers are within the multiset of
    announcements). *)
Theorem work_queue_fifo_dispatch cap es :
  let '(s', os) := trace transition (new cap) es in
  length (waiting s') <= cap /\ NoDup (available s') /\
  (available s' = [] \/ waiting s' = []) /\
  collect (fun _ o => snd <$> assigned o) es os ++ (value <$> waiting s') =
    collect admitted es os /\
  Forall2 (fun e o => returned o ++ admitted e o = submitted e) es os /\
  collect (fun _ o => fst <$> assigned o) es os ++ available s' ⊆+
    collect (fun e _ => announced e) es os.
Proof.
  assert (Hwf : wf cap (new cap)) by (split; simpl; auto using NoDup_nil_2; lia).
  pose proof (trace_invariant (wf cap) transition (work_queue_wf_step cap) es _ Hwf) as [_ Hb Hu Hm].
  pose proof (trace_queue_law (wf cap) transition (fun s => value <$> waiting s)
    (fun _ o => snd <$> assigned o) admitted (work_queue_wf_step cap)
    (fun s e H => proj1 (work_queue_step_fifo cap s e H)) es _ Hwf) as Hq.
  pose proof (trace_Forall2 (wf cap) transition
    (fun e o => returned o ++ admitted e o = submitted e) (work_queue_wf_step cap)
    (fun s e H => proj2 (work_queue_step_fifo cap s e H)) es _ Hwf) as Hr.
  pose proof (trace_submseteq_law transition available (fun _ o => fst <$> assigned o)
    (fun e _ => announced e) work_queue_step_capability es (new cap)) as Hc.
  destruct (trace transition (new cap) es) as [s' os]. cbn [fst snd] in *. auto 10.
Qed.

End WorkQueue.
