(* ===== verification/RateLimiter.v ===== *)
(** * The rate limiter ([crates/actors/src/routing/rate_limiter.rs])

    A token bucket: token quantities are [u64] values in [N]; [TokenCount]
    carries the bounds of the source's [NonZeroU64]. *)

From stdpp Require Import base list option numbers.
From S2P Require Import Prelude Effects.

(** ** Data *)

(** [TokenCount(NonZeroU64)]: a positive [u64]. *)
Record TokenCount := mkTokenCount {
  get : N;
  get_bounds : ((0 <? get) && (get <=? u64_max))%N = true
}.

Inductive RateLimitRejection : Type := ExceedsCapacity | InsufficientTokens.

Inductive RateLimiterOutcome (T : Type) : Type :=
| AdmittedValue (remaining : N)
| Rejected (cost : TokenCount) (value : T) (reason : RateLimitRejection).
Arguments AdmittedValue {T} _.
Arguments Rejected {T} _ _ _.

Inductive RateLimiterMessage (T TargetRoute ReplyRoute : Type) : Type :=
| Acquire (cost : TokenCount) (value : T) (to : TargetRoute) (reply_to : ReplyRoute)
| Refill (tokens : TokenCount).
Arguments Acquire {T TargetRoute ReplyRoute} _ _ _ _.
Arguments Refill {T TargetRoute ReplyRoute} _.

Inductive RateLimiterConfigError : Type :=
| InitialExceedsCapacity (capacity : TokenCount) (initial : N).

Record RateLimiter := mkRateLimiter { capacity : TokenCount; available : N }.

(** [RateLimiter::new]. *)
Definition new (cap : TokenCount) (initial : N) : result RateLimiter RateLimiterConfigError :=
  if (get cap <? initial)%N then Err (InitialExceedsCapacity cap initial)
  else Ok (mkRateLimiter cap initial).

Section RateLimiter.
  Context {A T TargetRoute ReplyRoute TSends RSends : Type}.
  Context `{!SendEffects TSends, !SendEffects RSends}.
  Context `{!DeliveryRoute TargetRoute T TSends}.
  Context `{!DeliveryRoute ReplyRoute (RateLimiterOutcome T) RSends}.

Abbreviation rate_actions := (Actions Never Never (DeliveryOutcomes TSends RSends)).
Abbreviation acted := (Acted Never Never (DeliveryOutcomes TSends RSends) Never).
Abbreviation event := (User A (RateLimiterMessage T TargetRoute ReplyRoute)).

(** [RateLimiter::result]. *)
Definition outcome_of (d : TSends) (reply : ReplyRoute) (o : RateLimiterOutcome T) : rate_actions :=
  send (mkDeliveryOutcomes d (deliver reply o)).

Definition acquire (s : RateLimiter) (cost : TokenCount) (v : T) (to : TargetRoute)
  (reply : ReplyRoute) : RateLimiter * rate_actions :=
  let required := get cost in
  if (get (capacity s) <? required)%N then
    (s, outcome_of sends_empty reply (Rejected cost v ExceedsCapacity))
  else if (available s <? required)%N then
    (s, outcome_of sends_empty reply (Rejected cost v InsufficientTokens))
  else
    let left := (available s - required)%N in
    (mkRateLimiter (capacity s) left, outcome_of (deliver to v) reply (AdmittedValue left)).

Definition transition (s : RateLimiter) (e : event) : RateLimiter * acted :=
  match message e with
  | Acquire cost v to reply => let '(s', a) := acquire s cost v to reply in (s', Ok a)
  | Refill tokens =>
      (mkRateLimiter (capacity s)
         (N.min (saturating_add u64_max (available s) (get tokens)) (get (capacity s))),
       Ok cont)
  end.

(** ** Invariant: the bucket never overflows its capacity *)

Definition wf (cap : TokenCount) (s : RateLimiter) : Prop :=
  capacity s = cap /\ (available s <= get cap)%N.

Lemma rate_limiter_wf_step cap s e : wf cap s -> wf cap (fst (transition s e)).
Proof.
  intros [<- Hle]. unfold wf, transition, acquire.
  destruct (message e); [repeat split_match|]; simpl; split; auto; simpl; lia.
Qed.

Lemma rate_limiter_wf_new cap initial s : new cap initial = Ok s -> wf cap s.
Proof.
  unfold new. destruct (N.ltb_spec (get cap) initial); [discriminate|].
  intros [= <-]. split; simpl; auto.
Qed.

(** ** Token accounting *)

Context `{!RouteLaws TargetRoute T TSends}.
Context `{!RouteLaws ReplyRoute (RateLimiterOutcome T) RSends}.

(** The values one step delivered and returned. *)
Definition delivered_values (o : acted) : list T := messages_of (deliveries (ok_sends o)).
Definition returned_values (o : acted) : list T :=
  messages_of (outcomes (ok_sends o)) ≫=
    (fun m => match m with Rejected _ v _ => [v] | _ => [] end).
Definition requested_values (e : event) : list T :=
  match message e with Acquire _ v _ _ => [v] | Refill _ => [] end.

(** The tokens one step spent: the cost of the request when its value was delivered. *)
Definition spent (e : event) (o : acted) : N :=
  match message e, delivered_values o with
  | Acquire cost _ _ _, _ :: _ => get cost
  | _, _ => 0
  end.

Definition refilled (e : event) : N :=
  match message e with Refill tokens => get tokens | _ => 0 end.

Fixpoint spent_run (es : list event) (os : list acted) : N :=
  match es, os with e :: es, o :: os => spent e o + spent_run es os | _, _ => 0 end%N.

Fixpoint refilled_run (es : list event) : N :=
  match es with e :: es => refilled e + refilled_run es | [] => 0 end%N.

Lemma transition_tokens s e :
  (spent e (snd (transition s e)) + available (fst (transition s e)) <=
     available s + refilled e)%N.
Proof.
  unfold transition, acquire, spent, refilled, delivered_values.
  destruct (message e) as [cost v to reply|tokens]; simpl.
  - destruct (N.ltb_spec (get (capacity s)) (get cost)); simpl; autorewrite with bombay; simpl; [lia|].
    destruct (N.ltb_spec (available s) (get cost)); simpl; autorewrite with bombay; simpl; lia.
  - unfold saturating_add. lia.
Qed.

Lemma trace_tokens es : forall s,
  (spent_run es (snd (trace transition s es)) + available (fst (trace transition s es)) <=
     available s + refilled_run es)%N.
Proof.
  induction es as [|e es IH]; intros s; simpl; [lia|].
  pose proof (transition_tokens s e) as Ht. destruct (transition s e) as [s1 o]. simpl in *.
  specialize (IH s1). destruct (trace transition s1 es). simpl in *. lia.
Qed.

(** Every requested value is delivered or returned, never both or neither; it is
    delivered exactly when the bucket holds its cost. *)
Lemma transition_decides cap s e : wf cap s ->
  delivered_values (snd (transition s e)) ++ returned_values (snd (transition s e)) =
    requested_values e /\
  (forall cost v to reply, message e = Acquire cost v to reply ->
     delivered_values (snd (transition s e)) = [v] <-> (get cost <= available s)%N).
Proof.
  intros [Hc Hle].
  unfold transition, acquire, delivered_values, returned_values, requested_values.
  destruct (message e) as [cost v to reply|tokens]; simpl.
  - destruct (N.ltb_spec (get (capacity s)) (get cost)); simpl; autorewrite with bombay; csimpl;
      [|destruct (N.ltb_spec (available s) (get cost)); simpl; autorewrite with bombay; csimpl];
      (split; [done|]); intros c' v' t' r' [= <- <- _ _];
      (split; [try discriminate|]); try lia; auto.
    subst; lia.
  - autorewrite with bombay; csimpl. split; [done|]. discriminate.
Qed.

(** Burst bound of the token bucket: after any run [es1] from a valid
    configuration, the bucket is within its capacity, and during any further
    run [es2] the cost of the delivered requests is at most the capacity plus
    the refills of [es2] (and, from the start, at most the initial tokens plus
    all refills); every requested value is delivered or returned, exactly one
    of the two, and the next request is delivered exactly when the bucket holds
    its cost. *)
Theorem rate_limiter_burst_bound cap initial s0 es1 es2 :
  new cap initial = Ok s0 ->
  let '(s1, os1) := trace transition s0 es1 in
  let '(s2, os2) := trace transition s1 es2 in
  (available s2 <= get cap <= u64_max)%N /\
  (spent_run es1 os1 + available s1 <= initial + refilled_run es1)%N /\
  (spent_run es2 os2 <= get cap + refilled_run es2)%N /\
  Forall2 (fun e o => delivered_values o ++ returned_values o = requested_values e)
    (es1 ++ es2) (os1 ++ os2) /\
  (forall a cost v to reply,
     delivered_values (snd (transition s2 (mkUser a (Acquire cost v to reply)))) = [v] <->
     (get cost <= available s2)%N).
Proof.
  intros Hnew. pose proof (rate_limiter_wf_new _ _ _ Hnew) as Hwf.
  pose proof (trace_invariant (wf cap) transition (rate_limiter_wf_step cap) es1 _ Hwf) as Hwf1.
  pose proof (trace_tokens es1 s0) as Ht1.
  pose proof (trace_Forall2 (wf cap) transition
    (fun e o => delivered_values o ++ returned_values o = requested_values e)
    (rate_limiter_wf_step cap) (fun s e H => proj1 (transition_decides cap s e H))) as Hdec.
  pose proof (Hdec es1 _ Hwf) as Hf1.
  destruct (trace transition s0 es1) as [s1 os1]. cbn [fst snd] in *.
  pose proof (trace_invariant (wf cap) transition (rate_limiter_wf_step cap) es2 _ Hwf1) as Hwf2.
  pose proof (trace_tokens es2 s1) as Ht2. pose proof (Hdec es2 _ Hwf1) as Hf2.
  destruct (trace transition s1 es2) as [s2 os2]. cbn [fst snd] in *.
  assert (available s0 = initial).
  { revert Hnew. unfold new. destruct (get cap <? initial)%N; [discriminate|]. by intros [= <-]. }
  pose proof (fun e => proj2 (transition_decides cap s2 e Hwf2)) as Hnext.
  destruct Hwf1 as [_ Hle1], Hwf2 as [_ Hle2].
  pose proof (get_bounds cap) as [_ Hb]%andb_prop. apply N.leb_le in Hb.
  split; [lia|]. split; [lia|]. split; [lia|]. split; [by apply Forall2_app|].
  intros a cost v to reply. by eapply (Hnext (mkUser a _)).
Qed.

End RateLimiter.

(** A bucket of three tokens, one of them spent at the start. *)
Definition three : TokenCount := mkTokenCount 3 eq_refl.
Definition two : TokenCount := mkTokenCount 2 eq_refl.

Definition demo_transition :=
  transition (A := nat) (T := nat) (TargetRoute := Recipient nat) (ReplyRoute := Recipient nat)
    (TSends := list (Delivery nat nat)) (RSends := list (Delivery nat (RateLimiterOutcome nat))).

Definition demo_requests :
  list (User nat (RateLimiterMessage nat (Recipient nat) (Recipient nat))) :=
  [mkUser 9 (Acquire two 41 (mkRecipient 7) (mkRecipient 8));
   mkUser 9 (Acquire two 42 (mkRecipient 7) (mkRecipient 8)); mkUser 9 (Refill two)].

Lemma rate_limiter_burst_bound_witness :
  new three 2 = Ok (mkRateLimiter three 2) /\
  let '(s1, os1) := trace demo_transition (mkRateLimiter three 2) demo_requests in
  let '(s2, os2) := trace demo_transition s1 demo_requests in
  (available s2 <= get three <= u64_max)%N /\
  (spent_run demo_requests os1 + available s1 <= 2 + refilled_run demo_requests)%N /\
  (spent_run demo_requests os2 <= get three + refilled_run demo_requests)%N /\
  Forall2 (fun e o => delivered_values o ++ returned_values o = requested_values e)
    (demo_requests ++ demo_requests) (os1 ++ os2) /\
  (forall a cost v to reply,
     delivered_values (snd (demo_transition s2 (mkUser a (Acquire cost v to reply)))) = [v] <->
     (get cost <= available s2)%N).
Proof.
  split; [reflexivity|].
  exact (rate_limiter_burst_bound (A := nat) (TargetRoute := Recipient nat)
    (ReplyRoute := Recipient nat) three 2 (mkRateLimiter three 2) demo_requests demo_requests
    eq_refl).
Defined.
