(* ===== verification/Deduplicator.v ===== *)
(** * The deduplicator ([crates/actors/src/routing/deduplicator.rs])

    First-seen delivery over a bounded FIFO of retained keys.  The retained
    window is shown to be exactly the last [capacity] delivered keys. *)

From stdpp Require Import base list option numbers.
From S2P Require Import Prelude Effects.

(** ** Data *)

Inductive DeduplicatorOutcome (K T : Type) : Type :=
| Delivered (key : K) (evicted : option K)
| Duplicate (key : K) (value : T).
Arguments Delivered {K T} _ _.
Arguments Duplicate {K T} _ _.

Inductive DeduplicatorMessage (K T TargetRoute ReplyRoute : Type) : Type :=
| Deliver (key : K) (value : T) (to : TargetRoute) (reply_to : ReplyRoute).
Arguments Deliver {K T TargetRoute ReplyRoute} _ _ _ _.

Inductive DeduplicatorConfigError : Type := ZeroCapacity.

Record Deduplicator (K : Type) := mkDeduplicator { capacity : nat; retained : list K }.
Arguments mkDeduplicator {K} _ _.
Arguments capacity {K} _.
Arguments retained {K} _.

(** [Deduplicator::new]. *)
Definition new {K} (cap : nat) : result (Deduplicator K) DeduplicatorConfigError :=
  if cap =? 0 then Err ZeroCapacity else Ok (mkDeduplicator cap []).

Section Deduplicator.
  Context {A K T TargetRoute ReplyRoute TSends RSends : Type}.
  Context `{!EqDecision K, !SendEffects TSends, !SendEffects RSends}.
  Context `{!DeliveryRoute TargetRoute T TSends}.
  Context `{!DeliveryRoute ReplyRoute (DeduplicatorOutcome K T) RSends}.

Abbreviation acted := (Acted Never Never (DeliveryOutcomes TSends RSends) Never).
Abbreviation event := (User A (DeduplicatorMessage K T TargetRoute ReplyRoute)).

(** [VecDeque::pop_front] when the retention is full. *)
Definition evict (s : Deduplicator K) : list K * option K :=
  if length (retained s) =? capacity s then
    match retained s with [] => ([], None) | k :: rest => (rest, Some k) end
  else (retained s, None).

Definition transition (s : Deduplicator K) (e : event) : Deduplicator K * acted :=
  let '(Deliver key v to reply) := message e in
  if bool_decide (key ∈ retained s) then
    (s, Ok (send (mkDeliveryOutcomes sends_empty (deliver reply (Duplicate key v)))))
  else
    let '(kept, evicted) := evict s in
    (mkDeduplicator (capacity s) (kept ++ [key]),
     Ok (send (mkDeliveryOutcomes (deliver to v) (deliver reply (Delivered key evicted))))).

(** ** The retained window *)

Context `{!RouteLaws TargetRoute T TSends}.
Context `{!RouteLaws ReplyRoute (DeduplicatorOutcome K T) RSends}.

(** The key a step delivered, read off its delivery lane. *)
Definition delivered_key (e : event) (o : acted) : list K :=
  let '(Deliver key _ _ _) := message e in
  match messages_of (deliveries (ok_sends o)) with [] => [] | _ => [key] end.

(** The keys a step retained and the ones it evicted. *)
Definition evicted_key (e : event) (o : acted) : list K :=
  messages_of (outcomes (ok_sends o)) ≫=
    (fun m => match m with Delivered _ (Some k) => [k] | _ => [] end).

(** The value of a step went to its target, or came back to its offerer. *)
Definition settled (e : event) (o : acted) : Prop :=
  let '(Deliver key v to reply) := message e in
  (addressed (deliveries (ok_sends o)) = [(to, v)] /\
   exists ev, addressed (outcomes (ok_sends o)) = [(reply, Delivered key ev)]) \/
  (addressed (deliveries (ok_sends o)) = [] /\
   addressed (outcomes (ok_sends o)) = [(reply, Duplicate key v)]).

Record wf (cap : nat) (s : Deduplicator K) : Prop := {
  wf_capacity : capacity s = cap;
  wf_positive : 0 < cap;
  wf_bounded : length (retained s) <= cap;
  wf_unique : NoDup (retained s)
}.

Lemma evict_spec cap s : wf cap s ->
  let '(kept, evicted) := evict s in
  option_list evicted ++ kept = retained s /\ length kept < cap.
Proof.
  intros [Hc Hp Hb _]. unfold evict. destruct (Nat.eqb_spec (length (retained s)) (capacity s)).
  - destruct (retained s); simpl in *; [lia|]. split; [done|lia].
  - split; [done|lia].
Qed.

Lemma deduplicator_wf_step cap s e : wf cap s -> wf cap (fst (transition s e)).
Proof.
  intros Hwf. pose proof (evict_spec cap s Hwf) as Hev. unfold transition.
  destruct (message e) as [key v to reply]. case_bool_decide as Hk; [done|].
  destruct (evict s) as [kept ev]. destruct Hev as [Hq Hl], Hwf as [Hc Hp Hb Hu]. simpl.
  split; simpl; auto; [rewrite length_app; simpl; lia|].
  rewrite <- Hq in Hu, Hk. apply list.NoDup_app in Hu as (_ & _ & Hu).
  apply NoDup_snoc; [done|]. intros Hx. apply Hk, elem_of_app; auto.
Qed.

Lemma transition_window cap s e : wf cap s ->
  evicted_key e (snd (transition s e)) ++ retained (fst (transition s e)) =
    retained s ++ delivered_key e (snd (transition s e)).
Proof.
  intros Hwf. pose proof (evict_spec cap s Hwf) as Hev.
  unfold transition, evicted_key, delivered_key.
  destruct (message e) as [key v to reply]. case_bool_decide as Hk; simpl.
  { autorewrite with bombay; csimpl. by rewrite app_nil_r. }
  destruct (evict s) as [kept ev]. destruct Hev as [Hq _]. simpl.
  autorewrite with bombay; csimpl. rewrite <- Hq, <- !app_assoc. by destruct ev.
Qed.

(** The retained keys are the longest suffix that fits. *)
Definition window (cap : nat) (d : list K) : list K := drop (length d - cap) d.

Lemma transition_suffix cap s e d : wf cap s -> retained s = window cap d ->
  retained (fst (transition s e)) = window cap (d ++ delivered_key e (snd (transition s e))) /\
  (delivered_key e (snd (transition s e)) = [] \/
   exists k, delivered_key e (snd (transition s e)) = [k] /\ k ∉ window cap d).
Proof.
  intros Hwf Hd. pose proof (evict_spec cap s Hwf) as Hev. unfold transition, delivered_key, evict in *.
  destruct (message e) as [key v to reply]. case_bool_decide as Hk; simpl.
  { autorewrite with bombay; csimpl. rewrite app_nil_r. auto. }
  assert (Hlen : length (retained s) = Nat.min cap (length d)).
  { rewrite Hd. unfold window. rewrite length_drop. lia. }
  destruct Hwf as [Hc Hp _ _]. rewrite <- Hd.
  destruct (Nat.eqb_spec (length (retained s)) (capacity s)) as [Hf|Hf];
    [destruct (retained s) as [|k0 rest] eqn:Hr; [simpl in *; lia|]|];
    simpl; autorewrite with bombay; csimpl; (split; [|eauto]).
  - unfold window in *. rewrite length_app; simpl.
    replace (length d + 1 - cap) with (S (length d - cap)) by (simpl in *; lia).
    rewrite drop_app_le by (simpl in *; lia). f_equal.
    rewrite <- Nat.add_1_l, Nat.add_comm, <- drop_drop, <- Hd. done.
  - rewrite Hd. unfold window. rewrite length_app; simpl.
    replace (length d + 1 - cap) with 0 by lia. replace (length d - cap) with 0 by lia. done.
Qed.

(** A list in which no element repeats within distance [cap]. *)
Definition spaced (cap : nat) (d : list K) : Prop :=
  forall i j k, d !! i = Some k -> d !! j = Some k -> i < j -> i + cap < j.

Lemma spaced_snoc cap d k : spaced cap d -> k ∉ window cap d -> spaced cap (d ++ [k]).
Proof.
  intros Hs Hk i j x Hi Hj Hij.
  destruct (decide (j < length d)) as [Hlt|Hge].
  { rewrite lookup_app_l in Hi, Hj by lia. eauto. }
  pose proof (lookup_lt_Some _ _ _ Hj) as Hjl. rewrite length_app in Hjl; simpl in Hjl.
  assert (j = length d) as -> by lia.
  rewrite list_lookup_middle in Hj by done. injection Hj as <-.
  rewrite lookup_app_l in Hi by lia.
  destruct (decide (i + cap < length d)) as [|Hclose]; [done|exfalso].
  apply Hk. unfold window. apply list_elem_of_lookup. exists (i - (length d - cap)).
  rewrite lookup_drop. rewrite <- Hi. f_equal. lia.
Qed.

Lemma trace_window cap es : forall s d,
  wf cap s -> retained s = window cap d -> spaced cap d ->
  let '(s', os) := trace transition s es in
  retained s' = window cap (d ++ collect delivered_key es os) /\
  spaced cap (d ++ collect delivered_key es os).
Proof.
  induction es as [|e es IH]; intros s d Hwf Hr Hs; simpl.
  { by rewrite app_nil_r. }
  destruct (transition_suffix cap s e d Hwf Hr) as [Hr1 Hk].
  pose proof (deduplicator_wf_step cap s e Hwf) as Hwf1.
  destruct (transition s e) as [s1 o]. simpl in *.
  specialize (IH s1 (d ++ delivered_key e o) Hwf1 Hr1).
  destruct (trace transition s1 es) as [s2 os]. rewrite <- app_assoc in IH. apply IH.
  destruct Hk as [->|(k & -> & Hk)]; [by rewrite app_nil_r|by apply spaced_snoc].
Qed.

Lemma delivered_iff s a key v to reply :
  delivered_key (mkUser a (Deliver key v to reply))
    (snd (transition s (mkUser a (Deliver key v to reply)))) = [key] <-> key ∉ retained s.
Proof.
  unfold delivered_key, transition; simpl. case_bool_decide; simpl; [|destruct (evict s); simpl];
    by autorewrite with bombay.
Qed.

Lemma transition_settled s e : settled e (snd (transition s e)).
Proof.
  unfold settled, transition. destruct (message e) as [key v to reply].
  case_bool_decide; simpl; autorewrite with bombay; [by right|].
  destruct (evict s); simpl. autorewrite with bombay. eauto.
Qed.

(** On every run from a configured deduplicator, the retained keys are
    exactly the last [capacity] delivered keys, the keys reported as evicted
    are the delivered ones before them, in order; a key is never delivered again
    before [capacity] other keys were delivered after it, every offered value is
    either delivered to its target or returned, whole, to its offerer, and the
    next value is delivered exactly when its key is not retained. *)
Theorem deduplicator_window cap s0 es :
  new cap = Ok s0 ->
  let '(s', os) := trace transition s0 es in
  let d := collect delivered_key es os in
  retained s' = drop (length d - cap) d /\ NoDup (retained s') /\
  collect evicted_key es os ++ retained s' = d /\
  (forall i j k, d !! i = Some k -> d !! j = Some k -> i < j -> i + cap < j) /\
  Forall2 settled es os /\
  (forall a key v to reply,
     delivered_key (mkUser a (Deliver key v to reply))
       (snd (transition s' (mkUser a (Deliver key v to reply)))) = [key] <->
     key ∉ retained s').
Proof.
  intros Hnew.
  assert (wf cap s0 /\ retained s0 = []) as [Hwf Hr].
  { revert Hnew. unfold new. destruct (Nat.eqb_spec cap 0); [discriminate|]. intros [= <-].
    split; [split; simpl; auto using NoDup_nil_2; lia|done]. }
  pose proof (trace_window cap es s0 [] Hwf) as Hw.
  pose proof (trace_invariant (wf cap) transition (deduplicator_wf_step cap) es _ Hwf) as [_ _ _ Hu].
  pose proof (trace_Forall2 (fun _ => True) transition settled (fun _ _ _ => I)
    (fun s e _ => transition_settled s e) es s0 I) as Hset.
  pose proof (trace_queue_law (wf cap) transition retained evicted_key delivered_key
    (deduplicator_wf_step cap) (transition_window cap) es s0 Hwf) as Hq.
  destruct (trace transition s0 es) as [s' os]. simpl in *.
  destruct Hw as [Hw Hsp]; [by rewrite Hr|done|].
  rewrite Hr in Hq. split_and!; auto. intros. apply delivered_iff.
Qed.

End Deduplicator.

(** A window of two keys: the third delivery evicts the first key, which is then new again. *)
Definition demo_transition :=
  transition (A := nat) (K := nat) (T := nat) (TargetRoute := Recipient nat)
    (ReplyRoute := Recipient nat) (TSends := list (Delivery nat nat))
    (RSends := list (Delivery nat (DeduplicatorOutcome nat nat))).

Definition demo_offers :
  list (User nat (DeduplicatorMessage nat nat (Recipient nat) (Recipient nat))) :=
  (fun k => mkUser 9 (Deliver k (10 * k) (mkRecipient 7) (mkRecipient 8))) <$> [1; 1; 2; 3; 1].

Lemma deduplicator_window_witness :
  new 2 = Ok (mkDeduplicator (K := nat) 2 []) /\
  let '(s', os) := trace demo_transition (mkDeduplicator 2 []) demo_offers in
  let d := collect delivered_key demo_offers os in
  d = [1; 2; 3; 1] /\ collect evicted_key demo_offers os ++ retained s' = d.
Proof.
  split; [reflexivity|].
  pose proof (deduplicator_window (A := nat) (TargetRoute := Recipient nat)
    (ReplyRoute := Recipient nat) (TSends := list (Delivery nat nat))
    (RSends := list (Delivery nat (DeduplicatorOutcome nat nat))) (T := nat)
    2 (mkDeduplicator (K := nat) 2 []) demo_offers eq_refl) as H.
  change (transition (A := nat) (K := nat)) with demo_transition in H.
  destruct (trace demo_transition (mkDeduplicator 2 []) demo_offers) as [s' os] eqn:Ht.
  split; [|exact (proj1 (proj2 (proj2 H)))].
  vm_compute in Ht. injection Ht as <- <-. reflexivity.
Defined.
