(* ===== verification/Correlator.v ===== *)
(** * The correlator ([crates/actors/src/routing/correlator.rs])

    Keyed request/result lifecycles in a vector of states.  The vector is shown
    to implement one three-state automaton per key. *)

From stdpp Require Import base list option numbers.
From S2P Require Import Prelude Effects.

(** ** Data *)

Inductive CorrelationResult (K V : Type) : Type :=
| Resolved (key : K) (value : V)
| CancelledResult (key : K).
Arguments Resolved {K V} _ _.
Arguments CancelledResult {K V} _.

Inductive CorrelationState (K Route : Type) : Type :=
| Pending (key : K) (reply_to : Route)
| Completed (key : K)
| Cancelled (key : K).
Arguments Pending {K Route} _ _.
Arguments Completed {K Route} _.
Arguments Cancelled {K Route} _.

Definition key {K Route} (s : CorrelationState K Route) : K :=
  match s with Pending k _ | Completed k | Cancelled k => k end.

Inductive CorrelatorMessage (K V Route : Type) : Type :=
| Begin (k : K) (reply_to : Route)
| Resolve (k : K) (value : V)
| Cancel (k : K).
Arguments Begin {K V Route} _ _.
Arguments Resolve {K V Route} _ _.
Arguments Cancel {K V Route} _.

Inductive CorrelatorError (K V Route : Type) : Type :=
| AlreadyPending (k : K) (reply_to : Route)
| ReopenCompleted (k : K) (reply_to : Route)
| ReopenCancelled (k : K) (reply_to : Route)
| AlreadyCompleted (k : K)
| AlreadyCancelled (k : K)
| Unknown (k : K)
| UnknownReply (k : K) (value : V)
| StaleCompleted (k : K) (value : V)
| StaleCancelled (k : K) (value : V).
Arguments AlreadyPending {K V Route} _ _.
Arguments ReopenCompleted {K V Route} _ _.
Arguments ReopenCancelled {K V Route} _ _.
Arguments AlreadyCompleted {K V Route} _.
Arguments AlreadyCancelled {K V Route} _.
Arguments Unknown {K V Route} _.
Arguments UnknownReply {K V Route} _ _.
Arguments StaleCompleted {K V Route} _ _.
Arguments StaleCancelled {K V Route} _ _.

Section Correlator.
  Context {A K V Route Sends : Type} `{!EqDecision K, !SendEffects Sends}.
  Context `{!DeliveryRoute Route (CorrelationResult K V) Sends}.

Abbreviation acted := (Acted Never Never Sends (CorrelatorError K V Route)).
Abbreviation state := (CorrelationState K Route).
Abbreviation event := (User A (CorrelatorMessage K V Route)).

Definition new : list state := [].

(** [state.key() == &key]. *)
Definition has_key (k : K) (st : state) : bool := bool_decide (key st = k).

(** [Behavior::transition] over the vector of states.  [None] of the indexing
    [states\[index\]] cannot occur for a found position and is kept explicit. *)
Definition transition (states : list state) (e : event) : option (list state * acted) :=
  match message e with
  | Begin k reply =>
      match List.find (has_key k) states with
      | Some existing =>
          Some (states, Err match existing with
                            | Pending _ _ => AlreadyPending k reply
                            | Completed _ => ReopenCompleted k reply
                            | Cancelled _ => ReopenCancelled k reply
                            end)
      | None => Some (states ++ [Pending k reply], Ok cont)
      end
  | Resolve k v =>
      match position (has_key k) states with
      | None => Some (states, Err (UnknownReply k v))
      | Some index =>
          match states !! index with
          | None => None
          | Some (Pending _ reply) =>
              Some (<[index := Completed k]> states, Ok (send (deliver reply (Resolved k v))))
          | Some (Completed _) => Some (states, Err (StaleCompleted k v))
          | Some (Cancelled _) => Some (states, Err (StaleCancelled k v))
          end
      end
  | Cancel k =>
      match position (has_key k) states with
      | None => Some (states, Err (Unknown k))
      | Some index =>
          match states !! index with
          | None => None
          | Some (Pending _ reply) =>
              Some (<[index := Cancelled k]> states,
                    Ok (send (deliver reply (CancelledResult k))))
          | Some (Completed _) => Some (states, Err (AlreadyCompleted k))
          | Some (Cancelled _) => Some (states, Err (AlreadyCancelled k))
          end
      end
  end.

(** ** Specification: one lifecycle automaton per key *)

Inductive lifecycle : Type :=
| Absent
| Waiting (reply_to : Route)
| Done
| Withdrawn.

Definition lifecycle_of (states : list state) (k : K) : lifecycle :=
  match List.find (has_key k) states with
  | None => Absent
  | Some (Pending _ r) => Waiting r
  | Some (Completed _) => Done
  | Some (Cancelled _) => Withdrawn
  end.

Definition message_key (m : CorrelatorMessage K V Route) : K :=
  match m with Begin k _ | Resolve k _ | Cancel k => k end.

(** The automaton: next lifecycle, and the addressed result or the rejection. *)
Definition spec_step (l : lifecycle) (m : CorrelatorMessage K V Route) :
  lifecycle * result (list (Route * CorrelationResult K V)) (CorrelatorError K V Route) :=
  match m, l with
  | Begin k r, Absent => (Waiting r, Ok [])
  | Begin k r, Waiting _ => (l, Err (AlreadyPending k r))
  | Begin k r, Done => (l, Err (ReopenCompleted k r))
  | Begin k r, Withdrawn => (l, Err (ReopenCancelled k r))
  | Resolve k v, Absent => (l, Err (UnknownReply k v))
  | Resolve k v, Waiting r => (Done, Ok [(r, Resolved k v)])
  | Resolve k v, Done => (l, Err (StaleCompleted k v))
  | Resolve k v, Withdrawn => (l, Err (StaleCancelled k v))
  | Cancel k, Absent => (l, Err (Unknown k))
  | Cancel k, Waiting r => (Withdrawn, Ok [(r, CancelledResult k)])
  | Cancel k, Done => (l, Err (AlreadyCompleted k))
  | Cancel k, Withdrawn => (l, Err (AlreadyCancelled k))
  end.

Context `{!RouteLaws Route (CorrelationResult K V) Sends}.

(** What a step shows its environment: addressed results, or the rejection. *)
Definition observed (o : acted) :
  result (list (Route * CorrelationResult K V)) (CorrelatorError K V Route) :=
  map_result (fun a => addressed (sends a)) o.

Lemma has_key_eq k (st : state) : key st = k -> has_key k st = true.
Proof. intros. by apply bool_decide_eq_true. Qed.

Lemma has_key_ne k (st : state) : key st <> k -> has_key k st = false.
Proof. intros. by apply bool_decide_eq_false. Qed.

(** Replacing the found state of [k] changes the lifecycle of [k] alone. *)
Lemma find_replaced k index old x (states : list state) :
  position (has_key k) states = Some index -> states !! index = Some old -> key x = k ->
  List.find (has_key k) (<[index := x]> states) = Some x /\
  forall k', k' <> k ->
    List.find (has_key k') (<[index := x]> states) = List.find (has_key k') states.
Proof.
  intros Hp Hold Hx. split.
  - apply find_insert_position; auto using has_key_eq.
  - intros k' Hk'. destruct (position_Some _ _ _ Hp) as (y & Hy & Hky & _).
    assert (y = old) as -> by congruence.
    apply (find_insert_other _ _ _ _ old); [done| |];
      apply bool_decide_eq_true in Hky; apply has_key_ne; congruence.
Qed.

(** The step of the vector is the step of the automaton of the message's key. *)
Lemma transition_refines states e :
  exists states' o, transition states e = Some (states', o) /\
    spec_step (lifecycle_of states (message_key (message e))) (message e) =
      (lifecycle_of states' (message_key (message e)), observed o) /\
    forall k, k <> message_key (message e) -> lifecycle_of states' k = lifecycle_of states k.
Proof.
  unfold transition, lifecycle_of, observed. destruct (message e) as [k r|k v|k]; simpl.
  1: { destruct (List.find (has_key k) states) as [st|] eqn:Hf;
         do 2 eexists; (split; [done|]).
       - rewrite Hf. by destruct st.
       - rewrite find_snoc, Hf, has_key_eq by done.
         split; [simpl; by rewrite addressed_empty|].
         intros k' Hk'. rewrite find_snoc, has_key_ne by (simpl; congruence).
         by destruct (List.find (has_key k') states). }
  all: rewrite find_position; destruct (position (has_key k) states) as [i|] eqn:Hp; simpl;
    [|do 2 eexists; (split; [done|]); by rewrite find_position, Hp].
  all: destruct (position_Some _ _ _ Hp) as (st & Hst & _); rewrite Hst; destruct st as [k0 r|k0|k0].
  all: do 2 eexists; (split; [done|]); try (by rewrite find_position, Hp; simpl; rewrite Hst).
  all: match goal with |- context [<[_ := ?x]> _] =>
    destruct (find_replaced k i _ x states Hp Hst eq_refl) as [-> Ho] end;
    split; [by simpl; rewrite addressed_deliver|]; intros k' Hk'; by rewrite Ho.
Qed.

(** ** Histories of one key *)

(** The recipient that an accepted [Begin] of [k] retained. *)
Definition begun (k : K) (e : event) (o : acted) : list Route :=
  match message e, o with
  | Begin k' r, Ok _ => if bool_decide (k' = k) then [r] else []
  | _, _ => []
  end.

(** The results of [k] that a step delivered, with their recipients. *)
Definition results (k : K) (e : event) (o : acted) : list (Route * CorrelationResult K V) :=
  match observed o with
  | Ok l =>
      filter (fun x => match snd x with Resolved k' _ | CancelledResult k' => k' end = k) l
  | Err _ => []
  end.

(** What the history of a key has been, given its lifecycle. *)
Definition history (k : K) (l : lifecycle) (bs : list Route)
  (rs : list (Route * CorrelationResult K V)) : Prop :=
  match l with
  | Absent => bs = [] /\ rs = []
  | Waiting r => bs = [r] /\ rs = []
  | Done => exists r v, bs = [r] /\ rs = [(r, Resolved k v)]
  | Withdrawn => exists r, bs = [r] /\ rs = [(r, CancelledResult k)]
  end.

Lemma history_step k states e states' o bs rs :
  transition states e = Some (states', o) -> history k (lifecycle_of states k) bs rs ->
  history k (lifecycle_of states' k) (bs ++ begun k e o) (rs ++ results k e o).
Proof.
  intros Ht Hh. destruct (transition_refines states e) as (s1 & o1 & Ht1 & Hspec & Hother).
  rewrite Ht in Ht1. injection Ht1 as <- <-.
  destruct (decide (k = message_key (message e))) as [->|Hk].
  - unfold begun, results. revert Hspec Hh. generalize (lifecycle_of states' (message_key (message e))).
    generalize (lifecycle_of states (message_key (message e))). unfold observed.
    intros l l' Hspec.
    destruct (message e) as [k r|k v|k], l as [|r0| |]; simpl in *; destruct o as [a|err];
      simpl in *; simplify_eq; simpl;
      repeat match goal with H : _ = addressed _ |- _ => rewrite <- H; clear H end;
      rewrite ?bool_decide_eq_true_2 by done; rewrite ?filter_cons, ?filter_nil; simpl;
      rewrite ?decide_True by done; rewrite ?app_nil_r; auto; naive_solver.
  - rewrite Hother by done.
    assert (begun k e o = [] /\ results k e o = []) as [-> ->]; [|by rewrite !app_nil_r].
    unfold begun, results. revert Hspec Hk.
    generalize (lifecycle_of states' (message_key (message e))).
    generalize (lifecycle_of states (message_key (message e))). unfold observed.
    intros l l' Hspec Hk.
    destruct (message e) as [k0 r|k0 v|k0], l as [|r0| |]; simpl in *; destruct o as [a|err];
      simpl in *; simplify_eq; simpl;
      repeat match goal with H : _ = addressed _ |- _ => rewrite <- H; clear H end;
      rewrite ?bool_decide_eq_false_2 by congruence; rewrite ?filter_cons, ?filter_nil; simpl;
      rewrite ?decide_False by congruence; auto.
Qed.

Lemma otrace_history k es : forall states bs rs,
  history k (lifecycle_of states k) bs rs ->
  exists states' os, otrace transition states es = Some (states', os) /\
    history k (lifecycle_of states' k) (bs ++ collect (begun k) es os)
      (rs ++ collect (results k) es os).
Proof.
  induction es as [|e es IH]; intros states bs rs Hh; simpl.
  { do 2 eexists; split; [done|]. by rewrite !app_nil_r. }
  destruct (transition_refines states e) as (s1 & o & Ht & _). rewrite Ht.
  destruct (IH s1 _ _ (history_step k _ _ _ _ _ _ Ht Hh)) as (s2 & os & -> & Hh2).
  do 2 eexists; split; [done|]. simpl. by rewrite !app_assoc.
Qed.

(** No run of the correlator panics, and at its end the lifecycle recorded
    for every key tells its whole history: an absent key was never begun and
    has no result; a pending key was begun exactly once and has no result; a
    completed (cancelled) key was begun exactly once and exactly one result was
    delivered for it, its resolution (cancellation), to the recipient of that
    one accepted begin. *)
Theorem correlator_exactly_one_terminal es k :
  exists states os, otrace transition new es = Some (states, os) /\
    history k (lifecycle_of states k) (collect (begun k) es os) (collect (results k) es os).
Proof. apply (otrace_history k es new [] []). by split. Qed.

(** The vector implements one automaton per key: a step never panics, moves
    the lifecycle of the message's key exactly as the automaton does, shows
    exactly the automaton's addressed result or its typed rejection (which
    carries the rejected key, recipient or value), and leaves the lifecycle of
    every other key unchanged. *)
Theorem correlator_refines_lifecycles states e :
  exists states' o, transition states e = Some (states', o) /\
    spec_step (lifecycle_of states (message_key (message e))) (message e) =
      (lifecycle_of states' (message_key (message e)), observed o) /\
    forall k, k <> message_key (message e) -> lifecycle_of states' k = lifecycle_of states k.
Proof. apply transition_refines. Qed.

End Correlator.
