(* ===== verification/OrderGate.v ===== *)
(** * The order gate ([crates/actors/src/routing/order_gate.rs])

    Values held by ordered key until an explicit watermark reaches them.  The
    [BTreeMap] of held values is the sorted map of [BTreeMap.v]. *)

From stdpp Require Import base list option numbers sorting.
From S2P Require Import Prelude Effects BTreeMap.

(** ** Data *)

Inductive OrderGateOutcome (K T : Type) : Type :=
| HeldOutcome (key : K) (held : nat)
| Delivered (key : K)
| Duplicate (key : K) (value : T)
| Opened (through : K) (released held : nat)
| StaleOpening (requested current : K).
Arguments HeldOutcome {K T} _ _.
Arguments Delivered {K T} _.
Arguments Duplicate {K T} _ _.
Arguments Opened {K T} _ _ _.
Arguments StaleOpening {K T} _ _.

Inductive OrderGateMessage (K T TargetRoute ReplyRoute : Type) : Type :=
| Hold (key : K) (value : T) (to : TargetRoute) (reply_to : ReplyRoute)
| OpenThrough (through : K) (reply_to : ReplyRoute).
Arguments Hold {K T TargetRoute ReplyRoute} _ _ _ _.
Arguments OpenThrough {K T TargetRoute ReplyRoute} _ _.

Record Held (T TargetRoute : Type) := mkHeld { value : T; to : TargetRoute }.
Arguments mkHeld {T TargetRoute} _ _.
Arguments value {T TargetRoute} _.
Arguments to {T TargetRoute} _.

Record OrderGate (K T TargetRoute : Type) := mkOrderGate {
  watermark : option K;
  held : BTreeMap K (Held T TargetRoute)
}.
Arguments mkOrderGate {K T TargetRoute} _ _.
Arguments watermark {K T TargetRoute} _.
Arguments held {K T TargetRoute} _.

Section OrderGate.
  Context {A K T TargetRoute ReplyRoute TSends RSends : Type}.
  Context `{!Ord K, !SendEffects TSends, !SendEffects RSends}.
  Context `{!DeliveryRoute TargetRoute T TSends}.
  Context `{!DeliveryRoute ReplyRoute (OrderGateOutcome K T) RSends}.

Abbreviation gate := (OrderGate K T TargetRoute).
Abbreviation gate_actions := (Actions Never Never (DeliveryOutcomes TSends RSends)).
Abbreviation acted := (Acted Never Never (DeliveryOutcomes TSends RSends) Never).
Abbreviation event := (User A (OrderGateMessage K T TargetRoute ReplyRoute)).

Definition new : gate := mkOrderGate None [].

(** [OrderGate::sends]. *)
Definition gate_sends (d : TSends) (reply : ReplyRoute) (o : OrderGateOutcome K T) : gate_actions :=
  send (mkDeliveryOutcomes d (deliver reply o)).

Definition hold (s : gate) (key : K) (v : T) (t : TargetRoute) (reply : ReplyRoute) :
  gate * gate_actions :=
  if match watermark s with Some w => leb key w | None => false end then
    (s, gate_sends (deliver t v) reply (Delivered key))
  else if bt_contains key (held s) then
    (s, gate_sends sends_empty reply (Duplicate key v))
  else
    let h := bt_insert key (mkHeld v t) (held s) in
    (mkOrderGate (watermark s) h, gate_sends sends_empty reply (HeldOutcome key (length h))).

(** The loop of [open] over the collected keys. *)
Fixpoint release_keys (keys : list K) (h : BTreeMap K (Held T TargetRoute)) (d : TSends) :
  BTreeMap K (Held T TargetRoute) * TSends :=
  match keys with
  | [] => (h, d)
  | key :: keys =>
      match bt_remove key h with
      | Some (x, h') => release_keys keys h' (sends_append d (deliver (to x) (value x)))
      | None => release_keys keys h d
      end
  end.

(** An opening at or below the current watermark. *)
Definition stale (s : gate) (through : K) : option K :=
  match watermark s with
  | Some current => if leb through current then Some current else None
  | None => None
  end.

Definition open (s : gate) (through : K) (reply : ReplyRoute) : gate * gate_actions :=
  match stale s through with
  | Some current => (s, gate_sends sends_empty reply (StaleOpening through current))
  | None =>
      let keys := fst <$> bt_range_to through (held s) in
      let released := length keys in
      let '(h, d) := release_keys keys (held s) sends_empty in
      (mkOrderGate (Some through) h,
       gate_sends d reply (Opened through released (length h)))
  end.

Definition transition (s : gate) (e : event) : gate * acted :=
  let '(s', a) :=
    match message e with
    | Hold key v t reply => hold s key v t reply
    | OpenThrough through reply => open s through reply
    end in
  (s', Ok a).

(** ** Invariant: held keys are sorted and above the watermark *)

Record wf (s : gate) : Prop := {
  wf_sorted : sorted (held s);
  wf_above : forall w, watermark s = Some w ->
    Forall (fun b => ltb w (fst b) = true) (held s)
}.

Context `{!RouteLaws TargetRoute T TSends}.
Context `{!RouteLaws ReplyRoute (OrderGateOutcome K T) RSends}.

(** The communication that releasing a held entry sends. *)
Definition communication (b : K * Held T TargetRoute) : TargetRoute * T :=
  (to (snd b), value (snd b)).

(** Removing the keys of a sorted prefix one by one drops the prefix and
    delivers it in order. *)
Lemma release_prefix prefix rest d :
  sorted (prefix ++ rest) ->
  let '(h, d') := release_keys (fst <$> prefix) (prefix ++ rest) d in
  h = rest /\ addressed d' = addressed d ++ (communication <$> prefix).
Proof.
  revert d. induction prefix as [|[k x] prefix IH]; intros d Hs; csimpl.
  { split; [done|]. by rewrite app_nil_r. }
  unfold bt_remove; simpl. rewrite !bool_decide_eq_true_2 by done.
  apply sorted_cons in Hs as [Hs _].
  specialize (IH (sends_append d (deliver (to x) (value x))) Hs).
  destruct (release_keys _ _ _) as [h d']. destruct IH as [-> ->]. split; [done|].
  by rewrite addressed_append, addressed_deliver, <- app_assoc.
Qed.

(** What one fresh opening does. *)
Lemma open_spec s through reply :
  wf s -> stale s through = None ->
  exists rest, held s = bt_range_to through (held s) ++ rest /\
    Forall (fun b => leb (fst b) through = true) (bt_range_to through (held s)) /\
    Forall (fun b => ltb through (fst b) = true) rest /\
    fst (open s through reply) = mkOrderGate (Some through) rest /\
    addressed (deliveries (sends (snd (open s through reply)))) =
      communication <$> bt_range_to through (held s) /\
    addressed (outcomes (sends (snd (open s through reply)))) =
      [(reply, Opened through (length (bt_range_to through (held s))) (length rest))].
Proof.
  intros [Hs _] Hst. destruct (bt_range_to_split through _ Hs) as (rest & Hh & Hle & Hgt).
  exists rest. unfold open. rewrite Hst.
  pose proof (release_prefix (bt_range_to through (held s)) rest sends_empty) as Hr.
  rewrite <- Hh in Hr. specialize (Hr Hs).
  destruct (release_keys _ _ _) as [h d]. destruct Hr as [-> Hd]. simpl.
  rewrite Hd, addressed_empty, addressed_deliver, length_fmap. auto 10.
Qed.

Lemma order_gate_wf_step s e : wf s -> wf (fst (transition s e)).
Proof.
  intros Hwf. unfold transition. destruct (message e) as [key v t reply|through reply].
  - unfold hold. destruct (match watermark s with Some w => leb key w | None => false end) eqn:Hw;
      [done|]. destruct (bt_contains key (held s)) eqn:Hc; [done|].
    apply bt_contains_false in Hc. destruct Hwf as [Hs Ha]. simpl. split; simpl.
    + by apply bt_insert_sorted.
    + intros w Hwm. rewrite bt_insert_Permutation by done. rewrite Hwm in Hw.
      constructor; [by apply leb_not|auto].
  - destruct (stale s through) eqn:Hst.
    { unfold open. by rewrite Hst. }
    destruct (open_spec s through reply Hwf Hst) as (rest & Hh & _ & Hgt & Ho & _).
    destruct (open s through reply) as [s' a]. simpl in *. rewrite Ho. split; simpl.
    + destruct Hwf as [Hs _]. rewrite Hh in Hs. exact (proj2 (sorted_app _ _ Hs)).
    + by intros w [= <-].
Qed.

(** ** Accounting of one step *)

(** The entries an event releases from the hold, in key order. *)
Definition released (s : gate) (e : event) : BTreeMap K (Held T TargetRoute) :=
  match message e with
  | OpenThrough through _ =>
      match stale s through with None => bt_range_to through (held s) | Some _ => [] end
  | Hold _ _ _ _ => []
  end.

(** Communications accepted by a step: held or delivered, not returned as a duplicate. *)
Definition accepted (e : event) (o : acted) : list (TargetRoute * T) :=
  match message e with
  | Hold _ v t _ =>
      match messages_of (outcomes (ok_sends o)) with [Duplicate _ _] => [] | _ => [(t, v)] end
  | OpenThrough _ _ => []
  end.

Definition returned (o : acted) : list T :=
  messages_of (outcomes (ok_sends o)) ≫=
    (fun m => match m with Duplicate _ v => [v] | _ => [] end).

Lemma transition_accounts s e : wf s ->
  addressed (deliveries (ok_sends (snd (transition s e)))) ++
      (communication <$> held (fst (transition s e))) ≡ₚ
    (communication <$> held s) ++ accepted e (snd (transition s e)) /\
  (match message e with Hold _ v _ _ => [v] | _ => [] end) =
    (snd <$> accepted e (snd (transition s e))) ++ returned (snd (transition s e)).
Proof.
  intros Hwf. unfold transition, accepted, returned.
  destruct (message e) as [key v t reply|through reply].
  - unfold hold. destruct (match watermark s with Some w => leb key w | None => false end) eqn:Hw;
      [|destruct (bt_contains key (held s)) eqn:Hc]; simpl; autorewrite with bombay; csimpl.
    + split; [apply Permutation_cons_append|done].
    + by rewrite app_nil_r.
    + apply bt_contains_false in Hc. rewrite bt_insert_Permutation by done. csimpl.
      split; [|done]. by rewrite Permutation_cons_append.
  - destruct (stale s through) eqn:Hst.
    { unfold open. rewrite Hst. simpl. autorewrite with bombay; csimpl. by rewrite app_nil_r. }
    destruct (open_spec s through reply Hwf Hst) as (rest & Hh & _ & _ & Ho & Hd & Hout).
    destruct (open s through reply) as [s' a]. simpl in *. unfold ok_sends, messages_of; simpl.
    rewrite Ho, Hd, Hout; csimpl. by rewrite app_nil_r, <- fmap_app, <- Hh.
Qed.

(** ** Runs *)

(** The entries released along a run, in order. *)
Fixpoint released_run (s : gate) (es : list event) : BTreeMap K (Held T TargetRoute) :=
  match es with
  | [] => []
  | e :: es => released s e ++ released_run (fst (transition s e)) es
  end.

Definition above (w : option K) (m : BTreeMap K (Held T TargetRoute)) : Prop :=
  forall x, w = Some x -> Forall (fun b => ltb x (fst b) = true) m.

(** The watermark only grows. *)
Definition watermark_le (w w' : option K) : Prop :=
  match w, w' with None, _ => True | Some x, Some y => leb x y = true | Some _, None => False end.

Lemma above_weaken w w' m : watermark_le w w' -> above w' m -> above w m.
Proof.
  intros Hle Ha x ->. destruct w' as [y|]; [|done].
  eapply Forall_impl; [exact (Ha y eq_refl)|]. intros b Hb. by eapply leb_ltb_trans.
Qed.

Lemma transition_watermark s e : watermark_le (watermark s) (watermark (fst (transition s e))).
Proof.
  assert (Hrefl : watermark_le (watermark s) (watermark s)).
  { destruct (watermark s); simpl; auto using leb_refl. }
  unfold transition. destruct (message e) as [key v t reply|through reply].
  - unfold hold. destruct (match watermark s with Some w => leb key w | None => false end);
      [|destruct (bt_contains _ _)]; exact Hrefl.
  - unfold open, stale. destruct (watermark s) as [w|] eqn:Hw;
      [destruct (leb through w) eqn:Hle|]; simpl; rewrite ?Hw; auto using leb_refl.
    + destruct (release_keys _ _ _); simpl. by apply ltb_leb, leb_not.
Qed.

Lemma released_run_sorted es : forall s, wf s ->
  sorted (released_run s es) /\ above (watermark s) (released_run s es).
Proof.
  induction es as [|e es IH]; intros s Hwf; simpl; [split; [constructor|intros ? _; constructor]|].
  destruct (IH _ (order_gate_wf_step s e Hwf)) as [Hs Ha].
  pose proof (above_weaken _ _ _ (transition_watermark s e) Ha) as Ha'.
  unfold released. destruct (message e) as [key v t reply|through reply] eqn:He; [done|].
  destruct (stale s through) eqn:Hst; [done|].
  destruct (open_spec s through reply Hwf Hst) as (rest & Hh & Hle & Hgt & Ho & _).
  assert (Hw : watermark (fst (transition s e)) = Some through).
  { unfold transition. rewrite He. destruct (open s through reply). simpl in *. by rewrite Ho. }
  destruct Hwf as [Hsorted Habove]. rewrite Hh in Hsorted. split.
  - eapply sorted_join; [exact (proj1 (sorted_app _ _ Hsorted))|done|exact Hle|by apply Ha].
  - intros w Hw0. apply Forall_app. split; [|by apply Ha'].
    specialize (Habove w Hw0). rewrite Hh in Habove. exact (proj1 (proj1 (Forall_app _ _ _) Habove)).
Qed.

(** On every run from a new gate: nothing is lost or delivered twice (what
    was delivered, with what is still held, is exactly what was accepted, and
    every submitted value was accepted or returned as a duplicate); the keys
    released by openings are strictly increasing over the whole run, so
    releases follow key order; held keys stay above the watermark, which never
    moves back; and a fresh opening releases exactly the held keys at or below
    its bound. *)
Theorem order_gate_ordered_release es :
  let '(s', os) := trace transition new es in
  collect (fun _ o => addressed (deliveries (ok_sends o))) es os ++ (communication <$> held s')
    ≡ₚ collect accepted es os /\
  Forall2 (fun e o => (match message e with Hold _ v _ _ => [v] | _ => [] end) =
    (snd <$> accepted e o) ++ returned o) es os /\
  StronglySorted (fun a b => ltb (fst a) (fst b) = true) (released_run new es) /\
  (forall w, watermark s' = Some w -> Forall (fun b => ltb w (fst b) = true) (held s')) /\
  (forall a through reply, stale s' through = None ->
     let '(s2, o) := transition s' (mkUser a (OpenThrough through reply)) in
     watermark s2 = Some through /\ held s' = bt_range_to through (held s') ++ held s2 /\
     addressed (deliveries (ok_sends o)) = communication <$> bt_range_to through (held s') /\
     Forall (fun b => ltb through (fst b) = true) (held s2)).
Proof.
  assert (wf new) as Hnew by (split; [constructor|done]).
  pose proof (trace_invariant wf transition order_gate_wf_step es _ Hnew) as Hwf.
  pose proof (trace_multiset_law wf transition (fun s => communication <$> held s)
    (fun _ o => addressed (deliveries (ok_sends o))) accepted order_gate_wf_step
    (fun s e H => proj1 (transition_accounts s e H)) es _ Hnew) as Hacc.
  pose proof (trace_Forall2 wf transition
    (fun e o => (match message e with Hold _ v _ _ => [v] | _ => [] end) =
      (snd <$> accepted e o) ++ returned o) order_gate_wf_step
    (fun s e H => proj2 (transition_accounts s e H)) es _ Hnew) as Hret.
  destruct (trace transition new es) as [s' os]. cbn [fst snd] in *.
  split_and!; [exact Hacc|exact Hret|by apply released_run_sorted|apply Hwf|].
  intros a through reply Hst. unfold transition; simpl.
  destruct (open_spec s' through reply Hwf Hst) as (rest & Hh & _ & Hgt & Ho & Hd & _).
  destruct (open s' through reply) as [s2 o]. simpl in *. by rewrite Ho.
Qed.

End OrderGate.
