(* ===== verification/Sequencer.v ===== *)
(** * The sequencer ([crates/actors/src/routing/sequencer.rs])

    Gap-buffered delivery over [u64] positions.  The [while] loop that releases
    the contiguous run is a fuelled loop whose fuel, the number of pending
    positions, is shown to be exactly enough. *)

From stdpp Require Import base list option numbers sorting.
From S2P Require Import Prelude Effects BTreeMap.

(** ** Data *)

(** [Sequence(pub u64)]. *)
Abbreviation Sequence := N.

Inductive SequencerOutcome (T : Type) : Type :=
| Accepted (released buffered : nat)
| Stale (sequence : Sequence) (value : T) (expected : Sequence)
| Duplicate (value : T) (sequence : Sequence)
| ExhaustedOffer (sequence : Sequence) (value : T).
Arguments Accepted {T} _ _.
Arguments Stale {T} _ _ _.
Arguments Duplicate {T} _ _.
Arguments ExhaustedOffer {T} _ _.

Inductive SequencerMessage (T TargetRoute ReplyRoute : Type) : Type :=
| Offer (sequence : Sequence) (value : T) (to : TargetRoute) (reply_to : ReplyRoute).
Arguments Offer {T TargetRoute ReplyRoute} _ _ _ _.

Record Pending (T TargetRoute : Type) := mkPending { value : T; to : TargetRoute }.
Arguments mkPending {T TargetRoute} _ _.
Arguments value {T TargetRoute} _.
Arguments to {T TargetRoute} _.

Record Sequencer (T TargetRoute : Type) := mkSequencer {
  expected : option Sequence;
  pending : BTreeMap Sequence (Pending T TargetRoute)
}.
Arguments mkSequencer {T TargetRoute} _ _.
Arguments expected {T TargetRoute} _.
Arguments pending {T TargetRoute} _.

Section Sequencer.
  Context {A T TargetRoute ReplyRoute TSends RSends : Type}.
  Context `{!SendEffects TSends, !SendEffects RSends}.
  Context `{!DeliveryRoute TargetRoute T TSends}.
  Context `{!DeliveryRoute ReplyRoute (SequencerOutcome T) RSends}.

Abbreviation sequencer := (Sequencer T TargetRoute).
Abbreviation acted := (Acted Never Never (DeliveryOutcomes TSends RSends) Never).
Abbreviation event := (User A (SequencerMessage T TargetRoute ReplyRoute)).

Definition new (first : Sequence) : sequencer := mkSequencer (Some first) [].

Definition actions (d : TSends) (o : RSends) :
  Actions Never Never (DeliveryOutcomes TSends RSends) :=
  send (mkDeliveryOutcomes d o).

(** The loop: remove the entry at the cursor, deliver it, advance.  [exp] is
    [self.expected]; the result is the final state, deliveries and count. *)
Fixpoint release (fuel : nat) (cursor : Sequence) (exp : option Sequence)
  (p : BTreeMap Sequence (Pending T TargetRoute)) (d : TSends) (released : nat) :
  sequencer * TSends * nat :=
  match fuel with
  | 0 => (mkSequencer exp p, d, released)
  | S fuel =>
      match bt_remove cursor p with
      | None => (mkSequencer exp p, d, released)
      | Some (x, p') =>
          let d := sends_append d (deliver (to x) (value x)) in
          let released := released + 1 in
          if (cursor =? u64_max)%N then (mkSequencer None p', d, released)
          else release fuel (cursor + 1)%N (Some (cursor + 1)%N) p' d released
      end
  end.

Definition transition (s : sequencer) (e : event) : sequencer * acted :=
  let '(Offer sequence v t reply) := message e in
  match expected s with
  | None => (s, Ok (actions sends_empty (deliver reply (ExhaustedOffer sequence v))))
  | Some exp =>
      if (sequence <? exp)%N then
        (s, Ok (actions sends_empty (deliver reply (Stale sequence v exp))))
      else if bt_contains sequence (pending s) then
        (s, Ok (actions sends_empty (deliver reply (Duplicate v sequence))))
      else
        let p := bt_insert sequence (mkPending v t) (pending s) in
        let '(s', d, released) := release (length p) exp (Some exp) p sends_empty 0 in
        (s', Ok (actions d (deliver reply (Accepted released (length (pending s'))))))
  end.

(** ** The loop *)

Context `{!RouteLaws TargetRoute T TSends}.
Context `{!RouteLaws ReplyRoute (SequencerOutcome T) RSends}.

(** The fuel is enough: more of it changes nothing, because every iteration
    removes one pending entry. *)
Lemma release_fuel fuel cursor exp p d n :
  length p <= fuel -> release fuel cursor exp p d n = release (length p) cursor exp p d n.
Proof.
  revert cursor exp p d n. induction fuel as [|fuel IH]; intros cursor exp p d n Hf.
  { by destruct p; simpl in *; [|lia]. }
  destruct (length p) as [|m] eqn:Hl.
  { destruct p; [|discriminate]. simpl. done. }
  simpl. destruct (bt_remove cursor p) as [[x p']|] eqn:Hr; [|done].
  destruct (cursor =? u64_max)%N; [done|].
  apply bt_remove_length in Hr. rewrite Hl in Hr. injection Hr as Hr.
  rewrite IH by lia. by rewrite Hr.
Qed.

(** Entries numbered consecutively from a position. *)
Fixpoint numbered (n : Sequence) (l : list (TargetRoute * T)) :
  list (Sequence * (TargetRoute * T)) :=
  match l with [] => [] | x :: l => (n, x) :: numbered (n + 1)%N l end.

Lemma numbered_app n l k : numbered n (l ++ k) = numbered n l ++ numbered (n + N.of_nat (length l))%N k.
Proof.
  revert n. induction l as [|x l IH]; intros n; simpl; [f_equal; lia|].
  rewrite IH. do 3 f_equal. lia.
Qed.

Definition entry (b : Sequence * Pending T TargetRoute) : Sequence * (TargetRoute * T) :=
  (fst b, (to (snd b), value (snd b))).

(** The position after the last one delivered: [None] after [u64::MAX]. *)
Definition position_after (n : N) : option Sequence :=
  if (n <=? u64_max)%N then Some n else None.

(** Positions pending beyond the current one. *)
Record beyond (cursor : N) (p : BTreeMap Sequence (Pending T TargetRoute)) : Prop := {
  beyond_sorted : sorted p;
  beyond_ge : Forall (fun b => (cursor <= fst b <= u64_max)%N) p
}.

Lemma beyond_delete cursor x p :
  beyond cursor p -> bt_get cursor p = Some x -> beyond (cursor + 1) (bt_delete cursor p).
Proof.
  intros [Hs Hge] Hg. split; [by apply bt_delete_sorted|].
  pose proof (sorted_keys_NoDup _ Hs) as Hnd.
  rewrite <- (bt_delete_Permutation _ _ _ Hg) in Hnd, Hge. csimpl in *.
  apply NoDup_cons in Hnd as [Hnot _]. apply Forall_cons in Hge as [_ Hge].
  rewrite Forall_forall in Hge |- *. intros b Hb. specialize (Hge b Hb).
  assert (fst b <> cursor); [|lia].
  intros <-. apply Hnot, list_elem_of_fmap. eauto.
Qed.

Lemma release_spec fuel : forall cursor p d n,
  length p <= fuel -> beyond cursor p -> (cursor <= u64_max)%N ->
  let '(s', d', n') := release fuel cursor (Some cursor) p d n in
  exists l, addressed d' = addressed d ++ l /\ n' = n + length l /\
    numbered cursor l ++ (entry <$> pending s') ≡ₚ entry <$> p /\
    expected s' = position_after (cursor + N.of_nat (length l)) /\
    (cursor + N.of_nat (length l) <= u64_max + 1)%N /\
    beyond (cursor + N.of_nat (length l)) (pending s') /\
    bt_get (cursor + N.of_nat (length l))%N (pending s') = None.
Proof.
  assert (Hdone : forall cursor p d n, beyond cursor p -> (cursor <= u64_max)%N ->
    bt_get cursor p = None ->
    exists l, addressed d = addressed d ++ l /\ n = n + length l /\
      numbered cursor l ++ (entry <$> p) ≡ₚ entry <$> p /\
      Some cursor = position_after (cursor + N.of_nat (length l)) /\
      (cursor + N.of_nat (length l) <= u64_max + 1)%N /\
      beyond (cursor + N.of_nat (length l)) p /\
      bt_get (cursor + N.of_nat (length l))%N p = None).
  { intros cursor p d n Hb Hc Hg. exists []. simpl. rewrite N.add_0_r, app_nil_r.
    unfold position_after. destruct (N.leb_spec cursor u64_max); [|lia].
    split_and!; auto; lia. }
  induction fuel as [|fuel IH]; intros cursor p d n Hf Hb Hc; simpl.
  { destruct p; simpl in Hf; [|lia]. by apply Hdone. }
  destruct (bt_remove cursor p) as [[x p']|] eqn:Hr.
  2: { apply Hdone; auto using bt_remove_None. }
  pose proof (bt_remove_length _ _ _ _ Hr) as Hl. apply bt_remove_Some in Hr as [Hg ->].
  pose proof (beyond_delete _ _ _ Hb Hg) as Hb'.
  destruct (N.eqb_spec cursor u64_max) as [->|Hne].
  - exists [(to x, value x)]. simpl. rewrite addressed_append, addressed_deliver.
    rewrite <- (bt_delete_Permutation _ _ _ Hg) at 2. csimpl.
    split_and!; auto. destruct Hb' as [Hs Hge].
    apply bt_get_None. intros (b & Hkey & Hin)%list_elem_of_fmap.
    rewrite Forall_forall in Hge. specialize (Hge b Hin). lia.
  - specialize (IH (cursor + 1)%N (bt_delete cursor p)
      (sends_append d (deliver (to x) (value x))) (n + 1)).
    destruct (release fuel (cursor + 1) _ _ _ _) as [[s' d'] n'].
    destruct IH as (l & Hd & Hn & Hp & He & Hrep & Hbl & Hgl); [lia|done|lia|].
    exists ((to x, value x) :: l). simpl length.
    rewrite addressed_append, addressed_deliver, <- app_assoc in Hd.
    replace (cursor + N.of_nat (S (length l)))%N with (cursor + 1 + N.of_nat (length l))%N by lia.
    split_and!; auto; [lia|].
    simpl. rewrite Hp. transitivity (entry <$> (cursor, x) :: bt_delete cursor p); [done|].
    by rewrite (bt_delete_Permutation _ _ _ Hg).
Qed.

(** ** One step and whole runs *)

(** An offer that was accepted, read off the outcome lane. *)
Definition accepted (e : event) (o : acted) : list (Sequence * (TargetRoute * T)) :=
  let '(Offer q v t _) := message e in
  match messages_of (outcomes (ok_sends o)) with [Accepted _ _] => [(q, (t, v))] | _ => [] end.

(** A refused offer returns its value, with the reason. *)
Definition refused (e : event) (o : acted) : Prop :=
  let '(Offer q v t reply) := message e in
  exists m, addressed (outcomes (ok_sends o)) = [(reply, m)] /\
    match m with
    | Accepted _ _ => True
    | Stale q' v' x => q' = q /\ v' = v /\ (q < x)%N
    | Duplicate v' q' | ExhaustedOffer q' v' => q' = q /\ v' = v
    end.

(** After delivering [l] from [first], the next position is free and everything
    pending lies beyond it. *)
Record wf (first : Sequence) (l : list (TargetRoute * T)) (s : sequencer) : Prop := {
  wf_expected : expected s = position_after (first + N.of_nat (length l));
  wf_representable : (first + N.of_nat (length l) <= u64_max + 1)%N;
  wf_beyond : beyond (first + N.of_nat (length l)) (pending s);
  wf_gap : bt_get (first + N.of_nat (length l))%N (pending s) = None
}.

(** The source's positions are [u64]. *)
Definition in_range (e : event) : Prop := let '(Offer q _ _ _) := message e in (q <= u64_max)%N.

Lemma transition_spec first l s e : wf first l s -> in_range e ->
  let '(s', o) := transition s e in
  exists l', addressed (deliveries (ok_sends o)) = l' /\ wf first (l ++ l') s' /\
    numbered first (l ++ l') ++ (entry <$> pending s') ≡ₚ
      (numbered first l ++ (entry <$> pending s)) ++ accepted e o /\
    refused e o.
Proof.
  intros [He Hrep Hb Hg]. unfold in_range, transition, accepted, refused.
  destruct (message e) as [q v t reply]. intros Hq.
  assert (Hkeep : forall (m : SequencerOutcome T), match m with Accepted _ _ => False | _ => True end ->
    match messages_of (deliver reply m : RSends) with [Accepted _ _] => [(q, (t, v))] | _ => [] end = []).
  { intros m Hm. rewrite messages_of_deliver. by destruct m. }
  assert (Hsame : wf first (l ++ []) s) by (rewrite app_nil_r; by split).
  rewrite He. unfold position_after. destruct (N.leb_spec (first + N.of_nat (length l)) u64_max) as [Hle|Hgt].
  2: { exists []. simpl. rewrite Hkeep, !addressed_deliver, addressed_empty, !app_nil_r by done.
       rewrite app_nil_r in Hsame. split_and!; auto. eexists; (split; [done|]); simpl; auto. }
  destruct (N.ltb_spec q (first + N.of_nat (length l))) as [Hlt|Hge].
  { exists []. simpl. rewrite Hkeep, !addressed_deliver, addressed_empty, !app_nil_r by done.
    rewrite app_nil_r in Hsame. split_and!; auto. eexists; (split; [done|]); simpl; auto. }
  destruct (bt_contains q (pending s)) eqn:Hc.
  { exists []. simpl. rewrite Hkeep, !addressed_deliver, addressed_empty, !app_nil_r by done.
    rewrite app_nil_r in Hsame. split_and!; auto. eexists; (split; [done|]); simpl; auto. }
  apply bt_contains_false in Hc.
  pose proof (release_spec (length (bt_insert q (mkPending v t) (pending s)))
    (first + N.of_nat (length l))%N (bt_insert q (mkPending v t) (pending s)) sends_empty 0) as Hr.
  destruct (release _ _ _ _ _ _) as [[s' d] n].
  destruct Hr as (l' & Hd & -> & Hp & He' & Hrep' & Hb' & Hg'); [lia| |done|].
  { destruct Hb as [Hs Hf]. split; [by apply bt_insert_sorted|].
    rewrite bt_insert_Permutation by done. by constructor. }
  rewrite addressed_empty in Hd. simpl in Hd. exists l'. simpl.
  rewrite messages_of_deliver, !addressed_deliver.
  assert (Hlen : (first + N.of_nat (length (l ++ l')) =
    first + N.of_nat (length l) + N.of_nat (length l'))%N) by (rewrite length_app; lia).
  split_and!; [done| | |by eexists].
  - split; rewrite Hlen; auto.
  - rewrite numbered_app, <- !app_assoc. f_equiv. rewrite Hp.
    rewrite bt_insert_Permutation by done. csimpl. apply Permutation_cons_append.
Qed.

Lemma trace_spec first es : forall l s, wf first l s -> Forall in_range es ->
  let '(s', os) := trace transition s es in
  let d := collect (fun _ o => addressed (deliveries (ok_sends o))) es os in
  wf first (l ++ d) s' /\
  numbered first (l ++ d) ++ (entry <$> pending s') ≡ₚ
    (numbered first l ++ (entry <$> pending s)) ++ collect accepted es os /\
  Forall2 refused es os.
Proof.
  induction es as [|e es IH]; intros l s Hwf Hr; simpl.
  { rewrite !app_nil_r. auto using Forall2_nil_2. }
  apply Forall_cons in Hr as [He Hr].
  pose proof (transition_spec first l s e Hwf He) as Ht. destruct (transition s e) as [s1 o].
  destruct Ht as (l1 & Hl1 & Hwf1 & Hp1 & Href).
  specialize (IH _ _ Hwf1 Hr). destruct (trace transition s1 es) as [s2 os].
  destruct IH as (Hwf2 & Hp2 & Hrefs). cbn [collect]. rewrite Hl1, !app_assoc.
  split_and!; [done| |by constructor]. by rewrite Hp2, Hp1, <- !app_assoc.
Qed.

Lemma numbered_bounds n l x :
  x ∈ (fst <$> numbered n l) -> (n <= x < n + N.of_nat (length l))%N.
Proof.
  revert n. induction l as [|y l IH]; intros n; csimpl; [by intros ?%not_elem_of_nil|].
  intros [->|Hin]%elem_of_cons; [lia|]. specialize (IH _ Hin). lia.
Qed.

Lemma numbered_NoDup n l : NoDup (fst <$> numbered n l).
Proof.
  revert n. induction l as [|y l IH]; intros n; csimpl; [constructor|].
  constructor; [|done]. intros H%numbered_bounds. lia.
Qed.

Lemma wf_pending first l s : wf first l s ->
  Forall (fun b => (first + N.of_nat (length l) < fst b)%N) (pending s) /\
  NoDup (fst <$> numbered first l ++ (entry <$> pending s)).
Proof.
  intros [_ _ [Hs Hge] Hg].
  assert (Hgt : Forall (fun b => (first + N.of_nat (length l) < fst b)%N) (pending s)).
  { rewrite Forall_forall in Hge |- *. intros b Hb. specialize (Hge b Hb).
    assert (fst b <> first + N.of_nat (length l))%N; [|lia].
    intros Heq. apply bt_get_None in Hg. apply Hg, list_elem_of_fmap. eauto. }
  split; [done|]. rewrite fmap_app. apply list.NoDup_app. split_and!; [apply numbered_NoDup| |].
  - intros x Hx%numbered_bounds (y & -> & (b & -> & Hb)%list_elem_of_fmap)%list_elem_of_fmap.
    rewrite Forall_forall in Hgt. specialize (Hgt b Hb). simpl in Hx. lia.
  - rewrite <- list_fmap_compose. by apply sorted_keys_NoDup.
Qed.

(** On every run of offers with [u64] positions: the deliveries, numbered
    consecutively from the first position, together with the pending entries,
    are exactly the accepted offers, each position accepted once; the next
    expected position is the one after the last delivery, or none after
    [u64::MAX] (no wrap-around); everything pending waits behind a gap; and a
    refused offer returns its position and value with the reason. *)
Theorem sequencer_contiguous_delivery first es :
  (first <= u64_max)%N -> Forall in_range es ->
  let '(s', os) := trace transition (new first) es in
  let d := collect (fun _ o => addressed (deliveries (ok_sends o))) es os in
  numbered first d ++ (entry <$> pending s') ≡ₚ collect accepted es os /\
  NoDup (fst <$> collect accepted es os) /\
  expected s' = position_after (first + N.of_nat (length d)) /\
  Forall (fun b => (first + N.of_nat (length d) < fst b)%N) (pending s') /\
  Forall2 refused es os.
Proof.
  intros Hf Hr.
  assert (wf first [] (new first)) as Hwf.
  { split; simpl; rewrite ?N.add_0_r; [|lia|repeat constructor|done].
    unfold position_after. destruct (N.leb_spec first u64_max); [done|lia]. }
  pose proof (trace_spec first es [] (new first) Hwf Hr) as Ht.
  destruct (trace transition (new first) es) as [s' os].
  destruct Ht as (Hwf' & Hp & Href). simpl in *.
  destruct (wf_pending _ _ _ Hwf') as [Hgt Hnd]. rewrite <- Hp.
  split_and!; auto. apply Hwf'.
Qed.

End Sequencer.

(** Position 7 is offered before position 6, and 5 twice. *)
Definition demo_transition :=
  transition (A := nat) (T := nat) (TargetRoute := Recipient nat) (ReplyRoute := Recipient nat)
    (TSends := list (Delivery nat nat)) (RSends := list (Delivery nat (SequencerOutcome nat))).

Definition demo_offers : list (User nat (SequencerMessage nat (Recipient nat) (Recipient nat))) :=
  (fun q => mkUser 9 (Offer q (N.to_nat q) (mkRecipient 7) (mkRecipient 8))) <$> [5; 7; 5; 6; 9]%N.

Lemma sequencer_contiguous_delivery_witness :
  let '(s', os) := trace demo_transition (new 5) demo_offers in
  let d := collect (fun _ o => addressed (deliveries (ok_sends o))) demo_offers os in
  (snd <$> d) = [5; 6; 7] /\
  expected s' = position_after (5 + N.of_nat (length d)) /\ Forall2 refused demo_offers os.
Proof.
  assert (H1 : (5 <= u64_max)%N) by (vm_compute; discriminate).
  assert (H2 : Forall in_range demo_offers) by (repeat constructor; vm_compute; discriminate).
  pose proof (sequencer_contiguous_delivery (A := nat) (TargetRoute := Recipient nat)
    (ReplyRoute := Recipient nat) (T := nat) (TSends := list (Delivery nat nat))
    (RSends := list (Delivery nat (SequencerOutcome nat))) 5 demo_offers H1 H2) as H.
  change (transition (A := nat) (T := nat)) with demo_transition in H.
  destruct (trace demo_transition (new 5) demo_offers) as [s' os] eqn:Ht.
  destruct H as (_ & _ & He & _ & Hr). split; [|split; [exact He|exact Hr]].
  vm_compute in Ht. injection Ht as <- <-. reflexivity.
Defined.
