(* ===== verification/PriorityQueue.v ===== *)
(** * The priority queue ([crates/actors/src/routing/priority_queue.rs])

    Bounded release by priority with FIFO ties.  The [BinaryHeap] is a bag of
    entries whose [pop] removes a greatest one by [Entry::cmp]; the insertion
    token makes the order strict, so the greatest entry is unique. *)

From stdpp Require Import base list option numbers sorting.
From S2P Require Import Prelude Effects BTreeMap.

(** ** Data *)

Inductive PriorityQueueRejection : Type := Full | SequenceExhausted.

Inductive PriorityQueueOutcome (T P : Type) : Type :=
| Accepted (depth : nat)
| Rejected (value : T) (priority : P) (reason : PriorityQueueRejection)
| Released (remaining : nat)
| Empty.
Arguments Accepted {T P} _.
Arguments Rejected {T P} _ _ _.
Arguments Released {T P} _.
Arguments Empty {T P}.

Inductive PriorityQueueMessage (T P TargetRoute ReplyRoute : Type) : Type :=
| Offer (value : T) (priority : P) (reply_to : ReplyRoute)
| Release (to : TargetRoute) (reply_to : ReplyRoute).
Arguments Offer {T P TargetRoute ReplyRoute} _ _ _.
Arguments Release {T P TargetRoute ReplyRoute} _ _.

Inductive PriorityQueueConfigError : Type := ZeroCapacity.

Record Entry (T P : Type) := mkEntry { value : T; priority : P; order : N }.
Arguments mkEntry {T P} _ _ _.
Arguments value {T P} _.
Arguments priority {T P} _.
Arguments order {T P} _.

(** [self.cmp(other) != Greater]: by priority, then by reversed insertion order. *)
Definition entry_le {T P} `{!Ord P} (x y : Entry T P) : bool :=
  ltb (priority x) (priority y) ||
  (leb (priority x) (priority y) && (order y <=? order x)%N).

(** [BinaryHeap::pop]. *)
Fixpoint heap_pop {T P} `{!Ord P} (h : list (Entry T P)) : option (Entry T P * list (Entry T P)) :=
  match h with
  | [] => None
  | x :: h =>
      match heap_pop h with
      | None => Some (x, [])
      | Some (m, rest) => if entry_le x m then Some (m, x :: rest) else Some (x, m :: rest)
      end
  end.

Record PriorityQueue (T P : Type) := mkPriorityQueue {
  capacity : nat;
  next : option N;
  queued : list (Entry T P)
}.
Arguments mkPriorityQueue {T P} _ _ _.
Arguments capacity {T P} _.
Arguments next {T P} _.
Arguments queued {T P} _.

(** [PriorityQueue::new]. *)
Definition new {T P} (cap : nat) : result (PriorityQueue T P) PriorityQueueConfigError :=
  if cap =? 0 then Err ZeroCapacity else Ok (mkPriorityQueue cap (Some 0%N) []).

Section PriorityQueue.
  Context {A T P TargetRoute ReplyRoute TSends RSends : Type}.
  Context `{!Ord P, !SendEffects TSends, !SendEffects RSends}.
  Context `{!DeliveryRoute TargetRoute T TSends}.
  Context `{!DeliveryRoute ReplyRoute (PriorityQueueOutcome T P) RSends}.

Abbreviation queue := (PriorityQueue T P).
Abbreviation queue_actions := (Actions Never Never (DeliveryOutcomes TSends RSends)).
Abbreviation acted := (Acted Never Never (DeliveryOutcomes TSends RSends) Never).
Abbreviation event := (User A (PriorityQueueMessage T P TargetRoute ReplyRoute)).

(** [PriorityQueue::sends]. *)
Definition queue_sends (d : TSends) (o : RSends) : queue_actions := send (mkDeliveryOutcomes d o).

Definition offer (s : queue) (v : T) (p : P) (reply : ReplyRoute) : queue * queue_actions :=
  if length (queued s) =? capacity s then
    (s, queue_sends sends_empty (deliver reply (Rejected v p Full)))
  else
    match next s with
    | None => (s, queue_sends sends_empty (deliver reply (Rejected v p SequenceExhausted)))
    | Some n =>
        let q := mkEntry v p n :: queued s in
        (mkPriorityQueue (capacity s) (checked_add u64_max n 1) q,
         queue_sends sends_empty (deliver reply (Accepted (length q))))
    end.

Definition transition (s : queue) (e : event) : queue * acted :=
  match message e with
  | Offer v p reply => let '(s', a) := offer s v p reply in (s', Ok a)
  | Release to reply =>
      match heap_pop (queued s) with
      | None => (s, Ok (queue_sends sends_empty (deliver reply Empty)))
      | Some (x, rest) =>
          (mkPriorityQueue (capacity s) (next s) rest,
           Ok (queue_sends (deliver to (value x)) (deliver reply (Released (length rest)))))
      end
  end.

(** ** The heap *)

Lemma entry_le_refl (x : Entry T P) : entry_le x x = true.
Proof. unfold entry_le. rewrite leb_refl, N.leb_refl. by rewrite orb_true_r. Qed.

Lemma entry_le_total (x y : Entry T P) : entry_le x y = false -> entry_le y x = true.
Proof.
  unfold entry_le. intros [Hlt Hand]%orb_false_iff.
  assert (Hle : leb (priority y) (priority x) = true) by (unfold ltb in Hlt; by apply negb_false_iff).
  rewrite Hle. destruct (leb (priority x) (priority y)) eqn:Hxy; simpl in *.
  - apply N.leb_gt in Hand. destruct (N.leb_spec (order x) (order y)); [by rewrite orb_true_r|lia].
  - unfold ltb. by rewrite Hxy.
Qed.

Lemma entry_le_trans (x y z : Entry T P) :
  entry_le x y = true -> entry_le y z = true -> entry_le x z = true.
Proof.
  unfold entry_le. rewrite !orb_true_iff, !andb_true_iff, !N.leb_le.
  intros [H1|[H1 H1']] [H2|[H2 H2']].
  - left. by eapply ltb_trans.
  - left. unfold ltb in *. apply negb_true_iff. apply negb_true_iff in H1.
    destruct (leb (priority z) (priority x)) eqn:E; [|done].
    rewrite (leb_trans _ _ _ H2 E) in H1. discriminate.
  - left. by eapply leb_ltb_trans.
  - right. split; [by eapply leb_trans|lia].
Qed.

Lemma heap_pop_spec (h : list (Entry T P)) x rest :
  heap_pop h = Some (x, rest) ->
  x :: rest ≡ₚ h /\ Forall (fun y => entry_le y x = true) h.
Proof.
  revert x rest. induction h as [|a h IH]; intros x rest; simpl; [discriminate|].
  destruct (heap_pop h) as [[m r]|] eqn:Hh.
  - destruct (IH m r eq_refl) as [Hp Hf]. destruct (entry_le a m) eqn:Hle; intros [= <- <-].
    + split; [by rewrite Permutation_swap, Hp|by constructor].
    + split; [by rewrite Hp|]. constructor; [apply entry_le_refl|].
      rewrite Forall_forall in Hf |- *. intros y Hy. eapply entry_le_trans; [by apply Hf|].
      by apply entry_le_total.
  - intros [= <- <-]. destruct h as [|b h]; [by repeat constructor; apply entry_le_refl|].
    exfalso. simpl in Hh. by destruct (heap_pop h) as [[? ?]|]; [destruct (entry_le _ _)|].
Qed.

Lemma heap_pop_None (h : list (Entry T P)) : heap_pop h = None -> h = [].
Proof.
  destruct h as [|b h]; [done|]. simpl.
  by destruct (heap_pop h) as [[? ?]|]; [destruct (entry_le _ _)|].
Qed.

(** ** Accounting *)

Context `{!RouteLaws TargetRoute T TSends}.
Context `{!RouteLaws ReplyRoute (PriorityQueueOutcome T P) RSends}.

(** An accepted offer: value and priority. *)
Definition accepted (e : event) (o : acted) : list (T * P) :=
  match message e with
  | Offer v p _ =>
      match messages_of (outcomes (ok_sends o)) with [Accepted _] => [(v, p)] | _ => [] end
  | Release _ _ => []
  end.

Definition delivered_values (o : acted) : list T := messages_of (deliveries (ok_sends o)).

(** A refused offer returns the value and the priority to the offerer. *)
Definition answered (e : event) (o : acted) : Prop :=
  match message e with
  | Offer v p reply =>
      exists m, addressed (outcomes (ok_sends o)) = [(reply, m)] /\
        match m with Accepted _ => True | Rejected v' p' _ => v' = v /\ p' = p | _ => False end
  | Release _ reply =>
      exists m, addressed (outcomes (ok_sends o)) = [(reply, m)] /\
        match m with
        | Released _ => length (delivered_values o) = 1
        | Empty => delivered_values o = []
        | _ => False
        end
  end.

(** Queued entries are accepted offers, tagged by their admission index. *)
Record wf (cap : nat) (acc : list (T * P)) (s : queue) : Prop := {
  wf_capacity : capacity s = cap;
  wf_bounded : length (queued s) <= cap;
  wf_next : next s = (if (N.of_nat (length acc) <=? u64_max)%N
                      then Some (N.of_nat (length acc)) else None);
  wf_limit : (N.of_nat (length acc) <= u64_max + 1)%N;
  wf_entries : Forall (fun x => acc !! N.to_nat (order x) = Some (value x, priority x)) (queued s);
  wf_unique : NoDup (order <$> queued s)
}.

Lemma wf_queued_rest cap acc s x rest :
  wf cap acc s -> x :: rest ≡ₚ queued s ->
  wf cap acc (mkPriorityQueue (capacity s) (next s) rest).
Proof.
  intros [Hc Hb Hn Hl He Hu] Hp. rewrite <- Hp in Hb, He, Hu. csimpl in *.
  apply Forall_cons in He as [_ He]. apply NoDup_cons in Hu as [_ Hu].
  split; auto. simpl. lia.
Qed.

Lemma priority_queue_step cap acc s e : wf cap acc s ->
  wf cap (acc ++ accepted e (snd (transition s e))) (fst (transition s e)) /\
  delivered_values (snd (transition s e)) ++ (value <$> queued (fst (transition s e))) ≡ₚ
    (value <$> queued s) ++ (fst <$> accepted e (snd (transition s e))) /\
  answered e (snd (transition s e)).
Proof.
  intros Hwf. unfold transition, accepted, answered, delivered_values.
  destruct (message e) as [v p reply|to reply].
  - unfold offer. destruct (Nat.eqb_spec (length (queued s)) (capacity s)) as [Hf|Hf].
    { simpl. autorewrite with bombay; csimpl. rewrite !app_nil_r. split_and!; eauto.
      eexists; (split; [done|]); simpl; done. }
    destruct Hwf as [Hc Hb Hn Hl He Hu]. rewrite Hn.
    destruct (N.leb_spec (N.of_nat (length acc)) u64_max) as [Hle|Hgt]; simpl;
      autorewrite with bombay; csimpl.
    + split_and!; [|by rewrite Permutation_cons_append|by eexists].
      split; simpl; rewrite ?length_app; simpl; auto; [lia| |lia| |].
      * unfold checked_add. replace (N.of_nat (length acc + 1)) with (N.of_nat (length acc) + 1)%N by lia.
        done.
      * constructor; simpl; [by rewrite Nat2N.id, list_lookup_middle|].
        rewrite Forall_forall in He |- *. intros y Hy. specialize (He y Hy).
        by apply lookup_app_l_Some.
      * constructor; [|done]. intros (y & Hy & Hin)%list_elem_of_fmap.
        rewrite Forall_forall in He. specialize (He y Hin). apply lookup_lt_Some in He.
        rewrite <- Hy in He. lia.
    + rewrite !app_nil_r. split_and!; [|done|by eexists].
      split; auto. rewrite Hn. destruct (N.leb_spec (N.of_nat (length acc)) u64_max); [lia|done].
  - destruct (heap_pop (queued s)) as [[x rest]|] eqn:Hp; simpl; autorewrite with bombay; csimpl;
      rewrite ?app_nil_r.
    + apply heap_pop_spec in Hp as [Hp _].
      split_and!; [by eapply wf_queued_rest|by rewrite <- Hp|by eexists].
    + split_and!; [done|done|by eexists].
Qed.

Lemma priority_queue_run cap es : forall acc s, wf cap acc s ->
  let '(s', os) := trace transition s es in
  wf cap (acc ++ collect accepted es os) s' /\
  collect (fun _ o => delivered_values o) es os ++ (value <$> queued s') ≡ₚ
    (value <$> queued s) ++ (fst <$> collect accepted es os) /\
  Forall2 answered es os.
Proof.
  induction es as [|e es IH]; intros acc s Hwf; simpl.
  { rewrite !app_nil_r. auto using Forall2_nil_2. }
  destruct (priority_queue_step cap acc s e Hwf) as (Hwf1 & Hp1 & Ha1).
  destruct (transition s e) as [s1 o]. simpl in *. specialize (IH _ _ Hwf1).
  destruct (trace transition s1 es) as [s2 os]. destruct IH as (Hwf2 & Hp2 & Ha2).
  cbn [collect]. rewrite <- !app_assoc in *. split_and!; [done| |by constructor].
  rewrite Hp2, fmap_app, !app_assoc, Hp1. done.
Qed.

(** On every run from a configured queue: the depth stays within capacity;
    released and queued values are exactly the accepted ones; every queued
    entry is an accepted offer tagged with its admission index, so the tag
    never repeats and stays within [u64] (after which offers are refused, never
    wrapped); every offer is accepted or returned with its priority; and the
    next release delivers an entry of the greatest priority, the earliest
    admitted among equals, or reports an empty queue. *)
Theorem priority_queue_stable_release cap s0 es :
  new cap = Ok s0 ->
  let '(s', os) := trace transition s0 es in
  let acc := collect accepted es os in
  length (queued s') <= cap /\
  collect (fun _ o => delivered_values o) es os ++ (value <$> queued s') ≡ₚ fst <$> acc /\
  Forall (fun x => acc !! N.to_nat (order x) = Some (value x, priority x)) (queued s') /\
  NoDup (order <$> queued s') /\ (N.of_nat (length acc) <= u64_max + 1)%N /\
  Forall2 answered es os /\
  (forall a to reply,
     let '(s2, o) := transition s' (mkUser a (Release to reply)) in
     (queued s' = [] /\ s2 = s' /\ delivered_values o = []) \/
     exists x, x :: queued s2 ≡ₚ queued s' /\
       addressed (deliveries (ok_sends o)) = [(to, value x)] /\
       forall y, y ∈ queued s' ->
         ltb (priority y) (priority x) = true \/
         (priority y = priority x /\ (order x <= order y)%N)).
Proof.
  intros Hnew.
  assert (wf cap [] s0 /\ queued s0 = []) as [Hwf0 Hq0].
  { revert Hnew. unfold new. destruct (Nat.eqb_spec cap 0); [discriminate|]. intros [= <-].
    split; [split; simpl; try done; [lia|constructor]|done]. }
  pose proof (priority_queue_run cap es [] s0 Hwf0) as Ht.
  destruct (trace transition s0 es) as [s' os]. destruct Ht as (Hwf & Hp & Ha).
  rewrite Hq0 in Hp. simpl in *. split_and!; try apply Hwf; try done.
  intros a to reply. unfold transition; simpl.
  destruct (heap_pop (queued s')) as [[x rest]|] eqn:Hpop; simpl; autorewrite with bombay.
  - right. exists x. apply heap_pop_spec in Hpop as [Hperm Hmax]. split_and!; [done|done|].
    intros y Hy. rewrite Forall_forall in Hmax. specialize (Hmax y Hy). unfold entry_le in Hmax.
    apply orb_true_iff in Hmax as [Hlt|[Hle Ho]%andb_true_iff]; [by left|].
    apply N.leb_le in Ho. destruct (ltb_or_eq _ _ Hle); auto.
  - left. apply heap_pop_None in Hpop. unfold delivered_values; simpl. by autorewrite with bombay.
Qed.

End PriorityQueue.

(** Two offers of priority 1 around one of priority 2. *)
Definition demo_transition :=
  transition (A := nat) (T := nat) (P := nat) (TargetRoute := Recipient nat)
    (ReplyRoute := Recipient nat) (TSends := list (Delivery nat nat))
    (RSends := list (Delivery nat (PriorityQueueOutcome nat nat))).

Definition demo_events :
  list (User nat (PriorityQueueMessage nat nat (Recipient nat) (Recipient nat))) :=
  [mkUser 9 (Offer 10 1 (mkRecipient 8)); mkUser 9 (Offer 20 2 (mkRecipient 8));
   mkUser 9 (Offer 11 1 (mkRecipient 8)); mkUser 9 (Release (mkRecipient 7) (mkRecipient 8));
   mkUser 9 (Release (mkRecipient 7) (mkRecipient 8))].

Lemma priority_queue_stable_release_witness :
  let '(s', os) := trace demo_transition (mkPriorityQueue 3 (Some 0%N) []) demo_events in
  collect (fun _ o => delivered_values o) demo_events os = [20; 10] /\
  length (queued s') <= 3 /\ Forall2 answered demo_events os.
Proof.
  pose proof (priority_queue_stable_release (A := nat) (T := nat) (P := nat)
    (TargetRoute := Recipient nat) (ReplyRoute := Recipient nat)
    (TSends := list (Delivery nat nat))
    (RSends := list (Delivery nat (PriorityQueueOutcome nat nat)))
    3 (mkPriorityQueue 3 (Some 0%N) []) demo_events eq_refl) as H.
  change (transition (A := nat) (T := nat)) with demo_transition in H.
  destruct (trace demo_transition (mkPriorityQueue 3 (Some 0%N) []) demo_events) as [s' os] eqn:Ht.
  destruct H as (H1 & _ & _ & _ & _ & H2 & _). split; [|split; [exact H1|exact H2]].
  vm_compute in Ht. injection Ht as <- <-. reflexivity.
Defined.
