(* ===== verification/Timers.v ===== *)
(** * Timer protocol and timer lifecycles

    Models the request and evidence types of
    [crates/actors/src/protocol/timer.rs] and the lifecycle domains of
    [crates/actors/src/time/domain.rs].  A [Duration] is a number of
    nanoseconds and an [Instant] a number of nanoseconds since an arbitrary
    origin; neither is read by the folds except for the zero test. *)

From stdpp Require Import base list option numbers sorting.
From S2P Require Import Prelude Effects.

(** ** Requests and evidence ([protocol/timer.rs]) *)

Abbreviation Duration := N.
Abbreviation Instant := N.

Record TimerId := mkTimerId { timer_number : N }.
Record TimerGeneration := mkTimerGeneration { generation_number : N }.

#[export] Instance TimerId_EqDecision : EqDecision TimerId.
Proof. solve_decision. Defined.
#[export] Instance TimerGeneration_EqDecision : EqDecision TimerGeneration.
Proof. solve_decision. Defined.

(** The ingress of the emitting wrapper. *)
Inductive Here : Set := the_Here.

Record ScheduleAt (Target : Type) := mkScheduleAt {
  at_target : Target;
  at_generation : TimerGeneration;
  at_instant : Instant
}.
Arguments mkScheduleAt {Target} _ _ _.
Arguments at_target {Target} _.
Arguments at_generation {Target} _.
Arguments at_instant {Target} _.

Record ScheduleAfter (Target : Type) := mkScheduleAfter {
  after_target : Target;
  after_generation : TimerGeneration;
  after_delay : Duration
}.
Arguments mkScheduleAfter {Target} _ _ _.
Arguments after_target {Target} _.
Arguments after_generation {Target} _.
Arguments after_delay {Target} _.

Record TimerElapsed (Target : Type) := mkTimerElapsed {
  elapsed_target : Target;
  elapsed_generation : TimerGeneration
}.
Arguments mkTimerElapsed {Target} _ _.
Arguments elapsed_target {Target} _.
Arguments elapsed_generation {Target} _.

(** ** The re-armable lifecycle ([domain.rs]) *)

Inductive TimerAdmission : Type := Accepted | Ignored.

Inductive TimerLease : Type :=
| NeverIssued
| Armed (g : TimerGeneration)
| Idle (g : TimerGeneration)
| Exhausted.

Definition lease_new : TimerLease := NeverIssued.

(** [TimerLease::arm]. *)
Definition arm (l : TimerLease) : TimerLease * option TimerGeneration :=
  match l with
  | NeverIssued => (Armed (mkTimerGeneration 0), Some (mkTimerGeneration 0))
  | Armed previous | Idle previous =>
      match checked_add u64_max (generation_number previous) 1 with
      | None => (Exhausted, None)
      | Some next => (Armed (mkTimerGeneration next), Some (mkTimerGeneration next))
      end
  | Exhausted => (Exhausted, None)
  end.

(** [TimerLease::accept]. *)
Definition accept (l : TimerLease) (g : TimerGeneration) : TimerLease * TimerAdmission :=
  match l with
  | Armed live => if bool_decide (live = g) then (Idle live, Accepted) else (l, Ignored)
  | _ => (l, Ignored)
  end.

(** [TimerLease::disarm]. *)
Definition disarm (l : TimerLease) : TimerLease :=
  match l with Armed g => Idle g | _ => l end.

(** ** The one-shot absolute schedule *)

Inductive OneShotSchedule : Type :=
| Unscheduled
| Scheduled (g : TimerGeneration) (at_ : Instant).

Definition schedule_new (at_ : option Instant) : OneShotSchedule :=
  match at_ with None => Unscheduled | Some i => Scheduled (mkTimerGeneration 0) i end.

Definition schedule_request (s : OneShotSchedule) : option (TimerGeneration * Instant) :=
  match s with Unscheduled => None | Scheduled g i => Some (g, i) end.

Definition schedule_accept (s : OneShotSchedule) (g : TimerGeneration) :
  OneShotSchedule * TimerAdmission :=
  match s with
  | Scheduled expected _ => if bool_decide (expected = g) then (Unscheduled, Accepted) else (s, Ignored)
  | Unscheduled => (s, Ignored)
  end.

Definition schedule_cancel (s : OneShotSchedule) : OneShotSchedule := Unscheduled.

(** ** What a lifecycle remembers of its past

    [issued] lists the generations handed out by [arm], [consumed] the
    generations whose evidence was accepted. *)

Definition consecutive (l : list TimerGeneration) : Prop :=
  forall i g, l !! i = Some g -> generation_number g = N.of_nat i.

Definition increasing_below (bound : N) (l : list TimerGeneration) : Prop :=
  StronglySorted (fun a b => (generation_number a < generation_number b)%N) l /\
  Forall (fun g => (generation_number g < bound)%N) l.

Record lease_history (l : TimerLease) (issued consumed : list TimerGeneration) : Prop := {
  history_consecutive : consecutive issued;
  history_bound : (N.of_nat (length issued) <= u64_max + 1)%N;
  history_consumed : increasing_below
    (match l with Armed g => generation_number g | _ => N.of_nat (length issued) end) consumed;
  history_live : match l with
    | NeverIssued => issued = []
    | Armed g | Idle g => N.of_nat (length issued) = (generation_number g + 1)%N
    | Exhausted => N.of_nat (length issued) = (u64_max + 1)%N
    end
}.

Lemma increasing_below_weaken b b' l : (b <= b')%N -> increasing_below b l -> increasing_below b' l.
Proof.
  intros Hb [Hs Hf]. split; [done|]. rewrite Forall_forall in Hf |- *.
  intros g Hg. specialize (Hf g Hg). lia.
Qed.

Lemma increasing_below_snoc g l :
  increasing_below (generation_number g) l -> increasing_below (generation_number g + 1) (l ++ [g]).
Proof.
  intros [Hs Hf]. split.
  - clear -Hs Hf. induction l as [|a l IH]; simpl; [repeat constructor|].
    inversion Hs as [|? ? Hs' Ha]; subst. inversion Hf; subst.
    constructor; [auto|]. apply Forall_app. auto.
  - apply Forall_app. split; [|repeat constructor; lia].
    rewrite Forall_forall in Hf |- *. intros x Hx. specialize (Hf x Hx). lia.
Qed.

Lemma consecutive_snoc l g :
  consecutive l -> generation_number g = N.of_nat (length l) -> consecutive (l ++ [g]).
Proof.
  intros Hc Hg i x Hi. destruct (decide (i < length l)) as [Hlt|Hge].
  - rewrite lookup_app_l in Hi by done. by apply Hc.
  - rewrite lookup_app_r in Hi by lia. destruct (i - length l) as [|k] eqn:Hk; [|discriminate].
    injection Hi as <-. rewrite Hg. f_equal. lia.
Qed.

Lemma history_new : lease_history lease_new [] [].
Proof. split; try done; [split; constructor]. Qed.

(** Arming issues the next generation, or nothing once the domain is spent. *)
Lemma history_arm l issued consumed : lease_history l issued consumed ->
  lease_history (fst (arm l)) (issued ++ option_list (snd (arm l))) consumed.
Proof.
  intros [Hc Hb Hi Hl]. unfold arm.
  assert (Hnext : forall g, N.of_nat (length issued) = generation_number g ->
    (generation_number g <= u64_max)%N ->
    increasing_below (N.of_nat (length issued)) consumed ->
    lease_history (Armed g) (issued ++ [g]) consumed).
  { intros g Hg Hgm Hinc. split; simpl; rewrite ?length_app; simpl.
    - by apply consecutive_snoc.
    - lia.
    - by rewrite <- Hg.
    - lia. }
  destruct l as [|g|g|]; simpl.
  - apply Hnext; subst; done.
  - destruct (checked_add u64_max (generation_number g) 1) as [n|] eqn:Hn; simpl.
    + apply checked_add_Some in Hn as [-> Hle]. apply Hnext; simpl; [lia|lia|].
      eapply increasing_below_weaken; [|exact Hi]. lia.
    + apply checked_add_None in Hn. rewrite app_nil_r. split; auto; [|lia].
      eapply increasing_below_weaken; [|exact Hi]. lia.
  - destruct (checked_add u64_max (generation_number g) 1) as [n|] eqn:Hn; simpl.
    + apply checked_add_Some in Hn as [-> Hle]. apply Hnext; simpl; [lia|lia|done].
    + apply checked_add_None in Hn. rewrite app_nil_r. split; auto. lia.
  - rewrite app_nil_r. by split.
Qed.

(** The generation consumed by evidence, when it is accepted. *)
Definition consumed_by (l : TimerLease) (g : TimerGeneration) : list TimerGeneration :=
  match snd (accept l g) with Accepted => [g] | Ignored => [] end.

Lemma history_accept l g issued consumed : lease_history l issued consumed ->
  lease_history (fst (accept l g)) issued (consumed ++ consumed_by l g).
Proof.
  intros [Hc Hb Hi Hl]. unfold consumed_by, accept.
  destruct l as [|live|live|]; simpl; try (rewrite app_nil_r; by split).
  case_bool_decide as Heq; simpl; [subst live|rewrite app_nil_r; by split].
  split; simpl; auto. rewrite Hl. by apply increasing_below_snoc.
Qed.

(** Evidence is accepted only for the last generation issued, and only once. *)
Lemma history_accepts_last l g issued consumed : lease_history l issued consumed ->
  consumed_by l g = [g] -> last issued = Some g /\ g ∉ consumed.
Proof.
  intros [Hc Hb [_ Hf] Hl]. unfold consumed_by, accept.
  destruct l as [|live|live|]; simpl; try discriminate.
  case_bool_decide as Heq; simpl; [subst live; intros _|discriminate]. split.
  - destruct issued as [|x issued _] using rev_ind; [simpl in Hl; lia|].
    rewrite last_snoc. rewrite length_app in Hl; simpl in Hl.
    specialize (Hc (length issued) x).
    rewrite list_lookup_middle in Hc by done. specialize (Hc eq_refl).
    f_equal. destruct x as [x], g as [g]; simpl in *. f_equal. lia.
  - intros Hin. rewrite Forall_forall in Hf. specialize (Hf g Hin). lia.
Qed.

Lemma history_disarm l issued consumed :
  lease_history l issued consumed -> lease_history (disarm l) issued consumed.
Proof.
  intros [Hc Hb Hi Hl]. destruct l; simpl; split; auto.
  eapply increasing_below_weaken; [|exact Hi]. lia.
Qed.

(** ** Steps of a fold that owns one lifecycle

    A step emits schedules and consumes evidence; the history of the lifecycle
    follows the run. *)

Definition lease_step (l l' : TimerLease) (emitted accepted : list TimerGeneration) : Prop :=
  forall issued consumed, lease_history l issued consumed ->
    lease_history l' (issued ++ emitted) (consumed ++ accepted).

Lemma lease_step_refl l : lease_step l l [] [].
Proof. intros i c. by rewrite !app_nil_r. Qed.

Lemma lease_step_arm l : lease_step l (fst (arm l)) (option_list (snd (arm l))) [].
Proof. intros i c H. rewrite app_nil_r. by apply history_arm. Qed.

Lemma lease_step_disarm l : lease_step l (disarm l) [] [].
Proof. intros i c H. rewrite !app_nil_r. by apply history_disarm. Qed.

Lemma lease_step_accept l g : lease_step l (fst (accept l g)) [] (consumed_by l g).
Proof. intros i c H. rewrite app_nil_r. by apply history_accept. Qed.

Lemma lease_step_trans l1 l2 l3 e1 a1 e2 a2 :
  lease_step l1 l2 e1 a1 -> lease_step l2 l3 e2 a2 -> lease_step l1 l3 (e1 ++ e2) (a1 ++ a2).
Proof. intros H1 H2 i c H. rewrite !app_assoc. by apply H2, H1. Qed.

#[export] Hint Resolve lease_step_refl lease_step_arm lease_step_disarm lease_step_accept : bombay.

(** Generations of one timer lifecycle: whatever sequence of [arm],
    [accept] and [disarm] is applied to a new lifecycle, the issued generations
    are 0, 1, 2, ... without a gap or repetition and stay within [u64]; evidence
    is accepted at most once per generation, in increasing order, and only for
    the last generation issued; and once the domain is spent nothing is issued
    any more. *)
Theorem timer_lease_generations (ops : list (TimerGeneration + bool)) :
  let step (s : TimerLease * (list TimerGeneration * list TimerGeneration)) op :=
    let '(l, (gens, consumed)) := s in
    match op with
    | inl g => (fst (accept l g), (gens, consumed ++ consumed_by l g))
    | inr true => (fst (arm l), (gens ++ option_list (snd (arm l)), consumed))
    | inr false => (disarm l, (gens, consumed))
    end in
  let '(l, (gens, consumed)) := run step (lease_new, ([], [])) ops in
  (forall i g, gens !! i = Some g -> generation_number g = N.of_nat i) /\
  (N.of_nat (length gens) <= u64_max + 1)%N /\
  StronglySorted (fun a b => (generation_number a < generation_number b)%N) consumed /\
  (forall g, consumed_by l g = [g] -> last gens = Some g /\ g ∉ consumed) /\
  (l = Exhausted -> N.of_nat (length gens) = (u64_max + 1)%N).
Proof.
  intros step.
  assert (Hinv : forall es l i c, lease_history l i c ->
    let '(l', (i', c')) := run step (l, (i, c)) es in lease_history l' i' c').
  { intros es. induction es as [|[g|[]] es IH]; intros l i c H; simpl; [exact H|apply IH..].
    - by apply history_accept.
    - by apply history_arm.
    - by apply history_disarm. }
  specialize (Hinv ops _ _ _ history_new). destruct (run step _ ops) as [l [gens consumed]].
  split_and!; try apply Hinv.
  - intros g. by apply history_accepts_last.
  - intros ->. apply Hinv.
Qed.
