(* ===== verification/TimedBehaviors.v ===== *)
(** * Timer compositions ([crates/actors/src/time])

    [OneShot], [Periodic], [ReceiveTimeout] and [Deadline] wrap a behavior with
    one timer lifecycle.  What the three relative timers have in common is the
    interface [TimedWrapper]; its theorems are proved once, against the
    interface, and each wrapper discharges it.  The immutable fields (delay,
    reaction) are parameters of the sections. *)

From stdpp Require Import base list option numbers sorting.
From S2P Require Import Prelude Effects Timers.

(** ** The shared shape *)

Section Interface.
  Context {St Ev Ch Ph Sends E : Type} `{!SendEffects Sends}.
  Context (B : Behavior St Ev Ch Ph Sends E).
  Context (on_elapsed : St -> St * Actions Ch Ph Sends).

Abbreviation event := (EventLayer (TimerElapsed Here) Ev).
Abbreviation timed_sends := (SendLayer (InterpreterRequests (ScheduleAfter Here)) Sends).
Abbreviation acted := (Acted Ch Ph timed_sends E).

(** The wrapped behavior's own result inside a wrapper's result. *)
Definition inner_acted (o : acted) : Acted Ch Ph Sends E := map_result (map_sends inner) o.

(** Generations a step asked the clock service to schedule. *)
Definition schedules_of (o : acted) : list TimerGeneration :=
  match o with Ok a => after_generation <$> requests (owned (sends a)) | Err _ => [] end.

(** Generations whose evidence an event brings and the lifecycle accepts. *)
Definition consumed_event (l : TimerLease) (e : event) : list TimerGeneration :=
  match e with Owned_ el => consumed_by l (elapsed_generation el) | Inner_ _ => [] end.

(** What the wrapped behavior experiences: its own events and timer reactions. *)
Definition react (s : St) (e : unit + Ev) : St * Acted Ch Ph Sends E :=
  match e with
  | inl _ => let '(s', a) := on_elapsed s in (s', Ok a)
  | inr ev => delegate_transition B s ev
  end.

(** The wrapper's event, as the wrapped behavior experiences it. *)
Definition effective (l : TimerLease) (e : event) : option (unit + Ev) :=
  match e with
  | Inner_ ev => Some (inr ev)
  | Owned_ el =>
      match snd (accept l (elapsed_generation el)) with
      | Accepted => Some (inl tt)
      | Ignored => None
      end
  end.

Class TimedWrapper (W : Type) (lease_of : W -> TimerLease) (inner_of : W -> St)
  (step : W -> event -> W * acted) : Prop := {
  wrapper_lease w e :
    lease_step (lease_of w) (lease_of (fst (step w e)))
      (schedules_of (snd (step w e))) (consumed_event (lease_of w) e);
  wrapper_effective w e x : effective (lease_of w) e = Some x ->
    react (inner_of w) x = (inner_of (fst (step w e)), inner_acted (snd (step w e)));
  wrapper_ignored w e : effective (lease_of w) e = None ->
    step w e = (w, Ok cont)
}.

Section Runs.
  Context {W : Type} {lease_of : W -> TimerLease} {inner_of : W -> St}.
  Context {step : W -> event -> W * acted} `{!TimedWrapper W lease_of inner_of step}.

(** Evidence consumed along a run. *)
Fixpoint consumed_run (w : W) (es : list event) : list TimerGeneration :=
  match es with
  | [] => []
  | e :: es => consumed_event (lease_of w) e ++ consumed_run (fst (step w e)) es
  end.

(** What the wrapped behavior experiences along a run, and answers. *)
Fixpoint experienced (w : W) (es : list event) : list (unit + Ev) :=
  match es with
  | [] => []
  | e :: es => option_list (effective (lease_of w) e) ++ experienced (fst (step w e)) es
  end.

Fixpoint answered (w : W) (es : list event) : list (Acted Ch Ph Sends E) :=
  match es with
  | [] => []
  | e :: es =>
      (match effective (lease_of w) e with
       | Some _ => [inner_acted (snd (step w e))]
       | None => []
       end) ++ answered (fst (step w e)) es
  end.

Lemma wrapper_run_lease es : forall w,
  lease_step (lease_of w) (lease_of (fst (trace step w es)))
    (collect (fun _ o => schedules_of o) es (snd (trace step w es))) (consumed_run w es).
Proof.
  induction es as [|e es IH]; intros w; simpl; [apply lease_step_refl|].
  pose proof (wrapper_lease w e) as Hl. destruct (step w e) as [w1 o]. specialize (IH w1).
  simpl in *. destruct (trace step w1 es) as [w2 os]. simpl in *. by eapply lease_step_trans.
Qed.

Lemma wrapper_run_transparent es : forall w,
  trace react (inner_of w) (experienced w es) =
    (inner_of (fst (trace step w es)), answered w es).
Proof.
  induction es as [|e es IH]; intros w; simpl; [done|].
  specialize (IH (fst (step w e))).
  destruct (effective (lease_of w) e) as [x|] eqn:Heff; simpl.
  - rewrite (wrapper_effective w e x Heff). cbn [fst snd]. rewrite IH. destruct (step w e) as [w1 o]. simpl.
    by destruct (trace step w1 es).
  - rewrite (wrapper_ignored w e Heff) in *. simpl in *. rewrite IH. by destruct (trace step w es).
Qed.

(** The generation facts of a run that starts with the lifecycle [lease_of w]. *)
Lemma wrapper_run_generations w es issued0 :
  lease_history (lease_of w) issued0 [] ->
  let '(w', os) := trace step w es in
  let emitted := issued0 ++ collect (fun _ o => schedules_of o) es os in
  consecutive emitted /\
  StronglySorted (fun a b => (generation_number a < generation_number b)%N) (consumed_run w es) /\
  (forall el, effective (lease_of w') (Owned_ el) = Some (inl tt) ->
     last emitted = Some (elapsed_generation el) /\ elapsed_generation el ∉ consumed_run w es).
Proof.
  intros H0. pose proof (wrapper_run_lease es w _ _ H0) as H.
  destruct (trace step w es) as [w' os]. simpl in *. split_and!; [apply H..|].
  intros el Hel. apply (history_accepts_last _ _ _ _ H).
  unfold consumed_by. revert Hel. unfold effective.
  by destruct (snd (accept (lease_of w') (elapsed_generation el))).
Qed.

End Runs.
End Interface.

(** ** Relative timers *)

Section Relative.
  Context {St Ev Ch Ph Sends E A M : Type} `{!SendEffects Sends}.
  Context `{!UserEvent A M Ev}.
  Context (B : Behavior St Ev Ch Ph Sends E).
  Context (on_elapsed : St -> St * Actions Ch Ph Sends) (after : Duration).

Abbreviation event := (EventLayer (TimerElapsed Here) Ev).
Abbreviation timed_sends := (SendLayer (InterpreterRequests (ScheduleAfter Here)) Sends).
Abbreviation acted := (Acted Ch Ph timed_sends E).

(** The state every relative timer keeps: the wrapped state and its lifecycle. *)
Record Timed := mkTimed { timed_inner : St; lease : TimerLease }.

(** [schedule], the same in the three wrappers. *)
Definition schedule (l : TimerLease) : TimerLease * InterpreterRequests (ScheduleAfter Here) :=
  let '(l', g) := arm l in
  (l', match g with
       | None => sends_empty
       | Some g => InterpreterRequests_one (mkScheduleAfter the_Here g after)
       end).

(** [wrap]. *)
Definition wrap (a : Actions Ch Ph Sends) (r : InterpreterRequests (ScheduleAfter Here)) :
  Actions Ch Ph timed_sends := map_sends (mkSendLayer r) a.

(** Disarm when the actions stop, otherwise schedule the next generation. *)
Definition wrap_and_rearm (i : St) (l : TimerLease) (a : Actions Ch Ph Sends) : Timed * acted :=
  if is_stop (become_ a) then (mkTimed i (disarm l), Ok (wrap a sends_empty))
  else let '(l', r) := schedule l in (mkTimed i l', Ok (wrap a r)).

(** *** [OneShot] *)

Definition one_shot_init (w : Timed) : Timed * acted :=
  match initialize B (timed_inner w) with
  | (i, Err e) => (mkTimed i (lease w), Err e)
  | (i, Ok a) => wrap_and_rearm i (lease w) a
  end.

Definition one_shot_transition (w : Timed) (e : event) : Timed * acted :=
  match e with
  | Owned_ el =>
      match accept (lease w) (elapsed_generation el) with
      | (l, Accepted) =>
          let '(i, a) := on_elapsed (timed_inner w) in (mkTimed i l, Ok (wrap a sends_empty))
      | (l, Ignored) => (mkTimed (timed_inner w) l, Ok cont)
      end
  | Inner_ ev =>
      let '(i, a) := delegate_transition B (timed_inner w) ev in
      (mkTimed i (lease w), map_result (fun a => wrap a sends_empty) a)
  end.

(** *** [Periodic] *)

Definition periodic_init (w : Timed) : Timed * acted :=
  match initialize B (timed_inner w) with
  | (i, Err e) => (mkTimed i (lease w), Err e)
  | (i, Ok a) => wrap_and_rearm i (lease w) a
  end.

Definition periodic_transition (w : Timed) (e : event) : Timed * acted :=
  match e with
  | Owned_ el =>
      match accept (lease w) (elapsed_generation el) with
      | (l, Accepted) => let '(i, a) := on_elapsed (timed_inner w) in wrap_and_rearm i l a
      | (l, Ignored) => (mkTimed (timed_inner w) l, Ok cont)
      end
  | Inner_ ev =>
      match delegate_transition B (timed_inner w) ev with
      | (i, Err e) => (mkTimed i (lease w), Err e)
      | (i, Ok a) =>
          (mkTimed i (if is_stop (become_ a) then disarm (lease w) else lease w),
           Ok (wrap a sends_empty))
      end
  end.

(** *** [ReceiveTimeout] *)

Definition receive_timeout_init (w : Timed) : Timed * acted :=
  match initialize B (timed_inner w) with
  | (i, Err e) => (mkTimed i (lease w), Err e)
  | (i, Ok a) => wrap_and_rearm i (lease w) a
  end.

Definition receive_timeout_transition (w : Timed) (e : event) : Timed * acted :=
  match e with
  | Owned_ el =>
      match accept (lease w) (elapsed_generation el) with
      | (l, Accepted) =>
          let '(i, a) := on_elapsed (timed_inner w) in (mkTimed i l, Ok (wrap a sends_empty))
      | (l, Ignored) => (mkTimed (timed_inner w) l, Ok cont)
      end
  | Inner_ ev =>
      match into_user ev with
      | Ok u =>
          match delegate_transition B (timed_inner w) (user (from u) (message u)) with
          | (i, Err e) => (mkTimed i (lease w), Err e)
          | (i, Ok a) => wrap_and_rearm i (lease w) a
          end
      | Err service =>
          match delegate_transition B (timed_inner w) service with
          | (i, Err e) => (mkTimed i (lease w), Err e)
          | (i, Ok a) =>
              (mkTimed i (if is_stop (become_ a) then disarm (lease w) else lease w),
               Ok (wrap a sends_empty))
          end
      end
  end.

(** ** The three wrappers implement the interface *)

Lemma wrap_and_rearm_spec i l a :
  timed_inner (fst (wrap_and_rearm i l a)) = i /\
  inner_acted (snd (wrap_and_rearm i l a)) = Ok a /\
  lease_step l (lease (fst (wrap_and_rearm i l a))) (schedules_of (snd (wrap_and_rearm i l a))) [].
Proof.
  unfold wrap_and_rearm, schedule. pose proof (lease_step_arm l) as Ha.
  destruct (is_stop (become_ a)); simpl; [by destruct a; auto with bombay|].
  destruct (arm l) as [l' [g|]]; simpl in *; by destruct a.
Qed.

Lemma accept_ignored l g : snd (accept l g) = Ignored -> fst (accept l g) = l.
Proof. destruct l; simpl; try done. by case_bool_decide. Qed.

#[export] Instance OneShot_TimedWrapper :
  TimedWrapper B on_elapsed Timed lease timed_inner one_shot_transition.
Proof.
  split.
  - intros w [el|ev]; simpl.
    + pose proof (lease_step_accept (lease w) (elapsed_generation el)) as H.
      destruct (accept (lease w) (elapsed_generation el)) as [l []]; [|done].
      by destruct (on_elapsed (timed_inner w)).
    + destruct (delegate_transition B (timed_inner w) ev) as [i [a|err]]; simpl; auto with bombay.
  - intros w [el|ev] x; simpl.
    + destruct (accept (lease w) (elapsed_generation el)) as [l []]; [|discriminate].
      intros [= <-]. simpl. destruct (on_elapsed (timed_inner w)) as [i a]. simpl.
      by destruct a.
    + intros [= <-]. simpl. destruct (delegate_transition B (timed_inner w) ev) as [i [a|err]];
        simpl; [by destruct a|done].
  - intros w [el|ev]; simpl; [|discriminate].
    pose proof (accept_ignored (lease w) (elapsed_generation el)) as Hi.
    destruct (accept (lease w) (elapsed_generation el)) as [l []]; [discriminate|]. intros _.
    simpl in Hi. rewrite Hi by done. by destruct w.
Qed.

#[export] Instance Periodic_TimedWrapper :
  TimedWrapper B on_elapsed Timed lease timed_inner periodic_transition.
Proof.
  split.
  - intros w [el|ev]; simpl.
    + pose proof (lease_step_accept (lease w) (elapsed_generation el)) as H.
      destruct (accept (lease w) (elapsed_generation el)) as [l []]; [|done].
      destruct (on_elapsed (timed_inner w)) as [i a]. simpl in H.
      destruct (wrap_and_rearm_spec i l a) as (_ & _ & Hr).
      pose proof (lease_step_trans _ _ _ _ _ _ _ H Hr) as Ht. by rewrite app_nil_r in Ht.
    + destruct (delegate_transition B (timed_inner w) ev) as [i [a|err]]; simpl; auto with bombay.
      destruct (is_stop (become_ a)); auto with bombay.
  - intros w [el|ev] x; simpl.
    + destruct (accept (lease w) (elapsed_generation el)) as [l []]; [|discriminate].
      intros [= <-]. simpl. destruct (on_elapsed (timed_inner w)) as [i a].
      by destruct (wrap_and_rearm_spec i l a) as (-> & -> & _).
    + intros [= <-]. simpl. destruct (delegate_transition B (timed_inner w) ev) as [i [a|err]];
        simpl; [by destruct a|done].
  - intros w [el|ev]; simpl; [|discriminate].
    pose proof (accept_ignored (lease w) (elapsed_generation el)) as Hi.
    destruct (accept (lease w) (elapsed_generation el)) as [l []]; [discriminate|]. intros _.
    simpl in Hi. rewrite Hi by done. by destruct w.
Qed.

#[export] Instance ReceiveTimeout_TimedWrapper `{!UserEventLaws A M Ev} :
  TimedWrapper B on_elapsed Timed lease timed_inner receive_timeout_transition.
Proof.
  split.
  - intros w [el|ev]; simpl.
    + pose proof (lease_step_accept (lease w) (elapsed_generation el)) as H.
      destruct (accept (lease w) (elapsed_generation el)) as [l []]; [|done].
      by destruct (on_elapsed (timed_inner w)).
    + destruct (into_user ev) as [u|service].
      * destruct (delegate_transition B (timed_inner w) _) as [i [a|err]]; simpl; auto with bombay.
        apply wrap_and_rearm_spec.
      * destruct (delegate_transition B (timed_inner w) service) as [i [a|err]]; simpl;
          auto with bombay. destruct (is_stop (become_ a)); auto with bombay.
  - intros w [el|ev] x; simpl.
    + destruct (accept (lease w) (elapsed_generation el)) as [l []]; [|discriminate].
      intros [= <-]. simpl. destruct (on_elapsed (timed_inner w)) as [i a]. simpl.
      by destruct a.
    + intros [= <-]. simpl. destruct (into_user ev) as [u|service] eqn:Hu.
      * rewrite (into_user_Ok _ _ Hu).
        destruct (delegate_transition B (timed_inner w) ev) as [i [a|err]]; simpl; [|done].
        by destruct (wrap_and_rearm_spec i (lease w) a) as (-> & -> & _).
      * rewrite (into_user_Err _ _ Hu).
        destruct (delegate_transition B (timed_inner w) ev) as [i [a|err]]; simpl;
          [by destruct a|done].
  - intros w [el|ev]; simpl; [|discriminate].
    pose proof (accept_ignored (lease w) (elapsed_generation el)) as Hi.
    destruct (accept (lease w) (elapsed_generation el)) as [l []]; [discriminate|]. intros _.
    simpl in Hi. rewrite Hi by done. by destruct w.
Qed.

(** Timer compositions are transparent: along any run of [OneShot],
    [Periodic] or [ReceiveTimeout], the wrapped behavior ends in the state, and
    gives the results, that it gives when run alone on what it experienced: its
    own events in order, with one timer reaction where evidence was accepted;
    stale and duplicate evidence is invisible to it. *)
Theorem relative_timers_transparent `{!UserEventLaws A M Ev} (w : Timed) (es : list event) :
  trace (react B on_elapsed) (timed_inner w)
      (experienced (lease_of := lease) (step := one_shot_transition) w es) =
    (timed_inner (fst (trace one_shot_transition w es)),
     answered (lease_of := lease) (step := one_shot_transition) w es) /\
  trace (react B on_elapsed) (timed_inner w)
      (experienced (lease_of := lease) (step := periodic_transition) w es) =
    (timed_inner (fst (trace periodic_transition w es)),
     answered (lease_of := lease) (step := periodic_transition) w es) /\
  trace (react B on_elapsed) (timed_inner w)
      (experienced (lease_of := lease) (step := receive_timeout_transition) w es) =
    (timed_inner (fst (trace receive_timeout_transition w es)),
     answered (lease_of := lease) (step := receive_timeout_transition) w es).
Proof. split_and!; apply wrapper_run_transparent; apply _. Qed.

(** ** Liveness of the periodic timer *)

Definition not_stopped (o : acted) : Prop :=
  match o with Ok a => is_stop (become_ a) = false | Err _ => True end.

Definition continues (o : acted) : Prop :=
  match o with Ok a => is_stop (become_ a) = false | Err _ => False end.

(** The timer is armed, or its generations are used up. *)
Definition ticking (l : TimerLease) : Prop :=
  match l with Armed _ | Exhausted => True | _ => False end.

Lemma arm_ticking l : ticking (fst (arm l)).
Proof. destruct l; simpl; try done; by destruct (checked_add _ _ _). Qed.

Lemma wrap_and_rearm_ticking i l a :
  not_stopped (snd (wrap_and_rearm i l a)) -> ticking (lease (fst (wrap_and_rearm i l a))).
Proof.
  unfold wrap_and_rearm, schedule. pose proof (arm_ticking l).
  destruct (is_stop (become_ a)) eqn:Hs; simpl; [by rewrite Hs|]. by destruct (arm l).
Qed.

Lemma periodic_step_ticking w e :
  ticking (lease w) -> not_stopped (snd (periodic_transition w e)) ->
  ticking (lease (fst (periodic_transition w e))).
Proof.
  intros Ht. destruct e as [el|ev]; simpl.
  - pose proof (accept_ignored (lease w) (elapsed_generation el)) as Hi.
    destruct (accept (lease w) (elapsed_generation el)) as [l []]; simpl in *.
    + destruct (on_elapsed (timed_inner w)). apply wrap_and_rearm_ticking.
    + by rewrite Hi.
  - destruct (delegate_transition B (timed_inner w) ev) as [i [a|err]]; simpl; [|done].
    by intros ->.
Qed.

Lemma periodic_run_ticking es : forall w,
  ticking (lease w) -> Forall not_stopped (snd (trace periodic_transition w es)) ->
  ticking (lease (fst (trace periodic_transition w es))).
Proof.
  induction es as [|e es IH]; intros w Ht; simpl; [done|].
  pose proof (periodic_step_ticking w e Ht) as Hs.
  destruct (periodic_transition w e) as [w1 o]. specialize (IH w1).
  destruct (trace periodic_transition w1 es) as [w2 os]. simpl in *.
  intros [Ho Hos]%Forall_cons. auto.
Qed.

(** The periodic timer: from a new wrapper, the scheduled generations are
    0, 1, 2, ... in order; each generation's evidence triggers at most one
    reaction, in increasing order, and only for the last generation scheduled;
    and as long as initialization continued and no step stopped the actor, the
    timer is armed with the last generation scheduled (or the generations are
    used up), so it never falls silent. *)
Theorem periodic_ticks i es :
  let '(w0, o0) := periodic_init (mkTimed i lease_new) in
  let '(w', os) := trace periodic_transition w0 es in
  let emitted := schedules_of o0 ++ collect (fun _ o => schedules_of o) es os in
  (forall k g, emitted !! k = Some g -> generation_number g = N.of_nat k) /\
  StronglySorted (fun a b => (generation_number a < generation_number b)%N)
    (consumed_run (lease_of := lease) (step := periodic_transition) w0 es) /\
  (forall el, effective (lease w') (Owned_ el : event) = Some (inl tt) ->
     last emitted = Some (elapsed_generation el) /\
     elapsed_generation el ∉
       consumed_run (lease_of := lease) (step := periodic_transition) w0 es) /\
  (continues o0 -> Forall not_stopped os ->
     match lease w' with
     | Armed g => N.of_nat (length emitted) = (generation_number g + 1)%N
     | Exhausted => N.of_nat (length emitted) = (u64_max + 1)%N
     | _ => False
     end).
Proof.
  assert (Hinit : let '(w0, o0) := periodic_init (mkTimed i lease_new) in
    lease_history (lease w0) (schedules_of o0) [] /\ (continues o0 -> ticking (lease w0))).
  { unfold periodic_init; simpl. destruct (initialize B i) as [i' [a|err]]; simpl.
    - destruct (wrap_and_rearm_spec i' lease_new a) as (_ & _ & Hl).
      pose proof (wrap_and_rearm_ticking i' lease_new a) as Ht.
      specialize (Hl [] [] history_new). simpl in Hl.
      destruct (wrap_and_rearm i' lease_new a) as [w0 o0]. simpl in *.
      split; [done|]. destruct o0; simpl in *; [auto|done].
    - split; [apply history_new|done]. }
  destruct (periodic_init (mkTimed i lease_new)) as [w0 o0]. destruct Hinit as [Hh Ht].
  pose proof (wrapper_run_generations B on_elapsed (step := periodic_transition) w0 es _ Hh) as Hg.
  pose proof (wrapper_run_lease B on_elapsed (step := periodic_transition) es w0 _ _ Hh) as Hl.
  pose proof (periodic_run_ticking es w0) as Htick.
  destruct (trace periodic_transition w0 es) as [w' os]. simpl in *.
  destruct Hg as (H1 & H2 & H3). split_and!; [done|done|done|].
  intros Hc Hos. specialize (Htick (Ht Hc) Hos). destruct Hl as [_ _ _ Hlive].
  by destruct (lease w').
Qed.

(** ** Inactivity of the receive timeout *)

(** A lifecycle in which generation [g] can never be accepted again. *)
Definition past (g : TimerGeneration) (l : TimerLease) : Prop :=
  match l with
  | NeverIssued => False
  | Armed g' => (generation_number g < generation_number g')%N
  | Idle g' => (generation_number g <= generation_number g')%N
  | Exhausted => True
  end.

Lemma past_arm g l : past g l \/ l = Armed g -> past g (fst (arm l)).
Proof.
  unfold arm. intros [Hp| ->]; [destruct l as [|g'|g'|]; simpl in *; try done|]; simpl;
    destruct (checked_add u64_max _ 1) eqn:Hc; simpl; auto;
    apply checked_add_Some in Hc as [-> _]; lia.
Qed.

Lemma past_disarm g l : past g l -> past g (disarm l).
Proof. destruct l; simpl; auto. lia. Qed.

Lemma past_accept g g' l : past g l -> past g (fst (accept l g')).
Proof. destruct l; simpl; auto. case_bool_decide; simpl; lia. Qed.

Lemma past_ignores g l : past g l -> snd (accept l g) = Ignored.
Proof. destruct l; simpl; auto. case_bool_decide; [subst; lia|done]. Qed.

Lemma wrap_and_rearm_past g i l a :
  past g l \/ (l = Armed g /\ is_stop (become_ a) = false) ->
  past g (lease (fst (wrap_and_rearm i l a))).
Proof.
  unfold wrap_and_rearm, schedule. pose proof (past_arm g l) as Ha.
  destruct (is_stop (become_ a)); simpl.
  - intros [H|[_ ?]]; [by apply past_disarm|discriminate].
  - destruct (arm l) as [l' r]. simpl in *. naive_solver.
Qed.

Lemma receive_timeout_past g w e :
  past g (lease w) -> past g (lease (fst (receive_timeout_transition w e))).
Proof.
  intros Hp. destruct e as [el|ev]; simpl.
  - pose proof (past_accept g (elapsed_generation el) _ Hp) as Ha.
    destruct (accept (lease w) (elapsed_generation el)) as [l []]; [|done].
    by destruct (on_elapsed (timed_inner w)).
  - destruct (into_user ev) as [u|service];
      destruct (delegate_transition B (timed_inner w) _) as [i [a|err]]; simpl; auto.
    + apply wrap_and_rearm_past. by left.
    + destruct (is_stop (become_ a)); auto using past_disarm.
Qed.

Lemma receive_timeout_run_past g es : forall w,
  past g (lease w) -> past g (lease (fst (trace receive_timeout_transition w es))).
Proof.
  intros w. apply (trace_invariant (fun w => past g (lease w))).
  intros. by apply receive_timeout_past.
Qed.

(** A successful, continuing user communication. *)
Definition activity (e : event) (o : acted) : Prop :=
  match e with
  | Inner_ ev => match into_user ev with Ok _ => continues o | Err _ => False end
  | Owned_ _ => False
  end.

Lemma receive_timeout_activity g w e :
  lease w = Armed g -> activity e (snd (receive_timeout_transition w e)) ->
  past g (lease (fst (receive_timeout_transition w e))).
Proof.
  intros Hl. destruct e as [el|ev]; simpl; [done|].
  destruct (into_user ev) as [u|service]; [|done].
  destruct (delegate_transition B (timed_inner w) _) as [i [a|err]]; simpl; [|done].
  intros Hc. apply wrap_and_rearm_past. right. split; [done|].
  revert Hc. unfold wrap_and_rearm, schedule.
  destruct (is_stop (become_ a)) eqn:Hs; simpl; [by rewrite Hs|done].
Qed.

(** A receive timeout measures inactivity: while a generation is armed,
    one successful continuing user communication makes its evidence stale for
    ever after, whatever else happens before or after it. *)
Theorem receive_timeout_measures_inactivity w g es1 e es2 el :
  lease (fst (trace receive_timeout_transition w es1)) = Armed g ->
  activity e (snd (receive_timeout_transition (fst (trace receive_timeout_transition w es1)) e)) ->
  elapsed_generation el = g ->
  let w' := fst (trace receive_timeout_transition
    (fst (receive_timeout_transition (fst (trace receive_timeout_transition w es1)) e)) es2) in
  receive_timeout_transition w' (Owned_ el) = (w', Ok cont).
Proof.
  intros Hl Ha Hg w'.
  assert (past g (lease w')) as Hp
    by (apply receive_timeout_run_past; by apply receive_timeout_activity).
  simpl. subst g. pose proof (past_ignores _ _ Hp) as Hi. pose proof (accept_ignored _ _ Hi) as Hi'.
  destruct (accept (lease w') (elapsed_generation el)) as [l ad]. simpl in *. subst.
  by destruct w'.
Qed.

End Relative.

(** ** The absolute deadline *)

Section Deadline.
  Context {St Ev Ch Ph Sends E : Type} `{!SendEffects Sends}.
  Context (B : Behavior St Ev Ch Ph Sends E).
  Context (on_reached : St -> St * Become Never).

Abbreviation event := (EventLayer (TimerElapsed Here) Ev).
Abbreviation deadline_sends := (SendLayer (InterpreterRequests (ScheduleAt Here)) Sends).
Abbreviation acted := (Acted Ch Ph deadline_sends E).

Record Deadline := mkDeadline { deadline_inner : St; deadline_schedule : OneShotSchedule }.

Definition deadline_new (i : St) (at_ : option Instant) : Deadline :=
  mkDeadline i (schedule_new at_).

Definition deadline_wrap (a : Actions Ch Ph Sends) (r : InterpreterRequests (ScheduleAt Here)) :
  Actions Ch Ph deadline_sends := map_sends (mkSendLayer r) a.

Definition deadline_init (w : Deadline) : Deadline * acted :=
  match initialize B (deadline_inner w) with
  | (i, Err e) => (mkDeadline i (deadline_schedule w), Err e)
  | (i, Ok a) =>
      if is_stop (become_ a) then
        (mkDeadline i (schedule_cancel (deadline_schedule w)), Ok (deadline_wrap a sends_empty))
      else
        (mkDeadline i (deadline_schedule w),
         Ok (deadline_wrap a
           match schedule_request (deadline_schedule w) with
           | None => sends_empty
           | Some (g, at_) => InterpreterRequests_one (mkScheduleAt the_Here g at_)
           end))
  end.

Definition deadline_transition (w : Deadline) (e : event) : Deadline * acted :=
  match e with
  | Owned_ el =>
      match schedule_accept (deadline_schedule w) (elapsed_generation el) with
      | (s, Accepted) =>
          let '(i, b) := on_reached (deadline_inner w) in
          (mkDeadline i s,
           Ok (just match b with
                    | Continue => Continue
                    | Goto never => match never with end
                    | Stop r => Stop r
                    end))
      | (s, Ignored) => (mkDeadline (deadline_inner w) s, Ok cont)
      end
  | Inner_ ev =>
      match delegate_transition B (deadline_inner w) ev with
      | (i, Err e) => (mkDeadline i (deadline_schedule w), Err e)
      | (i, Ok a) =>
          (mkDeadline i
             (if is_stop (become_ a) then schedule_cancel (deadline_schedule w)
              else deadline_schedule w),
           Ok (deadline_wrap a sends_empty))
      end
  end.

(** The requests of a step, and whether it ran the reaction. *)
Definition deadline_requests (o : acted) : list (ScheduleAt Here) :=
  match o with Ok a => requests (owned (sends a)) | Err _ => [] end.

Definition reached (w : Deadline) (e : event) : nat :=
  match e with
  | Owned_ el =>
      match snd (schedule_accept (deadline_schedule w) (elapsed_generation el)) with
      | Accepted => 1
      | Ignored => 0
      end
  | Inner_ _ => 0
  end.

Fixpoint reached_run (w : Deadline) (es : list event) : nat :=
  match es with
  | [] => 0
  | e :: es => reached w e + reached_run (fst (deadline_transition w e)) es
  end.

(** Reactions that the schedule still allows. *)
Definition allowance (s : OneShotSchedule) : nat :=
  match s with Unscheduled => 0 | Scheduled _ _ => 1 end.

Definition stopped (o : acted) : bool :=
  match o with Ok a => is_stop (become_ a) | Err _ => false end.

Lemma deadline_step w e :
  reached w e + allowance (deadline_schedule (fst (deadline_transition w e))) <=
    allowance (deadline_schedule w) /\
  deadline_requests (snd (deadline_transition w e)) = [] /\
  (stopped (snd (deadline_transition w e)) = true ->
     deadline_schedule (fst (deadline_transition w e)) = Unscheduled).
Proof.
  destruct e as [el|ev]; simpl.
  - destruct (deadline_schedule w) as [|g i] eqn:Hs; simpl; [by split_and!|].
    case_bool_decide; simpl; [|by split_and!].
    destruct (on_reached (deadline_inner w)) as [i' b]. simpl. by split_and!.
  - destruct (delegate_transition B (deadline_inner w) ev) as [i [a|err]]; simpl; [|by split_and!].
    destruct (is_stop (become_ a)) eqn:Hs; simpl; rewrite ?Hs; split_and!; try done; lia.
Qed.

Lemma deadline_run es : forall w,
  let '(w', os) := trace deadline_transition w es in
  reached_run w es + allowance (deadline_schedule w') <= allowance (deadline_schedule w) /\
  collect (fun _ o => deadline_requests o) es os = [] /\
  (existsb stopped os = true -> deadline_schedule w' = Unscheduled).
Proof.
  induction es as [|e es IH]; intros w; simpl; [split_and!; auto; discriminate|].
  destruct (deadline_step w e) as (Hr & Hq & Hst). specialize (IH (fst (deadline_transition w e))).
  destruct (deadline_transition w e) as [w1 o]. simpl in *.
  destruct (trace deadline_transition w1 es) as [w2 os]. destruct IH as (Hr2 & Hq2 & Hst2).
  cbn [collect existsb]. rewrite Hq, Hq2. split_and!; [lia|done|].
  destruct (stopped o); simpl; [|done]. intros _. specialize (Hst eq_refl).
  rewrite Hst in Hr2. simpl in Hr2. destruct (deadline_schedule w2); [done|simpl in Hr2; lia].
Qed.

(** The deadline fires at most once: from a new wrapper, the only request
    is made by an initialization that continues, for exactly the configured
    instant; along any run the reaction runs at most once, never without a
    deadline, and once a step stopped the actor the schedule is gone and no
    later evidence runs the reaction. *)
Theorem deadline_fires_at_most_once i at_ es es' :
  let '(w0, o0) := deadline_init (deadline_new i at_) in
  let '(w', os) := trace deadline_transition w0 es in
  (match o0 with
   | Ok a => at_instant <$> requests (owned (sends a)) =
       if is_stop (become_ a) then [] else option_list at_
   | Err _ => True
   end) /\
  collect (fun _ o => deadline_requests o) es os = [] /\
  reached_run w0 es <= length (option_list at_) /\
  (stopped o0 = true \/ existsb stopped os = true -> reached_run w' es' = 0).
Proof.
  assert (Hinit : let '(w0, o0) := deadline_init (deadline_new i at_) in
    allowance (deadline_schedule w0) <= length (option_list at_) /\
    (stopped o0 = true -> deadline_schedule w0 = Unscheduled) /\
    match o0 with
    | Ok a => at_instant <$> requests (owned (sends a)) =
        if is_stop (become_ a) then [] else option_list at_
    | Err _ => True
    end).
  { unfold deadline_init; simpl. destruct (initialize B i) as [i' [a|err]]; simpl.
    - destruct (is_stop (become_ a)) eqn:Hs; simpl; rewrite Hs.
      + split_and!; [lia|done|done].
      + split_and!; [by destruct at_; simpl; lia|discriminate|by destruct at_].
    - split_and!; [by destruct at_; simpl; lia|discriminate|done]. }
  destruct (deadline_init (deadline_new i at_)) as [w0 o0]. destruct Hinit as (Ha & Hs & Hreq).
  pose proof (deadline_run es w0) as Hrun.
  destruct (trace deadline_transition w0 es) as [w' os]. destruct Hrun as (Hr & Hq & Hst).
  split_and!; [done|done|lia|].
  intros Hstop. assert (allowance (deadline_schedule w') = 0) as Hz.
  { destruct Hstop as [H0|H1].
    - rewrite (Hs H0) in Hr. simpl in Hr. lia.
    - by rewrite (Hst H1). }
  pose proof (deadline_run es' w') as Hrun'.
  destruct (trace deadline_transition w' es') as [w2 os2]. lia.
Qed.

End Deadline.

(** ** A counter that counts messages, and adds ten at each timer reaction *)

Definition demo_inner : Behavior nat (User nat nat) Never Never (list nat) Never :=
  mkBehavior (fun s => (s, Ok cont)) (fun s u => (s + message u, Ok (send [s]))).

Definition demo_reaction (s : nat) : nat * Actions Never Never (list nat) := (s + 10, send [s]).

Definition tick (g : N) : EventLayer (TimerElapsed Here) (User nat nat) :=
  Owned_ (mkTimerElapsed the_Here (mkTimerGeneration g)).

Definition say (m : nat) : EventLayer (TimerElapsed Here) (User nat nat) := Inner_ (mkUser 5 m).

Lemma relative_timers_transparent_witness :
  let w := mkTimed 1 (Armed (mkTimerGeneration 0)) in
  let es := [say 1; tick 0; tick 0; say 2] in
  experienced (lease_of := lease)
    (step := one_shot_transition demo_inner demo_reaction) w es =
      [inr (mkUser 5 1); inl tt; inr (mkUser 5 2)] /\
  trace (react demo_inner demo_reaction) 1 [inr (mkUser 5 1); inl tt; inr (mkUser 5 2)] =
    (timed_inner (fst (trace (one_shot_transition demo_inner demo_reaction) w es)),
     answered (lease_of := lease)
       (step := one_shot_transition demo_inner demo_reaction) w es).
Proof.
  intros w es. split; [reflexivity|].
  exact (proj1 (relative_timers_transparent demo_inner demo_reaction 100 w es)).
Defined.

Lemma receive_timeout_measures_inactivity_witness :
  let w := fst (receive_timeout_init demo_inner 100 (mkTimed 1 lease_new)) in
  let w' := fst (receive_timeout_transition demo_inner demo_reaction 100 w (say 4)) in
  lease w' = Armed (mkTimerGeneration 1) /\
  receive_timeout_transition demo_inner demo_reaction 100 w' (tick 0) = (w', Ok cont).
Proof.
  intros w w'. split; [reflexivity|].
  exact (receive_timeout_measures_inactivity demo_inner demo_reaction 100 w (mkTimerGeneration 0)
    [] (say 4) [] (mkTimerElapsed the_Here (mkTimerGeneration 0)) eq_refl eq_refl eq_refl).
Defined.
