(* ===== verification/Lease.v ===== *)
(** * The expiring lease ([crates/actors/src/time/lease.rs])

    Exclusive ownership with one timer generation per grant.  Generations act
    as fencing tokens, which is what the run theorem states. *)

From stdpp Require Import base list option numbers sorting.
From S2P Require Import Prelude Effects Timers.

(** ** Data *)

Inductive LeaseState (K Route : Type) : Type :=
| Vacant (next : TimerGeneration)
| Held (holder : K) (generation : TimerGeneration) (notify : Route) (next : option TimerGeneration)
| Exhausted.
Arguments Vacant {K Route} _.
Arguments Held {K Route} _ _ _ _.
Arguments Exhausted {K Route}.

Inductive LeaseRejection (K : Type) : Type :=
| Occupied (current : K)
| WrongHolder (current : K)
| StaleGeneration (observed current : TimerGeneration)
| VacantLease
| GenerationExhausted.
Arguments Occupied {K} _.
Arguments WrongHolder {K} _.
Arguments StaleGeneration {K} _ _.
Arguments VacantLease {K}.
Arguments GenerationExhausted {K}.

Inductive LeaseRequest (K : Type) : Type :=
| AcquireRequest (holder : K) (duration : Duration)
| RenewRequest (holder : K) (generation : TimerGeneration) (duration : Duration)
| ReleaseRequest (holder : K) (generation : TimerGeneration).
Arguments AcquireRequest {K} _ _.
Arguments RenewRequest {K} _ _ _.
Arguments ReleaseRequest {K} _ _.

Inductive LeaseOutcome (K : Type) : Type :=
| Acquired (holder : K) (generation : TimerGeneration)
| Renewed (holder : K) (generation : TimerGeneration)
| Released (holder : K) (generation : TimerGeneration)
| Expired (holder : K) (generation : TimerGeneration)
| Rejected (request : LeaseRequest K) (reason : LeaseRejection K).
Arguments Acquired {K} _ _.
Arguments Renewed {K} _ _.
Arguments Released {K} _ _.
Arguments Expired {K} _ _.
Arguments Rejected {K} _ _.

Inductive LeaseMessage (K Route : Type) : Type :=
| Acquire (holder : K) (duration : Duration) (reply_to : Route)
| Renew (holder : K) (generation : TimerGeneration) (duration : Duration) (reply_to : Route)
| Release (holder : K) (generation : TimerGeneration) (reply_to : Route).
Arguments Acquire {K Route} _ _ _.
Arguments Renew {K Route} _ _ _ _.
Arguments Release {K Route} _ _ _.

Record LeaseSends (OutcomeSends Schedules : Type) := mkLeaseSends {
  outcomes : OutcomeSends;
  schedules : Schedules
}.
Arguments mkLeaseSends {_ _} _ _.
Arguments outcomes {_ _} _.
Arguments schedules {_ _} _.

#[export] Instance LeaseSends_SendEffects O S `{!SendEffects O, !SendEffects S} :
  SendEffects (LeaseSends O S) := {
  sends_empty := mkLeaseSends sends_empty sends_empty;
  sends_append a b :=
    mkLeaseSends (sends_append (outcomes a) (outcomes b)) (sends_append (schedules a) (schedules b))
}.

Record Lease (K Route : Type) := mkLease { id : TimerId; state : LeaseState K Route }.
Arguments mkLease {K Route} _ _.
Arguments id {K Route} _.
Arguments state {K Route} _.

Section Lease.
  Context {A K Route OSends : Type} `{!EqDecision K, !SendEffects OSends}.
  Context `{!DeliveryRoute Route (LeaseOutcome K) OSends}.

Abbreviation lease := (Lease K Route).
Abbreviation lease_sends := (LeaseSends OSends (InterpreterRequests (ScheduleAfter TimerId))).
Abbreviation lease_actions := (Actions Never Never lease_sends).
Abbreviation acted := (Acted Never Never lease_sends Never).
Abbreviation event := (EventLayer (TimerElapsed TimerId) (User A (LeaseMessage K Route))).

Definition new (i : TimerId) : lease := mkLease i (Vacant (mkTimerGeneration 0)).

(** [Lease::result]. *)
Definition result_of (reply : Route) (o : LeaseOutcome K) : lease_actions :=
  send (mkLeaseSends (deliver reply o) sends_empty).

Definition with_state (s : lease) (st : LeaseState K Route) : lease := mkLease (id s) st.

(** [checked_add(1).map(TimerGeneration)]. *)
Definition successor_of (g : TimerGeneration) : option TimerGeneration :=
  mkTimerGeneration <$> checked_add u64_max (generation_number g) 1.

Definition grant (s : lease) (holder : K) (g : TimerGeneration) (duration : Duration)
  (reply : Route) (o : LeaseOutcome K) : lease * lease_actions :=
  (with_state s (Held holder g reply (successor_of g)),
   send (mkLeaseSends (deliver reply o)
     (InterpreterRequests_one (mkScheduleAfter (id s) g duration)))).

Definition acquire (s : lease) (holder : K) (duration : Duration) (reply : Route) :
  lease * lease_actions :=
  match state s with
  | Held current _ _ _ =>
      (s, result_of reply (Rejected (AcquireRequest holder duration) (Occupied current)))
  | Exhausted =>
      (s, result_of reply (Rejected (AcquireRequest holder duration) GenerationExhausted))
  | Vacant next => grant s holder next duration reply (Acquired holder next)
  end.

Definition successor (s : lease) (holder : K) (g : TimerGeneration) :
  result (option TimerGeneration) (LeaseRejection K) :=
  match state s with
  | Vacant _ => Err VacantLease
  | Exhausted => Err GenerationExhausted
  | Held current active _ next =>
      if bool_decide (current = holder) then
        if bool_decide (active = g) then Ok next else Err (StaleGeneration g active)
      else Err (WrongHolder current)
  end.

(** [next.map_or(Exhausted, |next| Vacant { next })]. *)
Definition vacate (next : option TimerGeneration) : LeaseState K Route :=
  match next with None => Exhausted | Some n => Vacant n end.

(** The [Renew] arm. *)
Definition renew (s : lease) (holder : K) (g : TimerGeneration) (duration : Duration)
  (reply : Route) : lease * lease_actions :=
  let request := RenewRequest holder g duration in
  match successor s holder g with
  | Err rejection => (s, result_of reply (Rejected request rejection))
  | Ok None => (s, result_of reply (Rejected request GenerationExhausted))
  | Ok (Some fresh) => grant s holder fresh duration reply (Renewed holder fresh)
  end.

(** The [Release] arm. *)
Definition release (s : lease) (holder : K) (g : TimerGeneration) (reply : Route) :
  lease * lease_actions :=
  match successor s holder g with
  | Err rejection => (s, result_of reply (Rejected (ReleaseRequest holder g) rejection))
  | Ok next => (with_state s (vacate next), result_of reply (Released holder g))
  end.

(** The elapsed-timer lane. *)
Definition expire (s : lease) (el : TimerElapsed TimerId) : lease * lease_actions :=
  if bool_decide (elapsed_target el = id s) then
    match state s with
    | Held holder g notify next =>
        if bool_decide (elapsed_generation el = g) then
          (with_state s (vacate next), result_of notify (Expired holder g))
        else (s, cont)
    | _ => (s, cont)
    end
  else (s, cont).

Definition transition (s : lease) (e : event) : lease * acted :=
  let '(s', a) :=
    match e with
    | Inner_ u =>
        match message u with
        | Acquire holder duration reply => acquire s holder duration reply
        | Renew holder g duration reply => renew s holder g duration reply
        | Release holder g reply => release s holder g reply
        end
    | Owned_ el => expire s el
    end in
  (s', Ok a).

(** ** Observations *)

Context `{!RouteLaws Route (LeaseOutcome K) OSends}.

Definition granted (o : acted) : list TimerGeneration :=
  messages_of (outcomes (ok_sends o)) ≫=
    (fun m => match m with Acquired _ g | Renewed _ g => [g] | _ => [] end).

Definition ended (o : acted) : list TimerGeneration :=
  messages_of (outcomes (ok_sends o)) ≫=
    (fun m => match m with Released _ g | Expired _ g => [g] | _ => [] end).

Definition scheduled (o : acted) : list TimerGeneration :=
  after_generation <$> requests (schedules (ok_sends o)).

(** What a reachable state knows of the generations granted and ended so far. *)
Record ledger (s : lease) (gs es : list TimerGeneration) : Prop := {
  ledger_consecutive : consecutive gs;
  ledger_bound : (N.of_nat (length gs) <= u64_max + 1)%N;
  ledger_ended : increasing_below
    (match state s with Held _ g _ _ => generation_number g | _ => N.of_nat (length gs) end) es;
  ledger_state :
    match state s with
    | Vacant next => generation_number next = N.of_nat (length gs) /\
        (generation_number next <= u64_max)%N
    | Held _ g _ next =>
        N.of_nat (length gs) = (generation_number g + 1)%N /\ next = successor_of g
    | Exhausted => N.of_nat (length gs) = (u64_max + 1)%N
    end
}.

Lemma ledger_grant s gs es holder g duration reply o :
  ledger s gs es -> generation_number g = N.of_nat (length gs) ->
  (generation_number g <= u64_max)%N ->
  ledger (fst (grant s holder g duration reply o)) (gs ++ [g]) es.
Proof.
  intros [Hc Hb He Hs] Hg Hm. split; simpl; rewrite ?length_app; simpl.
  - by apply consecutive_snoc.
  - lia.
  - eapply increasing_below_weaken; [|exact He]. destruct (state s); naive_solver lia.
  - split; [lia|done].
Qed.

Lemma ledger_vacate s gs es holder g notify next :
  ledger s gs es -> state s = Held holder g notify next ->
  ledger (with_state s (vacate next)) gs (es ++ [g]).
Proof.
  intros [Hc Hb He Hs] Hst. rewrite Hst in He, Hs. destruct Hs as [Hl ->].
  assert (Hinc : increasing_below (N.of_nat (length gs)) (es ++ [g])).
  { rewrite Hl. by apply increasing_below_snoc. }
  split; auto; unfold with_state, vacate, successor_of; simpl;
    destruct (checked_add u64_max (generation_number g) 1) as [n|] eqn:Hn; simpl; auto.
  - apply checked_add_Some in Hn as [-> Hn]. lia.
  - apply checked_add_None in Hn. lia.
Qed.

(** The ledger after a step to [s'] with result [o]. *)
Definition followed (s' : lease) (gs es : list TimerGeneration) (o : acted) : Prop :=
  ledger s' (gs ++ granted o) (es ++ ended o) /\ scheduled o = granted o.

Lemma followed_cont s gs es : ledger s gs es -> followed s gs es (Ok cont).
Proof.
  intros Hl. unfold followed, granted, ended, scheduled; simpl. rewrite messages_of_empty. csimpl.
  by rewrite !app_nil_r.
Qed.

Lemma followed_rejected s gs es reply request reason :
  ledger s gs es -> followed s gs es (Ok (result_of reply (Rejected request reason))).
Proof.
  intros Hl. unfold followed, granted, ended, scheduled; simpl. rewrite messages_of_deliver. csimpl.
  by rewrite !app_nil_r.
Qed.

Lemma followed_grant s gs es holder g duration reply m :
  ledger s gs es -> generation_number g = N.of_nat (length gs) ->
  (generation_number g <= u64_max)%N -> m = Acquired holder g \/ m = Renewed holder g ->
  followed (fst (grant s holder g duration reply m)) gs es
    (Ok (snd (grant s holder g duration reply m))).
Proof.
  intros Hl Hg Hm Hc. unfold followed, granted, ended, scheduled; simpl. rewrite messages_of_deliver.
  destruct Hc as [-> | ->]; csimpl; rewrite app_nil_r;
    (split; [by apply (ledger_grant s gs es holder g duration reply (Acquired holder g))|done]).
Qed.

Lemma followed_end s gs es holder g notify next reply m :
  ledger s gs es -> state s = Held holder g notify next ->
  m = Released holder g \/ m = Expired holder g ->
  followed (with_state s (vacate next)) gs es (Ok (result_of reply m)).
Proof.
  intros Hl Hst Hc. unfold followed, granted, ended, scheduled; simpl. rewrite messages_of_deliver.
  destruct Hc as [-> | ->]; csimpl; rewrite app_nil_r; (split; [by eapply ledger_vacate|done]).
Qed.

Lemma ledger_step s gs es e : ledger s gs es ->
  followed (fst (transition s e)) gs es (snd (transition s e)).
Proof.
  intros Hl. pose proof (ledger_state _ _ _ Hl) as Hst.
  unfold transition. destruct e as [el|[a m]]; simpl.
  - unfold expire. case_bool_decide; [|by apply followed_cont].
    destruct (state s) as [n|h g nt nx|] eqn:Hs; [by apply followed_cont| |by apply followed_cont].
    case_bool_decide; [|by apply followed_cont]. eapply followed_end; eauto.
  - destruct m as [h d r|h g d r|h g r]; unfold acquire, renew, release, successor;
      destruct (state s) as [n|h' g' nt nx|] eqn:Hs; try (by apply followed_rejected).
    + destruct Hst. by apply followed_grant; auto.
    + case_bool_decide; [|by apply followed_rejected].
      case_bool_decide; [|by apply followed_rejected]. subst.
      destruct Hst as [Hlen ->]. unfold successor_of.
      destruct (checked_add u64_max (generation_number g) 1) as [n|] eqn:Hn; simpl;
        [|by apply followed_rejected].
      apply checked_add_Some in Hn as [-> Hn].
      eapply (followed_grant s gs es h _ d r); simpl; [done|lia|lia|by right].
    + case_bool_decide; [|by apply followed_rejected].
      case_bool_decide; [|by apply followed_rejected]. subst. eapply followed_end; eauto.
Qed.

Lemma ledger_run es : forall s gs ends, ledger s gs ends ->
  let '(s', os) := trace transition s es in
  ledger s' (gs ++ collect (fun _ o => granted o) es os)
    (ends ++ collect (fun _ o => ended o) es os) /\
  collect (fun _ o => scheduled o) es os = collect (fun _ o => granted o) es os.
Proof.
  induction es as [|e es IH]; intros s gs ends Hl; simpl; [by rewrite !app_nil_r|].
  destruct (ledger_step s gs ends e Hl) as [Hl1 Hs1].
  destruct (transition s e) as [s1 o]. simpl in *. specialize (IH _ _ _ Hl1).
  destruct (trace transition s1 es) as [s2 os]. destruct IH as [Hl2 Hs2]. cbn [collect].
  rewrite !app_assoc, Hs1, Hs2. done.
Qed.

(** C33. Generations are fencing tokens: on every run from a new lease, grants
    (acquisitions and renewals) carry the generations 0, 1, 2, ... in order,
    within [u64], each with exactly one expiry request of the same generation;
    a generation ends (release or expiry) at most once, in increasing order;
    and a held lease holds the last generation granted, which has not ended. *)
Theorem lease_fencing i es :
  let '(s', os) := trace transition (new i) es in
  let gs := collect (fun _ o => granted o) es os in
  let ends := collect (fun _ o => ended o) es os in
  (forall k g, gs !! k = Some g -> generation_number g = N.of_nat k) /\
  (N.of_nat (length gs) <= u64_max + 1)%N /\
  collect (fun _ o => scheduled o) es os = gs /\
  StronglySorted (fun a b => (generation_number a < generation_number b)%N) ends /\
  (forall holder g notify next, state s' = Held holder g notify next ->
     N.of_nat (length gs) = (generation_number g + 1)%N /\ g ∉ ends).
Proof.
  assert (ledger (new i) [] []) as H0.
  { split; simpl; try done; [split; constructor]. }
  pose proof (ledger_run es (new i) [] [] H0) as Hr.
  destruct (trace transition (new i) es) as [s' os]. destruct Hr as [[Hc Hb He Hs] Hsch].
  simpl in *. split_and!; [done|done|done|apply He|].
  intros holder g notify next Hst. rewrite Hst in He, Hs. split; [apply Hs|].
  intros Hin. destruct He as [_ Hf]. rewrite Forall_forall in Hf. specialize (Hf g Hin). lia.
Qed.

(** ** Authority *)

(** The request of a command, and whether a state admits it. *)
Definition request_of (m : LeaseMessage K Route) : LeaseRequest K :=
  match m with
  | Acquire h d _ => AcquireRequest h d
  | Renew h g d _ => RenewRequest h g d
  | Release h g _ => ReleaseRequest h g
  end.

Definition reply_of (m : LeaseMessage K Route) : Route :=
  match m with Acquire _ _ r | Renew _ _ _ r | Release _ _ r => r end.

(** The commands a state admits: acquisition when vacant, renewal and release by
    the exact holder of the exact generation, renewal only while a fresh
    generation remains. *)
Definition admits (st : LeaseState K Route) (m : LeaseMessage K Route) : Prop :=
  match m, st with
  | Acquire _ _ _, Vacant _ => True
  | Renew h g _ _, Held h' g' _ next => h' = h /\ g' = g /\ is_Some next
  | Release h g _, Held h' g' _ _ => h' = h /\ g' = g
  | _, _ => False
  end.

(** Authority over the lease: a command is admitted exactly when the lease
    is vacant (acquire) or is held by the exact holder under the exact
    generation (renew, release); every other command is rejected to its sender
    with its complete request and changes nothing; and only evidence for the
    lease's own timer and its current generation ends a hold, notifying the
    recipient of the grant. *)
Theorem lease_authority s e :
  match e with
  | Inner_ u =>
      (admits (state s) (message u) ->
        exists m, addressed (outcomes (ok_sends (snd (transition s e)))) =
            [(reply_of (message u), m)] /\
          match m with Rejected _ _ | Expired _ _ => False | _ => True end) /\
      (~ admits (state s) (message u) ->
        fst (transition s e) = s /\ exists reason,
          addressed (outcomes (ok_sends (snd (transition s e)))) =
            [(reply_of (message u), Rejected (request_of (message u)) reason)])
  | Owned_ el =>
      match state s with
      | Held h g notify _ =>
          if bool_decide (elapsed_target el = id s /\ elapsed_generation el = g) then
            addressed (outcomes (ok_sends (snd (transition s e)))) = [(notify, Expired h g)] /\
            (forall h' g' n' x', state (fst (transition s e)) <> Held h' g' n' x')
          else transition s e = (s, Ok cont)
      | _ => transition s e = (s, Ok cont)
      end
  end.
Proof.
  destruct e as [el|[a m]]; unfold transition.
  - unfold expire. destruct (state s) as [n|h g nt nx|] eqn:Hs; [by case_bool_decide| |by case_bool_decide].
    destruct (decide (elapsed_target el = id s)) as [Ht|Ht];
      [rewrite (bool_decide_eq_true_2 _ Ht)|rewrite (bool_decide_eq_false_2 _ Ht);
       rewrite bool_decide_eq_false_2 by tauto; done].
    destruct (decide (elapsed_generation el = g)) as [Hg|Hg];
      [rewrite (bool_decide_eq_true_2 _ Hg), bool_decide_eq_true_2 by done|
       rewrite (bool_decide_eq_false_2 _ Hg), bool_decide_eq_false_2 by tauto; done].
    simpl. rewrite addressed_deliver. split; [done|]. by destruct nx.
  - simpl. destruct m as [h d r|h g d r|h g r]; unfold acquire, renew, release, successor; simpl;
      destruct (state s) as [n|h' g' nt nx|] eqn:Hs; simpl; rewrite ?addressed_deliver;
      try (split; [try done; intros _; by eexists|try done; intros _; eauto]).
    all: case_bool_decide; [|simpl; rewrite addressed_deliver; split; [tauto|eauto]].
    all: case_bool_decide; [|simpl; rewrite addressed_deliver; split; [tauto|eauto]].
    + destruct nx as [n|]; simpl; rewrite addressed_deliver; split; try eauto.
      * intros _. by eexists.
      * intros Hn. destruct Hn. eauto.
      * intros (_ & _ & [? ?]). discriminate.
    + simpl. rewrite addressed_deliver. split; [|tauto]. intros _. by eexists.
Qed.

End Lease.
