(* ===== verification/CircuitBreaker.v ===== *)
(** * The circuit breaker ([crates/actors/src/routing/circuit_breaker.rs])

    Single-flight admission with a closed / open / probing phase sum.  Attempt
    numbers and timer generations are [u64], failure counts [u32]. *)

From stdpp Require Import base list option numbers sorting.
From S2P Require Import Prelude Effects Timers.

(** ** Data *)

Record BreakerAttempt := mkAttempt { attempt_number : N }.

#[export] Instance BreakerAttempt_EqDecision : EqDecision BreakerAttempt.
Proof. solve_decision. Defined.

Inductive ClosedPhase (Route : Type) : Type :=
| Idle (consecutive_failures : N)
| ClosedAwaiting (consecutive_failures : N) (attempt : BreakerAttempt) (reply_to : Route).
Arguments Idle {Route} _.
Arguments ClosedAwaiting {Route} _ _ _.

Inductive ProbePhase (Route : Type) : Type :=
| ProbeAvailable
| ProbeAwaiting (attempt : BreakerAttempt) (reply_to : Route).
Arguments ProbeAvailable {Route}.
Arguments ProbeAwaiting {Route} _ _.

Inductive BreakerPhase (Route : Type) : Type :=
| Closed (c : ClosedPhase Route)
| Open (generation : TimerGeneration)
| Probing (generation : TimerGeneration) (phase : ProbePhase Route)
| Exhausted.
Arguments Closed {Route} _.
Arguments Open {Route} _.
Arguments Probing {Route} _ _.
Arguments Exhausted {Route}.

Inductive BreakerConfigError : Type := ZeroResetDelay.

Inductive BreakerRejection : Type :=
| Busy
| OpenCircuit (generation : TimerGeneration)
| NumbersExhausted.

Inductive BreakerOutcome : Type :=
| AdmittedAttempt (attempt : BreakerAttempt)
| ProbeAdmitted (attempt : BreakerAttempt)
| Rejected (reason : BreakerRejection)
| SucceededOutcome (attempt : BreakerAttempt)
| FailureRecorded (attempt : BreakerAttempt) (consecutive_failures : N)
| Opened (attempt : BreakerAttempt) (generation : TimerGeneration).

Inductive BreakerCompletion : Type :=
| CompletedOk (attempt : BreakerAttempt)
| CompletedFailed (attempt : BreakerAttempt).

(** [BreakerCompletion::attempt]. *)
Definition attempt_of (c : BreakerCompletion) : BreakerAttempt :=
  match c with CompletedOk a | CompletedFailed a => a end.

Inductive BreakerError : Type := UnexpectedCompletion (c : BreakerCompletion).

Inductive BreakerMessage (Route : Type) : Type :=
| Admit (reply_to : Route)
| Succeeded (attempt : BreakerAttempt)
| Failed (attempt : BreakerAttempt).
Arguments Admit {Route} _.
Arguments Succeeded {Route} _.
Arguments Failed {Route} _.

Record BreakerSends (ReplySends Schedules : Type) := mkBreakerSends {
  replies : ReplySends;
  schedules : Schedules
}.
Arguments mkBreakerSends {_ _} _ _.
Arguments replies {_ _} _.
Arguments schedules {_ _} _.

#[export] Instance BreakerSends_SendEffects R S `{!SendEffects R, !SendEffects S} :
  SendEffects (BreakerSends R S) := {
  sends_empty := mkBreakerSends sends_empty sends_empty;
  sends_append a b :=
    mkBreakerSends (sends_append (replies a) (replies b)) (sends_append (schedules a) (schedules b))
}.

Record CircuitBreaker (Route : Type) := mkBreaker {
  threshold : N;
  reset_after : Duration;
  timer_id : TimerId;
  next_attempt : N;
  phase : BreakerPhase Route
}.
Arguments mkBreaker {Route} _ _ _ _ _.
Arguments threshold {Route} _.
Arguments reset_after {Route} _.
Arguments timer_id {Route} _.
Arguments next_attempt {Route} _.
Arguments phase {Route} _.

(** [CircuitBreaker::new]; [threshold] is a [NonZeroU32]. *)
Definition new {Route} (thr : N) (reset : Duration) (i : TimerId) :
  result (CircuitBreaker Route) BreakerConfigError :=
  if (reset =? 0)%N then Err ZeroResetDelay else Ok (mkBreaker thr reset i 0 (Closed (Idle 0))).

Section CircuitBreaker.
  Context {A Route RSends : Type} `{!SendEffects RSends, !DeliveryRoute Route BreakerOutcome RSends}.

Abbreviation breaker := (CircuitBreaker Route).
Abbreviation breaker_sends := (BreakerSends RSends (InterpreterRequests (ScheduleAfter TimerId))).
Abbreviation breaker_actions := (Actions Never Never breaker_sends).
Abbreviation acted := (Acted Never Never breaker_sends BreakerError).
Abbreviation event := (EventLayer (TimerElapsed TimerId) (User A (BreakerMessage Route))).

(** [CircuitBreaker::reply]. *)
Definition reply_with (reply : Route) (o : BreakerOutcome) : breaker_actions :=
  send (mkBreakerSends (deliver reply o) sends_empty).

Definition with_phase (s : breaker) (p : BreakerPhase Route) : breaker :=
  mkBreaker (threshold s) (reset_after s) (timer_id s) (next_attempt s) p.

Definition with_attempt (s : breaker) (n : N) (p : BreakerPhase Route) : breaker :=
  mkBreaker (threshold s) (reset_after s) (timer_id s) n p.

Definition admit_attempt (s : breaker) (reply : Route) : breaker * breaker_actions :=
  let attempt := mkAttempt (next_attempt s) in
  match phase s with
  | Closed (Idle failures) =>
      match checked_add u64_max (next_attempt s) 1 with
      | None => (with_phase s Exhausted, reply_with reply (Rejected NumbersExhausted))
      | Some next =>
          (with_attempt s next (Closed (ClosedAwaiting failures attempt reply)),
           reply_with reply (AdmittedAttempt attempt))
      end
  | Probing g ProbeAvailable =>
      match checked_add u64_max (next_attempt s) 1 with
      | None => (with_phase s Exhausted, reply_with reply (Rejected NumbersExhausted))
      | Some next =>
          (with_attempt s next (Probing g (ProbeAwaiting attempt reply)),
           reply_with reply (ProbeAdmitted attempt))
      end
  | Open g => (s, reply_with reply (Rejected (OpenCircuit g)))
  | Exhausted => (s, reply_with reply (Rejected NumbersExhausted))
  | Closed (ClosedAwaiting _ _ _) | Probing _ (ProbeAwaiting _ _) =>
      (s, reply_with reply (Rejected Busy))
  end.

(** The [ownership] of a completion: reply recipient, failures and probe generation. *)
Definition ownership (s : breaker) (a : BreakerAttempt) :
  option (Route * N * option TimerGeneration) :=
  match phase s with
  | Closed (ClosedAwaiting failures current reply) =>
      if bool_decide (current = a) then Some (reply, failures, None) else None
  | Probing g (ProbeAwaiting current reply) =>
      if bool_decide (current = a) then Some (reply, 0%N, Some g) else None
  | _ => None
  end.

Definition complete (s : breaker) (c : BreakerCompletion) :
  breaker * result breaker_actions BreakerError :=
  let attempt := attempt_of c in
  match ownership s attempt with
  | None => (s, Err (UnexpectedCompletion c))
  | Some (reply, failures, probe) =>
      match c with
      | CompletedOk _ =>
          (with_phase s (Closed (Idle 0)), Ok (reply_with reply (SucceededOutcome attempt)))
      | CompletedFailed _ =>
          let failures := saturating_add u32_max failures 1 in
          if match probe with None => (failures <? threshold s)%N | Some _ => false end then
            (with_phase s (Closed (Idle failures)),
             Ok (reply_with reply (FailureRecorded attempt failures)))
          else
            match match probe with
                  | Some g => mkTimerGeneration <$> checked_add u64_max (generation_number g) 1
                  | None => Some (mkTimerGeneration 0)
                  end with
            | None =>
                (with_phase s Exhausted, Ok (reply_with reply (Rejected NumbersExhausted)))
            | Some g =>
                (with_phase s (Open g),
                 Ok (send (mkBreakerSends (deliver reply (Opened attempt g))
                   (InterpreterRequests_one (mkScheduleAfter (timer_id s) g (reset_after s))))))
            end
      end
  end.

(** The elapsed-timer lane. *)
Definition elapse (s : breaker) (el : TimerElapsed TimerId) : breaker :=
  match phase s with
  | Open g =>
      if bool_decide (elapsed_target el = timer_id s) && bool_decide (elapsed_generation el = g)
      then with_phase s (Probing g ProbeAvailable) else s
  | _ => s
  end.

Definition transition (s : breaker) (e : event) : breaker * acted :=
  match e with
  | Inner_ u =>
      match message u with
      | Admit reply => let '(s', a) := admit_attempt s reply in (s', Ok a)
      | Succeeded a => complete s (CompletedOk a)
      | Failed a => complete s (CompletedFailed a)
      end
  | Owned_ el => (elapse s el, Ok cont)
  end.

(** ** The log of admissions and completions *)

Context `{!RouteLaws Route BreakerOutcome RSends}.

Inductive entry : Type :=
| Began (a : N)
| Ended (a : N).

Definition outcomes_of (o : acted) : list BreakerOutcome :=
  match o with Ok a => messages_of (replies (sends a)) | Err _ => [] end.

(** An admission is read off its outcome; a completion is an accepted report. *)
Definition log (e : event) (o : acted) : list entry :=
  match e, o with
  | Inner_ u, Ok _ =>
      match message u with
      | Admit _ => outcomes_of o ≫= (fun m =>
          match m with AdmittedAttempt a | ProbeAdmitted a => [Began (attempt_number a)] | _ => [] end)
      | Succeeded a | Failed a => [Ended (attempt_number a)]
      end
  | _, _ => []
  end.

(** Admission and completion alternate, attempt by attempt. *)
Fixpoint alternating (n : nat) : list entry :=
  match n with 0 => [] | S n => alternating n ++ [Began (N.of_nat n); Ended (N.of_nat n)] end.

(** The attempt that owns the breaker. *)
Definition in_flight (p : BreakerPhase Route) : option BreakerAttempt :=
  match p with
  | Closed (ClosedAwaiting _ a _) | Probing _ (ProbeAwaiting a _) => Some a
  | _ => None
  end.

(** What the state knows of the log so far. *)
Definition logged (s : breaker) (l : list entry) : Prop :=
  (next_attempt s <= u64_max)%N /\
  exists n, match in_flight (phase s) with
    | None => next_attempt s = N.of_nat n /\ l = alternating n
    | Some a => attempt_number a = N.of_nat n /\ next_attempt s = N.of_nat (S n) /\
        l = alternating n ++ [Began (N.of_nat n)]
    end.

Lemma complete_logged s c l : logged s l ->
  logged (fst (complete s c))
    (l ++ match snd (complete s c) with Ok _ => [Ended (attempt_number (attempt_of c))] | Err _ => [] end).
Proof.
  intros [Hm [n Hl]]. unfold complete.
  destruct (ownership s (attempt_of c)) as [[[reply failures] probe]|] eqn:Ho.
  2: { simpl. rewrite app_nil_r. by split; [|exists n]. }
  assert (Ha : in_flight (phase s) = Some (attempt_of c)).
  { revert Ho. unfold ownership, in_flight. repeat split_match; intros; simplify_eq;
      by repeat match goal with H : bool_decide _ = true |- _ => apply bool_decide_eq_true in H end;
      subst. }
  rewrite Ha in Hl. destruct Hl as (Hn & Hnext & ->).
  assert (Hgoal : forall p, in_flight p = None ->
    logged (with_phase s p) ((alternating n ++ [Began (N.of_nat n)]) ++
      [Ended (attempt_number (attempt_of c))])).
  { intros p Hp. split; [done|]. exists (S n). simpl. rewrite Hp, Hn, <- app_assoc. done. }
  destruct c; [by apply Hgoal|]. destruct (match probe with None => _ | Some _ => false end);
    [by apply Hgoal|]. destruct (match probe with Some _ => _ | None => _ end); by apply Hgoal.
Qed.

Lemma admit_logged s reply l : logged s l ->
  logged (fst (admit_attempt s reply)) (l ++ (outcomes_of (Ok (snd (admit_attempt s reply))) ≫= (fun m =>
    match m with AdmittedAttempt a | ProbeAdmitted a => [Began (attempt_number a)] | _ => [] end))).
Proof.
  intros [Hm [n Hl]].
  assert (Hsame : logged s l) by (split; [|exists n]; done).
  unfold admit_attempt. destruct (phase s) as [[f|f a r]|g|g [|a r]|] eqn:Hp; simpl in Hl;
    try (destruct (checked_add u64_max (next_attempt s) 1) as [x|] eqn:Hx); simpl;
    rewrite messages_of_deliver; csimpl; rewrite ?app_nil_r; try done.
  1,3: apply checked_add_Some in Hx as [-> Hx]; destruct Hl as [Hn ->]; split; [done|];
    exists n; simpl; rewrite Hn; split_and!; [done|lia|done].
  all: split; [done|]; exists n; simpl; done.
Qed.

Lemma transition_logged s e l : logged s l ->
  logged (fst (transition s e)) (l ++ log e (snd (transition s e))).
Proof.
  intros Hl. unfold transition, log. destruct e as [el|[a m]]; simpl.
  - rewrite app_nil_r. unfold elapse. destruct (phase s) eqn:Hp; try done.
    destruct (_ && _); [|done]. destruct Hl as [Hm [n Hl]]. rewrite Hp in Hl. split; [done|].
    by exists n.
  - destruct m as [reply|at_|at_].
    + pose proof (admit_logged s reply l Hl) as H. by destruct (admit_attempt s reply).
    + pose proof (complete_logged s (CompletedOk at_) l Hl) as H.
      by destruct (complete s (CompletedOk at_)) as [s' [x|err]].
    + pose proof (complete_logged s (CompletedFailed at_) l Hl) as H.
      by destruct (complete s (CompletedFailed at_)) as [s' [x|err]].
Qed.

Lemma trace_logged es : forall s l, logged s l ->
  logged (fst (trace transition s es)) (l ++ collect log es (snd (trace transition s es))).
Proof.
  induction es as [|e es IH]; intros s l Hl; simpl; [by rewrite app_nil_r|].
  pose proof (transition_logged s e l Hl) as H1. destruct (transition s e) as [s1 o].
  specialize (IH s1 _ H1). destruct (trace transition s1 es). simpl in *. by rewrite app_assoc.
Qed.

(** The breaker is single-flight: on every run from a configured breaker
    the admissions and accepted completions are exactly
    [Began 0; Ended 0; Began 1; Ended 1; ...], with at most one admission still
    open at the end, which is then the attempt that owns the breaker; attempt
    numbers never repeat and never leave [u64]. *)
Theorem breaker_single_flight thr reset i s0 es :
  new thr reset i = Ok s0 ->
  let '(s', os) := trace transition s0 es in
  exists n, (N.of_nat n <= u64_max)%N /\
    match in_flight (phase s') with
    | None => collect log es os = alternating n
    | Some a => attempt_number a = N.of_nat n /\
        collect log es os = alternating n ++ [Began (N.of_nat n)]
    end.
Proof.
  unfold new. destruct (reset =? 0)%N; [discriminate|]. intros [= <-].
  assert (logged (mkBreaker thr reset i 0 (Closed (Idle 0))) []) as H0.
  { split; [done|]. by exists 0. }
  pose proof (trace_logged es _ _ H0) as H. destruct (trace transition _ es) as [s' os].
  destruct H as [Hm [n Hn]]. rewrite app_nil_l in Hn. cbn [fst snd] in *. exists n.
  destruct (in_flight (phase s')).
  - destruct Hn as (Ha & Hnext & Hlog). split_and!; [lia|done|done].
  - destruct Hn as [Hnext Hlog]. split; [lia|done].
Qed.

(** ** Failure counting *)

(** Consecutive failures reported since the last success or opening. *)
Definition count (k : N) (m : BreakerOutcome) : N :=
  match m with
  | FailureRecorded _ _ => k + 1
  | SucceededOutcome _ | Opened _ _ => 0
  | _ => k
  end%N.

Definition streak (k : N) (os : list acted) : N := fold_left count (os ≫= outcomes_of) k.

Definition counted (s : breaker) (thr k : N) : Prop :=
  threshold s = thr /\
  match phase s with
  | Closed (Idle f) | Closed (ClosedAwaiting f _ _) => f = k /\ (k < thr)%N
  | Open _ | Probing _ _ => k = 0%N
  | Exhausted => True
  end.

Lemma counted_transition s e thr k :
  (0 < thr <= u32_max)%N -> counted s thr k ->
  counted (fst (transition s e)) thr (fold_left count (outcomes_of (snd (transition s e))) k).
Proof.
  intros Hthr [Ht Hk]. unfold transition, counted. destruct e as [el|[a m]]; simpl.
  { rewrite messages_of_empty; simpl. unfold elapse. destruct (phase s) eqn:Hp; simpl;
      [by rewrite Hp|destruct (_ && _); simpl; [done|by rewrite Hp]|by rewrite Hp..]. }
  destruct m as [reply|at_|at_]; simpl.
  - unfold admit_attempt. destruct (phase s) as [[f|f x r]|g|g [|x r]|] eqn:Hp; simpl;
      try (destruct (checked_add u64_max (next_attempt s) 1)); simpl;
      rewrite ?messages_of_deliver; simpl; rewrite ?Hp; done.
  - unfold complete, ownership. destruct (phase s) as [[f|f x r]|g|g [|x r]|] eqn:Hp; simpl;
      try (by rewrite Hp); case_bool_decide; simpl; try (by rewrite Hp);
      rewrite ?messages_of_deliver; simpl; split_and!; try done; lia.
  - unfold complete, ownership, saturating_add.
    destruct (phase s) as [[f|f x r]|g|g [|x r]|] eqn:Hp; simpl;
      try (by rewrite Hp); case_bool_decide; simpl; try (by rewrite Hp).
    + destruct Hk as [-> Hk]. replace (N.min u32_max (k + 1)) with (k + 1)%N by lia.
      destruct (N.ltb_spec (k + 1) (threshold s)); simpl; rewrite ?messages_of_deliver; simpl; auto.
      split; [done|]. split; [done|]. lia.
    + destruct (checked_add u64_max (generation_number g) 1); simpl;
        rewrite ?messages_of_deliver; simpl; by subst.
Qed.

Lemma counted_trace es thr : (0 < thr <= u32_max)%N -> forall s k, counted s thr k ->
  counted (fst (trace transition s es)) thr (streak k (snd (trace transition s es))).
Proof.
  intros Hthr. induction es as [|e es IH]; intros s k Hk; simpl; [done|].
  pose proof (counted_transition s e thr k Hthr Hk) as H1. destruct (transition s e) as [s1 o].
  specialize (IH s1 _ H1). destruct (trace transition s1 es) as [s2 os]. cbn [fst snd] in *.
  unfold streak. by rewrite bind_cons, fold_left_app.
Qed.

(** The circuit opens exactly at the threshold: after any run, a failed
    completion of the operation admitted by a closed circuit is recorded with
    the number of consecutive failures reported since the last success or
    opening, plus one, as long as that stays below the threshold, and opens the
    circuit when it reaches it, requesting exactly one reset timer. *)
Theorem breaker_opens_at_threshold thr reset i s0 es a f at_ reply :
  (0 < thr <= u32_max)%N -> new thr reset i = Ok s0 ->
  phase (fst (trace transition s0 es)) = Closed (ClosedAwaiting f at_ reply) ->
  let '(s', os) := trace transition s0 es in
  let o := snd (transition s' (Inner_ (mkUser a (Failed at_)))) in
  let k := streak 0 os in
  f = k /\ (k < thr)%N /\
  outcomes_of o =
    [if (k + 1 <? thr)%N then FailureRecorded at_ (k + 1)
     else Opened at_ (mkTimerGeneration 0)] /\
  (match o with Ok x => requests (schedules (sends x)) | Err _ => [] end) =
    (if (k + 1 <? thr)%N then [] else [mkScheduleAfter i (mkTimerGeneration 0) reset]).
Proof.
  intros Hthr Hnew Hphase.
  assert (counted s0 thr 0 /\ timer_id s0 = i /\ reset_after s0 = reset) as (H0 & Hi & Hr).
  { revert Hnew. unfold new. destruct (reset =? 0)%N; [discriminate|]. intros [= <-].
    split_and!; try done. split; simpl; [done|]. split; [done|lia]. }
  pose proof (counted_trace es thr Hthr s0 0 H0) as Hc.
  assert (Hfields : forall s, timer_id s = i /\ reset_after s = reset -> forall e,
    timer_id (fst (transition s e)) = i /\ reset_after (fst (transition s e)) = reset).
  { intros s Hs e. unfold transition, admit_attempt, complete, elapse. by repeat (split_match; simpl). }
  pose proof (trace_invariant (fun s => timer_id s = i /\ reset_after s = reset) transition
    (fun s e Hs => Hfields s Hs e) es s0 (conj Hi Hr)) as [Hi' Hr'].
  destruct (trace transition s0 es) as [s' os]. cbn [fst snd] in *.
  destruct Hc as [Ht Hk]. rewrite Hphase in Hk. destruct Hk as [-> Hk].
  simpl. unfold complete, ownership. rewrite Hphase. rewrite bool_decide_eq_true_2 by done.
  unfold saturating_add. replace (N.min u32_max (streak 0 os + 1)) with (streak 0 os + 1)%N by lia.
  rewrite Ht. destruct (N.ltb_spec (streak 0 os + 1) thr); simpl; rewrite messages_of_deliver;
    rewrite ?Hi', ?Hr'; auto.
Qed.

(** ** The open phase *)

(** Evidence for the reset timer of generation [g]. *)
Definition matching (i : TimerId) (g : TimerGeneration) (e : event) : bool :=
  match e with
  | Owned_ el => bool_decide (elapsed_target el = i) && bool_decide (elapsed_generation el = g)
  | Inner_ _ => false
  end.

(** What an open circuit answers. *)
Definition denied (g : TimerGeneration) (e : event) (o : acted) : Prop :=
  match e with
  | Owned_ _ => o = Ok cont
  | Inner_ u =>
      match message u with
      | Admit reply => o = Ok (reply_with reply (Rejected (OpenCircuit g)))
      | Succeeded a => o = Err (UnexpectedCompletion (CompletedOk a))
      | Failed a => o = Err (UnexpectedCompletion (CompletedFailed a))
      end
  end.

Lemma open_step s e g : phase s = Open g ->
  if matching (timer_id s) g e
  then transition s e = (with_phase s (Probing g ProbeAvailable), Ok cont)
  else fst (transition s e) = s /\ denied g e (snd (transition s e)).
Proof.
  intros Hp. destruct e as [el|[a m]]; simpl.
  - unfold elapse. rewrite Hp. destruct (_ && _); done.
  - destruct m; simpl; unfold admit_attempt, complete, ownership; by rewrite Hp.
Qed.

(** An open circuit admits nothing until its own reset evidence: along any
    run without matching evidence the breaker does not change, every admission
    request is rejected with the open generation and every completion is
    returned unchanged as unexpected; the first matching evidence makes one
    probe available, and the next admission takes it. *)
Theorem breaker_open_until_reset s g es el a reply :
  phase s = Open g -> (next_attempt s < u64_max)%N ->
  Forall (fun e => matching (timer_id s) g e = false) es ->
  matching (timer_id s) g (Owned_ el) = true ->
  fst (trace transition s es) = s /\ Forall2 (denied g) es (snd (trace transition s es)) /\
  let s1 := fst (transition s (Owned_ el)) in
  phase s1 = Probing g ProbeAvailable /\
  outcomes_of (snd (transition s1 (Inner_ (mkUser a (Admit reply))))) =
    [ProbeAdmitted (mkAttempt (next_attempt s))] /\
  (forall a' reply',
     outcomes_of (snd (transition (fst (transition s1 (Inner_ (mkUser a (Admit reply)))))
       (Inner_ (mkUser a' (Admit reply'))))) = [Rejected Busy]).
Proof.
  intros Hp Hn Hes Hel. split_and!.
  - induction Hes as [|e es He _ IH]; simpl; [done|].
    pose proof (open_step s e g Hp) as H. rewrite He in H. destruct H as [H _].
    destruct (transition s e) as [s1 o]. simpl in H. subst s1.
    by destruct (trace transition s es).
  - induction Hes as [|e es He _ IH]; simpl; [constructor|].
    pose proof (open_step s e g Hp) as H. rewrite He in H. destruct H as [H Hd].
    destruct (transition s e) as [s1 o]. simpl in *. subst s1.
    destruct (trace transition s es). by constructor.
  - intros s1.
    assert (s1 = with_phase s (Probing g ProbeAvailable)) as ->.
    { pose proof (open_step s (Owned_ el) g Hp) as H. rewrite Hel in H. unfold s1. by rewrite H. }
    simpl. unfold admit_attempt; simpl. unfold checked_add.
    destruct (N.leb_spec (next_attempt s + 1) u64_max); [|lia]. simpl.
    rewrite messages_of_deliver. split_and!; [done|done|]. intros.
    unfold admit_attempt; simpl. by rewrite messages_of_deliver.
Qed.

End CircuitBreaker.

(** ** Concrete runs *)

Abbreviation demo_event := (EventLayer (TimerElapsed TimerId) (User nat (BreakerMessage (Recipient nat)))).

Definition demo_transition :=
  transition (A := nat) (Route := Recipient nat) (RSends := list (Delivery nat BreakerOutcome)).

Definition demo_breaker : CircuitBreaker (Recipient nat) :=
  mkBreaker 1 1000 (mkTimerId 3) 0 (Closed (Idle 0)).

Definition ask : demo_event := Inner_ (mkUser 9 (Admit (mkRecipient 8))).
Definition fail_with (a : N) : demo_event := Inner_ (mkUser 9 (Failed (mkAttempt a))).
Definition succeed_with (a : N) : demo_event := Inner_ (mkUser 9 (Succeeded (mkAttempt a))).
Definition reset_evidence (g : N) : demo_event :=
  Owned_ (mkTimerElapsed (mkTimerId 3) (mkTimerGeneration g)).

Lemma breaker_single_flight_witness :
  exists n, (N.of_nat n <= u64_max)%N /\
    collect log [ask; ask; fail_with 0]
      (snd (trace demo_transition demo_breaker [ask; ask; fail_with 0])) = alternating n.
Proof.
  exact (breaker_single_flight 1 1000 (mkTimerId 3) demo_breaker [ask; ask; fail_with 0] eq_refl).
Defined.

Lemma breaker_opens_at_threshold_witness :
  outcomes_of (snd (demo_transition (fst (trace demo_transition demo_breaker [ask])) (fail_with 0))) =
    [Opened (mkAttempt 0) (mkTimerGeneration 0)].
Proof.
  assert (Hthr : (0 < 1 <= u32_max)%N) by (vm_compute; split; discriminate || reflexivity).
  exact (proj1 (proj2 (proj2 (breaker_opens_at_threshold 1 1000 (mkTimerId 3) demo_breaker [ask] 9 0
    (mkAttempt 0) (mkRecipient 8) Hthr eq_refl eq_refl)))).
Defined.

Definition demo_open : CircuitBreaker (Recipient nat) :=
  fst (trace demo_transition demo_breaker [ask; fail_with 0]).

Lemma breaker_open_until_reset_witness :
  phase demo_open = Open (mkTimerGeneration 0) /\
  fst (trace demo_transition demo_open [ask; reset_evidence 7]) = demo_open /\
  Forall2 (denied (mkTimerGeneration 0)) [ask; reset_evidence 7]
    (snd (trace demo_transition demo_open [ask; reset_evidence 7])).
Proof.
  split; [reflexivity|].
  assert (Hn : (next_attempt demo_open < u64_max)%N) by (vm_compute; reflexivity).
  assert (He : Forall (fun e => matching (timer_id demo_open) (mkTimerGeneration 0) e = false)
    [ask; reset_evidence 7]) by (repeat constructor).
  pose proof (breaker_open_until_reset demo_open (mkTimerGeneration 0) [ask; reset_evidence 7]
    (mkTimerElapsed (mkTimerId 3) (mkTimerGeneration 0)) 9 (mkRecipient 8) eq_refl Hn He eq_refl)
    as (H1 & H2 & _).
  split; [exact H1|exact H2].
Defined.

(** The generation of a threshold opening is always zero, so after a recovery a
    second opening reuses it: evidence of the first reset timer, if it is
    delivered a second time, makes the probe of the second opening available. *)
Lemma breaker_generation_reused :
  let cycle := [ask; fail_with 0; reset_evidence 0; ask; succeed_with 1] in
  let s := fst (trace demo_transition demo_breaker (cycle ++ [ask; fail_with 2])) in
  phase s = Open (mkTimerGeneration 0) /\
  phase (fst (demo_transition s (reset_evidence 0))) = Probing (mkTimerGeneration 0) ProbeAvailable.
Proof. split; reflexivity. Qed.
