(* ===== verification/Workflow.v ===== *)
(** * The workflow coordinator ([crates/actors/src/workflow/coordinator.rs])

    Dependency-ordered activation of steps.  The file first models the graph
    validation, whose [while] loop is fuelled by the number of steps, and then
    the coordinator fold.  A dependency graph is acyclic when some rank
    increases along every edge. *)

From stdpp Require Import base list option numbers sorting.
From S2P Require Import Prelude Effects.

(** ** Data *)

Record WorkflowDefinition (K : Type) := mkDefinition {
  steps : list K;
  dependencies : list (K * K)
}.
Arguments mkDefinition {K} _ _.
Arguments steps {K} _.
Arguments dependencies {K} _.

Inductive WorkflowConfigError (K : Type) : Type :=
| EmptyWorkflow
| DuplicateStep (step : K)
| UnknownPrerequisite (step : K)
| UnknownDependent (step : K)
| SelfDependency (step : K)
| Cycle.
Arguments EmptyWorkflow {K}.
Arguments DuplicateStep {K} _.
Arguments UnknownPrerequisite {K} _.
Arguments UnknownDependent {K} _.
Arguments SelfDependency {K} _.
Arguments Cycle {K}.

Inductive WorkflowStepState : Type := Blocked | Active | Completed.

#[export] Instance WorkflowStepState_EqDecision : EqDecision WorkflowStepState.
Proof. solve_decision. Defined.

Inductive WorkflowState (K Route : Type) : Type :=
| Ready
| Running (progress : list (K * WorkflowStepState)) (reply_to : Route)
| Succeeded (reply_to : Route)
| FailedRun (step : K) (reply_to : Route)
| Cancelled (reply_to : Route).
Arguments Ready {K Route}.
Arguments Running {K Route} _ _.
Arguments Succeeded {K Route} _.
Arguments FailedRun {K Route} _ _.
Arguments Cancelled {K Route} _.

Inductive WorkflowRejection (K : Type) : Type :=
| AlreadyStarted
| UnknownStep (step : K)
| BlockedStep (step : K)
| AlreadyCompleted (step : K)
| Terminal (step : option K).
Arguments AlreadyStarted {K}.
Arguments UnknownStep {K} _.
Arguments BlockedStep {K} _.
Arguments AlreadyCompleted {K} _.
Arguments Terminal {K} _.

Inductive WorkflowInput (K : Type) : Type :=
| CompleteInput (step : K)
| FailInput (step : K).
Arguments CompleteInput {K} _.
Arguments FailInput {K} _.

Inductive WorkflowError (K : Type) : Type := NotStarted (input : WorkflowInput K).
Arguments NotStarted {K} _.

Inductive WorkflowOutcome (K : Type) : Type :=
| Started (activated : list K)
| Advanced (completed : K) (activated : list K)
| SucceededOutcome (completed : K)
| FailedOutcome (step : K)
| CancelledOutcome
| Rejected (reason : WorkflowRejection K).
Arguments Started {K} _.
Arguments Advanced {K} _ _.
Arguments SucceededOutcome {K} _.
Arguments FailedOutcome {K} _.
Arguments CancelledOutcome {K}.
Arguments Rejected {K} _.

Inductive WorkflowMessage (K Route : Type) : Type :=
| Start (reply_to : Route)
| Complete (step : K)
| Fail_ (step : K)
| Cancel (reply_to : Route).
Arguments Start {K Route} _.
Arguments Complete {K Route} _.
Arguments Fail_ {K Route} _.
Arguments Cancel {K Route} _.

Record Workflow (K Route : Type) := mkWorkflow {
  definition : WorkflowDefinition K;
  state : WorkflowState K Route
}.
Arguments mkWorkflow {K Route} _ _.
Arguments definition {K Route} _.
Arguments state {K Route} _.

(** ** Validation *)

Section Validation.
  Context {K : Type} `{!EqDecision K}.
  Implicit Types (d : WorkflowDefinition K) (l reached done : list K).

(** Every prerequisite of [step] is in [done]. *)
Definition prerequisites_met (deps : list (K * K)) (done : list K) (step : K) : bool :=
  forallb (fun e => bool_decide (fst e ∈ done)) (filter (fun e => snd e = step) deps).

(** The first step that occurs earlier in the list: the duplicate loop. *)
Fixpoint first_duplicate (before l : list K) : option K :=
  match l with
  | [] => None
  | x :: l => if bool_decide (x ∈ before) then Some x else first_duplicate (before ++ [x]) l
  end.

(** The loop over the edges. *)
Fixpoint check_edges (ss : list K) (deps : list (K * K)) : result unit (WorkflowConfigError K) :=
  match deps with
  | [] => Ok tt
  | (required, dependent) :: deps =>
      if negb (bool_decide (required ∈ ss)) then Err (UnknownPrerequisite required)
      else if negb (bool_decide (dependent ∈ ss)) then Err (UnknownDependent dependent)
      else if bool_decide (required = dependent) then Err (SelfDependency required)
      else check_edges ss deps
  end.

(** One [for step in &definition.steps] pass. *)
Definition reach_step (deps : list (K * K)) (reached : list K) (step : K) : list K :=
  if negb (bool_decide (step ∈ reached)) && prerequisites_met deps reached step
  then reached ++ [step] else reached.

Definition reach_pass (d : WorkflowDefinition K) (reached : list K) : list K :=
  fold_left (reach_step (dependencies d)) (steps d) reached.

(** The [while] loop; [None] means that the fuel ran out. *)
Fixpoint reach_loop (fuel : nat) (d : WorkflowDefinition K) (reached : list K) :
  option (result unit (WorkflowConfigError K)) :=
  match fuel with
  | 0 => None
  | S fuel =>
      if length reached <? length (steps d) then
        let reached' := reach_pass d reached in
        if length reached' =? length reached then Some (Err Cycle)
        else reach_loop fuel d reached'
      else Some (Ok tt)
  end.

Definition validate (d : WorkflowDefinition K) : option (result unit (WorkflowConfigError K)) :=
  match steps d with
  | [] => Some (Err EmptyWorkflow)
  | _ =>
      match first_duplicate [] (steps d) with
      | Some step => Some (Err (DuplicateStep step))
      | None =>
          match check_edges (steps d) (dependencies d) with
          | Err e => Some (Err e)
          | Ok _ => reach_loop (S (length (steps d))) d []
          end
      end
  end.

(** ** What validation decides *)

Record well_formed (d : WorkflowDefinition K) : Prop := {
  nonempty : steps d <> [];
  distinct : NoDup (steps d);
  known : forall a b, (a, b) ∈ dependencies d -> a ∈ steps d /\ b ∈ steps d;
  acyclic : exists rank : K -> nat, forall a b, (a, b) ∈ dependencies d -> rank a < rank b
}.

Lemma prerequisites_met_spec deps done step :
  prerequisites_met deps done step = true <-> forall a, (a, step) ∈ deps -> a ∈ done.
Proof.
  unfold prerequisites_met. rewrite forallb_forall. split.
  - intros H a Ha. specialize (H (a, step)). rewrite <- list_elem_of_In in H.
    apply bool_decide_eq_true in H; [done|]. by apply list_elem_of_filter.
  - intros H [a b]. rewrite <- list_elem_of_In, list_elem_of_filter. simpl.
    intros [-> Hin]. apply bool_decide_eq_true. auto.
Qed.

Lemma first_duplicate_None before l :
  NoDup before -> first_duplicate before l = None <-> NoDup (before ++ l).
Proof.
  revert before. induction l as [|x l IH]; intros before Hb; simpl; [by rewrite app_nil_r|].
  case_bool_decide as Hx.
  - split; [discriminate|]. intros (_ & H & _)%list.NoDup_app. exfalso.
    apply (H x Hx). left.
  - rewrite IH, <- app_assoc; [done|]. apply list.NoDup_app. split_and!; [done| |apply NoDup_singleton].
    intros y Hy ->%list_elem_of_singleton. done.
Qed.

Lemma check_edges_Ok ss deps :
  check_edges ss deps = Ok tt <->
  forall a b, (a, b) ∈ deps -> a ∈ ss /\ b ∈ ss /\ a <> b.
Proof.
  induction deps as [|[a b] deps IH]; simpl.
  { split; [intros _ a b ?%not_elem_of_nil; done|done]. }
  assert (Hbad : forall e : WorkflowConfigError K, ~ (a ∈ ss /\ b ∈ ss /\ a <> b) ->
    Err e = Ok tt <-> forall x y, (x, y) ∈ (a, b) :: deps -> x ∈ ss /\ y ∈ ss /\ x <> y).
  { intros e Hnot. split; [discriminate|]. intros Hall. destruct Hnot. apply Hall. left. }
  case_bool_decide as Ha; simpl; [|apply Hbad; tauto].
  case_bool_decide as Hb; simpl; [|apply Hbad; tauto].
  case_bool_decide as Hab; [apply Hbad; tauto|].
  rewrite IH. split.
  - intros Hall x y [[= -> ->]|Hin]%elem_of_cons; auto.
  - intros Hall x y Hin. apply Hall. by right.
Qed.

(** A graph with a rank always has a next step: one that is not done and whose
    prerequisites all are. *)
Lemma frontier d (rank : K -> nat) done step :
  (forall a b, (a, b) ∈ dependencies d -> rank a < rank b) ->
  (forall a b, (a, b) ∈ dependencies d -> a ∈ steps d /\ b ∈ steps d) ->
  step ∈ steps d -> step ∉ done ->
  exists x, x ∈ steps d /\ (x ∉ done) /\ forall a, (a, x) ∈ dependencies d -> a ∈ done.
Proof.
  intros Hrank Hknown. remember (rank step) as n eqn:Hn. revert step Hn.
  induction n as [n IH] using lt_wf_ind. intros step -> Hin Hout.
  destruct (decide (Forall (fun e => snd e = step -> fst e ∈ done) (dependencies d))) as [Hall|Hex].
  - exists step. split_and!; [done..|]. intros a Ha.
    rewrite Forall_forall in Hall. exact (Hall (a, step) Ha eq_refl).
  - apply not_Forall_Exists in Hex; [|apply _]. apply Exists_exists in Hex as ([a b] & Hab & Hnot).
    simpl in Hnot. destruct (decide (b = step)) as [->|]; [|tauto].
    destruct (decide (a ∈ done)) as [|Ha]; [tauto|].
    eapply (IH (rank a)); [by apply Hrank|done|exact (proj1 (Hknown _ _ Hab))|done].
Qed.

(** Reached steps are distinct, known, and preceded by their prerequisites. *)
Record reached_ok (d : WorkflowDefinition K) (reached : list K) : Prop := {
  reached_distinct : NoDup reached;
  reached_known : forall x, x ∈ reached -> x ∈ steps d;
  reached_ordered : forall i b a, reached !! i = Some b -> (a, b) ∈ dependencies d ->
    a ∈ take i reached
}.

Lemma reach_step_ok d reached step :
  reached_ok d reached -> step ∈ steps d -> reached_ok d (reach_step (dependencies d) reached step).
Proof.
  intros [Hn Hk Ho] Hs. unfold reach_step. case_bool_decide as Hin; simpl; [by split|].
  destruct (prerequisites_met (dependencies d) reached step) eqn:Hm; [|by split].
  rewrite prerequisites_met_spec in Hm. split.
  - apply list.NoDup_app. split_and!; [done| |apply NoDup_singleton].
    intros y Hy ->%list_elem_of_singleton. done.
  - intros x [Hx| ->%list_elem_of_singleton]%elem_of_app; auto.
  - intros i b a Hi Hab. destruct (decide (i < length reached)) as [Hlt|Hge].
    + rewrite lookup_app_l in Hi by done. rewrite take_app_le by lia. eauto.
    + pose proof (lookup_lt_Some _ _ _ Hi) as Hl. rewrite length_app in Hl; simpl in Hl.
      assert (i = length reached) as -> by lia.
      rewrite list_lookup_middle in Hi by done. injection Hi as ->.
      rewrite take_app_length. auto.
Qed.

Lemma reach_step_prefix deps reached step : reached `prefix_of` reach_step deps reached step.
Proof. unfold reach_step. destruct (_ && _); [by apply prefix_app_r|done]. Qed.

Lemma reach_fold_ok d ss reached :
  reached_ok d reached -> (forall x, x ∈ ss -> x ∈ steps d) ->
  reached_ok d (fold_left (reach_step (dependencies d)) ss reached) /\
  reached `prefix_of` fold_left (reach_step (dependencies d)) ss reached.
Proof.
  revert reached. induction ss as [|x ss IH]; intros reached Hr Hss; simpl; [done|].
  destruct (IH (reach_step (dependencies d) reached x)) as [H1 H2].
  - apply reach_step_ok; [done|]. apply Hss. left.
  - intros y Hy. apply Hss. by right.
  - split; [done|]. etrans; [apply reach_step_prefix|done].
Qed.

Lemma reach_fold_adds deps ss reached x :
  x ∈ ss -> x ∉ reached -> prerequisites_met deps reached x = true ->
  x ∈ fold_left (reach_step deps) ss reached.
Proof.
  assert (Hmono : forall ss r, r `prefix_of` fold_left (reach_step deps) ss r).
  { induction ss0 as [|y ss0 IH]; intros r; simpl; [done|].
    etrans; [apply reach_step_prefix|apply IH]. }
  revert reached. induction ss as [|y ss IH]; intros reached Hin Hout Hm; [by apply not_elem_of_nil in Hin|].
  simpl. destruct (decide (x ∈ reach_step deps reached y)) as [Hy|Hy].
  - destruct (Hmono ss (reach_step deps reached y)) as [k ->]. apply elem_of_app. by left.
  - apply elem_of_cons in Hin as [->|Hin].
    + exfalso. apply Hy. unfold reach_step. rewrite bool_decide_eq_false_2, Hm by done. simpl.
      apply elem_of_app. right. by left.
    + apply IH; [done..|]. rewrite prerequisites_met_spec in Hm |- *. intros a Ha.
      destruct (reach_step_prefix deps reached y) as [k ->]. apply elem_of_app. auto.
Qed.

(** When every step is reached, the order of reaching is a rank. *)
Lemma reached_rank d reached :
  reached_ok d reached -> NoDup (steps d) -> length (steps d) <= length reached ->
  (forall a b, (a, b) ∈ dependencies d -> a ∈ steps d /\ b ∈ steps d) ->
  exists rank : K -> nat, forall a b, (a, b) ∈ dependencies d -> rank a < rank b.
Proof.
  intros [Hn Hk Ho] Hd Hl Hknown.
  assert (Hperm : reached ≡ₚ steps d).
  { apply submseteq_length_Permutation; [by apply NoDup_submseteq|done]. }
  exists (fun k => default 0 (position (fun x => bool_decide (x = k)) reached)).
  assert (Hpos : forall k i, reached !! i = Some k ->
    default 0 (position (fun x => bool_decide (x = k)) reached) = i).
  { intros k i Hi. destruct (position _ reached) as [p|] eqn:Hp; simpl.
    - apply position_Some in Hp as (x & Hx & Heq & _). apply bool_decide_eq_true in Heq. subst x.
      exact (NoDup_lookup _ _ _ _ Hn Hx Hi).
    - rewrite position_None, Forall_forall in Hp. apply list_elem_of_lookup_2 in Hi.
      specialize (Hp k Hi). simpl in Hp. by apply bool_decide_eq_false in Hp. }
  intros a b Hab. destruct (Hknown a b Hab) as [_ Hb]. rewrite <- Hperm in Hb.
  apply list_elem_of_lookup in Hb as [i Hi]. specialize (Ho i b a Hi Hab).
  apply list_elem_of_lookup in Ho as [j Hj]. pose proof (lookup_lt_Some _ _ _ Hj) as Hlt.
  rewrite length_take in Hlt. rewrite lookup_take_lt in Hj by lia.
  rewrite (Hpos _ _ Hi), (Hpos _ _ Hj). lia.
Qed.

Lemma unreached_step d reached :
  NoDup (steps d) -> length reached < length (steps d) -> exists x, x ∈ steps d /\ x ∉ reached.
Proof.
  intros Hd Hl. destruct (decide (Forall (fun x => x ∈ reached) (steps d))) as [Hall|Hex].
  - exfalso. rewrite Forall_forall in Hall.
    pose proof (submseteq_length _ _ (NoDup_submseteq _ _ Hd Hall)). lia.
  - apply not_Forall_Exists, Exists_exists in Hex; [|apply _]. naive_solver.
Qed.

(** The loop ends within its fuel and decides acyclicity. *)
Lemma reach_loop_decides fuel d : forall reached,
  NoDup (steps d) -> (forall a b, (a, b) ∈ dependencies d -> a ∈ steps d /\ b ∈ steps d) ->
  reached_ok d reached -> length (steps d) - length reached < fuel ->
  (reach_loop fuel d reached = Some (Ok tt) /\
     exists rank : K -> nat, forall a b, (a, b) ∈ dependencies d -> rank a < rank b) \/
  (reach_loop fuel d reached = Some (Err Cycle) /\
     ~ exists rank : K -> nat, forall a b, (a, b) ∈ dependencies d -> rank a < rank b).
Proof.
  induction fuel as [|fuel IH]; intros reached Hd Hknown Hr Hf; [lia|]. simpl.
  destruct (Nat.ltb_spec (length reached) (length (steps d))) as [Hlt|Hge].
  2: { left. split; [done|]. by eapply reached_rank. }
  destruct (reach_fold_ok d (steps d) reached Hr (fun _ H => H)) as [Hr' Hpre].
  fold (reach_pass d reached) in Hr', Hpre.
  destruct (Nat.eqb_spec (length (reach_pass d reached)) (length reached)) as [Heq|Hne].
  - right. split; [done|]. intros [rank Hrank].
    destruct (unreached_step d reached Hd Hlt) as (y & Hy & Hny).
    destruct (frontier d rank reached y Hrank Hknown Hy Hny) as (x & Hx & Hnx & Hpx).
    apply Hnx. assert (reach_pass d reached = reached) as <-.
    { destruct Hpre as [k Hpre]. rewrite Hpre in Heq |- *. rewrite length_app in Heq.
      destruct k; [by rewrite app_nil_r|simpl in Heq; lia]. }
    unfold reach_pass. apply reach_fold_adds; [done|done|]. by apply prerequisites_met_spec.
  - apply IH; [done|done|done|]. apply prefix_length in Hpre. lia.
Qed.

Lemma workflow_validation_sound d :
  (validate d = Some (Ok tt) <-> well_formed d) /\ (exists r, validate d = Some r).
Proof.
  assert (Hgood : well_formed d -> steps d <> [] /\ first_duplicate [] (steps d) = None /\
    check_edges (steps d) (dependencies d) = Ok tt).
  { intros [Hne Hd Hk [rank Hrank]]. split_and!; [done| |].
    - by apply first_duplicate_None; [constructor|].
    - apply check_edges_Ok. intros a b Hab. destruct (Hk a b Hab). split_and!; [done..|].
      intros ->. specialize (Hrank b b Hab). lia. }
  unfold validate. destruct (steps d) as [|x l] eqn:Hs.
  { split; [|eauto]. split; [discriminate|]. intros [Hne _]%Hgood. done. }
  rewrite <- Hs. destruct (first_duplicate [] (steps d)) as [k|] eqn:Hdup.
  { split; [|eauto]. split; [discriminate|]. intros (_ & H & _)%Hgood. rewrite Hs in Hdup. congruence. }
  apply first_duplicate_None in Hdup; [|constructor]. simpl in Hdup.
  destruct (check_edges (steps d) (dependencies d)) as [[]|e] eqn:He.
  2: { split; [|eauto]. split; [discriminate|]. intros (_ & _ & H)%Hgood. rewrite Hs in He. congruence. }
  rewrite check_edges_Ok in He.
  assert (Hk : forall a b, (a, b) ∈ dependencies d -> a ∈ steps d /\ b ∈ steps d) by naive_solver.
  destruct (reach_loop_decides (S (length (steps d))) d []) as [[-> Hrank]|[-> Hrank]].
  - done.
  - done.
  - split; [constructor|by intros ? ?%not_elem_of_nil|by intros i b a ?].
  - simpl. lia.
  - split; [|eauto]. split; [|done]. intros _. split; [by rewrite Hs|done|done|done].
  - split; [|eauto]. split; [discriminate|]. intros [_ _ _ H]. done.
Qed.

(** Validation terminates and decides well-formedness: it accepts a
    definition exactly when it has steps, the steps are distinct, every edge
    joins defined steps, and the dependencies are acyclic; otherwise it returns
    one of its typed errors. *)
Theorem workflow_validation_decides d :
  (validate d = Some (Ok tt) <-> well_formed d) /\ (exists r, validate d = Some r).
Proof. apply workflow_validation_sound. Qed.

End Validation.

(** ** The coordinator fold *)

Section Coordinator.
  Context {A K Route Sends : Type} `{!EqDecision K, !SendEffects Sends}.
  Context `{!DeliveryRoute Route (WorkflowOutcome K) Sends}.

Abbreviation workflow := (Workflow K Route).
Abbreviation progress_list := (list (K * WorkflowStepState)).
Abbreviation workflow_actions := (Actions Never Never Sends).
Abbreviation acted := (Acted Never Never Sends (WorkflowError K)).
Abbreviation event := (User A (WorkflowMessage K Route)).

(** [Workflow::new]; [None] would be a validation that runs out of fuel. *)
Definition new (d : WorkflowDefinition K) : option (result workflow (WorkflowConfigError K)) :=
  match validate d with
  | None => None
  | Some (Err e) => Some (Err e)
  | Some (Ok _) => Some (Ok (mkWorkflow d Ready))
  end.

(** [Workflow::reply]. *)
Definition reply_with (reply : Route) (o : WorkflowOutcome K) : workflow_actions :=
  send (deliver reply o).

Definition with_state (s : workflow) (st : WorkflowState K Route) : workflow :=
  mkWorkflow (definition s) st.

(** No edge makes [step] a dependent. *)
Definition is_root (deps : list (K * K)) (step : K) : bool :=
  negb (existsb (fun e => bool_decide (snd e = step)) deps).

(** The activation loops: each blocked step that is ready becomes active, in
    definition order. *)
Fixpoint activate (ready : K -> bool) (p : progress_list) : progress_list * list K :=
  match p with
  | [] => ([], [])
  | (k, st) :: p =>
      let '(p', activated) := activate ready p in
      if bool_decide (st = Blocked) && ready k then ((k, Active) :: p', k :: activated)
      else ((k, st) :: p', activated)
  end.

Definition start (s : workflow) (reply : Route) : workflow * workflow_actions :=
  match state s with
  | Ready =>
      let '(p, activated) :=
        activate (is_root (dependencies (definition s)))
          ((fun step => (step, Blocked)) <$> steps (definition s)) in
      (with_state s (Running p reply), reply_with reply (Started activated))
  | _ => (s, reply_with reply (Rejected AlreadyStarted))
  end.

(** The reply of a terminal run, where there is one. *)
Definition terminal_reply (s : workflow) : option Route :=
  match state s with
  | Succeeded reply | FailedRun _ reply | Cancelled reply => Some reply
  | Ready | Running _ _ => None
  end.

Definition terminal_rejection (s : workflow) (step : K) : workflow * workflow_actions :=
  (s, match terminal_reply s with
      | None => cont
      | Some reply => reply_with reply (Rejected (Terminal (Some step)))
      end).

(** The keys of the completed steps. *)
Definition completed_keys (p : progress_list) : list K :=
  fst <$> filter (fun x => snd x = Completed) p.

Definition all_completed (p : progress_list) : bool :=
  forallb (fun x => bool_decide (snd x = Completed)) p.

Definition complete (s : workflow) (step : K) : workflow * workflow_actions :=
  match state s with
  | Running p reply =>
      match position (fun x => bool_decide (fst x = step)) p with
      | None => (s, reply_with reply (Rejected (UnknownStep step)))
      | Some index =>
          match p !! index with
          | Some (_, Blocked) => (s, reply_with reply (Rejected (BlockedStep step)))
          | Some (_, Completed) => (s, reply_with reply (Rejected (AlreadyCompleted step)))
          | Some (k, Active) =>
              let p := <[index := (k, Completed)]> p in
              if all_completed p then
                (with_state s (Succeeded reply), reply_with reply (SucceededOutcome step))
              else
                let '(p, activated) :=
                  activate (prerequisites_met (dependencies (definition s)) (completed_keys p)) p in
                (with_state s (Running p reply), reply_with reply (Advanced step activated))
          | None => (s, reply_with reply (Rejected (UnknownStep step)))
          end
      end
  | _ => terminal_rejection s step
  end.

Definition fail_step (s : workflow) (step : K) : workflow * workflow_actions :=
  match state s with
  | Running p reply =>
      match List.find (fun x => bool_decide (fst x = step)) p with
      | None => (s, reply_with reply (Rejected (UnknownStep step)))
      | Some (_, Active) =>
          (with_state s (FailedRun step reply), reply_with reply (FailedOutcome step))
      | Some (_, Blocked) => (s, reply_with reply (Rejected (BlockedStep step)))
      | Some (_, Completed) => (s, reply_with reply (Rejected (AlreadyCompleted step)))
      end
  | _ => terminal_rejection s step
  end.

(** The [Cancel] arm. *)
Definition cancel (s : workflow) (reply : Route) : workflow * workflow_actions :=
  match state s with
  | Ready | Running _ _ =>
      (with_state s (Cancelled reply), reply_with reply CancelledOutcome)
  | _ => (s, reply_with reply (Rejected (Terminal None)))
  end.

Definition transition (s : workflow) (e : event) : workflow * acted :=
  match message e with
  | Start reply => let '(s', a) := start s reply in (s', Ok a)
  | Complete step =>
      match state s with
      | Ready => (s, Err (NotStarted (CompleteInput step)))
      | _ => let '(s', a) := complete s step in (s', Ok a)
      end
  | Fail_ step =>
      match state s with
      | Ready => (s, Err (NotStarted (FailInput step)))
      | _ => let '(s', a) := fail_step s step in (s', Ok a)
      end
  | Cancel reply => let '(s', a) := cancel s reply in (s', Ok a)
  end.

(** ** Activation *)

(** The keys of the steps that were activated. *)
Definition started_keys (p : progress_list) : list K :=
  fst <$> filter (fun x => snd x <> Blocked) p.

Lemma activate_spec ready p :
  fst <$> fst (activate ready p) = fst <$> p /\
  completed_keys (fst (activate ready p)) = completed_keys p /\
  started_keys (fst (activate ready p)) ≡ₚ started_keys p ++ snd (activate ready p) /\
  (forall k st', (k, st') ∈ fst (activate ready p) -> exists st, (k, st) ∈ p /\
     st' = if bool_decide (st = Blocked) && ready k then Active else st) /\
  (forall k st, (k, st) ∈ p -> (k, if bool_decide (st = Blocked) && ready k then Active else st)
     ∈ fst (activate ready p)).
Proof.
  unfold completed_keys, started_keys. induction p as [|[k st] p IH]; simpl.
  { split_and!; [done..| |]; intros k st' ?%not_elem_of_nil; done. }
  destruct (activate ready p) as [p' act]. simpl in IH. destruct IH as (H1 & H2 & H3 & H4 & H5).
  destruct (bool_decide (st = Blocked) && ready k) eqn:Hr; csimpl.
  - pose proof Hr as [Hst _]%andb_true_iff. apply bool_decide_eq_true in Hst as ->.
    rewrite !filter_cons. repeat case_decide; simpl in *; try tauto; try discriminate; csimpl.
    split_and!; [by rewrite H1|done|by rewrite H3, Permutation_middle| |].
    1: intros x y [[= -> ->]|Hin]%elem_of_cons.
    + exists Blocked. split; [left|]. by rewrite Hr.
    + destruct (H4 x y Hin) as (st & Hst & ->). exists st. split; [by right|done].
    + intros x y [[= -> ->]|Hin]%elem_of_cons; [rewrite Hr; left|right; auto].
  - rewrite !filter_cons. simpl.
    split_and!; [by rewrite H1|by destruct (decide (st = Completed)); csimpl; rewrite H2|
      by destruct (decide (st <> Blocked)); csimpl; rewrite H3| |].
    1: intros x y [[= -> ->]|Hin]%elem_of_cons.
    + exists st. split; [left|]. by rewrite Hr.
    + destruct (H4 x y Hin) as (st' & Hst & ->). exists st'. split; [by right|done].
    + intros x y [[= -> ->]|Hin]%elem_of_cons; [rewrite Hr; left|right; auto].
Qed.

Lemma completed_keys_elem p k : k ∈ completed_keys p <-> (k, Completed) ∈ p.
Proof.
  unfold completed_keys. rewrite list_elem_of_fmap. split.
  - intros ([x st] & -> & [Hst Hin]%list_elem_of_filter). simpl in *. by subst.
  - intros Hin. exists (k, Completed). split; [done|]. by apply list_elem_of_filter.
Qed.

Lemma started_keys_elem p k : k ∈ started_keys p <-> exists st, (k, st) ∈ p /\ st <> Blocked.
Proof.
  unfold started_keys. rewrite list_elem_of_fmap. split.
  - intros ([x st] & -> & [Hst Hin]%list_elem_of_filter). simpl in *. eauto.
  - intros (st & Hin & Hst). exists (k, st). split; [done|]. by apply list_elem_of_filter.
Qed.

(** ** Invariant of a run

    [log] lists the activated steps and [done] the completed ones, in order. *)

(** What holds in every phase. *)
Record sound (d : WorkflowDefinition K) (log done : list K) : Prop := {
  sound_once : NoDup log;
  sound_done : done ⊆+ log;
  sound_known : forall k, k ∈ log -> k ∈ steps d;
  sound_order : forall a b, b ∈ log -> (a, b) ∈ dependencies d -> a ∈ done
}.

(** What holds while the run goes on. *)
Record running_ok (d : WorkflowDefinition K) (p : progress_list) (log done : list K) : Prop := {
  running_keys : fst <$> p = steps d;
  running_log : log ≡ₚ started_keys p;
  running_done : done ≡ₚ completed_keys p;
  running_blocked : forall k, (k, Blocked) ∈ p ->
    ~ forall a, (a, k) ∈ dependencies d -> a ∈ completed_keys p;
  running_started : forall k st, (k, st) ∈ p -> st <> Blocked ->
    forall a, (a, k) ∈ dependencies d -> a ∈ completed_keys p;
  running_open : exists k st, (k, st) ∈ p /\ st <> Completed
}.

Lemma filtered_keys_NoDup (P : K * WorkflowStepState -> Prop) `{!forall x, Decision (P x)} p :
  NoDup (fst <$> p) -> NoDup (fst <$> filter P p).
Proof.
  induction p as [|x p IH]; csimpl; [done|]. intros [Hx Hp]%NoDup_cons.
  rewrite filter_cons. case_decide; csimpl; [|auto]. constructor; [|auto].
  intros (y & Hy & [_ Hin]%list_elem_of_filter)%list_elem_of_fmap.
  apply Hx, list_elem_of_fmap. eauto.
Qed.

Lemma running_sound d p log done :
  NoDup (steps d) -> running_ok d p log done -> sound d log done.
Proof.
  intros Hd [Hk Hl Hc Hb Hs Ho]. rewrite <- Hk in Hd. split.
  - rewrite Hl. by apply filtered_keys_NoDup.
  - rewrite Hl, Hc. apply NoDup_submseteq; [by apply filtered_keys_NoDup|].
    intros k Hin%completed_keys_elem. apply started_keys_elem. eauto.
  - intros k Hin. rewrite Hl in Hin. apply started_keys_elem in Hin as (st & Hin & _).
    rewrite <- Hk. apply list_elem_of_fmap. by exists (k, st).
  - intros a b Hin Hab. rewrite Hl in Hin. apply started_keys_elem in Hin as (st & Hin & Hst).
    rewrite Hc. eauto.
Qed.

(** No deadlock: while the run goes on, some step is active. *)
Lemma running_active d p log done :
  well_formed d -> running_ok d p log done -> exists k, (k, Active) ∈ p.
Proof.
  intros [_ Hd Hknown [rank Hrank]] [Hk _ _ Hb _ (k & st & Hin & Hst)].
  assert (Hstep : k ∈ steps d) by (rewrite <- Hk; apply list_elem_of_fmap; by exists (k, st)).
  assert (Hout : k ∉ completed_keys p).
  { intros Hc%completed_keys_elem. apply Hst. rewrite <- Hk in Hd.
    apply list_elem_of_lookup in Hin as [i Hi]. apply list_elem_of_lookup in Hc as [j Hj].
    assert (i = j) as ->.
    { eapply (NoDup_lookup _ _ _ k Hd); rewrite list_lookup_fmap; [by rewrite Hi|by rewrite Hj]. }
    congruence. }
  destruct (frontier d rank (completed_keys p) k Hrank Hknown Hstep Hout) as (x & Hx & Hnx & Hpx).
  rewrite <- Hk in Hx. apply list_elem_of_fmap in Hx as ([y sty] & -> & Hy). simpl in *.
  exists y. destruct sty; [|done|].
  - exfalso. by apply (Hb y Hy).
  - exfalso. apply Hnx. by apply completed_keys_elem.
Qed.

(** Activation over the definition of readiness re-establishes the invariant. *)
Lemma activate_running d ready p log done act :
  fst <$> p = steps d -> log ≡ₚ started_keys p -> done ≡ₚ completed_keys p ->
  (forall k, ready k = true <-> forall a, (a, k) ∈ dependencies d -> a ∈ completed_keys p) ->
  (forall k st, (k, st) ∈ p -> st <> Blocked ->
     forall a, (a, k) ∈ dependencies d -> a ∈ completed_keys p) ->
  (exists k st, (k, st) ∈ p /\ st <> Completed) ->
  act = snd (activate ready p) ->
  running_ok d (fst (activate ready p)) (log ++ act) done.
Proof.
  intros Hk Hl Hc Hready Hst Hopen ->.
  destruct (activate_spec ready p) as (H1 & H2 & H3 & H4 & H5). split.
  - by rewrite H1.
  - by rewrite H3, Hl.
  - by rewrite H2.
  - intros k Hin Hall. rewrite H2 in Hall. apply Hready in Hall.
    destruct (H4 _ _ Hin) as (st & _ & Heq).
    destruct (bool_decide (st = Blocked)) eqn:Hb; simpl in Heq.
    + rewrite Hall in Heq. discriminate.
    + apply bool_decide_eq_false in Hb. congruence.
  - intros k st Hin Hne. rewrite H2. destruct (H4 _ _ Hin) as (st0 & Hin0 & Heq).
    destruct (bool_decide (st0 = Blocked)) eqn:Hb; simpl in Heq.
    + destruct (ready k) eqn:Hr; [by apply Hready|]. apply bool_decide_eq_true in Hb. congruence.
    + apply bool_decide_eq_false in Hb. eauto.
  - destruct Hopen as (k & st & Hin & Hne).
    do 2 eexists. split; [exact (H5 k st Hin)|]. by destruct (_ && _).
Qed.

(** Completing the active step at [i]. *)
Lemma complete_progress (p : progress_list) i k :
  p !! i = Some (k, Active) ->
  fst <$> <[i := (k, Completed)]> p = fst <$> p /\
  started_keys (<[i := (k, Completed)]> p) = started_keys p /\
  completed_keys (<[i := (k, Completed)]> p) ≡ₚ completed_keys p ++ [k] /\
  (forall x st, (x, st) ∈ <[i := (k, Completed)]> p -> st <> Blocked ->
     exists st0, (x, st0) ∈ p /\ st0 <> Blocked).
Proof.
  intros Hi. pose proof (lookup_lt_Some _ _ _ Hi) as Hlt.
  assert (exists l1 l2, p = l1 ++ (k, Active) :: l2 /\
    <[i := (k, Completed)]> p = l1 ++ (k, Completed) :: l2) as (l1 & l2 & Hp & ->).
  { exists (take i p), (drop (S i) p). split; [by rewrite take_drop_middle|].
    by apply insert_take_drop. }
  rewrite Hp. clear. unfold started_keys, completed_keys.
  rewrite !filter_app, !fmap_app, !filter_cons. csimpl.
  repeat case_decide; simpl in *; try done; try tauto; csimpl.
  split_and!; [done|done|rewrite <- app_assoc; f_equiv; apply Permutation_cons_append|].
  intros x st [Hin|[[= -> ->]|Hin]%elem_of_cons]%elem_of_app Hst.
  - exists st. split; [|done]. apply elem_of_app. by left.
  - exists Active. split; [|done]. apply elem_of_app. right. left.
  - exists st. split; [|done]. apply elem_of_app. right. by right.
Qed.

Lemma all_completed_spec p : all_completed p = true ->
  completed_keys p = fst <$> p /\ started_keys p = fst <$> p.
Proof.
  unfold all_completed, completed_keys, started_keys.
  induction p as [|[k st] p IH]; csimpl; [done|].
  intros [Hst Hall]%andb_true_iff. apply bool_decide_eq_true in Hst. simpl in Hst. subst st.
  rewrite !filter_cons. repeat case_decide; simpl in *; try done. csimpl.
  destruct (IH Hall) as [H1 H2]. split; f_equal; assumption.
Qed.

Lemma not_all_completed p : all_completed p = false -> exists k st, (k, st) ∈ p /\ st <> Completed.
Proof.
  unfold all_completed. induction p as [|[k st] p IH]; simpl; [discriminate|].
  destruct (bool_decide (st = Completed)) eqn:Hst; simpl.
  - intros H. destruct (IH H) as (k' & st' & Hin & Hne). exists k', st'. split; [by right|done].
  - intros _. apply bool_decide_eq_false in Hst. exists k, st. split; [left|done].
Qed.

Context `{!RouteLaws Route (WorkflowOutcome K) Sends}.

Definition outcomes_of (o : acted) : list (WorkflowOutcome K) :=
  match o with Ok a => messages_of (sends a) | Err _ => [] end.

(** Steps activated, and steps whose completion was committed, by a step. *)
Definition activated_in (o : acted) : list K :=
  outcomes_of o ≫= (fun m => match m with Started l | Advanced _ l => l | _ => [] end).

Definition completed_in (o : acted) : list K :=
  outcomes_of o ≫= (fun m => match m with Advanced k _ | SucceededOutcome k => [k] | _ => [] end).

Definition tracked (d : WorkflowDefinition K) (s : workflow) (log done : list K) : Prop :=
  definition s = d /\ sound d log done /\
  match state s with
  | Ready => log = [] /\ done = []
  | Running p _ => running_ok d p log done
  | Succeeded _ => log ≡ₚ steps d /\ done ≡ₚ steps d
  | FailedRun _ _ | Cancelled _ => True
  end.

(** A step that activates and completes nothing. *)
Lemma tracked_quiet d s' log done (a : workflow_actions) :
  tracked d s' log done -> activated_in (Ok a) = [] -> completed_in (Ok a) = [] ->
  tracked d s' (log ++ activated_in (Ok a)) (done ++ completed_in (Ok a)).
Proof. intros H -> ->. by rewrite !app_nil_r. Qed.

Lemma quiet_reply reply m :
  match m with Started _ | Advanced _ _ | SucceededOutcome _ => False | _ => True end ->
  activated_in (Ok (reply_with reply m)) = [] /\ completed_in (Ok (reply_with reply m)) = [].
Proof.
  intros Hm. unfold activated_in, completed_in; simpl. rewrite messages_of_deliver.
  by destruct m; csimpl.
Qed.

Lemma tracked_start d s reply log done :
  well_formed d -> tracked d s log done ->
  tracked d (fst (start s reply)) (log ++ activated_in (Ok (snd (start s reply))))
    (done ++ completed_in (Ok (snd (start s reply)))).
Proof.
  intros Hwf (Hd & Hs & Hst). unfold start.
  destruct (state s) eqn:Hstate.
  2-5: apply (tracked_quiet d s); [split_and!; [done|done|by rewrite Hstate]|by apply quiet_reply..].
  destruct Hst as [-> ->]. set (p0 := (fun step => (step, Blocked)) <$> steps (definition s)).
  assert (Hcp : completed_keys p0 = [] /\ started_keys p0 = [] /\ fst <$> p0 = steps d).
  { unfold p0, completed_keys, started_keys. rewrite Hd. clear.
    induction (steps d) as [|x l [H1 [H2 H3]]]; [done|]. csimpl. rewrite !filter_cons.
    repeat case_decide; simpl in *; try done; try tauto. by rewrite H3. }
  destruct Hcp as (Hc & Hstd & Hk).
  pose proof (activate_running d (is_root (dependencies (definition s))) p0 [] []
    (snd (activate (is_root (dependencies (definition s))) p0))) as Hrun.
  destruct (activate (is_root (dependencies (definition s))) p0) as [p act]. simpl in *.
  assert (Hok : running_ok d p act []).
  { apply Hrun; [done|by rewrite Hstd|by rewrite Hc| | | |done].
    - intros k. rewrite Hc, Hd. unfold is_root. rewrite negb_true_iff. split.
      + intros He a Ha. exfalso. apply not_true_iff_false in He. apply He.
        apply existsb_exists. exists (a, k). rewrite <- list_elem_of_In. split; [done|].
        by apply bool_decide_eq_true.
      + intros Hall. apply not_true_iff_false. intros ([a b] & Hin & Hb)%existsb_exists.
        apply bool_decide_eq_true in Hb. simpl in Hb. subst b. rewrite <- list_elem_of_In in Hin.
        specialize (Hall a Hin). by apply not_elem_of_nil in Hall.
    - unfold p0. intros k st (x & [= -> ->] & _)%list_elem_of_fmap. done.
    - destruct Hwf as [Hne _ _ _]. unfold p0. rewrite Hd.
      destruct (steps d) as [|x l]; [done|]. exists x, Blocked. split; [left|done]. }
  unfold activated_in, completed_in; simpl. rewrite messages_of_deliver; csimpl.
  rewrite app_nil_r. split_and!; [done| |done].
  eapply running_sound; [apply Hwf|done].
Qed.

Lemma tracked_terminal d s step log done :
  tracked d s log done ->
  tracked d s (log ++ activated_in (Ok (snd (terminal_rejection s step))))
    (done ++ completed_in (Ok (snd (terminal_rejection s step)))).
Proof.
  intros Ht. apply (tracked_quiet d s); [done|..]; unfold terminal_rejection; simpl;
    destruct (terminal_reply s); simpl; try (by apply quiet_reply);
    unfold activated_in, completed_in; simpl; by rewrite messages_of_empty.
Qed.

Lemma tracked_complete d s step log done :
  well_formed d -> tracked d s log done ->
  tracked d (fst (complete s step)) (log ++ activated_in (Ok (snd (complete s step))))
    (done ++ completed_in (Ok (snd (complete s step)))).
Proof.
  intros Hwf Ht. pose proof Ht as (Hd & Hs & Hst). unfold complete.
  destruct (state s) as [|p reply| | |] eqn:Hstate; try (by apply tracked_terminal).
  destruct (position (fun x => bool_decide (fst x = step)) p) as [i|] eqn:Hp;
    [|apply (tracked_quiet d s); [done|by apply quiet_reply..]].
  destruct (position_Some _ _ _ Hp) as ([k st] & Hi & Hk & _). rewrite Hi.
  apply bool_decide_eq_true in Hk. simpl in Hk. subst k.
  destruct st; try (apply (tracked_quiet d s); [done|by apply quiet_reply..]).
  destruct (complete_progress p i step Hi) as (Hkeys & Hstd & Hcomp & Hsub).
  set (p1 := <[i := (step, Completed)]> p) in *.
  destruct Hst as [Hk Hl Hdn Hb Hsts Hopen].
  destruct (all_completed p1) eqn:Hall.
  - destruct (all_completed_spec p1 Hall) as [Hc1 Hs1].
    unfold activated_in, completed_in; simpl. rewrite messages_of_deliver; csimpl.
    rewrite app_nil_r.
    assert (Hlog : log ≡ₚ steps d) by (rewrite Hl, <- Hstd, Hs1, Hkeys; by rewrite Hk).
    assert (Hdone : done ++ [step] ≡ₚ steps d) by (rewrite Hdn, <- Hcomp, Hc1, Hkeys; by rewrite Hk).
    split_and!; [done| |done]. destruct Hs as [Ho Hsd Hkn Hor]. split; auto.
    + by rewrite Hlog, Hdone.
    + intros a b Hb' Hab. apply elem_of_app. left. eauto.
  - pose proof (activate_running d
      (prerequisites_met (dependencies (definition s)) (completed_keys p1)) p1 log (done ++ [step])
      (snd (activate (prerequisites_met (dependencies (definition s)) (completed_keys p1)) p1))) as Hrun.
    destruct (activate _ p1) as [p2 act]. simpl in *.
    assert (Hok : running_ok d p2 (log ++ act) (done ++ [step])).
    { apply Hrun; [by rewrite Hkeys|by rewrite Hl, Hstd|by rewrite Hdn, Hcomp| | |
        by apply not_all_completed|done].
      - intros k. rewrite Hd. apply prerequisites_met_spec.
      - intros k st Hin Hne a Ha. destruct (Hsub k st Hin Hne) as (st0 & Hin0 & Hne0).
        rewrite Hcomp. apply elem_of_app. left. eauto. }
    unfold activated_in, completed_in; simpl. rewrite messages_of_deliver; csimpl.
    rewrite app_nil_r. split_and!; [done| |done]. eapply running_sound; [apply Hwf|done].
Qed.

Lemma tracked_transition d s e log done :
  well_formed d -> tracked d s log done ->
  tracked d (fst (transition s e)) (log ++ activated_in (snd (transition s e)))
    (done ++ completed_in (snd (transition s e))).
Proof.
  intros Hwf Ht. unfold transition. destruct (message e) as [reply|step|step|reply].
  - pose proof (tracked_start d s reply log done Hwf Ht). by destruct (start s reply).
  - pose proof (tracked_complete d s step log done Hwf Ht) as Hc.
    destruct (state s) eqn:Hst; [|by destruct (complete s step)..].
    simpl. by rewrite !app_nil_r.
  - destruct (state s) as [|p reply| | |] eqn:Hst; [simpl; by rewrite !app_nil_r| |..];
      unfold fail_step; rewrite Hst; try (by apply tracked_terminal).
    destruct (List.find _ p) as [[k []]|]; simpl;
      try (apply (tracked_quiet d s); [done|by apply quiet_reply..]).
    apply (tracked_quiet d _); [|by apply quiet_reply..]. by destruct Ht as (Hd & Hs & _).
  - unfold cancel. destruct Ht as (Hd & Hs & Hst). destruct (state s) eqn:Hstate; simpl;
      (apply tracked_quiet; [split_and!; [done|done|simpl; try done; by rewrite Hstate]|
        by apply quiet_reply..]).
Qed.

Lemma tracked_trace d es : well_formed d -> forall s log done, tracked d s log done ->
  let '(s', os) := trace transition s es in
  tracked d s' (log ++ collect (fun _ o => activated_in o) es os)
    (done ++ collect (fun _ o => completed_in o) es os).
Proof.
  intros Hwf. induction es as [|e es IH]; intros s log done Ht; simpl; [by rewrite !app_nil_r|].
  pose proof (tracked_transition d s e log done Hwf Ht) as H1.
  destruct (transition s e) as [s1 o]. cbn [fst snd] in H1. specialize (IH _ _ _ H1).
  destruct (trace transition s1 es) as [s2 os]. cbn [collect]. by rewrite !app_assoc.
Qed.

(** C30. Dependency order without deadlock: on every run of a validated
    workflow, each step is activated at most once, completed only after its
    activation, and activated only when all its prerequisites have completed;
    while the run is going on some step is active, so it can always advance;
    and a run that succeeded has activated and completed every step exactly
    once. *)
Theorem workflow_dependency_order d s0 es :
  new d = Some (Ok s0) ->
  let '(s', os) := trace transition s0 es in
  let log := collect (fun _ o => activated_in o) es os in
  let done := collect (fun _ o => completed_in o) es os in
  NoDup log /\ done ⊆+ log /\
  (forall a b, b ∈ log -> (a, b) ∈ dependencies d -> a ∈ done) /\
  match state s' with
  | Ready => log = []
  | Running p _ => (exists k, (k, Active) ∈ p) /\
      log ≡ₚ started_keys p /\ done ≡ₚ completed_keys p
  | Succeeded _ => log ≡ₚ steps d /\ done ≡ₚ steps d
  | FailedRun _ _ | Cancelled _ => True
  end.
Proof.
  intros Hnew.
  assert (well_formed d /\ s0 = mkWorkflow d Ready) as [Hwf ->].
  { revert Hnew. unfold new. destruct (workflow_validation_sound d) as [Hv _].
    destruct (validate d) as [[[]|err]|]; try discriminate. intros [= <-]. split; [by apply Hv|done]. }
  assert (tracked d (mkWorkflow d Ready : workflow) [] []) as H0.
  { split_and!; [done| |done]. split; [constructor|done| |]; by intros ? ?%not_elem_of_nil || intros ? ? ?%not_elem_of_nil. }
  pose proof (tracked_trace d es Hwf _ _ _ H0) as Ht.
  destruct (trace transition (mkWorkflow d Ready) es) as [s' os]. simpl in Ht.
  destruct Ht as (_ & Hs & Hst). split_and!; try apply Hs.
  destruct (state s'); try done.
  - by destruct Hst.
  - split; [by eapply running_active|]. split; apply Hst.
Qed.

End Coordinator.

(** Three steps: 1 before 2 and 3, 2 before 3. *)
Definition demo_definition : WorkflowDefinition nat := mkDefinition [1; 2; 3] [(1, 2); (2, 3); (1, 3)].

Definition demo_transition :=
  transition (A := nat) (K := nat) (Route := Recipient nat)
    (Sends := list (Delivery nat (WorkflowOutcome nat))).

Definition demo_run : list (User nat (WorkflowMessage nat (Recipient nat))) :=
  mkUser 9 <$> [Start (mkRecipient 8); Complete 2; Complete 1; Complete 2].

Lemma workflow_dependency_order_witness :
  new demo_definition = Some (Ok (mkWorkflow demo_definition (Ready (Route := Recipient nat)))) /\
  let '(s', os) := trace demo_transition (mkWorkflow demo_definition Ready) demo_run in
  let log := collect (fun _ o => activated_in o) demo_run os in
  log = [1; 2; 3] /\ NoDup log /\ collect (fun _ o => completed_in o) demo_run os ⊆+ log.
Proof.
  split; [reflexivity|].
  pose proof (workflow_dependency_order (A := nat) (Sends := list (Delivery nat (WorkflowOutcome nat)))
    demo_definition (mkWorkflow demo_definition (Ready (Route := Recipient nat))) demo_run eq_refl) as H.
  change (transition (A := nat) (K := nat)) with demo_transition in H.
  destruct (trace demo_transition (mkWorkflow demo_definition Ready) demo_run) as [s' os] eqn:Ht.
  destruct H as (H1 & H2 & _). split; [|split; [exact H1|exact H2]].
  vm_compute in Ht. injection Ht as <- <-. reflexivity.
Defined.
