(* ===== verification/Restart.v ===== *)
(** * Restart admission ([crates/actors/src/templates/restart.rs])

    The sliding-window restart budget, the recovery count and the release
    delays shared by supervision and pools.  An [Instant] counts nanoseconds
    from the earliest representable instant, so [checked_sub] fails below zero;
    a [Duration] is its total of nanoseconds, at most [duration_max].  The
    [expect] of the budget sum is a panic ([None]).  A borrow of the count that
    is accepted or declined is modelled by the count that results. *)

From stdpp Require Import base list option numbers sorting.
From S2P Require Import Prelude Timers.

(** ** Data *)

Definition u128_max : N := (2 ^ 128 - 1)%N.
Definition nanos_per_second : N := 1000000000%N.

(** [Duration::MAX]: [u64::MAX] seconds and 999,999,999 nanoseconds. *)
Definition duration_max : Duration := (u64_max * nanos_per_second + (nanos_per_second - 1))%N.

Record RestartLimit := mkLimit { maximum : N; window : Duration }.

Inductive RestartReleaseSchedule : Type :=
| ImmediateSchedule
| Constant (delay : Duration)
| Linear (initial limit : Duration)
| Exponential (initial limit : Duration).

Record RestartRelease := mkRelease { schedule : RestartReleaseSchedule }.

Inductive RestartReleaseError : Type := ZeroDelay | MaximumBelowInitial.

Inductive RestartReleaseFailure : Type := DurationOverflow.

Inductive RecoveryRelease : Type := Immediate | Delayed (d : Duration).

Record RecoveryCount := mkCount { admitted : N }.

(** [RecoveryOrdinal(NonZeroU32)]. *)
Abbreviation RecoveryOrdinal := N.

Inductive RecoveryProposal : Type :=
| ProposalAvailable (ordinal : RecoveryOrdinal)
| ProposalExhausted (already : N).

Record RestartCharge := mkCharge { observed_at : Instant; replacements : N }.

Record RestartBudget := mkBudget { charges : list RestartCharge }.

Inductive RestartDenial : Type :=
| RestartLimitReached (active requested maximum : N)
| ClockRegressed (previous observed : Instant)
| RecoveryCountExhausted (already : N)
| ReleaseCalculationFailed (f : RestartReleaseFailure).

Inductive RestartAdmission : Type :=
| Proposed (ordinal : RecoveryOrdinal) (budget proposed_budget : RestartBudget)
    (release : RecoveryRelease)
| Denied (budget : RestartBudget) (reason : RestartDenial).

Inductive BudgetCheck : Type :=
| BudgetAccepted (budget : RestartBudget)
| BudgetDenied (reason : RestartDenial).

(** ** Operations *)

Definition count_new : RecoveryCount := mkCount 0.

Definition propose (c : RecoveryCount) : RecoveryProposal :=
  match checked_add u32_max (admitted c) 1 with
  | Some next => ProposalAvailable next
  | None => ProposalExhausted (admitted c)
  end.

(** [ProposedRecovery::accept] and [decline]: the resulting count. *)
Definition accept_recovery (c : RecoveryCount) (ordinal : RecoveryOrdinal) : RecoveryCount :=
  mkCount ordinal.
Definition decline_recovery (c : RecoveryCount) (ordinal : RecoveryOrdinal) : RecoveryCount := c.

Definition budget_empty : RestartBudget := mkBudget [].

(** [partition_point] of a partitioned slice: the length of the true prefix. *)
Fixpoint partition_point {X} (p : X -> bool) (l : list X) : nat :=
  match l with [] => 0 | x :: l => if p x then S (partition_point p l) else 0 end.

(** [try_fold(0, checked_add)]. *)
Fixpoint try_sum (acc : N) (l : list RestartCharge) : option N :=
  match l with
  | [] => Some acc
  | c :: l =>
      match checked_add u32_max acc (replacements c) with
      | Some acc => try_sum acc l
      | None => None
      end
  end.

(** The charges still inside the window that ends at [at_]. *)
Definition active_charges (b : RestartBudget) (limit : RestartLimit) (at_ : Instant) :
  list RestartCharge :=
  if (window limit <=? at_)%N then
    let cutoff := (at_ - window limit)%N in
    drop (partition_point (fun c => (observed_at c <? cutoff)%N) (charges b)) (charges b)
  else charges b.

(** The last charge, when the clock went back behind it. *)
Definition regressed (b : RestartBudget) (at_ : Instant) : option Instant :=
  match last (charges b) with
  | Some c => if (at_ <? observed_at c)%N then Some (observed_at c) else None
  | None => None
  end.

(** [RestartBudget::preview]; [None] is the panic of the [expect]. *)
Definition preview (b : RestartBudget) (limit : RestartLimit) (at_ : Instant) (n : N) :
  option BudgetCheck :=
  match regressed b at_ with
  | Some previous => Some (BudgetDenied (ClockRegressed previous at_))
  | None =>
      let live := active_charges b limit at_ in
      match try_sum 0 live with
      | None => None
      | Some active =>
          Some
            (if (u32_max <? n)%N then BudgetDenied (RestartLimitReached active n (maximum limit))
             else
               match checked_add u32_max active n with
               | None => BudgetDenied (RestartLimitReached active n (maximum limit))
               | Some total =>
                   if (maximum limit <? total)%N
                   then BudgetDenied (RestartLimitReached active n (maximum limit))
                   else BudgetAccepted (mkBudget (live ++ [mkCharge at_ n]))
               end)
      end
  end.

(** [RestartRelease::positive], [growth] and the four constructors. *)
Definition positive (delay : Duration) : result Duration RestartReleaseError :=
  if (delay =? 0)%N then Err ZeroDelay else Ok delay.

Definition growth (initial limit : Duration) : result (Duration * Duration) RestartReleaseError :=
  match positive initial with
  | Err e => Err e
  | Ok initial => if (limit <? initial)%N then Err MaximumBelowInitial else Ok (initial, limit)
  end.

Definition release_immediate : RestartRelease := mkRelease ImmediateSchedule.
Definition release_constant (delay : Duration) : result RestartRelease RestartReleaseError :=
  map_result (fun d => mkRelease (Constant d)) (positive delay).
Definition release_linear (initial limit : Duration) : result RestartRelease RestartReleaseError :=
  map_result (fun '(i, m) => mkRelease (Linear i m)) (growth initial limit).
Definition release_exponential (initial limit : Duration) :
  result RestartRelease RestartReleaseError :=
  map_result (fun '(i, m) => mkRelease (Exponential i m)) (growth initial limit).

(** [multiply]: [u128] nanoseconds, then seconds that fit a [u64]. *)
Definition multiply (d : Duration) (factor : N) : result Duration RestartReleaseFailure :=
  if (u128_max <? d * factor)%N then Err DurationOverflow
  else
    let nanoseconds := (d * factor)%N in
    let seconds := (nanoseconds / nanos_per_second)%N in
    let subsecond := (nanoseconds mod nanos_per_second)%N in
    if (u64_max <? seconds)%N then Err DurationOverflow
    else if (u32_max <? subsecond)%N then Err DurationOverflow
    else Ok (seconds * nanos_per_second + subsecond)%N.

(** [RestartRelease::calculate]. *)
Definition calculate (r : RestartRelease) (ordinal : RecoveryOrdinal) :
  result RecoveryRelease RestartReleaseFailure :=
  match schedule r with
  | ImmediateSchedule => Ok Immediate
  | Constant delay => Ok (Delayed delay)
  | Linear initial limit =>
      map_result (fun d => Delayed (N.min d limit)) (multiply initial ordinal)
  | Exponential initial limit =>
      let shift := (ordinal - 1)%N in
      if (128 <=? shift)%N then Err DurationOverflow
      else map_result (fun d => Delayed (N.min d limit)) (multiply initial (N.shiftl 1 shift))
  end.

(** [admit_restart]. *)
Definition restart_admission (c : RecoveryCount) (b : RestartBudget) (limit : RestartLimit)
  (r : RestartRelease) (at_ : Instant) (n : N) : option RestartAdmission :=
  match propose c with
  | ProposalExhausted already => Some (Denied b (RecoveryCountExhausted already))
  | ProposalAvailable ordinal =>
      match preview b limit at_ n with
      | None => None
      | Some (BudgetDenied reason) => Some (Denied b reason)
      | Some (BudgetAccepted proposed) =>
          match calculate r ordinal with
          | Ok release => Some (Proposed ordinal b proposed release)
          | Err f => Some (Denied b (ReleaseCalculationFailed f))
          end
      end
  end.

(** ** Sums of charges *)

Definition total (l : list RestartCharge) : N := foldr (fun c acc => replacements c + acc)%N 0%N l.

Lemma total_app l k : total (l ++ k) = (total l + total k)%N.
Proof. induction l as [|c l IH]; simpl; [done|]. rewrite IH. lia. Qed.

Lemma total_drop n l : (total (drop n l) <= total l)%N.
Proof. rewrite <- (take_drop n l) at 2. rewrite total_app. lia. Qed.

Lemma total_sublist l k : l `sublist_of` k -> (total l <= total k)%N.
Proof. induction 1; simpl; lia. Qed.

Lemma try_sum_Some acc l : (acc + total l <= u32_max)%N -> try_sum acc l = Some (acc + total l)%N.
Proof.
  revert acc. induction l as [|c l IH]; intros acc Hle; simpl in *; [f_equal; lia|].
  unfold checked_add. destruct (N.leb_spec (acc + replacements c) u32_max); [|lia].
  rewrite IH by lia. f_equal. lia.
Qed.

(** ** Runs of one budget

    A client asks for a restart at an instant and then accepts or declines the
    proposal; the history lists the accepted charges. *)

Record keeper := mkKeeper { count : RecoveryCount; budget : RestartBudget }.

Record request := mkRequest { asked_at : Instant; asked_for : N; accepts : bool }.

Section Runs.
  Context (limit : RestartLimit) (release : RestartRelease).

Definition keeper_step (k : keeper) (q : request) : option (keeper * list RestartCharge) :=
  match restart_admission (count k) (budget k) limit release (asked_at q) (asked_for q) with
  | None => None
  | Some (Denied b _) => Some (mkKeeper (count k) b, [])
  | Some (Proposed ordinal b proposed _) =>
      if accepts q then
        Some (mkKeeper (accept_recovery (count k) ordinal) proposed,
              [mkCharge (asked_at q) (asked_for q)])
      else Some (mkKeeper (decline_recovery (count k) ordinal) b, [])
  end.

(** Charges observed within the window that starts at [u]. *)
Definition in_window (u : Instant) (c : RestartCharge) : Prop :=
  (u <= observed_at c <= u + window limit)%N.

#[export] Instance in_window_dec u c : Decision (in_window u c).
Proof. unfold in_window. apply _. Defined.

(** The budget holds the recent part of an ordered history; what it forgot is
    older than the window that ends at its last charge. *)
Record history_ok (b : RestartBudget) (hist : list RestartCharge) : Prop := {
  history_sorted : StronglySorted (fun x y => (observed_at x <= observed_at y)%N) hist;
  history_split : exists forgotten, hist = forgotten ++ charges b /\
    forall c x, c ∈ forgotten -> last (charges b) = Some x ->
      (observed_at c + window limit < observed_at x)%N;
  history_kept : charges b = [] -> hist = [];
  history_total : (total (charges b) <= maximum limit)%N;
  history_window : forall u, (total (filter (in_window u) hist) <= maximum limit)%N
}.

Lemma partition_point_split {X} (p : X -> bool) l :
  Forall (fun x => p x = true) (take (partition_point p l) l).
Proof.
  induction l as [|x l IH]; simpl; [constructor|]. destruct (p x) eqn:Hp; simpl; by constructor.
Qed.

(** The charges that a preview drops are older than its window. *)
Lemma active_charges_split b at_ :
  exists old, charges b = old ++ active_charges b limit at_ /\
    forall c, c ∈ old -> (observed_at c + window limit < at_)%N.
Proof.
  unfold active_charges. destruct (N.leb_spec (window limit) at_) as [Hle|Hgt].
  - set (n := partition_point _ (charges b)). exists (take n (charges b)).
    split; [by rewrite take_drop|]. intros c Hc.
    pose proof (partition_point_split (fun c => (observed_at c <? at_ - window limit)%N) (charges b)) as Hf.
    rewrite Forall_forall in Hf. specialize (Hf c Hc). simpl in Hf. apply N.ltb_lt in Hf. lia.
  - exists []. split; [done|]. intros c ?%not_elem_of_nil. done.
Qed.

Lemma filter_none {X} (P : X -> Prop) `{!forall x, Decision (P x)} (l : list X) :
  (forall x, x ∈ l -> ~ P x) -> filter P l = [].
Proof.
  induction l as [|x l IH]; intros Hno; [done|]. rewrite filter_cons, decide_False.
  - apply IH. intros y Hy. apply Hno. by right.
  - apply Hno. left.
Qed.

Lemma strongly_sorted_snoc {X} (R : X -> X -> Prop) l c :
  StronglySorted R l -> Forall (fun x => R x c) l -> StronglySorted R (l ++ [c]).
Proof.
  induction 1 as [|x l Hs IH Hx]; intros Hf; simpl; [repeat constructor|].
  apply Forall_cons in Hf as [Hxc Hf]. constructor; [auto|]. apply Forall_app. auto.
Qed.

(** Without a clock regression, everything in the history is before [at_]. *)
Lemma history_before b hist at_ :
  history_ok b hist -> regressed b at_ = None ->
  Forall (fun c => (observed_at c <= at_)%N) hist.
Proof.
  intros [Hs (forgotten & -> & Hf) Hk _ _] Hr. unfold regressed in Hr.
  destruct (last (charges b)) as [x|] eqn:Hl.
  2: { apply last_None in Hl. by rewrite (Hk Hl). }
  destruct (N.ltb_spec at_ (observed_at x)) as [|Hle]; [discriminate|].
  apply last_Some in Hl as [l Hl]. rewrite Hl, app_assoc in Hs |- *.
  apply Forall_app. split; [|repeat constructor; lia].
  rewrite Forall_forall. intros c Hc. clear -Hs Hc Hle.
  induction (forgotten ++ l) as [|y ys IH]; [by apply not_elem_of_nil in Hc|].
  simpl in Hs. inversion Hs as [|? ? Hs' Hy]; subst. apply elem_of_cons in Hc as [->|Hc]; [|auto].
  apply Forall_app in Hy as [_ Hy]. inversion Hy; subst. lia.
Qed.

Lemma charges_accept b hist at_ n :
  history_ok b hist -> regressed b at_ = None ->
  (total (active_charges b limit at_) + n <= maximum limit)%N ->
  history_ok (mkBudget (active_charges b limit at_ ++ [mkCharge at_ n])) (hist ++ [mkCharge at_ n]).
Proof.
  intros Hh Hr Hmax. pose proof (history_before _ _ _ Hh Hr) as Hbefore.
  destruct Hh as [Hs (forgotten & Hhist & Hf) Hk Ht Hw].
  destruct (active_charges_split b at_) as (old & Hold & Ho).
  assert (Hgone : forall c, c ∈ forgotten ++ old -> (observed_at c + window limit < at_)%N).
  { intros c [Hc|Hc]%elem_of_app; [|auto]. destruct (last (charges b)) as [x|] eqn:Hl.
    - specialize (Hf c x Hc eq_refl). unfold regressed in Hr. rewrite Hl in Hr.
      destruct (N.ltb_spec at_ (observed_at x)); [discriminate|lia].
    - apply last_None in Hl. rewrite (Hk Hl) in Hhist. symmetry in Hhist.
      apply app_eq_nil in Hhist as [-> _]. by apply not_elem_of_nil in Hc. }
  split; simpl.
  - by apply strongly_sorted_snoc.
  - exists (forgotten ++ old). split; [by rewrite Hhist, Hold, <- !app_assoc|].
    intros c x Hc. rewrite last_snoc. intros [= <-]. auto.
  - intros Hnil. by apply app_eq_nil in Hnil as [_ ?].
  - rewrite total_app. simpl. lia.
  - intros u. rewrite filter_app, total_app, filter_cons. destruct (decide (in_window u _)) as [Hin|Hout].
    + rewrite filter_nil. simpl.
      assert (Hle : (total (filter (in_window u) hist) <= total (active_charges b limit at_))%N).
      { rewrite Hhist, Hold, app_assoc, filter_app, filter_none.
        - apply total_sublist, sublist_filter.
        - intros c Hc [Hu _]. specialize (Hgone c Hc). destruct Hin as [_ Hin]. simpl in Hin. lia. }
      lia.
    + rewrite filter_nil. simpl. specialize (Hw u). lia.
Qed.

Lemma keeper_step_ok k q hist :
  (maximum limit <= u32_max)%N -> history_ok (budget k) hist ->
  exists k' new, keeper_step k q = Some (k', new) /\ history_ok (budget k') (hist ++ new).
Proof.
  intros Hm Hh. unfold keeper_step, restart_admission.
  assert (Hsame : history_ok (budget k) (hist ++ [])) by (by rewrite app_nil_r).
  destruct (propose (count k)) as [ordinal|already]; [|eauto].
  unfold preview. destruct (regressed (budget k) (asked_at q)) as [previous|] eqn:Hr; [eauto|].
  assert (Hact : (total (active_charges (budget k) limit (asked_at q)) <= maximum limit)%N).
  { destruct (active_charges_split (budget k) (asked_at q)) as (old & Hold & _).
    pose proof (history_total _ _ Hh) as Ht. rewrite Hold, total_app in Ht. lia. }
  rewrite try_sum_Some by lia. rewrite N.add_0_l.
  destruct (u32_max <? asked_for q)%N; [eauto|].
  destruct (checked_add u32_max _ (asked_for q)) as [t|] eqn:Hc; [|eauto].
  apply checked_add_Some in Hc as [-> Hc].
  destruct (N.ltb_spec (maximum limit) (total (active_charges (budget k) limit (asked_at q)) + asked_for q));
    [eauto|].
  destruct (calculate release ordinal); [|eauto].
  destruct (accepts q); [|eauto]. do 2 eexists. split; [done|]. by apply charges_accept.
Qed.

Lemma keeper_run_ok qs : (maximum limit <= u32_max)%N -> forall k hist, history_ok (budget k) hist ->
  exists k' os, otrace keeper_step k qs = Some (k', os) /\ history_ok (budget k') (hist ++ concat os).
Proof.
  intros Hm. induction qs as [|q qs IH]; intros k hist Hh; simpl.
  { exists k, []. simpl. by rewrite app_nil_r. }
  destruct (keeper_step_ok k q hist Hm Hh) as (k1 & new & -> & Hh1).
  destruct (IH k1 _ Hh1) as (k2 & os & -> & Hh2). exists k2, (new :: os). split; [done|].
  simpl. by rewrite app_assoc.
Qed.

(** C34. The restart budget is a true sliding window: along any sequence of
    requests, accepted or declined, no admission panics, and the replacements
    charged within any interval of the window's length, wherever it starts,
    never exceed the maximum, although the budget forgets old charges. *)
Theorem restart_window_bound qs :
  (maximum limit <= u32_max)%N ->
  exists k' os, otrace keeper_step (mkKeeper count_new budget_empty) qs = Some (k', os) /\
    forall u, (total (filter (fun c => u <= observed_at c <= u + window limit)%N (concat os))
      <= maximum limit)%N.
Proof.
  intros Hm. assert (history_ok budget_empty []) as H0.
  { split; simpl; try done; [constructor| |lia|intros u; simpl; lia].
    exists []. split; [done|]. intros c x ?%not_elem_of_nil. done. }
  destruct (keeper_run_ok qs Hm (mkKeeper count_new budget_empty) [] H0) as (k' & os & Hrun & Hh).
  exists k', os. split; [done|]. intros u. exact (history_window _ _ Hh u).
Qed.

End Runs.

(** ** Release delays *)

(** [multiply] is exact whenever the product is a representable duration. *)
Lemma multiply_exact d factor :
  multiply d factor = if (d * factor <=? duration_max)%N then Ok (d * factor)%N else Err DurationOverflow.
Proof.
  unfold multiply.
  assert (Hnz : nanos_per_second <> 0%N) by done.
  pose proof (N.div_mod (d * factor) nanos_per_second Hnz) as Hdm.
  pose proof (N.mod_lt (d * factor) nanos_per_second Hnz) as Hmod.
  remember (d * factor / nanos_per_second)%N as q. remember ((d * factor) mod nanos_per_second)%N as r.
  assert (Hsmall : (nanos_per_second <= u32_max)%N) by (vm_compute; discriminate).
  assert (Hbig : (duration_max <= u128_max)%N) by (vm_compute; discriminate).
  assert (Hmax : duration_max = (nanos_per_second * u64_max + (nanos_per_second - 1))%N)
    by (vm_compute; reflexivity).
  assert (Hpos : (0 < nanos_per_second)%N) by (vm_compute; reflexivity).
  destruct (N.leb_spec (d * factor) duration_max) as [Hle|Hgt].
  - destruct (N.ltb_spec u128_max (d * factor)); [lia|].
    destruct (N.ltb_spec u64_max q) as [Hq|Hq]; [nia|].
    destruct (N.ltb_spec u32_max r); [lia|]. f_equal. lia.
  - destruct (N.ltb_spec u128_max (d * factor)); [done|].
    destruct (N.ltb_spec u64_max q) as [Hq|Hq]; [done|]. nia.
Qed.

(** Release delays follow their schedule exactly: a constant schedule
    always gives its delay; a linear one gives [initial * ordinal] and an
    exponential one [initial * 2^(ordinal - 1)], capped at the maximum, as long
    as the uncapped product is a representable duration (and the exponent below
    128), and otherwise the calculation fails; so a delay never exceeds the
    configured maximum. *)
Theorem release_delay_exact r ordinal :
  calculate r ordinal =
    match schedule r with
    | ImmediateSchedule => Ok Immediate
    | Constant delay => Ok (Delayed delay)
    | Linear initial limit =>
        if (initial * ordinal <=? duration_max)%N
        then Ok (Delayed (N.min (initial * ordinal) limit)) else Err DurationOverflow
    | Exponential initial limit =>
        if (ordinal - 1 <? 128)%N && (initial * 2 ^ (ordinal - 1) <=? duration_max)%N
        then Ok (Delayed (N.min (initial * 2 ^ (ordinal - 1)) limit)) else Err DurationOverflow
    end.
Proof.
  unfold calculate. destruct (schedule r) as [|delay|initial limit|initial limit]; [done|done| |].
  - rewrite multiply_exact. by destruct (_ <=? _)%N.
  - rewrite multiply_exact, N.shiftl_1_l. rewrite N.ltb_antisym.
    destruct (128 <=? ordinal - 1)%N; [done|]. simpl. by destruct (_ <=? _)%N.
Qed.

(** An exponential schedule of one second capped at one minute reaches its cap at
    the seventh recovery, but the sixty-fifth recovery is refused: the uncapped
    product is computed before the cap is applied. *)
Lemma exponential_cap_overflows :
  release_exponential nanos_per_second (60 * nanos_per_second) =
    Ok (mkRelease (Exponential nanos_per_second (60 * nanos_per_second))) /\
  calculate (mkRelease (Exponential nanos_per_second (60 * nanos_per_second))) 64 =
    Ok (Delayed (60 * nanos_per_second)) /\
  calculate (mkRelease (Exponential nanos_per_second (60 * nanos_per_second))) 65 =
    Err DurationOverflow.
Proof. split_and!; vm_compute; reflexivity. Qed.

(** Two restarts per ten nanoseconds: the third of four requests is denied. *)
Definition demo_limit : RestartLimit := mkLimit 2 10.

Definition demo_requests : list request :=
  [mkRequest 100 1 true; mkRequest 105 1 true; mkRequest 110 1 true; mkRequest 116 1 true].

Lemma restart_window_bound_witness :
  (exists k, otrace (keeper_step demo_limit release_immediate) (mkKeeper count_new budget_empty)
     demo_requests = Some (k, [[mkCharge 100 1]; [mkCharge 105 1]; []; [mkCharge 116 1]])) /\
  exists k' os, otrace (keeper_step demo_limit release_immediate) (mkKeeper count_new budget_empty)
      demo_requests = Some (k', os) /\
    forall u, (total (filter (fun c => u <= observed_at c <= u + 10)%N (concat os)) <= 2)%N.
Proof.
  split; [eexists; vm_compute; reflexivity|].
  assert (Hm : (maximum demo_limit <= u32_max)%N) by (vm_compute; discriminate).
  exact (restart_window_bound demo_limit release_immediate demo_requests Hm).
Defined.
