(* ===== verification/Latch.v ===== *)
(** * The countdown latch ([crates/actors/src/workflow/latch.rs])

    Arrivals wait until the configured number of them arrived, then all are
    released at once; later arrivals are released immediately. *)

From stdpp Require Import base list option numbers sorting.
From S2P Require Import Prelude Effects.

(** ** Data *)

Inductive LatchReleased : Type := the_LatchReleased.

Record LatchMessage (Route : Type) := arrive { reply_to : Route }.
Arguments arrive {Route} _.
Arguments reply_to {Route} _.

Inductive LatchState (Route : Type) : Type :=
| Counting (remaining : nat) (waiting : list Route)
| Released.
Arguments Counting {Route} _ _.
Arguments Released {Route}.

Section Latch.
  Context {A Route Sends : Type} `{!SendEffects Sends, !DeliveryRoute Route LatchReleased Sends}.

Abbreviation acted := (Acted Never Never Sends Never).
Abbreviation event := (User A (LatchMessage Route)).

Definition new (count : nat) : LatchState Route :=
  if count =? 0 then Released else Counting count [].

(** The loop that releases every waiting participant. *)
Definition release_all (waiting : list Route) : Sends :=
  fold_left (fun s participant => sends_append s (deliver participant the_LatchReleased))
    waiting sends_empty.

Definition transition (s : LatchState Route) (e : event) : LatchState Route * acted :=
  let '(next, out) :=
    match s with
    | Released => (Released, deliver (reply_to (message e)) the_LatchReleased)
    | Counting remaining waiting =>
        let waiting := waiting ++ [reply_to (message e)] in
        if 1 <? remaining then (Counting (remaining - 1) waiting, sends_empty)
        else (Released, release_all waiting)
    end in
  (next, Ok (send out)).

Context `{!RouteLaws Route LatchReleased Sends}.

Lemma release_all_addressed waiting :
  addressed (release_all waiting) = (fun r => (r, the_LatchReleased)) <$> waiting.
Proof.
  unfold release_all.
  by rewrite (fold_deliver_addressed (fun r => r) (fun _ => the_LatchReleased)), addressed_empty.
Qed.

(** Releases sent so far, against the arrivals so far. *)
Definition balanced (count : nat) (s : LatchState Route) (arrived : list Route)
  (released : list (Route * LatchReleased)) : Prop :=
  match s with
  | Counting remaining waiting =>
      0 < remaining /\ waiting = arrived /\ length arrived + remaining = count /\ released = []
  | Released =>
      count <= length arrived /\ released = (fun r => (r, the_LatchReleased)) <$> arrived
  end.

Lemma balanced_step count s e arrived released : balanced count s arrived released ->
  balanced count (fst (transition s e)) (arrived ++ [reply_to (message e)])
    (released ++ addressed (ok_sends (snd (transition s e)))).
Proof.
  unfold transition, balanced. destruct s as [remaining waiting|].
  - intros (Hpos & -> & Hc & ->). destruct (Nat.ltb_spec 1 remaining); cbn.
    + rewrite addressed_empty, length_app. simpl. split_and!; auto; lia.
    + rewrite release_all_addressed, length_app. simpl. split; [lia|done].
  - intros [Hc ->]. cbn. rewrite addressed_deliver, fmap_app, length_app. simpl. split; [lia|done].
Qed.

Lemma balanced_run count es : forall s arrived released, balanced count s arrived released ->
  let '(s', os) := trace transition s es in
  balanced count s' (arrived ++ ((fun e => reply_to (message e)) <$> es))
    (released ++ collect (fun _ o => addressed (ok_sends o)) es os).
Proof.
  induction es as [|e es IH]; intros s arrived released Hb; simpl; [by rewrite !app_nil_r|].
  pose proof (balanced_step count s e _ _ Hb) as H1. destruct (transition s e) as [s1 o].
  cbn [fst snd] in H1. specialize (IH _ _ _ H1). destruct (trace transition s1 es) as [s2 os].
  cbn [collect]. csimpl. by rewrite <- !app_assoc in IH.
Qed.

(** The latch releases every arrival exactly once, in arrival order, and
    none before the configured number arrived: after any run, either fewer than
    [count] participants arrived, all of them wait and nothing was sent, or at
    least [count] arrived and the releases sent are exactly the arrivals. *)
Theorem latch_releases_all_or_none count es :
  let '(s', os) := trace transition (new count) es in
  let arrived := (fun e => reply_to (message e)) <$> es in
  let released := collect (fun _ o => addressed (ok_sends o)) es os in
  if length arrived <? count
  then s' = Counting (count - length arrived) arrived /\ released = []
  else s' = Released /\ released = (fun r => (r, the_LatchReleased)) <$> arrived.
Proof.
  assert (Hb : balanced count (new count) [] []).
  { unfold new. destruct (Nat.eqb_spec count 0); simpl; [split; [lia|done]|].
    split_and!; auto; lia. }
  pose proof (balanced_run count es _ _ _ Hb) as H. destruct (trace transition (new count) es) as [s' os].
  simpl in *. destruct (Nat.ltb_spec (length ((fun e => reply_to (message e)) <$> es)) count);
    destruct s' as [remaining waiting|]; simpl in H.
  - destruct H as (Hpos & -> & Hc & ->). split; [|done]. f_equal. lia.
  - destruct H; lia.
  - destruct H as (Hpos & _ & Hc & _). lia.
  - by destruct H.
Qed.

End Latch.
