(* ===== verification/Barrier.v ===== *)
(** * The cyclic barrier ([crates/actors/src/workflow/barrier.rs])

    Generations of one fixed membership.  A run is decomposed into completed
    groups, each a permutation of the membership, and a partial group. *)

From stdpp Require Import base list option numbers sorting.
From Stdlib Require Import NArith.
From S2P Require Import Prelude Effects.

(** ** Data *)

Record BarrierGeneration := mkGeneration { generation_number : N }.

Record BarrierReleased := mkReleased { released_generation : BarrierGeneration }.

Record BarrierMessage (K Route : Type) := mkMessage {
  message_generation : BarrierGeneration;
  message_participant : K;
  message_reply_to : Route
}.
Arguments mkMessage {K Route} _ _ _.
Arguments message_generation {K Route} _.
Arguments message_participant {K Route} _.
Arguments message_reply_to {K Route} _.

Record BarrierArrival (K Route : Type) := mkArrival { participant : K; reply_to : Route }.
Arguments mkArrival {K Route} _ _.
Arguments participant {K Route} _.
Arguments reply_to {K Route} _.

Inductive BarrierState (K Route : Type) : Type :=
| Gathering (generation : BarrierGeneration) (arrivals : list (BarrierArrival K Route))
| Exhausted (generation : BarrierGeneration).
Arguments Gathering {K Route} _ _.
Arguments Exhausted {K Route} _.

Inductive BarrierConfigError (K : Type) : Type :=
| EmptyMembership
| DuplicateParticipant (key : K).
Arguments EmptyMembership {K}.
Arguments DuplicateParticipant {K} _.

Record BarrierMembership (K : Type) := mkMembership { membership : list K }.
Arguments mkMembership {K} _.
Arguments membership {K} _.

Inductive BarrierError (K Route : Type) : Type :=
| UnknownParticipant (participant : K) (reply_to : Route)
| DuplicateArrival (participant : K) (generation : BarrierGeneration) (reply_to : Route)
| StaleGeneration (participant : K) (observed current : BarrierGeneration) (reply_to : Route)
| FutureGeneration (participant : K) (observed current : BarrierGeneration) (reply_to : Route)
| ExhaustedArrival (participant : K) (generation : BarrierGeneration) (reply_to : Route).
Arguments UnknownParticipant {K Route} _ _.
Arguments DuplicateArrival {K Route} _ _ _.
Arguments StaleGeneration {K Route} _ _ _ _.
Arguments FutureGeneration {K Route} _ _ _ _.
Arguments ExhaustedArrival {K Route} _ _ _.

Record Barrier (K Route : Type) := mkBarrier { members : list K; state : BarrierState K Route }.
Arguments mkBarrier {K Route} _ _.
Arguments members {K Route} _.
Arguments state {K Route} _.

Section Membership.
  Context {K : Type} `{!EqDecision K}.

(** The index loop of [BarrierMembership::new]: the first participant that the
    prefix before it contains. *)
Fixpoint first_duplicate (prefix rest : list K) : option K :=
  match rest with
  | [] => None
  | p :: rest => if bool_decide (p ∈ prefix) then Some p else first_duplicate (prefix ++ [p]) rest
  end.

Definition membership_new (ms : list K) : result (BarrierMembership K) (BarrierConfigError K) :=
  match ms with
  | [] => Err EmptyMembership
  | _ =>
      match first_duplicate [] ms with
      | Some p => Err (DuplicateParticipant p)
      | None => Ok (mkMembership ms)
      end
  end.

Lemma barrier_no_duplicate prefix rest :
  NoDup prefix -> first_duplicate prefix rest = None <-> NoDup (prefix ++ rest).
Proof.
  revert prefix. induction rest as [|p rest IH]; intros prefix Hp; simpl; [by rewrite app_nil_r|].
  case_bool_decide as Hin.
  - split; [done|]. intros (_ & H & _)%list.NoDup_app. destruct (H p Hin). left.
  - rewrite IH, <- app_assoc; [done|]. by apply NoDup_snoc.
Qed.

Lemma membership_new_ok ms m :
  membership_new ms = Ok m <-> ms <> [] /\ NoDup ms /\ m = mkMembership ms.
Proof.
  unfold membership_new. destruct ms as [|k ms]; [split; [done|by intros []]|].
  pose proof (barrier_no_duplicate [] (k :: ms) (NoDup_nil_2)) as H. cbn [app] in H.
  destruct (first_duplicate [] (k :: ms)); split; intros E; simplify_eq.
  - destruct E as (_ & Hn & _). by apply H in Hn.
  - split_and!; [done|by apply H|done].
  - by destruct E as (_ & _ & ->).
Qed.

End Membership.

Section Barrier.
  Context {A K Route Sends : Type} `{!EqDecision K}.
  Context `{!SendEffects Sends, !DeliveryRoute Route BarrierReleased Sends}.

Abbreviation acted := (Acted Never Never Sends (BarrierError K Route)).
Abbreviation event := (User A (BarrierMessage K Route)).

Definition new (m : BarrierMembership K) : Barrier K Route :=
  mkBarrier (membership m) (Gathering (mkGeneration 0) []).

(** The release loop of a completed generation. *)
Definition release (generation : BarrierGeneration) (completed : list (BarrierArrival K Route)) : Sends :=
  fold_left (fun s arrival => sends_append s (deliver (reply_to arrival) (mkReleased generation)))
    completed sends_empty.

(** The state after a completed generation. *)
Definition successor (generation : BarrierGeneration) : BarrierState K Route :=
  match checked_add u64_max (generation_number generation) 1 with
  | Some next => Gathering (mkGeneration next) []
  | None => Exhausted generation
  end.

Definition transition (s : Barrier K Route) (e : event) : Barrier K Route * acted :=
  let '(mkMessage observed p reply) := message e in
  if negb (bool_decide (p ∈ members s)) then (s, Err (UnknownParticipant p reply)) else
  match state s with
  | Exhausted generation => (s, Err (ExhaustedArrival p generation reply))
  | Gathering current arrivals =>
      if (generation_number observed <? generation_number current)%N
      then (s, Err (StaleGeneration p observed current reply)) else
      if (generation_number current <? generation_number observed)%N
      then (s, Err (FutureGeneration p observed current reply)) else
      if existsb (fun arrival => bool_decide (participant arrival = p)) arrivals
      then (s, Err (DuplicateArrival p current reply)) else
      let arrivals := arrivals ++ [mkArrival p reply] in
      if length arrivals <? length (members s)
      then (mkBarrier (members s) (Gathering current arrivals), Ok cont)
      else (mkBarrier (members s) (successor current), Ok (send (release current arrivals)))
  end.

(** ** Histories: completed groups and the partial group *)

Context `{!RouteLaws Route BarrierReleased Sends}.

Abbreviation arrival := (BarrierArrival K Route).

(** The arrival a step accepted, with the generation it named. *)
Definition accepted (e : event) (o : acted) : list (BarrierGeneration * arrival) :=
  if is_ok o then
    [(message_generation (message e),
      mkArrival (message_participant (message e)) (message_reply_to (message e)))]
  else [].

(** The releases a step delivered. *)
Definition released (e : event) (o : acted) : list (Route * BarrierReleased) :=
  match o with Ok a => addressed (sends a) | Err _ => [] end.

Definition tag (i : nat) (group : list arrival) : list (BarrierGeneration * arrival) :=
  (fun a => (mkGeneration (N.of_nat i), a)) <$> group.

(** Groups are numbered by their position. *)
Definition tagged (groups : list (list arrival)) : list (BarrierGeneration * arrival) :=
  concat (imap tag groups).

Definition release_of (ga : BarrierGeneration * arrival) : Route * BarrierReleased :=
  (reply_to (snd ga), mkReleased (fst ga)).

(** The state reached after [groups] completed, with [current] gathering. *)
Definition gathered (groups : list (list arrival)) (current : list arrival) : BarrierState K Route :=
  if (N.of_nat (length groups) <=? u64_max)%N
  then Gathering (mkGeneration (N.of_nat (length groups))) current
  else Exhausted (mkGeneration u64_max).

Record history (ms : list K) (s : Barrier K Route) (groups : list (list arrival))
  (current : list arrival) (acc : list (BarrierGeneration * arrival))
  (rel : list (Route * BarrierReleased)) : Prop := {
  history_state : s = mkBarrier ms (gathered groups current);
  history_complete : Forall (fun g => participant <$> g ≡ₚ ms) groups;
  history_unique : NoDup (participant <$> current);
  history_members : forall a, a ∈ current -> participant a ∈ ms;
  history_partial : length current < length ms;
  history_bound : (N.of_nat (length groups) <= u64_max + 1)%N;
  history_exhausted : (u64_max < N.of_nat (length groups))%N -> current = [];
  history_accepted : acc = tagged groups ++ tag (length groups) current;
  history_released : rel = release_of <$> tagged groups
}.

(** What the barrier accepts after a history. *)
Definition acceptable (ms : list K) (groups : list (list arrival)) (current : list arrival)
  (m : BarrierMessage K Route) : Prop :=
  message_participant m ∈ ms /\
  generation_number (message_generation m) = N.of_nat (length groups) /\
  (N.of_nat (length groups) <= u64_max)%N /\
  message_participant m ∉ participant <$> current.

Lemma release_addressed g completed :
  addressed (release g completed) = (fun a => (reply_to a, mkReleased g)) <$> completed.
Proof.
  unfold release. by rewrite (fold_deliver_addressed reply_to (fun _ => mkReleased g)), addressed_empty.
Qed.

Lemma tagged_snoc groups g : tagged (groups ++ [g]) = tagged groups ++ tag (length groups) g.
Proof. unfold tagged. rewrite imap_app, concat_app. cbn. by rewrite Nat.add_0_r, app_nil_r. Qed.

Lemma existsb_participant (p : K) (l : list arrival) :
  existsb (fun a => bool_decide (participant a = p)) l = bool_decide (p ∈ participant <$> l).
Proof.
  induction l as [|a l IH]; cbn [existsb].
  { symmetry. apply bool_decide_eq_false, not_elem_of_nil. }
  rewrite IH, <- bool_decide_or. apply bool_decide_ext.
  rewrite fmap_cons, elem_of_cons. intuition congruence.
Qed.

(** The two ways a transition ends, by acceptability. *)
Lemma barrier_step_cases ms groups current (e : event) :
  let s := mkBarrier ms (gathered groups current) in
  let next := current ++ [mkArrival (message_participant (message e)) (message_reply_to (message e))] in
  (acceptable ms groups current (message e) /\
   transition s e =
     if length next <? length ms
     then (mkBarrier ms (gathered groups next), Ok cont)
     else (mkBarrier ms (successor (mkGeneration (N.of_nat (length groups)))),
           Ok (send (release (mkGeneration (N.of_nat (length groups))) next)))) \/
  (~ acceptable ms groups current (message e) /\
   exists err, transition s e = (s, Err err)).
Proof.
  unfold transition, acceptable, gathered. destruct (message e) as [[obs] p r]; cbn.
  case_bool_decide as Hm; cbn; [|right; split; [tauto|eauto]].
  destruct (N.leb_spec (N.of_nat (length groups)) u64_max) as [Hle|Hgt]; cbn;
    [|right; split; [lia|eauto]].
  destruct (N.ltb_spec obs (N.of_nat (length groups))); [right; split; [lia|eauto]|].
  destruct (N.ltb_spec (N.of_nat (length groups)) obs); [right; split; [lia|eauto]|].
  rewrite existsb_participant. case_bool_decide as Hd; [right; split; [tauto|eauto]|].
  left. split_and!; auto. lia.
Qed.

Lemma completed_group ms (current : list arrival) p r :
  NoDup ms -> NoDup (participant <$> current) -> (forall a, a ∈ current -> participant a ∈ ms) ->
  p ∈ ms -> p ∉ participant <$> current ->
  length ms <= length (current ++ [mkArrival p r]) ->
  participant <$> (current ++ [mkArrival (Route := Route) p r]) ≡ₚ ms.
Proof.
  intros Hms Hc Hsub Hp Hnp Hlen. apply submseteq_length_Permutation; [|by rewrite length_fmap].
  apply NoDup_submseteq; rewrite fmap_app; csimpl.
  - by apply NoDup_snoc.
  - intros x [Hx|Hx]%elem_of_app; [|by apply list_elem_of_singleton in Hx as ->].
    apply list_elem_of_fmap in Hx as (a & -> & Ha). auto.
Qed.

Lemma successor_gathered groups g :
  (N.of_nat (length groups) <= u64_max)%N ->
  successor (mkGeneration (N.of_nat (length groups))) = gathered (groups ++ [g]) [].
Proof.
  intros Hle. unfold successor, gathered, checked_add. rewrite length_app. cbn [length].
  replace (N.of_nat (length groups + 1)) with (N.of_nat (length groups) + 1)%N by lia.
  cbn [generation_number]. destruct (N.leb_spec (N.of_nat (length groups) + 1) u64_max); [done|].
  do 2 f_equal. lia.
Qed.

Lemma barrier_history_step ms s groups current acc rel e : NoDup ms ->
  history ms s groups current acc rel ->
  let '(s', o) := transition s e in
  exists groups' current',
    history ms s' groups' current' (acc ++ accepted e o) (rel ++ released e o).
Proof.
  intros Hms [-> Hg Hu Hm Hp Hb Hx -> ->].
  destruct (barrier_step_cases ms groups current e) as [[Ha ->]|[_ [err ->]]];
    [|exists groups, current; unfold accepted, released; cbn; rewrite !app_nil_r; by constructor].
  destruct Ha as (Hin & Hgen & Hle & Hnew). destruct (message e) as [[obs] p r] eqn:He.
  cbn in Hin, Hgen, Hnew. subst obs. set (next := current ++ _). unfold accepted, released.
  destruct (Nat.ltb_spec (length next) (length ms)) as [Hl|Hl]; cbn; rewrite He; cbn.
  - exists groups, next. constructor; auto.
    + unfold next. rewrite fmap_app. by apply NoDup_snoc.
    + intros a [H|H]%elem_of_app; [auto|]. by apply list_elem_of_singleton in H as ->.
    + lia.
    + unfold next, tag. by rewrite fmap_app, app_assoc.
    + by rewrite addressed_empty, app_nil_r.
  - exists (groups ++ [next]), []. rewrite (successor_gathered groups next) by done. constructor; auto.
    + apply Forall_app. split; [done|]. apply Forall_singleton. by apply completed_group.
    + constructor.
    + by intros a ?%not_elem_of_nil.
    + cbn. lia.
    + rewrite length_app. cbn. lia.
    + rewrite tagged_snoc. unfold next, tag. by rewrite fmap_app, !app_assoc, app_nil_r.
    + rewrite release_addressed, tagged_snoc, fmap_app. f_equal. unfold tag. by rewrite <- list_fmap_compose.
Qed.

Lemma barrier_history_run ms es : NoDup ms -> forall s groups current acc rel,
  history ms s groups current acc rel ->
  let '(s', os) := trace transition s es in
  exists groups' current',
    history ms s' groups' current' (acc ++ collect accepted es os) (rel ++ collect released es os).
Proof.
  intros Hms. induction es as [|e es IH]; intros s groups current acc rel H; simpl.
  { exists groups, current. by rewrite !app_nil_r. }
  pose proof (barrier_history_step _ _ _ _ _ _ e Hms H) as H1. destruct (transition s e) as [s1 o].
  destruct H1 as (g1 & c1 & H1). specialize (IH _ _ _ _ _ H1).
  destruct (trace transition s1 es) as [s2 os]. cbn [collect]. by rewrite <- !app_assoc in IH.
Qed.

Lemma new_history ms m : membership_new ms = Ok m -> history ms (new m) [] [] [] [].
Proof.
  intros (Hne & Hnd & ->)%membership_new_ok. constructor; try done.
  - constructor.
  - by intros a ?%not_elem_of_nil.
  - destruct ms; [done|cbn; lia].
Qed.

(** Every run of a validated barrier decomposes the accepted arrivals into
    generations: completed groups, numbered from zero, each a permutation of
    the fixed membership, followed by a partial group without repetition.  The
    releases sent are exactly one per arrival of the completed groups, in
    arrival order, naming that group's generation; at most 2^64 generations
    complete and the last one exhausts the barrier.  The next arrival is
    accepted exactly when it is a member not yet in the partial group naming
    the gathering generation; any other is refused with the state unchanged. *)
Theorem barrier_generations ms m es : membership_new ms = Ok m ->
  let '(s', os) := trace transition (new m) es in
  exists groups current,
    s' = mkBarrier ms (gathered groups current) /\
    Forall (fun g => participant <$> g ≡ₚ ms) groups /\
    (N.of_nat (length groups) <= u64_max + 1)%N /\
    NoDup (participant <$> current) /\ length current < length ms /\
    collect accepted es os = tagged groups ++ tag (length groups) current /\
    collect released es os = release_of <$> tagged groups /\
    (forall e, let '(s'', o) := transition s' e in
       (is_ok o = true <-> acceptable ms groups current (message e)) /\
       (is_ok o = false -> s'' = s')).
Proof.
  intros Hm. assert (NoDup ms) as Hnd by (by apply membership_new_ok in Hm as (_ & H & _)).
  pose proof (barrier_history_run ms es Hnd _ _ _ _ _ (new_history _ _ Hm)) as H.
  destruct (trace transition (new m) es) as [s' os]. destruct H as (groups & current & []).
  exists groups, current. split_and!; auto. subst s'. intros e.
  destruct (barrier_step_cases ms groups current e) as [[Ha ->]|[Hr [err ->]]].
  - split_match; (split; [by split|done]).
  - split; [|done]. split; [done|]. intros Ha. by destruct Hr.
Qed.

End Barrier.

(** ** Witness *)

Definition demo_transition :=
  transition (A := nat) (K := nat) (Route := Recipient nat) (Sends := list (Delivery nat BarrierReleased)).

Definition demo_arrival (g : N) (p : nat) : User nat (BarrierMessage nat (Recipient nat)) :=
  mkUser 9 (mkMessage (mkGeneration g) p (mkRecipient (100 + p))).

Definition demo_events := [demo_arrival 0 2; demo_arrival 0 2; demo_arrival 0 1; demo_arrival 1 1].

Lemma barrier_generations_witness :
  membership_new [1; 2] = Ok (mkMembership [1; 2]) /\
  snd (trace demo_transition (new (mkMembership [1; 2])) demo_events) !! 1 =
    Some (Err (DuplicateArrival 2 (mkGeneration 0) (mkRecipient 102))) /\
  exists groups current,
    fst (trace demo_transition (new (mkMembership [1; 2])) demo_events) =
      mkBarrier [1; 2] (gathered groups current).
Proof.
  split; [reflexivity|]. split; [reflexivity|].
  pose proof (barrier_generations (A := nat) (K := nat) (Route := Recipient nat)
    (Sends := list (Delivery nat BarrierReleased)) [1; 2] (mkMembership [1; 2]) demo_events eq_refl) as H.
  change (transition (A := nat) (K := nat) (Route := Recipient nat)
    (Sends := list (Delivery nat BarrierReleased))) with demo_transition in H.
  destruct (trace demo_transition (new (mkMembership [1; 2])) demo_events) as [s' os].
  destruct H as (groups & current & Hs & _). by exists groups, current.
Defined.
