(* ===== verification/Acknowledgements.v ===== *)
(** * Multi-participant acknowledgements ([crates/actors/src/routing/acknowledgements.rs])

    A vector of lifecycles, one per key.  It is refined to one independent
    automaton per key whose state is the declared membership, the participants
    that acknowledged, and whether the lifecycle was withdrawn. *)

From stdpp Require Import base list option numbers.
From S2P Require Import Prelude Effects.

(** ** Data *)

Inductive AcknowledgementState (P : Type) : Type :=
| Pending (remaining acknowledged : list P)
| Completed
| Cancelled.
Arguments Pending {P} _ _.
Arguments Completed {P}.
Arguments Cancelled {P}.

Record AcknowledgementRecord (K P : Type) := mkRecord {
  record_key : K;
  record_state : AcknowledgementState P
}.
Arguments mkRecord {K P} _ _.
Arguments record_key {K P} _.
Arguments record_state {K P} _.

Inductive AcknowledgementInput (K P : Type) : Type :=
| AcknowledgeInput (key : K) (participant : P)
| CancelInput (key : K).
Arguments AcknowledgeInput {K P} _ _.
Arguments CancelInput {K P} _.

Inductive AcknowledgementError (K P : Type) : Type :=
| Existing (key : K) (participants : list P)
| UnknownKey (input : AcknowledgementInput K P)
| UnexpectedParticipant (key : K) (participant : P)
| DuplicateParticipant (key : K) (participant : P)
| CompletedKey (input : AcknowledgementInput K P)
| CancelledKey (input : AcknowledgementInput K P).
Arguments Existing {K P} _ _.
Arguments UnknownKey {K P} _.
Arguments UnexpectedParticipant {K P} _ _.
Arguments DuplicateParticipant {K P} _ _.
Arguments CompletedKey {K P} _.
Arguments CancelledKey {K P} _.

Inductive AcknowledgementOutcome (K P : Type) : Type :=
| OutcomeStarted (key : K) (remaining : nat)
| OutcomeAcknowledged (key : K) (participant : P) (remaining : nat)
| OutcomeCompleted (key : K)
| OutcomeCancelled (key : K)
| Rejected (error : AcknowledgementError K P).
Arguments OutcomeStarted {K P} _ _.
Arguments OutcomeAcknowledged {K P} _ _ _.
Arguments OutcomeCompleted {K P} _.
Arguments OutcomeCancelled {K P} _.
Arguments Rejected {K P} _.

Inductive AcknowledgementMessage (K P Route : Type) : Type :=
| Begin (key : K) (participants : list P) (reply_to : Route)
| Acknowledge (key : K) (participant : P) (reply_to : Route)
| Cancel (key : K) (reply_to : Route).
Arguments Begin {K P Route} _ _ _.
Arguments Acknowledge {K P Route} _ _ _.
Arguments Cancel {K P Route} _ _.

Section Acknowledgements.
  Context {A K P Route Sends : Type} `{!EqDecision K, !EqDecision P}.
  Context `{!SendEffects Sends, !DeliveryRoute Route (AcknowledgementOutcome K P) Sends}.

Abbreviation actions := (Actions Never Never Sends).
Abbreviation acted := (Acted Never Never Sends Never).
Abbreviation record := (AcknowledgementRecord K P).
Abbreviation event := (User A (AcknowledgementMessage K P Route)).

Definition new : list record := [].

(** [Acknowledgements::result]. *)
Definition reply (reply_to : Route) (outcome : AcknowledgementOutcome K P) : actions :=
  send (deliver reply_to outcome).

Definition has_key (k : K) (r : record) : bool := bool_decide (record_key r = k).

(** The loop of [begin] that keeps first occurrences. *)
Definition distinct (participants : list P) : list P :=
  fold_left (fun seen p => if bool_decide (p ∈ seen) then seen else seen ++ [p]) participants [].

Definition begin (records : list record) (key : K) (participants : list P) (reply_to : Route) :
  list record * actions :=
  if existsb (has_key key) records
  then (records, reply reply_to (Rejected (Existing key participants)))
  else
    let required := distinct participants in
    let remaining := length required in
    let st := match required with [] => Completed | _ => Pending required [] end in
    (records ++ [mkRecord key st],
     reply reply_to (if remaining =? 0 then OutcomeCompleted key else OutcomeStarted key remaining)).

(** [iter_mut().find(..)]: the place of the record found, with its contents. *)
Definition find_mut (key : K) (records : list record) : option (nat * record) :=
  position (has_key key) records ≫= fun i => (fun r => (i, r)) <$> records !! i.

Definition acknowledge (records : list record) (key : K) (participant : P) (reply_to : Route) :
  list record * actions :=
  let input := AcknowledgeInput key participant in
  match find_mut key records with
  | None => (records, reply reply_to (Rejected (UnknownKey input)))
  | Some (i, r) =>
      match record_state r with
      | Completed => (records, reply reply_to (Rejected (CompletedKey input)))
      | Cancelled => (records, reply reply_to (Rejected (CancelledKey input)))
      | Pending remaining acknowledged =>
          if bool_decide (participant ∈ acknowledged)
          then (records, reply reply_to (Rejected (DuplicateParticipant key participant))) else
          match position (fun required => bool_decide (required = participant)) remaining with
          | None => (records, reply reply_to (Rejected (UnexpectedParticipant key participant)))
          | Some index =>
              let remaining := delete index remaining in
              let acknowledged := acknowledged ++ [participant] in
              match remaining with
              | [] => (<[i := mkRecord (record_key r) Completed]> records,
                       reply reply_to (OutcomeCompleted key))
              | _ => (<[i := mkRecord (record_key r) (Pending remaining acknowledged)]> records,
                      reply reply_to (OutcomeAcknowledged key participant (length remaining)))
              end
          end
      end
  end.

Definition cancel (records : list record) (key : K) (reply_to : Route) : list record * actions :=
  let input := CancelInput key in
  match find_mut key records with
  | None => (records, reply reply_to (Rejected (UnknownKey input)))
  | Some (i, r) =>
      match record_state r with
      | Pending _ _ =>
          (<[i := mkRecord (record_key r) Cancelled]> records, reply reply_to (OutcomeCancelled key))
      | Completed => (records, reply reply_to (Rejected (CompletedKey input)))
      | Cancelled => (records, reply reply_to (Rejected (CancelledKey input)))
      end
  end.

Definition transition (records : list record) (e : event) : list record * acted :=
  let '(next, actions) :=
    match message e with
    | Begin key participants reply_to => begin records key participants reply_to
    | Acknowledge key participant reply_to => acknowledge records key participant reply_to
    | Cancel key reply_to => cancel records key reply_to
    end in
  (next, Ok actions).

(** ** Specification: one lifecycle per key *)

Record lifecycle := mkLifecycle { declared : list P; acked : list P; withdrawn : bool }.

Definition outstanding (l : lifecycle) : list P :=
  filter (fun p => p ∉ acked l) (declared l).

(** The phase the vector records for a lifecycle. *)
Definition phase (l : lifecycle) : AcknowledgementState P :=
  if withdrawn l then Cancelled
  else match outstanding l with [] => Completed | rem => Pending rem (acked l) end.

Definition message_key (m : AcknowledgementMessage K P Route) : K :=
  match m with Begin k _ _ | Acknowledge k _ _ | Cancel k _ => k end.

(** Terminal lifecycles refuse the input. *)
Definition open (l : lifecycle) (input : AcknowledgementInput K P)
  (continue : lifecycle * AcknowledgementOutcome K P) : lifecycle * AcknowledgementOutcome K P :=
  if withdrawn l then (l, Rejected (CancelledKey input))
  else if bool_decide (outstanding l = []) then (l, Rejected (CompletedKey input))
  else continue.

Definition spec_acknowledge (l : lifecycle) (k : K) (p : P) : lifecycle * AcknowledgementOutcome K P :=
  open l (AcknowledgeInput k p)
    (if bool_decide (p ∈ acked l) then (l, Rejected (DuplicateParticipant k p))
     else if bool_decide (p ∈ declared l) then
       let l' := mkLifecycle (declared l) (acked l ++ [p]) false in
       (l', if bool_decide (outstanding l' = []) then OutcomeCompleted k
            else OutcomeAcknowledged k p (length (outstanding l')))
     else (l, Rejected (UnexpectedParticipant k p))).

Definition spec_step (l : option lifecycle) (e : event) :
  option lifecycle * (Route * AcknowledgementOutcome K P) :=
  match message e, l with
  | Begin k ps r, Some _ => (l, (r, Rejected (Existing k ps)))
  | Begin k ps r, None =>
      (Some (mkLifecycle (distinct ps) [] false),
       (r, if bool_decide (ps = []) then OutcomeCompleted k
           else OutcomeStarted k (length (distinct ps))))
  | Acknowledge k p r, None => (l, (r, Rejected (UnknownKey (AcknowledgeInput k p))))
  | Acknowledge k p r, Some l =>
      let '(l', out) := spec_acknowledge l k p in (Some l', (r, out))
  | Cancel k r, None => (l, (r, Rejected (UnknownKey (CancelInput k))))
  | Cancel k r, Some l =>
      let '(l', out) := open l (CancelInput k)
        (mkLifecycle (declared l) (acked l) true, OutcomeCancelled k) in (Some l', (r, out))
  end.

(** ** The refinement *)

Context `{!RouteLaws Route (AcknowledgementOutcome K P) Sends}.

Definition state_of (records : list record) (k : K) : option (AcknowledgementState P) :=
  record_state <$> List.find (has_key k) records.

Definition lifecycle_ok (l : lifecycle) : Prop :=
  NoDup (declared l) /\ NoDup (acked l) /\ (forall p, p ∈ acked l -> p ∈ declared l).

Lemma distinct_spec ps : NoDup (distinct ps) /\ forall p, p ∈ distinct ps <-> p ∈ ps.
Proof.
  unfold distinct.
  assert (H : forall seen, NoDup seen ->
    NoDup (fold_left (fun seen p => if bool_decide (p ∈ seen) then seen else seen ++ [p]) ps seen) /\
    forall p, p ∈ fold_left (fun seen p => if bool_decide (p ∈ seen) then seen else seen ++ [p]) ps seen
      <-> p ∈ seen \/ p ∈ ps).
  { induction ps as [|x ps IH]; intros seen Hs; cbn [fold_left].
    { split; [done|]. intros p. rewrite elem_of_nil. tauto. }
    case_bool_decide as Hx.
    - destruct (IH seen Hs) as [Hn Hin]. split; [done|]. intros p. rewrite Hin, elem_of_cons.
      split; [tauto|]. intros [|[->|]]; auto.
    - destruct (IH (seen ++ [x])) as [Hn Hin]; [by apply NoDup_snoc|]. split; [done|]. intros p.
      rewrite Hin, elem_of_app, list_elem_of_singleton, elem_of_cons. tauto. }
  destruct (H [] (NoDup_nil_2)) as [Hn Hin]. split; [done|]. intros p. rewrite Hin, elem_of_nil. tauto.
Qed.

Lemma distinct_nil ps : distinct ps = [] <-> ps = [].
Proof.
  split; [|by intros ->]. intros H. destruct ps as [|p ps]; [done|].
  destruct (distinct_spec (p :: ps)) as [_ Hin]. rewrite H in Hin.
  by destruct (not_elem_of_nil p); apply Hin; left.
Qed.

Lemma outstanding_fresh ps : outstanding (mkLifecycle ps [] false) = ps.
Proof.
  unfold outstanding. cbn. induction ps as [|p ps IH]; [done|].
  rewrite filter_cons_True by apply not_elem_of_nil. by rewrite IH.
Qed.

Lemma filter_absent (p : P) (l : list P) : p ∉ l -> filter (fun q => q <> p) l = l.
Proof.
  induction l as [|x l IH]; [done|]. intros [Hne Hp]%not_elem_of_cons.
  rewrite filter_cons_True by auto. by rewrite IH.
Qed.

(** Removing the position found is removing the participant. *)
Lemma delete_position (p : P) (l : list P) i : NoDup l ->
  position (fun required => bool_decide (required = p)) l = Some i ->
  delete i l = filter (fun q => q <> p) l.
Proof.
  revert i. induction l as [|q l IH]; intros i Hnd; cbn [position]; [done|].
  apply list.NoDup_cons in Hnd as [Hq Hnd]. case_bool_decide as Heq.
  - intros [= <-]. subst q. rewrite filter_cons_False by auto.
    by rewrite filter_absent.
  - destruct (position _ l) as [j|] eqn:Hj; cbn [fmap option_fmap option_map]; [|done]. intros [= <-].
    change (delete (S j) (q :: l)) with (q :: delete j l).
    rewrite filter_cons_True by auto. f_equal. auto.
Qed.

Lemma outstanding_ack l p : filter (fun q => q <> p) (outstanding l) =
  outstanding (mkLifecycle (declared l) (acked l ++ [p]) false).
Proof.
  unfold outstanding. cbn. rewrite list_filter_filter. apply list_filter_iff.
  intros x. rewrite elem_of_app, list_elem_of_singleton. tauto.
Qed.

Lemma outstanding_NoDup l : lifecycle_ok l -> NoDup (outstanding l).
Proof. intros (H & _). by apply list.NoDup_filter. Qed.

(** The record found for [k], and what replacing it changes. *)
Lemma find_mut_None k records : find_mut k records = None -> List.find (has_key k) records = None.
Proof.
  unfold find_mut. rewrite find_position. destruct (position _ _) as [i|]; cbn; [|done].
  by destruct (records !! i).
Qed.

Lemma find_mut_Some k records i r : find_mut k records = Some (i, r) ->
  List.find (has_key k) records = Some r /\ record_key r = k /\
  (forall st, state_of (<[i := mkRecord (record_key r) st]> records) k = Some st) /\
  (forall k' st, k' <> k ->
     state_of (<[i := mkRecord (record_key r) st]> records) k' = state_of records k').
Proof.
  unfold find_mut. intros H. apply bind_Some in H as (j & Hp & Hj).
  apply fmap_Some in Hj as (r' & Hr & [= -> ->]).
  destruct (position_Some _ _ _ Hp) as (x & Hx & Hk & _). rewrite Hr in Hx. injection Hx as <-.
  assert (record_key r' = k) as Hkey by (by apply bool_decide_eq_true in Hk).
  split_and!; auto; unfold state_of.
  - by rewrite find_position, Hp; cbn.
  - intros st. rewrite (find_insert_position _ _ _ _ Hp); [done|]. by apply bool_decide_eq_true.
  - intros k' st Hne. f_equal. apply (find_insert_other _ _ _ _ r'); [done| |];
      apply bool_decide_eq_false; cbn; congruence.
Qed.

Lemma existsb_find k (records : list record) :
  existsb (has_key k) records = bool_decide (is_Some (List.find (has_key k) records)).
Proof.
  induction records as [|r records IH]; cbn [existsb List.find]; [done|].
  destruct (has_key k r); [done|]. by rewrite IH.
Qed.

(** What a step of the record vector and one of the lifecycle of [k] establish. *)
Definition simulates (k : K) (step : list record * actions)
  (spec : option lifecycle * (Route * AcknowledgementOutcome K P)) : Prop :=
  state_of (fst step) k = phase <$> fst spec /\
  addressed (sends (snd step)) = [snd spec] /\
  (forall l, fst spec = Some l -> lifecycle_ok l).

(** A step that only replies. *)
Lemma simulates_reply k records l r out :
  state_of records k = phase <$> l -> (forall x, l = Some x -> lifecycle_ok x) ->
  simulates k (records, reply r out) (l, (r, out)).
Proof. intros Hs Hok. split_and!; auto. apply addressed_deliver. Qed.

(** A step that replaces the record found. *)
Lemma simulates_replace k records i rec l r out :
  find_mut k records = Some (i, rec) -> lifecycle_ok l ->
  simulates k (<[i := mkRecord (record_key rec) (phase l)]> records, reply r out) (Some l, (r, out)).
Proof.
  intros (_ & _ & Hsame & _)%find_mut_Some Hok.
  split_and!; [apply Hsame|apply addressed_deliver|by intros x [= <-]].
Qed.

Lemma state_of_find_mut k records l : state_of records k = Some (phase l) ->
  exists i rec, find_mut k records = Some (i, rec) /\ record_state rec = phase l.
Proof.
  unfold state_of. intros (rec & Hf & Hst)%fmap_Some.
  destruct (find_mut k records) as [[i rec']|] eqn:Hm.
  - exists i, rec'. split; [done|]. apply find_mut_Some in Hm as (Hf' & _). congruence.
  - apply find_mut_None in Hm. congruence.
Qed.

Lemma state_of_None k records : state_of records k = None -> find_mut k records = None.
Proof.
  unfold state_of. intros Hn%fmap_None. destruct (find_mut k records) as [[i rec]|] eqn:Hm; [|done].
  apply find_mut_Some in Hm as (Hf & _). congruence.
Qed.

Lemma begin_simulates k ps r records l from :
  state_of records k = phase <$> l -> (forall x, l = Some x -> lifecycle_ok x) ->
  simulates k (begin records k ps r) (spec_step l (mkUser from (Begin k ps r))).
Proof.
  intros Hs Hok. unfold begin, spec_step. cbn [message]. rewrite existsb_find.
  destruct l as [l|].
  { pose proof Hs as (rec & Hf & _)%fmap_Some. rewrite Hf, bool_decide_eq_true_2 by eauto.
    by apply simulates_reply. }
  apply fmap_None in Hs as Hf. rewrite Hf, bool_decide_eq_false_2 by (by intros []).
  assert (Hph : phase (mkLifecycle (distinct ps) [] false) =
    match distinct ps with [] => Completed | _ => Pending (distinct ps) [] end).
  { unfold phase. rewrite outstanding_fresh. by destruct (distinct ps). }
  unfold simulates, state_of; cbn [fst snd]. rewrite find_snoc, Hf.
  unfold has_key at 1; cbn [record_key]. rewrite bool_decide_eq_true_2 by done. split_and!.
  - cbn [fmap option_fmap option_map record_state]. by rewrite Hph.
  - unfold reply; cbn. rewrite addressed_deliver. rewrite (bool_decide_ext (ps = []) (distinct ps = []))
      by (by rewrite distinct_nil). by destruct (distinct ps).
  - intros l [= <-]. destruct (distinct_spec ps) as [Hn _].
    split_and!; [done|apply NoDup_nil_2|by intros p ?%not_elem_of_nil].
Qed.

Lemma cancel_simulates k r records l from :
  state_of records k = phase <$> l -> (forall x, l = Some x -> lifecycle_ok x) ->
  simulates k (cancel records k r) (spec_step l (mkUser from (Cancel k r))).
Proof.
  intros Hs Hok. unfold cancel, spec_step. cbn [message]. destruct l as [l|]; cbn in Hs.
  2: { rewrite (state_of_None _ _ Hs). by apply simulates_reply. }
  destruct (state_of_find_mut _ _ _ Hs) as (i & rec & Hm & Hst). rewrite Hm, Hst.
  unfold open, phase. destruct (withdrawn l) eqn:Hw; [by apply simulates_reply|].
  case_bool_decide as Ho; [rewrite Ho; by apply simulates_reply|].
  destruct (outstanding l) as [|o os] eqn:Hout; [done|].
  change (@Cancelled P) with (phase (mkLifecycle (declared l) (acked l) true)).
  apply simulates_replace; [done|]. by apply (Hok l).
Qed.

Lemma position_declared l p j :
  position (fun required => bool_decide (required = p)) (outstanding l) = Some j -> p ∈ declared l.
Proof.
  intros (x & Hx & Hb & _)%position_Some. apply bool_decide_eq_true in Hb as ->.
  apply list_elem_of_lookup_2, list_elem_of_filter in Hx. tauto.
Qed.

Lemma lifecycle_ok_ack l p : lifecycle_ok l -> p ∉ acked l -> p ∈ declared l ->
  lifecycle_ok (mkLifecycle (declared l) (acked l ++ [p]) false).
Proof.
  intros (Hd & Ha & Hsub) Hp Hin. split_and!; cbn; [done|by apply NoDup_snoc|].
  intros q [|Hq]%elem_of_app; [auto|]. by apply list_elem_of_singleton in Hq as ->.
Qed.

Lemma acknowledge_simulates k p r records l from :
  state_of records k = phase <$> l -> (forall x, l = Some x -> lifecycle_ok x) ->
  simulates k (acknowledge records k p r) (spec_step l (mkUser from (Acknowledge k p r))).
Proof.
  intros Hs Hok. unfold acknowledge, spec_step. cbn [message]. destruct l as [l|]; cbn in Hs.
  2: { rewrite (state_of_None _ _ Hs). by apply simulates_reply. }
  destruct (state_of_find_mut _ _ _ Hs) as (i & rec & Hm & Hst). rewrite Hm, Hst.
  unfold spec_acknowledge, open, phase. destruct (withdrawn l) eqn:Hw; [by apply simulates_reply|].
  case_bool_decide as Ho; [rewrite Ho; by apply simulates_reply|].
  replace (match outstanding l with [] => Completed | rem => Pending rem (acked l) end)
    with (Pending (outstanding l) (acked l)) by (by destruct (outstanding l)).
  case_bool_decide as Ha; [by apply simulates_reply|]. pose proof (Hok l eq_refl) as Hl.
  destruct (position _ (outstanding l)) as [j|] eqn:Hpos.
  - rewrite (bool_decide_eq_true_2 (p ∈ declared l)) by (eapply position_declared; eauto).
    rewrite (delete_position p _ j), outstanding_ack by auto using outstanding_NoDup.
    pose proof (lifecycle_ok_ack l p Hl Ha (position_declared _ _ _ Hpos)) as Hl'.
    set (l' := mkLifecycle _ _ _) in *.
    assert (Hph : phase l' =
      match outstanding l' with [] => Completed | rem => Pending rem (acked l ++ [p]) end) by done.
    destruct (outstanding l') as [|x rest]; rewrite <- Hph.
    + rewrite bool_decide_eq_true_2 by done. by apply simulates_replace.
    + rewrite bool_decide_eq_false_2 by done. by apply simulates_replace.
  - rewrite (bool_decide_eq_false_2 (p ∈ declared l)); [by apply simulates_reply|].
    intros Hd. apply position_None in Hpos. rewrite list.Forall_forall in Hpos.
    assert (p ∈ outstanding l) as Hin by (by apply list_elem_of_filter).
    by specialize (Hpos p Hin); rewrite bool_decide_eq_true_2 in Hpos.
Qed.

(** Keys other than the message's keep their state. *)
Lemma transition_frame records (e : event) k : k <> message_key (message e) ->
  state_of (fst (transition records e)) k = state_of records k.
Proof.
  intros Hk. unfold transition. destruct (message e) as [k0 ps r|k0 p r|k0 r]; cbn [message_key] in Hk.
  - unfold begin. destruct (existsb _ _); [done|]. unfold state_of. cbn [fst]. rewrite find_snoc.
    unfold has_key at 2; cbn [record_key]. rewrite bool_decide_eq_false_2 by congruence.
    by destruct (List.find (has_key k) records).
  - unfold acknowledge. destruct (find_mut k0 records) as [[i rec]|] eqn:Hm; [|done].
    apply find_mut_Some in Hm as (_ & _ & _ & Hother).
    repeat case_match; simplify_eq/=; auto.
  - unfold cancel. destruct (find_mut k0 records) as [[i rec]|] eqn:Hm; [|done].
    apply find_mut_Some in Hm as (_ & _ & _ & Hother).
    repeat case_match; simplify_eq/=; auto.
Qed.

Lemma transition_simulates records (e : event) l :
  state_of records (message_key (message e)) = phase <$> l ->
  (forall x, l = Some x -> lifecycle_ok x) ->
  exists a, transition records e = (fst (transition records e), Ok a) /\
    simulates (message_key (message e)) (fst (transition records e), a) (spec_step l e).
Proof.
  intros Hs Hok. destruct e as [from [k ps r|k p r|k r]]; cbn [message message_key] in *; unfold transition;
    cbn [message].
  - pose proof (begin_simulates k ps r records l from Hs Hok) as H. destruct (begin records k ps r); eauto.
  - pose proof (acknowledge_simulates k p r records l from Hs Hok) as H.
    destruct (acknowledge records k p r); eauto.
  - pose proof (cancel_simulates k r records l from Hs Hok) as H. destruct (cancel records k r); eauto.
Qed.

(** The events of one key, and the replies the vector gave to them. *)
Definition about (k : K) (e : event) : Prop := message_key (message e) = k.

#[local] Instance about_dec k e : Decision (about k e) := decide (message_key (message e) = k).

Definition replies (k : K) (e : event) (o : acted) : list (Route * AcknowledgementOutcome K P) :=
  if bool_decide (about k e) then addressed (ok_sends o) else [].

Lemma trace_simulates k es : forall records l,
  state_of records k = phase <$> l -> (forall x, l = Some x -> lifecycle_ok x) ->
  let '(records', os) := trace transition records es in
  let '(l', outs) := trace spec_step l (filter (about k) es) in
  state_of records' k = phase <$> l' /\ collect (replies k) es os = outs /\
  (forall x, l' = Some x -> lifecycle_ok x).
Proof.
  induction es as [|e es IH]; intros records l Hs Hok; [done|]. cbn [trace].
  destruct (decide (about k e)) as [He|He].
  - rewrite filter_cons_True by done. cbn [trace]. unfold about in He. subst k.
    destruct (transition_simulates records e l Hs Hok) as (a & -> & Hst & Hout & Hok').
    destruct (spec_step l e) as [l1 out]. cbn [fst snd] in *. specialize (IH _ _ Hst Hok').
    destruct (trace transition _ es) as [r2 os], (trace spec_step l1 _) as [l2 outs].
    destruct IH as (Hs2 & Hc & Hok2). split_and!; auto. cbn [collect]. unfold replies at 1.
    rewrite bool_decide_eq_true_2 by done. unfold ok_sends; cbn. rewrite Hout, Hc. done.
  - rewrite filter_cons_False by done. pose proof (transition_frame records e k (not_eq_sym He)) as Hf.
    destruct (transition records e) as [r1 o]. cbn [fst] in Hf. rewrite <- Hf in Hs.
    specialize (IH _ _ Hs Hok).
    destruct (trace transition r1 es) as [r2 os], (trace spec_step l _) as [l2 outs].
    cbn [collect]. unfold replies at 1. by rewrite bool_decide_eq_false_2.
Qed.

(** The acknowledgement table implements one independent automaton per
    key: after any run, the recorded phase of a key and every reply given to
    the operations on it are those of the automaton run on the events of that
    key alone.  The automaton keeps the distinct declared participants and
    the distinct ones among them that acknowledged; a lifecycle completes
    exactly when nobody is outstanding, the reported remainders are the numbers
    outstanding, and unknown, existing, duplicate, unexpected, completed and
    cancelled inputs are refused with the rejected input. *)
Theorem acknowledgements_refine_lifecycles k es :
  let '(records, os) := trace transition new es in
  let '(l, outs) := trace spec_step None (filter (about k) es) in
  state_of records k = phase <$> l /\ collect (replies k) es os = outs /\
  (forall x, l = Some x -> lifecycle_ok x).
Proof. by apply (trace_simulates k es new None). Qed.

End Acknowledgements.
