(* ===== verification/ShutdownPlan.v ===== *)
(** * Shutdown plans ([crates/actors/src/lifecycle/shutdown_coordinator.rs], plans and trees)

    Validation of ordered shutdown phases, and the compilation of a dependency
    topology into phases.  The layering loop is fuelled by the number of nodes;
    it never runs out, because every round removes at least one node. *)

From stdpp Require Import base list option numbers sorting.
From S2P Require Import Prelude.

(** ** Data *)

Record ShutdownPlan (N : Type) := mkPlan { phases : list (list N) }.
Arguments mkPlan {N} _.
Arguments phases {N} _.

Inductive ShutdownPlanError (N : Type) : Type :=
| EmptyPhase (phase : nat)
| PlanDuplicateChild (child : N).
Arguments EmptyPhase {N} _.
Arguments PlanDuplicateChild {N} _.

Record ShutdownTree (N : Type) := mkTree { plan : ShutdownPlan N }.
Arguments mkTree {N} _.
Arguments plan {N} _.

Inductive ShutdownTreeError (N : Type) : Type :=
| DuplicateChild (child : N)
| UnknownChild (child : N)
| Cycle.
Arguments DuplicateChild {N} _.
Arguments UnknownChild {N} _.
Arguments Cycle {N}.

(** ** [ShutdownPlan::new]

    [creation] is the identity for a homogeneous plan and
    [Selection::creation] for a heterogeneous one. *)

Section Plan.
  Context {T N : Type} `{!EqDecision N} (creation : T -> N).

(** The inner loop: the children seen so far, or the first repeated one. *)
Fixpoint see_children (seen : list N) (children : list T) : result (list N) N :=
  match children with
  | [] => Ok seen
  | child :: children =>
      if bool_decide (creation child ∈ seen) then Err (creation child)
      else see_children (seen ++ [creation child]) children
  end.

(** The outer loop. *)
Fixpoint see_phases (phase : nat) (seen : list N) (ps : list (list T)) :
  result () (ShutdownPlanError N) :=
  match ps with
  | [] => Ok tt
  | [] :: _ => Err (EmptyPhase phase)
  | children :: ps =>
      match see_children seen children with
      | Err child => Err (PlanDuplicateChild child)
      | Ok seen => see_phases (S phase) seen ps
      end
  end.

Definition plan_new (ps : list (list T)) : result (ShutdownPlan T) (ShutdownPlanError N) :=
  map_result (fun _ => mkPlan ps) (see_phases 0 [] ps).

Lemma see_children_Ok children : forall seen seen', NoDup seen ->
  see_children seen children = Ok seen' <->
    seen' = seen ++ (creation <$> children) /\ NoDup (seen ++ (creation <$> children)).
Proof.
  induction children as [|c children IH]; intros seen seen' Hs; cbn [see_children].
  { cbn. rewrite app_nil_r. split; [by intros [= ->]|by intros [-> _]]. }
  case_bool_decide as Hc.
  - split; [done|]. intros [_ (_ & Hn & _)%list.NoDup_app]. destruct (Hn _ Hc). left.
  - rewrite IH, <- !app_assoc by (by apply NoDup_snoc). done.
Qed.

Lemma see_phases_Ok ps : forall i seen, NoDup seen ->
  see_phases i seen ps = Ok tt <->
    Forall (fun p => p <> []) ps /\ NoDup (seen ++ (creation <$> concat ps)).
Proof.
  induction ps as [|p ps IH]; intros i seen Hs.
  { cbn. rewrite app_nil_r. split; [split; [constructor|done]|done]. }
  destruct p as [|c p]; cbn [see_phases].
  { split; [done|]. intros [H _]. by inversion H. }
  cbn [concat]. rewrite Forall_cons, fmap_app, app_assoc.
  destruct (see_children seen (c :: p)) as [seen'|d] eqn:He.
  - apply see_children_Ok in He as [-> Hn]; [|done]. rewrite IH by done. naive_solver.
  - split; [done|]. intros [_ (Hn & _)%list.NoDup_app].
    assert (see_children seen (c :: p) = Ok (seen ++ (creation <$> c :: p))) as Hok
      by (by apply see_children_Ok). congruence.
Qed.

(** Phases are never empty and no child occurs twice. *)
Definition valid_phases (ps : list (list T)) : Prop :=
  Forall (fun p => p <> []) ps /\ NoDup (creation <$> concat ps).

Lemma plan_new_Ok ps p : plan_new ps = Ok p <-> p = mkPlan ps /\ valid_phases ps.
Proof.
  unfold plan_new, valid_phases. pose proof (see_phases_Ok ps 0 [] (NoDup_nil_2)) as H. cbn [app] in H.
  rewrite <- H. destruct (see_phases 0 [] ps) as [[]|e]; cbn; [naive_solver|].
  split; [done|by intros [_ ?]].
Qed.

End Plan.

(** ** [ShutdownTree::new] *)

Section Tree.
  Context {N : Type} `{!EqDecision N}.

Fixpoint repeated (unique nodes : list N) : option N :=
  match nodes with
  | [] => None
  | node :: nodes =>
      if bool_decide (node ∈ unique) then Some node else repeated (unique ++ [node]) nodes
  end.

Fixpoint unknown_end (nodes : list N) (edges : list (N * N)) : option N :=
  match edges with
  | [] => None
  | (dependent, dependency) :: edges =>
      if negb (bool_decide (dependent ∈ nodes)) then Some dependent
      else if negb (bool_decide (dependency ∈ nodes)) then Some dependency
      else unknown_end nodes edges
  end.

(** No remaining dependent needs [candidate]. *)
Definition free (edges : list (N * N)) (remaining : list N) (candidate : N) : bool :=
  negb (existsb (fun e => bool_decide (snd e = candidate) && bool_decide (fst e ∈ remaining)) edges).

Definition next_phase (edges : list (N * N)) (remaining : list N) : list N :=
  filter (fun candidate => free edges remaining candidate = true) remaining.

(** The layering loop; [None] means that the fuel ran out. *)
Fixpoint layer_loop (fuel : nat) (edges : list (N * N)) (remaining : list N)
  (ps : list (list N)) : option (result (list (list N)) (ShutdownTreeError N)) :=
  match fuel with
  | 0 => None
  | S fuel =>
      match remaining with
      | [] => Some (Ok ps)
      | _ =>
          match next_phase edges remaining with
          | [] => Some (Err Cycle)
          | phase =>
              layer_loop fuel edges (filter (fun node => node ∉ phase) remaining) (ps ++ [phase])
          end
      end
  end.

Definition tree_new (nodes : list N) (edges : list (N * N)) :
  option (result (ShutdownTree N) (ShutdownTreeError N)) :=
  match repeated [] nodes with
  | Some node => Some (Err (DuplicateChild node))
  | None =>
      match unknown_end nodes edges with
      | Some node => Some (Err (UnknownChild node))
      | None =>
          map_result (fun ps => mkTree (mkPlan ps)) <$>
            layer_loop (S (length nodes)) edges nodes []
      end
  end.

Definition into_plan (t : ShutdownTree N) : ShutdownPlan N := plan t.

(** ** What the layers are *)

Definition closed_edges (nodes : list N) (edges : list (N * N)) : Prop :=
  forall a b, (a, b) ∈ edges -> a ∈ nodes /\ b ∈ nodes.

Definition acyclic_edges (edges : list (N * N)) : Prop :=
  exists rank : N -> nat, forall a b, (a, b) ∈ edges -> rank a < rank b.

(** The phase of a child: the first that contains it. *)
Fixpoint phase_of (ps : list (list N)) (x : N) : nat :=
  match ps with
  | [] => 0
  | p :: ps => if bool_decide (x ∈ p) then 0 else S (phase_of ps x)
  end.

Inductive layered (edges : list (N * N)) : list N -> list (list N) -> Prop :=
| layered_nil : layered edges [] []
| layered_cons remaining ps : next_phase edges remaining <> [] ->
    layered edges (filter (fun node => node ∉ next_phase edges remaining) remaining) ps ->
    layered edges remaining (next_phase edges remaining :: ps).

(** [n] is the first child that was declared before. *)
Definition first_repeated (nodes : list N) (n : N) : Prop :=
  exists before after, nodes = before ++ n :: after /\ n ∈ before /\ NoDup before.

Lemma first_repeated_not_NoDup nodes n : first_repeated nodes n -> ~ NoDup nodes /\ n ∈ nodes.
Proof.
  intros (before & after & -> & Hin & _). split; [|apply elem_of_app; by left].
  intros (_ & H & _)%list.NoDup_app. destruct (H n Hin). left.
Qed.

Lemma repeated_spec nodes : forall unique, NoDup unique ->
  match repeated unique nodes with
  | None => NoDup (unique ++ nodes)
  | Some n => first_repeated (unique ++ nodes) n
  end.
Proof.
  induction nodes as [|n nodes IH]; intros unique Hu; cbn [repeated]; [by rewrite app_nil_r|].
  case_bool_decide as Hn; [by exists unique, nodes|].
  specialize (IH (unique ++ [n]) (NoDup_snoc _ _ Hu Hn)). by rewrite <- app_assoc in IH.
Qed.

(** [n] is the first end of an edge, dependents before their dependencies, that
    was not declared. *)
Definition first_unknown (nodes : list N) (edges : list (N * N)) (n : N) : Prop :=
  (n ∉ nodes) /\ exists before a b after, edges = before ++ (a, b) :: after /\ closed_edges nodes before /\
    (n = a \/ a ∈ nodes /\ n = b).

Lemma first_unknown_open nodes edges n : first_unknown nodes edges n -> ~ closed_edges nodes edges.
Proof.
  intros (Hn & before & a & b & after & -> & _ & Hab) H. apply Hn. destruct (H a b); [|naive_solver].
  apply elem_of_app. right. left.
Qed.

Lemma unknown_end_spec nodes edges :
  match unknown_end nodes edges with
  | None => closed_edges nodes edges
  | Some n => first_unknown nodes edges n
  end.
Proof.
  assert (Hnil : closed_edges nodes []) by (by intros a b ?%not_elem_of_nil).
  induction edges as [|[a b] edges IH]; cbn [unknown_end]; [done|].
  case_bool_decide as Ha; cbn [negb]; [|split; [done|]; exists [], a, b, edges; auto].
  case_bool_decide as Hb; cbn [negb]; [|split; [done|]; exists [], a, b, edges; auto].
  destruct (unknown_end nodes edges) as [n|].
  - destruct IH as (Hn & before & x & y & after & -> & Hc & Hxy). split; [done|].
    exists ((a, b) :: before), x, y, after. split_and!; [done| |done].
    intros u v [[= -> ->]|Hin]%elem_of_cons; auto.
  - intros x y [[= -> ->]|Hin]%elem_of_cons; auto.
Qed.

Lemma free_spec edges remaining c :
  free edges remaining c = true <-> forall a, (a, c) ∈ edges -> a ∉ remaining.
Proof.
  unfold free. rewrite negb_true_iff, <- not_true_iff_false, existsb_exists. split.
  - intros H a Ha Hr. apply H. exists (a, c). rewrite <- list_elem_of_In. cbn.
    split; [done|]. by rewrite !bool_decide_eq_true_2.
  - intros H ([a b] & Hin & [Hb Ha]%andb_true_iff). apply list_elem_of_In in Hin. cbn in *.
    apply bool_decide_eq_true in Hb as ->. apply bool_decide_eq_true in Ha. by apply (H a).
Qed.

Lemma not_free edges remaining c : free edges remaining c <> true ->
  exists a, (a, c) ∈ edges /\ a ∈ remaining.
Proof.
  intros H%not_true_is_false. apply negb_false_iff, existsb_exists in H as ([a b] & Hin & [Hb Ha]%andb_true_iff).
  apply list_elem_of_In in Hin. cbn in *. apply bool_decide_eq_true in Hb as ->.
  apply bool_decide_eq_true in Ha. eauto.
Qed.

Lemma elem_of_next_phase edges remaining x :
  x ∈ next_phase edges remaining <-> free edges remaining x = true /\ x ∈ remaining.
Proof. unfold next_phase. by rewrite list_elem_of_filter. Qed.

Lemma elem_of_rest edges remaining x :
  x ∈ filter (fun node => node ∉ next_phase edges remaining) remaining <->
    (x ∉ next_phase edges remaining) /\ x ∈ remaining.
Proof. by rewrite list_elem_of_filter. Qed.

Lemma layered_perm edges remaining ps : NoDup remaining -> layered edges remaining ps ->
  concat ps ≡ₚ remaining.
Proof.
  intros Hn Hl. revert Hn. induction Hl as [|remaining ps Hne Hl IH]; intros Hn; cbn [concat]; [done|].
  rewrite IH by (by apply list.NoDup_filter). apply NoDup_Permutation; [|done|].
  - apply list.NoDup_app. split_and!; [by apply list.NoDup_filter| |by apply list.NoDup_filter].
    intros x Hx [Hnx _]%elem_of_rest. done.
  - intros x. rewrite elem_of_app, elem_of_rest, elem_of_next_phase.
    destruct (decide (free edges remaining x = true)); tauto.
Qed.

Lemma layered_nonempty edges remaining ps : layered edges remaining ps -> Forall (fun p => p <> []) ps.
Proof. induction 1; by constructor. Qed.

Lemma layered_order edges remaining ps a b : layered edges remaining ps ->
  (a, b) ∈ edges -> a ∈ remaining -> b ∈ remaining -> phase_of ps a < phase_of ps b.
Proof.
  intros Hl Hab. induction Hl as [|remaining ps Hne Hl IH]; intros Ha Hb; [by apply not_elem_of_nil in Ha|].
  assert (Hnb : b ∉ next_phase edges remaining).
  { intros [Hf _]%elem_of_next_phase. rewrite free_spec in Hf. by apply (Hf a). }
  cbn [phase_of]. rewrite (bool_decide_eq_false_2 (b ∈ _)) by done.
  case_bool_decide as Hna; [lia|]. apply ->Nat.succ_lt_mono. apply IH; by apply elem_of_rest.
Qed.

Lemma layered_earliest edges remaining ps b j : layered edges remaining ps ->
  b ∈ remaining -> phase_of ps b = S j -> exists a, (a, b) ∈ edges /\ a ∈ remaining /\ phase_of ps a = j.
Proof.
  intros Hl. revert j. induction Hl as [|remaining ps Hne Hl IH]; intros j Hb; cbn [phase_of]; [done|].
  case_bool_decide as Hnb; [done|]. intros [= Hj].
  assert (Hrest : b ∈ filter (fun node => node ∉ next_phase edges remaining) remaining)
    by (by apply elem_of_rest).
  destruct j as [|j].
  - destruct (not_free edges remaining b) as (a & Hab & Ha).
    { intros Hf. apply Hnb. by apply elem_of_next_phase. }
    exists a. split_and!; [done..|]. rewrite bool_decide_eq_true_2; [done|].
    inversion Hl as [He|rem' ps' Hne' Hl' He]; [rewrite <- He in Hrest; by apply not_elem_of_nil in Hrest|].
    subst. cbn [phase_of] in Hj. case_bool_decide as Hin; [|done].
    apply elem_of_next_phase in Hin as [Hf _]. rewrite free_spec in Hf. specialize (Hf a Hab).
    destruct (decide (a ∈ next_phase edges remaining)) as [|Hna]; [done|].
    destruct Hf. by apply elem_of_rest.
  - destruct (IH j Hrest Hj) as (a & Hab & [Hna Ha]%elem_of_rest & Hp).
    exists a. split_and!; [done..|]. rewrite bool_decide_eq_false_2 by done. by rewrite Hp.
Qed.

(** A nonempty remainder without a free node has no rank. *)
Lemma stuck_cycle edges remaining : remaining <> [] -> next_phase edges remaining = [] ->
  ~ acyclic_edges edges.
Proof.
  intros Hne Hstuck [rank Hrank].
  assert (H : forall n x, rank x = n -> x ∈ remaining -> False).
  { induction n as [n IH] using lt_wf_ind. intros x <- Hx.
    destruct (not_free edges remaining x) as (a & Hab & Ha).
    { intros Hf. apply (not_elem_of_nil x). rewrite <- Hstuck. by apply elem_of_next_phase. }
    apply (IH (rank a)) with a; auto. }
  destruct remaining as [|x remaining]; [done|]. apply (H _ x eq_refl). left.
Qed.

Lemma layer_loop_decides fuel edges : forall remaining ps,
  NoDup remaining -> length remaining < fuel ->
  (exists ls, layer_loop fuel edges remaining ps = Some (Ok (ps ++ ls)) /\ layered edges remaining ls) \/
  (layer_loop fuel edges remaining ps = Some (Err Cycle) /\ ~ acyclic_edges edges).
Proof.
  induction fuel as [|fuel IH]; intros remaining ps Hn Hf; [lia|]. cbn [layer_loop].
  destruct remaining as [|x rest] eqn:Hr.
  { left. exists []. rewrite app_nil_r. split; [done|constructor]. }
  rewrite <- Hr in *. destruct (next_phase edges remaining) as [|c p] eqn:Hp.
  { right. split; [done|]. apply (stuck_cycle edges remaining); [by rewrite Hr|done]. }
  rewrite <- Hp. destruct (IH (filter (fun node => node ∉ next_phase edges remaining) remaining)
    (ps ++ [next_phase edges remaining])) as [(ls & -> & Hl)|]; [by apply list.NoDup_filter| | |by right].
  - assert (Hc : c ∈ next_phase edges remaining) by (rewrite Hp; left).
    pose proof (length_filter_lt (fun node => node ∉ next_phase edges remaining) remaining c) as Hlt.
    apply elem_of_next_phase in Hc as Hc'. destruct Hc' as [_ Hin].
    assert (length (filter (fun node => node ∉ next_phase edges remaining) remaining) < length remaining);
      [apply Hlt; [done|by intros ?]|lia].
  - left. exists (next_phase edges remaining :: ls). rewrite <- app_assoc. split; [done|].
    constructor; [by rewrite Hp|done].
Qed.

(** Layers make a rank. *)
Lemma layered_acyclic nodes edges ps : closed_edges nodes edges -> layered edges nodes ps ->
  acyclic_edges edges.
Proof.
  intros Hc Hl. exists (phase_of ps). intros a b Hab. destruct (Hc a b Hab).
  by apply (layered_order edges nodes).
Qed.

(** What an error of [tree_new] reports. *)
Definition tree_error_cause (nodes : list N) (edges : list (N * N)) (e : ShutdownTreeError N) : Prop :=
  match e with
  | DuplicateChild n => ~ NoDup nodes /\ first_repeated nodes n
  | UnknownChild n => NoDup nodes /\ ~ closed_edges nodes edges /\ first_unknown nodes edges n
  | Cycle => NoDup nodes /\ closed_edges nodes edges /\ ~ acyclic_edges edges
  end.

(** C35. Compiling a shutdown topology always terminates, and its errors are
    exact: the first child that is declared a second time, the first end of an
    edge that is not declared, or a cycle of declared children.
    Otherwise the phases hold every declared child exactly once and form a
    plan that plan validation accepts, every dependent is in a strictly
    earlier phase than its dependency, and every child is in the earliest
    phase its dependents allow: one of them is in the phase just before. *)
Theorem shutdown_tree_layers nodes edges :
  match tree_new nodes edges with
  | None => False
  | Some (Err e) => tree_error_cause nodes edges e
  | Some (Ok t) =>
      let ps := phases (into_plan t) in
      NoDup nodes /\ closed_edges nodes edges /\ acyclic_edges edges /\
      concat ps ≡ₚ nodes /\ plan_new (fun n => n) ps = Ok (into_plan t) /\
      (forall a b, (a, b) ∈ edges -> phase_of ps a < phase_of ps b) /\
      (forall b j, b ∈ nodes -> phase_of ps b = S j ->
         exists a, (a, b) ∈ edges /\ phase_of ps a = j)
  end.
Proof.
  unfold tree_new. pose proof (repeated_spec nodes [] (NoDup_nil_2)) as Hdup. cbn [app] in Hdup.
  destruct (repeated [] nodes) as [n|]; [split; [by eapply first_repeated_not_NoDup|done]|].
  pose proof (unknown_end_spec nodes edges) as Hc.
  destruct (unknown_end nodes edges) as [n|]; [split_and!; [done|by eapply first_unknown_open|done]|].
  destruct (layer_loop_decides (S (length nodes)) edges nodes [] Hdup ltac:(lia))
    as [(ps & -> & Hl)|[-> Hcyc]]; cbn; [|done].
  split_and!; [done|done|by eapply layered_acyclic|by eapply layered_perm| | |].
  - apply plan_new_Ok. split; [done|]. split; [by eapply layered_nonempty|].
    rewrite list_fmap_id. by rewrite (layered_perm edges nodes ps).
  - intros a b Hab. destruct (Hc a b Hab). by apply (layered_order edges nodes).
  - intros b j Hb Hj. destruct (layered_earliest edges nodes ps b j Hl Hb Hj) as (a & ? & _ & ?). eauto.
Qed.

End Tree.
