(* ===== verification/Termination.v ===== *)
(** * Termination vocabulary and propagation

    The terminal-outcome and shutdown types of [crates/actors/src]
    ([termination.rs], [protocol/mod.rs]) and [actor/creation.rs], and the
    wrappers that react to shutdown requests and to the termination of another
    actor: [StopOnShutdown], [FinalizeOnShutdown] ([shutdown.rs]), [Watch]
    ([watch.rs]) and [PropagateTermination]
    ([lifecycle/termination_propagation.rs]). *)

From stdpp Require Import base list option numbers.
From S2P Require Import Prelude Effects Timers Restart.

(** ** Outcomes ([termination.rs]) *)

Inductive AllocationRejection : Type :=
| Exhausted
| AddressAlreadyClaimed.

Inductive CreationRejection : Type :=
| CorrelationAlreadyRecorded
| Allocation (r : AllocationRejection)
| InitializationFailed
| CreationEnvironmentFailed.

Inductive RestartDenial : Type :=
| BudgetExceeded (restarts_in_window replacements_requested : nat) (maximum_restarts : N)
| ReleaseRejected (f : RestartReleaseFailure)
| AttemptSequenceExhausted
| TimerGenerationExhausted
| TimerIdentityExhausted.

Inductive SupervisionFailureReason : Type :=
| RestartDenied (d : RestartDenial)
| StableChildStopped
| StableChildCreationRejected (r : CreationRejection)
| WorkerFactoryRejected
| WorkerCreationRejected (r : CreationRejection).

Inductive Exit (A : Type) : Type :=
| Normal
| Collected
| LinkDied (peer : A)
| SupervisionFailed (reason : SupervisionFailureReason).
Arguments Normal {A}.
Arguments Collected {A}.
Arguments LinkDied {A} _.
Arguments SupervisionFailed {A} _.

Inductive Crash : Type :=
| Failed
| EnvironmentFailed
| CapabilityFailed
| Panicked
| Cancelled.

Definition TerminalOutcome (A : Type) : Type := result (Exit A) Crash.

Record ReportTerminalOutcome (A : Type) := mkReportTerminalOutcome { reported : TerminalOutcome A }.
Arguments mkReportTerminalOutcome {A} _.
Arguments reported {A} _.

(** ** Facts and requests ([protocol/mod.rs]) *)

Record ChildStopped (A : Type) := mkChildStopped {
  stopped_child : CreationId;
  child_outcome : TerminalOutcome A;
  stopped_at : Instant
}.
Arguments mkChildStopped {A} _ _ _.
Arguments stopped_child {A} _.
Arguments child_outcome {A} _.
Arguments stopped_at {A} _.

Record PeerStopped (A : Type) := mkPeerStopped { peer : A; peer_outcome : TerminalOutcome A }.
Arguments mkPeerStopped {A} _ _.
Arguments peer {A} _.
Arguments peer_outcome {A} _.

Record ObservePeer (A : Type) := mkObservePeer { observed_peer : A }.
Arguments mkObservePeer {A} _.
Arguments observed_peer {A} _.

Record ObserveChild := mkObserveChild { observed_child : CreationId }.

Inductive ShutdownRequested : Type := the_ShutdownRequested.

Record ShutdownChild := mkShutdownChild { shutdown_child : CreationId }.

Inductive ChildShutdownRejection : Type := NotEstablished | AlreadyStopping.

Record ChildShutdownRejected := mkChildShutdownRejected {
  rejected_child : CreationId;
  reason : ChildShutdownRejection
}.

(** ** Observation phases ([protocol/established.rs], [lifecycle/termination_monitor.rs]) *)

Inductive ObservationOperation : Type := Start | Cancel.

Inductive ObservationRejection : Type := IdAlreadyBound | NotObserved.

Inductive TerminationObservation : Type :=
| Requested
| Observing
| Observed
| ObservationCancelled
| ObservationRejected (operation : ObservationOperation) (rejection : ObservationRejection).

Inductive TerminationMonitorError (E Report : Type) : Type :=
| MonitorInner (e : E)
| MonitorUnexpectedReport (observation : TerminationObservation) (report : Report).
Arguments MonitorInner {E Report} _.
Arguments MonitorUnexpectedReport {E Report} _ _.

(** ** Wrappers of one behavior *)

Section Wrappers.
  Context {St Ev Ch Ph Sends E A : Type} `{!SendEffects Sends}.
  Context (B : Behavior St Ev Ch Ph Sends E).

(** *** [StopOnShutdown] and [FinalizeOnShutdown] *)

Abbreviation shutdown_event := (EventLayer ShutdownRequested Ev).
Abbreviation shutdown_acted := (Acted Ch Ph (SendLayer NoSends Sends) E).

Definition shutdown_init (i : St) : St * shutdown_acted :=
  let '(i', o) := initialize B i in (i', map_result (map_sends (mkSendLayer the_NoSends)) o).

Definition stop_on_shutdown_transition (i : St) (e : shutdown_event) : St * shutdown_acted :=
  match e with
  | Inner_ ev =>
      let '(i', o) := delegate_transition B i ev in
      (i', map_result (map_sends (mkSendLayer the_NoSends)) o)
  | Owned_ _ => (i, Ok stop)
  end.

Definition finalize_on_shutdown_transition
  (finalize : St -> ShutdownRequested -> St * Actions Ch Ph Sends) (i : St) (e : shutdown_event) :
  St * shutdown_acted :=
  match e with
  | Inner_ ev =>
      let '(i', o) := delegate_transition B i ev in
      (i', map_result (map_sends (mkSendLayer the_NoSends)) o)
  | Owned_ request =>
      let '(i', a) := finalize i request in
      (i', Ok (map_sends (mkSendLayer the_NoSends) (map_become (fun _ => Stop the_Stopped) a)))
  end.

(** A shutdown request always stops, and finalization keeps the effects of its fold. *)
Lemma finalize_on_shutdown_stops finalize i request :
  exists a, snd (finalize_on_shutdown_transition finalize i (Owned_ request)) = Ok a /\
    become_ a = Stop the_Stopped /\
    inner (sends a) = sends (snd (finalize i request)) /\
    creates a = creates (snd (finalize i request)).
Proof. cbn. destruct (finalize i request) as [i' a]. cbn. eauto. Qed.

(** *** [Watch] *)

Context `{!EqDecision A} (watched : A) (on_stopped : St -> A -> TerminalOutcome A -> St * Become Never).

Abbreviation watch_event := (EventLayer (PeerStopped A) Ev).
Abbreviation watch_sends := (SendLayer (InterpreterRequests (ObservePeer A)) Sends).
Abbreviation watch_acted := (Acted Ch Ph watch_sends (TerminationMonitorError E (PeerStopped A))).

Definition watch_init (i : St) : St * watch_acted :=
  let '(i', o) := initialize B i in
  (i', map_err MonitorInner
         (map_result (map_sends (mkSendLayer (InterpreterRequests_one (mkObservePeer watched)))) o)).

Definition watch_transition (i : St) (e : watch_event) : St * watch_acted :=
  match e with
  | Owned_ report =>
      if bool_decide (peer report = watched) then
        let '(i', verdict) := on_stopped i (peer report) (peer_outcome report) in
        (i', Ok (map_sends (mkSendLayer sends_empty)
                   (just (match verdict with
                          | Continue => Continue
                          | Goto never => match never with end
                          | Stop stopped => Stop stopped
                          end))))
      else (i, Err (MonitorUnexpectedReport Observing report))
  | Inner_ ev =>
      let '(i', o) := delegate_transition B i ev in
      (i', map_err MonitorInner (map_result (map_sends (mkSendLayer sends_empty)) o))
  end.

Definition stop_on_abnormal_death (i : St) (_ : A) (outcome : TerminalOutcome A) : St * Become Never :=
  match outcome with
  | Ok Normal | Ok Collected => (i, Continue)
  | _ => (i, Stop the_Stopped)
  end.

End Wrappers.

(** ** Propagation of one terminal report *)

Class TerminationTarget (A Target Report Request : Type) := {
  target_request : Target -> Request;
  target_matches : Target -> Report -> bool;
  target_outcome : Report -> TerminalOutcome A
}.

Record ChildTermination := mkChildTermination { target_child : CreationId }.

#[export] Instance CreationId_eq_dec : EqDecision CreationId.
Proof. solve_decision. Defined.

#[export] Instance ChildTermination_TerminationTarget A :
  TerminationTarget A ChildTermination (ChildStopped A) ObserveChild := {
  target_request t := mkObserveChild (target_child t);
  target_matches t r := bool_decide (stopped_child r = target_child t);
  target_outcome := child_outcome
}.

Record PeerTermination (A : Type) := mkPeerTermination { target_peer : A }.
Arguments mkPeerTermination {A} _.
Arguments target_peer {A} _.

#[export] Instance PeerTermination_TerminationTarget A `{!EqDecision A} :
  TerminationTarget A (PeerTermination A) (PeerStopped A) (ObservePeer A) := {
  target_request t := mkObservePeer (target_peer t);
  target_matches t r := bool_decide (peer r = target_peer t);
  target_outcome := peer_outcome
}.

Inductive TerminalDisposition : Type := Discharge | Propagate.

Definition propagate_all {A} (_ : TerminalOutcome A) : TerminalDisposition := Propagate.

Definition propagate_abnormal {A} (outcome : TerminalOutcome A) : TerminalDisposition :=
  match outcome with
  | Ok Normal | Ok Collected => Discharge
  | Ok (LinkDied _) | Ok (SupervisionFailed _) | Err _ => Propagate
  end.

Inductive TerminalPropagationState : Type :=
| PropagationObserving
| Discharged
| Propagated.

#[export] Instance TerminalPropagationState_eq_dec : EqDecision TerminalPropagationState.
Proof. solve_decision. Defined.

Inductive TerminationPropagationError (E Report : Type) : Type :=
| PropagationInner (e : E)
| PropagationUnexpectedReport (state : TerminalPropagationState) (report : Report).
Arguments PropagationInner {E Report} _.
Arguments PropagationUnexpectedReport {E Report} _ _.

Record TerminalPropagationSends (Observations Reports : Type) := mkPropagationSends {
  observations : Observations;
  reports : Reports
}.
Arguments mkPropagationSends {Observations Reports} _ _.
Arguments observations {Observations Reports} _.
Arguments reports {Observations Reports} _.

#[export] Instance TerminalPropagationSends_SendEffects O R `{!SendEffects O, !SendEffects R} :
  SendEffects (TerminalPropagationSends O R) := {
  sends_empty := mkPropagationSends sends_empty sends_empty;
  sends_append a b :=
    mkPropagationSends (sends_append (observations a) (observations b))
                       (sends_append (reports a) (reports b))
}.

Section Propagation.
  Context {St Ev Ch Ph Sends E A Target Report Request : Type} `{!SendEffects Sends}.
  Context `{!TerminationTarget A Target Report Request}.
  Context (B : Behavior St Ev Ch Ph Sends E) (target : Target).
  Context (policy : TerminalOutcome A -> TerminalDisposition).

Abbreviation owned_sends :=
  (TerminalPropagationSends (InterpreterRequests Request) (InterpreterRequests (ReportTerminalOutcome A))).
Abbreviation event := (EventLayer Report Ev).
Abbreviation acted :=
  (Acted Ch Ph (SendLayer owned_sends Sends) (TerminationPropagationError E Report)).

(** The immutable target and policy are the section's variables. *)
Record PropagateTermination := mkPropagate {
  propagating_inner : St;
  propagation : TerminalPropagationState
}.

Definition propagate_new (i : St) : PropagateTermination := mkPropagate i PropagationObserving.

Definition propagate_wrap (a : Actions Ch Ph Sends) (o : owned_sends) :
  Actions Ch Ph (SendLayer owned_sends Sends) := map_sends (mkSendLayer o) a.

Definition propagate_init (w : PropagateTermination) : PropagateTermination * acted :=
  let '(i, o) := initialize B (propagating_inner w) in
  (mkPropagate i (propagation w),
   map_err PropagationInner
     (map_result (fun a => propagate_wrap a
        (mkPropagationSends (InterpreterRequests_one (target_request target)) sends_empty)) o)).

Definition propagate_transition (w : PropagateTermination) (e : event) : PropagateTermination * acted :=
  match e with
  | Owned_ report =>
      if bool_decide (propagation w = PropagationObserving) && target_matches target report then
        let outcome := target_outcome report in
        match policy outcome with
        | Discharge => (mkPropagate (propagating_inner w) Discharged, Ok cont)
        | Propagate =>
            (mkPropagate (propagating_inner w) Propagated,
             Ok (mkActions
                   (mkSendLayer
                      (mkPropagationSends sends_empty
                         (InterpreterRequests_one (mkReportTerminalOutcome outcome))) sends_empty)
                   Creations_empty (Stop the_Stopped)))
        end
      else (w, Err (PropagationUnexpectedReport (propagation w) report))
  | Inner_ ev =>
      let '(i, o) := delegate_transition B (propagating_inner w) ev in
      (mkPropagate i (propagation w),
       map_err PropagationInner (map_result (fun a => propagate_wrap a sends_empty) o))
  end.

(** *** Histories *)

Definition accepted_report (e : event) (o : acted) : list Report :=
  match e, o with Owned_ r, Ok _ => [r] | _, _ => [] end.

(** Published outcomes, with whether the same actions stop. *)
Definition published (e : event) (o : acted) : list (TerminalOutcome A * bool) :=
  match o with
  | Ok a => (fun r => (reported r, is_stop (become_ a))) <$> requests (reports (owned (sends a)))
  | Err _ => []
  end.

Definition inner_answer (e : event) (o : acted) : list (Acted Ch Ph Sends E) :=
  match e, o with
  | Inner_ _, Ok a => [Ok (map_sends inner a)]
  | Inner_ _, Err (PropagationInner err) => [Err err]
  | _, _ => []
  end.

Definition inner_events (es : list event) : list Ev :=
  omap (fun e => match e with Inner_ ev => Some ev | Owned_ _ => None end) es.

(** The first report of a run that comes from the target. *)
Fixpoint first_match (es : list event) : option Report :=
  match es with
  | [] => None
  | Owned_ r :: es => if target_matches target r then Some r else first_match es
  | Inner_ _ :: es => first_match es
  end.

(** The phase that a decisive report leads to, and what it publishes. *)
Definition decision (first : option Report) :
  TerminalPropagationState * list (TerminalOutcome A * bool) :=
  match first with
  | None => (PropagationObserving, [])
  | Some r =>
      match policy (target_outcome r) with
      | Discharge => (Discharged, [])
      | Propagate => (Propagated, [(target_outcome r, true)])
      end
  end.

Lemma propagation_run_inner es : forall w,
  trace (delegate_transition B) (propagating_inner w) (inner_events es) =
    (propagating_inner (fst (trace propagate_transition w es)),
     collect inner_answer es (snd (trace propagate_transition w es))).
Proof.
  induction es as [|[r|ev] es IH]; intros w; [done| |]; cbn [trace inner_events omap list_omap].
  - destruct (propagate_transition w (Owned_ r)) as [w1 o] eqn:Ht. specialize (IH w1).
    assert (propagating_inner w1 = propagating_inner w /\ inner_answer (Owned_ r) o = []) as [Hi Ha].
    { split; [|done]. revert Ht. unfold propagate_transition.
      destruct (_ && _); [destruct (policy _)|]; by intros [= <- <-]. }
    fold (inner_events es). rewrite <- Hi, IH. destruct (trace propagate_transition w1 es) as [w2 os].
    cbn [collect fst snd]. by rewrite Ha.
  - unfold propagate_transition at 1 3. fold propagate_transition.
    destruct (delegate_transition B (propagating_inner w) ev) as [i o] eqn:Hd.
    specialize (IH (mkPropagate i (propagation w))). cbn [propagating_inner] in IH.
    fold (inner_events es). rewrite IH. destruct (trace propagate_transition _ es) as [w2 os].
    cbn [collect fst snd]. destruct o as [a|err]; cbn; [by destruct a|done].
Qed.

Lemma propagation_run_decision es : forall w,
  let '(w', os) := trace propagate_transition w es in
  if bool_decide (propagation w = PropagationObserving) then
    collect accepted_report es os = option_list (first_match es) /\
    (propagation w', collect published es os) = decision (first_match es)
  else
    collect accepted_report es os = [] /\
    propagation w' = propagation w /\ collect published es os = [].
Proof.
  induction es as [|e es IH]; intros w; cbn [trace].
  { cbn. case_bool_decide as H; [by rewrite H|done]. }
  destruct (propagate_transition w e) as [w1 o] eqn:Ht. specialize (IH w1).
  destruct (trace propagate_transition w1 es) as [w2 os]. cbn [collect].
  destruct e as [r|ev]; cbn [first_match].
  - unfold propagate_transition in Ht. case_bool_decide as Hw; cbn [andb] in Ht.
    2: { injection Ht as <- <-. by rewrite bool_decide_eq_false_2 in IH. }
    destruct (target_matches target r).
    2: { injection Ht as <- <-. by rewrite bool_decide_eq_true_2 in IH. }
    unfold decision. destruct (policy (target_outcome r)); injection Ht as <- <-;
      rewrite bool_decide_eq_false_2 in IH by done; destruct IH as (-> & -> & ->); done.
  - unfold propagate_transition in Ht.
    destruct (delegate_transition B (propagating_inner w) ev) as [i [a|err]];
      injection Ht as <- <-; cbn in IH |- *; done.
Qed.

(** Terminal propagation consumes exactly one report: over any run, the
    first report of the selected actor is accepted and no other, the policy
    alone decides whether it is discharged or published, a published outcome
    is that report's outcome unchanged, is published once and in the actions
    that stop the actor, and the wrapped behavior experiences exactly its own
    events and answers them as it would unwrapped. *)
Theorem terminal_propagation_once i es :
  let '(w', os) := trace propagate_transition (propagate_new i) es in
  collect accepted_report es os = option_list (first_match es) /\
  (propagation w', collect published es os) = decision (first_match es) /\
  trace (delegate_transition B) i (inner_events es) =
    (propagating_inner w', collect inner_answer es os).
Proof.
  pose proof (propagation_run_decision es (propagate_new i)) as Hd.
  pose proof (propagation_run_inner es (propagate_new i)) as Hi.
  destruct (trace propagate_transition (propagate_new i) es) as [w' os].
  rewrite bool_decide_eq_true_2 in Hd by done. destruct Hd. split_and!; auto.
Qed.

End Propagation.
