(* ===== verification/ShutdownCoordinator.v ===== *)
(** * Phased shutdown ([crates/actors/src/lifecycle/shutdown_coordinator.rs], coordinators)

    The homogeneous and the heterogeneous coordinator are the same fold over a
    different selection type and request lane; the fold is written once, over
    the interface [ShutdownLane], and instantiated for both.  Indexing a phase
    that the plan does not have is a panic ([None]), shown not to occur. *)

From stdpp Require Import base list option numbers sorting.
From S2P Require Import Prelude Effects Timers Termination ShutdownPlan.

(** ** Data *)

Inductive ShutdownState (P N : Type) : Type :=
| AwaitingPlan
| AwaitingPlanAfterShutdown
| Ready (plan : P)
| Stopping (plan : P) (phase : nat) (awaiting : list N)
| Completed.
Arguments AwaitingPlan {P N}.
Arguments AwaitingPlanAfterShutdown {P N}.
Arguments Ready {P N} _.
Arguments Stopping {P N} _ _ _.
Arguments Completed {P N}.

Inductive ShutdownMove (P : Type) : Type :=
| NoMove
| StartPhase (plan : P) (phase : nat)
| StopMove.
Arguments NoMove {P}.
Arguments StartPhase {P} _ _.
Arguments StopMove {P}.

Record InstallShutdownPlan (P : Type) := mkInstall { installed_plan : P }.
Arguments mkInstall {P} _.
Arguments installed_plan {P} _.

Inductive ShutdownCoordinatorEvent (Ev A P : Type) : Type :=
| BehaviorEvent (e : Ev)
| PlanEvent (i : InstallShutdownPlan P)
| RequestedEvent (r : ShutdownRequested)
| ChildStoppedEvent (c : ChildStopped A)
| ChildRejectedEvent (c : ChildShutdownRejected).
Arguments BehaviorEvent {Ev A P} _.
Arguments PlanEvent {Ev A P} _.
Arguments RequestedEvent {Ev A P} _.
Arguments ChildStoppedEvent {Ev A P} _.
Arguments ChildRejectedEvent {Ev A P} _.

Inductive ShutdownCoordinatorError (E A P : Type) : Type :=
| BehaviorError (e : E)
| ChildRejected (child : CreationId) (why : ChildShutdownRejection)
| UnexpectedChildStopped (c : ChildStopped A)
| UnexpectedChildRejection (child : CreationId) (why : ChildShutdownRejection)
| PlanAlreadyInstalled (plan : P).
Arguments BehaviorError {E A P} _.
Arguments ChildRejected {E A P} _ _.
Arguments UnexpectedChildStopped {E A P} _.
Arguments UnexpectedChildRejection {E A P} _ _.
Arguments PlanAlreadyInstalled {E A P} _.

(** ** The request lane

    [lane] builds the requests of one phase; [selected] reads the children
    that a lane asks to stop. *)

Class ShutdownLane (T L : Type) (creation : T -> CreationId) `{!SendEffects L} := {
  lane : list T -> L;
  selected : L -> list CreationId;
  selected_lane p : selected (lane p) = creation <$> p;
  selected_empty : selected sends_empty = []
}.

(** Homogeneous plans select creation identities and send [ShutdownChild]. *)
#[export] Program Instance Homogeneous_ShutdownLane :
  ShutdownLane CreationId (InterpreterRequests ShutdownChild) (fun c => c) := {
  lane p := mkRequests (mkShutdownChild <$> p);
  selected l := shutdown_child <$> requests l
}.
Next Obligation. intros p. cbn. by rewrite <- list_fmap_compose. Qed.
Next Obligation. done. Qed.

(** Heterogeneous plans send their selections, dispatched per item. *)
Record HeterogeneousShutdownSends (T : Type) := mkHeterogeneousSends { shutdown_requests : list T }.
Arguments mkHeterogeneousSends {T} _.
Arguments shutdown_requests {T} _.

#[export] Instance HeterogeneousShutdownSends_SendEffects T :
  SendEffects (HeterogeneousShutdownSends T) := {
  sends_empty := mkHeterogeneousSends [];
  sends_append a b := mkHeterogeneousSends (shutdown_requests a ++ shutdown_requests b)
}.

(** One member of the closed sum of child protocols; the protocol types are
    phantom, the position is the nesting of [Other]. *)
Inductive ShutdownChoice (Tail : Type) : Type :=
| Child (creation : CreationId)
| Other (target : Tail).
Arguments Child {Tail} _.
Arguments Other {Tail} _.

(** [Selection::creation], structurally. *)
Class Selection (T : Type) := selection_creation : T -> CreationId.

#[export] Instance NoShutdownTargets_Selection : Selection Never := fun n => match n with end.

#[export] Instance ShutdownChoice_Selection Tail `{!Selection Tail} : Selection (ShutdownChoice Tail) :=
  fun t => match t with Child c => c | Other t => selection_creation t end.

#[export] Program Instance Heterogeneous_ShutdownLane T `{!Selection T} :
  ShutdownLane T (HeterogeneousShutdownSends T) selection_creation := {
  lane p := mkHeterogeneousSends p;
  selected l := selection_creation <$> shutdown_requests l
}.
Next Obligation. done. Qed.
Next Obligation. done. Qed.

(** ** The fold *)

Section Coordinator.
  Context {St Ev Ch Ph Sends E A T L : Type} {creation : T -> CreationId}.
  Context `{!SendEffects Sends, !SendEffects L, !ShutdownLane T L creation}.
  Context (B : Behavior St Ev Ch Ph Sends E).

Abbreviation shutdown_plan := (ShutdownPlan T).
Abbreviation shutdown_state := (ShutdownState shutdown_plan CreationId).
Abbreviation move := (ShutdownMove shutdown_plan).
Abbreviation event := (ShutdownCoordinatorEvent Ev A shutdown_plan).
Abbreviation actions := (Actions Ch Ph (SendLayer L Sends)).
Abbreviation acted :=
  (Acted Ch Ph (SendLayer L Sends) (ShutdownCoordinatorError E A shutdown_plan)).

Record Coordinator := mkCoordinator { inner_state : St; state : shutdown_state }.

Definition new (i : St) (p : shutdown_plan) : Coordinator := mkCoordinator i (Ready p).
Definition awaiting_plan (i : St) : Coordinator := mkCoordinator i AwaitingPlan.

Definition wrap (a : Actions Ch Ph Sends) : actions := map_sends (mkSendLayer sends_empty) a.

Definition phase_actions (p : shutdown_plan) (phase : nat) : option actions :=
  (fun children => send (mkSendLayer (lane children) sends_empty)) <$> phases p !! phase.

Definition phase_creations (p : shutdown_plan) (phase : nat) : option (list CreationId) :=
  (fun children : list T => creation <$> children) <$> phases p !! phase.

Definition start_plan (p : shutdown_plan) : option (shutdown_state * move) :=
  match phases p with
  | [] => Some (Completed, StopMove)
  | _ => (fun awaiting => (Stopping p 0 awaiting, StartPhase p 0)) <$> phase_creations p 0
  end.

Definition install_plan (s : shutdown_state) (p : shutdown_plan) :
  option (shutdown_state * result move shutdown_plan) :=
  match s with
  | AwaitingPlan => Some (Ready p, Ok NoMove)
  | AwaitingPlanAfterShutdown => (fun '(s, m) => (s, Ok m)) <$> start_plan p
  | Ready _ | Stopping _ _ _ | Completed => Some (s, Err p)
  end.

Definition request_shutdown (s : shutdown_state) : option (shutdown_state * move) :=
  match s with
  | AwaitingPlan => Some (AwaitingPlanAfterShutdown, NoMove)
  | Ready p => start_plan p
  | AwaitingPlanAfterShutdown | Stopping _ _ _ | Completed => Some (s, NoMove)
  end.

Definition child_stopped (s : shutdown_state) (child : CreationId) : option (shutdown_state * move) :=
  match s with
  | Stopping p phase awaiting =>
      match position (fun candidate => bool_decide (candidate = child)) awaiting with
      | None => Some (s, NoMove)
      | Some position =>
          match delete position awaiting with
          | [] =>
              let next := phase + 1 in
              if next =? length (phases p) then Some (Completed, StopMove)
              else (fun awaiting => (Stopping p next awaiting, StartPhase p next)) <$>
                     phase_creations p next
          | awaiting => Some (Stopping p phase awaiting, NoMove)
          end
      end
  | _ => Some (s, NoMove)
  end.

Definition move_actions (m : move) : option actions :=
  match m with
  | NoMove => Some cont
  | StopMove => Some stop
  | StartPhase p phase => phase_actions p phase
  end.

(** The guard of the two child facts. *)
Definition awaits (s : shutdown_state) (child : CreationId) : bool :=
  match s with Stopping _ _ awaiting => bool_decide (child ∈ awaiting) | _ => false end.

(** Commit the state of a move and emit its actions. *)
Definition moved (w : Coordinator) (sm : shutdown_state * move) : option (Coordinator * acted) :=
  let '(s, m) := sm in (fun a => (mkCoordinator (inner_state w) s, Ok a)) <$> move_actions m.

Definition init (w : Coordinator) : Coordinator * acted :=
  let '(i, o) := initialize B (inner_state w) in
  (mkCoordinator i (state w), map_err BehaviorError (map_result wrap o)).

Definition transition (w : Coordinator) (e : event) : option (Coordinator * acted) :=
  match e with
  | PlanEvent installation =>
      match install_plan (state w) (installed_plan installation) with
      | None => None
      | Some (_, Err p) => Some (w, Err (PlanAlreadyInstalled p))
      | Some (s, Ok m) => moved w (s, m)
      end
  | RequestedEvent _ => request_shutdown (state w) ≫= moved w
  | ChildStoppedEvent c =>
      if awaits (state w) (stopped_child c) then
        child_stopped (state w) (stopped_child c) ≫= moved w
      else Some (w, Err (UnexpectedChildStopped c))
  | ChildRejectedEvent r =>
      Some (w, Err (if awaits (state w) (rejected_child r)
                    then ChildRejected (rejected_child r) (reason r)
                    else UnexpectedChildRejection (rejected_child r) (reason r)))
  | BehaviorEvent ev =>
      let '(i, o) := delegate_transition B (inner_state w) ev in
      Some (mkCoordinator i (state w), map_err BehaviorError (map_result wrap o))
  end.

(** ** Progress of a run *)

Definition plan_ok (p : shutdown_plan) : Prop := valid_phases creation (phases p).

(** The children of the first [k] phases, and those of phase [k]. *)
Definition before (p : shutdown_plan) (k : nat) : list CreationId :=
  creation <$> concat (take k (phases p)).
Definition members (p : shutdown_plan) (k : nat) : list CreationId :=
  default [] (phase_creations p k).

(** Children that a step asks to stop, stops that it accepts, and whether a
    coordinator event stops the actor. *)
Definition requested_ids (e : event) (o : acted) : list CreationId :=
  match o with Ok a => selected (owned (sends a)) | Err _ => [] end.

Definition accepted_stop (e : event) (o : acted) : list CreationId :=
  match e, o with ChildStoppedEvent c, Ok _ => [stopped_child c] | _, _ => [] end.

Definition own_stop (e : event) (o : acted) : list () :=
  match e, o with
  | BehaviorEvent _, _ | _, Err _ => []
  | _, Ok a => if is_stop (become_ a) then [tt] else []
  end.

(** Plans that events install were validated. *)
Definition event_ok (e : event) : Prop :=
  match e with PlanEvent i => plan_ok (installed_plan i) | _ => True end.

Definition progress (s : shutdown_state) (requested stopped : list CreationId) (stops : list ()) : Prop :=
  match s with
  | AwaitingPlan | AwaitingPlanAfterShutdown => requested = [] /\ stopped = [] /\ stops = []
  | Ready p => plan_ok p /\ requested = [] /\ stopped = [] /\ stops = []
  | Stopping p k awaiting =>
      plan_ok p /\ k < length (phases p) /\ awaiting <> [] /\
      requested = before p k ++ members p k /\
      (exists now, stopped ≡ₚ before p k ++ now /\ now ++ awaiting ≡ₚ members p k) /\ stops = []
  | Completed =>
      exists p, plan_ok p /\ requested = before p (length (phases p)) /\
        stopped ≡ₚ requested /\ stops = [tt]
  end.

Lemma members_Some p k : k < length (phases p) ->
  exists children, phases p !! k = Some children /\ members p k = creation <$> children.
Proof.
  intros [children Hk]%lookup_lt_is_Some. exists children. split; [done|].
  unfold members, phase_creations. by rewrite Hk.
Qed.

Lemma before_S p k : k < length (phases p) -> before p (S k) = before p k ++ members p k.
Proof.
  intros (children & Hk & Hm)%members_Some. unfold before. rewrite Hm.
  rewrite (take_S_r _ _ _ Hk), concat_app, fmap_app. cbn. by rewrite app_nil_r.
Qed.

Lemma members_nonempty p k : plan_ok p -> k < length (phases p) -> members p k <> [].
Proof.
  intros [Hne _] (children & Hk & ->)%members_Some. rewrite Forall_lookup in Hne.
  specialize (Hne k children Hk). by destruct children.
Qed.

Lemma move_start w p k : k < length (phases p) ->
  exists a, moved w (Stopping p k (members p k), StartPhase p k) =
      Some (mkCoordinator (inner_state w) (Stopping p k (members p k)), Ok a) /\
    selected (owned (sends a)) = members p k /\ is_stop (become_ a) = false.
Proof.
  intros (children & Hk & ->)%members_Some. unfold moved, move_actions, phase_actions. rewrite Hk.
  cbn. eexists. split; [done|]. cbn. by rewrite selected_lane.
Qed.

(** Entering phase [k] once everything before it stopped. *)
Lemma progress_enter p k stopped : plan_ok p -> k < length (phases p) -> stopped ≡ₚ before p k ->
  progress (Stopping p k (members p k)) (before p k ++ members p k) stopped [].
Proof.
  intros Hok Hk Hs. cbn. split_and!; auto using members_nonempty.
  exists []. by rewrite app_nil_r.
Qed.

Lemma phase_creations_members p k : k < length (phases p) -> phase_creations p k = Some (members p k).
Proof. intros (children & Hk & ->)%members_Some. unfold phase_creations. by rewrite Hk. Qed.

Definition stops_of (a : actions) : list () := if is_stop (become_ a) then [tt] else [].

Lemma start_plan_progress w p : plan_ok p ->
  exists s a, (start_plan p ≫= moved w) = Some (mkCoordinator (inner_state w) s, Ok a) /\
    progress s (selected (owned (sends a))) [] (stops_of a).
Proof.
  intros Hok. unfold start_plan. destruct (phases p) as [|p0 ps] eqn:Hp.
  - exists Completed, stop. split; [done|]. cbn. exists p. rewrite selected_empty. unfold before.
    by rewrite Hp.
  - assert (Hlt : 0 < length (phases p)) by (rewrite Hp; cbn; lia).
    rewrite phase_creations_members by done. cbn [fmap option_fmap option_map mbind option_bind].
    destruct (move_start w p 0 Hlt) as (a & -> & Hsel & Hns). do 2 eexists. split; [done|].
    unfold stops_of. rewrite Hsel, Hns. by apply (progress_enter p 0).
Qed.

Lemma child_stopped_progress w p k awaiting child requested stopped :
  progress (Stopping p k awaiting) requested stopped [] -> child ∈ awaiting ->
  exists s a, (child_stopped (Stopping p k awaiting) child ≫= moved w) =
      Some (mkCoordinator (inner_state w) s, Ok a) /\
    progress s (requested ++ selected (owned (sends a))) (stopped ++ [child]) (stops_of a).
Proof.
  intros (Hok & Hk & Hne & -> & (now & Hst & Hnow) & _) Hin. unfold child_stopped.
  destruct (position _ awaiting) as [j|] eqn:Hpos.
  2: { apply position_None in Hpos. rewrite list.Forall_forall in Hpos.
       specialize (Hpos child Hin). by rewrite bool_decide_eq_true_2 in Hpos. }
  apply position_Some in Hpos as (c & Hj & Hc & _). apply bool_decide_eq_true in Hc as ->.
  apply delete_Permutation in Hj as Hperm.
  assert (Hnow' : (now ++ [child]) ++ delete j awaiting ≡ₚ members p k)
    by (rewrite <- app_assoc; cbn; by rewrite <- Hperm).
  assert (Hst' : stopped ++ [child] ≡ₚ before p k ++ now ++ [child]) by (by rewrite app_assoc, Hst).
  destruct (delete j awaiting) as [|c rest] eqn:Hd.
  2: { exists (Stopping p k (c :: rest)), cont. split; [done|]. cbn. rewrite selected_empty, app_nil_r.
       split_and!; auto. eauto. }
  rewrite app_nil_r in Hnow'. assert (Hall : stopped ++ [child] ≡ₚ before p (S k))
    by (by rewrite before_S, Hst', Hnow').
  replace (k + 1) with (S k) by lia.
  destruct (Nat.eqb_spec (S k) (length (phases p))) as [Heq|Hneq].
  - exists Completed, stop. split; [done|]. cbn. exists p. rewrite selected_empty, app_nil_r, <- Heq.
    rewrite before_S in * by done. done.
  - assert (Hlt : S k < length (phases p)) by lia. rewrite phase_creations_members by done.
    cbn [fmap option_fmap option_map mbind option_bind].
    destruct (move_start w p (S k) Hlt) as (a & -> & Hsel & Hns). do 2 eexists. split; [done|].
    unfold stops_of. rewrite Hsel, Hns, <- before_S by done. by apply progress_enter.
Qed.

(** A step that leaves the coordinator's phase, its requests and stops alone. *)
Lemma progress_quiet s requested stopped stops r :
  progress s requested stopped stops -> r = [] ->
  progress s (requested ++ r) (stopped ++ []) (stops ++ []).
Proof. intros H ->. by rewrite !app_nil_r. Qed.

Lemma progress_step w e requested stopped stops :
  progress (state w) requested stopped stops -> event_ok e ->
  exists w' o, transition w e = Some (w', o) /\
    progress (state w') (requested ++ requested_ids e o) (stopped ++ accepted_stop e o)
      (stops ++ own_stop e o) /\
    (is_ok o = false -> state w' = state w).
Proof.
  intros Hp He. destruct e as [ev|[p]|r|c|c]; cbn [transition installed_plan event_ok] in *.
  - destruct (delegate_transition B (inner_state w) ev) as [i o]. do 2 eexists. split; [done|].
    split; [|done]. apply progress_quiet; [done|]. destruct o; cbn; [apply selected_empty|done].
  - destruct (state w) as [| |q|q k awaiting|] eqn:Hs; cbn [install_plan fmap option_fmap option_map];
      try (do 2 eexists; split; [done|]; rewrite Hs; split; [by apply progress_quiet|done]).
    + do 2 eexists. split; [done|]. cbn in *. destruct Hp as (-> & -> & ->). by rewrite selected_empty.
    + destruct (start_plan_progress w p He) as (s & a & Hst & Hpr).
      destruct (start_plan p) as [[s' m]|]; [|done]. cbn in Hst. cbn [fmap option_fmap option_map].
      do 2 eexists. split; [exact Hst|]. cbn in Hp. destruct Hp as (-> & -> & ->). done.
  - destruct (state w) as [| |q|q k awaiting|] eqn:Hs; cbn [request_shutdown];
      try (do 2 eexists; split; [done|]; split;
           [apply progress_quiet; [exact Hp|apply selected_empty]|done]).
    + destruct Hp as (Hq & -> & -> & ->). destruct (start_plan_progress w q Hq) as (s & a & Hst & Hpr).
      do 2 eexists. split; [exact Hst|]. done.
  - destruct (awaits (state w) (stopped_child c)) eqn:Ha.
    2: { do 2 eexists. split; [done|]. split; [by apply progress_quiet|done]. }
    destruct (state w) as [| |q|q k awaiting|] eqn:Hs; try done. apply bool_decide_eq_true in Ha.
    assert (stops = []) as -> by apply Hp.
    destruct (child_stopped_progress w q k awaiting _ _ _ Hp Ha) as (s & a & Hst & Hpr).
    do 2 eexists. split; [exact Hst|]. done.
  - do 2 eexists. split; [done|]. split; [by apply progress_quiet|done].
Qed.

(** What the wrapped behavior experiences and answers. *)
Definition inner_events (es : list event) : list Ev :=
  omap (fun e => match e with BehaviorEvent ev => Some ev | _ => None end) es.

Definition inner_answer (e : event) (o : acted) : list (Acted Ch Ph Sends E) :=
  match e, o with
  | BehaviorEvent _, Ok a => [Ok (map_sends inner a)]
  | BehaviorEvent _, Err (BehaviorError err) => [Err err]
  | _, _ => []
  end.

Lemma moved_inner w sm w' o : moved w sm = Some (w', o) -> inner_state w' = inner_state w.
Proof. unfold moved. destruct sm as [s m]. destruct (move_actions m); cbn; by intros [= <- <-]. Qed.

Lemma transition_inner w e w' o : transition w e = Some (w', o) ->
  trace (delegate_transition B) (inner_state w) (inner_events [e]) = (inner_state w', inner_answer e o).
Proof.
  destruct e as [ev|[p]|r|c|c]; cbn [transition inner_events omap list_omap].
  - cbn [trace]. destruct (delegate_transition B (inner_state w) ev) as [i [a|err]]; cbn;
      intros [= <- <-]; [by destruct a|done].
  - destruct (install_plan (state w) (installed_plan _)) as [[s [m|q]]|]; [|by intros [= <- <-]|done].
    intros H%moved_inner. by rewrite H.
  - destruct (request_shutdown (state w)); [|done]. intros H%moved_inner. by rewrite H.
  - destruct (awaits _ _); [|by intros [= <- <-]].
    destruct (child_stopped _ _); [|done]. intros H%moved_inner. by rewrite H.
  - by intros [= <- <-].
Qed.

Lemma progress_run es : Forall event_ok es -> forall w requested stopped stops,
  progress (state w) requested stopped stops ->
  exists w' os, otrace transition w es = Some (w', os) /\
    progress (state w') (requested ++ collect requested_ids es os)
      (stopped ++ collect accepted_stop es os) (stops ++ collect own_stop es os) /\
    trace (delegate_transition B) (inner_state w) (inner_events es) =
      (inner_state w', collect inner_answer es os).
Proof.
  induction 1 as [|e es He Hes IH]; intros w requested stopped stops Hp; cbn [otrace].
  { exists w, []. cbn. by rewrite !app_nil_r. }
  destruct (progress_step w e _ _ _ Hp He) as (w1 & o & Ht & Hp1 & _). rewrite Ht.
  destruct (IH w1 _ _ _ Hp1) as (w2 & os & -> & Hp2 & Hi). exists w2, (o :: os).
  split; [done|]. cbn [collect]. rewrite <- !app_assoc in Hp2. split; [done|].
  apply transition_inner in Ht. revert Ht. unfold inner_events. cbn [omap list_omap].
  destruct e as [ev|p|r|c|c]; cbn [trace]; fold (inner_events es).
  1: { destruct (delegate_transition B (inner_state w) ev) as [i x]. intros [-> Hx]%pair_equal_spec.
       by rewrite Hi, <- Hx. }
  all: intros [Hs Ha]%pair_equal_spec; by rewrite Hs, Hi, <- Ha.
Qed.

(** C36. Phased shutdown never panics and is ordered.  Over any run, with a
    validated plan given at construction or installed later: before a request
    and a plan nothing is asked to stop; while phase [k] is stopping, exactly
    the children of the phases up to [k] were asked to stop, each once and in
    plan order, every child of the earlier phases has stopped and the awaited
    ones are those of phase [k] that have not; the coordinator stops itself
    exactly once, when every child of the plan has stopped.  A refused event
    leaves the shutdown state unchanged, and the wrapped behavior experiences
    exactly its own events. *)
Theorem shutdown_phases_ordered w i es :
  (w = awaiting_plan i \/ exists ps p, plan_new creation ps = Ok p /\ w = new i p) ->
  Forall event_ok es ->
  exists w' os, otrace transition w es = Some (w', os) /\
    progress (state w') (collect requested_ids es os) (collect accepted_stop es os)
      (collect own_stop es os) /\
    trace (delegate_transition B) i (inner_events es) =
      (inner_state w', collect inner_answer es os) /\
    forall e, event_ok e -> exists w'' o, transition w' e = Some (w'', o) /\
      (is_ok o = false -> state w'' = state w').
Proof.
  intros Hw Hes.
  assert (progress (state w) [] [] [] /\ inner_state w = i) as [Hp Hi].
  { destruct Hw as [->|(ps & p & Hnew & ->)]; [done|]. apply plan_new_Ok in Hnew as [-> Hv].
    cbn. by split_and!. }
  destruct (progress_run es Hes w [] [] [] Hp) as (w' & os & Hr & Hp' & Htr). rewrite Hi in Htr.
  exists w', os. split_and!; [done..|]. intros e He.
  destruct (progress_step w' e _ _ _ Hp' He) as (w'' & o & ? & _ & ?). eauto.
Qed.

(** ** Completion *)

(** The state after phase [k] completes, and whether its actions stop. *)
Definition after_phase (p : shutdown_plan) (k : nat) : shutdown_state :=
  if S k =? length (phases p) then Completed else Stopping p (S k) (members p (S k)).

Definition ends_with (os : list acted) (stopping : bool) : Prop :=
  Forall (fun o => is_ok o = true) os /\
  exists a, last os = Some (Ok a) /\ is_stop (become_ a) = stopping.

Lemma stop_awaited i p k awaiting c : k < length (phases p) -> stopped_child c ∈ awaiting ->
  exists rest a, awaiting ≡ₚ stopped_child c :: rest /\
    transition (mkCoordinator i (Stopping p k awaiting)) (ChildStoppedEvent c) =
      Some (mkCoordinator i (if bool_decide (rest = []) then after_phase p k
                             else Stopping p k rest), Ok a) /\
    is_stop (become_ a) = bool_decide (rest = []) && (S k =? length (phases p)).
Proof.
  intros Hk Hin. cbn [transition state awaits]. rewrite bool_decide_eq_true_2 by done. cbn [child_stopped].
  destruct (position _ awaiting) as [j|] eqn:Hpos.
  2: { apply position_None in Hpos. rewrite list.Forall_forall in Hpos.
       specialize (Hpos _ Hin). by rewrite bool_decide_eq_true_2 in Hpos. }
  apply position_Some in Hpos as (x & Hj & Hc & _). apply bool_decide_eq_true in Hc as ->.
  apply delete_Permutation in Hj. exists (delete j awaiting).
  destruct (delete j awaiting) as [|y rest].
  2: { rewrite bool_decide_eq_false_2 by done. exists cont. by split_and!. }
  rewrite bool_decide_eq_true_2 by done. unfold after_phase. replace (k + 1) with (S k) by lia.
  destruct (Nat.eqb_spec (S k) (length (phases p))) as [Heq|Hneq]; [exists stop; by split_and!|].
  rewrite phase_creations_members by lia. cbn [fmap option_fmap option_map mbind option_bind].
  destruct (move_start (mkCoordinator i (Stopping p k awaiting)) p (S k)) as (a & -> & _ & Hns); [lia|].
  exists a. by split_and!.
Qed.

Lemma phase_completes i p k g : k < length (phases p) -> forall awaiting,
  awaiting <> [] -> stopped_child <$> g ≡ₚ awaiting ->
  exists os, otrace transition (mkCoordinator i (Stopping p k awaiting)) (ChildStoppedEvent <$> g) =
      Some (mkCoordinator i (after_phase p k), os) /\
    ends_with os (S k =? length (phases p)).
Proof.
  intros Hk. induction g as [|c g IH]; intros awaiting Hne Hperm.
  { by apply Permutation_nil in Hperm. }
  destruct (stop_awaited i p k awaiting c Hk) as (rest & a & Hrest & Ht & Hstop).
  { rewrite <- Hperm. left. }
  rewrite Hrest in Hperm. csimpl in *. rewrite Ht.
  apply Permutation_cons_inv in Hperm. case_bool_decide as Hr.
  - subst rest. symmetry in Hperm. apply Permutation_nil, fmap_nil_inv in Hperm as ->. cbn.
    eexists. split; [done|]. split; [by constructor|]. eauto.
  - destruct (IH rest Hr Hperm) as (os & Hos & Hall & a' & Hlast & Hs). rewrite Hos.
    eexists. split; [done|]. split; [by constructor|]. exists a'. split; [|done].
    rewrite last_cons, Hlast. done.
Qed.

Lemma phases_complete i p : plan_ok p -> forall groups k, k < length (phases p) ->
  Forall2 (fun g ph => stopped_child <$> g ≡ₚ creation <$> ph) groups (drop k (phases p)) ->
  exists os, otrace transition (mkCoordinator i (Stopping p k (members p k)))
        (ChildStoppedEvent <$> concat groups) = Some (mkCoordinator i Completed, os) /\
    ends_with os true.
Proof.
  intros Hok. induction groups as [|g groups IH]; intros k Hk Hg.
  all: destruct (members_Some p k Hk) as (ph & Hph & Hm); rewrite (drop_S _ _ _ Hph) in Hg.
  { by inversion Hg. }
  apply Forall2_cons in Hg as [Hgp Hg]. rewrite <- Hm in Hgp.
  destruct (phase_completes i p k g Hk _ (members_nonempty p k Hok Hk) Hgp) as (os1 & Ht1 & He1).
  cbn [concat]. rewrite fmap_app. unfold after_phase in Ht1.
  destruct (Nat.eqb_spec (S k) (length (phases p))) as [Heq|Hneq].
  - rewrite drop_ge in Hg by lia. apply Forall2_nil_inv_r in Hg as ->.
    exists os1. cbn. by rewrite app_nil_r.
  - destruct (IH (S k)) as (os2 & Ht2 & Hall2 & a & Hlast & Hs); [lia|done|].
    exists (os1 ++ os2). split; [by eapply otrace_app|]. destruct He1 as [Hall1 _].
    split; [by apply Forall_app|]. exists a. by rewrite last_app, Hlast.
Qed.

(** C37. Shutdown completes: once a validated plan is requested, reports that
    its children stopped, phase by phase and in any order within a phase, are
    all accepted, lead to the completed state, and the last of them stops the
    coordinator (an empty plan stops it at the request). *)
Theorem shutdown_completes i ps p r groups : plan_new creation ps = Ok p ->
  Forall2 (fun g ph => stopped_child <$> g ≡ₚ creation <$> ph) groups ps ->
  exists os, otrace transition (new i p) (RequestedEvent r :: (ChildStoppedEvent <$> concat groups)) =
      Some (mkCoordinator i Completed, os) /\
    ends_with os true.
Proof.
  intros [-> Hok]%plan_new_Ok Hg. cbn [otrace transition state new request_shutdown].
  unfold start_plan. cbn [phases]. destruct ps as [|p0 ps'] eqn:Hps.
  { apply Forall2_nil_inv_r in Hg as ->. cbn. eexists. split; [done|].
    split; [by repeat constructor|]. eauto. }
  rewrite <- Hps in *. assert (Hlt : 0 < length (phases (mkPlan ps))) by (rewrite Hps; cbn; lia).
  rewrite phase_creations_members by done. cbn [fmap option_fmap option_map mbind option_bind].
  destruct (move_start (new i (mkPlan ps)) (mkPlan ps) 0 Hlt) as (a & -> & _ & _). cbn [inner_state new].
  destruct (phases_complete i (mkPlan ps) Hok groups 0 Hlt Hg) as (os & -> & Hall & a' & Hlast & Hs).
  eexists. split; [done|]. split; [by constructor|]. exists a'. by rewrite last_cons, Hlast.
Qed.

End Coordinator.

(** ** The two coordinators *)

(** [ShutdownCoordinator]: one child protocol. *)
Definition homogeneous_transition {St Ev Ch Ph Sends E : Type} (A : Type) `{!SendEffects Sends}
  (B : Behavior St Ev Ch Ph Sends E) :=
  transition (A := A) (T := CreationId) (L := InterpreterRequests ShutdownChild)
    (creation := fun c => c) B.

(** [HeterogeneousShutdownCoordinator]: a closed sum of child protocols. *)
Definition heterogeneous_transition {St Ev Ch Ph Sends E : Type} (A T : Type) `{!SendEffects Sends, !Selection T}
  (B : Behavior St Ev Ch Ph Sends E) :=
  transition (A := A) (T := T) (L := HeterogeneousShutdownSends T) (creation := selection_creation) B.

(** ** Witnesses *)

Definition demo_behavior : Behavior nat nat Never Never NoSends Never :=
  mkBehavior (fun s => (s, Ok cont)) (fun s e => (s + e, Ok cont)).

Definition child (n : N) : CreationId := Build_CreationId n.

Definition demo_stop (n : N) : ChildStopped nat := mkChildStopped (child n) (Ok Normal) 0%N.

Definition demo_plan : ShutdownPlan CreationId := mkPlan [[child 1; child 2]; [child 3]].

Definition demo_transition := homogeneous_transition nat demo_behavior.

Lemma shutdown_phases_ordered_witness :
  plan_new (fun c => c) [[child 1; child 2]; [child 3]] = Ok demo_plan /\
  exists w' os, otrace demo_transition (new 0 demo_plan)
      [RequestedEvent the_ShutdownRequested; ChildStoppedEvent (demo_stop 2); BehaviorEvent 5] =
      Some (w', os) /\
    state w' = Stopping demo_plan 0 [child 1] /\ inner_state w' = 5.
Proof.
  split; [reflexivity|].
  destruct (shutdown_phases_ordered (A := nat) (T := CreationId) (L := InterpreterRequests ShutdownChild)
    (creation := fun c => c) demo_behavior (new 0 demo_plan) 0
    [RequestedEvent the_ShutdownRequested; ChildStoppedEvent (demo_stop 2); BehaviorEvent 5])
    as (w' & os & Hrun & _).
  - right. exists [[child 1; child 2]; [child 3]], demo_plan. split; reflexivity.
  - repeat constructor.
  - exists w', os. split; [exact Hrun|]. vm_compute in Hrun. injection Hrun as <- _. split; reflexivity.
Defined.

Lemma shutdown_completes_witness :
  Forall2 (fun g ph => stopped_child <$> g ≡ₚ (fun c => c) <$> ph)
    [[demo_stop 2; demo_stop 1]; [demo_stop 3]] [[child 1; child 2]; [child 3]] /\
  exists os, otrace demo_transition (new 0 demo_plan)
      (RequestedEvent the_ShutdownRequested ::
       (ChildStoppedEvent <$> concat [[demo_stop 2; demo_stop 1]; [demo_stop 3]])) =
      Some (mkCoordinator 0 Completed, os) /\ length os = 4.
Proof.
  assert (Hg : Forall2 (fun g ph => stopped_child <$> g ≡ₚ (fun c => c) <$> ph)
    [[demo_stop 2; demo_stop 1]; [demo_stop 3]] [[child 1; child 2]; [child 3]]).
  { constructor; [apply Permutation_swap|]. constructor; [reflexivity|constructor]. }
  split; [exact Hg|].
  destruct (shutdown_completes (A := nat) (T := CreationId) (L := InterpreterRequests ShutdownChild)
    (creation := fun c => c) demo_behavior 0 [[child 1; child 2]; [child 3]] demo_plan
    the_ShutdownRequested [[demo_stop 2; demo_stop 1]; [demo_stop 3]] eq_refl Hg) as (os & Hrun & _).
  exists os. split; [exact Hrun|]. vm_compute in Hrun. injection Hrun as <-. reflexivity.
Defined.
