(* ===== verification/Selection.v ===== *)
(** * Selection: iterator extrema and the routing hash

    [Iterator::min_by_key] and [Iterator::max_by] as the standard library folds
    them, with the argument that an extremum depends only on the set of
    candidates; and [mixed_hash] of [crates/actors/src/routing/router.rs] at its
    width of 64 bits, with its inverses. *)

From stdpp Require Import base list option numbers.
From S2P Require Import Prelude.

(** ** Orders *)

(** [Ordering::then_with]. *)
Definition then_with (c d : comparison) : comparison :=
  match c with Eq => d | _ => c end.

(** [Ord for bool]: [false < true]. *)
Definition bool_compare (a b : bool) : comparison :=
  match a, b with
  | false, true => Lt
  | true, false => Gt
  | _, _ => Eq
  end.

(** What the extrema need of a comparison: a total preorder. *)
Class Ordered {K : Type} (cmp : K -> K -> comparison) : Prop := {
  cmp_flip x y : cmp y x = CompOpp (cmp x y);
  cmp_le_trans x y z : cmp x y <> Gt -> cmp y z <> Gt -> cmp x z <> Gt
}.

Arguments cmp_flip {K} cmp {_} x y.
Arguments cmp_le_trans {K} cmp {_} x y z.

(** A comparison that tells distinct keys apart. *)
Class Antisymmetric {K : Type} (cmp : K -> K -> comparison) : Prop :=
  cmp_eq x y : cmp x y = Eq -> x = y.

#[export] Instance N_Ordered : Ordered N.compare.
Proof.
  split; [intros x y; apply N.compare_antisym|].
  intros x y z. rewrite !N.compare_le_iff. lia.
Qed.

#[export] Instance N_Antisymmetric : Antisymmetric N.compare.
Proof. intros x y. apply N.compare_eq. Qed.

(** Greater first. *)
Definition N_compare_rev (x y : N) : comparison := N.compare y x.

#[export] Instance N_compare_rev_Ordered : Ordered N_compare_rev.
Proof.
  unfold N_compare_rev. split; [intros x y; apply N.compare_antisym|].
  intros x y z. rewrite !N.compare_le_iff. lia.
Qed.

#[export] Instance N_compare_rev_Antisymmetric : Antisymmetric N_compare_rev.
Proof. intros x y H. symmetry. by apply N.compare_eq. Qed.

#[export] Instance nat_Ordered : Ordered Nat.compare.
Proof.
  split; [intros x y; apply Nat.compare_antisym|].
  intros x y z. rewrite !Nat.compare_le_iff. lia.
Qed.

#[export] Instance nat_Antisymmetric : Antisymmetric Nat.compare.
Proof. intros x y. apply Nat.compare_eq. Qed.

#[export] Instance bool_Ordered : Ordered bool_compare.
Proof. split; [by intros [] []|by intros [] [] []]. Qed.

#[export] Instance bool_Antisymmetric : Antisymmetric bool_compare.
Proof. by intros [] []. Qed.

(** Tuples compare lexicographically. *)
Definition pair_compare {K L} (c : K -> K -> comparison) (d : L -> L -> comparison)
  (x y : K * L) : comparison :=
  then_with (c x.1 y.1) (d x.2 y.2).

Lemma cmp_refl {K} (cmp : K -> K -> comparison) `{!Ordered cmp} x : cmp x x = Eq.
Proof. pose proof (cmp_flip cmp x x) as H. by destruct (cmp x x). Qed.

(** Ordered keys: equality transfers comparisons. *)
Lemma cmp_Eq_l {K} (cmp : K -> K -> comparison) `{!Ordered cmp} x y z :
  cmp x y = Eq -> cmp x z = cmp y z.
Proof.
  intros Hxy. assert (Hyx : cmp y x = Eq) by (by rewrite (cmp_flip cmp x y), Hxy).
  pose proof (cmp_flip cmp x z). pose proof (cmp_flip cmp y z).
  pose proof (cmp_le_trans cmp x y z). pose proof (cmp_le_trans cmp y x z).
  pose proof (cmp_le_trans cmp z x y). pose proof (cmp_le_trans cmp z y x).
  destruct (cmp x z), (cmp y z); simpl in *; naive_solver congruence.
Qed.

#[export] Instance pair_Ordered {K L} (c : K -> K -> comparison) (d : L -> L -> comparison)
  `{!Ordered c, !Ordered d} : Ordered (pair_compare c d).
Proof.
  unfold pair_compare. split.
  - intros [x x'] [y y']. simpl. rewrite (cmp_flip c x y), (cmp_flip d x' y').
    by destruct (c x y).
  - intros [x x'] [y y'] [z z']. simpl.
    pose proof (cmp_le_trans c x y z) as T. pose proof (cmp_le_trans d x' y' z') as T'.
    destruct (c x y) eqn:Hxy; simpl.
    + rewrite (cmp_Eq_l c _ _ z Hxy). by destruct (c y z).
    + intros _ H. assert (c x z = Lt) as ->; [|done].
      pose proof (cmp_flip c x z) as F. pose proof (cmp_flip c x y) as F'.
      pose proof (cmp_le_trans c y z x) as U. rewrite Hxy in F'.
      destruct (c y z) eqn:Hyz; simpl in *; [| |done];
        destruct (c x z); simpl in *; naive_solver congruence.
    + done.
Qed.

#[export] Instance pair_Antisymmetric {K L} (c : K -> K -> comparison) (d : L -> L -> comparison)
  `{!Antisymmetric c, !Antisymmetric d} : Antisymmetric (pair_compare c d).
Proof.
  intros [x x'] [y y']. unfold pair_compare. simpl. destruct (c x y) eqn:E; [|done..].
  apply cmp_eq in E as ->. simpl. by intros ->%cmp_eq.
Qed.

(** ** Extrema *)

(** [Iterator::min_by_key]: the first least element. *)
Definition min_by_key {X K} (cmp : K -> K -> comparison) (key : X -> K) (l : list X) : option X :=
  match l with
  | [] => None
  | x :: l =>
      Some (fold_left (fun x y => match cmp (key x) (key y) with Gt => y | _ => x end) l x)
  end.

(** [Iterator::max_by]: the last greatest element. *)
Definition max_by {X} (cmp : X -> X -> comparison) (l : list X) : option X :=
  match l with
  | [] => None
  | x :: l => Some (fold_left (fun x y => match cmp x y with Gt => x | _ => y end) l x)
  end.

(** [x] is a least element of [l] for [key]. *)
Definition least {X K} (cmp : K -> K -> comparison) (key : X -> K) (l : list X) (x : X) : Prop :=
  x ∈ l /\ forall y, y ∈ l -> cmp (key x) (key y) <> Gt.

Section Extrema.
  Context {X K : Type} (cmp : K -> K -> comparison) (key : X -> K) `{!Ordered cmp}.

Lemma min_fold_least (l : list X) x :
  least cmp key (x :: l)
    (fold_left (fun x y => match cmp (key x) (key y) with Gt => y | _ => x end) l x).
Proof.
  revert x. induction l as [|y l IH]; intros x; simpl.
  - split; [left|]. intros y ->%list_elem_of_singleton. by rewrite cmp_refl by done.
  - set (m := match cmp (key x) (key y) with Gt => y | _ => x end).
    destruct (IH m) as [Hin Hle].
    assert (Hx : cmp (key m) (key x) <> Gt /\ cmp (key m) (key y) <> Gt).
    { unfold m. destruct (cmp (key x) (key y)) eqn:E;
        rewrite ?(cmp_refl cmp), ?E, ?(cmp_flip cmp (key x) (key y)), ?E; done. }
    pose proof (Hle m (list_elem_of_here _ _)) as Hm.
    split.
    + apply elem_of_cons in Hin as [->|Hin]; [|by right; right].
      unfold m. destruct (cmp (key x) (key y)); [left|left|right; left].
    + intros z [->|[->|Hz]%elem_of_cons]%elem_of_cons.
      * eapply (cmp_le_trans cmp); [exact Hm|tauto].
      * eapply (cmp_le_trans cmp); [exact Hm|tauto].
      * apply Hle. by right.
Qed.

Lemma min_by_key_Some l x : min_by_key cmp key l = Some x -> least cmp key l x.
Proof. destruct l as [|y l]; simpl; [done|]. intros [= <-]. apply min_fold_least. Qed.

Lemma min_by_key_None l : min_by_key cmp key l = None <-> l = [].
Proof. by destruct l. Qed.

(** A least element is the minimum when the key tells the candidates apart. *)
Lemma min_by_key_unique `{!Antisymmetric cmp} l x :
  (forall y z, y ∈ l -> z ∈ l -> key y = key z -> y = z) ->
  least cmp key l x -> min_by_key cmp key l = Some x.
Proof.
  intros Hinj [Hx Hle]. destruct (min_by_key cmp key l) as [m|] eqn:Hm.
  - apply min_by_key_Some in Hm as [Hin Hmle]. f_equal. apply Hinj; auto.
    apply cmp_eq. specialize (Hmle x Hx). specialize (Hle m Hin).
    rewrite (cmp_flip cmp (key m) (key x)) in Hle. by destruct (cmp (key m) (key x)).
  - apply min_by_key_None in Hm as ->. by apply not_elem_of_nil in Hx.
Qed.

End Extrema.

(** The greatest element is the least one for the reversed comparison, when the
    comparison tells the candidates apart. *)
Lemma max_by_min_by_key {X K} (cmp : X -> X -> comparison) (ord : K -> K -> comparison)
  (key : X -> K) (l : list X) :
  (forall x y, x ∈ l -> y ∈ l -> cmp x y = ord (key y) (key x)) ->
  (forall x y, x ∈ l -> y ∈ l -> cmp x y = Eq -> x = y) ->
  Ordered ord ->
  max_by cmp l = min_by_key ord key l.
Proof.
  intros Hc Heq Ho. destruct l as [|x l]; [done|]. simpl. f_equal.
  revert x Hc Heq. induction l as [|y l IH]; intros x Hc Heq; simpl; [done|].
  assert (Hx : x ∈ x :: y :: l) by left. assert (Hy : y ∈ x :: y :: l) by (right; left).
  pose proof (Hc x y Hx Hy) as Hxy. pose proof (Heq x y Hx Hy) as Hxy'.
  rewrite (cmp_flip ord (key y) (key x)), <- Hxy.
  assert (Hsub : forall z, z ∈ x :: l \/ z ∈ y :: l -> z ∈ x :: y :: l).
  { intros z. rewrite !elem_of_cons. tauto. }
  destruct (cmp x y); simpl; [rewrite Hxy' by done|..]; apply IH; auto.
Qed.

Lemma max_by_greatest {X} (f : X -> N) (l : list X) x :
  (forall y z, f y = f z -> y = z) ->
  max_by (fun y z => N.compare (f y) (f z)) l = Some x ->
  x ∈ l /\ forall y, y ∈ l -> (f y <= f x)%N.
Proof.
  intros Hinj. rewrite (max_by_min_by_key _ N_compare_rev f).
  - intros [Hx Hle]%min_by_key_Some; [|apply _]. split; [done|].
    intros y Hy. by apply N.compare_le_iff, Hle.
  - done.
  - intros y z _ _ E%N.compare_eq. by apply Hinj.
  - apply _.
Qed.

(** ** [mixed_hash] *)

Definition wrapping_mul (x y : N) : N := ((x * y) mod 2 ^ 64)%N.

(** [u64::rotate_left]. *)
Definition rotate_left (x k : N) : N :=
  N.lor (N.shiftl x k mod 2 ^ 64) (N.shiftr x (64 - k)).

(** [value ^ (value >> k)]. *)
Definition xor_shift (k x : N) : N := N.lxor x (N.shiftr x k).

Definition mixed_hash (left right : N) : N :=
  let value := N.lxor (N.lxor left (rotate_left right 32)) 0x9E3779B97F4A7C15 in
  let value := wrapping_mul (xor_shift 30 value) 0xBF58476D1CE4E5B9 in
  let value := wrapping_mul (xor_shift 27 value) 0x94D049BB133111EB in
  xor_shift 31 value.

(** The inverse of each stage: an [xor_shift] by a third of the width or more is
    undone by two more shifts, an odd factor by its inverse modulo [2^64]. *)
Definition unxor_shift (k y : N) : N :=
  N.lxor (N.lxor y (N.shiftr y k)) (N.shiftr y (k + k)).

Definition unmix (h : N) : N :=
  let value := wrapping_mul (unxor_shift 31 h) 0x319642B2D24D8EC3 in
  let value := wrapping_mul (unxor_shift 27 value) 0x96DE1B173F119089 in
  N.lxor (unxor_shift 30 value) 0x9E3779B97F4A7C15.

Abbreviation u64 x := (x < 2 ^ 64)%N.

Lemma u64_testbit x : u64 x <-> forall i, (64 <= i)%N -> N.testbit x i = false.
Proof.
  split.
  - intros H i Hi. destruct (N.eq_dec x 0%N) as [->|Hx]; [apply N.bits_0|].
    apply N.bits_above_log2. apply N.log2_lt_pow2 in H; lia.
  - intros H. destruct (N.eq_dec x 0%N) as [->|Hx]; [done|].
    apply N.log2_lt_pow2; [lia|]. destruct (N.lt_ge_cases (N.log2 x) 64%N) as [|Hl]; [done|].
    specialize (H _ Hl). by rewrite N.bit_log2 in H.
Qed.

Lemma u64_lxor x y : u64 x -> u64 y -> u64 (N.lxor x y).
Proof.
  rewrite !u64_testbit. intros Hx Hy i Hi. by rewrite N.lxor_spec, Hx, Hy.
Qed.

Lemma u64_shiftr x k : u64 x -> u64 (N.shiftr x k).
Proof. rewrite !u64_testbit. intros Hx i Hi. rewrite N.shiftr_spec'. apply Hx. lia. Qed.

Lemma u64_xor_shift k x : u64 x -> u64 (xor_shift k x).
Proof. intros. by apply u64_lxor, u64_shiftr. Qed.

Lemma u64_wrapping_mul x y : u64 (wrapping_mul x y).
Proof. by apply N.mod_lt. Qed.

Lemma rotate_left_32_testbit x i :
  u64 x -> N.testbit (rotate_left x 32) i =
    (if (i <? 32)%N then N.testbit x (i + 32) else if (i <? 64)%N then N.testbit x (i - 32) else false).
Proof.
  intros Hx. pose proof (proj1 (u64_testbit x) Hx) as Hb.
  unfold rotate_left. rewrite N.lor_spec, N.shiftr_spec'.
  change (64 - 32)%N with 32%N.
  destruct (N.ltb_spec i 32%N) as [Hi|Hi].
  - rewrite N.mod_pow2_bits_low, N.shiftl_spec_low by lia. done.
  - rewrite (Hb (i + 32)%N), orb_false_r by lia.
    destruct (N.ltb_spec i 64%N).
    + rewrite N.mod_pow2_bits_low, N.shiftl_spec_high' by lia. done.
    + by rewrite N.mod_pow2_bits_high by lia.
Qed.

Lemma u64_rotate_left x : u64 x -> u64 (rotate_left x 32).
Proof.
  intros Hx. apply u64_testbit. intros i Hi. rewrite rotate_left_32_testbit by done.
  destruct (N.ltb_spec i 32%N); [lia|]. destruct (N.ltb_spec i 64%N); [lia|done].
Qed.

Lemma rotate_left_32_twice x : u64 x -> rotate_left (rotate_left x 32) 32 = x.
Proof.
  intros Hx. apply N.bits_inj. intros i.
  rewrite rotate_left_32_testbit by by apply u64_rotate_left.
  rewrite !rotate_left_32_testbit by done. pose proof (proj1 (u64_testbit x) Hx i) as Hb.
  repeat (case_match; rewrite ?N.ltb_lt, ?N.ltb_ge in *; try lia); try (f_equal; lia).
  symmetry. auto.
Qed.

Create HintDb u64.
#[local] Hint Resolve u64_lxor u64_shiftr u64_xor_shift u64_wrapping_mul u64_rotate_left : u64.
#[local] Hint Extern 2 (_ < _)%N => reflexivity : u64.
#[local] Hint Extern 2 (_ <= _)%N => lia : u64.
#[local] Hint Extern 2 (wrapping_mul _ _ = 1%N) => reflexivity : u64.

Lemma unxor_shift_inverse k x : u64 x -> (64 <= 3 * k)%N -> unxor_shift k (xor_shift k x) = x.
Proof.
  intros Hx Hk. apply N.bits_inj. intros i. unfold unxor_shift, xor_shift.
  rewrite !N.lxor_spec, !N.shiftr_spec', !N.lxor_spec, !N.shiftr_spec'.
  rewrite (proj1 (u64_testbit x) Hx (i + (k + k) + k)%N) by lia.
  replace (i + k + k)%N with (i + (k + k))%N by lia.
  by destruct (N.testbit x i), (N.testbit x (i + k)), (N.testbit x (i + (k + k))).
Qed.

Lemma wrapping_mul_inverse x c c' :
  u64 x -> wrapping_mul c c' = 1%N -> wrapping_mul (wrapping_mul x c) c' = x.
Proof.
  unfold wrapping_mul. intros Hx Hc.
  rewrite N.Div0.mul_mod_idemp_l, <- N.mul_assoc, <- N.Div0.mul_mod_idemp_r, Hc, N.mul_1_r.
  by apply N.mod_small.
Qed.

Lemma u64_mixed_hash l r : u64 l -> u64 r -> u64 (mixed_hash l r).
Proof. intros. unfold mixed_hash. auto with u64. Qed.

Lemma unmix_mixed_hash l r :
  u64 l -> u64 r -> unmix (mixed_hash l r) = N.lxor l (rotate_left r 32).
Proof.
  intros Hl Hr. unfold unmix, mixed_hash.
  rewrite (unxor_shift_inverse 31), wrapping_mul_inverse by auto with u64.
  rewrite (unxor_shift_inverse 27), wrapping_mul_inverse by auto with u64.
  rewrite (unxor_shift_inverse 30) by auto with u64.
  by rewrite N.lxor_assoc, N.lxor_nilpotent, N.lxor_0_r.
Qed.

Lemma mixed_hash_left_inj l l' r :
  u64 l -> u64 l' -> u64 r -> mixed_hash l r = mixed_hash l' r -> l = l'.
Proof.
  intros Hl Hl' Hr H. apply (f_equal unmix) in H. rewrite !unmix_mixed_hash in H by done.
  apply (f_equal (fun x => N.lxor x (rotate_left r 32))) in H.
  by rewrite !N.lxor_assoc, !N.lxor_nilpotent, !N.lxor_0_r in H.
Qed.

Lemma mixed_hash_right_inj l r r' :
  u64 l -> u64 r -> u64 r' -> mixed_hash l r = mixed_hash l r' -> r = r'.
Proof.
  intros Hl Hr Hr' H. apply (f_equal unmix) in H. rewrite !unmix_mixed_hash in H by done.
  apply (f_equal (N.lxor l)) in H.
  rewrite <- !N.lxor_assoc, !N.lxor_nilpotent, !N.lxor_0_l in H.
  apply (f_equal (fun x => rotate_left x 32)) in H. by rewrite !rotate_left_32_twice in H.
Qed.

(** C39.  [mixed_hash] of two [u64] values is a [u64] value and loses nothing:
    with either argument known, the other one is recovered from the hash.  So for
    a fixed key distinct member tokens never have the same score, and for a fixed
    replica number distinct tokens never have the same ring point. *)
Theorem mixed_hash_roundtrip l r :
  u64 l -> u64 r ->
  u64 (mixed_hash l r) /\
  N.lxor (unmix (mixed_hash l r)) (rotate_left r 32) = l /\
  rotate_left (N.lxor l (unmix (mixed_hash l r))) 32 = r.
Proof.
  intros Hl Hr. rewrite unmix_mixed_hash by done. split_and!.
  - by apply u64_mixed_hash.
  - by rewrite N.lxor_assoc, N.lxor_nilpotent, N.lxor_0_r.
  - by rewrite <- N.lxor_assoc, N.lxor_nilpotent, N.lxor_0_l, rotate_left_32_twice.
Qed.

Lemma mixed_hash_roundtrip_witness :
  N.lxor (unmix (mixed_hash 7 (2 ^ 64 - 1))) (rotate_left (2 ^ 64 - 1) 32) = 7%N.
Proof. apply (mixed_hash_roundtrip 7 (2 ^ 64 - 1)); reflexivity. Defined.
