(* ===== verification/Router.v ===== *)
(** * The router ([crates/actors/src/routing/router.rs])

    Unicast routing over an insertion-ordered membership with a static selection
    policy.  The policy trait is the class [RoutingStrategy]; what a policy
    promises to the router is [StrategyLaws], discharged by the four policies of
    the source ([RoundRobin], [LeastLoaded], [ConsistentHash], [RendezvousHash]).
    [LoadEvidence] and [MemberTokenEvidence] are two instances of one versioned
    evidence type, because the source writes the same fold twice. *)

From stdpp Require Import base list option numbers.
From S2P Require Import Prelude Effects Selection.

(** ** Data *)

Inductive RouterMessage (Route Msg Obs : Type) : Type :=
| Add (r : Route)
| Remove (r : Route)
| Route_ (m : Msg)
| Observe (o : Obs).
Arguments Add {Route Msg Obs} _.
Arguments Remove {Route Msg Obs} _.
Arguments Route_ {Route Msg Obs} _.
Arguments Observe {Route Msg Obs} _.

Inductive RouterError (M O E : Type) : Type :=
| NoEligibleRecipients (m : M)
| InvalidSelection (m : M) (index members : nat)
| Policy (observation : O) (error : E).
Arguments NoEligibleRecipients {M O E} _.
Arguments InvalidSelection {M O E} _ _ _.
Arguments Policy {M O E} _ _.

Record RoutingObservationRejection (Observation Reason : Type) := mkRejection {
  observation : Observation;
  reason : Reason
}.
Arguments mkRejection {Observation Reason} _ _.
Arguments observation {Observation Reason} _.
Arguments reason {Observation Reason} _.

(** The policy trait; a policy is mutated in place, so every operation returns
    the policy after the call. *)
Class RoutingStrategy (R Route Msg Obs Er : Type) := {
  select : R -> list Route -> Msg -> R * option nat;
  observe : R -> list Route -> Obs -> R * result unit (RoutingObservationRejection Obs Er);
  added : R -> Route -> R;
  removed : R -> nat -> Route -> nat -> R
}.

Record Router (Route R : Type) := mkRouter { recipients : list Route; strategy : R }.
Arguments mkRouter {Route R} _ _.
Arguments recipients {Route R} _.
Arguments strategy {Route R} _.

(** ** The router fold *)

Section Router.
  Context {A Route Msg Sends R Obs Er : Type}.
  Context `{!EqDecision Route, !SendEffects Sends, !DeliveryRoute Route Msg Sends}.
  Context `{!RoutingStrategy R Route Msg Obs Er}.

Abbreviation router := (Router Route R).
Abbreviation router_event := (User A (RouterMessage Route Msg Obs)).
Abbreviation router_acted := (Acted Never Never Sends (RouterError Msg Obs Er)).

Definition new (initial : list Route) (s : R) : router :=
  let unique := fold_left push_unique initial [] in
  mkRouter unique (fold_left (added (Msg := Msg)) unique s).

Definition member_index (s : router) (r : Route) : option nat :=
  position (fun member => bool_decide (member = r)) (recipients s).

Definition transition (s : router) (event : router_event) : router * router_acted :=
  match message event with
  | Add r =>
      (if bool_decide (r ∈ recipients s) then s
       else mkRouter (recipients s ++ [r]) (added (Msg := Msg) (strategy s) r), Ok cont)
  | Remove r =>
      (match position (fun item => bool_decide (item = r)) (recipients s) with
       | Some index =>
           let rest := base.delete index (recipients s) in
           mkRouter rest
             (removed (Msg := Msg) (strategy s) index
                (default r (recipients s !! index)) (length rest))
       | None => s
       end, Ok cont)
  | Route_ m =>
      let '(candidate, selected) := select (strategy s) (recipients s) m in
      match selected with
      | None => (s, Err (NoEligibleRecipients m))
      | Some index =>
          match recipients s !! index with
          | None => (s, Err (InvalidSelection m index (length (recipients s))))
          | Some r => (mkRouter (recipients s) candidate, Ok (send (deliver r m)))
          end
      end
  | Observe o =>
      let '(candidate, outcome) := observe (Msg := Msg) (strategy s) (recipients s) o in
      match outcome with
      | Err rejection => (s, Err (Policy (observation rejection) (reason rejection)))
      | Ok _ => (mkRouter (recipients s) candidate, Ok cont)
      end
  end.

End Router.

(** ** Policies *)

(** [Observation = Never]: an empty match. *)
Record RoundRobin := mkRoundRobin { next : nat }.

Section RoundRobin.
  Context {Route Msg : Type}.

Definition round_robin_select (s : RoundRobin) (members : list Route) (_ : Msg) :
  RoundRobin * option nat :=
  match members with
  | [] => (s, None)
  | _ =>
      let selected := next s mod length members in
      (mkRoundRobin ((selected + 1) mod length members), Some selected)
  end.

Definition round_robin_observe (s : RoundRobin) (_ : list Route) (o : Never) :
  RoundRobin * result unit (RoutingObservationRejection Never Never) :=
  match o with end.

Definition round_robin_removed (s : RoundRobin) (index : nat) (_ : Route) (remaining : nat) :
  RoundRobin :=
  if remaining =? 0 then mkRoundRobin 0
  else
    let n := if index <? next s then next s - 1 else next s in
    mkRoundRobin (n mod remaining).

End RoundRobin.

#[export] Instance RoundRobin_RoutingStrategy Route Msg :
  RoutingStrategy RoundRobin Route Msg Never Never := {
  select := round_robin_select;
  observe := round_robin_observe;
  added s _ := s;
  removed := round_robin_removed
}.

(** Versioned evidence about one member, [LoadVersion] and [MemberTokenVersion]
    being [u64]. *)
Inductive Evidence : Type :=
| Unknown
| Observed (version value : N).

#[export] Instance Evidence_EqDecision : EqDecision Evidence.
Proof. solve_decision. Defined.

Definition LoadEvidence : Type := Evidence.
Definition MemberTokenEvidence : Type := Evidence.

Inductive MemberEvidenceError : Type :=
| UnknownRecipient
| Stale
| ConflictingVersion.

Record MemberObservation (Route : Type) := mkMemberObservation {
  recipient : Route;
  version : N;
  value : N
}.
Arguments mkMemberObservation {Route} _ _ _.
Arguments recipient {Route} _.
Arguments version {Route} _.
Arguments value {Route} _.

Definition LoadObservation (Route : Type) : Type := MemberObservation Route.
Definition MemberTokenObservation (Route : Type) : Type := MemberObservation Route.

Section Evidence.
  Context {Route : Type} `{!EqDecision Route}.

Abbreviation rejection := (RoutingObservationRejection (MemberObservation Route) MemberEvidenceError).

Definition evidence_observe (evidence : list Evidence) (members : list Route)
  (o : MemberObservation Route) : list Evidence * result unit rejection :=
  match position (fun member => bool_decide (member = recipient o)) members with
  | None => (evidence, Err (mkRejection o UnknownRecipient))
  | Some index =>
      match evidence !! index with
      | None => (evidence, Err (mkRejection o UnknownRecipient))
      | Some Unknown => (<[index := Observed (version o) (value o)]> evidence, Ok tt)
      | Some (Observed v x) =>
          if (version o <? v)%N then (evidence, Err (mkRejection o Stale))
          else if (version o =? v)%N then
            if (value o =? x)%N then (evidence, Ok tt)
            else (evidence, Err (mkRejection o ConflictingVersion))
          else (<[index := Observed (version o) (value o)]> evidence, Ok tt)
      end
  end.

Definition evidence_added (evidence : list Evidence) : list Evidence := evidence ++ [Unknown].

(** [if index < len { remove(index) }]: [delete] does nothing out of range. *)
Definition evidence_removed (evidence : list Evidence) (index : nat) : list Evidence :=
  base.delete index evidence.

(** [iter().enumerate().take(members).filter_map(..)]: the observed entries. *)
Definition observed_entries (evidence : list Evidence) (members : nat) : list (nat * N) :=
  omap (fun '(index, e) =>
          match e with Unknown => None | Observed _ x => Some (index, x) end)
       (take members (imap pair evidence)).

End Evidence.

Record LeastLoaded := mkLeastLoaded { loads : list LoadEvidence }.

Definition LeastLoaded_new : LeastLoaded := mkLeastLoaded [].

Section LeastLoaded.
  Context {Route Msg : Type} `{!EqDecision Route}.

Definition least_loaded_select (s : LeastLoaded) (members : list Route) (_ : Msg) :
  LeastLoaded * option nat :=
  (s, fst <$> min_by_key (pair_compare N.compare Nat.compare)
                (fun '(index, load) => (load, index))
                (observed_entries (loads s) (length members))).

Definition least_loaded_observe (s : LeastLoaded) (members : list Route)
  (o : LoadObservation Route) :=
  let '(l, outcome) := evidence_observe (loads s) members o in (mkLeastLoaded l, outcome).

Definition least_loaded_added (s : LeastLoaded) (_ : Route) : LeastLoaded :=
  mkLeastLoaded (evidence_added (loads s)).

Definition least_loaded_removed (s : LeastLoaded) (index : nat) (_ : Route) (_ : nat) :
  LeastLoaded :=
  mkLeastLoaded (evidence_removed (loads s) index).

End LeastLoaded.

#[export] Instance LeastLoaded_RoutingStrategy Route Msg `{!EqDecision Route} :
  RoutingStrategy LeastLoaded Route Msg (LoadObservation Route) MemberEvidenceError := {
  select := least_loaded_select;
  observe := least_loaded_observe;
  added := least_loaded_added;
  removed := least_loaded_removed
}.

(** The routing key of a destination message. *)
Class RouteKey (Msg K : Type) := route_key : Msg -> K.

Record HashMembership := mkHashMembership { evidence : list MemberTokenEvidence }.

Definition HashMembership_new : HashMembership := mkHashMembership [].

Definition membership_added (s : HashMembership) : HashMembership :=
  mkHashMembership (evidence_added (evidence s)).

Definition membership_removed (s : HashMembership) (index : nat) : HashMembership :=
  mkHashMembership (evidence_removed (evidence s) index).

Definition membership_observe {Route} `{!EqDecision Route} (s : HashMembership)
  (members : list Route) (o : MemberTokenObservation Route) :=
  let '(l, outcome) := evidence_observe (evidence s) members o in
  (mkHashMembership l, outcome).

Definition tokens (s : HashMembership) (members : nat) : list (nat * N) :=
  observed_entries (evidence s) members.

(** [ConsistentHash]: [replicas] is a [NonZeroU16]; [hash_key] is fixed. *)
Record ConsistentHash (K : Type) := mkConsistentHash {
  membership : HashMembership;
  replicas : nat;
  hash_key : K -> N
}.
Arguments mkConsistentHash {K} _ _ _.
Arguments membership {K} _.
Arguments replicas {K} _.
Arguments hash_key {K} _ _.

Section ConsistentHash.
  Context {Route Msg K : Type} `{!EqDecision Route, !RouteKey Msg K}.

Definition ConsistentHash_new (count : nat) (hash : K -> N) : ConsistentHash K :=
  mkConsistentHash HashMembership_new count hash.

(** The virtual points of the eligible members. *)
Definition ring_points (s : ConsistentHash K) (members : nat) : list (N * nat) :=
  tokens (membership s) members ≫= fun '(index, token) =>
    (fun replica => (mixed_hash token (N.of_nat replica), index)) <$> seq 0 (replicas s).

Definition consistent_select (s : ConsistentHash K) (members : list Route) (m : Msg) :
  ConsistentHash K * option nat :=
  let key := hash_key s (route_key m) in
  (s, snd <$> min_by_key
                (pair_compare bool_compare (pair_compare N.compare Nat.compare))
                (fun '(point, index) => ((point <? key)%N, (point, index)))
                (ring_points s (length members))).

Definition consistent_observe (s : ConsistentHash K) (members : list Route)
  (o : MemberTokenObservation Route) :=
  let '(h, outcome) := membership_observe (membership s) members o in
  (mkConsistentHash h (replicas s) (hash_key s), outcome).

Definition consistent_added (s : ConsistentHash K) (_ : Route) : ConsistentHash K :=
  mkConsistentHash (membership_added (membership s)) (replicas s) (hash_key s).

Definition consistent_removed (s : ConsistentHash K) (index : nat) (_ : Route) (_ : nat) :
  ConsistentHash K :=
  mkConsistentHash (membership_removed (membership s) index) (replicas s) (hash_key s).

#[export] Instance ConsistentHash_RoutingStrategy :
  RoutingStrategy (ConsistentHash K) Route Msg (MemberTokenObservation Route)
    MemberEvidenceError := {
  select := consistent_select;
  observe := consistent_observe;
  added := consistent_added;
  removed := consistent_removed
}.

End ConsistentHash.

Record RendezvousHash (K : Type) := mkRendezvousHash {
  rendezvous_membership : HashMembership;
  rendezvous_hash_key : K -> N
}.
Arguments mkRendezvousHash {K} _ _.
Arguments rendezvous_membership {K} _.
Arguments rendezvous_hash_key {K} _ _.

Section RendezvousHash.
  Context {Route Msg K : Type} `{!EqDecision Route, !RouteKey Msg K}.

Definition RendezvousHash_new (hash : K -> N) : RendezvousHash K :=
  mkRendezvousHash HashMembership_new hash.

(** [left.0.cmp(&right.0).then_with(|| right.1.cmp(&left.1))]. *)
Definition score_compare (left right : N * nat) : comparison :=
  then_with (N.compare left.1 right.1) (Nat.compare right.2 left.2).

Definition rendezvous_select (s : RendezvousHash K) (members : list Route) (m : Msg) :
  RendezvousHash K * option nat :=
  let key := rendezvous_hash_key s (route_key m) in
  (s, snd <$> max_by score_compare
                ((fun '(index, token) => (mixed_hash key token, index)) <$>
                   tokens (rendezvous_membership s) (length members))).

Definition rendezvous_observe (s : RendezvousHash K) (members : list Route)
  (o : MemberTokenObservation Route) :=
  let '(h, outcome) := membership_observe (rendezvous_membership s) members o in
  (mkRendezvousHash h (rendezvous_hash_key s), outcome).

Definition rendezvous_added (s : RendezvousHash K) (_ : Route) : RendezvousHash K :=
  mkRendezvousHash (membership_added (rendezvous_membership s)) (rendezvous_hash_key s).

Definition rendezvous_removed (s : RendezvousHash K) (index : nat) (_ : Route) (_ : nat) :
  RendezvousHash K :=
  mkRendezvousHash (membership_removed (rendezvous_membership s) index) (rendezvous_hash_key s).

#[export] Instance RendezvousHash_RoutingStrategy :
  RoutingStrategy (RendezvousHash K) Route Msg (MemberTokenObservation Route)
    MemberEvidenceError := {
  select := rendezvous_select;
  observe := rendezvous_observe;
  added := rendezvous_added;
  removed := rendezvous_removed
}.

End RendezvousHash.

(** [Router::load_evidence] and [Router::member_token_evidence]. *)
Definition evidence_at {Route R} `{!EqDecision Route} (vector : R -> list Evidence)
  (s : Router Route R) (r : Route) : option Evidence :=
  index ← member_index s r; vector (strategy s) !! index.

Definition load_evidence {Route} `{!EqDecision Route} :
  Router Route LeastLoaded -> Route -> option LoadEvidence :=
  evidence_at loads.

Definition consistent_token_evidence {Route K} `{!EqDecision Route} :
  Router Route (ConsistentHash K) -> Route -> option MemberTokenEvidence :=
  evidence_at (fun s => evidence (membership s)).

Definition rendezvous_token_evidence {Route K} `{!EqDecision Route} :
  Router Route (RendezvousHash K) -> Route -> option MemberTokenEvidence :=
  evidence_at (fun s => evidence (rendezvous_membership s)).

(** ** What a policy promises to the router

    [strategy_wf] relates the policy state to the membership it was told about;
    a well-formed policy selects inside the membership and gives a rejected
    observation back unchanged. *)

Class StrategyLaws (R Route Msg Obs Er : Type) `{!RoutingStrategy R Route Msg Obs Er} := {
  strategy_wf : list Route -> R -> Prop;
  select_wf ms s m : strategy_wf ms s -> strategy_wf ms (select s ms m).1;
  select_bound ms s m i : strategy_wf ms s -> (select s ms m).2 = Some i -> i < length ms;
  observe_wf ms s o : strategy_wf ms s -> strategy_wf ms (observe (Msg := Msg) s ms o).1;
  observe_rejected ms s o rej :
    (observe (Msg := Msg) s ms o).2 = Err rej -> observation rej = o;
  added_wf ms s r : strategy_wf ms s -> strategy_wf (ms ++ [r]) (added (Msg := Msg) s r);
  removed_wf ms s i r :
    strategy_wf ms s -> ms !! i = Some r ->
    strategy_wf (base.delete i ms) (removed (Msg := Msg) s i r (length ms - 1))
}.

#[export] Program Instance RoundRobin_StrategyLaws Route Msg :
  StrategyLaws RoundRobin Route Msg Never Never := {
  strategy_wf ms s := next s = 0 \/ next s < length ms
}.
Next Obligation.
  intros Route Msg [|r ms] s m Hs; [done|]. cbn [select RoundRobin_RoutingStrategy round_robin_select fst next].
  right. apply Nat.mod_upper_bound. done.
Qed.
Next Obligation.
  intros Route Msg [|r ms] s m i Hs; simpl; [done|]. intros [= <-].
  apply (Nat.mod_upper_bound _ (S (length ms))). done.
Qed.
Next Obligation. intros ??? s []. Qed.
Next Obligation. intros ??? s []. Qed.
Next Obligation. intros Route Msg ms s r. simpl. rewrite length_app. lia. Qed.
Next Obligation.
  intros Route Msg ms s i r Hs Hi. simpl. unfold round_robin_removed.
  apply lookup_lt_Some in Hi as Hl. rewrite length_delete by eauto.
  destruct (Nat.eqb_spec (length ms - 1) 0); simpl; [by left|].
  right. by apply Nat.mod_upper_bound.
Qed.

Lemma evidence_observe_length {Route} `{!EqDecision Route} ev (ms : list Route) o :
  length (evidence_observe ev ms o).1 = length ev.
Proof. unfold evidence_observe. repeat split_match; simpl; rewrite ?length_insert; done. Qed.

Lemma evidence_observe_rejected {Route} `{!EqDecision Route} ev (ms : list Route) o rej :
  (evidence_observe ev ms o).2 = Err rej ->
  observation rej = o /\ (evidence_observe ev ms o).1 = ev.
Proof. unfold evidence_observe. repeat split_match; simpl; by intros [= <-]. Qed.

Lemma evidence_removed_length {Route} ev (ms : list Route) i r :
  length ev = length ms -> ms !! i = Some r ->
  length (evidence_removed ev i) = length (base.delete i ms).
Proof.
  intros Hl Hi. unfold evidence_removed. apply lookup_lt_Some in Hi as Hi'.
  rewrite !length_delete; [lia|done|]. apply lookup_lt_is_Some. lia.
Qed.

Lemma elem_of_observed_entries ev n i x :
  (i, x) ∈ observed_entries ev n <-> i < n /\ exists v, ev !! i = Some (Observed v x).
Proof.
  unfold observed_entries. rewrite list_elem_of_omap. split.
  - intros ([j e] & Hin & He). destruct e as [|v y]; simplify_eq/=.
    apply list_elem_of_lookup in Hin as [k Hk].
    apply lookup_take_Some in Hk as [Hk Hlt]. rewrite list_lookup_imap in Hk.
    destruct (ev !! k) eqn:Hek; simplify_eq/=. eauto.
  - intros [Hi [v Hv]]. exists (i, Observed v x). split; [|done].
    apply list_elem_of_lookup. exists i. apply lookup_take_Some. split; [|done].
    by rewrite list_lookup_imap, Hv.
Qed.

(** ** The three evidence policies share one state shape *)

Class EvidencePolicy (R Route Msg : Type) `{!EqDecision Route}
  `{!RoutingStrategy R Route Msg (MemberObservation Route) MemberEvidenceError} := {
  vector : R -> list Evidence;
  vector_select s ms m : vector (select s ms m).1 = vector s;
  vector_selected s ms m i :
    (select s ms m).2 = Some i -> exists x, (i, x) ∈ observed_entries (vector s) (length ms);
  vector_observe s ms o :
    vector (observe (Msg := Msg) s ms o).1 = (evidence_observe (vector s) ms o).1;
  vector_outcome s ms o :
    (observe (Msg := Msg) s ms o).2 = (evidence_observe (vector s) ms o).2;
  vector_added s r : vector (added (Msg := Msg) s r) = evidence_added (vector s);
  vector_removed s i r n : vector (removed (Msg := Msg) s i r n) = evidence_removed (vector s) i
}.

#[export] Program Instance Evidence_StrategyLaws R Route Msg `{EvidencePolicy R Route Msg} :
  StrategyLaws R Route Msg (MemberObservation Route) MemberEvidenceError := {
  strategy_wf ms s := length (vector s) = length ms
}.
Next Obligation. intros. simpl. by rewrite vector_select. Qed.
Next Obligation.
  intros R Route Msg ? ? HP ms s m i Hwf [x Hx]%vector_selected. by apply elem_of_observed_entries in Hx as [? _].
Qed.
Next Obligation.
  intros R Route Msg ? ? HP ms s o Hwf. simpl in *. by rewrite vector_observe, evidence_observe_length.
Qed.
Next Obligation.
  intros R Route Msg ? ? HP ms s o rej Hrej. rewrite vector_outcome in Hrej.
  by apply evidence_observe_rejected in Hrej as [? _].
Qed.
Next Obligation.
  intros R Route Msg ? ? HP ms s r Hwf. simpl in *. rewrite vector_added. unfold evidence_added.
  rewrite !length_app. simpl. lia.
Qed.
Next Obligation.
  intros R Route Msg ? ? HP ms s i r Hwf Hi. simpl in *. rewrite vector_removed. by eapply evidence_removed_length.
Qed.

#[export] Program Instance LeastLoaded_EvidencePolicy Route Msg `{!EqDecision Route} :
  EvidencePolicy LeastLoaded Route Msg := { vector := loads }.
Next Obligation. done. Qed.
Next Obligation.
  intros * [[j x] [Hm ->]]%fmap_Some. apply min_by_key_Some in Hm as [? _]; [eauto|apply _].
Qed.
Next Obligation. intros. simpl. unfold least_loaded_observe. by destruct evidence_observe. Qed.
Next Obligation. intros. simpl. unfold least_loaded_observe. by destruct evidence_observe. Qed.
Next Obligation. done. Qed.
Next Obligation. done. Qed.

Lemma elem_of_ring_points {K} (s : ConsistentHash K) n p i :
  (p, i) ∈ ring_points s n <->
  exists t k, (i, t) ∈ tokens (membership s) n /\ k < replicas s /\ p = mixed_hash t (N.of_nat k).
Proof.
  unfold ring_points. rewrite list_elem_of_bind. split.
  - intros ([j t] & (k & [= -> ->] & Hk%elem_of_seq)%list_elem_of_fmap & Ht).
    exists t, k. split_and!; [done|lia|done].
  - intros (t & k & Ht & Hk & ->). exists (i, t). split; [|done].
    apply list_elem_of_fmap. exists k. split; [done|]. apply elem_of_seq. lia.
Qed.

#[export] Program Instance ConsistentHash_EvidencePolicy Route Msg K
  `{!EqDecision Route, !RouteKey Msg K} :
  EvidencePolicy (ConsistentHash K) Route Msg := { vector s := evidence (membership s) }.
Next Obligation. done. Qed.
Next Obligation.
  intros * [[p j] [Hm ->]]%fmap_Some. apply min_by_key_Some in Hm as [Hin _]; [|apply _].
  apply elem_of_ring_points in Hin as (t & k & Ht & _). eauto.
Qed.
Next Obligation.
  intros. simpl. unfold consistent_observe, membership_observe. by destruct evidence_observe.
Qed.
Next Obligation.
  intros. simpl. unfold consistent_observe, membership_observe. by destruct evidence_observe.
Qed.
Next Obligation. done. Qed.
Next Obligation. done. Qed.

(** A greatest element is one of the candidates. *)
Lemma max_by_elem {X} (cmp : X -> X -> comparison) l x : max_by cmp l = Some x -> x ∈ l.
Proof.
  destruct l as [|y l]; simpl; [done|]. intros [= <-]. revert y.
  induction l as [|z l IH]; intros y; simpl; [left|].
  destruct (cmp y z);  specialize (IH y) as Hy; specialize (IH z) as Hz; rewrite !elem_of_cons in *; tauto.
Qed.

#[export] Program Instance RendezvousHash_EvidencePolicy Route Msg K
  `{!EqDecision Route, !RouteKey Msg K} :
  EvidencePolicy (RendezvousHash K) Route Msg := {
  vector s := evidence (rendezvous_membership s)
}.
Next Obligation. done. Qed.
Next Obligation.
  intros * [[p j] [Hm ->]]%fmap_Some.
  apply max_by_elem, list_elem_of_fmap in Hm as ([k t] & [= -> ->] & Ht). eauto.
Qed.
Next Obligation.
  intros. simpl. unfold rendezvous_observe, membership_observe. by destruct evidence_observe.
Qed.
Next Obligation.
  intros. simpl. unfold rendezvous_observe, membership_observe. by destruct evidence_observe.
Qed.
Next Obligation. done. Qed.
Next Obligation. done. Qed.

(** ** The router against the interface *)

(** Membership as the source documents it: first occurrences, in insertion
    order, removal keeping the order of the survivors. *)
Definition membership_after {Route Msg Obs} `{!EqDecision Route} (l : list Route)
  (m : RouterMessage Route Msg Obs) : list Route :=
  match m with
  | Add r => push_unique l r
  | Remove r => filter (fun x => x <> r) l
  | Route_ _ | Observe _ => l
  end.

Section RouterLaws.
  Context {A Route Msg Sends R Obs Er : Type}.
  Context `{!EqDecision Route, !SendEffects Sends, !DeliveryRoute Route Msg Sends}.
  Context `{!RouteLaws Route Msg Sends}.
  Context `{!RoutingStrategy R Route Msg Obs Er, !StrategyLaws R Route Msg Obs Er}.

Abbreviation router := (Router Route R).
Abbreviation step := (transition (A := A) (Route := Route) (Msg := Msg) (Sends := Sends)
                        (R := R) (Obs := Obs) (Er := Er)).
Abbreviation initial_router := (new (Route := Route) (Msg := Msg) (R := R) (Obs := Obs) (Er := Er)).

Record wf (s : router) : Prop := {
  wf_unique : NoDup (recipients s);
  wf_policy : strategy_wf (Msg := Msg) (recipients s) (strategy s)
}.

Lemma router_new_wf initial s0 : strategy_wf (Msg := Msg) [] s0 -> wf (initial_router initial s0).
Proof.
  intros H0. split; simpl; [by apply push_all_NoDup, NoDup_nil_2|].
  generalize (fold_left push_unique initial []) as l. intros l.
  change l with ([] ++ l) at 1. revert H0. generalize (@nil Route) as k. revert s0.
  induction l as [|r l IH]; intros s0 k H0; simpl; [by rewrite app_nil_r|].
  rewrite (cons_middle r k l), app_assoc. by apply IH, added_wf.
Qed.

Lemma router_wf_step s e : wf s -> wf (step s e).1.
Proof.
  intros [Hu Hp]. unfold transition. destruct (message e) as [r|r|m|o].
  - simpl. case_bool_decide; split; simpl; auto using NoDup_snoc, added_wf.
  - simpl. destruct (position _ _) as [i|] eqn:Hi; [|by split].
    apply position_eq_Some in Hi. rewrite Hi. simpl.
    rewrite length_delete by eauto. split; simpl; [|by apply removed_wf].
    eapply sublist_NoDup; [exact Hu|apply sublist_delete].
  - pose proof (select_wf _ _ m Hp) as Hs.
    destruct (select (strategy s) (recipients s) m) as [c [i|]]; [|by split].
    destruct (recipients s !! i); by split.
  - pose proof (observe_wf _ _ o Hp) as Hs.
    destruct (observe (strategy s) (recipients s) o) as [c [?|?]]; by split.
Qed.

Lemma router_step_membership s e :
  wf s -> recipients (step s e).1 = membership_after (recipients s) (message e).
Proof.
  intros [Hu Hp]. unfold transition, membership_after, push_unique.
  destruct (message e) as [r|r|m|o]; simpl.
  - by case_bool_decide.
  - destruct (position _ _) as [i|] eqn:Hi; simpl.
    + apply delete_filter_ne; [done|by apply position_eq_Some].
    + symmetry. by apply filter_ne_id, position_eq_None.
  - destruct (select (strategy s) (recipients s) m) as [c [i|]]; [|done].
    by destruct (recipients s !! i).
  - by destruct (observe (strategy s) (recipients s) o) as [c [?|?]].
Qed.

(** Selection by a well-formed policy names a member. *)
Lemma select_member s m i :
  wf s -> (select (strategy s) (recipients s) m).2 = Some i ->
  exists r, recipients s !! i = Some r.
Proof. intros [Hu Hp] Hi. by eapply lookup_lt_is_Some, select_bound. Qed.

(** What one step shows. *)
Definition step_contract (s : router) (e : User A (RouterMessage Route Msg Obs))
  (s' : router) (outcome : Acted Never Never Sends (RouterError Msg Obs Er)) : Prop :=
  match message e with
  | Add _ | Remove _ => outcome = Ok cont
  | Route_ m =>
      (exists r, r ∈ recipients s /\ outcome = Ok (send (deliver r m))) \/
      (outcome = Err (NoEligibleRecipients m) /\ s' = s)
  | Observe o =>
      outcome = Ok cont \/ (exists why, outcome = Err (Policy o why) /\ s' = s)
  end.

Lemma router_step_contract s e : wf s -> step_contract s e (step s e).1 (step s e).2.
Proof.
  intros Hwf. unfold step_contract, transition. destruct (message e) as [r|r|m|o]; [done..| |].
  - pose proof (select_member s m) as Hm.
    destruct (select (strategy s) (recipients s) m) as [c [i|]]; [|by right].
    destruct (Hm i Hwf eq_refl) as [r Hr]. rewrite Hr. left.
    exists r. split; [by eapply list_elem_of_lookup_2|done].
  - pose proof (observe_rejected (recipients s) (strategy s) o) as Hrej.
    destruct (observe (strategy s) (recipients s) o) as [c [?|rej]]; [by left|].
    right. exists (reason rej). simpl in *. by rewrite (Hrej rej eq_refl).
Qed.

(** A router never selects outside its membership and a rejection changes
    nothing.  Take any policy that keeps [StrategyLaws], any initial recipients
    and any sequence of messages: the recipients are the documented membership
    fold of those messages, without duplicates; and the next message [e] either
    takes effect as documented (a [Route] is delivered to one current member), or
    is refused whole ([NoEligibleRecipients] or the policy's own rejection, with
    the message or observation returned and the router unchanged).
    [InvalidSelection] is never the outcome. *)
Theorem router_membership_invariant initial s0 es e :
  strategy_wf (Msg := Msg) [] s0 ->
  let s := (trace step (initial_router initial s0) es).1 in
  recipients s =
    fold_left membership_after (message <$> es) (fold_left push_unique initial []) /\
  NoDup (recipients s) /\
  step_contract s e (step s e).1 (step s e).2.
Proof.
  intros H0 s. pose proof (router_new_wf initial s0 H0) as Hn.
  assert (Hs : wf s) by by apply (trace_invariant wf step router_wf_step).
  split_and!; [|apply Hs|by apply router_step_contract].
  change (fold_left push_unique initial []) with (recipients (initial_router initial s0)).
  subst s. clear H0 Hs. revert Hn. generalize (initial_router initial s0) as s. clear initial s0.
  induction es as [|e' es IH]; intros s Hs; [done|].
  cbn [trace]. pose proof (router_wf_step s e' Hs) as Hs'.
  pose proof (router_step_membership s e' Hs) as Hm.
  destruct (step s e') as [s1 o]. cbn [fst] in *. specialize (IH s1 Hs').
  destruct (trace step s1 es). cbn [fst] in *. rewrite IH, Hm. done.
Qed.

End RouterLaws.
