(* ===== verification/RouterPolicies.v ===== *)
(** * The routing policies: fairness, evidence and minimal disruption

    Theorems about the four policies of [crates/actors/src/routing/router.rs]
    (modelled in [Router]) inside the router that owns them. *)

From stdpp Require Import base list option numbers.
From S2P Require Import Prelude Effects Selection Router.

(** The destination that the next [Route m] would choose. *)
Definition routed {Route Msg R Obs Er} `{!RoutingStrategy R Route Msg Obs Er}
  (s : Router Route R) (m : Msg) : option Route :=
  i ← (select (strategy s) (recipients s) m).2; recipients s !! i.

Section RoundRobin.
  Context {A Route Msg Sends : Type}.
  Context `{!EqDecision Route, !SendEffects Sends, !DeliveryRoute Route Msg Sends}.
  Context `{!RouteLaws Route Msg Sends}.

Abbreviation router := (Router Route RoundRobin).
Abbreviation step := (transition (A := A) (Route := Route) (Msg := Msg) (Sends := Sends)
                        (R := RoundRobin) (Obs := Never) (Er := Never)).
Abbreviation initial_router :=
  (new (Route := Route) (Msg := Msg) (R := RoundRobin) (Obs := Never) (Er := Never)).
Abbreviation wf := (wf (Route := Route) (Msg := Msg) (R := RoundRobin) (Obs := Never) (Er := Never)).

(** The members in the order in which they will be served. *)
Definition rotation (s : router) : list Route :=
  drop (next (strategy s)) (recipients s) ++ take (next (strategy s)) (recipients s).

Lemma rotation_Permutation s : rotation s ≡ₚ recipients s.
Proof. unfold rotation. by rewrite (comm (++)), take_drop. Qed.

(** A well-formed router is a pair of lists: those already served in the current
    turn and those to come. *)
Lemma rotation_split s :
  wf s -> exists served coming,
    s = mkRouter (served ++ coming) (mkRoundRobin (length served)) /\
    rotation s = coming ++ served /\ (coming = [] -> served = []).
Proof.
  intros [_ Hp]. destruct s as [ms [n]]. simpl in Hp.
  assert (Hn : n <= length ms) by lia.
  exists (take n ms), (drop n ms). rewrite take_drop, length_take, Nat.min_l by done.
  split_and!; [done|done|]. intros Hd%(f_equal length). rewrite length_drop in Hd. simpl in Hd.
  assert (n = 0) as -> by lia. done.
Qed.

Lemma rotation_join (served coming : list Route) :
  rotation (mkRouter (served ++ coming) (mkRoundRobin (length served))) = coming ++ served.
Proof. unfold rotation. simpl. by rewrite drop_app_length, take_app_length. Qed.

(** The cursor is only read modulo the membership. *)
Lemma rotation_mod (served coming : list Route) k :
  served ++ coming <> [] -> k = length served ->
  rotation (mkRouter (served ++ coming) (mkRoundRobin (k mod length (served ++ coming)))) =
    coming ++ served.
Proof.
  intros Hne ->. destruct coming as [|c coming].
  - rewrite app_nil_r, Nat.Div0.mod_same. unfold rotation. simpl. by rewrite app_nil_r.
  - rewrite Nat.mod_small by (rewrite length_app; simpl; lia). apply rotation_join.
Qed.

Lemma round_robin_select_cons (served : list Route) r coming (m : Msg) :
  round_robin_select (mkRoundRobin (length served)) (served ++ r :: coming) m =
    (mkRoundRobin (length (served ++ [r]) mod length (served ++ r :: coming)),
     Some (length served)).
Proof.
  unfold round_robin_select. simpl.
  assert (Hl : length served < length (served ++ r :: coming)) by (rewrite length_app; simpl; lia).
  rewrite (Nat.mod_small (length served)) by done.
  rewrite (length_app served [r]). by destruct (served ++ r :: coming) eqn:E; [destruct served|].
Qed.

Lemma rotation_route s a m :
  wf s ->
  match rotation s with
  | [] => step s (mkUser a (Route_ m)) = (s, Err (NoEligibleRecipients m))
  | r :: q =>
      exists s', step s (mkUser a (Route_ m)) = (s', Ok (send (deliver r m))) /\
        rotation s' = q ++ [r]
  end.
Proof.
  intros (served & coming & -> & -> & Hc)%rotation_split.
  destruct coming as [|r q]; [by rewrite (Hc eq_refl)|]. unfold transition. simpl.
  rewrite round_robin_select_cons, list_lookup_middle by done.
  eexists. split; [reflexivity|]. rewrite (cons_middle r served q), (app_assoc served [r] q).
  rewrite rotation_mod; [by rewrite (app_assoc q)|by destruct served|done].
Qed.

Lemma length_filter_ne (l : list Route) r :
  NoDup l -> length (filter (fun x => x <> r) l) = length l - (if bool_decide (r ∈ l) then 1 else 0).
Proof.
  intros Hl. case_bool_decide as Hr.
  - apply list_elem_of_lookup in Hr as [i Hi].
    rewrite <- (delete_filter_ne l r i), length_delete by eauto. done.
  - rewrite filter_ne_id by done. lia.
Qed.

Lemma rotation_remove s a r :
  wf s -> rotation (step s (mkUser a (Remove r))).1 = filter (fun x => x <> r) (rotation s).
Proof.
  intros Hwf. pose proof (wf_unique _ Hwf) as Hu.
  apply rotation_split in Hwf as (served & coming & -> & Hrot & Hc). rewrite Hrot.
  unfold transition. simpl in *. destruct (position _ _) as [i|] eqn:Hi; simpl.
  - apply position_eq_Some in Hi. rewrite Hi. simpl. apply lookup_lt_Some in Hi as Hlt.
    rewrite (delete_filter_ne _ r i), !list.filter_app by done.
    set (k := if i <? length served then length served - 1 else length served).
    assert (Hk : k = length (filter (fun x => x <> r) served)).
    { apply list.NoDup_app in Hu as (Hs & Hd & _). rewrite length_filter_ne by done.
      unfold k. case_bool_decide as Hr; destruct (Nat.ltb_spec i (length served)) as [Hl|Hl]; try lia.
      - rewrite lookup_app_r in Hi by done. apply list_elem_of_lookup_2 in Hi.
        by destruct (Hd r Hr).
      - rewrite lookup_app_l in Hi by done. by apply list_elem_of_lookup_2 in Hi. }
    unfold round_robin_removed. simpl. fold k.
    destruct (Nat.eqb_spec (length (filter (fun x => x <> r) served ++
                                    filter (fun x => x <> r) coming)) 0) as [H0|H0].
    + apply length_zero_iff_nil, app_eq_nil in H0 as [-> ->]. done.
    + rewrite rotation_mod; [done| |done]. intros E. by rewrite E in H0.
  - rewrite Hrot, filter_ne_id; [done|]. apply position_eq_None in Hi.
    rewrite elem_of_app in *. tauto.
Qed.

Lemma rotation_add s a r :
  wf s -> r ∉ recipients s ->
  exists q1 q2, rotation s = q1 ++ q2 /\
    rotation (step s (mkUser a (Add r))).1 = q1 ++ r :: q2.
Proof.
  intros (served & coming & -> & -> & Hc)%rotation_split. simpl. intros Hr.
  rewrite bool_decide_eq_false_2 by done. exists coming, served. split; [done|].
  simpl. rewrite <- app_assoc, rotation_join. by rewrite <- app_assoc.
Qed.

Lemma zip_short {X Y} (l k : list X) (ys : list Y) :
  length ys <= length l -> zip (l ++ k) ys = zip l ys.
Proof.
  revert ys. induction l as [|x l IH]; intros [|y ys] Hl; simpl in *; try lia; try done.
  - by rewrite zip_with_nil_r.
  - by rewrite IH by lia.
Qed.

(** A round of [Route] messages serves the members in rotation order. *)
Lemma rotation_round s a ms :
  wf s -> length ms <= length (recipients s) ->
  Forall2 (fun '(r, m) outcome => outcome = Ok (send (deliver r m)))
    (zip (rotation s) ms) (trace step s ((fun m => mkUser a (Route_ m)) <$> ms)).2.
Proof.
  rewrite <- (rotation_Permutation s). remember (rotation s) as q eqn:Hq.
  revert s q Hq. induction ms as [|m ms IH]; intros s q Hq Hwf Hlen.
  - simpl. rewrite zip_with_nil_r. constructor.
  - pose proof (rotation_route s a m Hwf) as Hr. rewrite <- Hq in Hr.
    destruct q as [|r q]; simpl in Hlen; [lia|]. destruct Hr as (s' & Hs & Hrot).
    rewrite fmap_cons. cbn [trace]. rewrite Hs.
    assert (Hwf' : wf s').
    { pose proof (router_wf_step s (mkUser a (Route_ m)) Hwf) as H. by rewrite Hs in H. }
    specialize (IH s' _ (eq_sym Hrot) Hwf').
    rewrite length_app in IH. simpl in IH. specialize (IH ltac:(lia)).
    rewrite zip_short in IH by lia. destruct (trace step s' _) as [s'' os].
    cbn [snd] in *. simpl. by constructor.
Qed.

(** Round-robin routing is fair.  After any messages the members have a
    service order ([rotation], a permutation of the membership).  A routed message
    goes to the first of them, who becomes the last; removing a member leaves the
    order of the others as it was, and adding one inserts it without changing the
    order of the others.  So between membership changes, any run of routed messages
    no longer than the membership is delivered to distinct members, in order. *)
Theorem round_robin_fairness initial es a :
  let s := (trace step (initial_router initial (mkRoundRobin 0)) es).1 in
  rotation s ≡ₚ recipients s /\ NoDup (rotation s) /\
  (forall m,
     match rotation s with
     | [] => step s (mkUser a (Route_ m)) = (s, Err (NoEligibleRecipients m))
     | r :: q =>
         exists s', step s (mkUser a (Route_ m)) = (s', Ok (send (deliver r m))) /\
           rotation s' = q ++ [r]
     end) /\
  (forall r, rotation (step s (mkUser a (Remove r))).1 = filter (fun x => x <> r) (rotation s)) /\
  (forall r, r ∉ recipients s ->
     exists q1 q2, rotation s = q1 ++ q2 /\
       rotation (step s (mkUser a (Add r))).1 = q1 ++ r :: q2) /\
  (forall ms, length ms <= length (recipients s) ->
     Forall2 (fun '(r, m) outcome => outcome = Ok (send (deliver r m)))
       (zip (rotation s) ms) (trace step s ((fun m => mkUser a (Route_ m)) <$> ms)).2).
Proof.
  intros s.
  assert (Hs : wf s).
  { apply (trace_invariant wf step router_wf_step), router_new_wf. by left. }
  split_and!.
  - apply rotation_Permutation.
  - rewrite rotation_Permutation. apply Hs.
  - intros m. by apply rotation_route.
  - intros r. by apply rotation_remove.
  - intros r. by apply rotation_add.
  - intros ms. by apply rotation_round.
Qed.

End RoundRobin.

(** ** Versioned evidence *)

Section Evidence.
  Context {A Route Msg Sends R : Type}.
  Context `{!EqDecision Route, !SendEffects Sends, !DeliveryRoute Route Msg Sends}.
  Context `{!RoutingStrategy R Route Msg (MemberObservation Route) MemberEvidenceError}.
  Context `{!EvidencePolicy R Route Msg}.

Abbreviation router := (Router Route R).
Abbreviation message_of := (RouterMessage Route Msg (MemberObservation Route)).
Abbreviation step := (transition (A := A) (Route := Route) (Msg := Msg) (Sends := Sends) (R := R)
                        (Obs := MemberObservation Route) (Er := MemberEvidenceError)).
Abbreviation initial_router := (new (Route := Route) (Msg := Msg) (R := R)
                        (Obs := MemberObservation Route) (Er := MemberEvidenceError)).
Abbreviation wf := (wf (Route := Route) (Msg := Msg) (R := R)
                        (Obs := MemberObservation Route) (Er := MemberEvidenceError)).
Abbreviation vec := (vector (R := R) (Route := Route) (Msg := Msg)).
Abbreviation known := (evidence_at vec).

(** The evidence stream of one route: [None] while it is not a member, nothing
    observed when it joins, then the newest version seen. *)
Definition evidence_step (r : Route) (st : option Evidence) (m : message_of) : option Evidence :=
  match m with
  | Add r' =>
      if bool_decide (r' = r) then Some (default Unknown st) else st
  | Remove r' => if bool_decide (r' = r) then None else st
  | Route_ _ => st
  | Observe o =>
      if bool_decide (recipient o = r) then
        match st with
        | None => None
        | Some Unknown => Some (Observed (version o) (value o))
        | Some (Observed v x) =>
            if (v <? version o)%N then Some (Observed (version o) (value o)) else st
        end
      else st
  end.

(** What an observation is answered, given the stream of its recipient. *)
Definition evidence_verdict (o : MemberObservation Route) (st : option Evidence) :
  option MemberEvidenceError :=
  match st with
  | None => Some UnknownRecipient
  | Some Unknown => None
  | Some (Observed v x) =>
      if (version o <? v)%N then Some Stale
      else if bool_decide (version o = v /\ value o <> x) then Some ConflictingVersion
      else None
  end.

Lemma known_member (s : router) i r :
  NoDup (recipients s) -> recipients s !! i = Some r -> known s r = vec (strategy s) !! i.
Proof.
  intros Hu Hi. unfold evidence_at, member_index. by rewrite (position_eq_lookup _ r i).
Qed.

Lemma known_not_member (s : router) r : r ∉ recipients s -> known s r = None.
Proof.
  intros Hr. unfold evidence_at, member_index. by rewrite (proj2 (position_eq_None _ r) Hr).
Qed.

Lemma wf_evidence_is_Some s i :
  wf s -> is_Some (recipients s !! i) -> is_Some (vec (strategy s) !! i).
Proof. intros [_ Hp]. rewrite !lookup_lt_is_Some. simpl in Hp. lia. Qed.

Lemma known_add s a r r' :
  wf s -> known (step s (mkUser a (Add r'))).1 r = evidence_step r (known s r) (Add r').
Proof.
  intros Hwf. pose proof (router_wf_step (A := A) s (mkUser a (Add r')) Hwf) as [Hu' _].
  destruct Hwf as [Hu Hp]. simpl in *.
  case_bool_decide as Hin; simpl in *.
  - case_bool_decide; [subst r'|done]. apply list_elem_of_lookup in Hin as [i Hi].
    rewrite (known_member s i r) by done.
    by destruct (wf_evidence_is_Some s i) as [x ->]; [split|eauto|].
  - case_bool_decide as Hr; [subst r'|].
    + rewrite (known_not_member s r) by done.
      rewrite (known_member _ (length (recipients s))) by (simpl; auto using list_lookup_middle).
      simpl. rewrite vector_added, <- Hp. by apply list_lookup_middle.
    + destruct (decide (r ∈ recipients s)) as [[i Hi]%list_elem_of_lookup|Hn].
      * rewrite (known_member s i r), (known_member _ i r); [|done|by apply lookup_app_l_Some|done..].
        simpl. rewrite vector_added. unfold evidence_added. apply lookup_app_l.
        rewrite Hp. by apply lookup_lt_Some in Hi.
      * rewrite !known_not_member; [done|done|]. simpl.
        rewrite elem_of_app, list_elem_of_singleton. intros [?| ->]; by auto.
Qed.

Lemma known_remove s a r r' :
  wf s -> known (step s (mkUser a (Remove r'))).1 r = evidence_step r (known s r) (Remove r').
Proof.
  intros Hwf. pose proof (router_wf_step (A := A) s (mkUser a (Remove r')) Hwf) as [Hu' _].
  destruct Hwf as [Hu Hp]. simpl in *.
  destruct (position _ _) as [j|] eqn:Hj; simpl in *.
  - apply position_eq_Some in Hj. rewrite Hj in *. simpl in *.
    case_bool_decide as Hr; [subst r'|].
    + apply known_not_member. simpl. rewrite (delete_filter_ne _ r) by done.
      rewrite list_elem_of_filter. tauto.
    + destruct (decide (r ∈ recipients s)) as [[i Hi]%list_elem_of_lookup|Hn].
      * rewrite (known_member s i r) by done. destruct (Nat.lt_trichotomy i j) as [Hl|[->|Hl]].
        -- rewrite (known_member _ i); simpl; [|done|by rewrite list_lookup_delete_lt].
           rewrite vector_removed. by apply list_lookup_delete_lt.
        -- congruence.
        -- destruct i as [|i]; [lia|].
           rewrite (known_member _ i); simpl; [|done|by rewrite list_lookup_delete_ge by lia].
           rewrite vector_removed. by apply list_lookup_delete_ge; lia.
      * rewrite !known_not_member; [done|done|]. simpl. rewrite (delete_filter_ne _ r') by done.
        rewrite list_elem_of_filter. tauto.
  - case_bool_decide; [subst r'|done]. apply known_not_member. by apply position_eq_None.
Qed.

Lemma evidence_observe_lookup ev (ms : list Route) o i r :
  NoDup ms -> length ev = length ms -> ms !! i = Some r ->
  (evidence_observe ev ms o).1 !! i = evidence_step r (ev !! i) (Observe o).
Proof.
  intros Hu Hl Hi. simpl. unfold evidence_observe.
  destruct (lookup_lt_is_Some_2 ev i) as [e He]; [rewrite Hl; by eapply lookup_lt_Some|].
  case_bool_decide as Hr; [subst r|].
  - rewrite (position_eq_lookup _ _ i), He by done.
    assert (Hi' : i < length ev) by by apply lookup_lt_Some in He.
    destruct e as [|v x]; simpl; [by apply list_lookup_insert_eq|].
    destruct (N.ltb_spec (version o) v), (N.ltb_spec v (version o)),
      (N.eqb_spec (version o) v), (N.eqb_spec (value o) x); simpl; try lia; try done;
      by apply list_lookup_insert_eq.
  - destruct (position _ _) as [j|] eqn:Hj; [|done]. apply position_eq_Some in Hj.
    assert (j <> i) by (intros ->; congruence).
    repeat split_match; simpl; rewrite ?list_lookup_insert_ne; done.
Qed.

Lemma observe_step_state s a o :
  recipients (step s (mkUser a (Observe o))).1 = recipients s /\
  vec (strategy (step s (mkUser a (Observe o))).1) =
    (evidence_observe (vec (strategy s)) (recipients s) o).1.
Proof.
  pose proof (vector_observe (Msg := Msg) (strategy s) (recipients s) o) as Hv.
  pose proof (vector_outcome (Msg := Msg) (strategy s) (recipients s) o) as Ho.
  unfold transition. cbn [message].
  destruct (observe (strategy s) (recipients s) o) as [c [?|rej]]; simpl in *; [done|].
  symmetry in Ho. by apply evidence_observe_rejected in Ho as [_ ->].
Qed.

Lemma known_observe s a r o :
  wf s -> known (step s (mkUser a (Observe o))).1 r = evidence_step r (known s r) (Observe o).
Proof.
  intros [Hu Hp]. simpl in Hp. pose proof (observe_step_state s a o) as [Hrec Hstep].
  set (s' := (step s (mkUser a (Observe o))).1) in *. clearbody s'.
  destruct (decide (r ∈ recipients s)) as [[i Hi]%list_elem_of_lookup|Hn].
  - rewrite (known_member s i r), (known_member s' i r), Hstep by (rewrite ?Hrec; done).
    by apply evidence_observe_lookup with (ms := recipients s).
  - rewrite !known_not_member by (rewrite ?Hrec; done). simpl. by case_bool_decide.
Qed.

Lemma known_step s e r :
  wf s -> known (step s e).1 r = evidence_step r (known s r) (message e).
Proof.
  destruct e as [a [r'|r'|m|o]]; [apply known_add|apply known_remove| |apply known_observe].
  intros [Hu Hp]. unfold transition. cbn [message evidence_step].
  pose proof (vector_select (strategy s) (recipients s) m) as Hv.
  destruct (select (strategy s) (recipients s) m) as [c [i|]]; [|done].
  destruct (recipients s !! i); [|done]. unfold evidence_at, member_index. simpl in *.
  by rewrite Hv.
Qed.

Lemma known_verdict s a o :
  wf s ->
  (step s (mkUser a (Observe o))).2 =
    match evidence_verdict o (known s (recipient o)) with
    | Some why => Err (Policy o why)
    | None => Ok cont
    end.
Proof.
  intros [Hu Hp]. simpl in Hp.
  pose proof (vector_outcome (Msg := Msg) (strategy s) (recipients s) o) as Ho.
  unfold transition. cbn [message].
  destruct (observe (strategy s) (recipients s) o) as [c out]. simpl in Ho. subst out.
  unfold evidence_observe, evidence_at, member_index.
  destruct (position _ (recipients s)) as [i|] eqn:Hi; simpl; [|done].
  destruct (vec (strategy s) !! i) as [[|v x]|]; simpl; [done| |done].
  destruct (N.ltb_spec (version o) v); [done|].
  case_bool_decide; destruct (N.eqb_spec (version o) v), (N.eqb_spec (value o) x); simpl;
    solve [done|tauto|naive_solver].
Qed.

Lemma known_new initial s0 r :
  vec s0 = [] ->
  known (initial_router initial s0) r = if bool_decide (r ∈ initial) then Some Unknown else None.
Proof.
  intros H0. pose proof (router_new_wf (Msg := Msg) initial s0) as [Hu Hp]; [simpl; by rewrite H0|].
  assert (Hv : forall l s, vec (fold_left (added (Msg := Msg)) l s) =
                           vec s ++ replicate (length l) Unknown).
  { induction l as [|x l IH]; intros s; simpl; [by rewrite app_nil_r|].
    rewrite IH, vector_added. unfold evidence_added. by rewrite <- app_assoc. }
  pose proof (elem_of_push_all r initial []) as Hm. rewrite elem_of_nil in Hm.
  case_bool_decide as Hr.
  - assert (r ∈ recipients (initial_router initial s0)) as [i Hi]%list_elem_of_lookup by (simpl; tauto).
    rewrite (known_member _ i) by done. simpl. rewrite Hv, H0. simpl.
    apply lookup_replicate. split; [done|]. by apply lookup_lt_Some in Hi.
  - apply known_not_member. simpl. tauto.
Qed.

(** The evidence vectors implement one versioned stream per member.  For the
    three evidence policies ([LeastLoaded], [ConsistentHash], [RendezvousHash]),
    after any messages the evidence reported for a route is the fold of its own
    stream: absent while the route is not a member, [Unknown] from the moment it
    joins (a rejoining member starts again), then the newest version observed,
    whatever happened to other members.  The next observation is accepted or
    refused as unknown, stale or conflicting exactly by that stream. *)
Theorem evidence_refines_streams initial s0 es a o :
  vec s0 = [] ->
  let s := (trace step (initial_router initial s0) es).1 in
  (forall r, known s r =
     fold_left (evidence_step r) (message <$> es)
       (if bool_decide (r ∈ initial) then Some Unknown else None)) /\
  (step s (mkUser a (Observe o))).2 =
    match evidence_verdict o (known s (recipient o)) with
    | Some why => Err (Policy o why)
    | None => Ok cont
    end.
Proof.
  intros H0 s. assert (Hn : wf (initial_router initial s0)).
  { apply router_new_wf. simpl. by rewrite H0. }
  split; [intros r|apply known_verdict, (trace_invariant wf step router_wf_step), Hn].
  rewrite <- (known_new initial s0 r H0). subst s. clear H0. revert Hn.
  generalize (initial_router initial s0) as s. clear initial s0.
  induction es as [|e es IH]; intros s Hs; [done|].
  cbn [trace]. pose proof (router_wf_step s e Hs) as Hs'.
  pose proof (known_step s e r Hs) as Hk.
  destruct (step s e) as [s1 out]. cbn [fst] in *. specialize (IH s1 Hs').
  destruct (trace step s1 es). cbn [fst] in *. rewrite IH, Hk. done.
Qed.

End Evidence.

(** ** Selection as a minimum over the members

    A policy is ranked when it selects the member whose evidence ranks least, the
    earlier member on a tie.  This is the reference definition; the source scans
    loads, ring points or scores. *)

Class RankedPolicy (R Route Msg K : Type) `{!EqDecision Route}
  `{!RoutingStrategy R Route Msg (MemberObservation Route) MemberEvidenceError}
  `{!EvidencePolicy R Route Msg} := {
  ranked : R -> Prop;
  rank_compare : K -> K -> comparison;
  rank : R -> Msg -> N -> K;
  rank_Ordered :: Ordered rank_compare;
  rank_Antisymmetric :: Antisymmetric rank_compare;
  ranked_select s ms m :
    ranked s ->
    (select s ms m).2 =
      fst <$> min_by_key (pair_compare rank_compare Nat.compare)
                (fun '(i, x) => (rank s m x, i)) (observed_entries (vector s) (length ms));
  ranked_pure s ms m : (select s ms m).1 = s;
  ranked_observe s ms o :
    ranked s -> ranked (observe (Msg := Msg) s ms o).1 /\
    rank (observe (Msg := Msg) s ms o).1 = rank s;
  ranked_added s r :
    ranked s -> ranked (added (Msg := Msg) s r) /\ rank (added (Msg := Msg) s r) = rank s;
  ranked_removed s i r n :
    ranked s -> ranked (removed (Msg := Msg) s i r n) /\
    rank (removed (Msg := Msg) s i r n) = rank s
}.

(** The entries of an evidence vector have distinct positions. *)
Lemma entries_rank_inj {K} (f : N -> K) ev n y z :
  y ∈ observed_entries ev n -> z ∈ observed_entries ev n ->
  (let '(i, x) := y in (f x, i)) = (let '(i, x) := z in (f x, i)) -> y = z.
Proof.
  destruct y as [i x], z as [j x'].
  intros [_ [v Hv]]%elem_of_observed_entries [_ [v' Hv']]%elem_of_observed_entries [= _ ->].
  congruence.
Qed.

(** Least loads. *)
#[export] Program Instance LeastLoaded_RankedPolicy Route Msg `{!EqDecision Route} :
  RankedPolicy LeastLoaded Route Msg N := {
  ranked _ := True;
  rank_compare := N.compare;
  rank _ _ load := load
}.
Next Obligation. done. Qed.
Next Obligation. done. Qed.
Next Obligation. done. Qed.
Next Obligation. done. Qed.
Next Obligation. done. Qed.

(** The first clockwise point of one member: the least of its own points. *)
Definition point_rank (key p : N) : bool * N := ((p <? key)%N, p).

Definition member_points (count : nat) (token : N) : list N :=
  (fun replica => mixed_hash token (N.of_nat replica)) <$> seq 0 count.

Definition ring_rank (count : nat) (key token : N) : bool * N :=
  default (true, 0%N)
    (point_rank key <$>
       min_by_key (pair_compare bool_compare N.compare) (point_rank key) (member_points count token)).

Lemma ring_rank_least count key token :
  0 < count ->
  (exists p, p ∈ member_points count token /\ ring_rank count key token = point_rank key p) /\
  (forall p, p ∈ member_points count token ->
     pair_compare bool_compare N.compare (ring_rank count key token) (point_rank key p) <> Gt).
Proof.
  intros Hc. unfold ring_rank. destruct (min_by_key _ _ _) as [p|] eqn:Hm.
  - apply min_by_key_Some in Hm as [Hin Hle]; [|apply _]. simpl. eauto.
  - apply min_by_key_None in Hm. by destruct count; [lia|].
Qed.

(** The ring scan of the source is the reference minimum over the members. *)
Lemma consistent_select_ranked {Route Msg K} `{!EqDecision Route, !RouteKey Msg K}
  (s : ConsistentHash K) (ms : list Route) (m : Msg) :
  0 < replicas s ->
  (consistent_select s ms m).2 =
    fst <$> min_by_key (pair_compare (pair_compare bool_compare N.compare) Nat.compare)
              (fun '(i, x) => (ring_rank (replicas s) (hash_key s (route_key m)) x, i))
              (observed_entries (evidence (membership s)) (length ms)).
Proof.
  intros Hc. simpl. set (key := hash_key s (route_key m)).
  destruct (min_by_key _ _ (ring_points s (length ms))) as [[p i]|] eqn:Hm; simpl.
  - apply min_by_key_Some in Hm as [Hin Hle]; [|apply _].
    apply elem_of_ring_points in Hin as (t & k & Ht & Hk & ->).
    assert (Hown : forall j u q, (j, u) ∈ tokens (membership s) (length ms) ->
              q ∈ member_points (replicas s) u -> (q, j) ∈ ring_points s (length ms)).
    { intros j u q Hj (k' & -> & Hk'%elem_of_seq)%list_elem_of_fmap.
      apply elem_of_ring_points. exists u, k'. split_and!; [done|lia|done]. }
    assert (Hp : mixed_hash t (N.of_nat k) ∈ member_points (replicas s) t).
    { apply list_elem_of_fmap. exists k. split; [done|]. apply elem_of_seq. lia. }
    set (p := mixed_hash t (N.of_nat k)) in *.
    destruct (ring_rank_least (replicas s) key t Hc) as [(p0 & Hp0 & Hr0) Hmin].
    assert (Hrank : ring_rank (replicas s) key t = point_rank key p).
    { apply (cmp_eq (cmp := pair_compare bool_compare N.compare)).
      specialize (Hmin p Hp). specialize (Hle (p0, i) (Hown _ _ _ Ht Hp0)).
      rewrite Hr0 in *. unfold pair_compare, point_rank in *. simpl in *.
      rewrite Nat.compare_refl in Hle.
      rewrite (cmp_flip bool_compare (p <? key)%N), (cmp_flip N.compare p p0) in *.
      destruct (bool_compare (p <? key)%N (p0 <? key)%N), (p ?= p0)%N; simpl in *; done. }
    symmetry. apply fmap_Some. exists (i, t). split; [|done].
    apply (min_by_key_unique _ _); [apply entries_rank_inj|]. split; [done|].
    intros [j u] Hj. rewrite Hrank.
    destruct (ring_rank_least (replicas s) key u Hc) as [(q & Hq & ->) _].
    specialize (Hle (q, j) (Hown _ _ _ Hj Hq)). unfold pair_compare, point_rank in *. simpl in *.
    by destruct (bool_compare _ _), (p ?= q)%N.
  - apply min_by_key_None in Hm. destruct (observed_entries _ _) as [|[j u] l] eqn:He; [done|].
    assert (Hin : (mixed_hash u (N.of_nat 0), j) ∈ ring_points s (length ms)).
    { apply elem_of_ring_points. exists u, 0. split_and!; [|done|done].
      unfold tokens. rewrite He. left. }
    rewrite Hm in Hin. by apply not_elem_of_nil in Hin.
Qed.

#[export] Program Instance ConsistentHash_RankedPolicy Route Msg K
  `{!EqDecision Route, !RouteKey Msg K} :
  RankedPolicy (ConsistentHash K) Route Msg (bool * N) := {
  ranked s := 0 < replicas s;
  rank_compare := pair_compare bool_compare N.compare;
  rank s m := ring_rank (replicas s) (hash_key s (route_key m))
}.
Next Obligation. intros. by apply consistent_select_ranked. Qed.
Next Obligation. done. Qed.
Next Obligation. intros. simpl. unfold consistent_observe. by destruct (membership_observe _ _ _). Qed.
Next Obligation. done. Qed.
Next Obligation. done. Qed.

Lemma min_by_key_fmap {X Y K} (cmp : K -> K -> comparison) (key : Y -> K) (f : X -> Y) l :
  min_by_key cmp key (f <$> l) = f <$> min_by_key cmp (fun x => key (f x)) l.
Proof.
  destruct l as [|x l]; [done|]. simpl. f_equal. revert x.
  induction l as [|y l IH]; intros x; simpl; [done|].
  rewrite <- IH. by destruct (cmp (key (f x)) (key (f y))).
Qed.

#[export] Program Instance RendezvousHash_RankedPolicy Route Msg K
  `{!EqDecision Route, !RouteKey Msg K} :
  RankedPolicy (RendezvousHash K) Route Msg N := {
  ranked _ := True;
  rank_compare := N_compare_rev;
  rank s m token := mixed_hash (rendezvous_hash_key s (route_key m)) token
}.
Next Obligation.
  intros Route Msg K ?? s ms m _. simpl.
  rewrite (max_by_min_by_key _ (pair_compare N_compare_rev Nat.compare) (fun x => x)).
  - rewrite min_by_key_fmap, <- option_fmap_compose. unfold tokens.
    transitivity (fst <$> min_by_key (pair_compare N_compare_rev Nat.compare)
      (fun x => let '(index, token) := x in
         (mixed_hash (rendezvous_hash_key s (route_key m)) token, index))
      (observed_entries (evidence (rendezvous_membership s)) (length ms))).
    + destruct (min_by_key _ _ _) as [[]|]; done.
    + done.
  - done.
  - intros [x i] [y j] _ _. unfold score_compare. simpl.
    destruct (N.compare x y) eqn:E; simpl; [|done..].
    apply N.compare_eq in E as ->. by intros ->%Nat.compare_eq.
  - apply _.
Qed.
Next Obligation. done. Qed.
Next Obligation. intros. simpl. unfold rendezvous_observe. by destruct (membership_observe _ _ _). Qed.
Next Obligation. done. Qed.
Next Obligation. done. Qed.

Section Ranked.
  Context {A Route Msg Sends R K : Type}.
  Context `{!EqDecision Route, !SendEffects Sends, !DeliveryRoute Route Msg Sends}.
  Context `{!RoutingStrategy R Route Msg (MemberObservation Route) MemberEvidenceError}.
  Context `{!EvidencePolicy R Route Msg, !RankedPolicy R Route Msg K}.

Abbreviation router := (Router Route R).
Abbreviation event := (User A (RouterMessage Route Msg (MemberObservation Route))).
Abbreviation step := (transition (A := A) (Route := Route) (Msg := Msg) (Sends := Sends) (R := R)
                        (Obs := MemberObservation Route) (Er := MemberEvidenceError)).
Abbreviation initial_router := (new (Route := Route) (Msg := Msg) (R := R)
                        (Obs := MemberObservation Route) (Er := MemberEvidenceError)).
Abbreviation wf := (wf (Route := Route) (Msg := Msg) (R := R)
                        (Obs := MemberObservation Route) (Er := MemberEvidenceError)).
Abbreviation vec := (vector (R := R) (Route := Route) (Msg := Msg)).
Abbreviation known := (evidence_at vec).
Abbreviation ranked := (ranked (R := R) (Route := Route) (Msg := Msg)).
Abbreviation rank := (rank (R := R) (Route := Route) (Msg := Msg)).
Abbreviation lex := (pair_compare (rank_compare (R := R) (Route := Route) (Msg := Msg)) Nat.compare).

(** [r] is the member that ranks least, with the evidence and position it has. *)
Definition best (s : router) (m : Msg) (r : Route) : Prop :=
  exists i v x, recipients s !! i = Some r /\ vec (strategy s) !! i = Some (Observed v x) /\
    forall j w y, vec (strategy s) !! j = Some (Observed w y) ->
      lex (rank (strategy s) m x, i) (rank (strategy s) m y, j) <> Gt.

Lemma routed_best s m r : wf s -> ranked (strategy s) -> routed s m = Some r <-> best s m r.
Proof.
  intros [Hu Hp] Hr. simpl in Hp. unfold routed. rewrite (ranked_select _ _ m Hr).
  assert (Hent : forall i x, (i, x) ∈ observed_entries (vec (strategy s)) (length (recipients s)) <->
            exists v, vec (strategy s) !! i = Some (Observed v x)).
  { intros i x. rewrite elem_of_observed_entries. split; [tauto|]. intros [v Hv]. split; [|eauto].
    rewrite <- Hp. by apply lookup_lt_Some in Hv. }
  split.
  - intros (i & ([i' x] & Hm & ->)%fmap_Some & Hi)%bind_Some. simpl in *.
    apply min_by_key_Some in Hm as [[v Hin]%Hent Hle]; [|apply _].
    exists i', v, x. split_and!; [done|done|]. intros j w y Hj.
    apply (Hle (j, y)). apply Hent. eauto.
  - intros (i & v & x & Hi & Hv & Hle). apply bind_Some. exists i. split; [|done].
    apply fmap_Some. exists (i, x). split; [|done].
    apply (min_by_key_unique lex); [apply _|apply _|apply entries_rank_inj|]. split; [apply Hent; eauto|].
    intros [j y] [w Hj]%Hent. eauto.
Qed.

Lemma routed_none s m :
  wf s -> ranked (strategy s) ->
  routed s m = None <-> forall r v x, known s r <> Some (Observed v x).
Proof.
  intros Hwf Hr. split.
  - intros Hn r v x Hk. unfold evidence_at, member_index in Hk.
    apply bind_Some in Hk as (i & Hi%position_eq_Some & Hv). destruct Hwf as [Hu Hp].
    unfold routed in Hn. rewrite (ranked_select _ _ m Hr) in Hn.
    assert (Hin : (i, x) ∈ observed_entries (vec (strategy s)) (length (recipients s))).
    { apply elem_of_observed_entries. split; [by apply lookup_lt_Some in Hi|eauto]. }
    destruct (min_by_key _ _ _) as [[j y]|] eqn:Hm; simpl in Hn.
    + apply min_by_key_Some in Hm as [[Hj _]%elem_of_observed_entries _]; [|apply _].
      apply lookup_lt_is_Some in Hj as [r' Hj]. congruence.
    + apply min_by_key_None in Hm. rewrite Hm in Hin. by apply not_elem_of_nil in Hin.
  - intros Hk. destruct (routed s m) as [r|] eqn:Hrt; [|done].
    apply routed_best in Hrt as (i & v & x & Hi & Hv & _); [|done..].
    destruct (Hk r v x). destruct Hwf. by rewrite (known_member s i r).
Qed.

Lemma ranked_step s e : ranked (strategy s) ->
  ranked (strategy (step s e).1) /\ rank (strategy (step s e).1) = rank (strategy s).
Proof.
  intros Hr. unfold transition. destruct (message e) as [r|r|m|o]; simpl.
  - case_bool_decide; [done|]. by apply ranked_added.
  - destruct (position _ _); [by apply ranked_removed|done].
  - pose proof (ranked_pure (strategy s) (recipients s) m) as Hp.
    destruct (select (strategy s) (recipients s) m) as [c [i|]]; simpl in *; [|done].
    by destruct (recipients s !! i); simpl; rewrite ?Hp.
  - pose proof (ranked_observe (Msg := Msg) (strategy s) (recipients s) o Hr) as Ho.
    by destruct (observe (strategy s) (recipients s) o) as [c [?|?]].
Qed.

(** The order on (rank, position) only depends on the order of the positions. *)
Lemma lex_reindex a b i j i' j' :
  (i <= j -> i' <= j') -> lex (a, i) (b, j) <> Gt -> lex (a, i') (b, j') <> Gt.
Proof.
  intros Hij. unfold pair_compare. simpl.
  destruct (rank_compare a b); simpl; [|done..]. rewrite !Nat.compare_le_iff. done.
Qed.

(** The member that a message is about. *)
Definition subject (e : event) : option Route :=
  match message e with
  | Add r | Remove r => Some r
  | Observe o => Some (recipient o)
  | Route_ _ => None
  end.

Lemma best_add s a m r r' :
  ranked (strategy s) -> best s m r -> best (step s (mkUser a (Add r'))).1 m r.
Proof.
  intros Hr (i & v & x & Hi & Hv & Hle).
  pose proof (ranked_added (Msg := Msg) (strategy s) r' Hr) as [_ Hrank].
  unfold transition. simpl. case_bool_decide; simpl; [by exists i, v, x|].
  exists i, v, x. simpl. rewrite vector_added, Hrank. unfold evidence_added.
  split_and!; [by apply lookup_app_l_Some..|].
  intros j w y [Hj|[_ Hj]]%lookup_app_Some; [eauto|].
  apply list_lookup_singleton_Some in Hj as [_ Hj]. done.
Qed.

Lemma best_remove s a m r r' :
  wf s -> ranked (strategy s) -> r' <> r -> best s m r -> best (step s (mkUser a (Remove r'))).1 m r.
Proof.
  intros [Hu Hp] Hr Hne (i & v & x & Hi & Hv & Hle). unfold transition. simpl.
  destruct (position _ _) as [k|] eqn:Hk; simpl; [|by exists i, v, x].
  apply position_eq_Some in Hk. assert (Hik : i <> k) by congruence.
  destruct (ranked_removed (Msg := Msg) (strategy s) k (default r' (recipients s !! k))
             (length (base.delete k (recipients s))) Hr) as [_ Hrank].
  set (shift := fun j => if decide (j < k) then j else S j).
  assert (Hdel : forall X (l : list X) j, base.delete k l !! j = l !! shift j).
  { intros X l j. unfold shift. case_decide; [by apply list_lookup_delete_lt|].
    apply list_lookup_delete_ge. lia. }
  assert (exists i', shift i' = i) as [i' <-].
  { exists (if decide (i < k) then i else i - 1). unfold shift. repeat case_decide; lia. }
  exists i', v, x. simpl. rewrite vector_removed, Hrank. unfold evidence_removed.
  rewrite !Hdel. split_and!; [done|done|]. intros j w y Hj. rewrite Hdel in Hj.
  eapply lex_reindex; [|by eapply Hle]. unfold shift. repeat case_decide; lia.
Qed.

(** An observation either leaves the best member best, or makes its recipient
    the best. *)
Lemma best_observe s a m r o :
  ranked (strategy s) -> recipient o <> r -> best s m r ->
  let s' := (step s (mkUser a (Observe o))).1 in best s' m r \/ best s' m (recipient o).
Proof.
  intros Hr Hne (i & v & x & Hi & Hv & Hle) s'.
  destruct (observe_step_state (A := A) (Sends := Sends) s a o) as [Hrec Hvec].
  destruct (ranked_step s (mkUser a (Observe o)) Hr) as [_ Hrank].
  fold s' in Hrec, Hvec, Hrank. unfold best. rewrite Hrec, Hvec, Hrank.
  assert (Hcase : (evidence_observe (vec (strategy s)) (recipients s) o).1 = vec (strategy s) \/
     exists k, recipients s !! k = Some (recipient o) /\ is_Some (vec (strategy s) !! k) /\
       (evidence_observe (vec (strategy s)) (recipients s) o).1 =
         <[k := Observed (version o) (value o)]> (vec (strategy s))).
  { unfold evidence_observe. destruct (position _ _) as [k|] eqn:Hk; [|by left].
    apply position_eq_Some in Hk.
    destruct (vec (strategy s) !! k) as [e|] eqn:He; [|by left].
    repeat split_match; simpl; solve [by left | right; exists k; eauto]. }
  destruct Hcase as [-> | (k & Hk & Hs & ->)]; [left; by exists i, v, x|].
  assert (Hik : k <> i) by congruence. apply lookup_lt_is_Some in Hs.
  destruct (decide (lex (rank (strategy s) m x, i) (rank (strategy s) m (value o), k) = Gt)) as [Hgt|Hle'].
  - right. exists k, (version o), (value o).
    split_and!; [done|by apply list_lookup_insert_eq|]. intros j w y Hj.
    assert (Hko : lex (rank (strategy s) m (value o), k) (rank (strategy s) m x, i) <> Gt).
    { rewrite (cmp_flip lex (rank (strategy s) m x, i)), Hgt. done. }
    destruct (decide (k = j)) as [<-|Hkj].
    + rewrite list_lookup_insert_eq in Hj by done. simplify_eq. by rewrite (cmp_refl lex).
    + rewrite list_lookup_insert_ne in Hj by done. by eapply (cmp_le_trans lex), Hle.
  - left. exists i, v, x. split_and!; [done|by rewrite list_lookup_insert_ne|].
    intros j w y Hj. destruct (decide (k = j)) as [<-|Hkj].
    + rewrite list_lookup_insert_eq in Hj by done. by simplify_eq.
    + rewrite list_lookup_insert_ne in Hj by done. eauto.
Qed.

Lemma best_route s a m m' r :
  best s m r -> best (step s (mkUser a (Route_ m'))).1 m r.
Proof.
  intros Hb. unfold transition. cbn [message].
  pose proof (ranked_pure (strategy s) (recipients s) m') as Hp.
  destruct (select (strategy s) (recipients s) m') as [c [i|]]; simpl in *; [|done].
  rewrite Hp. by destruct (recipients s !! i); [destruct s|].
Qed.

Definition good (s : router) : Prop := wf s /\ ranked (strategy s).

Lemma good_step s e : good s -> good (step s e).1.
Proof. intros [Hw Hr]. split; [by apply router_wf_step|by apply ranked_step]. Qed.

Lemma good_new initial s0 : vec s0 = [] -> ranked s0 -> good (initial_router initial s0).
Proof.
  intros H0 Hr. split; [apply router_new_wf; simpl; by rewrite H0|]. simpl.
  clear H0. generalize (fold_left push_unique initial []) as l. intros l. revert s0 Hr.
  induction l as [|r l IH]; intros s0 Hr; simpl; [done|]. by apply IH, ranked_added.
Qed.

Lemma good_reachable initial s0 es :
  vec s0 = [] -> ranked s0 -> good (trace step (initial_router initial s0) es).1.
Proof. intros. by apply (trace_invariant good step good_step), good_new. Qed.

(** C38.  The policies select what their documentation names.  After any messages,
    a routed message goes to the member that is [best]: among the members with
    evidence, the one whose rank is least, the earlier member on a tie.  The rank
    is the load itself for [LeastLoaded], the first point of the member clockwise
    from the key for [ConsistentHash] (with at least one replica), and the greatest
    score for [RendezvousHash]; the source finds it by one scan over loads, over
    all virtual points, or over scores.  Nobody is eligible exactly when no member
    has evidence, and routing changes nothing in the router. *)
Theorem policies_select_reference initial s0 es a m :
  vec s0 = [] -> ranked s0 ->
  let s := (trace step (initial_router initial s0) es).1 in
  let '(s', outcome) := step s (mkUser a (Route_ m)) in
  s' = s /\
  match outcome with
  | Ok actions => exists r, best s m r /\ actions = send (deliver r m)
  | Err e => e = NoEligibleRecipients m /\ forall r v x, known s r <> Some (Observed v x)
  end.
Proof.
  intros H0 Hr s. assert (good s) as [Hw Hs] by by apply good_reachable.
  pose proof (routed_none s m Hw Hs) as Hnone.
  pose proof (fun r => routed_best s m r Hw Hs) as Hbest.
  pose proof (ranked_pure (strategy s) (recipients s) m) as Hp.
  pose proof (select_member s m) as Hm. unfold routed in *. unfold transition. cbn [message].
  destruct (select (strategy s) (recipients s) m) as [c [i|]]; simpl in *; [|by naive_solver].
  destruct (Hm i Hw eq_refl) as [r Hi]. rewrite Hi in *. subst c.
  split; [by destruct s|]. exists r. split; [by apply Hbest|done].
Qed.

(** Minimal disruption.  If a message with this key goes to [r], then after
    any one message that is not about [r] (another member joins, leaves or reports
    evidence, or something else is routed) it still goes to [r], or it moves to the
    very member that has just reported evidence.  In particular removing a member
    moves only the keys it held, and adding one moves keys only to it. *)
Theorem minimal_disruption initial s0 es e m r :
  vec s0 = [] -> ranked s0 ->
  let s := (trace step (initial_router initial s0) es).1 in
  routed s m = Some r -> subject e <> Some r ->
  routed (step s e).1 m = Some r \/
  exists o, message e = Observe o /\ routed (step s e).1 m = Some (recipient o).
Proof.
  intros H0 Hr s Hrt Hsub. assert (good s) as [Hw Hs] by by apply good_reachable.
  destruct (good_step s e (conj Hw Hs)) as [Hw' Hs'].
  apply routed_best in Hrt; [|done..]. rewrite routed_best by done.
  destruct e as [a [r'|r'|m'|o]]; simpl in Hsub.
  - left. by apply best_add.
  - left. apply best_remove; auto. by intros <-; apply Hsub.
  - left. by apply best_route.
  - destruct (best_observe s a m r o Hs) as [Hb|Hb]; [by intros <-; apply Hsub|done|by left|].
    right. exists o. split; [done|]. by apply routed_best.
Qed.

End Ranked.

(** ** Concrete instances *)

#[export] Instance demo_route_key : RouteKey N N := fun m => m.

Definition demo_messages : list (User unit (RouterMessage (Recipient nat) N (MemberObservation (Recipient nat)))) :=
  [mkUser tt (Observe (mkMemberObservation (mkRecipient 1) 5 17));
   mkUser tt (Observe (mkMemberObservation (mkRecipient 2) 1 99));
   mkUser tt (Observe (mkMemberObservation (mkRecipient 1) 4 3));
   mkUser tt (Add (mkRecipient 3));
   mkUser tt (Route_ 1234%N)].

Abbreviation demo_step R :=
  (transition (A := unit) (Route := Recipient nat) (Msg := N)
     (Sends := list (Delivery nat N)) (R := R)
     (Obs := MemberObservation (Recipient nat)) (Er := MemberEvidenceError)).

Abbreviation demo_new R :=
  (new (Route := Recipient nat) (Msg := N) (R := R)
     (Obs := MemberObservation (Recipient nat)) (Er := MemberEvidenceError)).

Definition demo_router : Router (Recipient nat) (ConsistentHash N) :=
  (trace (demo_step (ConsistentHash N))
     (demo_new (ConsistentHash N) [mkRecipient 1; mkRecipient 2; mkRecipient 1]
        (ConsistentHash_new 4 (fun k => k))) demo_messages).1.

Definition demo_least_loaded : Router (Recipient nat) LeastLoaded :=
  (trace (demo_step LeastLoaded)
     (demo_new LeastLoaded [mkRecipient 1; mkRecipient 2; mkRecipient 1] LeastLoaded_new)
     demo_messages).1.

Lemma router_membership_invariant_witness :
  recipients demo_least_loaded = [mkRecipient 1; mkRecipient 2; mkRecipient 3].
Proof.
  assert (H : strategy_wf (Route := Recipient nat) (Msg := N) [] LeastLoaded_new) by reflexivity.
  exact (proj1 (router_membership_invariant (A := unit) (Sends := list (Delivery nat N))
                  [mkRecipient 1; mkRecipient 2; mkRecipient 1] LeastLoaded_new demo_messages
                  (mkUser tt (Add (mkRecipient 9))) H)).
Defined.

Lemma evidence_refines_streams_witness :
  load_evidence demo_least_loaded (mkRecipient 1) = Some (Observed 5 17).
Proof.
  exact (proj1 (evidence_refines_streams (A := unit) (Msg := N) (Sends := list (Delivery nat N))
                  [mkRecipient 1; mkRecipient 2; mkRecipient 1] LeastLoaded_new demo_messages tt
                  (mkMemberObservation (mkRecipient 1) 0 0) eq_refl) (mkRecipient 1)).
Defined.

Lemma policies_select_reference_witness :
  routed demo_router 77%N = Some (mkRecipient 1) /\
  let '(s', outcome) := demo_step (ConsistentHash N) demo_router (mkUser tt (Route_ 77%N)) in
  s' = demo_router /\
  match outcome with
  | Ok actions =>
      exists r, best (Msg := N) demo_router 77%N r /\ actions = send (deliver r 77%N)
  | Err e => e = NoEligibleRecipients 77%N /\
      forall r v x, consistent_token_evidence demo_router r <> Some (Observed v x)
  end.
Proof.
  split; [vm_compute; reflexivity|].
  exact (policies_select_reference (A := unit) (Msg := N) (Sends := list (Delivery nat N))
           [mkRecipient 1; mkRecipient 2; mkRecipient 1]
           (ConsistentHash_new 4 (fun k => k)) demo_messages tt 77%N eq_refl (Nat.lt_0_succ 3)).
Defined.

Lemma minimal_disruption_witness :
  routed demo_router 77%N = Some (mkRecipient 1) /\
  (let s' := (demo_step (ConsistentHash N) demo_router (mkUser tt (Remove (mkRecipient 2)))).1 in
   routed s' 77%N = Some (mkRecipient 1) \/
   exists o : MemberObservation (Recipient nat),
     Remove (Msg := N) (Obs := MemberObservation (Recipient nat)) (mkRecipient 2) = Observe o /\
     routed s' 77%N = Some (recipient o)).
Proof.
  split; [vm_compute; reflexivity|].
  exact (minimal_disruption (A := unit) (Msg := N) (Sends := list (Delivery nat N))
           [mkRecipient 1; mkRecipient 2; mkRecipient 1]
           (ConsistentHash_new 4 (fun k => k)) demo_messages
           (mkUser tt (Remove (mkRecipient 2))) 77%N (mkRecipient 1) eq_refl
           (Nat.lt_0_succ 3) ltac:(vm_compute; reflexivity) ltac:(discriminate)).
Defined.
