(* ===== verification/Registry.v ===== *)
(** * The registry ([crates/actors/src/discovery/registry.rs])

    Typed recipient bindings and lookup replies over an insertion-ordered vector;
    it refines a finite map from keys to recipients. *)

From stdpp Require Import base list option numbers gmap.
From S2P Require Import Prelude Effects.

Inductive RegistryResult (K A : Type) : Type :=
| Found (key : K) (recipient : Recipient A)
| Missing (key : K).
Arguments Found {K A} _ _.
Arguments Missing {K A} _.

Inductive RegistryMessage (K A Route : Type) : Type :=
| Bind (key : K) (recipient : Recipient A)
| Unbind (key : K) (recipient : Recipient A)
| Lookup (key : K) (reply_to : Route).
Arguments Bind {K A Route} _ _.
Arguments Unbind {K A Route} _ _.
Arguments Lookup {K A Route} _ _.

Inductive RegistryError (K A : Type) : Type :=
| AlreadyBound (key : K) (recipient current : Recipient A)
| NotBound (key : K) (recipient : Recipient A)
| StaleBinding (key : K) (recipient current : Recipient A).
Arguments AlreadyBound {K A} _ _ _.
Arguments NotBound {K A} _ _.
Arguments StaleBinding {K A} _ _ _.

Record Registry (K A : Type) := mkRegistry { bindings : list (K * Recipient A) }.
Arguments mkRegistry {K A} _.
Arguments bindings {K A} _.

Section Registry.
  Context {K A Route Sends : Type} `{!EqDecision K, !EqDecision A}.
  Context `{!SendEffects Sends, !DeliveryRoute Route (RegistryResult K A) Sends}.

Abbreviation registry := (Registry K A).
Abbreviation registry_acted := (Acted Never Never Sends (RegistryError K A)).

Definition new : registry := mkRegistry [].

Definition find_binding (l : list (K * Recipient A)) (k : K) : option (K * Recipient A) :=
  List.find (fun b => bool_decide (b.1 = k)) l.

Definition transition (s : registry) (event : User A (RegistryMessage K A Route)) :
  registry * registry_acted :=
  match message event with
  | Bind k r =>
      match find_binding (bindings s) k with
      | Some (_, current) => (s, Err (AlreadyBound k r current))
      | None => (mkRegistry (bindings s ++ [(k, r)]), Ok cont)
      end
  | Unbind k r =>
      match position (fun b => bool_decide (b.1 = k)) (bindings s) with
      | None => (s, Err (NotBound k r))
      | Some index =>
          match bindings s !! index with
          | None => (s, Err (NotBound k r))
          | Some (_, current) =>
              if bool_decide (current = r) then
                (mkRegistry (base.delete index (bindings s)), Ok cont)
              else (s, Err (StaleBinding k r current))
          end
      end
  | Lookup k reply_to =>
      let result :=
        match find_binding (bindings s) k with
        | None => Missing k
        | Some (_, r) => Found k r
        end in
      (s, Ok (send (deliver reply_to result)))
  end.

End Registry.

(** The specification: a finite map from keys to recipients. *)
Section Spec.
  Context {K A Route Sends : Type} `{!EqDecision K, !Countable K, !EqDecision A}.
  Context `{!SendEffects Sends, !DeliveryRoute Route (RegistryResult K A) Sends}.

Definition spec_step (m : gmap K (Recipient A)) (event : User A (RegistryMessage K A Route)) :
  gmap K (Recipient A) * Acted Never Never Sends (RegistryError K A) :=
  match message event with
  | Bind k r =>
      match m !! k with
      | Some current => (m, Err (AlreadyBound k r current))
      | None => (<[k := r]> m, Ok cont)
      end
  | Unbind k r =>
      match m !! k with
      | None => (m, Err (NotBound k r))
      | Some current =>
          if bool_decide (current = r) then (delete k m, Ok cont)
          else (m, Err (StaleBinding k r current))
      end
  | Lookup k reply_to =>
      (m, Ok (send (deliver reply_to
                      match m !! k with Some r => Found k r | None => Missing k end)))
  end.

(** Distinct keys, and the map they denote. *)
Record simulates (s : Registry K A) (m : gmap K (Recipient A)) : Prop := {
  sim_keys : NoDup (bindings s).*1;
  sim_map : list_to_map (bindings s) = m
}.

Lemma find_binding_map (l : list (K * Recipient A)) k :
  find_binding l k = (fun r => (k, r)) <$> (list_to_map l : gmap K (Recipient A)) !! k.
Proof.
  induction l as [|[k' r] l IH]; simpl; [by rewrite lookup_empty|].
  case_bool_decide; simpl in *; subst.
  - by rewrite lookup_insert_eq.
  - by rewrite lookup_insert_ne.
Qed.

Lemma delete_binding_map (l : list (K * Recipient A)) k i r :
  NoDup l.*1 -> l !! i = Some (k, r) ->
  list_to_map (base.delete i l) =@{gmap K (Recipient A)} delete k (list_to_map l).
Proof.
  revert i. induction l as [|[k' r'] l IH]; intros i; [done|].
  intros [Hk Hl]%list.NoDup_cons Hi. destruct i as [|i]; simplify_eq/=.
  - rewrite delete_insert_id; [done|]. by apply not_elem_of_list_to_map_1.
  - rewrite (IH i) by done. rewrite delete_insert_ne; [done|]. intros ->.
    apply Hk, list_elem_of_fmap. exists (k', r). split; [done|]. by eapply list_elem_of_lookup_2.
Qed.

Lemma registry_step_simulates s m e :
  simulates s m ->
  (transition (Sends := Sends) s e).2 = (spec_step m e).2 /\
  simulates (transition (Sends := Sends) s e).1 (spec_step m e).1.
Proof.
  intros [Hn <-]. unfold transition, spec_step. destruct (message e) as [k r|k r|k reply].
  - rewrite find_binding_map. destruct (list_to_map (bindings s) !! k) as [c|] eqn:Hk; simpl;
      (split; [done|]); split; simpl; auto.
    + rewrite fmap_app. apply NoDup_snoc; [done|]. by eapply not_elem_of_list_to_map.
    + rewrite list_to_map_snoc; [done|]. by eapply not_elem_of_list_to_map.
  - pose proof (find_binding_map (bindings s) k) as Hf. unfold find_binding in Hf.
    rewrite find_position in Hf.
    destruct (position _ (bindings s)) as [i|] eqn:Hp; simpl in Hf.
    + destruct (bindings s !! i) as [[k' c]|] eqn:Hi; rewrite ?Hi in Hf.
      2:{ apply position_lt, lookup_lt_is_Some in Hp as [? ?]. congruence. }
      symmetry in Hf. apply fmap_Some in Hf as (c' & -> & [= -> ->]).
      case_bool_decide; simpl; (split; [done|]); split; simpl; auto.
      * eapply sublist_NoDup; [exact Hn|]. apply fmap_sublist, sublist_delete.
      * by eapply delete_binding_map.
    + symmetry in Hf. apply fmap_None in Hf. rewrite Hf. by split; [|split].
  - rewrite find_binding_map.
    by destruct (list_to_map (bindings s) !! k); simpl; (split; [|split]).
Qed.

(** The registry is a finite map.  On any sequence of commands from an empty
    registry, every answer (lookup replies included) and every typed rejection is
    the one of a finite map from keys to recipients: a bind is accepted exactly
    when the key is free, an unbind exactly when the key is bound to the named
    recipient, and lookups report the current binding; the vector denotes that
    map, with one binding per key. *)
Theorem registry_refines_map es :
  let '(s, os) := trace (transition (Sends := Sends)) new es in
  let '(m, os') := trace spec_step ∅ es in
  os = os' /\ simulates s m.
Proof.
  assert (H : simulates new ∅) by by split; [apply NoDup_nil_2|].
  revert H. generalize (@new K A) as s, (∅ : gmap K (Recipient A)) as m.
  induction es as [|e es IH]; intros s m Hsim; simpl; [done|].
  destruct (registry_step_simulates s m e Hsim) as [Ho Hs].
  destruct (transition s e) as [s1 o], (spec_step m e) as [m1 o']. simpl in *. subst o'.
  specialize (IH s1 m1 Hs). destruct (trace transition s1 es), (trace spec_step m1 es).
  destruct IH as [-> ?]. done.
Qed.

End Spec.
