(* ===== verification/Resolver.v ===== *)
(** * The resolver ([crates/actors/src/discovery/resolver.rs])

    The immutable read-only sibling of the registry: a validated copy of a binding
    definition and one lookup command. *)

From stdpp Require Import base list option numbers.
From S2P Require Import Prelude Effects.

Inductive Resolution (K A : Type) : Type :=
| Found (key : K) (recipient : Recipient A)
| Missing (key : K).
Arguments Found {K A} _ _.
Arguments Missing {K A} _.

Inductive ResolverMessage (K Route : Type) : Type :=
| Resolve (key : K) (reply_to : Route).
Arguments Resolve {K Route} _ _.

Inductive ResolverConfigError (K : Type) : Type :=
| DuplicateKey (key : K).
Arguments DuplicateKey {K} _.

Record Resolver (K A : Type) := mkResolver { bindings : list (K * Recipient A) }.
Arguments mkResolver {K A} _.
Arguments bindings {K A} _.

Section Resolver.
  Context {K A Route Sends : Type} `{!EqDecision K}.
  Context `{!SendEffects Sends, !DeliveryRoute Route (Resolution K A) Sends}.

(** The copying loop, stopping at the first duplicate. *)
Fixpoint accept_all (accepted source : list (K * Recipient A)) :
  result (list (K * Recipient A)) (ResolverConfigError K) :=
  match source with
  | [] => Ok accepted
  | (k, r) :: source =>
      if existsb (fun b => bool_decide (b.1 = k)) accepted then Err (DuplicateKey k)
      else accept_all (accepted ++ [(k, r)]) source
  end.

Definition from_bindings (source : list (K * Recipient A)) :
  result (Resolver K A) (ResolverConfigError K) :=
  map_result mkResolver (accept_all [] source).

Definition transition (s : Resolver K A) (event : User A (ResolverMessage K Route)) :
  Resolver K A * Acted Never Never Sends Never :=
  match message event with
  | Resolve k reply_to =>
      let result :=
        match List.find (fun b => bool_decide (b.1 = k)) (bindings s) with
        | None => Missing k
        | Some (_, r) => Found k r
        end in
      (s, Ok (send (deliver reply_to result)))
  end.

Lemma existsb_key (l : list (K * Recipient A)) k :
  existsb (fun b => bool_decide (b.1 = k)) l = true <-> k ∈ l.*1.
Proof.
  rewrite existsb_exists, list_elem_of_fmap. split.
  - intros (b & Hb & E%bool_decide_eq_true_1). exists b. split; [done|]. by apply list_elem_of_In.
  - intros (b & -> & Hb). exists b. split; [by apply list_elem_of_In|]. by apply bool_decide_eq_true_2.
Qed.

Lemma accept_all_spec (source accepted : list (K * Recipient A)) :
  NoDup accepted.*1 ->
  match accept_all accepted source with
  | Ok l => l = accepted ++ source /\ NoDup l.*1
  | Err (DuplicateKey k) =>
      exists before r after, source = before ++ (k, r) :: after /\
        k ∈ (accepted ++ before).*1 /\ NoDup (accepted ++ before).*1
  end.
Proof.
  revert accepted. induction source as [|[k r] source IH]; intros accepted Ha; simpl.
  - by rewrite app_nil_r.
  - destruct (existsb _ accepted) eqn:He.
    + apply existsb_key in He. exists [], r, source. by rewrite app_nil_r.
    + assert (k ∉ accepted.*1) by (rewrite <- existsb_key, He; done).
      specialize (IH (accepted ++ [(k, r)])). rewrite fmap_app in IH. simpl in IH.
      specialize (IH (NoDup_snoc _ _ Ha H)).
      destruct (accept_all _ source) as [l|[k']].
      * by rewrite <- app_assoc in IH.
      * destruct IH as (before & r' & after & -> & Hk & Hn). rewrite <- app_assoc in Hk, Hn.
        by exists ((k, r) :: before), r', after.
Qed.

Lemma find_binding_elem (l : list (K * Recipient A)) k r :
  NoDup l.*1 -> (k, r) ∈ l ->
  List.find (fun b => bool_decide (b.1 = k)) l = Some (k, r).
Proof.
  induction l as [|[k' r'] l IH]; [by intros _ ?%not_elem_of_nil|].
  intros [Hk Hl]%list.NoDup_cons [[= -> ->]|Hin]%elem_of_cons; simpl.
  - by rewrite bool_decide_eq_true_2.
  - rewrite bool_decide_eq_false_2; [auto|]. intros ->. apply Hk.
    apply list_elem_of_fmap. by exists (k, r).
Qed.

(** A definition is accepted exactly when its keys are distinct, and a rejection
    names the first key that repeats an earlier one.  An accepted resolver answers
    every key of the definition with its recipient and every other key as missing,
    and never changes. *)
Theorem resolver_answers_definition (source : list (K * Recipient A)) a reply :
  match from_bindings source with
  | Ok s =>
      NoDup source.*1 /\
      (forall k r, (k, r) ∈ source ->
         transition s (mkUser a (Resolve k reply)) = (s, Ok (send (deliver reply (Found k r))))) /\
      (forall k, k ∉ source.*1 ->
         transition s (mkUser a (Resolve k reply)) = (s, Ok (send (deliver reply (Missing k)))))
  | Err (DuplicateKey k) =>
      exists before r after, source = before ++ (k, r) :: after /\
        k ∈ before.*1 /\ NoDup before.*1
  end.
Proof.
  unfold from_bindings. pose proof (accept_all_spec source [] NoDup_nil_2) as H.
  destruct (accept_all [] source) as [l|[k]]; simpl in *; [|done].
  destruct H as [-> Hn]. split_and!; [done|..].
  - intros k r Hin. unfold transition. simpl. by rewrite (find_binding_elem _ k r).
  - intros k Hk. unfold transition. simpl.
    destruct (List.find _ source) as [[k' r]|] eqn:Hf; [|done].
    apply find_some in Hf as [Hin%list_elem_of_In E%bool_decide_eq_true_1]. simpl in E. subst k'.
    destruct Hk. apply list_elem_of_fmap. by exists (k, r).
Qed.

End Resolver.
