(* ===== verification/Topic.v ===== *)
(** * The topic ([crates/actors/src/discovery/topic.rs])

    Idempotent subscription membership and publication to a snapshot of it. *)

From stdpp Require Import base list option numbers.
From S2P Require Import Prelude Effects.

(** [for subscriber in subscribers { sends.append(subscriber.deliver(value)) }]. *)
Definition fan_out {Route P Sends} `{!SendEffects Sends, !DeliveryRoute Route P Sends}
  (subscribers : list Route) (v : P) : Sends :=
  fold_left (fun sends r => sends_append sends (deliver r v)) subscribers sends_empty.

Lemma addressed_fan_out {Route P Sends} `{!SendEffects Sends, !DeliveryRoute Route P Sends}
  `{!RouteLaws Route P Sends} (l : list Route) (v : P) :
  addressed (fan_out l v) = (fun r => (r, v)) <$> l.
Proof.
  unfold fan_out. rewrite (fold_deliver_addressed (fun r => r) (fun _ => v)).
  by rewrite addressed_empty.
Qed.

Inductive TopicMessage (P Route : Type) : Type :=
| Subscribe (subscriber : Route)
| Unsubscribe (subscriber : Route)
| Publish (v : P).
Arguments Subscribe {P Route} _.
Arguments Unsubscribe {P Route} _.
Arguments Publish {P Route} _.

Inductive TopicError (P : Type) : Type := NoSubscribers (v : P).
Arguments NoSubscribers {P} _.

Record Topic (Route : Type) := mkTopic { subscribers : list Route }.
Arguments mkTopic {Route} _.
Arguments subscribers {Route} _.

Section Topic.
  Context {A P Route Sends : Type} `{!EqDecision Route}.
  Context `{!SendEffects Sends, !DeliveryRoute Route P Sends}.

Definition new : Topic Route := mkTopic [].

Definition transition (s : Topic Route) (event : User A (TopicMessage P Route)) :
  Topic Route * Acted Never Never Sends (TopicError P) :=
  match message event with
  | Subscribe r =>
      (if bool_decide (r ∈ subscribers s) then s else mkTopic (subscribers s ++ [r]), Ok cont)
  | Unsubscribe r =>
      (match position (fun current => bool_decide (current = r)) (subscribers s) with
       | Some index => mkTopic (base.delete index (subscribers s))
       | None => s
       end, Ok cont)
  | Publish v =>
      match subscribers s with
      | [] => (s, Err (NoSubscribers v))
      | l => (s, Ok (send (fan_out l v)))
      end
  end.

(** Membership as an ordered set. *)
Definition subscription (l : list Route) (m : TopicMessage P Route) : list Route :=
  match m with
  | Subscribe r => push_unique l r
  | Unsubscribe r => filter (fun x => x <> r) l
  | Publish _ => l
  end.

Lemma topic_step s e :
  NoDup (subscribers s) ->
  subscribers (transition s e).1 = subscription (subscribers s) (message e) /\
  NoDup (subscribers (transition s e).1).
Proof.
  intros Hn. unfold transition, subscription, push_unique.
  destruct (message e) as [r|r|v]; simpl.
  - case_bool_decide; simpl; auto using NoDup_snoc.
  - destruct (position _ _) as [i|] eqn:Hi; simpl.
    + apply position_eq_Some in Hi. rewrite (delete_filter_ne _ r i) by done.
      split; [done|]. by apply list.NoDup_filter.
    + apply position_eq_None in Hi. by rewrite filter_ne_id.
  - by destruct (subscribers s) eqn:E; rewrite E in Hn || simpl; rewrite ?E.
Qed.

End Topic.
