(* ===== verification/PubSub.v ===== *)
(** * Keyed publish/subscribe ([crates/actors/src/discovery/pub_sub.rs])

    A table of topics in introduction order.  The theorem compares the fabric with
    one [Topic] behavior per key. *)

From stdpp Require Import base list option numbers.
From S2P Require Import Prelude Effects Topic.

Record TopicMembership (K Route : Type) := mkMembership {
  topic : K;
  subscribers : list Route
}.
Arguments mkMembership {K Route} _ _.
Arguments topic {K Route} _.
Arguments subscribers {K Route} _.

Inductive PubSubMessage (K P Route : Type) : Type :=
| Subscribe (topic : K) (subscriber : Route)
| Unsubscribe (topic : K) (subscriber : Route)
| Publish (topic : K) (v : P).
Arguments Subscribe {K P Route} _ _.
Arguments Unsubscribe {K P Route} _ _.
Arguments Publish {K P Route} _ _.

Inductive PubSubError (K P Route : Type) : Type :=
| UnknownTopic (topic : K) (subscriber : Route)
| NotSubscribed (topic : K) (subscriber : Route)
| NoSubscribers (topic : K) (v : P).
Arguments UnknownTopic {K P Route} _ _.
Arguments NotSubscribed {K P Route} _ _.
Arguments NoSubscribers {K P Route} _ _.

Record PubSub (K Route : Type) := mkPubSub { topics : list (TopicMembership K Route) }.
Arguments mkPubSub {K Route} _.
Arguments topics {K Route} _.

Section PubSub.
  Context {A K P Route Sends : Type} `{!EqDecision K, !EqDecision Route}.
  Context `{!SendEffects Sends, !DeliveryRoute Route P Sends}.

Abbreviation fabric := (PubSub K Route).
Abbreviation fabric_event := (User A (PubSubMessage K P Route)).

Definition new : fabric := mkPubSub [].

(** [iter().find(|entry| entry.topic == topic)], as a position to be updated. *)
Definition topic_position (s : fabric) (k : K) : option nat :=
  position (fun entry => bool_decide (topic entry = k)) (topics s).

Definition find_topic (s : fabric) (k : K) : option (TopicMembership K Route) :=
  List.find (fun entry => bool_decide (topic entry = k)) (topics s).

(** Writing through the [iter_mut().find] reference. *)
Definition set_subscribers (s : fabric) (index : nat) (k : K) (l : list Route) : fabric :=
  mkPubSub (<[index := mkMembership k l]> (topics s)).

Definition subscribe (s : fabric) (k : K) (r : Route) : fabric :=
  match topic_position s k, find_topic s k with
  | Some index, Some membership =>
      if bool_decide (r ∈ subscribers membership) then s
      else set_subscribers s index (topic membership) (subscribers membership ++ [r])
  | _, _ => mkPubSub (topics s ++ [mkMembership k [r]])
  end.

Definition unsubscribe (s : fabric) (k : K) (r : Route) :
  fabric * result unit (PubSubError K P Route) :=
  match topic_position s k, find_topic s k with
  | Some index, Some membership =>
      match position (fun member => bool_decide (member = r)) (subscribers membership) with
      | None => (s, Err (NotSubscribed k r))
      | Some i =>
          (set_subscribers s index (topic membership) (base.delete i (subscribers membership)),
           Ok tt)
      end
  | _, _ => (s, Err (UnknownTopic k r))
  end.

Definition transition (s : fabric) (event : fabric_event) :
  fabric * Acted Never Never Sends (PubSubError K P Route) :=
  match message event with
  | Subscribe k r => (subscribe s k r, Ok cont)
  | Unsubscribe k r =>
      let '(s', outcome) := unsubscribe s k r in
      (s', match outcome with Ok _ => Ok cont | Err e => Err e end)
  | Publish k v =>
      match find_topic s k with
      | None => (s, Err (NoSubscribers k v))
      | Some membership =>
          match subscribers membership with
          | [] => (s, Err (NoSubscribers k v))
          | l => (s, Ok (send (fan_out l v)))
          end
      end
  end.

(** ** One topic behavior per key *)

Definition subscribers_of (s : fabric) (k : K) : list Route :=
  default [] (subscribers <$> find_topic s k).

(** The part of a message that concerns topic [k]. *)
Definition project (k : K) (m : PubSubMessage K P Route) : option (TopicMessage P Route) :=
  match m with
  | Subscribe k' r => if bool_decide (k' = k) then Some (Topic.Subscribe r) else None
  | Unsubscribe k' r => if bool_decide (k' = k) then Some (Topic.Unsubscribe r) else None
  | Publish k' v => if bool_decide (k' = k) then Some (Topic.Publish v) else None
  end.

Definition project_event (k : K) (e : fabric_event) : option (User A (TopicMessage P Route)) :=
  mkUser (from e) <$> project k (message e).

Lemma topic_position_find s k i :
  topic_position s k = Some i ->
  exists membership, topics s !! i = Some membership /\ topic membership = k /\
    find_topic s k = Some membership.
Proof.
  intros Hi. destruct (position_Some _ _ _ Hi) as (x & Hx & E%bool_decide_eq_true_1 & _).
  exists x. split_and!; [done|done|]. unfold find_topic. rewrite find_position.
  unfold topic_position in Hi. by rewrite Hi.
Qed.

Lemma topic_position_None s k : topic_position s k = None -> find_topic s k = None.
Proof. intros H. unfold find_topic. rewrite find_position. unfold topic_position in H. by rewrite H. Qed.

Lemma set_subscribers_find s i k l k' :
  topic_position s k = Some i ->
  find_topic (set_subscribers s i k l) k' =
    if bool_decide (k = k') then Some (mkMembership k l) else find_topic s k'.
Proof.
  intros Hi. unfold find_topic, set_subscribers. simpl. case_bool_decide as E.
  - subst k'. apply find_insert_position; [done|]. by apply bool_decide_eq_true_2.
  - destruct (topic_position_find s k i Hi) as (m & Hm & Hk & _).
    apply (find_insert_other _ _ _ _ m Hm); apply bool_decide_eq_false_2; simpl; congruence.
Qed.

(** Every step is the step of the topic it names and nothing to the others. *)
Definition topic_of (m : PubSubMessage K P Route) : K :=
  match m with Subscribe k _ | Unsubscribe k _ | Publish k _ => k end.

Lemma fabric_other s e k :
  topic_of (message e) <> k -> find_topic (transition s e).1 k = find_topic s k.
Proof.
  intros Hne. unfold transition. destruct (message e) as [k' r|k' r|k' v]; simpl in *.
  - unfold subscribe. destruct (topic_position s k') as [i|] eqn:Hi.
    + destruct (topic_position_find s k' i Hi) as (m & _ & Hk & Hf). rewrite Hf, Hk.
      case_bool_decide; [done|].
      by rewrite set_subscribers_find, bool_decide_eq_false_2.
    + unfold find_topic at 1. simpl. rewrite find_snoc. simpl.
      rewrite bool_decide_eq_false_2 by done. unfold find_topic. by destruct (List.find _ _).
  - unfold unsubscribe. destruct (topic_position s k') as [i|] eqn:Hi; [|done].
    destruct (topic_position_find s k' i Hi) as (m & _ & Hk & Hf). rewrite Hf, Hk.
    destruct (position _ _); simpl; [|done].
    by rewrite set_subscribers_find, bool_decide_eq_false_2.
  - by destruct (find_topic s k') as [m|]; [destruct (subscribers m)|].
Qed.

Lemma fabric_own s e k m :
  NoDup (subscribers_of s k) -> project k (message e) = Some m ->
  subscribers_of (transition s e).1 k = subscription (subscribers_of s k) m.
Proof.
  intros Hn. unfold transition. destruct (message e) as [k' r|k' r|k' v]; simpl;
    case_bool_decide; try done; subst k'; intros [= <-]; simpl.
  - unfold subscribe. destruct (topic_position s k) as [i|] eqn:Hi.
    + destruct (topic_position_find s k i Hi) as (m & _ & Hk & Hf). rewrite Hf, Hk.
      unfold subscribers_of, push_unique in *. rewrite Hf in *. simpl in *.
      case_bool_decide; [by rewrite Hf|].
      by rewrite set_subscribers_find, bool_decide_eq_true_2.
    + apply topic_position_None in Hi as Hf. unfold subscribers_of. rewrite Hf. simpl.
      unfold find_topic in *. simpl. by rewrite find_snoc, Hf, bool_decide_eq_true_2.
  - unfold unsubscribe. destruct (topic_position s k) as [i|] eqn:Hi.
    + destruct (topic_position_find s k i Hi) as (m & _ & Hk & Hf). rewrite Hf, Hk.
      unfold subscribers_of in *. rewrite Hf in *. simpl in *.
      destruct (position _ _) as [j|] eqn:Hj; simpl.
      * rewrite set_subscribers_find, bool_decide_eq_true_2 by done. simpl.
        by apply delete_filter_ne, position_eq_Some.
      * rewrite Hf. symmetry. by apply filter_ne_id, position_eq_None.
    + apply topic_position_None in Hi as Hf. unfold subscribers_of. simpl. by rewrite Hf.
  - by destruct (find_topic s k) as [m|]; [destruct (subscribers m)|].
Qed.

Lemma subscription_NoDup (l : list Route) (m : TopicMessage P Route) :
  NoDup l -> NoDup (subscription l m).
Proof.
  intros. destruct m; simpl; auto using push_unique_NoDup. by apply list.NoDup_filter.
Qed.

Lemma fabric_known s e k :
  is_Some (find_topic (transition s e).1 k) <->
  is_Some (find_topic s k) \/ exists r, message e = Subscribe k r.
Proof.
  destruct (decide (topic_of (message e) = k)) as [<-|Hne].
  - unfold transition. destruct (message e) as [k r|k r|k v]; simpl.
    + split; [eauto|]. intros _. unfold subscribe.
      destruct (topic_position s k) as [i|] eqn:Hi.
      * destruct (topic_position_find s k i Hi) as (m & _ & Hk & Hf). rewrite Hf, Hk.
        case_bool_decide; [eauto|]. by rewrite set_subscribers_find, bool_decide_eq_true_2.
      * apply topic_position_None in Hi. unfold find_topic in *. simpl.
        by rewrite find_snoc, Hi, bool_decide_eq_true_2.
    + unfold unsubscribe.
      destruct (topic_position s k) as [i|] eqn:Hi; [|naive_solver].
      destruct (topic_position_find s k i Hi) as (m & _ & Hk & Hf). rewrite Hf, Hk.
      destruct (position _ _); simpl; [|rewrite Hf; naive_solver].
      rewrite set_subscribers_find, bool_decide_eq_true_2 by done. naive_solver.
    + destruct (find_topic s k) as [m|] eqn:Hf; [destruct (subscribers m)|]; simpl;
        rewrite Hf; naive_solver.
  - rewrite fabric_other by done. split; [eauto|]. intros [?|[r Hr]]; [done|].
    by rewrite Hr in Hne.
Qed.

Abbreviation one_topic := (Topic.transition (A := A) (P := P) (Sends := Sends)).

(** Topics are introduced by subscriptions and never forgotten. *)
Definition introduces (k : K) (m : PubSubMessage K P Route) : bool :=
  match m with Subscribe k' _ => bool_decide (k' = k) | _ => false end.

Lemma introduces_true k m : introduces k m = true <-> exists r, m = Subscribe k r.
Proof.
  destruct m as [k' r|k' r|k' v]; simpl; split; try naive_solver.
  - intros ->%bool_decide_eq_true_1. eauto.
  - intros [x [= -> _]]. by apply bool_decide_eq_true_2.
Qed.

(** The runs side by side. *)
Lemma fabric_simulates_topic k (es : list fabric_event) : forall s t,
  subscribers_of s k = Topic.subscribers t -> NoDup (Topic.subscribers t) ->
  let s' := (trace transition s es).1 in
  let t' := (trace one_topic t (omap (project_event k) es)).1 in
  subscribers_of s' k = Topic.subscribers t' /\ NoDup (Topic.subscribers t') /\
  (is_Some (find_topic s' k) <->
     is_Some (find_topic s k) \/ existsb (introduces k) (message <$> es) = true).
Proof.
  induction es as [|e es IH]; intros s t Hst Hn.
  - cbn. split_and!; [done|done|]. split; [eauto|]. by intros [?|?].
  - pose proof (fabric_known s e k) as Hknown.
    assert (Hnext : exists t1, subscribers_of (transition s e).1 k = Topic.subscribers t1 /\
      NoDup (Topic.subscribers t1) /\
      forall es', (trace one_topic t (omap (project_event k) (e :: es'))).1 =
        (trace one_topic t1 (omap (project_event k) es')).1).
    { cbn [omap list_omap]. unfold project_event at 1.
      destruct (project k (message e)) as [m|] eqn:Hm.
      - set (e' := mkUser (from e) m). destruct (one_topic t e') as [t1 o] eqn:Ht. exists t1.
        destruct (Topic.topic_step (Sends := Sends) t e' Hn) as [H1 H2].
        rewrite Ht in H1, H2. simpl in H1, H2. split_and!; [|done|].
        + rewrite H1, <- Hst. apply fabric_own; [by rewrite Hst|done].
        + intros es'. cbn [fmap option_fmap option_map trace]. fold e'. rewrite Ht. by destruct (trace one_topic t1 _).
      - exists t. split_and!; [|done|done]. rewrite <- Hst. unfold subscribers_of.
        rewrite fabric_other; [done|].
        intros <-. destruct (message e); simpl in Hm; by rewrite bool_decide_eq_true_2 in Hm. }
    destruct Hnext as (t1 & Hs1 & Hn1 & Htrace). rewrite Htrace.
    cbn [trace]. destruct (transition s e) as [s1 o]. cbn [fst] in *.
    destruct (IH s1 t1 Hs1 Hn1) as (H1 & H2 & H3).
    destruct (trace transition s1 es) as [s2 os]. cbn [fst] in *. split_and!; [done|done|].
    rewrite H3, Hknown, <- introduces_true, fmap_cons. cbn [existsb]. rewrite orb_true_iff. tauto.
Qed.

(** A keyed fabric is one topic per key.  After any messages, the subscribers
    of topic [k] are those of a [Topic] behavior that received only the messages
    naming [k], each once, in subscription order; publishing to [k] answers as that
    topic does, with one delivery per subscriber in order, or returns the value when
    there is none.  Unsubscribing is refused as unknown exactly when the topic was
    never subscribed to, and as not subscribed exactly when the recipient is not a
    current subscriber of a known topic. *)
Theorem pub_sub_topics_independent `{!RouteLaws Route P Sends}
  (es : list fabric_event) (k : K) (a : A) (v : P) (r : Route) :
  let s := (trace transition new es).1 in
  let t := (trace one_topic Topic.new (omap (project_event k) es)).1 in
  subscribers_of s k = Topic.subscribers t /\ NoDup (subscribers_of s k) /\
  match (transition s (mkUser a (Publish k v))).2, (one_topic t (mkUser a (Topic.Publish v))).2 with
  | Ok acts, Ok acts' =>
      acts = acts' /\ addressed (sends acts) = (fun x => (x, v)) <$> subscribers_of s k
  | Err e, Err e' =>
      e = NoSubscribers k v /\ e' = Topic.NoSubscribers v /\ subscribers_of s k = []
  | _, _ => False
  end /\
  (transition s (mkUser a (Unsubscribe k r))).2 =
    (if existsb (introduces k) (message <$> es) then
       if bool_decide (r ∈ subscribers_of s k) then Ok cont else Err (NotSubscribed k r)
     else Err (UnknownTopic k r)).
Proof.
  intros s t. destruct (fabric_simulates_topic k es new Topic.new) as (Hsub & Hn & Hknown);
    [done|apply NoDup_nil_2|]. fold s t in Hsub, Hn, Hknown. rewrite Hsub.
  split_and!; [done|done| |].
  - unfold transition, Topic.transition. cbn [message]. rewrite <- Hsub.
    unfold subscribers_of in *. destruct (find_topic s k) as [m|]; simpl in *.
    + destruct (subscribers m) as [|x l]; [done|].
      cbn [snd]. split; [done|]. apply addressed_fan_out.
    + done.
  - rewrite <- Hsub. unfold transition, unsubscribe. cbn [message].
    unfold subscribers_of in *. destruct (topic_position s k) as [i|] eqn:Hi.
    + destruct (topic_position_find s k i Hi) as (m & _ & Hk & Hf). rewrite Hf in *.
      assert (Hin : existsb (introduces k) (message <$> es) = true).
      { destruct Hknown as [Hknown _]. destruct Hknown as [[? [=]]|]; [by eauto|done]. }
      rewrite Hin. simpl. destruct (position _ _) as [j|] eqn:Hj; simpl.
      * apply position_eq_Some, list_elem_of_lookup_2 in Hj. by rewrite bool_decide_eq_true_2.
      * apply position_eq_None in Hj. by rewrite bool_decide_eq_false_2.
    + apply topic_position_None in Hi. rewrite Hi in *. simpl.
      destruct (existsb _ _); [|done]. destruct Hknown as [_ [? [=]]]. by right.
Qed.

End PubSub.
