(* ===== verification/Presence.v ===== *)
(** * Presence ([crates/actors/src/discovery/presence.rs])

    Versioned presence evidence with expiry by timer generations.  The pure timer
    mapping, which never changes, is a parameter. *)

From stdpp Require Import base list option numbers sorting.
From S2P Require Import Prelude Effects Selection Timers.

(** ** Data *)

Definition PresenceVersion : Type := N.

Inductive PresencePhase : Type :=
| Present (version : PresenceVersion) (generation : TimerGeneration) (lifetime : Duration)
| ExpiredPhase (version : PresenceVersion) (generation : TimerGeneration).

Record PresenceEntry (K : Type) := mkEntry {
  participant : K;
  entry_timer : TimerId;
  phase : PresencePhase
}.
Arguments mkEntry {K} _ _ _.
Arguments participant {K} _.
Arguments entry_timer {K} _.
Arguments phase {K} _.

Inductive PresenceError (K : Type) : Type :=
| Stale (p : K) (observed current : PresenceVersion) (lifetime : Duration)
| ConflictingVersion (p : K) (version : PresenceVersion) (lifetime : Duration)
| TimerCollision (p existing : K) (timer : TimerId) (version : PresenceVersion) (lifetime : Duration)
| GenerationExhausted (p : K) (version : PresenceVersion) (lifetime : Duration).
Arguments Stale {K} _ _ _ _.
Arguments ConflictingVersion {K} _ _ _.
Arguments TimerCollision {K} _ _ _ _ _.
Arguments GenerationExhausted {K} _ _ _.

Inductive PresenceOutcome (K : Type) : Type :=
| Announced (p : K) (version : PresenceVersion) (generation : TimerGeneration)
| Refreshed (p : K) (version : PresenceVersion) (generation : TimerGeneration)
| Unchanged (p : K) (version : PresenceVersion) (generation : TimerGeneration)
| Expired (p : K) (version : PresenceVersion) (generation : TimerGeneration)
| Rejected (e : PresenceError K).
Arguments Announced {K} _ _ _.
Arguments Refreshed {K} _ _ _.
Arguments Unchanged {K} _ _ _.
Arguments Expired {K} _ _ _.
Arguments Rejected {K} _.

Record PresenceReport (K : Type) := mkReport { entries : list (PresenceEntry K) }.
Arguments mkReport {K} _.
Arguments entries {K} _.

Inductive PresenceReply (K : Type) : Type :=
| Outcome (o : PresenceOutcome K)
| Report (r : PresenceReport K).
Arguments Outcome {K} _.
Arguments Report {K} _.

Inductive PresenceMessage (K Route : Type) : Type :=
| Announce (p : K) (version : PresenceVersion) (lifetime : Duration) (reply_to : Route)
| Query (reply_to : Route).
Arguments Announce {K Route} _ _ _ _.
Arguments Query {K Route} _.

Record PresenceSends (ReplySends Schedules : Type) := mkPresenceSends {
  replies : ReplySends;
  schedules : Schedules
}.
Arguments mkPresenceSends {_ _} _ _.
Arguments replies {_ _} _.
Arguments schedules {_ _} _.

(** [derive(SendProduct)]: lane by lane. *)
#[export] Instance PresenceSends_SendEffects R S `{!SendEffects R, !SendEffects S} :
  SendEffects (PresenceSends R S) := {
  sends_empty := mkPresenceSends sends_empty sends_empty;
  sends_append a b :=
    mkPresenceSends (sends_append (replies a) (replies b))
                    (sends_append (schedules a) (schedules b))
}.

Record PresenceRecord (K Route : Type) := mkRecord { entry : PresenceEntry K; notify : Route }.
Arguments mkRecord {K Route} _ _.
Arguments entry {K Route} _.
Arguments notify {K Route} _.

Record Presence (K Route : Type) := mkPresence { records : list (PresenceRecord K Route) }.
Arguments mkPresence {K Route} _.
Arguments records {K Route} _.

Definition phase_generation (ph : PresencePhase) : TimerGeneration :=
  match ph with Present _ g _ | ExpiredPhase _ g => g end.

Definition phase_version (ph : PresencePhase) : PresenceVersion :=
  match ph with Present v _ _ | ExpiredPhase v _ => v end.

Definition is_present (ph : PresencePhase) : bool :=
  match ph with Present _ _ _ => true | ExpiredPhase _ _ => false end.

Section Presence.
  Context {A K Route Sends : Type} `{!EqDecision K}.
  Context `{!SendEffects Sends, !DeliveryRoute Route (PresenceReply K) Sends}.
  Variable timer_id : K -> TimerId.

Abbreviation presence := (Presence K Route).
Abbreviation presence_sends := (PresenceSends Sends (InterpreterRequests (ScheduleAfter TimerId))).
Abbreviation presence_actions := (Actions Never Never presence_sends).
Abbreviation presence_event :=
  (EventLayer (TimerElapsed TimerId) (User A (PresenceMessage K Route))).

Definition new : presence := mkPresence [].

Definition report (s : presence) : PresenceReport K := mkReport (entry <$> records s).

Definition reply (reply_to : Route) (r : PresenceReply K) : presence_actions :=
  send (mkPresenceSends (deliver reply_to r) (mkRequests [])).

Definition next_generation (s : presence) (t : TimerId) : option TimerGeneration :=
  match max_by (fun g h => N.compare (generation_number g) (generation_number h))
          ((fun r => phase_generation (phase (entry r))) <$>
             filter (fun r => entry_timer (entry r) = t) (records s)) with
  | None => Some (mkTimerGeneration 0)
  | Some g => mkTimerGeneration <$> checked_add u64_max (generation_number g) 1
  end.

Definition introduce (s : presence) (p : K) (v : PresenceVersion) (lifetime : Duration)
  (reply_to : Route) (t : TimerId) : presence * presence_actions :=
  match next_generation s t with
  | None => (s, reply reply_to (Outcome (Rejected (GenerationExhausted p v lifetime))))
  | Some g =>
      (mkPresence (records s ++ [mkRecord (mkEntry p t (Present v g lifetime)) reply_to]),
       send (mkPresenceSends (deliver reply_to (Outcome (Announced p v g)))
                             (InterpreterRequests_one (mkScheduleAfter t g lifetime))))
  end.

(** The record at the position found by [announce]. *)
Definition refresh (s : presence) (index : nat) (current : PresenceRecord K Route) (p : K)
  (v : PresenceVersion) (lifetime : Duration) (reply_to : Route) (t : TimerId) :
  presence * presence_actions :=
  let current_version := phase_version (phase (entry current)) in
  if (v <? current_version)%N then
    (s, reply reply_to (Outcome (Rejected (Stale p v current_version lifetime))))
  else if (v =? current_version)%N then
    match phase (entry current) with
    | Present _ g l =>
        if (l =? lifetime)%N then (s, reply reply_to (Outcome (Unchanged p v g)))
        else (s, reply reply_to (Outcome (Rejected (ConflictingVersion p v lifetime))))
    | ExpiredPhase _ _ =>
        (s, reply reply_to (Outcome (Rejected (ConflictingVersion p v lifetime))))
    end
  else
    match next_generation s t with
    | None => (s, reply reply_to (Outcome (Rejected (GenerationExhausted p v lifetime))))
    | Some g =>
        (mkPresence (<[index := mkRecord (mkEntry (participant (entry current))
                                            (entry_timer (entry current)) (Present v g lifetime))
                                  reply_to]> (records s)),
         send (mkPresenceSends (deliver reply_to (Outcome (Refreshed p v g)))
                               (InterpreterRequests_one (mkScheduleAfter t g lifetime))))
    end.

(** Another participant that is present under the same timer. *)
Definition collides (p : K) (t : TimerId) (r : PresenceRecord K Route) : bool :=
  bool_decide (participant (entry r) <> p) && bool_decide (entry_timer (entry r) = t) &&
  is_present (phase (entry r)).

Definition announce (s : presence) (p : K) (v : PresenceVersion) (lifetime : Duration)
  (reply_to : Route) : presence * presence_actions :=
  let t := timer_id p in
  match List.find (collides p t) (records s) with
  | Some existing =>
      (s, reply reply_to (Outcome (Rejected
            (TimerCollision p (participant (entry existing)) t v lifetime))))
  | None =>
      match position (fun r => bool_decide (participant (entry r) = p)) (records s) with
      | Some index =>
          match records s !! index with
          | Some current => refresh s index current p v lifetime reply_to t
          | None => introduce s p v lifetime reply_to t
          end
      | None => introduce s p v lifetime reply_to t
      end
  end.

(** [matches!(phase, Present { generation, .. } if generation == elapsed.generation)]. *)
Definition awaits (elapsed : TimerElapsed TimerId) (r : PresenceRecord K Route) : bool :=
  bool_decide (entry_timer (entry r) = elapsed_target elapsed) &&
  match phase (entry r) with
  | Present _ g _ => bool_decide (g = elapsed_generation elapsed)
  | ExpiredPhase _ _ => false
  end.

Definition expire (s : presence) (elapsed : TimerElapsed TimerId) : presence * presence_actions :=
  match position (awaits elapsed) (records s) with
  | None => (s, cont)
  | Some index =>
      match records s !! index with
      | Some (mkRecord (mkEntry p t (Present v g l)) n) =>
          (mkPresence (<[index := mkRecord (mkEntry p t (ExpiredPhase v g)) n]> (records s)),
           reply n (Outcome (Expired p v g)))
      | _ => (s, cont)
      end
  end.

Definition transition (s : presence) (event : presence_event) :
  presence * Acted Never Never presence_sends Never :=
  let '(s', a) :=
    match event with
    | Inner_ e =>
        match message e with
        | Announce p v lifetime reply_to => announce s p v lifetime reply_to
        | Query reply_to => (s, reply reply_to (Report (report s)))
        end
    | Owned_ elapsed => expire s elapsed
    end in
  (s', Ok a).

(** ** What a step shows *)

Context `{!RouteLaws Route (PresenceReply K) Sends}.

Definition facts (a : presence_actions) : list (PresenceReply K) :=
  snd <$> addressed (replies (sends a)).

(** The generations scheduled for timer [t]. *)
Definition scheduled (t : TimerId) (a : presence_actions) : list N :=
  (fun r => generation_number (after_generation r)) <$>
    filter (fun r => after_target r = t) (requests (schedules (sends a))).

(** The generations of timer [t] reported as expired. *)
Definition expiries (t : TimerId) (a : presence_actions) : list N :=
  facts a ≫= fun f =>
    match f with
    | Outcome (Expired p _ g) => if bool_decide (timer_id p = t) then [generation_number g] else []
    | _ => []
    end.

(** The versions committed for participant [p]. *)
Definition commits (p : K) (a : presence_actions) : list N :=
  facts a ≫= fun f =>
    match f with
    | Outcome (Announced q v _) | Outcome (Refreshed q v _) =>
        if bool_decide (q = p) then [v] else []
    | _ => []
    end.

(** A step does nothing to the table, commits one participant with a fresh
    generation, or expires one present participant. *)
Inductive effect (s : presence) : presence -> presence_actions -> Prop :=
| effect_none a :
    requests (schedules (sends a)) = [] ->
    (forall t, expiries t a = []) -> (forall p, commits p a = []) -> effect s s a
| effect_introduce p v g l r a :
    next_generation s (timer_id p) = Some g ->
    Forall (fun x => collides p (timer_id p) x = false) (records s) ->
    p ∉ (fun x => participant (entry x)) <$> records s ->
    requests (schedules (sends a)) = [mkScheduleAfter (timer_id p) g l] ->
    (forall t, expiries t a = []) ->
    (forall q, commits q a = if bool_decide (p = q) then [v] else []) ->
    effect s (mkPresence (records s ++ [mkRecord (mkEntry p (timer_id p) (Present v g l)) r])) a
| effect_refresh i current v g l r a :
    let p := participant (entry current) in
    records s !! i = Some current ->
    (phase_version (phase (entry current)) < v)%N ->
    next_generation s (timer_id p) = Some g ->
    Forall (fun x => collides p (timer_id p) x = false) (records s) ->
    requests (schedules (sends a)) = [mkScheduleAfter (timer_id p) g l] ->
    (forall t, expiries t a = []) ->
    (forall q, commits q a = if bool_decide (p = q) then [v] else []) ->
    effect s (mkPresence (<[i := mkRecord (mkEntry p (entry_timer (entry current)) (Present v g l)) r]>
                            (records s))) a
| effect_expire i p t v g l r a :
    records s !! i = Some (mkRecord (mkEntry p t (Present v g l)) r) ->
    requests (schedules (sends a)) = [] ->
    (forall t', expiries t' a = if bool_decide (timer_id p = t') then [generation_number g] else []) ->
    (forall q, commits q a = []) ->
    effect s (mkPresence (<[i := mkRecord (mkEntry p t (ExpiredPhase v g)) r]> (records s))) a.

Lemma facts_reply r f : facts (reply r f) = [f].
Proof. unfold facts. simpl. by rewrite addressed_deliver. Qed.

Lemma facts_send r f sch : facts (send (mkPresenceSends (deliver r f) sch)) = [f].
Proof. unfold facts. simpl. by rewrite addressed_deliver. Qed.

Lemma effect_cont s : effect s s cont.
Proof.
  apply effect_none; [done|..]; intros; unfold expiries, commits, facts; simpl;
    by rewrite addressed_empty.
Qed.

Ltac reply_effect :=
  apply effect_none; [done|..]; intros; unfold expiries, commits; rewrite facts_reply; done.

Lemma introduce_effect s p v l r :
  Forall (fun x => collides p (timer_id p) x = false) (records s) ->
  p ∉ (fun x => participant (entry x)) <$> records s ->
  effect s (introduce s p v l r (timer_id p)).1 (introduce s p v l r (timer_id p)).2.
Proof.
  intros Hc Hp. unfold introduce.
  destruct (next_generation s (timer_id p)) as [g|] eqn:Hg; simpl; [|reply_effect].
  eapply effect_introduce; eauto; intros; unfold expiries, commits; rewrite facts_send; simpl;
    by rewrite ?app_nil_r.
Qed.

Lemma refresh_effect s i current v l r :
  let p := participant (entry current) in
  records s !! i = Some current ->
  Forall (fun x => collides p (timer_id p) x = false) (records s) ->
  effect s (refresh s i current p v l r (timer_id p)).1 (refresh s i current p v l r (timer_id p)).2.
Proof.
  intros p Hi Hc. unfold refresh.
  destruct (N.ltb_spec v (phase_version (phase (entry current)))); simpl; [reply_effect|].
  destruct (N.eqb_spec v (phase_version (phase (entry current)))) as [E|E].
  - destruct (phase (entry current)) as [v' g l'|v' g]; [|simpl; reply_effect].
    destruct (l' =? l)%N; simpl; reply_effect.
  - destruct (next_generation s (timer_id p)) as [g|] eqn:Hg; simpl; [|reply_effect].
    eapply effect_refresh; eauto; [lia|..]; intros; unfold expiries, commits; rewrite facts_send;
      simpl; by rewrite ?app_nil_r.
Qed.

Lemma transition_effect s e :
  exists a, (transition s e).2 = Ok a /\ effect s (transition s e).1 a.
Proof.
  unfold transition. destruct e as [elapsed|u].
  - unfold expire. destruct (position (awaits elapsed) (records s)) as [i|]; simpl;
      [|eauto using effect_cont].
    destruct (records s !! i) as [[[p t [v g l|v g]] n]|] eqn:Hi; simpl; eauto using effect_cont.
    eexists; split; [done|]. eapply effect_expire; eauto; intros; unfold expiries, commits;
      rewrite facts_reply; simpl; by rewrite ?app_nil_r.
  - destruct (message u) as [p v l r|r]; simpl; [|eexists; split; [done|]; reply_effect].
    unfold announce. destruct (List.find _ (records s)) as [x|] eqn:Hf; simpl;
      [eexists; split; [done|]; reply_effect|].
    assert (Hc : Forall (fun x => collides p (timer_id p) x = false) (records s)).
    { apply list.Forall_forall. intros x Hx. apply list_elem_of_In in Hx.
      by apply (find_none _ _ Hf). }
    destruct (position _ (records s)) as [i|] eqn:Hp.
    + destruct (position_Some _ _ _ Hp) as (x & Hx & <-%bool_decide_eq_true_1 & _). rewrite Hx.
      pose proof (refresh_effect s i x v l r Hx Hc) as He.
      destruct (refresh _ _ _ _ _ _ _ _) as [s' a]. eauto.
    + assert (Hnew : p ∉ (fun x => participant (entry x)) <$> records s).
      { intros (x & -> & Hx)%list_elem_of_fmap. apply position_None in Hp.
        rewrite list.Forall_forall in Hp. by apply Hp, bool_decide_eq_false_1 in Hx. }
      pose proof (introduce_effect s p v l r Hc Hnew) as He.
      destruct (introduce _ _ _ _ _ _) as [s' a]. eauto.
Qed.

(** ** Generations fence every timer *)

Definition first_generations (n : nat) : list N := N.of_nat <$> seq 0 n.

Lemma first_generations_S n : first_generations (S n) = first_generations n ++ [N.of_nat n].
Proof. unfold first_generations. by rewrite seq_S, fmap_app. Qed.

Abbreviation timer_of := (fun x : PresenceRecord K Route => entry_timer (entry x)).
Abbreviation gen_of := (fun x : PresenceRecord K Route => generation_number (phase_generation (phase (entry x)))).
Abbreviation live := (fun x : PresenceRecord K Route => is_present (phase (entry x)) = true).

(** For timer [t]: [n] generations were scheduled and [exp] reported expired. *)
Record fenced (t : TimerId) (s : presence) (n : nat) (exp : list N) : Prop := {
  fence_unique i j x y :
    records s !! i = Some x -> records s !! j = Some y ->
    participant (entry x) = participant (entry y) -> i = j;
  fence_timer i x : records s !! i = Some x -> timer_of x = timer_id (participant (entry x));
  fence_below i x : records s !! i = Some x -> timer_of x = t -> (gen_of x < N.of_nat n)%N;
  fence_top : n = 0 \/ exists i x, records s !! i = Some x /\ timer_of x = t /\
    N.succ (gen_of x) = N.of_nat n;
  fence_live i x : records s !! i = Some x -> timer_of x = t -> live x ->
    N.succ (gen_of x) = N.of_nat n /\ exp `sublist_of` first_generations (n - 1);
  fence_single i j x y : records s !! i = Some x -> records s !! j = Some y ->
    timer_of x = t -> timer_of y = t -> live x -> live y -> i = j;
  fence_expired : exp `sublist_of` first_generations n;
  fence_bound : (N.of_nat n <= u64_max + 1)%N
}.

Lemma fenced_next_generation t s n exp g :
  fenced t s n exp -> next_generation s t = Some g ->
  generation_number g = N.of_nat n /\ (N.of_nat n <= u64_max)%N.
Proof.
  intros F. unfold next_generation.
  destruct (max_by _ _) as [h|] eqn:Hm.
  - apply max_by_greatest in Hm as [Hin Hle]; [|by intros [] []; simpl; intros ->].
    apply list_elem_of_fmap in Hin as (x & -> & [Hx [i Hi]%list_elem_of_lookup]%list_elem_of_filter).
    pose proof (fence_below _ _ _ _ F i x Hi Hx) as Hlt.
    destruct (fence_top _ _ _ _ F) as [->|(j & y & Hj & Hy & Hn)]; [simpl in Hlt; lia|].
    specialize (Hle (phase_generation (phase (entry y)))).
    assert (gen_of y <= gen_of x)%N.
    { apply Hle, list_elem_of_fmap. exists y. split; [done|].
      apply list_elem_of_filter. split; [done|]. by eapply list_elem_of_lookup_2. }
    intros (z & [-> Hz]%checked_add_Some & ->)%fmap_Some. simpl. lia.
  - intros [= <-]. simpl. destruct (fence_top _ _ _ _ F) as [->|(j & y & Hj & Hy & _)].
    + split; [done|]. apply N.le_0_l.
    + destruct (filter _ (records s)) as [|z l] eqn:Hf; [|done].
      assert (Hin : y ∈ filter (fun r => entry_timer (entry r) = t) (records s)).
      { apply list_elem_of_filter. split; [done|]. by eapply list_elem_of_lookup_2. }
      rewrite Hf in Hin. by apply not_elem_of_nil in Hin.
Qed.

(** Writing one record: in place or at the end. *)
Definition writes (s s' : presence) (i : nat) (x : PresenceRecord K Route) : Prop :=
  forall j y, records s' !! j = Some y <-> (j = i /\ y = x) \/ (j <> i /\ records s !! j = Some y).

Lemma writes_insert s i x y :
  records s !! i = Some y -> writes s (mkPresence (<[i := x]> (records s))) i x.
Proof.
  intros Hi j z. simpl. apply lookup_lt_Some in Hi. rewrite list_lookup_insert_Some. naive_solver.
Qed.

Lemma writes_snoc s x : writes s (mkPresence (records s ++ [x])) (length (records s)) x.
Proof.
  intros j z. simpl. rewrite lookup_snoc_Some. split.
  - intros [[Hj ?]|[-> ->]]; [right; split; [lia|done]|by left].
  - intros [[-> ->]|[Hj Hz]]; [by right|]. left. split; [|done]. by apply lookup_lt_Some in Hz.
Qed.

(** Only the record of the participant itself may be present under its timer. *)
Lemma no_collision s p i :
  Forall (fun x => collides p (timer_id p) x = false) (records s) ->
  (forall j x, j <> i -> records s !! j = Some x -> participant (entry x) <> p) ->
  forall j x, j <> i -> records s !! j = Some x -> timer_of x = timer_id p -> ~ live x.
Proof.
  intros Hc Hp j x Hj Hx Ht Hl. rewrite Forall_lookup in Hc. specialize (Hc j x Hx).
  unfold collides in Hc. rewrite Ht, Hl, bool_decide_eq_true_2, bool_decide_eq_true_2 in Hc;
    [done|done|by eapply Hp].
Qed.

Lemma commit_fenced t s s' n exp i p v g l r :
  fenced t s n exp ->
  writes s s' i (mkRecord (mkEntry p (timer_id p) (Present v g l)) r) ->
  (forall j x, j <> i -> records s !! j = Some x -> participant (entry x) <> p) ->
  (forall x, records s !! i = Some x -> timer_of x = timer_id p) ->
  Forall (fun x => collides p (timer_id p) x = false) (records s) ->
  next_generation s (timer_id p) = Some g ->
  if bool_decide (timer_id p = t)
  then generation_number g = N.of_nat n /\ fenced t s' (S n) exp else fenced t s' n exp.
Proof.
  intros F Hw Hp Hi Hc Hg.
  assert (Hu : forall j k x y, records s' !! j = Some x -> records s' !! k = Some y ->
             participant (entry x) = participant (entry y) -> j = k).
  { intros j k x y [[-> ->]|[Hj Hx]]%Hw [[-> ->]|[Hk Hy]]%Hw E; simpl in E; [done|..].
    - symmetry in E. by destruct (Hp k y Hk Hy).
    - by destruct (Hp j x Hj Hx).
    - by apply (fence_unique _ _ _ _ F j k x y). }
  assert (Ht : forall j x, records s' !! j = Some x -> timer_of x = timer_id (participant (entry x))).
  { intros j x [[-> ->]|[Hj Hx]]%Hw; [done|by apply (fence_timer _ _ _ _ F j)]. }
  case_bool_decide as E.
  - subst t. destruct (fenced_next_generation _ _ _ _ _ F Hg) as [Hgn Hb].
    pose proof (no_collision s p i Hc Hp) as Hno. split; [done|]. split; auto.
    + intros j x [[-> ->]|[Hj Hx]]%Hw Hx'; simpl; [lia|].
      pose proof (fence_below _ _ _ _ F j x Hx Hx'). lia.
    + right. eexists i, _. split; [by apply Hw; left|]. simpl. split; [done|lia].
    + intros j x [[-> ->]|[Hj Hx]]%Hw Hx' Hl; [|by destruct (Hno j x)]. simpl.
      split; [lia|]. rewrite Nat.sub_0_r. apply F.
    + intros j k x y [[-> ->]|[Hj Hx]]%Hw [[-> ->]|[Hk Hy]]%Hw Tx Ty Lx Ly;
        [done|by destruct (Hno k y)|by destruct (Hno j x)..].
    + rewrite first_generations_S. apply sublist_inserts_r, F.
    + lia.
  - assert (Hold : forall j x, records s' !! j = Some x -> timer_of x = t -> records s !! j = Some x).
    { intros j x [[-> ->]|[Hj Hx]]%Hw Tx; simpl in *; done. }
    destruct F as [F1 F2 F3 F4 F5 F6 F7 F8]. split; eauto.
    destruct F4 as [->|(j & x & Hj & Hx & Hn)]; [by left|right].
    exists j, x. split; [|done]. apply Hw. right. split; [|done]. intros ->.
    apply E. by rewrite <- (Hi x Hj).
Qed.

Lemma expire_fenced t s n exp i p t0 v g l r :
  fenced t s n exp ->
  records s !! i = Some (mkRecord (mkEntry p t0 (Present v g l)) r) ->
  fenced t (mkPresence (<[i := mkRecord (mkEntry p t0 (ExpiredPhase v g)) r]> (records s))) n
    (exp ++ if bool_decide (timer_id p = t) then [generation_number g] else []).
Proof.
  intros F Hi. pose proof (fence_timer _ _ _ _ F i _ Hi) as Ht. simpl in Ht.
  set (x0 := mkRecord _ r) in Hi. set (x1 := mkRecord (mkEntry p t0 (ExpiredPhase v g)) r).
  pose proof (writes_insert s i x1 x0 Hi) as Hw. fold x1 in Hw.
  set (s' := mkPresence _) in *. clearbody s'.
  assert (Hback : forall j y, records s' !! j = Some y -> exists x, records s !! j = Some x /\
    participant (entry x) = participant (entry y) /\ timer_of x = timer_of y /\
    gen_of x = gen_of y /\ (live y -> j <> i /\ x = y)).
  { intros j y [[-> ->]|[Hj Hy]]%Hw; [exists x0|exists y]; done. }
  assert (Hexp : timer_id p = t -> N.succ (generation_number g) = N.of_nat n /\
                   exp `sublist_of` first_generations (n - 1)).
  { intros E. apply (fence_live _ _ _ _ F i x0 Hi); simpl; congruence. }
  split.
  - intros j k x y (x' & Hx & Ex & _)%Hback (y' & Hy & Ey & _)%Hback E.
    apply (fence_unique _ _ _ _ F j k x' y'); congruence.
  - intros j x (x' & Hx & Ex & Tx & _)%Hback. rewrite <- Tx, <- Ex. by apply (fence_timer _ _ _ _ F j).
  - intros j x (x' & Hx & Ex & Tx & Gx & _)%Hback Tt. rewrite <- Gx.
    apply (fence_below _ _ _ _ F j x' Hx). congruence.
  - destruct (fence_top _ _ _ _ F) as [->|(j & x & Hj & Hx & Hn)]; [by left|right].
    destruct (decide (j = i)) as [->|Hne].
    + exists i, x1. split; [by apply Hw; left|]. rewrite Hi in Hj. by injection Hj as <-.
    + exists j, x. split; [by apply Hw; right|done].
  - intros j x (x' & Hx & Ex & Tx & Gx & Lx)%Hback Tt Hl. destruct (Lx Hl) as [Hji ->].
    destruct (bool_decide (timer_id p = t)) eqn:E; rewrite ?app_nil_r;
      [|by apply (fence_live _ _ _ _ F j)].
    apply bool_decide_eq_true_1 in E. destruct Hji.
    apply (fence_single _ _ _ _ F j i x x0); simpl; congruence.
  - intros j k x y (x' & Hx & _ & Tx & _ & Lx)%Hback (y' & Hy & _ & Ty & _ & Ly)%Hback T1 T2 L1 L2.
    destruct (Lx L1) as [_ ->], (Ly L2) as [_ ->]. by apply (fence_single _ _ _ _ F j k x y).
  - case_bool_decide as E; [|rewrite app_nil_r; apply F]. destruct (Hexp E) as [Hg Hs].
    destruct n as [|n]; [lia|]. rewrite first_generations_S. simpl in Hs. rewrite Nat.sub_0_r in Hs.
    apply sublist_app; [done|]. replace (generation_number g) with (N.of_nat n) by lia. done.
  - apply F.
Qed.

Lemma scheduled_requests t a rs :
  requests (schedules (sends a)) = rs ->
  scheduled t a = (fun r => generation_number (after_generation r)) <$>
                    filter (fun r => after_target r = t) rs.
Proof. by intros <-. Qed.

Lemma step_fenced t s n exp e :
  fenced t s n exp ->
  exists a n', (transition s e).2 = Ok a /\
    first_generations n ++ scheduled t a = first_generations n' /\
    fenced t (transition s e).1 n' (exp ++ expiries t a).
Proof.
  intros F. destruct (transition_effect s e) as (a & Ha & He). exists a. revert He.
  generalize ((transition s e).1) as s'. intros s' He. rewrite Ha. clear Ha e.
  destruct He as [a Hr He Hc|p v g l r a Hg Hcol Hp Hr He Hc|i cur v g l r a p Hi Hv Hg Hcol Hr He Hc
                 |i p t0 v g l r a Hi Hr He Hc];
    rewrite He, (scheduled_requests t a _ Hr); rewrite ?app_nil_r.
  - by exists n.
  - assert (Hother : forall j x, j <> length (records s) -> records s !! j = Some x ->
              participant (entry x) <> p).
    { intros j x _ Hx <-. apply Hp, list_elem_of_fmap. exists x. split; [done|].
      by eapply list_elem_of_lookup_2. }
    pose proof (commit_fenced t s _ n exp _ p v g l r F (writes_snoc s _) Hother) as HF.
    rewrite lookup_ge_None_2 in HF by done. specialize (HF ltac:(done) Hcol Hg).
    rewrite filter_cons. simpl. rewrite filter_nil.
    case_bool_decide; [destruct HF as [Hn HF]; exists (S n)|exists n];
      destruct (decide _); simplify_eq/=; rewrite ?app_nil_r; split_and!; auto.
    by rewrite first_generations_S, Hn.
  - assert (Hother : forall j x, j <> i -> records s !! j = Some x -> participant (entry x) <> p).
    { intros j x Hj Hx E. apply Hj. by eapply (fence_unique _ _ _ _ F j i x cur). }
    pose proof (fence_timer _ _ _ _ F i cur Hi) as Ht. fold p in Ht. rewrite Ht.
    pose proof (commit_fenced t s _ n exp i p v g l r F (writes_insert s i _ cur Hi) Hother) as HF.
    rewrite Hi in HF. specialize (HF ltac:(by intros ? [= <-]) Hcol Hg).
    rewrite filter_cons. simpl. rewrite filter_nil.
    case_bool_decide; [destruct HF as [Hn HF]; exists (S n)|exists n];
      destruct (decide _); simplify_eq/=; rewrite ?app_nil_r; split_and!; auto.
    by rewrite first_generations_S, Hn.
  - exists n. split_and!; [done|done|].
    by eapply expire_fenced.
Qed.

(** The versions committed for [p] increase, and its record keeps the last one. *)
Definition versioned (p : K) (s : presence) (vs : list N) : Prop :=
  StronglySorted N.lt vs /\
  ((vs = [] /\ forall i x, records s !! i = Some x -> participant (entry x) <> p) \/
   (exists i x vs0, records s !! i = Some x /\ participant (entry x) = p /\
      vs = vs0 ++ [phase_version (phase (entry x))])).

Lemma versioned_write p s s' vs i x :
  writes s s' i x -> versioned p s vs ->
  (forall y, records s !! i = Some y -> participant (entry y) = participant (entry x)) ->
  (forall j y, j <> i -> records s !! j = Some y -> participant (entry y) <> participant (entry x)) ->
  (forall y, records s !! i = Some y ->
     (phase_version (phase (entry y)) < phase_version (phase (entry x)))%N) ->
  versioned p s' (vs ++ if bool_decide (participant (entry x) = p)
                        then [phase_version (phase (entry x))] else []).
Proof.
  intros Hw [Hs Hv] Hsame Hne Hlt. case_bool_decide as E; [subst p|rewrite app_nil_r].
  - split; [|right; exists i, x, vs; split; [by apply Hw; left|done]].
    destruct Hv as [[-> _]|(j & y & vs0 & Hj & Ey & ->)]; [by repeat constructor|].
    destruct (decide (j = i)) as [->|Hji]; [|by destruct (Hne j y)].
    specialize (Hlt y Hj). apply StronglySorted_app. apply StronglySorted_app in Hs as Hs'.
    destruct Hs' as (Hs0 & _ & _). split_and!; [|done|by repeat constructor].
    intros a b Ha ->%list_elem_of_singleton.
    apply elem_of_app in Ha as [Ha| ->%list_elem_of_singleton]; [|done].
    specialize (Hs0 a _ Ha (list_elem_of_here _ _)). lia.
  - split; [done|]. destruct Hv as [[-> Hno]|(j & y & vs0 & Hj & Ey & ->)].
    + left. split; [done|]. intros j y [[-> ->]|[_ Hy]]%Hw; [done|by eapply Hno].
    + right. exists j, y, vs0. split; [|done]. apply Hw. right. split; [|done].
      intros ->. apply E. rewrite <- Ey. symmetry. by apply Hsame.
Qed.

Lemma step_versioned p s vs e :
  (forall i j x y, records s !! i = Some x -> records s !! j = Some y ->
     participant (entry x) = participant (entry y) -> i = j) ->
  versioned p s vs ->
  exists a, (transition s e).2 = Ok a /\ versioned p (transition s e).1 (vs ++ commits p a).
Proof.
  intros Hu Hv. destruct (transition_effect s e) as (a & Ha & He). exists a. revert He.
  generalize ((transition s e).1) as s'. intros s' He. rewrite Ha. clear Ha e. split; [done|].
  destruct He as [a Hr He Hc|q v g l r a Hg Hcol Hq Hr He Hc|i cur v g l r a q Hi Hlt Hg Hcol Hr He Hc
                 |i q t0 v g l r a Hi Hr He Hc]; rewrite Hc, ?app_nil_r; [done|..].
  - apply (versioned_write p s _ vs _ (mkRecord (mkEntry q (timer_id q) (Present v g l)) r)
             (writes_snoc s _) Hv); simpl.
    + intros y Hy. by rewrite lookup_ge_None_2 in Hy.
    + intros j y _ Hy <-. apply Hq, list_elem_of_fmap. exists y. split; [done|].
      by eapply list_elem_of_lookup_2.
    + intros y Hy. by rewrite lookup_ge_None_2 in Hy.
  - apply (versioned_write p s _ vs _
             (mkRecord (mkEntry q (entry_timer (entry cur)) (Present v g l)) r)
             (writes_insert s i _ cur Hi) Hv); simpl.
    + intros y Hy. by rewrite Hi in Hy; injection Hy as <-.
    + intros j y Hj Hy E. apply Hj. by eapply Hu.
    + intros y Hy. by rewrite Hi in Hy; injection Hy as <-.
  - destruct Hv as [Hs Hv]. split; [done|].
    pose proof (writes_insert s i (mkRecord (mkEntry q t0 (ExpiredPhase v g)) r) _ Hi) as Hw.
    destruct Hv as [[-> Hno]|(j & y & vs0 & Hj & Ey & ->)].
    + left. split; [done|]. intros j y [[-> ->]|[_ Hy]]%Hw; [by apply (Hno i _ Hi)|by eapply Hno].
    + right. destruct (decide (j = i)) as [->|Hji].
      * rewrite Hi in Hj. injection Hj as <-. eexists i, _, vs0.
        split; [by apply Hw; left|done].
      * exists j, y, vs0. split; [|done]. apply Hw. by right.
Qed.

(** What the successful steps of a run show, in order. *)
Definition shown {X} (f : presence_actions -> list X) (_ : presence_event)
  (o : Acted Never Never presence_sends Never) : list X :=
  match o with Ok a => f a | Err e => match e with end end.

Lemma run_fenced t p es : forall s n exp vs,
  fenced t s n exp -> versioned p s vs ->
  let '(s', os) := trace transition s es in
  exists n', first_generations n ++ collect (shown (scheduled t)) es os = first_generations n' /\
    fenced t s' n' (exp ++ collect (shown (expiries t)) es os) /\
    versioned p s' (vs ++ collect (shown (commits p)) es os).
Proof.
  induction es as [|e es IH]; intros s n exp vs F V; cbn [trace].
  - exists n. cbn [collect]. by rewrite !app_nil_r.
  - destruct (step_fenced t s n exp e F) as (a & n1 & Ha & Hn & F1).
    destruct (step_versioned p s vs e (fence_unique _ _ _ _ F) V) as (a' & Ha' & V1).
    assert (a' = a) as -> by congruence.
    destruct (transition s e) as [s1 o]. cbn [fst snd] in *. subst o.
    specialize (IH s1 n1 _ _ F1 V1). destruct (trace transition s1 es) as [s2 os].
    destruct IH as (n2 & H1 & H2 & H3). exists n2. cbn [collect shown].
    by rewrite !app_assoc, Hn.
Qed.

(** Evidence of the current generation of a present participant expires it. *)
Lemma fenced_expire t s n exp i p v g l r :
  fenced t s n exp ->
  records s !! i = Some (mkRecord (mkEntry p t (Present v g l)) r) ->
  transition s (Owned_ (mkTimerElapsed t g)) =
    (mkPresence (<[i := mkRecord (mkEntry p t (ExpiredPhase v g)) r]> (records s)),
     Ok (reply r (Outcome (Expired p v g)))).
Proof.
  intros F Hi. unfold transition, expire.
  destruct (position _ (records s)) as [j|] eqn:Hj.
  - destruct (position_Some _ _ _ Hj) as (x & Hx & Haw & _).
    unfold awaits in Haw. apply andb_true_iff in Haw as [Ht%bool_decide_eq_true_1 Hg]. simpl in Ht.
    assert (j = i) as ->.
    { apply (fence_single _ _ _ _ F j i x _ Hx Hi); [done|done| |done].
      by destruct (phase (entry x)). }
    by rewrite Hi.
  - apply position_None in Hj. rewrite Forall_lookup in Hj. specialize (Hj i _ Hi).
    unfold awaits in Hj. simpl in Hj. by rewrite !bool_decide_eq_true_2 in Hj.
Qed.

Lemma expire_inert s t g :
  (forall i q v l r, records s !! i <> Some (mkRecord (mkEntry q t (Present v g l)) r)) ->
  transition s (Owned_ (mkTimerElapsed t g)) = (s, Ok cont).
Proof.
  intros Hno. unfold transition, expire.
  destruct (position _ (records s)) as [i|] eqn:Hi; [|done].
  destruct (position_Some _ _ _ Hi) as ([[q t' ph] r] & Hx & Haw & _).
  unfold awaits in Haw. simpl in Haw. apply andb_true_iff in Haw as [->%bool_decide_eq_true_1 Hg].
  destruct ph as [v g' l|]; [|done]. apply bool_decide_eq_true_1 in Hg as ->.
  by destruct (Hno i q v l r).
Qed.

(** Presence fences its timers and orders its evidence.  On every run, for
    every timer key: the generations scheduled are 0, 1, 2, ... within u64, whichever
    participants use the key; the generations reported expired are some of them, in
    order, each at most once; at most one participant is present under the key, it
    holds the last generation, not yet expired, and the evidence of exactly that
    generation expires it and notifies it, while evidence of any other generation
    is inert.  For every participant the committed versions increase strictly. *)
Theorem presence_generations_fence es t p :
  let '(s, os) := trace transition new es in
  (exists n,
     collect (shown (scheduled t)) es os = first_generations n /\
     (N.of_nat n <= u64_max + 1)%N /\
     collect (shown (expiries t)) es os `sublist_of` first_generations n /\
     (forall i q v g l r, records s !! i = Some (mkRecord (mkEntry q t (Present v g l)) r) ->
        N.succ (generation_number g) = N.of_nat n /\
        (generation_number g ∉ collect (shown (expiries t)) es os) /\
        (forall j x, records s !! j = Some x -> timer_of x = t -> live x -> j = i) /\
        transition s (Owned_ (mkTimerElapsed t g)) =
          (mkPresence (<[i := mkRecord (mkEntry q t (ExpiredPhase v g)) r]> (records s)),
           Ok (reply r (Outcome (Expired q v g))))) /\
     (forall g, (forall i q v l r,
                   records s !! i <> Some (mkRecord (mkEntry q t (Present v g l)) r)) ->
        transition s (Owned_ (mkTimerElapsed t g)) = (s, Ok cont))) /\
  StronglySorted N.lt (collect (shown (commits p)) es os).
Proof.
  assert (F : fenced t new 0 []).
  { split; solve [by left | constructor | done | intros; by simplify_eq/=]. }
  assert (V : versioned p new []).
  { split; [constructor|]. left. split; [done|]. intros; by simplify_eq/=. }
  pose proof (run_fenced t p es new 0 [] [] F V) as H.
  destruct (trace transition new es) as [s os]. destruct H as (n & Hn & Hf & [Hs _]).
  split; [|done]. exists n. split_and!; [done|apply Hf|apply Hf| |apply expire_inert].
  intros i q v g l r Hi. destruct (fence_live _ _ _ _ Hf i _ Hi eq_refl eq_refl) as [Hg Hx].
  simpl in Hg. split_and!; [done| | |by eapply fenced_expire].
  - intros Hin.
    assert (Hlt : generation_number g ∈ first_generations (n - 1)).
    { eapply elem_of_submseteq; [exact Hin|]. by apply sublist_submseteq. }
    apply list_elem_of_fmap in Hlt as (k & E & Hk%elem_of_seq). lia.
  - intros j x Hj Tx Lx. by apply (fence_single _ _ _ _ Hf j i x _ Hj Hi).
Qed.

End Presence.
