(* ===== verification/Cache.v ===== *)
(** * The bounded cache ([crates/actors/src/persistence/cache.rs])

    Least-recently-used values over a vector in recency order.  The vector refines
    a finite map with a separate recency order of keys, and keeps a key as long as
    fewer than [capacity] other keys have been touched since. *)

From stdpp Require Import base list option numbers gmap.
From S2P Require Import Prelude Effects.

Record CacheEntry (K V : Type) := mkCacheEntry { key : K; value : V }.
Arguments mkCacheEntry {K V} _ _.
Arguments key {K V} _.
Arguments value {K V} _.

Record CacheState (K V : Type) := mkCacheState {
  capacity : nat;
  entries : list (CacheEntry K V)
}.
Arguments mkCacheState {K V} _ _.
Arguments capacity {K V} _.
Arguments entries {K V} _.

Inductive CacheResult (K V : Type) : Type :=
| Stored (k : K) (replaced : option V) (evicted : option (CacheEntry K V))
| Hit (k : K) (v : V)
| Miss (k : K)
| Removed (k : K) (v : V)
| Absent (k : K).
Arguments Stored {K V} _ _ _.
Arguments Hit {K V} _ _.
Arguments Miss {K V} _.
Arguments Removed {K V} _ _.
Arguments Absent {K V} _.

Inductive CacheMessage (K V Route : Type) : Type :=
| Put (k : K) (v : V) (reply_to : Route)
| Get (k : K) (reply_to : Route)
| Remove (k : K) (reply_to : Route).
Arguments Put {K V Route} _ _ _.
Arguments Get {K V Route} _ _.
Arguments Remove {K V Route} _ _.

Inductive CacheConfigError : Type := ZeroCapacity.

Record CacheConfiguration := mkCacheConfiguration { configured_capacity : nat }.

Definition CacheConfiguration_new (c : nat) : result CacheConfiguration CacheConfigError :=
  if c =? 0 then Err ZeroCapacity else Ok (mkCacheConfiguration c).

Section Cache.
  Context {A K V Route Sends : Type} `{!EqDecision K}.
  Context `{!SendEffects Sends, !DeliveryRoute Route (CacheResult K V) Sends}.

Abbreviation cache := (CacheState K V).

(** The entries are empty.  [Vec::with_capacity] also reserves room for the whole
    capacity, and panics when that many entries exceed the address space; a
    configuration that large is not modelled. *)
Definition new (c : CacheConfiguration) : cache := mkCacheState (configured_capacity c) [].

(** [iter().position(..).map(|index| entries.remove(index))]. *)
Definition take_entry (l : list (CacheEntry K V)) (k : K) :
  list (CacheEntry K V) * option (CacheEntry K V) :=
  match position (fun e => bool_decide (key e = k)) l with
  | Some index => (base.delete index l, l !! index)
  | None => (l, None)
  end.

(** [if replaced.is_none() && len == capacity { Some(remove(0)) }]: [remove(0)]
    panics on an empty vector, which a positive capacity excludes. *)
Definition evict (c : nat) (replaced : option V) (l : list (CacheEntry K V)) :
  option (list (CacheEntry K V) * option (CacheEntry K V)) :=
  match replaced with
  | None =>
      if length l =? c then
        match l with [] => None | oldest :: rest => Some (rest, Some oldest) end
      else Some (l, None)
  | Some _ => Some (l, None)
  end.

Definition fold (s : cache) (m : CacheMessage K V Route) :
  option (cache * (Route * CacheResult K V)) :=
  match m with
  | Put k v reply_to =>
      let '(l, taken) := take_entry (entries s) k in
      let replaced := value <$> taken in
      '(l, evicted) ← evict (capacity s) replaced l;
      Some (mkCacheState (capacity s) (l ++ [mkCacheEntry k v]),
            (reply_to, Stored k replaced evicted))
  | Get k reply_to =>
      let '(l, taken) := take_entry (entries s) k in
      Some (match taken with
            | Some e =>
                (mkCacheState (capacity s) (l ++ [e]), (reply_to, Hit k (value e)))
            | None => (s, (reply_to, Miss k))
            end)
  | Remove k reply_to =>
      let '(l, taken) := take_entry (entries s) k in
      Some (match taken with
            | Some e => (mkCacheState (capacity s) l, (reply_to, Removed k (value e)))
            | None => (s, (reply_to, Absent k))
            end)
  end.

Definition transition (s : cache) (event : User A (CacheMessage K V Route)) :
  option (cache * Acted Never Never Sends Never) :=
  '(s', (reply_to, result)) ← fold s (message event);
  Some (s', Ok (send (deliver reply_to result))).

End Cache.

(** ** Removing a key *)

Section Take.
  Context {K V : Type} `{!EqDecision K}.
  Implicit Types (l : list (CacheEntry K V)).

Abbreviation others k := (filter (fun e : CacheEntry K V => key e <> k)).

Lemma others_id l k : k ∉ key <$> l -> others k l = l.
Proof.
  induction l as [|e l IH]; [done|]. rewrite fmap_cons. intros [Hk Hl]%not_elem_of_cons.
  by rewrite filter_cons_True, IH.
Qed.

Lemma others_keys l k : key <$> others k l = filter (fun x => x <> k) (key <$> l).
Proof.
  induction l as [|e l IH]; [done|]. rewrite fmap_cons. destruct (decide (key e = k)).
  - by rewrite !filter_cons_False by tauto.
  - by rewrite !filter_cons_True, fmap_cons, IH.
Qed.

Lemma others_NoDup l k : NoDup (key <$> l) -> NoDup (key <$> others k l).
Proof. intros. rewrite others_keys. by apply list.NoDup_filter. Qed.

Lemma not_elem_of_others l k : k ∉ key <$> others k l.
Proof. rewrite others_keys, list_elem_of_filter. tauto. Qed.

Lemma take_entry_None l k : k ∉ key <$> l -> take_entry l k = (l, None).
Proof.
  intros Hk. unfold take_entry.
  destruct (position _ l) as [i|] eqn:Hi; [|done].
  destruct (position_Some _ _ _ Hi) as (x & Hx & <-%bool_decide_eq_true_1 & _).
  destruct Hk. apply list_elem_of_fmap. exists x. split; [done|]. by eapply list_elem_of_lookup_2.
Qed.

Lemma take_entry_Some l1 e l2 :
  NoDup (key <$> (l1 ++ e :: l2)) ->
  take_entry (l1 ++ e :: l2) (key e) = (l1 ++ l2, Some e) /\
  others (key e) (l1 ++ e :: l2) = l1 ++ l2.
Proof.
  rewrite fmap_app, fmap_cons. intros (H1 & Hd & [He H2]%list.NoDup_cons)%list.NoDup_app.
  assert (Hl1 : key e ∉ key <$> l1) by (intros Hin; apply (Hd _ Hin); left).
  assert (Hpos : position (fun x : CacheEntry K V => bool_decide (key x = key e)) (l1 ++ e :: l2)
                 = Some (length l1)).
  { clear Hd H1. induction l1 as [|x l1 IH]; simpl; [by rewrite bool_decide_eq_true_2|].
    rewrite fmap_cons in Hl1. apply not_elem_of_cons in Hl1 as [Hx Hl1].
    rewrite bool_decide_eq_false_2 by congruence. by rewrite IH. }
  unfold take_entry. rewrite Hpos, list_lookup_middle, delete_middle by done. split; [done|].
  rewrite list.filter_app, filter_cons_False by tauto. by rewrite !others_id.
Qed.

(** The two cases of [take_entry] for distinct keys. *)
Lemma take_entry_cases l k :
  NoDup (key <$> l) ->
  ((k ∉ key <$> l) /\ take_entry l k = (l, None)) \/
  (exists l1 v l2, l = l1 ++ mkCacheEntry k v :: l2 /\
     take_entry l k = (l1 ++ l2, Some (mkCacheEntry k v)) /\ others k l = l1 ++ l2).
Proof.
  intros Hn. destruct (decide (k ∈ key <$> l)) as [Hin|Hk]; [right|left; auto using take_entry_None].
  apply list_elem_of_fmap in Hin as ([k' v] & -> & (l1 & l2 & ->)%list_elem_of_split).
  exists l1, v, l2. split; [done|]. by apply take_entry_Some.
Qed.

End Take.

(** ** The reference: a map and a recency order *)

Section Lru.
  Context {A K V Route Sends : Type} `{!EqDecision K, !Countable K}.
  Context `{!SendEffects Sends, !DeliveryRoute Route (CacheResult K V) Sends}.

Abbreviation cache := (CacheState K V).
Abbreviation step := (fold (K := K) (V := V) (Route := Route)).
Abbreviation denote l := (list_to_map ((fun e : CacheEntry K V => (key e, value e)) <$> l) : gmap K V).

Record Lru := mkLru { values : gmap K V; recency : list K }.

Definition touch (k : K) (l : list K) : list K := filter (fun x => x <> k) l ++ [k].

Definition victim (cap : nat) (s : Lru) (k : K) : option (CacheEntry K V) :=
  match values s !! k with
  | Some _ => None
  | None =>
      if size (values s) =? cap then
        oldest ← head (recency s); mkCacheEntry oldest <$> values s !! oldest
      else None
  end.

Definition lru_step (cap : nat) (s : Lru) (m : CacheMessage K V Route) :
  Lru * (Route * CacheResult K V) :=
  match m with
  | Put k v r =>
      let evicted := victim cap s k in
      let '(vs, order) :=
        match evicted with
        | Some e => (delete (key e) (values s), filter (fun x => x <> key e) (recency s))
        | None => (values s, recency s)
        end in
      (mkLru (<[k := v]> vs) (touch k order), (r, Stored k (values s !! k) evicted))
  | Get k r =>
      match values s !! k with
      | Some v => (mkLru (values s) (touch k (recency s)), (r, Hit k v))
      | None => (s, (r, Miss k))
      end
  | Remove k r =>
      match values s !! k with
      | Some v => (mkLru (delete k (values s)) (filter (fun x => x <> k) (recency s)), (r, Removed k v))
      | None => (s, (r, Absent k))
      end
  end.

Record simulates (cap : nat) (s : cache) (a : Lru) : Prop := {
  sim_capacity : capacity s = cap;
  sim_bound : length (entries s) <= cap;
  sim_unique : NoDup (key <$> entries s);
  sim_values : denote (entries s) = values a;
  sim_recency : key <$> entries s = recency a
}.

Lemma denote_keys (l : list (CacheEntry K V)) :
  ((fun e => (key e, value e)) <$> l).*1 = key <$> l.
Proof. rewrite <- list_fmap_compose. by apply list_fmap_ext. Qed.

Lemma denote_None l k : k ∉ key <$> l -> denote l !! k = None.
Proof. intros. apply not_elem_of_list_to_map_1. by rewrite denote_keys. Qed.

Lemma denote_insert l k v : k ∉ key <$> l -> denote (l ++ [mkCacheEntry k v]) = <[k := v]> (denote l).
Proof.
  intros. rewrite fmap_app. simpl. rewrite list_to_map_snoc; [done|]. by rewrite denote_keys.
Qed.

Lemma denote_middle l1 k v l2 :
  NoDup (key <$> (l1 ++ mkCacheEntry k v :: l2)) ->
  denote (l1 ++ mkCacheEntry k v :: l2) = <[k := v]> (denote (l1 ++ l2)) /\
  (k ∉ key <$> (l1 ++ l2)) /\ NoDup (key <$> (l1 ++ l2)).
Proof.
  intros Hn. assert (Hp : key <$> (l1 ++ mkCacheEntry k v :: l2) ≡ₚ k :: (key <$> (l1 ++ l2))).
  { rewrite !fmap_app, fmap_cons. simpl. by rewrite Permutation_middle. }
  rewrite Hp in Hn. apply list.NoDup_cons in Hn as Hn'. split; [|done].
  assert (Hl : ((fun e : CacheEntry K V => (key e, value e)) <$> (l1 ++ mkCacheEntry k v :: l2)) ≡ₚ
               (k, v) :: ((fun e => (key e, value e)) <$> (l1 ++ l2))).
  { rewrite !fmap_app, fmap_cons. simpl. by rewrite Permutation_middle. }
  apply (list_to_map_proper (M := gmap K)) in Hl; [done|]. by rewrite denote_keys, Hp.
Qed.

Lemma denote_size l : NoDup (key <$> l) -> size (denote l) = length l.
Proof.
  induction l as [|e l IH]; [done|]. rewrite !fmap_cons. intros [Hk Hl]%list.NoDup_cons.
  simpl. rewrite map_size_insert_None, IH; [done|done|]. by apply denote_None.
Qed.

Lemma touch_middle (l1 l2 : list (CacheEntry K V)) k v w :
  NoDup (key <$> (l1 ++ mkCacheEntry k v :: l2)) ->
  key <$> ((l1 ++ l2) ++ [mkCacheEntry k w]) = touch k (key <$> (l1 ++ mkCacheEntry k v :: l2)).
Proof.
  intros Hn. unfold touch. rewrite <- others_keys, (proj2 (take_entry_Some l1 _ l2 Hn)).
  by rewrite fmap_app.
Qed.

Lemma touch_absent (l : list K) k : k ∉ l -> touch k l = l ++ [k].
Proof. intros. unfold touch. by rewrite filter_ne_id. Qed.

Lemma length_middle (l1 l2 : list (CacheEntry K V)) e : length (l1 ++ e :: l2) = S (length (l1 ++ l2)).
Proof. rewrite !length_app. simpl. lia. Qed.

(** Storing a key that is not held. *)
Lemma simulates_append cap (l : list (CacheEntry K V)) k v :
  (k ∉ key <$> l) -> NoDup (key <$> l) -> length l < cap ->
  simulates cap (mkCacheState cap (l ++ [mkCacheEntry k v]))
    (mkLru (<[k := v]> (denote l)) ((key <$> l) ++ [k])).
Proof.
  intros Hk Hn Hl. split; simpl; [done|rewrite length_app; simpl; lia|..].
  - rewrite fmap_app. by apply NoDup_snoc.
  - by apply denote_insert.
  - by rewrite fmap_app.
Qed.

(** Storing a key that is held: its entry moves to the end. *)
Lemma simulates_touch cap (l1 l2 : list (CacheEntry K V)) k v w :
  NoDup (key <$> (l1 ++ mkCacheEntry k v :: l2)) -> length (l1 ++ mkCacheEntry k v :: l2) <= cap ->
  simulates cap (mkCacheState cap ((l1 ++ l2) ++ [mkCacheEntry k w]))
    (mkLru (<[k := w]> (denote (l1 ++ l2))) (touch k (key <$> (l1 ++ mkCacheEntry k v :: l2)))).
Proof.
  intros Hu Hb. destruct (denote_middle l1 k v l2 Hu) as (_ & Hk & Hn). rewrite length_middle in Hb.
  rewrite <- (touch_middle l1 l2 k v w Hu), (fmap_app key (l1 ++ l2)). by apply simulates_append.
Qed.

(** One step: never a panic, the same answer, and the relation again. *)
Lemma cache_step_simulates cap s a m :
  0 < cap -> simulates cap s a ->
  exists s', step s m = Some (s', (lru_step cap a m).2) /\ simulates cap s' (lru_step cap a m).1.
Proof.
  intros Hpos [Hc Hb Hu Hv Hr]. destruct s as [c l], a as [vs order]. simpl in *. subst c vs order.
  destruct m as [k v r|k r|k r]; unfold lru_step, fold; cbn [values recency entries capacity];
    destruct (take_entry_cases l k Hu) as [[Hk ->]|(l1 & w & l2 & -> & -> & Ho)].
  - unfold victim. cbn [values recency]. rewrite (denote_None l k Hk), denote_size by done. simpl.
    destruct (Nat.eqb_spec (length l) cap) as [E|E].
    + destruct l as [|[k0 v0] l]; [simpl in E; lia|]. simpl in *. rewrite lookup_insert_eq. simpl.
      apply list.NoDup_cons in Hu as [H0 Hu]. apply not_elem_of_cons in Hk as [Hk0 Hk].
      rewrite filter_cons_False by tauto. rewrite filter_ne_id by done.
      rewrite delete_insert_id by (by apply denote_None).
      eexists. split; [done|]. rewrite touch_absent by done. apply simulates_append; [done|done|lia].
    + eexists. split; [done|]. rewrite touch_absent by done. apply simulates_append; [done|done|lia].
  - destruct (denote_middle l1 k w l2 Hu) as (Hd & Hk & Hn). unfold victim. cbn [values recency].
    rewrite Hd, lookup_insert_eq. simpl. rewrite insert_insert_eq.
    eexists. split; [done|]. by apply simulates_touch.
  - rewrite (denote_None l k Hk). eexists. split; [done|]. by split.
  - destruct (denote_middle l1 k w l2 Hu) as (Hd & Hk & Hn). rewrite Hd, lookup_insert_eq.
    eexists. split; [done|]. by apply simulates_touch.
  - rewrite (denote_None l k Hk). eexists. split; [done|]. by split.
  - destruct (denote_middle l1 k w l2 Hu) as (Hd & Hk & Hn). rewrite Hd, lookup_insert_eq.
    eexists. split; [done|]. rewrite length_middle in Hb.
    split; simpl; [done|lia|done| |by rewrite <- Ho, others_keys].
    rewrite delete_insert_id; [done|]. by apply denote_None.
Qed.

Abbreviation event := (User A (CacheMessage K V Route)).
Abbreviation answer := (fun out : Route * CacheResult K V =>
  Ok (send (deliver out.1 out.2)) : Acted Never Never Sends Never).

Lemma cache_run_simulates cap (es : list event) : forall s a,
  0 < cap -> simulates cap s a ->
  exists s', otrace transition s es =
      Some (s', answer <$> (trace (lru_step cap) a (message <$> es)).2) /\
    simulates cap s' (trace (lru_step cap) a (message <$> es)).1.
Proof.
  induction es as [|e es IH]; intros s a Hc Hs; [by exists s|].
  rewrite fmap_cons. cbn [otrace trace]. unfold transition at 1.
  destruct (cache_step_simulates cap s a (message e) Hc Hs) as (s1 & -> & H1).
  destruct (lru_step cap a (message e)) as [a1 [r out]]. cbn [mbind option_bind fst snd] in *.
  destruct (IH s1 a1 Hc H1) as (s2 & -> & H2).
  destruct (trace (lru_step cap) a1 (message <$> es)) as [a2 os]. by exists s2.
Qed.

(** C31.  The cache is a bounded least-recently-used map.  For every accepted
    configuration and every sequence of commands, no command panics and the answers
    are those of the reference: a finite map and, apart from it, the order in which
    its keys were last touched; a new key at capacity evicts the least recently
    touched key and returns its entry, replacing returns the old value, a get
    refreshes, a remove returns the value.  The entries never exceed the capacity,
    have distinct keys, denote the map and stand in that order. *)
Theorem cache_refines_lru c configuration (es : list event) :
  CacheConfiguration_new c = Ok configuration ->
  let '(a, outs) := trace (lru_step c) (mkLru ∅ []) (message <$> es) in
  exists s, otrace transition (new configuration) es = Some (s, answer <$> outs) /\ simulates c s a.
Proof.
  unfold CacheConfiguration_new. destruct (Nat.eqb_spec c 0); [done|]. intros [= <-].
  destruct (cache_run_simulates c es (new (mkCacheConfiguration c)) (mkLru ∅ [])) as (s & Hs & Hr).
  - lia.
  - split; simpl; [done|lia|apply NoDup_nil_2|done|done].
  - destruct (trace (lru_step c) (mkLru ∅ []) (message <$> es)). by exists s.
Qed.

(** ** Retention *)

(** The key that a command may move to the recent end. *)
Definition touched (m : CacheMessage K V Route) : option K :=
  match m with Put k _ _ | Get k _ => Some k | Remove _ _ => None end.

(** The command neither overwrites nor removes [k]. *)
Definition spares (k : K) (m : CacheMessage K V Route) : Prop :=
  match m with Put k' _ _ | Remove k' _ => k' <> k | Get _ _ => True end.

(** [k] is held with value [v], and only keys of [others] were touched since. *)
Definition holds (k : K) (v : V) (others : list K) (a : Lru) : Prop :=
  values a !! k = Some v /\
  exists older newer, recency a = older ++ k :: newer /\ newer ⊆ others.

Lemma simulates_shape cap s a :
  simulates cap s a ->
  NoDup (recency a) /\ size (values a) = length (recency a) /\
  forall x, values a !! x = None <-> x ∉ recency a.
Proof.
  intros [_ _ Hu <- <-]. split_and!; [done|by rewrite denote_size, length_fmap|].
  intros x. split; [|by apply denote_None]. intros Hx Hin.
  apply not_elem_of_list_to_map_2 in Hx. by rewrite denote_keys in Hx.
Qed.

Lemma holds_touch k v others a x :
  holds k v others a -> x <> k -> x ∈ others ->
  exists older newer, touch x (recency a) = older ++ k :: newer /\ newer ⊆ others.
Proof.
  intros [_ (older & newer & -> & Hn)] Hx Hin. unfold touch.
  rewrite list.filter_app, filter_cons_True, <- app_assoc by congruence.
  eexists _, _. split; [done|]. intros y [Hy| ->%list_elem_of_singleton]%elem_of_app; [|done].
  apply list_elem_of_filter in Hy as [_ Hy]. by apply Hn.
Qed.

Lemma holds_filter k v others a x :
  holds k v others a -> x <> k ->
  exists older newer, filter (fun y => y <> x) (recency a) = older ++ k :: newer /\ newer ⊆ others.
Proof.
  intros [_ (older & newer & -> & Hn)] Hx.
  rewrite list.filter_app, filter_cons_True by congruence.
  eexists _, _. split; [done|]. intros y [_ Hy]%list_elem_of_filter. by apply Hn.
Qed.

(** The victim of a new key is never [k] while few keys were touched since. *)
Lemma victim_spares cap s a k v others x e :
  simulates cap s a -> holds k v others a -> x <> k -> x ∈ others ->
  length (remove_dups others) < cap -> victim cap a x = Some e -> key e <> k.
Proof.
  intros Hs [Hv (older & newer & Hr & Hn)] Hx Hin Hlen.
  destruct (simulates_shape cap s a Hs) as (Hu & Hsz & Hdom).
  unfold victim. destruct (values a !! x) as [w|] eqn:Hvx; [done|].
  destruct (Nat.eqb_spec (size (values a)) cap) as [E|E]; [|done].
  intros (o & Ho & (w & Hw & ->)%fmap_Some)%bind_Some. simpl. intros ->.
  apply Hdom in Hvx. rewrite Hr in *. destruct older as [|y older]; simpl in *; simplify_eq.
  - apply list.NoDup_cons in Hu as [Hk Hu]. apply not_elem_of_cons in Hvx as [_ Hvx].
    assert (Hsub : x :: newer ⊆+ remove_dups others).
    { apply NoDup_submseteq; [by apply list.NoDup_cons|].
      intros y [->|Hy]%elem_of_cons; apply elem_of_remove_dups; [done|by apply Hn]. }
    apply submseteq_length in Hsub. simpl in Hsub. lia.
  - apply list.NoDup_cons in Hu as [Hk _]. apply Hk, elem_of_app. right. left.
Qed.

Lemma holds_step cap s a k v others m :
  simulates cap s a -> holds k v others a -> spares k m ->
  (forall x, touched m = Some x -> x <> k -> x ∈ others) ->
  length (remove_dups others) < cap ->
  holds k v others (lru_step cap a m).1.
Proof.
  intros Hs Hh Hm Ht Hlen. pose proof Hh as [Hv _].
  destruct m as [x w r|x r|x r]; simpl in *.
  - specialize (Ht x eq_refl Hm). pose proof (victim_spares cap s a k v others x) as Hvic.
    destruct (victim cap a x) as [e|]; simpl.
    + specialize (Hvic e Hs Hh Hm Ht Hlen eq_refl).
      split; simpl; [by rewrite lookup_insert_ne, lookup_delete_ne by congruence|].
      apply (holds_touch k v others (mkLru (delete (key e) (values a)) (filter (fun y => y <> key e) (recency a))));
        [|done|done].
      split; simpl; [by rewrite lookup_delete_ne|by apply (holds_filter k v others)].
    + split; simpl; [by rewrite lookup_insert_ne by congruence|by apply (holds_touch k v others)].
  - destruct (values a !! x) as [w|] eqn:Hx; [|done]. simpl. split; simpl; [done|].
    destruct (decide (x = k)) as [->|Hne]; [|by apply (holds_touch k v others); auto].
    exists (filter (fun y => y <> k) (recency a)), []. split; [done|]. by intros y ?%not_elem_of_nil.
  - destruct (values a !! x) as [w|] eqn:Hx; [|done]. simpl.
    split; simpl; [by rewrite lookup_delete_ne|by apply (holds_filter k v others)].
Qed.

Lemma holds_run cap k v others (ms : list (CacheMessage K V Route)) : forall s a,
  0 < cap -> simulates cap s a -> holds k v others a -> Forall (spares k) ms ->
  (forall x, x ∈ omap touched ms -> x <> k -> x ∈ others) ->
  length (remove_dups others) < cap ->
  holds k v others (trace (lru_step cap) a ms).1.
Proof.
  induction ms as [|m ms IH]; intros s a Hc Hs Hh Hm Ht Hlen; [done|].
  apply Forall_cons in Hm as [Hm Hms]. cbn [trace].
  destruct (cache_step_simulates cap s a m Hc Hs) as (s1 & _ & H1).
  pose proof (holds_step cap s a k v others m Hs Hh Hm) as Hstep.
  destruct (lru_step cap a m) as [a1 o]. cbn [fst] in *.
  destruct (trace (lru_step cap) a1 ms) as [a2 os] eqn:E. cbn [fst].
  replace a2 with (trace (lru_step cap) a1 ms).1 by by rewrite E.
  apply (IH s1); auto.
  - apply Hstep; [|done]. intros x Hx. apply Ht. cbn. rewrite Hx. left.
  - intros x Hx. apply Ht. cbn. destruct (touched m); [by right|done].
Qed.

Lemma lru_step_hit cap a k v r :
  values a !! k = Some v -> (lru_step cap a (Get k r)).2 = (r, Hit k v).
Proof. intros H. simpl. by rewrite H. Qed.

(** The least-recently-used guarantee.  After any commands, a value put under
    [k] is returned by a later get of [k], provided that in between [k] is not
    overwritten or removed and fewer distinct other keys are touched (put or
    looked up) than the capacity. *)
Theorem cache_retains_recent c configuration (es1 es2 : list event) a k v r r' :
  CacheConfiguration_new c = Ok configuration ->
  Forall (spares k) (message <$> es2) ->
  length (remove_dups (filter (fun x => x <> k) (omap touched (message <$> es2)))) < c ->
  exists s os s',
    otrace transition (new configuration) (es1 ++ mkUser a (Put k v r) :: es2) = Some (s, os) /\
    transition s (mkUser a (Get k r')) = Some (s', Ok (send (deliver r' (Hit k v)))).
Proof.
  unfold CacheConfiguration_new. destruct (Nat.eqb_spec c 0) as [|Hc0]; [done|]. intros [= <-] Hsp Hlen.
  assert (Hc : 0 < c) by lia. set (s0 := new (mkCacheConfiguration c)).
  assert (H0 : simulates c s0 (mkLru ∅ [])).
  { split; simpl; [done|lia|apply NoDup_nil_2|done|done]. }
  destruct (cache_run_simulates c (es1 ++ [mkUser a (Put k v r)]) s0 _ Hc H0) as (s1 & Hr1 & H1).
  set (a1 := (trace _ _ _).1) in H1.
  assert (Hh : holds k v (filter (fun x => x <> k) (omap touched (message <$> es2))) a1).
  { subst a1. rewrite fmap_app, trace_app_fst.
    set (b := (trace (lru_step c) (mkLru ∅ []) (message <$> es1)).1).
    cbn [fmap list_fmap trace message]. unfold lru_step, touch.
    destruct (victim c b k); cbn [fst]; (split; [apply lookup_insert_eq|]); cbn [recency];
      eexists _, []; (split; [done|]); by intros y ?%not_elem_of_nil. }
  destruct (cache_run_simulates c es2 s1 a1 Hc H1) as (s2 & Hr2 & H2).
  assert (Hv : values (trace (lru_step c) a1 (message <$> es2)).1 !! k = Some v).
  { refine (proj1 (holds_run c k v _ _ s1 a1 Hc H1 Hh Hsp _ Hlen)).
    intros x Hx Hne. by apply list_elem_of_filter. }
  rewrite (cons_middle _ es1 es2), app_assoc.
  destruct (cache_step_simulates c s2 _ (Get k r') Hc H2) as (s3 & Hg & _).
  eexists s2, _, s3. split; [by eapply otrace_app|].
  unfold transition. cbn [message]. by rewrite Hg, (lru_step_hit c _ k v r' Hv).
Qed.

End Lru.

(** ** Concrete instances *)

Definition demo_cache_events : list (User nat (CacheMessage nat N (Recipient nat))) :=
  [mkUser 0 (Put 1 10%N (mkRecipient 9)); mkUser 0 (Put 2 20%N (mkRecipient 9));
   mkUser 0 (Get 1 (mkRecipient 9)); mkUser 0 (Put 3 30%N (mkRecipient 9))].

Lemma cache_refines_lru_witness :
  exists s,
    otrace (transition (Sends := list (Delivery nat (CacheResult nat N))))
      (new (mkCacheConfiguration 2)) demo_cache_events = Some s /\
    entries s.1 = [mkCacheEntry 1 10%N; mkCacheEntry 3 30%N].
Proof.
  destruct (cache_refines_lru (A := nat) (V := N) (Route := Recipient nat)
              (Sends := list (Delivery nat (CacheResult nat N)))
              2 (mkCacheConfiguration 2) demo_cache_events eq_refl) as (s & Hs & Hr).
  eexists. split; [exact Hs|]. simpl in *.
  vm_compute in Hs. by injection Hs as <-.
Defined.

Lemma cache_retains_recent_witness :
  exists s os s',
    otrace (transition (Sends := list (Delivery nat (CacheResult nat N))))
      (new (mkCacheConfiguration 2))
      (demo_cache_events ++ [mkUser 0 (Put 7 70%N (mkRecipient 9)); mkUser 0 (Get 8 (mkRecipient 9))])
      = Some (s, os) /\
    transition s (mkUser 0 (Get 7 (mkRecipient 4))) =
      Some (s', Ok (send (deliver (mkRecipient 4) (Hit 7 70%N)))).
Proof.
  apply (cache_retains_recent (A := nat) (V := N) (Route := Recipient nat)
           (Sends := list (Delivery nat (CacheResult nat N)))
           2 (mkCacheConfiguration 2) demo_cache_events [mkUser 0 (Get 8 (mkRecipient 9))]
           0 7 70%N (mkRecipient 9) (mkRecipient 4)).
  - reflexivity.
  - repeat constructor.
  - vm_compute. lia.
Defined.
