(* ===== verification/Configuration.v ===== *)
(** * Versioned evidence; configuration and feature sets
    ([crates/actors/src/operations/configuration.rs], [features.rs])

    The rule that configuration, health and readiness share (and that the source
    writes in each of them): greater versions replace, equal evidence is
    idempotent, everything else is rejected.  Its meaning over a whole history is
    [newest]: the first submission that carries the greatest version.  Then
    versioned configuration acceptance, and the normalisation of an ordered list
    of feature declarations. *)

From stdpp Require Import base list option numbers.
From S2P Require Import Prelude Selection Effects.

Inductive Weight : Type := Fresh | Same | Older | Conflict.

Section Versioned.
  Context {V : Type} `{!EqDecision V}.

(** How a submission compares with what is committed. *)
Definition weigh (current : option (N * V)) (o : N * V) : Weight :=
  match current with
  | None => Fresh
  | Some c =>
      if (o.1 <? c.1)%N then Older
      else if (o.1 =? c.1)%N then if bool_decide (o.2 = c.2) then Same else Conflict
      else Fresh
  end.

Definition newest (l : list (N * V)) : option (N * V) := min_by_key N_compare_rev fst l.

Lemma newest_snoc l o :
  newest (l ++ [o]) = match weigh (newest l) o with Fresh => Some o | _ => newest l end.
Proof.
  destruct l as [|x l]; [done|]. unfold newest, min_by_key. simpl.
  rewrite fold_left_app. simpl. set (c := fold_left _ l x). unfold N_compare_rev, weigh.
  destruct (N.compare_spec o.1 c.1) as [E|E|E], (N.ltb_spec o.1 c.1), (N.eqb_spec o.1 c.1);
    try lia; try done; by case_bool_decide.
Qed.

(** The newest submission is a submission, and nothing submitted is newer. *)
Lemma newest_greatest l c :
  newest l = Some c -> c ∈ l /\ forall o, o ∈ l -> (o.1 <= c.1)%N.
Proof.
  intros [Hin Hle]%min_by_key_Some; [|apply _]. split; [done|].
  intros o Ho. by apply N.compare_le_iff, Hle.
Qed.

Lemma newest_None l : newest l = None <-> l = [].
Proof. apply min_by_key_None. Qed.

End Versioned.

Definition ConfigurationVersion : Type := N.

Inductive ConfigurationState (C : Type) : Type :=
| Unconfigured
| Configured (version : ConfigurationVersion) (value : C).
Arguments Unconfigured {C}.
Arguments Configured {C} _ _.

Inductive ConfigurationMessage (C Route : Type) : Type :=
| Apply (version : ConfigurationVersion) (value : C)
| Query (reply_to : Route).
Arguments Apply {C Route} _ _.
Arguments Query {C Route} _.

Inductive ConfigurationError (C : Type) : Type :=
| Stale (proposed current : ConfigurationVersion) (value : C)
| ConflictingVersion (version : ConfigurationVersion) (value : C).
Arguments Stale {C} _ _ _.
Arguments ConflictingVersion {C} _ _.

Section Configuration.
  Context {A C Route Sends : Type} `{!EqDecision C}.
  Context `{!SendEffects Sends, !DeliveryRoute Route (ConfigurationState C) Sends}.

Definition new : ConfigurationState C := Unconfigured.

Definition apply_candidate (s : ConfigurationState C) (version : ConfigurationVersion) (value : C) :
  ConfigurationState C * result unit (ConfigurationError C) :=
  match s with
  | Unconfigured => (Configured version value, Ok tt)
  | Configured current committed =>
      if (version <? current)%N then (s, Err (Stale version current value))
      else if (version =? current)%N then
        if bool_decide (value = committed) then (s, Ok tt)
        else (s, Err (ConflictingVersion version value))
      else (Configured version value, Ok tt)
  end.

Definition transition (s : ConfigurationState C) (event : User A (ConfigurationMessage C Route)) :
  ConfigurationState C * Acted Never Never Sends (ConfigurationError C) :=
  match message event with
  | Apply version value =>
      let '(s', outcome) := apply_candidate s version value in
      (s', match outcome with Ok _ => Ok cont | Err e => Err e end)
  | Query reply_to => (s, Ok (send (deliver reply_to s)))
  end.

(** ** The state is the newest candidate *)

Definition committed (s : ConfigurationState C) : option (N * C) :=
  match s with Unconfigured => None | Configured v x => Some (v, x) end.

Definition candidates (es : list (User A (ConfigurationMessage C Route))) : list (N * C) :=
  omap (fun e => match message e with Apply v x => Some (v, x) | Query _ => None end) es.

Lemma apply_candidate_weigh s v x :
  let '(s', outcome) := apply_candidate s v x in
  committed s' = match weigh (committed s) (v, x) with Fresh => Some (v, x) | _ => committed s end /\
  match weigh (committed s) (v, x) with
  | Fresh | Same => outcome = Ok tt
  | Older => exists current, outcome = Err (Stale v current x) /\ s' = s
  | Conflict => outcome = Err (ConflictingVersion v x) /\ s' = s
  end.
Proof.
  destruct s as [|c y]; simpl; [done|]. repeat split_match; simpl; eauto.
Qed.

(** After any commands the configuration is the newest candidate proposed: the
    first one that carried the greatest version. *)
Theorem configuration_newest (es : list (User A (ConfigurationMessage C Route))) :
  committed (trace transition new es).1 = newest (candidates es).
Proof.
  induction es as [|e es IH] using rev_ind; [done|].
  rewrite trace_snoc_fst. unfold candidates in *. rewrite omap_app. cbn [omap list_omap].
  unfold transition. destruct (message e) as [v x|r].
  - rewrite newest_snoc, <- IH. set (s := (trace _ _ _).1).
    pose proof (apply_candidate_weigh s v x) as H. destruct (apply_candidate s v x). apply H.
  - by rewrite app_nil_r.
Qed.

End Configuration.

(** ** Feature sets *)

Inductive FeatureStatus : Type := Enabled | Disabled.

Record Feature (F : Type) := mkFeature { feature : F; status : FeatureStatus }.
Arguments mkFeature {F} _ _.
Arguments feature {F} _.
Arguments status {F} _.

Record FeatureSet (F : Type) := mkFeatureSet { features : list (Feature F) }.
Arguments mkFeatureSet {F} _.
Arguments features {F} _.

Section Features.
  Context {F : Type} `{!EqDecision F}.

(** One iteration of the normalising loop. *)
Definition declare (l : list (Feature F)) (candidate : Feature F) : list (Feature F) :=
  match position (fun existing => bool_decide (feature existing = feature candidate)) l with
  | Some i => <[i := candidate]> l
  | None => l ++ [candidate]
  end.

Definition FeatureSet_new (l : list (Feature F)) : FeatureSet F :=
  mkFeatureSet (fold_left declare l []).

Lemma declare_features l c :
  feature <$> declare l c = push_unique (feature <$> l) (feature c).
Proof.
  unfold declare, push_unique. destruct (position _ l) as [i|] eqn:Hi.
  - destruct (position_Some _ _ _ Hi) as (x & Hx & E%bool_decide_eq_true_1 & _).
    rewrite bool_decide_eq_true_2.
    + rewrite list_fmap_insert. apply list_insert_id. by rewrite list_lookup_fmap, Hx, <- E.
    + apply list_elem_of_fmap. exists x. split; [done|]. by eapply list_elem_of_lookup_2.
  - rewrite bool_decide_eq_false_2; [by rewrite fmap_app|].
    intros (x & E & Hx)%list_elem_of_fmap. apply position_None in Hi.
    rewrite list.Forall_forall in Hi. specialize (Hi x Hx).
    by apply bool_decide_eq_false_1 in Hi.
Qed.

Lemma declare_find l c f :
  List.find (fun x => bool_decide (feature x = f)) (declare l c) =
    if bool_decide (feature c = f) then Some c
    else List.find (fun x => bool_decide (feature x = f)) l.
Proof.
  unfold declare. destruct (position _ l) as [i|] eqn:Hi.
  - destruct (position_Some _ _ _ Hi) as (x & Hx & E%bool_decide_eq_true_1 & _).
    case_bool_decide as Hc.
    + subst f. apply find_insert_position; [done|]. by apply bool_decide_eq_true_2.
    + apply (find_insert_other _ _ _ _ x Hx); apply bool_decide_eq_false_2; congruence.
  - rewrite find_snoc. case_bool_decide as Hc; [|by destruct (List.find _ l)].
    subst f. rewrite find_position, Hi. done.
Qed.

(** A feature set declares each feature once, in order of first declaration, with
    the status of its last declaration. *)
Theorem feature_set_last_declaration (l : list (Feature F)) f :
  NoDup (feature <$> features (FeatureSet_new l)) /\
  feature <$> features (FeatureSet_new l) = fold_left push_unique (feature <$> l) [] /\
  List.find (fun x => bool_decide (feature x = f)) (features (FeatureSet_new l)) =
    list.last (filter (fun x => feature x = f) l).
Proof.
  unfold FeatureSet_new. cbn [features].
  assert (Hf : forall k, feature <$> fold_left declare l k =
            fold_left push_unique (feature <$> l) (feature <$> k)).
  { induction l as [|c l IH]; intros k; [done|]. rewrite fmap_cons. simpl.
    by rewrite IH, declare_features. }
  split_and!.
  - rewrite Hf. apply push_all_NoDup, NoDup_nil_2.
  - apply Hf.
  - clear Hf. induction l as [|c l IH] using rev_ind; [done|].
    rewrite fold_left_app, list.filter_app. simpl. rewrite declare_find.
    case_bool_decide as E.
    + rewrite filter_cons_True, filter_nil by done. by rewrite list.last_snoc.
    + rewrite filter_cons_False by done. by rewrite filter_nil, app_nil_r.
Qed.

End Features.
