(* ===== verification/Health.v ===== *)
(** * Component health ([crates/actors/src/operations/health.rs])

    Versioned evidence per component with tombstones, and the aggregated report. *)

From stdpp Require Import base list option numbers.
From S2P Require Import Prelude Effects Selection Configuration.

Definition ObservationVersion : Type := N.

(** Ordered from best to worst ([derive(Ord)]). *)
Inductive HealthStatus : Type := Healthy | Degraded | Unhealthy.

#[export] Instance HealthStatus_EqDecision : EqDecision HealthStatus.
Proof. solve_decision. Defined.

Definition severity (s : HealthStatus) : nat :=
  match s with Healthy => 0 | Degraded => 1 | Unhealthy => 2 end.

Record ComponentHealth (K : Type) := mkComponentHealth {
  component : K;
  version : ObservationVersion;
  status : HealthStatus
}.
Arguments mkComponentHealth {K} _ _ _.
Arguments component {K} _.
Arguments version {K} _.
Arguments status {K} _.

Inductive ComponentHealthState (K : Type) : Type :=
| Present (health : ComponentHealth K)
| Removed (removed_component : K) (removed_version : ObservationVersion).
Arguments Present {K} _.
Arguments Removed {K} _ _.

#[export] Instance ComponentHealthState_EqDecision K `{!EqDecision K} :
  EqDecision (ComponentHealthState K).
Proof. unfold EqDecision. intros [[]|] [[]|]; unfold Decision; decide equality; solve_decision. Defined.

Definition state_component {K} (s : ComponentHealthState K) : K :=
  match s with Present h => component h | Removed k _ => k end.

Definition state_version {K} (s : ComponentHealthState K) : ObservationVersion :=
  match s with Present h => version h | Removed _ v => v end.

Record HealthReport (K : Type) := mkHealthReport { components : list (ComponentHealth K) }.
Arguments mkHealthReport {K} _.
Arguments components {K} _.

(** [iter().map(status).max().unwrap_or(Healthy)]. *)
Definition overall {K} (r : HealthReport K) : HealthStatus :=
  default Healthy
    (max_by (fun a b => Nat.compare (severity a) (severity b)) (status <$> components r)).

Inductive HealthEvidence : Type :=
| EvidencePresent (s : HealthStatus)
| EvidenceRemoved.

#[export] Instance HealthEvidence_EqDecision : EqDecision HealthEvidence.
Proof. solve_decision. Defined.

Inductive HealthMessage (K Route : Type) : Type :=
| Observe (k : K) (v : ObservationVersion) (s : HealthStatus)
| Remove (k : K) (v : ObservationVersion)
| Query (reply_to : Route).
Arguments Observe {K Route} _ _ _.
Arguments Remove {K Route} _ _.
Arguments Query {K Route} _.

Inductive HealthError (K : Type) : Type :=
| Stale (k : K) (observed current : ObservationVersion) (evidence : HealthEvidence)
| ConflictingVersion (k : K) (v : ObservationVersion) (evidence : HealthEvidence).
Arguments Stale {K} _ _ _ _.
Arguments ConflictingVersion {K} _ _ _.

Record Health (K : Type) := mkHealth { states : list (ComponentHealthState K) }.
Arguments mkHealth {K} _.
Arguments states {K} _.

Section Health.
  Context {A K Route Sends : Type} `{!EqDecision K}.
  Context `{!SendEffects Sends, !DeliveryRoute Route (HealthReport K) Sends}.

Definition new : Health K := mkHealth [].

(** The state that evidence would commit. *)
Definition replacement (k : K) (v : ObservationVersion) (e : HealthEvidence) :
  ComponentHealthState K :=
  match e with
  | EvidencePresent s => Present (mkComponentHealth k v s)
  | EvidenceRemoved => Removed k v
  end.

Definition commit (s : Health K) (k : K) (v : ObservationVersion) (e : HealthEvidence) :
  Health K * result unit (HealthError K) :=
  let r := replacement k v e in
  match position (fun state => bool_decide (state_component state = k)) (states s) with
  | None => (mkHealth (states s ++ [r]), Ok tt)
  | Some index =>
      match states s !! index with
      | None => (s, Ok tt)
      | Some state =>
          let current := state_version state in
          if (v <? current)%N then (s, Err (Stale k v current e))
          else if (v =? current)%N then
            if bool_decide (state = r) then (s, Ok tt)
            else (s, Err (ConflictingVersion k v e))
          else (mkHealth (<[index := r]> (states s)), Ok tt)
      end
  end.

Definition report (s : Health K) : HealthReport K :=
  mkHealthReport (omap (fun state => match state with Present h => Some h | Removed _ _ => None end)
                    (states s)).

Definition transition (s : Health K) (event : User A (HealthMessage K Route)) :
  Health K * Acted Never Never Sends (HealthError K) :=
  let finish '(s', outcome) :=
    (s', match outcome with Ok _ => Ok cont | Err e => Err e end) in
  match message event with
  | Observe k v st => finish (commit s k v (EvidencePresent st))
  | Remove k v => finish (commit s k v EvidenceRemoved)
  | Query reply_to => (s, Ok (send (deliver reply_to (report s))))
  end.

(** ** Each component keeps its newest evidence *)

Definition state_evidence (s : ComponentHealthState K) : N * HealthEvidence :=
  match s with
  | Present h => (version h, EvidencePresent (status h))
  | Removed _ v => (v, EvidenceRemoved)
  end.

Definition known (s : Health K) (k : K) : option (N * HealthEvidence) :=
  state_evidence <$> List.find (fun x => bool_decide (state_component x = k)) (states s).

(** The evidence submitted for [k], in order. *)
Definition evidence_for (k : K) (es : list (User A (HealthMessage K Route))) :
  list (N * HealthEvidence) :=
  omap (fun e =>
    match message e with
    | Observe k' v st => if bool_decide (k' = k) then Some (v, EvidencePresent st) else None
    | Remove k' v => if bool_decide (k' = k) then Some (v, EvidenceRemoved) else None
    | Query _ => None
    end) es.

Lemma replacement_component k v e : state_component (replacement k v e) = k.
Proof. by destruct e. Qed.

Lemma replacement_evidence k v e : state_evidence (replacement k v e) = (v, e).
Proof. by destruct e. Qed.

Lemma state_eq_replacement st k v e :
  state_component st = k -> state_version st = v ->
  st = replacement k v e <-> e = (state_evidence st).2.
Proof.
  destruct st as [[k' v' s']|k' v']; simpl; intros <- <-; destruct e; simpl; naive_solver.
Qed.

Lemma state_evidence_version (st : ComponentHealthState K) : (state_evidence st).1 = state_version st.
Proof. by destruct st. Qed.

(** What one submission does to every component and what it answers. *)
Lemma commit_weigh s k v e :
  let '(s', outcome) := commit s k v e in
  (forall k', known s' k' =
     if bool_decide (k = k') then
       match weigh (known s k) (v, e) with Fresh => Some (v, e) | _ => known s k end
     else known s k') /\
  match weigh (known s k) (v, e) with
  | Fresh | Same => outcome = Ok tt
  | Older => exists current, outcome = Err (Stale k v current e) /\ s' = s
  | Conflict => outcome = Err (ConflictingVersion k v e) /\ s' = s
  end.
Proof.
  unfold commit, known. rewrite find_position.
  destruct (position _ (states s)) as [i|] eqn:Hi; simpl.
  - destruct (position_Some _ _ _ Hi) as (st & Hst & Hk%bool_decide_eq_true_1 & _).
    rewrite Hst. simpl. unfold weigh. rewrite state_evidence_version. simpl.
    assert (Hsame : forall k', known s k' = if bool_decide (k = k') then Some (state_evidence st)
                                            else known s k').
    { intros k'. case_bool_decide as E; [|done]. subst k'. unfold known.
      by rewrite find_position, Hi; simpl; rewrite Hst. }
    destruct (N.ltb_spec v (state_version st)); [split; [apply Hsame|eauto]|].
    destruct (N.eqb_spec v (state_version st)) as [E|E].
    + pose proof (state_eq_replacement st k v e Hk (eq_sym E)) as Heq.
      case_bool_decide; case_bool_decide; (split; [apply Hsame|]); tauto.
    + split; [|done]. intros k'. simpl. case_bool_decide as Hkk.
      * subst k'. rewrite (find_insert_position _ _ i) by
          (done || (rewrite replacement_component; by apply bool_decide_eq_true_2)).
        simpl. by rewrite replacement_evidence.
      * f_equal. apply (find_insert_other _ _ _ _ st Hst); apply bool_decide_eq_false_2;
          rewrite ?replacement_component; congruence.
  - split; [|done]. intros k'. rewrite find_snoc, replacement_component.
    case_bool_decide as Hkk.
    + subst k'. rewrite find_position, Hi. simpl. by rewrite replacement_evidence.
    + by destruct (List.find _ (states s)).
Qed.

Lemma commit_components s k v e :
  state_component <$> states (commit s k v e).1 = push_unique (state_component <$> states s) k.
Proof.
  unfold commit, push_unique. destruct (position _ (states s)) as [i|] eqn:Hi.
  - destruct (position_Some _ _ _ Hi) as (st & Hst & Hk%bool_decide_eq_true_1 & _). rewrite Hst.
    rewrite (bool_decide_eq_true_2 (k ∈ _)).
    2:{ apply list_elem_of_fmap. exists st. split; [done|]. by eapply list_elem_of_lookup_2. }
    repeat split_match; simpl; try done.
    rewrite list_fmap_insert, replacement_component. apply list_insert_id.
    by rewrite list_lookup_fmap, Hst, <- Hk.
  - rewrite bool_decide_eq_false_2; simpl; [by rewrite fmap_app; simpl; rewrite replacement_component|].
    intros (x & -> & Hx)%list_elem_of_fmap. apply position_None in Hi.
    rewrite list.Forall_forall in Hi. specialize (Hi x Hx). by apply bool_decide_eq_false_1 in Hi.
Qed.

(** The submission that an event makes, if any. *)
Definition submission (m : HealthMessage K Route) : option (K * N * HealthEvidence) :=
  match m with
  | Observe k v st => Some (k, v, EvidencePresent st)
  | Remove k v => Some (k, v, EvidenceRemoved)
  | Query _ => None
  end.

Lemma transition_submission s e :
  (transition s e).1 =
    match submission (message e) with Some (k, v, ev) => (commit s k v ev).1 | None => s end.
Proof. unfold transition. destruct (message e); simpl; by try destruct (commit _ _ _ _). Qed.

Lemma evidence_for_snoc k es e :
  evidence_for k (es ++ [e]) =
    evidence_for k es ++
      match submission (message e) with
      | Some (k', v, ev) => if bool_decide (k' = k) then [(v, ev)] else []
      | None => []
      end.
Proof.
  unfold evidence_for. rewrite omap_app. f_equal. cbn [omap list_omap].
  destruct (message e); simpl; by try case_bool_decide.
Qed.

Lemma health_run (es : list (User A (HealthMessage K Route))) :
  let s := (trace transition new es).1 in
  (forall k, known s k = newest (evidence_for k es)) /\ NoDup (state_component <$> states s).
Proof.
  induction es as [|e es [IHk IHn]] using rev_ind; [split; [done|apply NoDup_nil_2]|].
  rewrite trace_snoc_fst, transition_submission. set (s := (trace transition new es).1) in *.
  destruct (submission (message e)) as [[[k v] ev]|] eqn:Hsub.
  - split.
    + intros k'. rewrite evidence_for_snoc, Hsub. pose proof (commit_weigh s k v ev) as Hc.
      destruct (commit s k v ev) as [s' out]. destruct Hc as [Hc _]. cbn [fst]. rewrite Hc.
      case_bool_decide as E; [subst k'|by rewrite app_nil_r].
      by rewrite newest_snoc, <- IHk.
    + rewrite commit_components. by apply push_unique_NoDup.
  - split; [|done]. intros k'. by rewrite evidence_for_snoc, Hsub, app_nil_r.
Qed.

Lemma known_present s h :
  NoDup (state_component <$> states s) ->
  h ∈ components (report s) <->
  known s (component h) = Some (version h, EvidencePresent (status h)).
Proof.
  intros Hn. unfold report, known. cbn [components]. rewrite list_elem_of_omap. split.
  - intros ([h'|k v] & Hin & Hh); simplify_eq. apply list_elem_of_lookup in Hin as [i Hi].
    rewrite find_position.
    destruct (position _ (states s)) as [j|] eqn:Hj.
    + destruct (position_Some _ _ _ Hj) as (x & Hx & Hk%bool_decide_eq_true_1 & _).
      assert (j = i) as ->.
      { eapply NoDup_lookup; [exact Hn|by rewrite list_lookup_fmap, Hx|].
        rewrite list_lookup_fmap, Hi. simpl. congruence. }
      simpl. by rewrite Hi.
    + apply position_None in Hj. rewrite Forall_lookup in Hj. specialize (Hj i _ Hi).
      by apply bool_decide_eq_false_1 in Hj.
  - intros (x & Hf & E)%fmap_Some. apply find_some in Hf as [Hin Hk].
    apply bool_decide_eq_true_1 in Hk. exists x. split; [by apply list_elem_of_In|].
    destruct x as [h'|]; simpl in *; simplify_eq. by destruct h, h'; simpl in *; simplify_eq.
Qed.

Lemma overall_worst (r : HealthReport K) :
  (forall h, h ∈ components r -> severity (status h) <= severity (overall r)) /\
  (overall r = Healthy \/ exists h, h ∈ components r /\ status h = overall r).
Proof.
  unfold overall. destruct (max_by _ (status <$> components r)) as [w|] eqn:Hm; simpl.
  - rewrite (max_by_min_by_key _ (fun x y => Nat.compare y x) severity) in Hm.
    + apply min_by_key_Some in Hm as [Hin Hle].
      * split; [|right; apply list_elem_of_fmap in Hin as (h & -> & Hh); eauto].
        intros h Hh. apply Nat.compare_le_iff, Hle, list_elem_of_fmap. eauto.
      * split; [intros; apply Nat.compare_antisym|]. intros x y z. rewrite !Nat.compare_le_iff. lia.
    + done.
    + intros x y _ _ E%Nat.compare_eq. by destruct x, y.
    + split; [intros; apply Nat.compare_antisym|]. intros x y z. rewrite !Nat.compare_le_iff. lia.
  - destruct (components r); [|done]. split; [by intros h ?%not_elem_of_nil|by left].
Qed.

(** Health reports the newest evidence.  After any messages, what is kept for a
    component is the first submission carrying its greatest version, whether it says
    present or removed; a report lists exactly the components whose newest evidence
    says present, with that version and status; the overall status is the worst one
    listed, healthy when none is.  The next submission is accepted when it is newer or
    equal evidence, and refused as stale or conflicting with nothing changed. *)
Theorem health_newest_evidence (es : list (User A (HealthMessage K Route))) a k v st :
  let s := (trace transition new es).1 in
  known s k = newest (evidence_for k es) /\
  (forall h, h ∈ components (report s) <->
     newest (evidence_for (component h) es) = Some (version h, EvidencePresent (status h))) /\
  (forall h, h ∈ components (report s) -> severity (status h) <= severity (overall (report s))) /\
  (overall (report s) = Healthy \/
     exists h, h ∈ components (report s) /\ status h = overall (report s)) /\
  let '(s', outcome) := transition s (mkUser a (Observe k v st)) in
  match weigh (newest (evidence_for k es)) (v, EvidencePresent st) with
  | Fresh | Same => outcome = Ok cont
  | Older => exists current, outcome = Err (Stale k v current (EvidencePresent st)) /\ s' = s
  | Conflict => outcome = Err (ConflictingVersion k v (EvidencePresent st)) /\ s' = s
  end.
Proof.
  intros s. destruct (health_run es) as [Hk Hn]. fold s in Hk, Hn.
  split_and!; [apply Hk| |apply overall_worst..|].
  - intros h. by rewrite known_present, Hk.
  - unfold transition. cbn [message]. rewrite <- Hk.
    pose proof (commit_weigh s k v (EvidencePresent st)) as Hc.
    destruct (commit s k v (EvidencePresent st)) as [s' out]. destruct Hc as [_ Hc].
    destruct (weigh (known s k) _); [by rewrite Hc|by rewrite Hc| |].
    + destruct Hc as (c & -> & ->). eauto.
    + by destruct Hc as [-> ->].
Qed.

End Health.
