(* ===== verification/Readiness.v ===== *)
(** * Readiness ([crates/actors/src/operations/readiness.rs])

    Versioned readiness evidence over a fixed dependency set. *)

From stdpp Require Import base list option numbers.
From S2P Require Import Prelude Effects Selection Configuration.

Inductive ReadinessStatus : Type := Ready | NotReady.

#[export] Instance ReadinessStatus_EqDecision : EqDecision ReadinessStatus.
Proof. solve_decision. Defined.

Inductive ReadinessEvidence : Type :=
| Unknown
| Observed (version : N) (status : ReadinessStatus).

Record DependencyReadiness (K : Type) := mkDependency {
  dependency : K;
  evidence : ReadinessEvidence
}.
Arguments mkDependency {K} _ _.
Arguments dependency {K} _.
Arguments evidence {K} _.

Record ReadinessReport (K : Type) := mkReadinessReport { dependencies : list (DependencyReadiness K) }.
Arguments mkReadinessReport {K} _.
Arguments dependencies {K} _.

Definition ready {K} (r : ReadinessReport K) : bool :=
  forallb (fun state => match evidence state with Observed _ Ready => true | _ => false end)
    (dependencies r).

Inductive ReadinessMessage (K Route : Type) : Type :=
| Observe (k : K) (v : N) (s : ReadinessStatus)
| Query (reply_to : Route).
Arguments Observe {K Route} _ _ _.
Arguments Query {K Route} _.

Inductive ReadinessError (K : Type) : Type :=
| UnknownDependency (k : K) (observed : N) (s : ReadinessStatus)
| Stale (k : K) (observed current : N) (s : ReadinessStatus)
| ConflictingVersion (k : K) (v : N) (s : ReadinessStatus).
Arguments UnknownDependency {K} _ _ _.
Arguments Stale {K} _ _ _ _.
Arguments ConflictingVersion {K} _ _ _.

Record Readiness (K : Type) := mkReadiness { states : list (DependencyReadiness K) }.
Arguments mkReadiness {K} _.
Arguments states {K} _.

Section Readiness.
  Context {A K Route Sends : Type} `{!EqDecision K}.
  Context `{!SendEffects Sends, !DeliveryRoute Route (ReadinessReport K) Sends}.

(** One iteration of the constructor's loop. *)
Definition configure (l : list (DependencyReadiness K)) (k : K) : list (DependencyReadiness K) :=
  if existsb (fun state => bool_decide (dependency state = k)) l then l
  else l ++ [mkDependency k Unknown].

Definition new (ks : list K) : Readiness K := mkReadiness (fold_left configure ks []).

(** The [iter_mut().find] reference is the position it writes to. *)
Definition observe (s : Readiness K) (k : K) (v : N) (st : ReadinessStatus) :
  Readiness K * result unit (ReadinessError K) :=
  match position (fun state => bool_decide (dependency state = k)) (states s) with
  | None => (s, Err (UnknownDependency k v st))
  | Some index =>
      match states s !! index with
      | None => (s, Err (UnknownDependency k v st))
      | Some current =>
          let write := mkReadiness
            (<[index := mkDependency (dependency current) (Observed v st)]> (states s)) in
          match evidence current with
          | Unknown => (write, Ok tt)
          | Observed committed committed_status =>
              if (v <? committed)%N then (s, Err (Stale k v committed st))
              else if (v =? committed)%N then
                if bool_decide (committed_status = st) then (s, Ok tt)
                else (s, Err (ConflictingVersion k v st))
              else (write, Ok tt)
          end
      end
  end.

Definition report (s : Readiness K) : ReadinessReport K := mkReadinessReport (states s).

Definition transition (s : Readiness K) (event : User A (ReadinessMessage K Route)) :
  Readiness K * Acted Never Never Sends (ReadinessError K) :=
  match message event with
  | Observe k v st =>
      let '(s', outcome) := observe s k v st in
      (s', match outcome with Ok _ => Ok cont | Err e => Err e end)
  | Query reply_to => (s, Ok (send (deliver reply_to (report s))))
  end.

(** ** Each dependency keeps its newest evidence *)

Definition of_evidence (e : ReadinessEvidence) : option (N * ReadinessStatus) :=
  match e with Unknown => None | Observed v st => Some (v, st) end.

Definition to_evidence (o : option (N * ReadinessStatus)) : ReadinessEvidence :=
  match o with None => Unknown | Some (v, st) => Observed v st end.

Definition observations (k : K) (es : list (User A (ReadinessMessage K Route))) :
  list (N * ReadinessStatus) :=
  omap (fun e =>
    match message e with
    | Observe k' v st => if bool_decide (k' = k) then Some (v, st) else None
    | Query _ => None
    end) es.

(** The table that a history denotes. *)
Definition table (ks : list K) (es : list (User A (ReadinessMessage K Route))) :
  list (DependencyReadiness K) :=
  (fun k => mkDependency k (to_evidence (newest (observations k es)))) <$> ks.

Lemma configure_unknown l k :
  configure ((fun x => mkDependency x Unknown) <$> l) k =
    (fun x => mkDependency x Unknown) <$> push_unique l k.
Proof.
  unfold configure, push_unique.
  assert (Hb : existsb (fun state => bool_decide (dependency state = k))
                 ((fun x => mkDependency x Unknown) <$> l) = bool_decide (k ∈ l)).
  { apply eq_iff_eq_true. rewrite existsb_exists, bool_decide_eq_true.
    setoid_rewrite <- list_elem_of_In. setoid_rewrite list_elem_of_fmap. split.
    - intros (d & (x & -> & Hx) & E%bool_decide_eq_true_1). simpl in E. by subst x.
    - intros Hk. exists (mkDependency k Unknown). split; [eauto|]. by apply bool_decide_eq_true_2. }
  rewrite Hb. case_bool_decide; [done|]. by rewrite fmap_app.
Qed.

Lemma new_table ks : states (new ks) = table (fold_left push_unique ks []) [].
Proof.
  unfold new, table. simpl. change [] with ((fun x : K => mkDependency x Unknown) <$> []) at 1.
  generalize (@nil K) as l. induction ks as [|k ks IH]; intros l; simpl; [done|].
  by rewrite configure_unknown, IH.
Qed.

Lemma table_position ks es k :
  position (fun state => bool_decide (dependency state = k)) (table ks es) =
    position (fun x => bool_decide (x = k)) ks.
Proof. induction ks as [|x ks IH]; simpl; [done|]. by rewrite IH. Qed.

Lemma observations_snoc k es e :
  observations k (es ++ [e]) =
    observations k es ++
      match message e with
      | Observe k' v st => if bool_decide (k' = k) then [(v, st)] else []
      | Query _ => []
      end.
Proof.
  unfold observations. rewrite omap_app. f_equal. cbn [omap list_omap].
  destruct (message e); simpl; by try case_bool_decide.
Qed.

Lemma table_snoc_other ks es e :
  (forall k v st, message e = Observe k v st -> k ∉ ks) -> table ks (es ++ [e]) = table ks es.
Proof.
  intros He. apply list_fmap_ext. intros i k Hk. rewrite observations_snoc.
  destruct (message e) as [k' v st|r] eqn:E; [|by rewrite app_nil_r].
  rewrite bool_decide_eq_false_2; [by rewrite app_nil_r|].
  intros ->. apply (He k v st eq_refl). by eapply list_elem_of_lookup_2.
Qed.

Lemma table_snoc_own ks es a i k v st :
  NoDup ks -> ks !! i = Some k ->
  table ks (es ++ [mkUser a (Observe k v st)]) =
    match weigh (newest (observations k es)) (v, st) with
    | Fresh => <[i := mkDependency k (Observed v st)]> (table ks es)
    | _ => table ks es
    end.
Proof.
  intros Hn Hi. apply list_eq. intros j. unfold table. rewrite list_lookup_fmap.
  destruct (decide (j = i)) as [->|Hne].
  - rewrite Hi. simpl. rewrite observations_snoc. cbn [message].
    rewrite bool_decide_eq_true_2, newest_snoc by done.
    destruct (weigh _ _); rewrite ?list_lookup_insert_eq, ?list_lookup_fmap, ?Hi; try done.
    rewrite length_fmap. by apply lookup_lt_Some in Hi.
  - transitivity ((fun k' => mkDependency k' (to_evidence (newest (observations k' es)))) <$> ks !! j).
    + destruct (ks !! j) as [k'|] eqn:Hj; [|done]. simpl. rewrite observations_snoc. cbn [message].
      rewrite bool_decide_eq_false_2; [by rewrite app_nil_r|]. intros ->.
      apply Hne. by eapply NoDup_lookup.
    + destruct (weigh _ _); rewrite ?list_lookup_insert_ne, ?list_lookup_fmap; done.
Qed.

Lemma observe_table ks es a k v st :
  NoDup ks ->
  let '(s', outcome) := observe (mkReadiness (table ks es)) k v st in
  states s' = table ks (es ++ [mkUser a (Observe k v st)]) /\
  if bool_decide (k ∈ ks) then
    match weigh (newest (observations k es)) (v, st) with
    | Fresh | Same => outcome = Ok tt
    | Older => exists current, outcome = Err (Stale k v current st) /\ states s' = table ks es
    | Conflict => outcome = Err (ConflictingVersion k v st) /\ states s' = table ks es
    end
  else outcome = Err (UnknownDependency k v st) /\ states s' = table ks es.
Proof.
  intros Hn. unfold observe. cbn [states]. rewrite table_position.
  destruct (position _ ks) as [i|] eqn:Hi.
  - apply position_eq_Some in Hi. rewrite (table_snoc_own ks es a i k v st Hn Hi).
    unfold table at 1. rewrite list_lookup_fmap, Hi. cbn [fmap option_fmap option_map evidence dependency].
    rewrite bool_decide_eq_true_2 by (by eapply list_elem_of_lookup_2).
    destruct (newest (observations k es)) as [[c cst]|]; simpl; [|done].
    destruct (v <? c)%N; simpl; [eauto|]. destruct (v =? c)%N; simpl; [|done].
    do 2 case_bool_decide; simpl; naive_solver.
  - apply position_eq_None in Hi. rewrite bool_decide_eq_false_2 by done.
    rewrite table_snoc_other; [done|]. intros k' v' st' [= -> _ _]. done.
Qed.

Lemma readiness_run ks (es : list (User A (ReadinessMessage K Route))) :
  states (trace transition (new ks) es).1 = table (fold_left push_unique ks []) es.
Proof.
  assert (Hn : NoDup (fold_left push_unique ks [])) by apply push_all_NoDup, NoDup_nil_2.
  induction es as [|e es IH] using rev_ind; [apply new_table|].
  rewrite trace_snoc_fst. destruct (trace transition (new ks) es).1 as [l]. simpl in IH. subst l.
  destruct e as [a [k v st|r]]; unfold transition; cbn [message].
  - pose proof (observe_table _ es a k v st Hn) as Ho. destruct (observe _ _ _ _). apply Ho.
  - symmetry. by apply table_snoc_other.
Qed.

(** Readiness is decided by the newest evidence.  After any messages the report
    lists the configured dependencies once each, in configuration order, each with the
    first observation that carried its greatest version, unknown when there was none;
    it is ready exactly when that is [Ready] for every configured dependency (so the
    empty set is ready).  The next observation is accepted, or refused as unknown,
    stale or conflicting, with nothing changed, exactly by that evidence. *)
Theorem readiness_newest_evidence ks (es : list (User A (ReadinessMessage K Route))) a k v st :
  let configured := fold_left push_unique ks [] in
  let s := (trace transition (new ks) es).1 in
  dependencies (report s) = table configured es /\ NoDup configured /\
  (forall x, x ∈ configured <-> x ∈ ks) /\
  (ready (report s) = true <->
     forall x, x ∈ ks -> exists w, newest (observations x es) = Some (w, Ready)) /\
  let '(s', outcome) := transition s (mkUser a (Observe k v st)) in
  if bool_decide (k ∈ configured) then
    match weigh (newest (observations k es)) (v, st) with
    | Fresh | Same => outcome = Ok cont
    | Older => exists current, outcome = Err (Stale k v current st) /\ states s' = states s
    | Conflict => outcome = Err (ConflictingVersion k v st) /\ states s' = states s
    end
  else outcome = Err (UnknownDependency k v st) /\ states s' = states s.
Proof.
  intros configured s. pose proof (readiness_run ks es) as Hs. fold configured s in Hs.
  assert (Hn : NoDup configured) by apply push_all_NoDup, NoDup_nil_2.
  assert (Hin : forall x, x ∈ configured <-> x ∈ ks).
  { intros x. unfold configured. rewrite elem_of_push_all, elem_of_nil. tauto. }
  split_and!; [done|done|done| |].
  - unfold ready, report. cbn [dependencies]. rewrite Hs, forallb_forall. unfold table.
    setoid_rewrite <- Hin. setoid_rewrite <- list_elem_of_In. split.
    + intros H x Hx. specialize (H (mkDependency x (to_evidence (newest (observations x es))))).
      rewrite list_elem_of_fmap in H. specialize (H ltac:(eauto)).
      destruct (newest (observations x es)) as [[w []]|]; [by exists w|done..].
    + intros H d (x & -> & Hx)%list_elem_of_fmap. destruct (H x Hx) as [w Hw].
      cbn [evidence]. by rewrite Hw.
  - unfold transition. cbn [message].
    pose proof (observe_table configured es a k v st Hn) as Ho. rewrite <- Hs in Ho.
    replace (mkReadiness (states s)) with s in Ho by by destruct s.
    destruct (observe s k v st) as [s' out]. destruct Ho as [_ Ho]. case_bool_decide.
    + destruct (weigh _ _); naive_solver.
    + by destruct Ho as [-> ->].
Qed.

End Readiness.
