(* ===== verification/TerminationMonitor.v ===== *)
(** * Termination monitors ([crates/actors/src/lifecycle/termination_monitor.rs])

    Observation of one peer, by logical name or by exact incarnation, with one
    reaction to its termination.  The values of the exact-incarnation protocol are
    those of [crates/actors/src/protocol/established.rs].  An [Arc] is an allocation
    with its content; [Arc::ptr_eq] compares allocations. *)

From stdpp Require Import base list option numbers.
From S2P Require Import Prelude Effects Timers Termination.

(** ** The exact-incarnation protocol *)

Record ObservationId := mkObservationId { observation_number : N }.

Record Correlation := mkCorrelation { allocation : N; content : ObservationId }.

Definition ptr_eq (a b : Correlation) : bool := (allocation a =? allocation b)%N.

Record ObservationRelationship := mkRelationship { identity : Correlation }.

(** [PartialEq for ObservationRelationship]. *)
Definition relationship_eq (a b : ObservationRelationship) : bool :=
  ptr_eq (identity a) (identity b).

Record ObserveEstablished (Endpoint : Type) := mkObserveEstablished {
  correlation : Correlation;
  recipient : EstablishedRecipient Endpoint
}.
Arguments mkObserveEstablished {Endpoint} _ _.
Arguments correlation {Endpoint} _.
Arguments recipient {Endpoint} _.

Record ObservationAuthority := mkAuthority { authority_relationship : ObservationRelationship }.

Definition authority_issued {Endpoint} (request : ObserveEstablished Endpoint) : ObservationAuthority :=
  mkAuthority (mkRelationship (correlation request)).

Definition matches_request (a : ObservationAuthority) (c : Correlation) : bool :=
  ptr_eq (identity (authority_relationship a)) c.

Record CancelObservation := mkCancelObservation { cancel_authority : ObservationAuthority }.

Definition cancel_relationship (c : CancelObservation) : ObservationRelationship :=
  authority_relationship (cancel_authority c).

Inductive EstablishedObservation (Endpoint A : Type) : Type :=
| Started (authority : ObservationAuthority)
| StoppedReport (relationship : ObservationRelationship) (outcome : TerminalOutcome A) (at_ : Instant)
| CancelledReport (relationship : ObservationRelationship)
| ObserveRejectedReport (request : ObserveEstablished Endpoint) (reason : ObservationRejection)
| CancelRejectedReport (request : CancelObservation) (reason : ObservationRejection).
Arguments Started {Endpoint A} _.
Arguments StoppedReport {Endpoint A} _ _ _.
Arguments CancelledReport {Endpoint A} _.
Arguments ObserveRejectedReport {Endpoint A} _ _.
Arguments CancelRejectedReport {Endpoint A} _ _.

#[export] Instance ObservationRejection_EqDecision : EqDecision ObservationRejection.
Proof. solve_decision. Defined.

(** ** Targets *)

(** [TerminationObservationTarget]: what to request, which phase is shown, and the
    reaction to a report of the target, or the report given back. *)
Class ObservationTarget (Target St Report Request Ch Ph Sends : Type) := {
  request : Target -> Target * option Request;
  observation : Target -> TerminationObservation;
  react : Target -> St -> Report -> (Target * St) * result (Actions Ch Ph Sends) Report
}.

Inductive LogicalTermination (A : Type) : Type :=
| LogicalObserving (peer : A)
| LogicalObserved (peer : A).
Arguments LogicalObserving {A} _.
Arguments LogicalObserved {A} _.

Inductive EstablishedTermination (Endpoint : Type) : Type :=
| Unissued (request : ObserveEstablished Endpoint)
| Requested_ (correlation : Correlation)
| Observing_ (authority : ObservationAuthority)
| CancelPending (relationship : ObservationRelationship)
| CancelRejectedWaiting (request : CancelObservation)
| StoppedAwaitingCancel (relationship : ObservationRelationship)
| ObserveRejected (request : ObserveEstablished Endpoint)
| Stopped_
| StoppedWithCancelRejected (request : CancelObservation)
| Cancelled_.
Arguments Unissued {Endpoint} _.
Arguments Requested_ {Endpoint} _.
Arguments Observing_ {Endpoint} _.
Arguments CancelPending {Endpoint} _.
Arguments CancelRejectedWaiting {Endpoint} _.
Arguments StoppedAwaitingCancel {Endpoint} _.
Arguments ObserveRejected {Endpoint} _.
Arguments Stopped_ {Endpoint}.
Arguments StoppedWithCancelRejected {Endpoint} _.
Arguments Cancelled_ {Endpoint}.

Section Targets.
  Context {A Endpoint St Ch Ph Sends : Type} `{!EqDecision A, !SendEffects Sends}.

Abbreviation actions := (Actions Ch Ph Sends).
Abbreviation report := (EstablishedObservation Endpoint A).
Abbreviation phase := (EstablishedTermination Endpoint).

(** The reaction callbacks, which never change. *)
Variable react_peer : St -> PeerStopped A -> St * actions.
Variable react_established : St -> report -> St * actions.

Definition logical_request (t : LogicalTermination A) :
  LogicalTermination A * option (ObservePeer A) :=
  (t, Some (mkObservePeer match t with LogicalObserving p | LogicalObserved p => p end)).

Definition logical_observation (t : LogicalTermination A) : TerminationObservation :=
  match t with LogicalObserving _ => Observing | LogicalObserved _ => Observed end.

Definition logical_react (t : LogicalTermination A) (i : St) (r : PeerStopped A) :
  (LogicalTermination A * St) * result actions (PeerStopped A) :=
  match t with
  | LogicalObserved _ => ((t, i), Err r)
  | LogicalObserving p =>
      if bool_decide (peer r = p) then
        let '(i', a) := react_peer i r in ((LogicalObserved p, i'), Ok a)
      else ((t, i), Err r)
  end.

Definition request_once (t : phase) : phase * option (ObserveEstablished Endpoint) :=
  match t with
  | Unissued r => (Requested_ (correlation r), Some r)
  | _ => (t, None)
  end.

Definition take_cancellation (t : phase) : phase * option CancelObservation :=
  match t with
  | Observing_ a => (CancelPending (authority_relationship a), Some (mkCancelObservation a))
  | _ => (t, None)
  end.

Definition current_observation (t : phase) : TerminationObservation :=
  match t with
  | Unissued _ | Requested_ _ => Requested
  | Observing_ _ | CancelPending _ | CancelRejectedWaiting _ => Observing
  | Stopped_ | StoppedAwaitingCancel _ | StoppedWithCancelRejected _ => Observed
  | Cancelled_ => ObservationCancelled
  | ObserveRejected _ => ObservationRejected Start IdAlreadyBound
  end.

Definition into_rejected_observe (t : phase) :
  result (ObserveEstablished Endpoint * ObservationRejection) phase :=
  match t with ObserveRejected r => Ok (r, IdAlreadyBound) | _ => Err t end.

Definition into_rejected_cancel (t : phase) :
  result (CancelObservation * ObservationRejection) phase :=
  match t with
  | CancelRejectedWaiting r | StoppedWithCancelRejected r => Ok (r, NotObserved)
  | _ => Err t
  end.

(** The phase after an accepted report, [None] when it is given back. *)
Definition accepted_phase (t : phase) (r : report) : option phase :=
  match r with
  | Started a =>
      match t with
      | Requested_ c => if matches_request a c then Some (Observing_ a) else None
      | _ => None
      end
  | ObserveRejectedReport q reason =>
      match t with
      | Requested_ c =>
          if bool_decide (reason = IdAlreadyBound) && ptr_eq (correlation q) c
          then Some (ObserveRejected q) else None
      | _ => None
      end
  | CancelRejectedReport q reason =>
      match t with
      | CancelPending e =>
          if bool_decide (reason = NotObserved) && relationship_eq e (cancel_relationship q)
          then Some (CancelRejectedWaiting q) else None
      | StoppedAwaitingCancel e =>
          if bool_decide (reason = NotObserved) && relationship_eq e (cancel_relationship q)
          then Some (StoppedWithCancelRejected q) else None
      | _ => None
      end
  | CancelledReport rel =>
      match t with
      | CancelPending e => if relationship_eq e rel then Some Cancelled_ else None
      | _ => None
      end
  | StoppedReport rel _ _ =>
      match t with
      | Observing_ a => if relationship_eq (authority_relationship a) rel then Some Stopped_ else None
      | CancelPending e => if relationship_eq e rel then Some (StoppedAwaitingCancel e) else None
      | CancelRejectedWaiting q =>
          if relationship_eq (cancel_relationship q) rel
          then Some (StoppedWithCancelRejected q) else None
      | _ => None
      end
  end.

Definition accept_report (t : phase) (i : St) (r : report) :
  (phase * St) * result actions report :=
  match accepted_phase t r with
  | None => ((t, i), Err r)
  | Some t' =>
      match r with
      | StoppedReport _ _ _ => let '(i', a) := react_established i r in ((t', i'), Ok a)
      | _ => ((t', i), Ok cont)
      end
  end.

#[export] Instance LogicalTermination_Target :
  ObservationTarget (LogicalTermination A) St (PeerStopped A) (ObservePeer A) Ch Ph Sends := {
  request := logical_request;
  observation := logical_observation;
  react := logical_react
}.

#[export] Instance EstablishedTermination_Target :
  ObservationTarget phase St report (ObserveEstablished Endpoint) Ch Ph Sends := {
  request := request_once;
  observation := current_observation;
  react := accept_report
}.

End Targets.

(** ** The monitor over any target *)

Record TerminationMonitorWith (St Target : Type) := mkMonitor { inner : St; target : Target }.
Arguments mkMonitor {St Target} _ _.
Arguments inner {St Target} _.
Arguments target {St Target} _.

Section Monitor.
  Context {St Ev Ch Ph Sends E Target Report Request : Type} `{!SendEffects Sends}.
  Context `{!ObservationTarget Target St Report Request Ch Ph Sends}.
  Variable behavior : Behavior St Ev Ch Ph Sends E.

Abbreviation monitor := (TerminationMonitorWith St Target).
Abbreviation monitor_sends := (SendLayer (InterpreterRequests Request) Sends).
Abbreviation monitor_acted := (Acted Ch Ph monitor_sends (TerminationMonitorError E Report)).

Definition monitor_wrap (a : Actions Ch Ph Sends) (o : InterpreterRequests Request) :
  Actions Ch Ph monitor_sends :=
  map_sends (mkSendLayer o) a.

Definition monitor_init (m : monitor) : monitor * monitor_acted :=
  let '(i, acted) := initialize behavior (inner m) in
  match acted with
  | Err e => (mkMonitor i (target m), Err (MonitorInner e))
  | Ok a =>
      let '(t, r) := request (St := St) (Report := Report) (Ch := Ch) (Ph := Ph) (Sends := Sends)
                       (target m) in
      (mkMonitor i t, Ok (monitor_wrap a (mkRequests (option_list r))))
  end.

Definition monitor_transition (m : monitor) (event : EventLayer Report Ev) :
  monitor * monitor_acted :=
  match event with
  | Owned_ r =>
      let '((t, i), outcome) := react (target m) (inner m) r in
      (mkMonitor i t,
       match outcome with
       | Ok a => Ok (monitor_wrap a (mkRequests []))
       | Err r =>
           Err (MonitorUnexpectedReport
                  (observation (St := St) (Report := Report) (Ch := Ch) (Ph := Ph) (Sends := Sends) t) r)
       end)
  | Inner_ e =>
      let '(i, acted) := delegate_transition behavior (inner m) e in
      (mkMonitor i (target m),
       match acted with
       | Ok a => Ok (monitor_wrap a (mkRequests []))
       | Err e => Err (MonitorInner e)
       end)
  end.

End Monitor.

(** ** The exact-incarnation monitor *)

(** How often each thing happened in a run. *)
Record Tally := mkTally {
  requested_count : nat;
  started_count : nat;
  observe_rejected_count : nat;
  taken_count : nat;
  cancelled_count : nat;
  cancel_rejected_count : nat;
  stopped_count : nat
}.

Definition tally_add (a b : Tally) : Tally :=
  mkTally (requested_count a + requested_count b) (started_count a + started_count b)
    (observe_rejected_count a + observe_rejected_count b) (taken_count a + taken_count b)
    (cancelled_count a + cancelled_count b) (cancel_rejected_count a + cancel_rejected_count b)
    (stopped_count a + stopped_count b).

Definition report_tally {Endpoint A} (r : EstablishedObservation Endpoint A) : Tally :=
  match r with
  | Started _ => mkTally 0 1 0 0 0 0 0
  | ObserveRejectedReport _ _ => mkTally 0 0 1 0 0 0 0
  | CancelledReport _ => mkTally 0 0 0 0 1 0 0
  | CancelRejectedReport _ _ => mkTally 0 0 0 0 0 1 0
  | StoppedReport _ _ _ => mkTally 0 0 0 0 0 0 1
  end.

(** The history that each phase stands for. *)
Definition phase_tally {Endpoint} (t : EstablishedTermination Endpoint) : Tally :=
  match t with
  | Unissued _ => mkTally 0 0 0 0 0 0 0
  | Requested_ _ => mkTally 1 0 0 0 0 0 0
  | ObserveRejected _ => mkTally 1 0 1 0 0 0 0
  | Observing_ _ => mkTally 1 1 0 0 0 0 0
  | CancelPending _ => mkTally 1 1 0 1 0 0 0
  | CancelRejectedWaiting _ => mkTally 1 1 0 1 0 1 0
  | StoppedAwaitingCancel _ => mkTally 1 1 0 1 0 0 1
  | Stopped_ => mkTally 1 1 0 0 0 0 1
  | StoppedWithCancelRejected _ => mkTally 1 1 0 1 0 1 1
  | Cancelled_ => mkTally 1 1 0 1 1 0 0
  end.

(** The allocation that a report names, and those that a phase holds. *)
Definition report_allocation {Endpoint A} (r : EstablishedObservation Endpoint A) : N :=
  match r with
  | Started a => allocation (identity (authority_relationship a))
  | StoppedReport rel _ _ | CancelledReport rel => allocation (identity rel)
  | ObserveRejectedReport q _ => allocation (correlation q)
  | CancelRejectedReport q _ => allocation (identity (cancel_relationship q))
  end.

Definition phase_allocation {Endpoint} (t : EstablishedTermination Endpoint) : option N :=
  match t with
  | Unissued q | ObserveRejected q => Some (allocation (correlation q))
  | Requested_ c => Some (allocation c)
  | Observing_ a => Some (allocation (identity (authority_relationship a)))
  | CancelPending rel | StoppedAwaitingCancel rel => Some (allocation (identity rel))
  | CancelRejectedWaiting q | StoppedWithCancelRejected q =>
      Some (allocation (identity (cancel_relationship q)))
  | Stopped_ | Cancelled_ => None
  end.

Lemma accepted_phase_tally {A Endpoint} (t t' : EstablishedTermination Endpoint)
  (r : EstablishedObservation Endpoint A) :
  accepted_phase t r = Some t' ->
  phase_tally t' = tally_add (phase_tally t) (report_tally r) /\
  phase_allocation t = Some (report_allocation r) /\
  (phase_allocation t' = None \/ phase_allocation t' = Some (report_allocation r)).
Proof.
  unfold accepted_phase, matches_request, relationship_eq, ptr_eq.
  intros H; destruct r, t; try discriminate H; repeat split_match_in H; simplify_eq; simpl;
    repeat match goal with
    | H : (_ && _)%bool = true |- _ => apply andb_true_iff in H as [_ H]
    | H : (_ =? _)%N = true |- _ => apply N.eqb_eq in H; simpl in H
    end; (split; [done|]); split; try (f_equal; congruence); (left; done) || (right; f_equal; congruence).
Qed.

Section Established.
  Context {A Endpoint St Ev Ch Ph Sends E : Type} `{!EqDecision A, !SendEffects Sends}.
  Variable behavior : Behavior St Ev Ch Ph Sends E.
  Variable react_established :
    St -> EstablishedObservation Endpoint A -> St * Actions Ch Ph Sends.

Abbreviation report := (EstablishedObservation Endpoint A).
Abbreviation phase := (EstablishedTermination Endpoint).
Abbreviation monitor := (TerminationMonitorWith St phase).
Abbreviation acted :=
  (Acted Ch Ph (SendLayer (InterpreterRequests (ObserveEstablished Endpoint)) Sends)
     (TerminationMonitorError E report)).

#[local] Instance exact_target :
  ObservationTarget phase St report (ObserveEstablished Endpoint) Ch Ph Sends :=
  EstablishedTermination_Target react_established.

Definition established (i : St) (q : ObserveEstablished Endpoint) : monitor :=
  mkMonitor i (Unissued q).

(** What is done to a monitor. *)
Inductive monitor_op : Type :=
| Initialize
| Deliver (e : EventLayer report Ev)
| TakeCancellation.

Inductive monitor_out : Type :=
| Acts (a : acted)
| Taken (c : option CancelObservation).

Definition monitor_step (m : monitor) (op : monitor_op) : monitor * monitor_out :=
  match op with
  | Initialize => let '(m', a) := monitor_init behavior m in (m', Acts a)
  | Deliver e => let '(m', a) := monitor_transition behavior m e in (m', Acts a)
  | TakeCancellation =>
      let '(t, c) := take_cancellation (target m) in (mkMonitor (inner m) t, Taken c)
  end.

(** The observation requests that a step emits. *)
Definition emitted (_ : monitor_op) (o : monitor_out) : list (ObserveEstablished Endpoint) :=
  match o with Acts (Ok a) => requests (owned (sends a)) | _ => [] end.

(** The reports that a step accepts. *)
Definition accepted (op : monitor_op) (o : monitor_out) : list report :=
  match op, o with Deliver (Owned_ r), Acts (Ok _) => [r] | _, _ => [] end.

(** The cancellations that a step hands out. *)
Definition handed (_ : monitor_op) (o : monitor_out) : list CancelObservation :=
  match o with Taken (Some c) => [c] | _ => [] end.

Definition step_tally (op : monitor_op) (o : monitor_out) : Tally :=
  fold_right (fun r t => tally_add (report_tally r) t)
    (mkTally (length (emitted op o)) 0 0 (length (handed op o)) 0 0 0) (accepted op o).

Fixpoint run_tally (ops : list monitor_op) (outs : list monitor_out) : Tally :=
  match ops, outs with
  | op :: ops, o :: outs => tally_add (step_tally op o) (run_tally ops outs)
  | _, _ => mkTally 0 0 0 0 0 0 0
  end.

(** The wrapped behavior alone, with the reaction run on each accepted stop. *)
Definition replay (i : St) (op : monitor_op) (o : monitor_out) : St :=
  match op, o with
  | Initialize, _ => (init behavior i).1
  | Deliver (Inner_ e), _ => (transition behavior i e).1
  | Deliver (Owned_ (StoppedReport rel w n)), Acts (Ok _) =>
      (react_established i (StoppedReport rel w n)).1
  | _, _ => i
  end.

Fixpoint replays (i : St) (ops : list monitor_op) (outs : list monitor_out) : St :=
  match ops, outs with
  | op :: ops, o :: outs => replays (replay i op o) ops outs
  | _, _ => i
  end.

(** Every allocation a monitor still holds or accepts is the one it was built with. *)
Definition holds (n : N) (m : monitor) : Prop :=
  match phase_allocation (target m) with Some k => k = n | None => True end.

Lemma accept_report_accepted t t' i r :
  accepted_phase t r = Some t' ->
  exists a : Actions Ch Ph Sends,
    accept_report react_established t i r =
      ((t', replay i (Deliver (Owned_ r)) (Acts (Ok (monitor_wrap a (mkRequests []))))), Ok a).
Proof.
  intros H. unfold accept_report. rewrite H.
  destruct r; try (eexists; reflexivity).
  destruct (react_established i _) as [i' a] eqn:Hre. exists a. simpl. by rewrite Hre.
Qed.

Lemma accepted_step_tally r (a : Actions Ch Ph Sends) :
  step_tally (Deliver (Owned_ r)) (Acts (Ok (monitor_wrap a (mkRequests [])))) = report_tally r.
Proof. by destruct r. Qed.

Lemma tally_add_0 x : tally_add x (mkTally 0 0 0 0 0 0 0) = x.
Proof. destruct x. unfold tally_add. simpl. f_equal; lia. Qed.

Lemma tally_add_assoc x y z : tally_add x (tally_add y z) = tally_add (tally_add x y) z.
Proof. unfold tally_add. simpl. f_equal; lia. Qed.

Lemma monitor_step_spec q m op :
  (forall q', target m = Unissued q' -> q' = q) -> holds (allocation (correlation q)) m ->
  let '(m', o) := monitor_step m op in
  phase_tally (target m') = tally_add (phase_tally (target m)) (step_tally op o) /\
  inner m' = replay (inner m) op o /\
  (forall q', target m' = Unissued q' -> q' = q) /\
  holds (allocation (correlation q)) m' /\
  Forall (fun r => report_allocation r = allocation (correlation q)) (accepted op o) /\
  Forall (fun x => x = q) (emitted op o).
Proof.
  intros Hq Hh. destruct m as [i t]. destruct op as [|[r|e]|]; simpl in *.
  - unfold monitor_init, initialize. simpl. destruct (init behavior i) as [i' [a|e]] eqn:Hi; simpl.
    + destruct t; simpl in *; unfold holds in *; simpl in *; rewrite ?Hi; split_and!; auto; done.
    + destruct t; simpl in *; rewrite ?Hi; split_and!; auto; done.
  - destruct (accepted_phase t r) as [t'|] eqn:Ha.
    + destruct (accepted_phase_tally t t' r Ha) as (Ht & Hr & Hr'). unfold holds in *. simpl in *.
      rewrite Hr in Hh. destruct (accept_report_accepted t t' i r Ha) as [a ->].
      rewrite accepted_step_tally. simpl. split_and!; auto.
      * intros q' ->. by destruct r, t; simpl in Ha; repeat split_match_in Ha.
      * by destruct Hr' as [-> | ->].
    + unfold accept_report. rewrite Ha. simpl. rewrite tally_add_0.
      split_and!; auto. by destruct r.
  - unfold delegate_transition. destruct (transition behavior i e) as [i' [a|er]] eqn:Ht; simpl;
      split_and!; auto; try (by rewrite Ht); destruct t; done.
  - destruct t; simpl in *; unfold holds in *; simpl in *; split_and!; auto; done.
Qed.

Lemma monitor_run_spec q ops : forall m,
  (forall q', target m = Unissued q' -> q' = q) -> holds (allocation (correlation q)) m ->
  let '(m', outs) := trace monitor_step m ops in
  phase_tally (target m') = tally_add (phase_tally (target m)) (run_tally ops outs) /\
  inner m' = replays (inner m) ops outs /\
  Forall (fun r => report_allocation r = allocation (correlation q)) (collect accepted ops outs) /\
  Forall (fun x => x = q) (collect emitted ops outs).
Proof.
  induction ops as [|op ops IH]; intros m Hq Hh; cbn [trace].
  - cbn [run_tally replays collect]. by rewrite tally_add_0.
  - pose proof (monitor_step_spec q m op Hq Hh) as Hs.
    destruct (monitor_step m op) as [m1 o]. destruct Hs as (Ht & Hi & Hq1 & Hh1 & Ha & He).
    specialize (IH m1 Hq1 Hh1). destruct (trace monitor_step m1 ops) as [m2 outs].
    destruct IH as (Ht2 & Hi2 & Ha2 & He2). cbn [run_tally replays collect].
    rewrite Ht2, Ht, Hi2, Hi, tally_add_assoc. split_and!; auto; by apply Forall_app.
Qed.

(** The exact-incarnation monitor follows its protocol.  Take any wrapped
    behavior and any sequence of initializations, own events, reports and
    cancellation takings.  The phase tells the whole history: what has been
    requested, started, rejected, taken, cancelled and stopped is counted by the
    phase, so the request is emitted at most once and is the one the monitor was
    built with, its one grant is handed out at most once, a start or a start
    rejection is accepted once, a cancellation or a stop ends an observation but
    never both, and a rejected cancellation still allows the stop.  Every accepted
    report names the monitor's own allocation.  The wrapped behavior is in the state
    it reaches alone on its own events with the reaction run on the accepted stop,
    that is at most once. *)
Theorem established_monitor_protocol i q ops :
  let '(m, outs) := trace monitor_step (established i q) ops in
  let t := run_tally ops outs in
  t = phase_tally (target m) /\
  requested_count t <= 1 /\
  started_count t + observe_rejected_count t <= requested_count t /\
  taken_count t <= started_count t /\
  cancelled_count t + cancel_rejected_count t <= taken_count t /\
  cancelled_count t + stopped_count t <= started_count t /\
  Forall (fun r => report_allocation r = allocation (correlation q)) (collect accepted ops outs) /\
  Forall (fun x => x = q) (collect emitted ops outs) /\
  inner m = replays i ops outs.
Proof.
  pose proof (monitor_run_spec q ops (established i q)) as H.
  destruct (trace monitor_step (established i q) ops) as [m outs].
  destruct H as (Ht & Hi & Ha & He); [by intros q' [= ->]|done|].
  assert (Hh : run_tally ops outs = phase_tally (target m)).
  { rewrite Ht. simpl. unfold tally_add. simpl. by destruct (run_tally ops outs). }
  rewrite Hh. split_and!; auto; destruct (target m); simpl; lia.
Qed.

End Established.
