(* ===== verification/Task.v ===== *)
(** * One-result tasks and message adapters
    ([crates/actors/src/lifecycle/task.rs], [composition/message_adapter.rs])

    A task reports one terminal fact and stops; an adapter maps every message into
    one delivery to a fixed destination. *)

From stdpp Require Import base list option numbers.
From S2P Require Import Prelude Effects.

Inductive TaskState : Type := Pending | Completed | Cancelled.

Inductive TaskResult (R : Type) : Type :=
| ResultCompleted (r : R)
| ResultCancelled.
Arguments ResultCompleted {R} _.
Arguments ResultCancelled {R}.

Inductive TaskMessage (R Route : Type) : Type :=
| Complete (r : R) (reply_to : Route)
| Cancel (reply_to : Route).
Arguments Complete {R Route} _ _.
Arguments Cancel {R Route} _.

Inductive TaskError (R Route : Type) : Type :=
| ResultAfterCompletion (r : R) (reply_to : Route)
| ResultAfterCancellation (r : R) (reply_to : Route)
| CancellationAfterCompletion (reply_to : Route)
| CancellationAfterCancellation (reply_to : Route).
Arguments ResultAfterCompletion {R Route} _ _.
Arguments ResultAfterCancellation {R Route} _ _.
Arguments CancellationAfterCompletion {R Route} _.
Arguments CancellationAfterCancellation {R Route} _.

Record Task := mkTask { state : TaskState }.

Section Task.
  Context {A R Route Sends : Type}.
  Context `{!SendEffects Sends, !DeliveryRoute Route (TaskResult R) Sends}.

Definition new : Task := mkTask Pending.

Definition transition (s : Task) (event : User A (TaskMessage R Route)) :
  Task * Acted Never Never Sends (TaskError R Route) :=
  match state s, message event with
  | Pending, Complete r reply_to =>
      (mkTask Completed,
       Ok (mkActions (deliver reply_to (ResultCompleted r)) Creations_empty (Stop the_Stopped)))
  | Pending, Cancel reply_to =>
      (mkTask Cancelled,
       Ok (mkActions (deliver reply_to ResultCancelled) Creations_empty (Stop the_Stopped)))
  | Completed, Complete r reply_to => (s, Err (ResultAfterCompletion r reply_to))
  | Cancelled, Complete r reply_to => (s, Err (ResultAfterCancellation r reply_to))
  | Completed, Cancel reply_to => (s, Err (CancellationAfterCompletion reply_to))
  | Cancelled, Cancel reply_to => (s, Err (CancellationAfterCancellation reply_to))
  end.

(** The message that a rejection gives back. *)
Definition returned (e : TaskError R Route) : TaskMessage R Route :=
  match e with
  | ResultAfterCompletion r to | ResultAfterCancellation r to => Complete r to
  | CancellationAfterCompletion to | CancellationAfterCancellation to => Cancel to
  end.

(** The fact that the first message reports, and to whom. *)
Definition terminal_fact (m : TaskMessage R Route) : Route * TaskResult R :=
  match m with
  | Complete r to => (to, ResultCompleted r)
  | Cancel to => (to, ResultCancelled)
  end.

Lemma task_closed s (es : list (User A (TaskMessage R Route))) :
  state s <> Pending ->
  let '(s', os) := trace transition s es in
  s' = s /\ Forall2 (fun e o => exists err, o = Err err /\ returned err = message e) es os.
Proof.
  intros Hs. induction es as [|e es IH]; [by split|]. cbn [trace].
  assert (H1 : exists err, transition s e = (s, Err err) /\ returned err = message e).
  { unfold transition. destruct (state s) eqn:Hst, (message e); try done; eauto. }
  destruct H1 as (err & -> & Hr). destruct (trace transition s es) as [s' os].
  destruct IH as [-> IH]. split; [done|]. constructor; eauto.
Qed.

(** A task reports exactly one terminal fact: the first message is answered by its
    own fact to its own recipient in the actions that stop the actor, and every later
    message is refused and given back whole. *)
Theorem task_single_result (e : User A (TaskMessage R Route)) es :
  let '(s', os) := trace transition new (e :: es) in
  exists os', os = Ok (mkActions (deliver (terminal_fact (message e)).1 (terminal_fact (message e)).2)
                         Creations_empty (Stop the_Stopped)) :: os' /\
    state s' = (match message e with Complete _ _ => Completed | Cancel _ => Cancelled end) /\
    Forall2 (fun e o => exists err, o = Err err /\ returned err = message e) es os'.
Proof.
  cbn [trace]. unfold transition at 1. cbn [state new].
  destruct (message e) as [r to|to].
  - pose proof (task_closed (mkTask Completed) es) as H.
    destruct (trace transition (mkTask Completed) es) as [s' os].
    destruct H as [-> H]; [done|]. exists os. by split_and!.
  - pose proof (task_closed (mkTask Cancelled) es) as H.
    destruct (trace transition (mkTask Cancelled) es) as [s' os].
    destruct H as [-> H]; [done|]. exists os. by split_and!.
Qed.

End Task.

(** ** Message adapters *)

Record MessageAdapter (Input Msg Route : Type) := mkAdapter {
  destination : Route;
  adapt : Input -> Msg
}.
Arguments mkAdapter {Input Msg Route} _ _.
Arguments destination {Input Msg Route} _.
Arguments adapt {Input Msg Route} _ _.

Section Adapter.
  Context {A Input Msg Route Sends : Type}.
  Context `{!SendEffects Sends, !DeliveryRoute Route Msg Sends, !RouteLaws Route Msg Sends}.

Definition adapter_transition (s : MessageAdapter Input Msg Route) (event : User A Input) :
  MessageAdapter Input Msg Route * Acted Never Never Sends Never :=
  (s, Ok (send (deliver (destination s) (adapt s (message event))))).

(** An adapter delivers the image of every message, in order, and nothing else. *)
Theorem adapter_maps_stream (s : MessageAdapter Input Msg Route) (es : list (User A Input)) :
  let '(s', os) := trace adapter_transition s es in
  s' = s /\
  collect (fun _ (o : Acted Never Never Sends Never) => match o with Ok a => addressed (sends a) | Err e => match e with end end) es os =
    (fun e => (destination s, adapt s (message e))) <$> es.
Proof.
  induction es as [|e es IH]; [done|]. cbn [trace]. unfold adapter_transition at 1.
  destruct (trace adapter_transition s es) as [s' os]. destruct IH as [-> IH].
  split; [done|]. cbn [collect]. rewrite IH. simpl. by rewrite addressed_deliver.
Qed.

End Adapter.
