(* ===== verification/Creation.v ===== *)
(** * Outcomes of child creation

    The values a creator receives when the interpreter settles its creations
    ([crates/behavior/src/actor/creation.rs], [actor/addressing.rs],
    [effects/actions.rs]) and the two folds that read them for the templates:
    [templates/proxy_creation.rs] and [settle_worker_creation] of
    [templates/worker/mod.rs]. *)

From stdpp Require Import base list option numbers.
From S2P Require Import Prelude Effects Timers Restart Termination Settlement Interpretation.

#[export] Instance CreationKind_EqDecision : EqDecision CreationKind.
Proof. solve_decision. Defined.

(** ** Installed actors

    [Installed] is the runtime's installed value; [recipient] of the address
    family projects its endpoint. *)

Record EstablishedActor (Installed : Type) := actor_issued { installed : Installed }.
Arguments actor_issued {Installed} _.
Arguments installed {Installed} _.

Class EndpointAddress (Installed Endpoint : Type) := endpoint_of : Installed -> Endpoint.

Definition actor_recipient {Installed Endpoint} `{!EndpointAddress Installed Endpoint}
  (a : EstablishedActor Installed) : EstablishedRecipient Endpoint :=
  issued (endpoint_of (installed a)).

(** ** Outcomes *)

Definition routed_id {Nonce New} (r : RoutedCreation Nonce New) : CreationId := id (creation r).
Definition routed_kind {Nonce New} (r : RoutedCreation Nonce New) : CreationKind := kind (creation r).

Record CommittedChild (Installed : Type) := mkCommitted {
  committed_id : CreationId;
  committed_kind : CreationKind;
  committed_actor : EstablishedActor Installed
}.
Arguments mkCommitted {Installed} _ _ _.
Arguments committed_id {Installed} _.
Arguments committed_kind {Installed} _.
Arguments committed_actor {Installed} _.

Inductive EstablishedCreation (Installed : Type) : Type :=
| Creation_Installed (child : CommittedChild Installed)
| Installation_Rejected (id : CreationId) (kind : CreationKind) (reason : CreationRejection).
Arguments Creation_Installed {Installed} _.
Arguments Installation_Rejected {Installed} _ _ _.

Definition established_id {Installed} (c : EstablishedCreation Installed) : CreationId :=
  match c with Creation_Installed child => committed_id child | Installation_Rejected i _ _ => i end.

Definition established_kind {Installed} (c : EstablishedCreation Installed) : CreationKind :=
  match c with Creation_Installed child => committed_kind child | Installation_Rejected _ k _ => k end.

Definition established_into_committed {Installed} (c : EstablishedCreation Installed) :
  result (CommittedChild Installed) CreationRejection :=
  match c with
  | Creation_Installed child => Ok child
  | Installation_Rejected _ _ reason => Err reason
  end.

Definition established_into_recipient {Installed Endpoint} `{!EndpointAddress Installed Endpoint}
  (c : EstablishedCreation Installed) : result (EstablishedRecipient Endpoint) CreationRejection :=
  match c with
  | Creation_Installed child => Ok (actor_recipient (committed_actor child))
  | Installation_Rejected _ _ reason => Err reason
  end.

(** [C] is the child definition, [Init] its initialization actions. *)
Inductive ChildCreationOutcome (Nonce C E Init Installed : Type) : Type :=
| Outcome_Established (child : CommittedChild Installed)
| Outcome_Unavailable (id : CreationId) (kind : CreationKind)
| InitializationRejected (creation : RoutedCreation Nonce C) (error : E)
| InitializationPanicked (creation : RoutedCreation Nonce C)
| Outcome_HostRejected (creation : RoutedCreation Nonce C) (initialization : Init)
    (reason : CreationRejection).
Arguments Outcome_Established {Nonce C E Init Installed} _.
Arguments Outcome_Unavailable {Nonce C E Init Installed} _ _.
Arguments InitializationRejected {Nonce C E Init Installed} _ _.
Arguments InitializationPanicked {Nonce C E Init Installed} _.
Arguments Outcome_HostRejected {Nonce C E Init Installed} _ _ _.

(** The settlement of one creation of a batch, and of a whole batch. *)
Definition ChildSettlement (Nonce C E Init Installed : Type) : Type :=
  SettledItem (RoutedCreation Nonce C)
    (ItemSettlement (RoutedCreation Nonce C) (ChildCreationOutcome Nonce C E Init Installed)
       CreationRejection Never).

Definition CreationsSettled (Nonce C E Init Installed : Type) : Type :=
  CreationSettlement (Creations (CreateChild C)) (Creations (ChildSettlement Nonce C E Init Installed)).

Section Outcomes.
  Context {Nonce C E Init Installed : Type}.

Abbreviation outcome := (ChildCreationOutcome Nonce C E Init Installed).
Abbreviation settlement := (ChildSettlement Nonce C E Init Installed).

Definition outcome_into_committed (o : outcome) : result (CommittedChild Installed) outcome :=
  match o with Outcome_Established child => Ok child | other => Err other end.

Definition outcome_into_actor (o : outcome) : result (EstablishedActor Installed) outcome :=
  map_result committed_actor (outcome_into_committed o).

(** The correlation that a settlement carries ([proxy_creation::identity], and
    the reading of [PendingWorker::admit_creation]). *)
Definition outcome_identity (o : outcome) : CreationId * CreationKind :=
  match o with
  | Outcome_Established child => (committed_id child, committed_kind child)
  | Outcome_Unavailable i k => (i, k)
  | InitializationRejected c _ | InitializationPanicked c | Outcome_HostRejected c _ _ =>
      (routed_id c, routed_kind c)
  end.

Definition identity (s : settlement) : CreationId * CreationKind :=
  match s with
  | Attempted (Accepted created) => outcome_identity created
  | Attempted (Rejected item _) | Attempted (Corrupt item _) | Unattempted item =>
      (routed_id item, routed_kind item)
  | Attempted (Blocked _ prerequisite) => match prerequisite with end
  end.

(** ** Proxy creation ([templates/proxy_creation.rs]) *)

Inductive StableProxyCreation : Type :=
| ProxyCommitted (proxy : EstablishedActor Installed)
| ProxyRejected (s : settlement).

Definition resolve (s : settlement) : StableProxyCreation :=
  match (identity s).2 with
  | Birth =>
      match s with
      | Attempted (Accepted (Outcome_Established child)) => ProxyCommitted (committed_actor child)
      | s => ProxyRejected s
      end
  | Replacement _ => ProxyRejected s
  end.

(** A proxy creation commits exactly when the interpreter established a
    birth; every other settlement is returned whole. *)
Lemma resolve_committed s a :
  resolve s = ProxyCommitted a <->
  exists i, s = Attempted (Accepted (Outcome_Established (mkCommitted i Birth a))).
Proof.
  unfold resolve. split.
  - intros H. repeat split_match_in H; simplify_eq/=.
    repeat match goal with c : CommittedChild _ |- _ => destruct c end. simplify_eq/=. eauto.
  - intros [i ->]. reflexivity.
Qed.

Lemma resolve_rejected s s' : resolve s = ProxyRejected s' -> s' = s.
Proof. unfold resolve. intros H. repeat split_match_in H; simplify_eq/=; auto. Qed.

End Outcomes.
Arguments StableProxyCreation : clear implicits.

(** ** Worker creation ([templates/worker/mod.rs]) *)

Record StopOnShutdown (B : Type) := stop_on_shutdown_new { wrapped : B }.
Arguments stop_on_shutdown_new {B} _.
Arguments wrapped {B} _.

Definition into_inner {B} (s : StopOnShutdown B) : B := wrapped s.

Record WorkerRecovery (W Init : Type) := mkRecovery { recovered_worker : W; recovered_actions : Init }.
Arguments mkRecovery {W Init} _ _.
Arguments recovered_worker {W Init} _.
Arguments recovered_actions {W Init} _.

Definition into_retirement {W Init} (r : WorkerRecovery W Init) : W * Init :=
  (recovered_worker r, recovered_actions r).

Inductive WorkerCreationRejection (W E Init : Type) : Type :=
| WorkerUnavailable (id : CreationId) (kind : CreationKind)
| NamespaceExhausted (worker : W)
| WorkerRejected (worker : W) (error : E)
| WorkerPanicked (worker : W)
| HostRejected (recovery : WorkerRecovery W Init) (reason : CreationRejection)
| CreationRejected (worker : W) (reason : CreationRejection)
| InterpreterCorrupt (worker : W) (fault : InterpreterFault)
| InterpretationSkipped (worker : W).
Arguments WorkerUnavailable {W E Init} _ _.
Arguments NamespaceExhausted {W E Init} _.
Arguments WorkerRejected {W E Init} _ _.
Arguments WorkerPanicked {W E Init} _.
Arguments HostRejected {W E Init} _ _.
Arguments CreationRejected {W E Init} _ _.
Arguments InterpreterCorrupt {W E Init} _ _.
Arguments InterpretationSkipped {W E Init} _.

Section WorkerCreations.
  Context {Nonce W E Init Installed : Type}.

Definition WorkerCreationSettlement : Type :=
  ChildSettlement Nonce (StopOnShutdown W) E Init Installed.

Inductive WorkerCreationOutcome : Type :=
| WorkerEstablished (actor : EstablishedActor Installed)
| WorkerCreation_Rejected (rejection : WorkerCreationRejection W E Init).

Definition recover_worker (r : RoutedCreation Nonce (StopOnShutdown W)) : W :=
  into_inner (child (creation r)).

Definition settle_worker_creation (s : WorkerCreationSettlement) : WorkerCreationOutcome :=
  match s with
  | Attempted (Accepted created) =>
      match created with
      | Outcome_Unavailable i k => WorkerCreation_Rejected (WorkerUnavailable i k)
      | Outcome_Established c => WorkerEstablished (committed_actor c)
      | InitializationRejected r error =>
          WorkerCreation_Rejected (WorkerRejected (recover_worker r) error)
      | InitializationPanicked r => WorkerCreation_Rejected (WorkerPanicked (recover_worker r))
      | Outcome_HostRejected r initialization reason =>
          WorkerCreation_Rejected (HostRejected (mkRecovery (recover_worker r) initialization) reason)
      end
  | Attempted (Rejected item reason) =>
      WorkerCreation_Rejected (CreationRejected (recover_worker item) reason)
  | Attempted (Blocked _ prerequisite) => match prerequisite with end
  | Attempted (Corrupt item fault) =>
      WorkerCreation_Rejected (InterpreterCorrupt (recover_worker item) fault)
  | Unattempted item => WorkerCreation_Rejected (InterpretationSkipped (recover_worker item))
  end.

End WorkerCreations.
Arguments WorkerCreationSettlement : clear implicits.
Arguments WorkerCreationOutcome : clear implicits.
Arguments WorkerEstablished {W E Init Installed} _.
Arguments WorkerCreation_Rejected {W E Init Installed} _.

(** ** Stop classification *)

Inductive StopKind : Type := Stop_Normal | Stop_Abnormal.

Definition stop_kind {A} (outcome : TerminalOutcome A) : StopKind :=
  match outcome with
  | Ok Normal | Ok Collected => Stop_Normal
  | Ok (LinkDied _) | Ok (SupervisionFailed _) | Err _ => Stop_Abnormal
  end.
