(* ===== verification/ChildShutdown.v ===== *)
(** * Shutdown plans from child creations ([crates/actors/src/lifecycle/child_shutdown.rs])

    An application declares the order in which its direct children stop.  The
    wrapper watches the creations of those children and, once each of them is
    established, reports one plan to the coordinator around it.

    The product of child protocols has [count] positions, [fin count]; the
    position of a child in the sum of children is [occurrence].  What the source
    nests per position (the target sum, the observation lanes, the creation
    events) is built from the position here: the sum is [Targets count], the
    lanes a list of [count] lanes, and an event names its position.  The
    builder's type-level product of assigned children is the list [available]. *)

From stdpp Require Import base list option numbers fin finite sorting.
From S2P Require Import Prelude Effects Timers Termination ShutdownPlan ShutdownCoordinator Creation.

(** ** Data *)

Inductive ChildCreationExpectation : Type :=
| UnknownPosition
| Expect_NotRequested
| Expect_Awaiting (creation : CreationId) (kind : CreationKind)
| Expect_Established (creation : CreationId)
| PlanReported.

Record CreationResolved (A : Type) := mkResolved {
  resolved_creation : CreationId;
  resolved_kind : CreationKind;
  resolved_result : result A CreationRejection
}.
Arguments mkResolved {A} _ _ _.
Arguments resolved_creation {A} _.
Arguments resolved_kind {A} _.
Arguments resolved_result {A} _.

Inductive ChildShutdownPlanError (E A : Type) : Type :=
| PlanBehavior (error : E)
| DuplicateCreation (position : nat)
| MissingCreation (position : nat)
| UnexpectedCreationResult (position : nat) (expected : ChildCreationExpectation) (observed : CreationResolved A)
| PlanCreationRejected (position : nat) (observed : CreationResolved A)
| InvalidPlan (error : ShutdownPlanError CreationId)
| ChildNotEstablished (position : nat).
Arguments PlanBehavior {E A} _.
Arguments DuplicateCreation {E A} _.
Arguments MissingCreation {E A} _.
Arguments UnexpectedCreationResult {E A} _ _ _.
Arguments PlanCreationRejected {E A} _ _.
Arguments InvalidPlan {E A} _.
Arguments ChildNotEstablished {E A} _.

Inductive ChildStatus : Type :=
| NotRequested
| AwaitingCreation (creation : CreationId) (kind : CreationKind)
| EstablishedChild (creation : CreationId).

Definition expectation (s : ChildStatus) : ChildCreationExpectation :=
  match s with
  | NotRequested => Expect_NotRequested
  | AwaitingCreation creation kind => Expect_Awaiting creation kind
  | EstablishedChild creation => Expect_Established creation
  end.

Inductive Planning : Type :=
| Collecting (children : list ChildStatus)
| Reported.

Inductive PlannedEvent (Ev A : Type) : Type :=
| PlannedApplication (event : Ev)
| PlannedCreation (position : nat) (r : CreationResolved A).
Arguments PlannedApplication {Ev A} _.
Arguments PlannedCreation {Ev A} _ _.

Record ObserveCreation := mkObserveCreation { observe_creation : CreationId }.

Record ReportShutdownPlan (P : Type) := mkReportPlan { report_installation : InstallShutdownPlan P }.
Arguments mkReportPlan {P} _.
Arguments report_installation {P} _.

Definition report_new {P} (plan : P) : ReportShutdownPlan P := mkReportPlan (mkInstall plan).

(** ** Targets: one choice per position *)

Fixpoint Targets (n : nat) : Type :=
  match n with 0 => Never | S n => ShutdownChoice (Targets n) end.

#[export] Instance Targets_Selection : forall n, Selection (Targets n) :=
  fix go n := match n with
              | 0 => NoShutdownTargets_Selection
              | S n => ShutdownChoice_Selection (Targets n) (Selection0 := go n)
              end.

Fixpoint shutdown_target_at {n} (p : fin n) (c : CreationId) : Targets n :=
  match p in Fin.t n return Targets n with
  | Fin.F1 => Child c
  | Fin.FS p => Other (shutdown_target_at p c)
  end.

Lemma target_creation {n} (p : fin n) c : selection_creation (shutdown_target_at p c) = c.
Proof. induction p as [|n p IH]; [done|]. exact IH. Qed.

Lemma length_fin_enum n : length (fin_enum n) = n.
Proof. induction n as [|n IH]; cbn; [done|]. by rewrite length_fmap, IH. Qed.

Lemma fin_enum_lookup {n} (p : fin n) : fin_enum n !! fin_to_nat p = Some p.
Proof.
  induction p as [|n p IH]; [done|]. transitivity ((FS <$> fin_enum n) !! fin_to_nat p); [done|].
  by rewrite list_lookup_fmap, IH.
Qed.

(** ** Declaring phases *)

(** [AssignAt]: only a child that is not assigned yet can be. *)
Fixpoint assign_at (available : list bool) (p : nat) : option (list bool) :=
  match available, p with
  | true :: tail, 0 => Some (false :: tail)
  | a :: tail, S p => cons a <$> assign_at tail p
  | _, _ => None
  end.

(** [AllAssigned] *)
Definition all_assigned (available : list bool) : bool := forallb negb available.

Section ChildShutdown.
  Context {St Ev Ch Ph Sends E A : Type} `{!SendEffects Sends} {count : nat}.
  Context (B : Behavior St Ev Ch Ph Sends E) (occurrence : Ch -> fin count).

Abbreviation plan_error := (ChildShutdownPlanError E A).
Abbreviation shutdown_plan := (ShutdownPlan (Targets count)).

(** Declared phases, the latest first ([Phase<Role, Earlier>]). *)
Record ChildShutdownPhases := mkPhases {
  phases_application : St;
  phases_available : list bool;
  phases_declared : list (fin count)
}.

Definition shutdown_after_children (application : St) : ChildShutdownPhases :=
  mkPhases application (replicate count true) [].

Definition shutdown_phase (b : ChildShutdownPhases) (role : fin count) : option ChildShutdownPhases :=
  available ← assign_at (phases_available b) (fin_to_nat role);
  Some (mkPhases (phases_application b) available (role :: phases_declared b)).

Record ChildShutdownPlan := mkChildPlan { application : St; planning : Planning }.

Definition child_plan_new (i : St) : ChildShutdownPlan := mkChildPlan i (Collecting []).

Definition finish (b : ChildShutdownPhases) :
  option (@Coordinator ChildShutdownPlan (Targets count)) :=
  if all_assigned (phases_available b) then Some (awaiting_plan (child_plan_new (phases_application b))) else None.

(** ** Sends: an observation lane per position, the reports, the application *)

Record Observations := mkObservations { observation_lanes : list (InterpreterRequests ObserveCreation) }.

#[export] Instance Observations_SendEffects : SendEffects Observations := {
  sends_empty := mkObservations (replicate count sends_empty);
  sends_append a b := mkObservations (zip_with sends_append (observation_lanes a) (observation_lanes b))
}.

Abbreviation base_sends := (SendLayer (InterpreterRequests (ReportShutdownPlan shutdown_plan)) Sends).
Abbreviation planned_sends := (SendLayer Observations base_sends).
Abbreviation planned_actions := (Actions Ch Ph planned_sends).

Definition empty_sends (base : base_sends) : planned_sends := mkSendLayer sends_empty base.

Definition observe (c : CreateChild Ch) (sr : planned_sends * list (nat * CreationId * CreationKind)) :
  planned_sends * list (nat * CreationId * CreationKind) :=
  let '(s, requested) := sr in
  let position := fin_to_nat (occurrence (Effects.child c)) in
  (mkSendLayer
     (mkObservations (alter (fun lane => mkRequests (requests lane ++ [mkObserveCreation (id c)])) position
                        (observation_lanes (owned s)))) (inner s),
   requested ++ [(position, id c, kind c)]).

(** [BuildShutdownPlan::build] *)
Fixpoint build (declared : list (fin count)) (children : list ChildStatus) :
  result (list (list (Targets count))) plan_error :=
  match declared with
  | [] => Ok []
  | role :: earlier =>
      match build earlier children with
      | Err e => Err e
      | Ok phases =>
          match children !! fin_to_nat role with
          | Some (EstablishedChild creation) => Ok (phases ++ [[shutdown_target_at role creation]])
          | _ => Err (ChildNotEstablished (fin_to_nat role))
          end
      end
  end.

(** The phases of a complete set of children, validated. *)
Definition build_plan (declared : list (fin count)) (children : list ChildStatus) : result shutdown_plan plan_error :=
  match build declared children with
  | Err e => Err e
  | Ok phases => map_err InvalidPlan (plan_new selection_creation phases)
  end.

Definition unrequested (s : ChildStatus) : bool := match s with NotRequested => true | _ => false end.
Definition established (s : ChildStatus) : bool := match s with EstablishedChild _ => true | _ => false end.

(** The first loop over the requested creations. *)
Fixpoint await_all (next : list ChildStatus) (requested : list (nat * CreationId * CreationKind)) :
  result (list ChildStatus) plan_error :=
  match requested with
  | [] => Ok next
  | (position, creation, kind) :: requested =>
      match next !! position with
      | Some NotRequested => await_all (<[position := AwaitingCreation creation kind]> next) requested
      | _ => Err (DuplicateCreation position)
      end
  end.

(** The statuses that an initialization leaves, one per position. *)
Definition collect_children (requested : list (nat * CreationId * CreationKind)) : result (list ChildStatus) plan_error :=
  match await_all (replicate count NotRequested) requested with
  | Err e => Err e
  | Ok next =>
      match position unrequested next with
      | Some position => Err (MissingCreation position)
      | None => Ok next
      end
  end.

Section Declared.
  Context (declared : list (fin count)).

Definition wrap_initialization (w : ChildShutdownPlan) (a : Actions Ch Ph Sends) :
  ChildShutdownPlan * result planned_actions plan_error :=
  let observed reports := fold_left (fun sr c => observe c sr) (items (creates a)) (empty_sends (mkSendLayer reports (sends a)), []) in
  let acted planned := Ok (mkActions planned (creates a) (become_ a)) in
  if count =? 0 then
    match build_plan declared [] with
    | Err e => (w, Err e)
    | Ok plan =>
        (mkChildPlan (application w) Reported, acted (observed (InterpreterRequests_one (report_new plan))).1)
    end
  else
    let '(planned, requested) := observed sends_empty in
    match collect_children requested with
    | Err e => (w, Err e)
    | Ok next => (mkChildPlan (application w) (Collecting next), acted planned)
    end.

Definition wrap_transition (a : Actions Ch Ph Sends) : planned_actions :=
  mkActions (empty_sends (mkSendLayer sends_empty (sends a))) (creates a) (become_ a).

(** The child that a result answers. *)
Definition awaited (p : Planning) (position : nat) (r : CreationResolved A) :
  result (list ChildStatus * CreationId) plan_error :=
  let unexpected expected := Err (UnexpectedCreationResult position expected r) in
  match p with
  | Reported => unexpected PlanReported
  | Collecting children =>
      match children !! position with
      | None => unexpected UnknownPosition
      | Some (AwaitingCreation creation kind) =>
          if bool_decide (resolved_creation r <> creation) || bool_decide (resolved_kind r <> kind)
          then unexpected (Expect_Awaiting creation kind)
          else Ok (children, creation)
      | Some status => unexpected (expectation status)
      end
  end.

Definition creation_resolved (w : ChildShutdownPlan) (position : nat) (r : CreationResolved A) :
  ChildShutdownPlan * result planned_actions plan_error :=
  match awaited (planning w) position r with
  | Err e => (w, Err e)
  | Ok (children, creation) =>
      match resolved_result r with
      | Err _ => (w, Err (PlanCreationRejected position r))
      | Ok _ =>
          let next := <[position := EstablishedChild creation]> children in
          if negb (forallb established next) then (mkChildPlan (application w) (Collecting next), Ok cont)
          else
            match build_plan declared next with
            | Err e => (w, Err e)
            | Ok plan =>
                (mkChildPlan (application w) Reported,
                 Ok (mkActions (empty_sends (mkSendLayer (InterpreterRequests_one (report_new plan)) sends_empty))
                       Creations_empty Continue))
            end
      end
  end.

Definition child_plan_init (w : ChildShutdownPlan) : ChildShutdownPlan * result planned_actions plan_error :=
  let '(i, acted) := initialize B (application w) in
  let w := mkChildPlan i (planning w) in
  match acted with
  | Err e => (w, Err (PlanBehavior e))
  | Ok a => wrap_initialization w a
  end.

Definition child_plan_transition (w : ChildShutdownPlan) (e : PlannedEvent Ev A) :
  ChildShutdownPlan * result planned_actions plan_error :=
  match e with
  | PlannedApplication event =>
      let '(i, acted) := delegate_transition B (application w) event in
      (mkChildPlan i (planning w), map_err PlanBehavior (map_result wrap_transition acted))
  | PlannedCreation position r => creation_resolved w position r
  end.

(** The whole as a behavior, for the coordinator around it. *)
Definition child_plan_behavior :
  Behavior ChildShutdownPlan (PlannedEvent Ev A) Ch Ph planned_sends plan_error :=
  mkBehavior child_plan_init child_plan_transition.

(** ** Building a plan *)

Lemma build_established (created : fin count -> CreationId) children :
  (forall p : fin count, children !! fin_to_nat p = Some (EstablishedChild (created p))) ->
  build declared children = Ok ((fun r => [shutdown_target_at r (created r)]) <$> reverse declared).
Proof.
  intros Hc. clear - Hc. induction declared as [|role earlier IH]; cbn [build]; [done|].
  rewrite IH, Hc, reverse_cons, fmap_app. done.
Qed.

Lemma build_plan_established (created : fin count -> CreationId) children :
  NoDup declared -> (forall p q, created p = created q -> p = q) ->
  (forall p : fin count, children !! fin_to_nat p = Some (EstablishedChild (created p))) ->
  build_plan declared children = Ok (mkPlan ((fun r => [shutdown_target_at r (created r)]) <$> reverse declared)).
Proof.
  intros Hn Hi Hc. unfold build_plan. rewrite (build_established created) by done.
  assert (Hp : plan_new selection_creation ((fun r => [shutdown_target_at r (created r)]) <$> reverse declared) =
    Ok (mkPlan ((fun r => [shutdown_target_at r (created r)]) <$> reverse declared))); [|by rewrite Hp].
  apply plan_new_Ok. split; [done|]. split; [apply Forall_fmap, Forall_forall; by intros|].
  assert (E1 : forall l, selection_creation <$> concat ((fun r => [shutdown_target_at r (created r)]) <$> l) = created <$> l).
  { induction l as [|r l IH]; [done|]. cbn. rewrite target_creation. f_equal. exact IH. }
  rewrite E1. apply NoDup_fmap_2_strong; [|by rewrite reverse_Permutation]. intros p q _ _. apply Hi.
Qed.

(** ** Collecting the children *)

Abbreviation request := (nat * CreationId * CreationKind)%type.

Lemma await_all_spec (requested : list request) : forall next next', await_all next requested = Ok next' ->
  NoDup ((fun x => x.1.1) <$> requested) /\ length next' = length next /\
  (forall x, x ∈ requested -> next !! x.1.1 = Some NotRequested /\ next' !! x.1.1 = Some (AwaitingCreation x.1.2 x.2)) /\
  (forall p, p ∉ ((fun x => x.1.1) <$> requested) -> next' !! p = next !! p).
Proof.
  induction requested as [|[[p c] k] requested IH]; intros next next'; cbn [await_all].
  { intros [= <-]. split_and!; [constructor|done|by intros ? ?%elem_of_nil|done]. }
  destruct (next !! p) as [[]|] eqn:Hp; try done. intros Hx. apply IH in Hx as (H1 & H2 & H3 & H4). clear IH.
  rewrite length_insert in H2. assert (Hnot : p ∉ ((fun x : request => x.1.1) <$> requested)).
  { intros ([[p' c'] k'] & -> & Hin)%list_elem_of_fmap. apply H3 in Hin as [Hin _]. cbn in *.
    rewrite list_lookup_insert_eq in Hin by (by eapply lookup_lt_Some). done. }
  split_and!; cbn; [by constructor|done| |].
  - intros x [->|Hin]%elem_of_cons; cbn.
    + split; [done|]. rewrite H4 by done. apply list_lookup_insert_eq. by eapply lookup_lt_Some.
    + destruct (H3 _ Hin) as [Ha Hb]. split; [|done]. destruct (base.decide (p = x.1.1)) as [->|Hne].
      * rewrite list_lookup_insert_eq in Ha by (by eapply lookup_lt_Some). done.
      * by rewrite list_lookup_insert_ne in Ha.
  - intros q [Hne Hq]%not_elem_of_cons. rewrite H4 by done. by apply list_lookup_insert_ne.
Qed.

(** Every position was requested once. *)
Lemma collect_children_spec (requested : list request) next : collect_children requested = Ok next ->
  NoDup ((fun x => x.1.1) <$> requested) /\ length next = count /\
  forall p : fin count, exists c k, (fin_to_nat p, c, k) ∈ requested /\ next !! fin_to_nat p = Some (AwaitingCreation c k).
Proof.
  unfold collect_children. destruct (await_all _ _) as [next'|] eqn:Ha; [|done].
  destruct (position unrequested next') eqn:Hp; [done|]. intros [= <-].
  apply await_all_spec in Ha as (H1 & H2 & H3 & H4). rewrite length_replicate in H2. split_and!; [done..|].
  intros p. destruct (base.decide (fin_to_nat p ∈ ((fun x : request => x.1.1) <$> requested))) as [Hin|Hin].
  - apply list_elem_of_fmap in Hin as ([[p' c] k] & Hpe & Hin). cbn in Hpe. subst p'. exists c, k. split; [done|]. by apply H3 in Hin as [_ Hin].
  - exfalso. apply H4 in Hin. rewrite lookup_replicate_2 in Hin by apply fin_to_nat_lt.
    apply position_None in Hp. rewrite Forall_forall in Hp. apply list_elem_of_lookup_2, Hp in Hin. done.
Qed.

(** ** Initialization *)

Definition request_of (c : CreateChild Ch) : request := (fin_to_nat (occurrence (Effects.child c)), id c, kind c).

(** What the lane of a position asks for, of some creations. *)
Definition observed_at (p : nat) (l : list (CreateChild Ch)) : list ObserveCreation :=
  (fun c => mkObserveCreation (id c)) <$> List.filter (fun c => bool_decide (fin_to_nat (occurrence (Effects.child c)) = p)) l.

Lemma observe_all (l : list (CreateChild Ch)) : forall (s : planned_sends) (req : list request),
  let '(s', req') := fold_left (fun sr c => observe c sr) l (s, req) in
  req' = req ++ (request_of <$> l) /\ inner s' = inner s /\
  length (observation_lanes (owned s')) = length (observation_lanes (owned s)) /\
  forall p, observation_lanes (owned s') !! p =
    (fun lane => mkRequests (requests lane ++ observed_at p l)) <$> observation_lanes (owned s) !! p.
Proof.
  induction l as [|c l IH]; intros s req; cbn [fold_left].
  { split_and!; [by rewrite app_nil_r|done|done|]. intros p. destruct (_ !! p) as [[]|]; cbn; [by rewrite app_nil_r|done]. }
  cbn [observe]. match goal with |- context [fold_left _ l (?s1, ?r1)] => specialize (IH s1 r1) end.
  destruct (fold_left _ _ _) as [s' req']. cbn in IH. destruct IH as (H1 & H2 & H3 & H4). split_and!; auto.
  - by rewrite H1, <- app_assoc.
  - rewrite H3. apply length_alter.
  - intros p. rewrite H4. unfold observed_at. cbn. case_bool_decide as Hp.
    + subst p. rewrite list_lookup_alter_eq. destruct (_ !! _); cbn; [|done]. by rewrite <- app_assoc.
    + by rewrite list_lookup_alter_ne.
Qed.

Lemma filter_unique {X} (f : X -> nat) (l : list X) x : NoDup (f <$> l) -> x ∈ l ->
  List.filter (fun y => bool_decide (f y = f x)) l = [x].
Proof.
  induction l as [|y l IH]; [by intros _ ?%elem_of_nil|]. cbn. intros [Hy Hn]%NoDup_cons [->|Hx]%elem_of_cons.
  - rewrite bool_decide_true by done. f_equal. assert (Hnot : forall z, z ∈ l -> f z <> f y).
    { intros z Hz Heq. apply Hy. rewrite <- Heq. by apply list_elem_of_fmap_2. }
    clear -Hnot. induction l as [|z l IH]; [done|]. cbn. rewrite bool_decide_false by (apply Hnot; left).
    apply IH. intros z' Hz'. apply Hnot. by right.
  - rewrite bool_decide_false; [by apply IH|]. intros Heq. apply Hy. rewrite Heq. by apply list_elem_of_fmap_2.
Qed.

(** [created] and [kinds] name the creation of each position. *)
Definition creates_all (a : Creations (CreateChild Ch)) (created : fin count -> CreationId) (kinds : fin count -> CreationKind) : Prop :=
  (forall c, c ∈ items a -> created (occurrence (Effects.child c)) = id c /\ kinds (occurrence (Effects.child c)) = kind c) /\
  (forall p, exists c, c ∈ items a /\ occurrence (Effects.child c) = p) /\
  NoDup ((fun c => occurrence (Effects.child c)) <$> items a).

Definition awaits_all (created : fin count -> CreationId) (kinds : fin count -> CreationKind) (children : list ChildStatus) : Prop :=
  length children = count /\ forall p : fin count,
    children !! fin_to_nat p = Some (AwaitingCreation (created p) (kinds p)) \/
    children !! fin_to_nat p = Some (EstablishedChild (created p)).

Lemma collected_creates (l : list (CreateChild Ch)) next : collect_children (request_of <$> l) = Ok next ->
  exists created kinds, creates_all (mkCreations l) created kinds /\ awaits_all created kinds next /\
    forall p : fin count, observed_at (fin_to_nat p) l = [mkObserveCreation (created p)].
Proof.
  intros (Hn & Hlen & Hall)%collect_children_spec. rewrite <- list_fmap_compose in Hn.
  set (created := fun p : fin count => match next !! fin_to_nat p with
    Some (AwaitingCreation c _) => c | _ => Build_CreationId 0 end).
  set (kinds := fun p : fin count => match next !! fin_to_nat p with Some (AwaitingCreation _ k) => k | _ => Birth end).
  assert (Hpos : forall p : fin count, exists c, c ∈ l /\ occurrence (Effects.child c) = p /\
    created p = id c /\ kinds p = kind c /\ next !! fin_to_nat p = Some (AwaitingCreation (created p) (kinds p))).
  { intros p. destruct (Hall p) as (c & k & (x & Hx & Hin)%list_elem_of_fmap & Hnx). exists x. unfold request_of in Hx.
    injection Hx as Hx1 Hx2 Hx3. apply (inj fin_to_nat) in Hx1. unfold created, kinds. rewrite Hnx. cbn. split_and!; congruence. }
  assert (Huniq : forall c c', c ∈ l -> c' ∈ l -> occurrence (Effects.child c) = occurrence (Effects.child c') -> c = c').
  { intros c c' Hc Hc' He. pose proof (filter_unique _ l c Hn Hc) as H1.
    assert (Hin : c' ∈ List.filter (fun y => bool_decide ((((fun x : request => x.1.1) ∘ request_of) y) = (((fun x : request => x.1.1) ∘ request_of) c))) l).
    { rewrite list_elem_of_In, filter_In, <- list_elem_of_In. split; [done|]. apply bool_decide_eq_true_2. cbn. by rewrite He. }
    rewrite H1 in Hin. by apply list_elem_of_singleton in Hin. }
  exists created, kinds. split_and!.
  - split_and!; cbn.
    + intros c Hc. destruct (Hpos (occurrence (Effects.child c))) as (c' & Hc' & He & -> & -> & _). by rewrite (Huniq c c').
    + intros p. destruct (Hpos p) as (c & Hc & He & _). eauto.
    + apply (NoDup_fmap_1 fin_to_nat). by rewrite <- list_fmap_compose.
  - split; [done|]. intros p. left. by destruct (Hpos p) as (? & _ & _ & _ & _ & ?).
  - intros p. destruct (Hpos p) as (c & Hc & He & Hid & _ & _). unfold observed_at. rewrite <- He.
    pose proof (filter_unique _ l c Hn Hc) as H1. cbn in H1. rewrite H1. cbn. by rewrite He, Hid.
Qed.

Lemma creates_injective a created kinds : creates_all a created kinds -> NoDup (id <$> items a) ->
  forall p q, created p = created q -> p = q.
Proof.
  intros (H1 & H2 & _) Hn p q He. destruct (H2 p) as (c & Hc & <-), (H2 q) as (d & Hdd & <-).
  destruct (H1 c Hc) as [Hc1 _], (H1 d Hdd) as [Hd1 _]. assert (c = d) as ->; [|done].
  apply list_elem_of_lookup_1 in Hc as [m Hm], Hdd as [j Hj]. assert (m = j) as ->; [|congruence].
  eapply NoDup_lookup; [exact Hn|rewrite list_lookup_fmap, Hm; reflexivity|].
  rewrite list_lookup_fmap, Hj. cbn. congruence.
Qed.
(** ** Steps *)

Definition reports_of (o : result planned_actions plan_error) : list shutdown_plan :=
  match o with Ok a => (fun r => installed_plan (report_installation r)) <$> requests (owned (inner (sends a))) | Err _ => [] end.

(** The plan that the declaration promises for the created children. *)
Definition declared_plan (roles : list (fin count)) (created : fin count -> CreationId) : shutdown_plan :=
  mkPlan ((fun r => [shutdown_target_at r (created r)]) <$> roles).

(** What the wrapper has said so far agrees with its planning. *)
Definition planned (created : fin count -> CreationId) (kinds : fin count -> CreationKind) (p : Planning) (said : list shutdown_plan) : Prop :=
  match p with
  | Reported => said = [declared_plan (reverse declared) created]
  | Collecting children => said = [] /\ awaits_all created kinds children /\ forallb established children = false
  end.

Lemma all_established created kinds children : awaits_all created kinds children -> forallb established children = true ->
  forall p : fin count, children !! fin_to_nat p = Some (EstablishedChild (created p)).
Proof.
  intros [_ Ha] Hf p. destruct (Ha p) as [Hp|]; [|done]. rewrite forallb_forall in Hf.
  apply list_elem_of_lookup_2, list_elem_of_In, Hf in Hp. done.
Qed.

Lemma establish created kinds children position creation kind : awaits_all created kinds children ->
  children !! position = Some (AwaitingCreation creation kind) ->
  awaits_all created kinds (<[position := EstablishedChild creation]> children).
Proof.
  intros [Hl Ha] Hp. split; [by rewrite length_insert|]. intros p. destruct (base.decide (fin_to_nat p = position)) as [<-|Hne].
  - right. rewrite list_lookup_insert_eq by (by eapply lookup_lt_Some). destruct (Ha p); congruence.
  - rewrite list_lookup_insert_ne by done. apply Ha.
Qed.

Lemma awaited_Ok p position r children creation : awaited p position r = Ok (children, creation) ->
  p = Collecting children /\ resolved_creation r = creation /\
  children !! position = Some (AwaitingCreation creation (resolved_kind r)).
Proof.
  unfold awaited. destruct p as [l|]; [|done]. destruct (l !! position) as [[|c k|]|] eqn:Hl; try done.
  destruct (base.decide (resolved_creation r = c)) as [Hc|Hc]; [rewrite bool_decide_false by (by intros ?)|by rewrite bool_decide_true].
  destruct (base.decide (resolved_kind r = k)) as [Hk|Hk]; [rewrite bool_decide_false by (by intros ?)|by rewrite bool_decide_true].
  intros [= <- <-]. by rewrite Hl, Hk.
Qed.

Lemma step_planned created kinds w e w' o said :
  NoDup declared -> (forall p q, created p = created q -> p = q) ->
  planned created kinds (planning w) said -> child_plan_transition w e = (w', o) ->
  planned created kinds (planning w') (said ++ reports_of o).
Proof.
  intros Hn Hi Hw. destruct e as [event|position r]; cbn [child_plan_transition].
  { destruct (delegate_transition B _ _) as [i [a|err]]; intros [= <- <-]; cbn; by rewrite app_nil_r. }
  unfold creation_resolved. destruct (awaited _ _ _) as [[children creation]|err] eqn:Ha; [|intros [= <- <-]; cbn; by rewrite app_nil_r].
  apply awaited_Ok in Ha as (Hp & Hc & Hl). rewrite Hp in Hw. destruct Hw as (-> & Haw & Hf).
  destruct (resolved_result r); [|intros [= <- <-]; cbn; by rewrite Hp].
  pose proof (establish _ _ _ _ _ _ Haw Hl) as Haw'. destruct (forallb established (<[_:=_]> children)) eqn:He; cbn [negb].
  - rewrite (build_plan_established created) by eauto using all_established. intros [= <- <-]. done.
  - intros [= <- <-]. cbn. by split_and!.
Qed.

Lemma trace_planned created kinds es : NoDup declared -> (forall p q, created p = created q -> p = q) -> forall w said w' outs,
  planned created kinds (planning w) said -> trace child_plan_transition w es = (w', outs) ->
  planned created kinds (planning w') (said ++ (outs ≫= reports_of)).
Proof.
  intros Hn Hi. induction es as [|e es IH]; intros w said w' outs Hw; cbn [trace].
  { intros [= <- <-]. cbn. by rewrite app_nil_r. }
  destruct (child_plan_transition w e) as [w1 o] eqn:Hs. destruct (trace _ w1 es) as [w2 os] eqn:Ht. intros [= <- <-].
  rewrite bind_cons, app_assoc. eapply IH; [|exact Ht]. by eapply step_planned.
Qed.

Lemma init_planned i w a : 0 < count -> child_plan_init (child_plan_new i) = (w, Ok a) ->
  exists created kinds children, creates_all (creates a) created kinds /\ planning w = Collecting children /\
    (forall p : fin count, children !! fin_to_nat p = Some (AwaitingCreation (created p) (kinds p))) /\
    planned created kinds (planning w) (reports_of (Ok a)) /\
    observation_lanes (owned (sends a)) = (fun p => mkRequests [mkObserveCreation (created p)]) <$> fin_enum count.
Proof.
  intros Hpos. unfold child_plan_init, wrap_initialization. destruct (initialize B _) as [i' [a0|err]]; [|done].
  destruct (Nat.eqb_spec count 0) as [|_]; [lia|].
  pose proof (observe_all (items (creates a0)) (empty_sends (mkSendLayer sends_empty (sends a0))) []) as Ho.
  destruct (fold_left _ _ _) as [planned' req]. destruct Ho as (-> & Hinner & Hlen & Hlanes). cbn [app].
  destruct (collect_children _) as [next|] eqn:Hc; [|done]. intros [= <- <-].
  destruct (collected_creates _ _ Hc) as (created & kinds & Hcr & Haw & Hobs). exists created, kinds, next. cbn [creates planning sends].
  apply collect_children_spec in Hc as (_ & _ & Hall).
  assert (Hst : forall p : fin count, next !! fin_to_nat p = Some (AwaitingCreation (created p) (kinds p))).
  { intros p. destruct (Hall p) as (c & k & _ & Hp). destruct Haw as [_ Haw]. destruct (Haw p); congruence. }
  split_and!; [by destruct (creates a0)|done|done| |].
  - split_and!; [cbn; by rewrite Hinner|done|]. apply not_true_iff_false. intros Hf.
    pose proof (all_established _ _ _ Haw Hf (nat_to_fin Hpos)) as H1. by rewrite Hst in H1.
  - apply list_eq. intros i0. rewrite Hlanes, list_lookup_fmap. cbn. destruct (base.decide (i0 < count)) as [Hlt|Hge].
    + rewrite lookup_replicate_2 by done. pose proof (fin_enum_lookup (nat_to_fin Hlt)) as Hf.
      rewrite fin_to_nat_to_fin in Hf. rewrite Hf. cbn. rewrite <- (fin_to_nat_to_fin _ _ Hlt) at 1. by rewrite Hobs.
    + rewrite !lookup_ge_None_2; [done|rewrite length_fin_enum; lia|rewrite length_replicate; lia].
Qed.

(** ** Every order of answers completes the plan *)

Definition establishing (created : fin count -> CreationId) (kinds : fin count -> CreationKind) (address : fin count -> A)
  (p : fin count) : PlannedEvent Ev A :=
  PlannedCreation (fin_to_nat p) (mkResolved (created p) (kinds p) (Ok (address p))).

Lemma answers_complete created kinds address order : NoDup declared -> (forall p q, created p = created q -> p = q) -> NoDup order ->
  order <> [] -> forall w children, planning w = Collecting children -> length children = count ->
  (forall p : fin count, children !! fin_to_nat p =
     Some (if bool_decide (p ∈ order) then AwaitingCreation (created p) (kinds p) else EstablishedChild (created p))) ->
  planning (trace child_plan_transition w (establishing created kinds address <$> order)).1 = Reported.
Proof.
  intros Hn Hi. induction order as [|p order IH]; [done|]. intros [Hp Hno]%NoDup_cons _ w children Hw Hlen Hst.
  cbn [fmap list_fmap trace]. assert (Hat : children !! fin_to_nat p = Some (AwaitingCreation (created p) (kinds p))).
  { rewrite Hst, bool_decide_true by left. done. }
  assert (Hnext : forall q : fin count, <[fin_to_nat p := EstablishedChild (created p)]> children !! fin_to_nat q =
    Some (if bool_decide (q ∈ order) then AwaitingCreation (created q) (kinds q) else EstablishedChild (created q))).
  { intros q. destruct (base.decide (q = p)) as [->|Hq].
    - rewrite list_lookup_insert_eq by (by eapply lookup_lt_Some). by rewrite bool_decide_false.
    - rewrite list_lookup_insert_ne by (by intros Heq%(inj fin_to_nat)). rewrite Hst.
      assert (Hext : bool_decide (q ∈ p :: order) = bool_decide (q ∈ order)) by (apply bool_decide_ext; rewrite elem_of_cons; naive_solver).
      by rewrite Hext. }
  assert (Hstep : child_plan_transition w (establishing created kinds address p) =
    if negb (forallb established (<[fin_to_nat p := EstablishedChild (created p)]> children))
    then (mkChildPlan (application w) (Collecting (<[fin_to_nat p := EstablishedChild (created p)]> children)), Ok cont)
    else match build_plan declared (<[fin_to_nat p := EstablishedChild (created p)]> children) with
         | Err e => (w, Err e)
         | Ok plan => (mkChildPlan (application w) Reported,
             Ok (mkActions (empty_sends (mkSendLayer (InterpreterRequests_one (report_new plan)) sends_empty)) Creations_empty Continue))
         end).
  { cbn [child_plan_transition establishing]. unfold creation_resolved, awaited. rewrite Hw, Hat. cbn [resolved_creation resolved_kind].
    by rewrite !bool_decide_false by (by intros ?). }
  rewrite Hstep. destruct order as [|q order].
  - assert (He : forallb established (<[fin_to_nat p := EstablishedChild (created p)]> children) = true).
    { apply forallb_forall. intros s [j Hj]%list_elem_of_In%list_elem_of_lookup_1.
      assert (Hlt : j < count) by (rewrite <- Hlen; apply lookup_lt_Some in Hj; by rewrite length_insert in Hj).
      specialize (Hnext (nat_to_fin Hlt)). rewrite fin_to_nat_to_fin in Hnext. rewrite Hnext in Hj. by injection Hj as <-. }
    rewrite He. cbn [negb]. rewrite (build_plan_established created); [done..|]. intros q. by rewrite Hnext.
  - assert (He : forallb established (<[fin_to_nat p := EstablishedChild (created p)]> children) = false).
    { apply not_true_iff_false. rewrite forallb_forall. intros Hf. specialize (Hnext q). rewrite bool_decide_true in Hnext by left.
      apply list_elem_of_lookup_2, list_elem_of_In, Hf in Hnext. done. }
    rewrite He. cbn [negb]. match goal with |- context [trace _ ?w1 _] => pose proof (IH Hno ltac:(done) w1 _ eq_refl) as H end.
    destruct (trace _ _ _) as [w2 os]. cbn in *. apply H; [by rewrite length_insert|exact Hnext].
Qed.

End Declared.

(** ** Declarations *)

Fixpoint declare (b : ChildShutdownPhases) (roles : list (fin count)) : option ChildShutdownPhases :=
  match roles with [] => Some b | role :: roles => b ← shutdown_phase b role; declare b roles end.

Lemma assign_at_Some av : forall p av', assign_at av p = Some av' <-> av !! p = Some true /\ av' = <[p := false]> av.
Proof.
  induction av as [|a av IH]; intros [|p] av'; cbn; try (by split; [|intros [? _]]).
  - destruct a; split; [by intros [= <-]|by intros [_ ->]|done|by intros [? _]].
  - destruct a; cbn; rewrite fmap_Some; setoid_rewrite IH; naive_solver.
Qed.

Lemma declare_spec roles : forall b b', declare b roles = Some b' ->
  phases_declared b' = reverse roles ++ phases_declared b /\ NoDup roles /\
  length (phases_available b') = length (phases_available b) /\
  (forall p, p ∈ roles -> phases_available b !! fin_to_nat p = Some true) /\
  (forall p : fin count, phases_available b' !! fin_to_nat p = Some true <->
     phases_available b !! fin_to_nat p = Some true /\ p ∉ roles).
Proof.
  induction roles as [|role roles IH]; intros b b'; cbn [declare].
  { intros [= <-]. split_and!; [done|constructor|done|by intros ? ?%elem_of_nil|]. intros p. split; [|naive_solver].
    intros Hp. split; [done|apply not_elem_of_nil]. }
  unfold shutdown_phase. destruct (assign_at _ _) as [av|] eqn:Ha; [|done]. cbn [mbind option_bind].
  apply assign_at_Some in Ha as [Ha ->]. intros Hd. apply IH in Hd as (H1 & H2 & H3 & H4 & H5). cbn [phases_declared phases_available] in *.
  assert (Hlt : fin_to_nat role < length (phases_available b)) by (by eapply lookup_lt_Some).
  assert (Hne : forall p : fin count, <[fin_to_nat role := false]> (phases_available b) !! fin_to_nat p = Some true <->
    phases_available b !! fin_to_nat p = Some true /\ p <> role).
  { intros p. destruct (base.decide (p = role)) as [->|Hp].
    - rewrite list_lookup_insert_eq by done. naive_solver.
    - rewrite list_lookup_insert_ne by (by intros Heq%(inj fin_to_nat)). naive_solver. }
  split_and!.
  - by rewrite H1, reverse_cons, <- app_assoc.
  - constructor; [|done]. intros Hin. apply H4, Hne in Hin as [_ ?]. done.
  - by rewrite H3, length_insert.
  - intros p [->|Hp]%elem_of_cons; [done|]. by apply H4, Hne in Hp as [? _].
  - intros p. rewrite H5, Hne, elem_of_cons. naive_solver.
Qed.

Lemma finished_complete i roles b k : declare (shutdown_after_children i) roles = Some b -> finish b = Some k ->
  phases_declared b = reverse roles /\ NoDup roles /\ roles ≡ₚ fin_enum count.
Proof.
  intros Hd Hf. apply declare_spec in Hd as (H1 & H2 & H3 & _ & H5). cbn in *. rewrite app_nil_r in H1. split_and!; [done..|].
  unfold finish in Hf. destruct (all_assigned _) eqn:Ha; [|done]. clear Hf.
  assert (Hall : forall p, p ∈ roles).
  { intros p. destruct (base.decide (p ∈ roles)) as [|Hp]; [done|]. exfalso.
    assert (Ht : phases_available b !! fin_to_nat p = Some true).
    { apply H5. split; [|done]. apply lookup_replicate_2, fin_to_nat_lt. }
    unfold all_assigned in Ha. rewrite forallb_forall in Ha. by apply list_elem_of_lookup_2, list_elem_of_In, Ha in Ht. }
  apply NoDup_Permutation; [done|exact (@NoDup_enum _ _ (fin_finite count))|]. intros p. split; [|done]. intros _. exact (@elem_of_enum _ _ (fin_finite count) p).
Qed.


(** ** Properties *)

(** C28. One plan, in the declared order.  Take an application whose declaration
    names every child (which is when it can be finished), and whose initialization
    created each child under its own creation.  The wrapper observes exactly one
    creation per child.  Over any later inputs it reports nothing while a child
    is not established, and afterwards has reported exactly one plan: a phase
    per child, in the declared order, for the creation that was established. *)
Theorem child_plan_reported_once i roles b k w a es w' outs :
  declare (shutdown_after_children i) roles = Some b -> finish b = Some k -> 0 < count ->
  child_plan_init (phases_declared b) (child_plan_new i) = (w, Ok a) -> NoDup (id <$> items (creates a)) ->
  trace (child_plan_transition (phases_declared b)) w es = (w', outs) ->
  roles ≡ₚ fin_enum count /\ exists created kinds, creates_all (creates a) created kinds /\
    observation_lanes (owned (sends a)) = (fun p => mkRequests [mkObserveCreation (created p)]) <$> fin_enum count /\
    match planning w' with
    | Reported => reports_of (Ok a) ++ (outs ≫= reports_of) = [declared_plan roles created]
    | Collecting children => reports_of (Ok a) ++ (outs ≫= reports_of) = [] /\
        awaits_all created kinds children /\ forallb established children = false
    end.
Proof.
  intros Hd Hf Hpos Hinit Hn Ht. destruct (finished_complete _ _ _ _ Hd Hf) as (Hdec & Hnr & Hperm). split; [done|].
  destruct (init_planned _ _ _ _ Hpos Hinit) as (created & kinds & children & Hcr & _ & _ & Hp & Hl).
  exists created, kinds. split_and!; [done..|]. rewrite Hdec in *.
  pose proof (trace_planned (reverse roles) created kinds es ltac:(by rewrite reverse_Permutation)
    (creates_injective _ _ _ Hcr Hn) _ _ _ _ Hp Ht) as H.
  unfold planned in H. rewrite reverse_involutive in H. exact H.
Qed.

(** C29. The plan is always completed: when the children of such an application
    are established, in whatever order the answers arrive, the plan is
    reported. *)
Theorem child_plan_completes i roles b k w a created kinds address order :
  declare (shutdown_after_children i) roles = Some b -> finish b = Some k -> 0 < count ->
  child_plan_init (phases_declared b) (child_plan_new i) = (w, Ok a) -> NoDup (id <$> items (creates a)) ->
  creates_all (creates a) created kinds -> order ≡ₚ fin_enum count ->
  planning (trace (child_plan_transition (phases_declared b)) w (establishing created kinds address <$> order)).1 = Reported.
Proof.
  intros Hd Hf Hpos Hinit Hn Hcr Hperm. destruct (finished_complete _ _ _ _ Hd Hf) as (Hdec & Hnr & _).
  destruct (init_planned _ _ _ _ Hpos Hinit) as (created' & kinds' & children & Hcr' & Hw & Hst & Hp & _).
  assert (Hsame : forall p, created' p = created p /\ kinds' p = kinds p).
  { intros p. destruct Hcr as (H1 & H2 & _), Hcr' as (H1' & _ & _). destruct (H2 p) as (c & Hc & <-).
    destruct (H1 c Hc) as [-> ->], (H1' c Hc) as [-> ->]. done. }
  assert (Hlen : length children = count). { rewrite Hw in Hp. by destruct Hp as (_ & [? _] & _). }
  eapply answers_complete; [by rewrite Hdec, reverse_Permutation|by eapply creates_injective| | |exact Hw|done|].
  - rewrite Hperm. exact (@NoDup_enum _ _ (fin_finite count)).
  - intros ->. apply Permutation_nil_l in Hperm. pose proof (length_fin_enum count) as Hl. rewrite <- Hperm in Hl. cbn in Hl. lia.
  - intros p. rewrite Hst, bool_decide_true; [by destruct (Hsame p) as [-> ->]|]. rewrite Hperm. exact (@elem_of_enum _ _ (fin_finite count) p).
Qed.

End ChildShutdown.

(** ** A concrete application: a store that stops after its gateway *)

Inductive DemoChild : Type := Store | Gateway.

Definition plan_demo_position (c : DemoChild) : fin 2 := match c with Store => 0%fin | Gateway => 1%fin end.

Definition plan_demo_behavior : Behavior nat nat DemoChild Never NoSends Never :=
  mkBehavior
    (fun s => (s, Ok (create (mkCreations [birth (Build_CreationId 4) Gateway; birth (Build_CreationId 7) Store]))))
    (fun s e => (s + e, Ok cont)).

Definition plan_demo_roles : list (fin 2) := [1%fin; 0%fin].
Definition plan_demo_declared : list (fin 2) := [0%fin; 1%fin].
Definition plan_demo_created (p : fin 2) : CreationId := if bool_decide (p = 0%fin) then Build_CreationId 7 else Build_CreationId 4.

Definition plan_demo_init := child_plan_init (A := nat) plan_demo_behavior plan_demo_position plan_demo_declared (child_plan_new 0).

Definition plan_demo_events : list (PlannedEvent nat nat) :=
  [PlannedApplication 5; establishing plan_demo_created (fun _ => Birth) (fun _ => 9) 0%fin;
   establishing plan_demo_created (fun _ => Birth) (fun _ => 9) 0%fin;
   establishing plan_demo_created (fun _ => Birth) (fun _ => 9) 1%fin].

Definition plan_demo_run :=
  trace (child_plan_transition (A := nat) (Ph := Never) plan_demo_behavior plan_demo_declared) plan_demo_init.1 plan_demo_events.

(** The repeated answer is refused; the gateway's phase comes first. *)
Example plan_demo_report :
  planning plan_demo_run.1 = Reported /\
  plan_demo_run.2 ≫= reports_of = [mkPlan [[Other (Child (Build_CreationId 4))]; [Child (Build_CreationId 7)]]].
Proof. vm_compute. by split. Qed.

Lemma child_plan_reported_once_witness :
  exists created, plan_demo_run.2 ≫= reports_of = [declared_plan plan_demo_roles created].
Proof.
  destruct (child_plan_reported_once (A := nat) plan_demo_behavior plan_demo_position 0 plan_demo_roles
    (mkPhases 0 [false; false] plan_demo_declared) (awaiting_plan (child_plan_new 0)) plan_demo_init.1
    (mkActions (mkSendLayer (mkObservations [mkRequests [mkObserveCreation (Build_CreationId 7)];
                                             mkRequests [mkObserveCreation (Build_CreationId 4)]])
                  (mkSendLayer sends_empty sends_empty))
       (mkCreations [birth (Build_CreationId 4) Gateway; birth (Build_CreationId 7) Store]) Continue)
    plan_demo_events plan_demo_run.1 plan_demo_run.2) as (_ & created & kinds & _ & _ & H);
    [reflexivity|reflexivity|lia|vm_compute; reflexivity| |apply surjective_pairing|].
  - vm_compute. repeat constructor; rewrite ?elem_of_cons, ?elem_of_nil; intuition discriminate.
  - exists created. destruct plan_demo_report as [Hp _]. rewrite Hp in H. exact H.
Defined.

Lemma child_plan_completes_witness :
  planning (trace (child_plan_transition (A := nat) (Ph := Never) plan_demo_behavior plan_demo_declared) plan_demo_init.1
    (establishing plan_demo_created (fun _ => Birth) (fun _ => 9) <$> plan_demo_roles)).1 = Reported.
Proof.
  apply (child_plan_completes (A := nat) plan_demo_behavior plan_demo_position 0 plan_demo_roles
    (mkPhases 0 [false; false] plan_demo_declared) (awaiting_plan (child_plan_new 0)) plan_demo_init.1
    (mkActions (mkSendLayer (mkObservations [mkRequests [mkObserveCreation (Build_CreationId 7)];
                                             mkRequests [mkObserveCreation (Build_CreationId 4)]])
                  (mkSendLayer sends_empty sends_empty))
       (mkCreations [birth (Build_CreationId 4) Gateway; birth (Build_CreationId 7) Store]) Continue));
    [reflexivity|reflexivity|lia|vm_compute; reflexivity| | |].
  - vm_compute. repeat constructor; rewrite ?elem_of_cons, ?elem_of_nil; intuition discriminate.
  - split_and!.
    + intros c [->|[->|[]%elem_of_nil]%elem_of_cons]%elem_of_cons; split; reflexivity.
    + intros p. inv_fin p; [exists (birth (Build_CreationId 7) Store); split; [right; left|reflexivity]|].
      intros p. inv_fin p; [exists (birth (Build_CreationId 4) Gateway); split; [left|reflexivity]|].
      intros p. inv_fin p.
    + cbn. repeat constructor; rewrite ?elem_of_cons, ?elem_of_nil; intuition discriminate.
  - cbn. apply perm_swap.
Defined.
