(* ===== verification/Workers.v ===== *)
(** * Worker rosters, preparation and drain deadlines

    The values shared by the supervised templates: [templates/capacity.rs],
    [worker/limit.rs], [roster.rs], [schedule.rs], [drain.rs], the submissions
    of [worker/mod.rs], [worker/roster.rs] and [worker/preparation.rs].

    [Arc::new(())] makes a value whose only content is its identity: it is the
    next number of an allocator, and [Arc::ptr_eq] is equality of numbers.
    Operations that allocate are computations of the monad [Alloc]. *)

From stdpp Require Import base list option numbers.
From S2P Require Import Prelude Effects Timers Restart Termination Settlement Interpretation Creation.

(** ** Allocation identities *)

Definition Token : Type := nat.
Definition Alloc (X : Type) : Type := nat -> nat * X.

#[export] Instance Alloc_ret : MRet Alloc := fun X x n => (n, x).
#[export] Instance Alloc_bind : MBind Alloc := fun X Y f m n => let '(n, x) := m n in f x n.

Definition arc_new : Alloc Token := fun n => (S n, n).

(** ** Capacities ([capacity.rs], [worker/limit.rs]) *)

Inductive ZeroCapacity : Type := the_ZeroCapacity.

Record PositiveCapacity := mkPositive { capacity_get : nat }.

Definition capacity_new (maximum : nat) : result PositiveCapacity ZeroCapacity :=
  match maximum with 0 => Err the_ZeroCapacity | S _ => Ok (mkPositive maximum) end.

Record StartupLimit := mkStartupLimit { limit_maximum : PositiveCapacity }.

Definition startup_limit_new (maximum : nat) : result StartupLimit ZeroCapacity :=
  map_result mkStartupLimit (capacity_new maximum).

Definition startup_maximum (l : StartupLimit) : nat := capacity_get (limit_maximum l).

Lemma startup_limit_positive n l :
  startup_limit_new n = Ok l <-> startup_maximum l = n /\ 0 < n.
Proof.
  destruct l as [[m]]. unfold startup_limit_new, capacity_new, startup_maximum.
  destruct n; simpl; split; intros H; simplify_eq/=; [lia|split; lia|by destruct H as [-> _]].
Qed.

(** ** Role rosters ([roster.rs]) *)

Record OrderedRoles (Role : Type) := mkOrderedRoles { declared : list Role }.
Arguments mkOrderedRoles {Role} _.
Arguments declared {Role} _.

Record DuplicateRole (Role : Type) := mkDuplicateRole {
  duplicate_declared : list Role;
  duplicate : Role;
  duplicate_remaining : list Role
}.
Arguments mkDuplicateRole {Role} _ _ _.
Arguments duplicate_declared {Role} _.
Arguments duplicate {Role} _.
Arguments duplicate_remaining {Role} _.

Section Roles.
  Context {Role : Type} `{!EqDecision Role}.

Fixpoint roles_loop (declared remaining : list Role) : result (OrderedRoles Role) (DuplicateRole Role) :=
  match remaining with
  | [] => Ok (mkOrderedRoles declared)
  | role :: remaining =>
      match position (fun candidate => bool_decide (candidate = role)) declared with
      | Some _ => Err (mkDuplicateRole declared role remaining)
      | None => roles_loop (declared ++ [role]) remaining
      end
  end.

Definition roles_new (first : Role) (remaining : list Role) :
  result (OrderedRoles Role) (DuplicateRole Role) := roles_loop [first] remaining.

(** What validation decides, from any distinct prefix. *)
Definition validated (all : list Role) (r : result (OrderedRoles Role) (DuplicateRole Role)) : Prop :=
  match r with
  | Ok roles => declared roles = all /\ NoDup all
  | Err d => duplicate_declared d ++ duplicate d :: duplicate_remaining d = all /\
      NoDup (duplicate_declared d) /\ duplicate d ∈ duplicate_declared d
  end.

Lemma roles_loop_validated remaining acc :
  NoDup acc -> validated (acc ++ remaining) (roles_loop acc remaining).
Proof.
  revert acc. induction remaining as [|role remaining IH]; intros acc Hacc; simpl.
  - by rewrite app_nil_r.
  - destruct (position _ acc) as [i|] eqn:Hi; simpl.
    + apply position_eq_Some in Hi. eauto using list_elem_of_lookup_2.
    + apply position_eq_None in Hi. rewrite (cons_middle role), app_assoc.
      apply IH. by apply NoDup_snoc.
Qed.

(** Validation accepts exactly the distinct rosters, in the declared order; a
    refusal returns every role and names the first repetition. *)
Theorem roles_new_validates first remaining :
  validated (first :: remaining) (roles_new first remaining) /\
  (is_ok (roles_new first remaining) = true <-> NoDup (first :: remaining)).
Proof.
  assert (Hv : validated (first :: remaining) (roles_new first remaining))
    by (apply (roles_loop_validated remaining [first]), NoDup_singleton).
  split; [done|]. destruct (roles_new first remaining) as [r|d]; simpl in *; [naive_solver|].
  destruct Hv as (<- & _ & Hd). split; [done|]. rewrite list.NoDup_app.
  intros (_ & H & _). exfalso. apply (H _ Hd). left.
Qed.

End Roles.

(** ** Schedules ([schedule.rs]) *)

Record TimerScheduled := mkTimerScheduled {
  scheduled_id : TimerId;
  scheduled_generation : TimerGeneration
}.

Inductive ScheduleAfterRejection : Type :=
| DeadlineOverflow
| QueueGenerationExhausted
| QueueSequenceExhausted.

Definition ActionItemResult (Item Acc Rej Pre : Type) : Type :=
  SettledItem Item (ItemSettlement Item Acc Rej Pre).

Definition ScheduleResult : Type :=
  ActionItemResult (ScheduleAfter TimerId) TimerScheduled ScheduleAfterRejection Never.

Record ScheduleKey := mkScheduleKey { key_id : TimerId; key_generation : TimerGeneration }.

Definition key_after (k : ScheduleKey) (delay : Duration) : ScheduleAfter TimerId :=
  mkScheduleAfter (key_id k) (key_generation k) delay.

Definition key_issue (next : N) : N * option ScheduleKey :=
  match checked_add u64_max next 1 with
  | None => (next, None)
  | Some next' => (next', Some (mkScheduleKey (mkTimerId next) (mkTimerGeneration 0)))
  end.

Definition same_key (k : ScheduleKey) (i : TimerId) (g : TimerGeneration) : bool :=
  bool_decide (key_id k = i) && bool_decide (key_generation k = g).

Definition accepts_result (k : ScheduleKey) (input : ScheduleResult) : bool :=
  match input with
  | Attempted (Accepted scheduled) => same_key k (scheduled_id scheduled) (scheduled_generation scheduled)
  | Attempted (Rejected item _) | Attempted (Corrupt item _) | Unattempted item =>
      same_key k (after_target item) (after_generation item)
  | Attempted (Blocked _ prerequisite) => match prerequisite with end
  end.

Definition admit_result (k : ScheduleKey) (input : ScheduleResult) : result ScheduleResult ScheduleResult :=
  if accepts_result k input then Ok input else Err input.

Definition admit_elapsed (k : ScheduleKey) (elapsed : TimerElapsed TimerId) :
  result (TimerElapsed TimerId) (TimerElapsed TimerId) :=
  if same_key k (elapsed_target elapsed) (elapsed_generation elapsed) then Ok elapsed else Err elapsed.

(** ** Drain deadlines ([drain.rs]) *)

Inductive ActorDrainPolicy : Type :=
| WaitForActorGraph
| RetireActorGraphAfter (deadline : Duration).

Inductive ShutdownDeadline : Type :=
| Unlimited
| Scheduling (k : ScheduleKey)
| Waiting (k : ScheduleKey)
| NotScheduled (r : ScheduleResult)
| Elapsed (e : TimerElapsed TimerId).

Inductive ForcedRetirementCause : Type :=
| WorkerShutdownIdsExhausted
| DeadlineNotScheduled (r : ScheduleResult)
| DeadlineElapsed (e : TimerElapsed TimerId).

Definition KEY : ScheduleKey := mkScheduleKey (mkTimerId 0) (mkTimerGeneration 0).

Definition deadline_begin (policy : ActorDrainPolicy) : ShutdownDeadline * option (ScheduleAfter TimerId) :=
  match policy with
  | WaitForActorGraph => (Unlimited, None)
  | RetireActorGraphAfter deadline => (Scheduling KEY, Some (key_after KEY deadline))
  end.

Definition accept_schedule (d : ShutdownDeadline) (input : ScheduleResult) :
  ShutdownDeadline * result () ScheduleResult :=
  match d with
  | Scheduling expected =>
      match admit_result expected input with
      | Err input => (d, Err input)
      | Ok input =>
          match input with
          | Attempted (Accepted _) => (Waiting expected, Ok ())
          | Attempted (Blocked _ prerequisite) => match prerequisite with end
          | input => (NotScheduled input, Ok ())
          end
      end
  | _ => (d, Err input)
  end.

Definition accept_elapsed (d : ShutdownDeadline) (elapsed : TimerElapsed TimerId) :
  ShutdownDeadline * result () (TimerElapsed TimerId) :=
  match d with
  | Waiting expected =>
      match admit_elapsed expected elapsed with
      | Ok elapsed => (Elapsed elapsed, Ok ())
      | Err elapsed => (d, Err elapsed)
      end
  | _ => (d, Err elapsed)
  end.

(** The inputs of a deadline, as one fold: an input is answered with itself
    when it is refused. *)
Inductive deadline_input : Type :=
| ScheduleSettled (r : ScheduleResult)
| TimerFired (e : TimerElapsed TimerId).

Definition deadline_step (d : ShutdownDeadline) (i : deadline_input) :
  ShutdownDeadline * result () deadline_input :=
  match i with
  | ScheduleSettled r => let '(d, a) := accept_schedule d r in (d, map_err ScheduleSettled a)
  | TimerFired e => let '(d, a) := accept_elapsed d e in (d, map_err TimerFired a)
  end.

Definition deadline_taken (i : deadline_input) (a : result () deadline_input) : list deadline_input :=
  match a with Ok _ => [i] | Err _ => [] end.

(** What a deadline has taken determines it. *)
Inductive deadline_history : list deadline_input -> ShutdownDeadline -> Prop :=
| history_scheduling : deadline_history [] (Scheduling KEY)
| history_waiting s : accepts_result KEY (Attempted (Accepted s)) = true ->
    deadline_history [ScheduleSettled (Attempted (Accepted s))] (Waiting KEY)
| history_not_scheduled r : accepts_result KEY r = true -> (forall s, r <> Attempted (Accepted s)) ->
    deadline_history [ScheduleSettled r] (NotScheduled r)
| history_elapsed s e : accepts_result KEY (Attempted (Accepted s)) = true ->
    same_key KEY (elapsed_target e) (elapsed_generation e) = true ->
    deadline_history [ScheduleSettled (Attempted (Accepted s)); TimerFired e] (Elapsed e).

Lemma deadline_history_step taken d i :
  deadline_history taken d ->
  deadline_history (taken ++ deadline_taken i (deadline_step d i).2) (deadline_step d i).1.
Proof.
  intros H. destruct i as [r|e]; destruct H; simpl; try (rewrite ?app_nil_r; by econstructor).
  - unfold admit_result. destruct (accepts_result KEY r) eqn:Hr; [|simpl; constructor].
    destruct r as [[s|it rej|it []|it f]|it]; simpl; constructor; auto; discriminate.
  - unfold admit_elapsed. destruct (same_key _ _ _) eqn:He; simpl; by constructor.
Qed.

(** A drain without a deadline takes nothing; with one, exactly its own first
    schedule settlement and then, if that was accepted, its own first elapse
    are taken, and every other input is returned unchanged. *)
Theorem shutdown_deadline_exact policy inputs :
  let '(d0, request) := deadline_begin policy in
  let '(d, answers) := trace deadline_step d0 inputs in
  let taken := collect deadline_taken inputs answers in
  match policy with
  | WaitForActorGraph => request = None /\ d = Unlimited /\ taken = []
  | RetireActorGraphAfter delay =>
      request = Some (key_after KEY delay) /\ deadline_history taken d
  end /\
  Forall2 (fun i a => forall i', a = Err i' -> i' = i) inputs answers.
Proof.
  destruct (deadline_begin policy) as [d0 request] eqn:H0.
  destruct (trace deadline_step d0 inputs) as [d answers] eqn:Ht. split.
  - destruct policy as [|delay]; simplify_eq/=; (split; [done|]).
    + revert answers Ht. induction inputs as [|i inputs IH]; intros answers; [by intros [= <- <-]|].
      cbn [trace]. assert (Hi : deadline_step Unlimited i = (Unlimited, Err i)) by by destruct i.
      rewrite Hi. destruct (trace _ _ inputs) as [d' os]. intros [= <- <-]. by apply IH.
    + assert (Hg : forall inputs taken d0 d answers, deadline_history taken d0 ->
        trace deadline_step d0 inputs = (d, answers) ->
        deadline_history (taken ++ collect deadline_taken inputs answers) d); last first.
      { by apply (Hg inputs [] (Scheduling KEY)); [constructor|]. }
      clear. induction inputs as [|i inputs IH]; intros taken d0 d answers Hd.
      { intros [= <- <-]. by rewrite app_nil_r. }
      cbn [trace]. apply deadline_history_step with (i := i) in Hd.
      destruct (deadline_step d0 i) as [d1 a]. destruct (trace _ _ inputs) as [d2 os] eqn:Ht.
      intros [= <- <-]. cbn [collect]. rewrite app_assoc. by eapply IH.
  - replace answers with (trace deadline_step d0 inputs).2 by by rewrite Ht.
    apply (trace_Forall2 (fun _ => True)); auto. intros s i _ i'.
    destruct i; destruct s; simpl; unfold admit_result, admit_elapsed;
      repeat split_match; simpl; try congruence; by destruct prerequisite.
Qed.
