(* ===== verification/WorkerPreparation.v ===== *)
(** * Worker submissions and their preparation

    [WorkerSubmission] and [PreparedWorker] of [templates/worker/mod.rs], the
    construction of initial workers ([worker/roster.rs]), and the preparation
    of replacement workers by a source outside the supervisor
    ([worker/preparation.rs]): tickets, the request, its two phases, and the
    expectation that correlates their settlements. *)

From stdpp Require Import base list option numbers.
From S2P Require Import Prelude Effects Settlement Interpretation Creation Workers.

(** ** Submissions ([worker/mod.rs]) *)

Record WorkerSubmission (W P : Type) := with_startup { worker : W; startup : P }.
Arguments with_startup {W P} _ _.
Arguments worker {W P} _.
Arguments startup {W P} _.

Inductive ImmediateStartup : Type := the_ImmediateStartup.

Definition immediate {W} (w : W) : WorkerSubmission W ImmediateStartup :=
  with_startup w the_ImmediateStartup.

Record PreparedWorker (Role W P : Type) := mkPrepared {
  role : Role;
  submission : WorkerSubmission W P
}.
Arguments mkPrepared {Role W P} _ _.
Arguments role {Role W P} _.
Arguments submission {Role W P} _.

(** ** Initial workers ([worker/roster.rs]) *)

Class InitialWorkerPreparation (Prep W P Rej : Type) :=
  into_submission : Prep -> result (WorkerSubmission W P) Rej.

#[export] Instance submission_preparation W P :
  InitialWorkerPreparation (WorkerSubmission W P) W P Never := fun s => Ok s.
#[export] Instance result_preparation W P Rej :
  InitialWorkerPreparation (result (WorkerSubmission W P) Rej) W P Rej := fun r => r.

Record InitialWorkerRejection (F Role W P Rej : Type) := mkInitialRejection {
  rejected_factory : F;
  rejected_prepared : list (PreparedWorker Role W P);
  rejected_role : Role;
  rejected_reason : Rej;
  rejected_remaining : list Role
}.
Arguments mkInitialRejection {F Role W P Rej} _ _ _ _ _.
Arguments rejected_factory {F Role W P Rej} _.
Arguments rejected_prepared {F Role W P Rej} _.
Arguments rejected_role {F Role W P Rej} _.
Arguments rejected_reason {F Role W P Rej} _.
Arguments rejected_remaining {F Role W P Rej} _.

Section InitialWorkers.
  Context {F Role Prep W P Rej : Type} `{!InitialWorkerPreparation Prep W P Rej}.
  (** The construction function with its own mutable state. *)
  Context (call : F -> Role -> F * Prep).

Fixpoint prepare_loop (factory : F) (prepared : list (PreparedWorker Role W P)) (roles : list Role) :
  result (list (PreparedWorker Role W P)) (InitialWorkerRejection F Role W P Rej) :=
  match roles with
  | [] => Ok prepared
  | r :: remaining =>
      let '(factory, answer) := call factory r in
      match into_submission answer with
      | Ok s => prepare_loop factory (prepared ++ [mkPrepared r s]) remaining
      | Err reason => Err (mkInitialRejection factory prepared r reason remaining)
      end
  end.

Definition prepare_initial_workers (factory : F) (roles : OrderedRoles Role) :
  result (list (PreparedWorker Role W P)) (InitialWorkerRejection F Role W P Rej) :=
  prepare_loop factory [] (declared roles).

(** The factory called on [roles] in order, with the answers it gave. *)
Fixpoint calls (factory : F) (roles : list Role) : F * list Prep :=
  match roles with
  | [] => (factory, [])
  | r :: roles =>
      let '(factory, a) := call factory r in
      let '(factory, l) := calls factory roles in (factory, a :: l)
  end.

Definition prepared_from (roles : list Role) (answers : list Prep) (l : list (PreparedWorker Role W P)) : Prop :=
  role <$> l = roles /\ (fun p => Ok (submission p)) <$> l = into_submission <$> answers.

Lemma prepared_from_nil : prepared_from [] [] [].
Proof. done. Qed.

Lemma prepared_from_cons r rs a answers s l :
  into_submission a = Ok s -> prepared_from rs answers l ->
  prepared_from (r :: rs) (a :: answers) (mkPrepared r s :: l).
Proof.
  intros Ha [Hr Hs]. split; [by rewrite fmap_cons, Hr|]. by rewrite !fmap_cons, Ha, Hs.
Qed.

Lemma prepare_loop_spec roles factory acc :
  match prepare_loop factory acc roles with
  | Ok l => exists l', l = acc ++ l' /\ prepared_from roles (calls factory roles).2 l'
  | Err j => exists done l',
      roles = done ++ rejected_role j :: rejected_remaining j /\
      rejected_prepared j = acc ++ l' /\
      let '(f1, answers) := calls factory done in
      prepared_from done answers l' /\
      exists answer, call f1 (rejected_role j) = (rejected_factory j, answer) /\
        into_submission answer = Err (rejected_reason j)
  end.
Proof.
  revert factory acc. induction roles as [|r roles IH]; intros factory acc; simpl.
  { exists []. by rewrite app_nil_r. }
  destruct (call factory r) as [f1 a] eqn:Hc.
  destruct (into_submission a) as [s|reason] eqn:Hs; simpl; last first.
  { exists [], []. rewrite app_nil_r. repeat split. simpl. eauto. }
  specialize (IH f1 (acc ++ [mkPrepared r s])).
  destruct (prepare_loop f1 _ roles) as [l|j].
  - destruct IH as (l' & -> & Hl). destruct (calls f1 roles) as [f2 answers].
    exists (mkPrepared r s :: l'). rewrite <- app_assoc. eauto using prepared_from_cons.
  - destruct IH as (done & l' & -> & Hp & Hrest). exists (r :: done), (mkPrepared r s :: l').
    split; [done|]. split; [by rewrite Hp, <- app_assoc|]. simpl. rewrite Hc.
    destruct (calls f1 done) as [f2 answers]. destruct Hrest as [Hl Ha].
    split; [by apply prepared_from_cons|done].
Qed.

(** Construction calls the factory on the roles in order and stops at the
    first refusal, which returns the advanced factory, what was prepared, the
    refused role with its reason, and the untouched rest. *)
Theorem initial_workers_in_order factory roles :
  match prepare_initial_workers factory roles with
  | Ok l => prepared_from (declared roles) (calls factory (declared roles)).2 l
  | Err j => exists done,
      declared roles = done ++ rejected_role j :: rejected_remaining j /\
      prepared_from done (calls factory done).2 (rejected_prepared j) /\
      exists answer, call (calls factory done).1 (rejected_role j) = (rejected_factory j, answer) /\
        into_submission answer = Err (rejected_reason j)
  end.
Proof.
  unfold prepare_initial_workers. pose proof (prepare_loop_spec (declared roles) factory []) as H.
  destruct (prepare_loop _ _ _) as [l|j].
  - by destruct H as (l' & -> & H).
  - destruct H as (done & l' & H1 & -> & H2). exists done. destruct (calls factory done). naive_solver.
Qed.

End InitialWorkers.

(** ** Preparation by a source ([worker/preparation.rs]) *)

Record RoleName (Role : Type) := role_name_new { named_role : Role }.
Arguments role_name_new {Role} _.
Arguments named_role {Role} _.

Record PreparationTicket := mkTicket { ticket_token : Token }.

Definition ticket_reserve : Alloc (PreparationTicket * PreparationTicket) :=
  token ← arc_new; mret (mkTicket token, mkTicket token).

Definition ticket_matches (a b : PreparationTicket) : bool :=
  bool_decide (ticket_token a = ticket_token b).

Inductive WorkerPreparationExpectation : Type :=
| Issued (t : PreparationTicket)
| Started (t : PreparationTicket).

Record WorkerPreparationStarted := mkPreparationStarted { started_ticket : PreparationTicket }.

Definition started_accepts (r : WorkerPreparationStarted) (expected : PreparationTicket) : bool :=
  ticket_matches (started_ticket r) expected.

Definition expectation_issued (t : PreparationTicket) : WorkerPreparationExpectation := Issued t.

Definition accept_start (e : WorkerPreparationExpectation) (receipt : WorkerPreparationStarted) :
  result WorkerPreparationExpectation WorkerPreparationExpectation :=
  match e with
  | Issued ticket => if started_accepts receipt ticket then Ok (Started ticket) else Err e
  | Started _ => Err e
  end.

Section Preparation.
  (** [WorkerSource]: the source capability and its two rejections. *)
  Context {Source Role W P WorkerRejection SourceRejection : Type}.

Abbreviation name := (RoleName Role).
Abbreviation prepared_worker := (PreparedWorker name W P).

Record PrepareWorkers := mkPrepareWorkers {
  request_ticket : PreparationTicket;
  request_source : Source;
  request_first : name;
  request_remaining : list name
}.

Record StartingWorkerPreparation := mkStarting {
  starting_ticket : PreparationTicket;
  starting_source : Source;
  starting_first : name;
  starting_remaining : list name
}.

Record PendingWorkerPreparation := mkPending {
  pending_ticket : PreparationTicket;
  pending_source : Source;
  pending_prepared : list prepared_worker;
  pending_current : name;
  pending_remaining : list name
}.

Inductive WorkerPreparationOutcome : Type :=
| Outcome_Prepared (source : Source) (members : list prepared_worker)
| Outcome_WorkerRejected (source : Source) (prepared : list prepared_worker) (failed_role : name)
    (reason : WorkerRejection) (remaining : list name)
| Outcome_SourceRejected (source : Source) (failed_role : name) (reason : SourceRejection)
    (remaining : list name).

Record WorkerPreparation := mkPreparation {
  preparation_ticket : PreparationTicket;
  preparation_outcome : WorkerPreparationOutcome
}.

(** [ControlFlow<B, C>] *)
Abbreviation flow := (WorkerPreparation + PendingWorkerPreparation)%type.

Definition prepare_new (source : Source) (first : name) (remaining : list name) :
  Alloc (PreparationTicket * PrepareWorkers) :=
  '(expected, ticket) ← ticket_reserve;
  mret (expected, mkPrepareWorkers ticket source first remaining).

Definition request_accepts (r : PrepareWorkers) (expected : PreparationTicket) : bool :=
  ticket_matches expected (request_ticket r).

Definition request_into_parts (r : PrepareWorkers) : Source * name * list name :=
  (request_source r, request_first r, request_remaining r).

Definition start (r : PrepareWorkers) : WorkerPreparationStarted * StartingWorkerPreparation :=
  (mkPreparationStarted (mkTicket (ticket_token (request_ticket r))),
   mkStarting (request_ticket r) (request_source r) (request_first r) (request_remaining r)).

Definition preparation_accepts (r : WorkerPreparation) (expected : PreparationTicket) : bool :=
  ticket_matches expected (preparation_ticket r).

Definition preparation_into_parts (r : WorkerPreparation) : PreparationTicket * WorkerPreparationOutcome :=
  (preparation_ticket r, preparation_outcome r).

Definition advance_preparation (ticket : PreparationTicket) (source : Source)
  (prepared : list prepared_worker) (current : name) (remaining : list name)
  (s : WorkerSubmission W P) : flow :=
  let prepared := prepared ++ [mkPrepared current s] in
  match remaining with
  | [] => inl (mkPreparation ticket (Outcome_Prepared source prepared))
  | current :: remaining => inr (mkPending ticket source prepared current remaining)
  end.

Definition rejected_preparation (ticket : PreparationTicket) (source : Source)
  (prepared : list prepared_worker) (failed_role : name) (reason : WorkerRejection)
  (remaining : list name) : WorkerPreparation :=
  mkPreparation ticket (Outcome_WorkerRejected source prepared failed_role reason remaining).

Definition starting_accept (s : StartingWorkerPreparation) (w : WorkerSubmission W P) : flow :=
  advance_preparation (starting_ticket s) (starting_source s) [] (starting_first s)
    (starting_remaining s) w.

Definition starting_reject (s : StartingWorkerPreparation) (reason : WorkerRejection) : WorkerPreparation :=
  rejected_preparation (starting_ticket s) (starting_source s) [] (starting_first s) reason
    (starting_remaining s).

Definition reject_source (s : StartingWorkerPreparation) (reason : SourceRejection) : WorkerPreparation :=
  mkPreparation (starting_ticket s)
    (Outcome_SourceRejected (starting_source s) (starting_first s) reason (starting_remaining s)).

Definition pending_accept (p : PendingWorkerPreparation) (w : WorkerSubmission W P) : flow :=
  advance_preparation (pending_ticket p) (pending_source p) (pending_prepared p)
    (pending_current p) (pending_remaining p) w.

Definition pending_reject (p : PendingWorkerPreparation) (reason : WorkerRejection) : WorkerPreparation :=
  rejected_preparation (pending_ticket p) (pending_source p) (pending_prepared p)
    (pending_current p) reason (pending_remaining p).

Definition prepared_workers (p : PendingWorkerPreparation) : list (Role * W * P) :=
  (fun w => (named_role (role w), worker (submission w), startup (submission w))) <$> pending_prepared p.

Definition remaining_roles (p : PendingWorkerPreparation) : list Role :=
  named_role <$> pending_remaining p.

Definition preparation_start_accepts
  (r : ActionItemResult PrepareWorkers WorkerPreparationStarted Never Never)
  (expected : PreparationTicket) : bool :=
  match r with
  | Attempted (Accepted started) => started_accepts started expected
  | Attempted (Rejected item _) | Attempted (Blocked item _) | Attempted (Corrupt item _)
  | Unattempted item => request_accepts item expected
  end.

Definition accepts_issued (e : WorkerPreparationExpectation)
  (input : ActionItemResult PrepareWorkers WorkerPreparationStarted Never Never) : bool :=
  match e with
  | Issued ticket => preparation_start_accepts input ticket
  | Started _ => false
  end.

Definition accepts_return (e : WorkerPreparationExpectation) (returned : WorkerPreparation) : bool :=
  match e with
  | Issued _ => false
  | Started ticket => preparation_accepts returned ticket
  end.

(** *** A whole preparation

    The host drives a started preparation by one answer per role. *)

Inductive source_answer : Type :=
| Submit (w : WorkerSubmission W P)
| RefuseWorker (reason : WorkerRejection).

Fixpoint drive_pending (p : PendingWorkerPreparation) (answers : list source_answer) : flow :=
  match answers with
  | [] => inr p
  | RefuseWorker reason :: _ => inl (pending_reject p reason)
  | Submit w :: answers =>
      match pending_accept p w with
      | inl r => inl r
      | inr p => drive_pending p answers
      end
  end.

Definition drive (s : StartingWorkerPreparation) (first : source_answer) (answers : list source_answer) : flow :=
  match first with
  | RefuseWorker reason => inl (starting_reject s reason)
  | Submit w =>
      match starting_accept s w with
      | inl r => inl r
      | inr p => drive_pending p answers
      end
  end.

(** The submissions before the first refusal. *)
Fixpoint submitted (answers : list source_answer) : list (WorkerSubmission W P) :=
  match answers with Submit w :: answers => w :: submitted answers | _ => [] end.

(** What a preparation of [roles] holds after the answers [answers]. *)
Definition preparation_state (t : PreparationTicket) (src : Source) (roles : list name)
  (answers : list source_answer) (f : flow) : Prop :=
  let given := take (length roles) (submitted answers) in
  match f with
  | inr p =>
      pending_ticket p = t /\ pending_source p = src /\
      (role <$> pending_prepared p) ++ pending_current p :: pending_remaining p = roles /\
      (submission <$> pending_prepared p) = submitted answers /\
      length (submitted answers) = length answers
  | inl r =>
      preparation_ticket r = t /\
      match preparation_outcome r with
      | Outcome_Prepared s members =>
          s = src /\ role <$> members = roles /\ submission <$> members = given
      | Outcome_WorkerRejected s prepared failed reason remaining =>
          s = src /\ (role <$> prepared) ++ failed :: remaining = roles /\
          submission <$> prepared = given /\
          answers !! length prepared = Some (RefuseWorker reason)
      | Outcome_SourceRejected _ _ _ _ => False
      end
  end.

Lemma submitted_length answers : length (submitted answers) <= length answers.
Proof. induction answers as [|[w|r] answers IH]; simpl; lia. Qed.

Lemma submitted_app ws answers :
  submitted ((Submit <$> ws) ++ answers) = ws ++ submitted answers.
Proof. induction ws as [|w ws IH]; [done|]. rewrite fmap_cons. simpl. by rewrite IH. Qed.

Lemma submitted_submit (ws : list (WorkerSubmission W P)) : submitted (Submit <$> ws) = ws.
Proof. rewrite <- (app_nil_r (Submit <$> ws)), submitted_app. apply app_nil_r. Qed.

Lemma drive_pending_state t src roles ws p answers :
  preparation_state t src roles (Submit <$> ws) (inr p) ->
  preparation_state t src roles ((Submit <$> ws) ++ answers) (drive_pending p answers).
Proof.
  revert ws p. induction answers as [|[w|reason] answers IH]; intros ws p Hp.
  - by rewrite app_nil_r.
  - destruct Hp as (Ht & Hs & Hr & Hw & _). rewrite submitted_submit in Hw.
    assert (Hl : length (pending_prepared p) = length ws) by by rewrite <- Hw, length_fmap.
    cbn [drive_pending]. unfold pending_accept, advance_preparation.
    destruct (pending_remaining p) as [|c rest] eqn:Hrem.
    + unfold preparation_state. cbn. rewrite !fmap_app. cbn. rewrite Hr, Hw, submitted_app.
      repeat split; auto. rewrite <- Hr, length_app, length_fmap, Hl, take_app. cbn.
      by rewrite take_ge, Nat.add_sub_swap, Nat.sub_diag by lia.
    + replace ((Submit <$> ws) ++ Submit w :: answers) with ((Submit <$> (ws ++ [w])) ++ answers)
        by by rewrite fmap_app, <- app_assoc.
      apply IH. unfold preparation_state. cbn [pending_ticket pending_source pending_prepared
        pending_current pending_remaining].
      rewrite submitted_submit, !fmap_app, Hw, length_app, length_app, length_fmap, <- app_assoc. auto.
  - destruct Hp as (Ht & Hs & Hr & Hw & _). rewrite submitted_submit in Hw.
    assert (Hl : length (pending_prepared p) = length ws) by by rewrite <- Hw, length_fmap.
    unfold preparation_state. cbn. rewrite submitted_app, app_nil_r. repeat split; auto.
    + rewrite <- Hr, length_app, length_fmap, Hw, take_ge by lia. done.
    + rewrite lookup_app_r by (rewrite length_fmap; lia). by rewrite length_fmap, Hl, Nat.sub_diag.
Qed.

Lemma drive_state t src first remaining answer answers :
  preparation_state t src (first :: remaining) (answer :: answers)
    (drive (mkStarting t src first remaining) answer answers).
Proof.
  destruct answer as [w|reason]; [|by repeat split].
  cbn [drive]. unfold starting_accept, advance_preparation. cbn [starting_remaining].
  destruct remaining as [|c rest]; [by repeat split|].
  apply (drive_pending_state t src (first :: c :: rest) [w]). by repeat split.
Qed.

Lemma flow_ticket t src roles answers r :
  preparation_state t src roles answers (inl r) -> preparation_ticket r = t.
Proof. by intros [? _]. Qed.

(** Every preparation keeps its request whole: whatever the source answers,
    the ticket and the source are the issued ones, the prepared, current and
    untouched roles are the requested roles in order, the submissions are those
    the source gave, one per role, and a refusal names the role it answered.
    The expectation takes the start once, and the result only after it. *)
Theorem worker_preparation_conserves n source first remaining answer answers :
  let '(_, (expected, request)) := prepare_new source first remaining n in
  let '(receipt, starting) := start request in
  let result := drive starting answer answers in
  preparation_state expected source (first :: remaining) (answer :: answers) result /\
  accept_start (expectation_issued expected) receipt = Ok (Started expected) /\
  (forall receipt', accept_start (Started expected) receipt' = Err (Started expected)) /\
  (forall r, result = inl r ->
     accepts_return (Issued expected) r = false /\ accepts_return (Started expected) r = true) /\
  (forall other, accept_start (Issued other) receipt = Ok (Started other) <-> other = expected).
Proof.
  cbn. pose proof (drive_state (mkTicket n) source first remaining answer answers) as H.
  split; [exact H|]. unfold started_accepts, ticket_matches. cbn.
  rewrite bool_decide_eq_true_2 by done. split; [done|]. split; [done|]. split.
  - intros r Hr. rewrite Hr in H. apply flow_ticket in H. split; [done|].
    unfold accepts_return, preparation_accepts, ticket_matches. rewrite H. by apply bool_decide_eq_true_2.
  - intros other. split; [|intros ->; cbn; by rewrite bool_decide_eq_true_2]. destruct other as [o]. cbn. case_bool_decide; [by subst|discriminate].
Qed.

End Preparation.
Arguments PrepareWorkers : clear implicits.
Arguments StartingWorkerPreparation : clear implicits.
Arguments PendingWorkerPreparation : clear implicits.
Arguments WorkerPreparation : clear implicits.
Arguments WorkerPreparationOutcome : clear implicits.
Arguments source_answer : clear implicits.
