(* ===== verification/WorkerStartup.v ===== *)
(** * Worker attempts, initialization and startup

    The non-forgeable correlations of one worker ([WorkerAttempt] of
    [templates/worker/mod.rs], [InitializationAttempt] of
    [worker/initialization.rs], [WorkerStartupGrant] of [worker/startup.rs]),
    the requests that carry them to the interpreter, and the inputs that bring
    them back.

    [WorkerTypes] bundles what the source takes from the worker behavior [W]
    and the startup plan [P]: their associated types and the projection of an
    installed actor to its endpoint. *)

From stdpp Require Import base list option numbers.
From S2P Require Import Prelude Effects Timers Restart Termination Settlement Interpretation Creation.
From S2P Require Import Workers WorkerPreparation.

Class WorkerTypes := {
  Worker : Type;
  WorkerError : Type;
  WorkerChild : Type;
  WorkerPhase : Type;
  WorkerSends : Type;
  Addr : Type;
  Msg : Type;
  Nonce : Type;
  Installed : Type;
  Endpoint : Type;
  Plan : Type;
  Ready : Type;
  Rejection : Type;
  #[global] worker_endpoint :: EndpointAddress Installed Endpoint
}.

Section WorkerCorrelations.
  Context `{WT : WorkerTypes}.

(** Initialization actions of a hosted worker. *)
Definition HostedInitialization : Type := Actions WorkerChild WorkerPhase (SendLayer NoSends WorkerSends).

(** ** Attempts *)

Record WorkerAttempt := mkAttempt { attempt_creation : CreationId; attempt_token : Token }.

Definition attempt_issued (c : CreationId) : Alloc WorkerAttempt :=
  token ← arc_new; mret (mkAttempt c token).

#[export] Instance WorkerAttempt_EqDecision : EqDecision WorkerAttempt.
Proof. solve_decision. Defined.

Record InitializationAttempt := mkInitialization {
  initialization_worker : WorkerAttempt;
  initialization_token : Token
}.

Definition initialization_issued (w : WorkerAttempt) : Alloc InitializationAttempt :=
  token ← arc_new; mret (mkInitialization w token).

#[export] Instance InitializationAttempt_EqDecision : EqDecision InitializationAttempt.
Proof. solve_decision. Defined.

Record WorkerStartupGrant := mkGrant { grant_worker : WorkerAttempt; grant_token : Token }.

Definition grant_issued (w : WorkerAttempt) : Alloc WorkerStartupGrant :=
  token ← arc_new; mret (mkGrant w token).

#[export] Instance WorkerStartupGrant_EqDecision : EqDecision WorkerStartupGrant.
Proof. solve_decision. Defined.

(** ** Initialization ([worker/initialization.rs]) *)

Record StartupPermit := mkPermit {
  permit_worker : WorkerAttempt;
  permit_initialization : InitializationAttempt;
  permit_target : EstablishedRecipient Endpoint
}.

Record InitializeWorker := mkInitialize {
  initialize_worker : WorkerAttempt;
  initialize_attempt : InitializationAttempt;
  initialize_target : EstablishedRecipient Endpoint;
  initialize_startup : Plan
}.

Inductive WorkerInitializationFailure : Type := EffectsRejected_ | InterpreterCorrupt_.

Inductive WorkerInitializationOutcome : Type :=
| Outcome_ReadyForStartup
| Outcome_EffectsRejected (failure : WorkerInitializationFailure)
| Outcome_Stopped (stopped : ChildStopped Addr).

Inductive WorkerInitializationReport : Type :=
| ReadyForStartup (worker : WorkerAttempt) (initialization : InitializationAttempt)
    (startup : Plan) (permit : StartupPermit)
| EffectsRejected (worker : WorkerAttempt) (initialization : InitializationAttempt)
    (startup : Plan) (failure : WorkerInitializationFailure)
| InitializationStopped (worker : WorkerAttempt) (initialization : InitializationAttempt)
    (startup : Plan) (stopped : ChildStopped Addr).

Definition initialize_resolve (r : InitializeWorker) (o : WorkerInitializationOutcome) :
  WorkerInitializationReport :=
  let '(mkInitialize w i target p) := r in
  match o with
  | Outcome_ReadyForStartup => ReadyForStartup w i p (mkPermit w i target)
  | Outcome_EffectsRejected failure => EffectsRejected w i p failure
  | Outcome_Stopped stopped => InitializationStopped w i p stopped
  end.

Definition report_worker (r : WorkerInitializationReport) : WorkerAttempt :=
  match r with
  | ReadyForStartup w _ _ _ | EffectsRejected w _ _ _ | InitializationStopped w _ _ _ => w
  end.

Definition report_initialization (r : WorkerInitializationReport) : InitializationAttempt :=
  match r with
  | ReadyForStartup _ i _ _ | EffectsRejected _ i _ _ | InitializationStopped _ i _ _ => i
  end.

(** ** Startup ([worker/startup.rs]) *)

Inductive StartupRejection : Type := OwnerStopped.

Record StartWorker := mkStartWorker {
  start_grant : WorkerStartupGrant;
  start_permit : StartupPermit;
  start_plan : Plan
}.

Inductive WorkerStartupOutcome : Type :=
| Startup_Started
| StartRejected (request : StartWorker) (reason : StartupRejection)
| Startup_Ready (readiness : Ready)
| Startup_Rejected (rejection : Rejection).

Record WorkerStartup := mkStartup {
  startup_worker : WorkerAttempt;
  startup_grant : WorkerStartupGrant;
  startup_outcome : WorkerStartupOutcome
}.

Definition start_worker_new (plan : Plan) (permit : StartupPermit) : Alloc StartWorker :=
  grant ← grant_issued (permit_worker permit); mret (mkStartWorker grant permit plan).

Definition start_into_parts (r : StartWorker) : StartupPermit * Plan * WorkerStartupGrant :=
  (start_permit r, start_plan r, start_grant r).

Definition start_target (r : StartWorker) : EstablishedRecipient Endpoint := permit_target (start_permit r).

Definition start_worker (r : StartWorker) : WorkerAttempt := permit_worker (start_permit r).

Definition start_initialization (r : StartWorker) : InitializationAttempt :=
  permit_initialization (start_permit r).

Definition start_attempt (r : StartWorker) : WorkerStartupGrant := start_grant r.

Definition started (r : StartWorker) : WorkerStartup :=
  mkStartup (start_worker r) (start_grant r) Startup_Started.

Definition start_rejected (r : StartWorker) (reason : StartupRejection) : WorkerStartup :=
  mkStartup (start_worker r) (start_grant r) (StartRejected r reason).

Definition replied (reply : result Ready Rejection) : WorkerStartupOutcome :=
  match reply with Ok readiness => Startup_Ready readiness | Err rejection => Startup_Rejected rejection end.

(** [reply] is what the awaited plan returns. *)
Definition start_with (r : StartWorker) (reply : result Ready Rejection) : WorkerStartup :=
  mkStartup (start_worker r) (start_grant r) (replied reply).

Definition grant_resolve (g : WorkerStartupGrant) (reply : result Ready Rejection) : WorkerStartup :=
  mkStartup (grant_worker g) g (replied reply).

Definition startup_into_parts (s : WorkerStartup) :
  WorkerAttempt * WorkerStartupGrant * WorkerStartupOutcome :=
  (startup_worker s, startup_grant s, startup_outcome s).

Definition into_started (s : WorkerStartup) : result () WorkerStartup :=
  match startup_outcome s with Startup_Started => Ok () | _ => Err s end.

Definition into_start_rejection (s : WorkerStartup) :
  result (StartWorker * StartupRejection) WorkerStartup :=
  match startup_outcome s with StartRejected request reason => Ok (request, reason) | _ => Err s end.

Definition into_ready (s : WorkerStartup) : result Ready WorkerStartup :=
  match startup_outcome s with Startup_Ready readiness => Ok readiness | _ => Err s end.

Definition into_rejection (s : WorkerStartup) : result Rejection WorkerStartup :=
  match startup_outcome s with Startup_Rejected rejection => Ok rejection | _ => Err s end.

(** The report of a request carries its attempt, and a permit for it only when
    initialization succeeded. *)
Definition report_ok (r : WorkerInitializationReport) : Prop :=
  match r with
  | ReadyForStartup w i _ permit => permit_worker permit = w /\ permit_initialization permit = i
  | _ => True
  end.

Lemma initialize_resolve_ok r o :
  report_ok (initialize_resolve r o) /\
  report_worker (initialize_resolve r o) = initialize_worker r /\
  report_initialization (initialize_resolve r o) = initialize_attempt r.
Proof. destruct r, o; repeat split. Qed.

(** Every input produced from a start request, or from its grant, carries the
    grant that was issued with it; no earlier request carries that grant. *)
Theorem startup_correlation n plan permit :
  let '(n', request) := start_worker_new plan permit n in
  n < n' /\ grant_worker (start_attempt request) = permit_worker permit /\
  (forall reason reply,
     startup_grant (started request) = start_attempt request /\
     startup_grant (start_rejected request reason) = start_attempt request /\
     start_with request reply = grant_resolve (start_attempt request) reply) /\
  (forall m plan' permit', m < n -> start_attempt (start_worker_new plan' permit' m).2 <> start_attempt request).
Proof.
  cbn. split; [lia|]. split; [done|]. split; [by repeat split|].
  intros m plan' permit' Hm [= _ Heq]. lia.
Qed.

End WorkerCorrelations.
