(* ===== verification/ProxyWorker.v ===== *)
(** * The worker behind a stable proxy

    The exact worker ownership of [templates/proxy/worker/mod.rs]: a pending
    creation, a committed worker and its departure, with the shutdown requests
    and resolutions of [protocol/established.rs] that a departure exchanges. *)

From stdpp Require Import base list option numbers.
From S2P Require Import Prelude Effects Timers Restart Termination Settlement Interpretation Creation.
From S2P Require Import Workers WorkerPreparation WorkerStartup.

(** [core::ops::ControlFlow] *)
Inductive ControlFlow (B C : Type) : Type :=
| Flow_Break (b : B)
| Flow_Continue (c : C).
Arguments Flow_Break {B C} _.
Arguments Flow_Continue {B C} _.

(** ** Orderly shutdown of an exact worker ([protocol/established.rs]) *)

Record ShutdownId := mkShutdownId { shutdown_number : N }.

#[export] Instance ShutdownId_EqDecision : EqDecision ShutdownId.
Proof. solve_decision. Defined.

Inductive ShutdownRejection : Type := IncarnationAlreadyStopping | IncarnationAlreadyStopped.

Inductive EstablishedShutdownResolved : Type :=
| ShutdownAccepted (id : ShutdownId)
| ShutdownRefused (id : ShutdownId) (reason : ShutdownRejection).

Definition resolved_id (r : EstablishedShutdownResolved) : ShutdownId :=
  match r with ShutdownAccepted i | ShutdownRefused i _ => i end.

Record ShutdownEstablished (Installed : Type) := mkShutdownEstablished {
  shutdown_id : ShutdownId;
  shutdown_actor : EstablishedActor Installed
}.
Arguments mkShutdownEstablished {Installed} _ _.
Arguments shutdown_id {Installed} _.
Arguments shutdown_actor {Installed} _.

Section ProxyWorkers.
  Context `{WT : WorkerTypes}.

Abbreviation create_worker := (CreateChild (StopOnShutdown Worker)).
Abbreviation workers_settled :=
  (CreationsSettled Nonce (StopOnShutdown Worker) WorkerError HostedInitialization Installed).
Abbreviation worker_settlement :=
  (WorkerCreationSettlement Nonce Worker WorkerError HostedInitialization Installed).
Abbreviation creation_rejection := (WorkerCreationRejection Worker WorkerError HostedInitialization).

(** ** A worker whose creation is requested *)

Record PendingWorker := mkPendingWorker {
  pending_attempt : WorkerAttempt;
  pending_initialization : InitializationAttempt;
  pending_kind : CreationKind;
  pending_startup : Plan
}.

Definition await_creation (p : Plan) (request : create_worker) : Alloc (PendingWorker * create_worker) :=
  attempt ← attempt_issued (id request);
  initialization ← initialization_issued attempt;
  mret (mkPendingWorker attempt initialization (kind request) p, request).

Definition pending_birth (creations : CreationSequence) (w : Worker) (p : Plan) :
  Alloc (CreationSequence * result (PendingWorker * create_worker) (Worker * Plan)) :=
  match issue creations with
  | (creations, None) => mret (creations, Err (w, p))
  | (creations, Some c) =>
      awaited ← await_creation p (birth c (stop_on_shutdown_new w)); mret (creations, Ok awaited)
  end.

Definition pending_replacement (creations : CreationSequence) (previous : CreationId) (w : Worker)
  (p : Plan) : Alloc (CreationSequence * result (PendingWorker * create_worker) (Worker * Plan)) :=
  match issue creations with
  | (creations, None) => mret (creations, Err (w, p))
  | (creations, Some c) =>
      awaited ← await_creation p (replacement c previous (stop_on_shutdown_new w));
      mret (creations, Ok awaited)
  end.

Definition pending_creation (p : PendingWorker) : CreationId := attempt_creation (pending_attempt p).

Definition cancel (p : PendingWorker) (c : create_worker) : WorkerAttempt * Worker * Plan :=
  (pending_attempt p, into_inner (child c), pending_startup p).

Definition pending_admit_stop (p : PendingWorker) (stopped : ChildStopped Addr) :
  result (ChildStopped Addr) (ChildStopped Addr) :=
  if bool_decide (stopped_child stopped = attempt_creation (pending_attempt p))
  then Ok stopped else Err stopped.

Definition admit_creation (p : PendingWorker) (s : worker_settlement) :
  result worker_settlement worker_settlement :=
  if bool_decide (identity s = (attempt_creation (pending_attempt p), pending_kind p))
  then Ok s else Err s.

(** ** The committed worker *)

Record CurrentWorker := mkCurrent {
  attempt : WorkerAttempt;
  initialization : InitializationAttempt;
  actor : EstablishedActor Installed
}.

Definition admit_stop (w : CurrentWorker) (stopped : ChildStopped Addr) :
  result (ChildStopped Addr) (ChildStopped Addr) :=
  if bool_decide (stopped_child stopped = attempt_creation (attempt w)) then Ok stopped else Err stopped.

Definition admit_initialization (w : CurrentWorker) (r : WorkerInitializationReport) :
  result WorkerInitializationReport WorkerInitializationReport :=
  if bool_decide (report_worker r = attempt w) && bool_decide (report_initialization r = initialization w)
  then Ok r else Err r.

(** ** Departure of a committed worker *)

Inductive WorkerShutdown : Type :=
| Shutdown_Requested (id : ShutdownId)
| Shutdown_Settled (r : EstablishedShutdownResolved).

Record WorkerStopping := mkStopping {
  stopping_worker : CurrentWorker;
  stopping_shutdown : WorkerShutdown;
  stopping_stopped : option (ChildStopped Addr)
}.

Record StoppedWorker := mkStoppedWorker {
  departed_worker : CurrentWorker;
  departed_shutdown : EstablishedShutdownResolved;
  departed_stopped : ChildStopped Addr
}.

Definition stopping_begin (w : CurrentWorker) : WorkerStopping * ShutdownEstablished Installed :=
  let shutdown := mkShutdownEstablished (mkShutdownId (creation_number (attempt_creation (attempt w)))) (actor w) in
  (mkStopping w (Shutdown_Requested (shutdown_id shutdown)) None, shutdown).

Definition complete (d : WorkerStopping) : ControlFlow StoppedWorker WorkerStopping :=
  match stopping_shutdown d, stopping_stopped d with
  | Shutdown_Settled shutdown, Some stopped => Flow_Break (mkStoppedWorker (stopping_worker d) shutdown stopped)
  | _, _ => Flow_Continue d
  end.

Definition stopping_shutdown_resolved (d : WorkerStopping) (input : EstablishedShutdownResolved) :
  result (ControlFlow StoppedWorker WorkerStopping) (WorkerStopping * EstablishedShutdownResolved) :=
  match stopping_shutdown d with
  | Shutdown_Requested expected =>
      if bool_decide (resolved_id input = expected)
      then Ok (complete (mkStopping (stopping_worker d) (Shutdown_Settled input) (stopping_stopped d)))
      else Err (d, input)
  | Shutdown_Settled _ => Err (d, input)
  end.

Definition stopping_worker_stopped (d : WorkerStopping) (input : ChildStopped Addr) :
  result (ControlFlow StoppedWorker WorkerStopping) (WorkerStopping * ChildStopped Addr) :=
  match stopping_stopped d with
  | None =>
      match admit_stop (stopping_worker d) input with
      | Ok stopped => Ok (complete (mkStopping (stopping_worker d) (stopping_shutdown d) (Some stopped)))
      | Err input => Err (d, input)
      end
  | Some _ => Err (d, input)
  end.

Definition into_stopped_before_shutdown (d : WorkerStopping) :
  result (CurrentWorker * ShutdownId * ChildStopped Addr) WorkerStopping :=
  match stopping_shutdown d, stopping_stopped d with
  | Shutdown_Requested shutdown, Some stopped => Ok (stopping_worker d, shutdown, stopped)
  | _, _ => Err d
  end.

(** ** Settlement of a requested creation *)

Inductive WorkerCreation : Type :=
| Creation_Initializing (w : CurrentWorker) (p : Plan) (stopped : option (ChildStopped Addr))
| Creation_RejectedWorker (rejection : creation_rejection) (p : Plan)
    (stopped : option (ChildStopped Addr))
| Creation_Unexpected (w : PendingWorker) (stopped : option (ChildStopped Addr))
    (workers : workers_settled).

Definition created_one (p : PendingWorker) (s : worker_settlement)
  (stopped : option (ChildStopped Addr)) : WorkerCreation :=
  match admit_creation p s with
  | Ok settlement =>
      match settle_worker_creation settlement with
      | WorkerEstablished a =>
          Creation_Initializing (mkCurrent (pending_attempt p) (pending_initialization p) a)
            (pending_startup p) stopped
      | WorkerCreation_Rejected rejection =>
          Creation_RejectedWorker rejection (pending_startup p) stopped
      end
  | Err settlement => Creation_Unexpected p stopped (Creation_Settled (Creations_one settlement))
  end.

Definition created (p : PendingWorker) (workers : workers_settled)
  (stopped : option (ChildStopped Addr)) : WorkerCreation :=
  match workers with
  | Creation_Rejected creations reason =>
      match into_one creations with
      | Err creations => Creation_Unexpected p stopped (Creation_Rejected creations reason)
      | Ok c =>
          if bool_decide ((id c, kind c) <> (pending_creation p, pending_kind p))
          then Creation_Unexpected p stopped (Creation_Rejected (Creations_one c) reason)
          else Creation_RejectedWorker (NamespaceExhausted (into_inner (child c))) (pending_startup p) stopped
      end
  | Creation_Settled settlements =>
      match into_one settlements with
      | Err settlements => Creation_Unexpected p stopped (Creation_Settled settlements)
      | Ok settlement => created_one p settlement stopped
      end
  | Creation_Corrupt creations fault => Creation_Unexpected p stopped (Creation_Corrupt creations fault)
  end.

(** ** Facts *)

Lemma pending_admit_stop_spec p s r :
  pending_admit_stop p s = r ->
  (r = Ok s /\ stopped_child s = pending_creation p) \/ (r = Err s /\ stopped_child s <> pending_creation p).
Proof. unfold pending_admit_stop, pending_creation. intros <-. case_bool_decide; auto. Qed.

Lemma admit_stop_spec w s r :
  admit_stop w s = r ->
  (r = Ok s /\ stopped_child s = attempt_creation (attempt w)) \/
  (r = Err s /\ stopped_child s <> attempt_creation (attempt w)).
Proof. unfold admit_stop. intros <-. case_bool_decide; auto. Qed.

Lemma admit_initialization_spec w i r :
  admit_initialization w i = r ->
  (r = Ok i /\ report_worker i = attempt w /\ report_initialization i = initialization w) \/ r = Err i.
Proof.
  unfold admit_initialization. intros <-.
  destruct (bool_decide (report_worker i = attempt w)) eqn:H1; [|by right].
  destruct (bool_decide (report_initialization i = initialization w)) eqn:H2; [|by right].
  apply bool_decide_eq_true_1 in H1, H2. by left.
Qed.

Lemma into_one_inv {Item} (c : Creations Item) r :
  into_one c = r -> match r with Ok i => c = Creations_one i | Err c' => c' = c end.
Proof. intros <-. destruct c as [[|i [|j l]]]; reflexivity. Qed.

(** An unexpected settlement is returned whole with the unchanged custody. *)
Lemma created_unexpected p workers stopped p' stopped' workers' :
  created p workers stopped = Creation_Unexpected p' stopped' workers' ->
  p' = p /\ stopped' = stopped /\ workers' = workers.
Proof.
  unfold created, created_one, admit_creation. intros H.
  repeat split_match_in H; simplify_eq/=;
    repeat match goal with H : into_one _ = _ |- _ => apply into_one_inv in H end; simplify_eq/=; auto.
Qed.

(** A committed worker has the correlations of its pending creation. *)
Lemma created_initializing p workers stopped w plan stopped' :
  created p workers stopped = Creation_Initializing w plan stopped' ->
  attempt w = pending_attempt p /\ initialization w = pending_initialization p /\
  plan = pending_startup p /\ stopped' = stopped.
Proof.
  unfold created, created_one. intros H. by repeat split_match_in H; simplify_eq/=.
Qed.

Lemma created_rejected p workers stopped j plan stopped' :
  created p workers stopped = Creation_RejectedWorker j plan stopped' ->
  plan = pending_startup p /\ stopped' = stopped.
Proof. unfold created, created_one. intros H. by repeat split_match_in H; simplify_eq/=. Qed.

(** A departure ends when its shutdown was resolved and its stop observed,
    in either order; other inputs are returned. *)
Lemma stopping_shutdown_resolved_spec d input r :
  stopping_shutdown_resolved d input = r ->
  match r with
  | Err (d', input') => d' = d /\ input' = input
  | Ok (Flow_Continue d') =>
      stopping_shutdown d = Shutdown_Requested (resolved_id input) /\ stopping_stopped d = None /\
      d' = mkStopping (stopping_worker d) (Shutdown_Settled input) None
  | Ok (Flow_Break s) =>
      stopping_shutdown d = Shutdown_Requested (resolved_id input) /\
      stopping_stopped d = Some (departed_stopped s) /\
      s = mkStoppedWorker (stopping_worker d) input (departed_stopped s)
  end.
Proof.
  unfold stopping_shutdown_resolved, complete. intros <-. destruct d as [w [e|x] st]; simpl; [|done].
  case_bool_decide; [|done]. subst. by destruct st.
Qed.

Lemma stopping_worker_stopped_spec d input r :
  stopping_worker_stopped d input = r ->
  match r with
  | Err (d', input') => d' = d /\ input' = input
  | Ok (Flow_Continue d') =>
      stopping_stopped d = None /\ stopped_child input = attempt_creation (attempt (stopping_worker d)) /\
      (exists e, stopping_shutdown d = Shutdown_Requested e) /\
      d' = mkStopping (stopping_worker d) (stopping_shutdown d) (Some input)
  | Ok (Flow_Break s) =>
      stopping_stopped d = None /\ stopped_child input = attempt_creation (attempt (stopping_worker d)) /\
      stopping_shutdown d = Shutdown_Settled (departed_shutdown s) /\
      s = mkStoppedWorker (stopping_worker d) (departed_shutdown s) input
  end.
Proof.
  unfold stopping_worker_stopped, admit_stop, complete. intros <-.
  destruct d as [w [e|x] [st|]]; simpl; try done; case_bool_decide; simpl; eauto.
Qed.

End ProxyWorkers.
