(* ===== verification/ProxyState.v ===== *)
(** * Values and states of a stable proxy

    The owner protocol of [templates/proxy/protocol.rs], the action lanes of
    [proxy/effects.rs] and the closed lifecycle states of [proxy/state.rs]. *)

From stdpp Require Import base list option numbers.
From S2P Require Import Prelude Effects Timers Restart Termination Settlement Interpretation Creation.
From S2P Require Import Workers WorkerPreparation WorkerStartup ProxyWorker.

Section ProxyStates.
  Context `{WT : WorkerTypes}.

Abbreviation create_worker := (CreateChild (StopOnShutdown Worker)).
Abbreviation workers_settled :=
  (CreationsSettled Nonce (StopOnShutdown Worker) WorkerError HostedInitialization Installed).
Abbreviation creation_rejection := (WorkerCreationRejection Worker WorkerError HostedInitialization).

(** ** Owner control ([protocol.rs]) *)

Inductive ProxyCommand : Type :=
| Command_Start (s : WorkerSubmission Worker Plan)
| Command_Replace (s : WorkerSubmission Worker Plan)
| Command_Shutdown.

Record ProxyControl := mkControl { command : ProxyCommand }.

Definition control_shutdown : ProxyControl := mkControl Command_Shutdown.
Definition control_start_with (w : Worker) (p : Plan) : ProxyControl := mkControl (Command_Start (with_startup w p)).
Definition control_replace_with (w : Worker) (p : Plan) : ProxyControl :=
  mkControl (Command_Replace (with_startup w p)).

Inductive ProxyPhase : Type :=
| Phase_Dormant | Phase_Creating | Phase_Initializing | Phase_Starting | Phase_Ready
| Phase_EmptyInitial | Phase_EmptyAfter | Phase_Replacing | Phase_ReturningWorker
| Phase_ShuttingDown | Phase_Stopped.

(** ** Results and outcomes *)

Inductive ProxyDrain : Type :=
| Drain_InitializationRejected (failure : WorkerInitializationFailure) (startup : Plan)
    (shutdown : option EstablishedShutdownResolved) (stopped : ChildStopped Addr)
| Drain_InitializationStopped (startup : Plan) (observed : option (ChildStopped Addr))
    (returned : ChildStopped Addr)
| Drain_InitializationCompleted (permit : StartupPermit) (startup : Plan) (stopped : ChildStopped Addr)
| Drain_StartupRefused (request : StartWorker) (reason : StartupRejection)
    (shutdown : option EstablishedShutdownResolved) (stopped : ChildStopped Addr)
| Drain_StartupRejected (rejection : Rejection) (shutdown : option EstablishedShutdownResolved)
    (stopped : ChildStopped Addr)
| Drain_StartupCompleted (readiness : Ready) (stopped : ChildStopped Addr).

Inductive WorkerStartResult : Type :=
| Result_CreationRejected (rejection : creation_rejection) (startup : Plan)
    (stopped : option (ChildStopped Addr))
| Result_Ready (attempt : WorkerAttempt) (readiness : Ready)
| Result_Unavailable (attempt : WorkerAttempt) (drain : ProxyDrain).

Inductive InitialWorkerOutcome : Type :=
| Initial_Overlap (w : Worker) (startup : Plan) (phase : ProxyPhase)
| Initial_AttemptsExhausted (w : Worker) (startup : Plan)
| Initial_Resolved (r : WorkerStartResult).

Inductive ReplacementOutcome : Type :=
| Replacement_NotReplaceable (w : Worker) (startup : Plan) (phase : ProxyPhase)
| Replacement_AttemptsExhausted (replaces : WorkerAttempt) (w : Worker) (startup : Plan)
| Replacement_CancelledBeforeBirth (replaces : WorkerAttempt) (w : Worker) (startup : Plan)
| Replacement_Resolved (replaces : WorkerAttempt) (r : WorkerStartResult).

Inductive ProxyDiagnostic : Type :=
| UnexpectedWorkerStart (phase : ProxyPhase) (workers : workers_settled)
| UnexpectedWorkerStop (phase : ProxyPhase) (stopped : ChildStopped Addr)
| UnexpectedWorkerInitialization (phase : ProxyPhase) (initialization : WorkerInitializationReport)
| UnexpectedWorkerStartup (phase : ProxyPhase) (startup : WorkerStartup)
| UnexpectedWorkerShutdown (phase : ProxyPhase) (shutdown : EstablishedShutdownResolved).

Inductive ProxyOutcome : Type :=
| Outcome_Initial (o : InitialWorkerOutcome)
| Outcome_Replacement (o : ReplacementOutcome)
| Outcome_WorkerStopped (w : WorkerAttempt) (stopped : ChildStopped Addr)
| Outcome_ServiceUnavailable (sender : Addr) (phase : ProxyPhase) (command : Msg).

Inductive ProxyEvent : Type :=
| Service (s : User Addr Msg)
| Owner (c : ProxyControl)
| WorkerCreationsSettled (workers : workers_settled)
| WorkerInitialization (i : WorkerInitializationReport)
| WorkerStartupReported (s : WorkerStartup)
| WorkerShutdownResolved (r : EstablishedShutdownResolved)
| WorkerStopped (s : ChildStopped Addr).

#[export] Instance ProxyEvent_User : UserEvent Addr Msg ProxyEvent := {
  user a m := Service (mkUser a m);
  into_user e := match e with Service s => Ok s | other => Err other end
}.

(** ** Action lanes ([effects.rs]); a report to the parent is its value *)

Record ProxyEffects := mkProxyEffects {
  worker_observations : InterpreterRequests ObserveChild;
  worker_initializations : InterpreterRequests InitializeWorker;
  worker_startups : InterpreterRequests StartWorker;
  worker_shutdowns : InterpreterRequests (ShutdownEstablished Installed);
  worker_deliveries : list (EstablishedDelivery Endpoint Msg);
  owner_outcomes : InterpreterRequests ProxyOutcome;
  diagnostics : InterpreterRequests ProxyDiagnostic
}.

#[export] Instance ProxyEffects_Sends : SendEffects ProxyEffects := {
  sends_empty := mkProxyEffects sends_empty sends_empty sends_empty sends_empty [] sends_empty sends_empty;
  sends_append a b :=
    mkProxyEffects (sends_append (worker_observations a) (worker_observations b))
      (sends_append (worker_initializations a) (worker_initializations b))
      (sends_append (worker_startups a) (worker_startups b))
      (sends_append (worker_shutdowns a) (worker_shutdowns b))
      (worker_deliveries a ++ worker_deliveries b)
      (sends_append (owner_outcomes a) (owner_outcomes b))
      (sends_append (diagnostics a) (diagnostics b))
}.

Definition ProxyActions : Type := Actions (StopOnShutdown Worker) Never ProxyEffects.

(** ** Lifecycle states ([state.rs]) *)

Inductive PreReadyFailure : Type :=
| Failure_InitializationEffects (failure : WorkerInitializationFailure) (startup : Plan)
| Failure_StartupRefused (request : StartWorker) (reason : StartupRejection)
| Failure_StartupRejected (rejection : Rejection).

Inductive PredecessorShutdown : Type :=
| Predecessor_Settled
| Predecessor_Awaiting (id : ShutdownId).

Inductive WorkerStartKind : Type :=
| Kind_Initial
| Kind_Replacement (replaces : WorkerAttempt) (predecessor_shutdown : PredecessorShutdown).

Inductive ReplacementCompletion : Type :=
| Completion_Ready (w : CurrentWorker) (r : WorkerStartResult)
| Completion_ReadyAfterStop (w : WorkerAttempt) (r : WorkerStartResult) (stopped : ChildStopped Addr)
| Completion_Empty (w : WorkerAttempt) (r : WorkerStartResult).

Inductive ProxyReplacement : Type :=
| ReturningPredecessor (departure : WorkerStopping) (successor : PendingWorker) (creation : create_worker)
| SuccessorResultAwaitingShutdown (replaces : WorkerAttempt) (shutdown : ShutdownId)
    (completion : ReplacementCompletion).

Inductive StartupProgress : Type :=
| WaitingForStart (g : WorkerStartupGrant)
| Running (g : WorkerStartupGrant).

Inductive WorkerStartupRetirement : Type :=
| StartupRetired_StartRejected (request : StartWorker) (reason : StartupRejection)
| StartupRetired_Ready (readiness : Ready)
| StartupRetired_Rejected (rejection : Rejection).

Inductive StartupDuringDeparture : Type :=
| Startup_Pending (p : StartupProgress)
| Startup_Returned (r : WorkerStartupRetirement).

Inductive WorkerStartupShutdown : Type :=
| StartupDeparting (s : StartupDuringDeparture) (departure : WorkerStopping)
| WaitingForStartup (s : StartupProgress) (w : CurrentWorker)
    (shutdown : option EstablishedShutdownResolved) (stopped : ChildStopped Addr).

Inductive WorkerStartPhase : Type :=
| Creating (w : PendingWorker) (stopped : option (ChildStopped Addr))
| Initializing (w : CurrentWorker) (stopped : option (ChildStopped Addr))
| Starting (w : CurrentWorker) (progress : StartupProgress) (stopped : option (ChildStopped Addr))
| ReturningWorker (departure : WorkerStopping) (failure : PreReadyFailure).

Record WorkerStart := mkWorkerStart { start_kind : WorkerStartKind; start_phase : WorkerStartPhase }.

Inductive WorkerInitializationRetirement : Type :=
| InitRetired_Initialized (permit : StartupPermit) (startup : Plan)
| InitRetired_EffectsRejected (failure : WorkerInitializationFailure) (startup : Plan)
| InitRetired_Stopped (startup : Plan) (initialization_stop : option (ChildStopped Addr)).

Inductive WorkerInitializationShutdown : Type :=
| InitDeparting (i : option WorkerInitializationRetirement) (departure : WorkerStopping)
| WaitingForInitialization (w : CurrentWorker) (shutdown : option EstablishedShutdownResolved)
    (stopped : ChildStopped Addr).

Inductive WorkerStartRetirement : Type :=
| Retired_Result (r : WorkerStartResult)
| Retired_Initialization (i : WorkerInitializationRetirement) (w : CurrentWorker)
    (shutdown : option EstablishedShutdownResolved) (stopped : ChildStopped Addr)
| Retired_Startup (s : WorkerStartupRetirement) (w : CurrentWorker)
    (shutdown : option EstablishedShutdownResolved) (stopped : ChildStopped Addr)
| Retired_ReadyWorker (r : WorkerStartResult) (departure : StoppedWorker)
| Retired_ReplacementCompletion (c : ReplacementCompletion).

Inductive ProxyRetirement : Type :=
| Retirement_Empty (previous : option WorkerAttempt)
| Retirement_ReplacementCancelled (replaces successor : WorkerAttempt) (predecessor : StoppedWorker)
| Retirement_Worker (w : StoppedWorker)
| Retirement_WorkerStart (replaces : option WorkerAttempt) (r : WorkerStartRetirement)
| Retirement_ReplacementAfterPredecessor (replaces : WorkerAttempt)
    (predecessor : EstablishedShutdownResolved) (r : WorkerStartRetirement).

Inductive PredecessorReturn : Type :=
| Return_Awaiting (shutdown : ShutdownId)
| Return_Returned (resolution : EstablishedShutdownResolved).

Inductive ProxyShutdown : Type :=
| Shutdown_WaitingForCreation (s : WorkerStart)
| Shutdown_ReturningWorker (d : WorkerStopping)
| Shutdown_ReturningWorkerStart (k : WorkerStartKind) (d : WorkerStopping) (f : PreReadyFailure)
| Shutdown_ReturningPredecessor (d : WorkerStopping) (replaces successor : WorkerAttempt)
| Shutdown_ReturningSuccessor (replaces : WorkerAttempt) (predecessor : PredecessorReturn)
    (d : WorkerStopping) (r : WorkerStartResult)
| Shutdown_Initializing (k : WorkerStartKind) (i : WorkerInitializationShutdown)
| Shutdown_Starting (k : WorkerStartKind) (s : WorkerStartupShutdown)
| Shutdown_WaitingForPredecessor (replaces : WorkerAttempt) (shutdown : ShutdownId)
    (r : WorkerStartRetirement).

Inductive ProxyState : Type :=
| State_Dormant
| State_Starting (s : WorkerStart)
| State_Ready (w : CurrentWorker)
| State_EmptyInitial
| State_EmptyAfter (previous : WorkerAttempt)
| State_Replacing (r : ProxyReplacement)
| State_ShuttingDown (s : ProxyShutdown)
| State_Stopped (r : ProxyRetirement).

Definition start_phase_name (p : WorkerStartPhase) : ProxyPhase :=
  match p with
  | Creating _ _ => Phase_Creating
  | Initializing _ _ => Phase_Initializing
  | Starting _ _ _ => Phase_Starting
  | ReturningWorker _ _ => Phase_ReturningWorker
  end.

Definition phase (s : ProxyState) : ProxyPhase :=
  match s with
  | State_Dormant => Phase_Dormant
  | State_Starting start => start_phase_name (start_phase start)
  | State_Ready _ => Phase_Ready
  | State_EmptyInitial => Phase_EmptyInitial
  | State_EmptyAfter _ => Phase_EmptyAfter
  | State_Replacing _ => Phase_Replacing
  | State_ShuttingDown _ => Phase_ShuttingDown
  | State_Stopped _ => Phase_Stopped
  end.

End ProxyStates.
