(* ===== verification/StableProxy.v ===== *)
(** * The stable proxy ([templates/proxy/mod.rs])

    One stable service identity backed by at most one exact worker: every
    handler of the fold, in the source's grouping (service and start,
    initialization, startup, replacement, departure, owner shutdown).  The
    handlers that issue a worker attempt or a startup grant allocate, and are
    computations of [Alloc]; the others are plain functions. *)

From stdpp Require Import base list option numbers.
From S2P Require Import Prelude Effects Timers Restart Termination Settlement Interpretation Creation.
From S2P Require Import Workers WorkerPreparation WorkerStartup ProxyWorker ProxyState.

Section Proxy.
  Context `{WT : WorkerTypes}.

Record StableProxy := mkProxy {
  state : ProxyState;
  creations : CreationSequence
}.

Abbreviation turn := (StableProxy * ProxyActions)%type.
Abbreviation create_worker_request := (CreateChild (StopOnShutdown Worker)).
Abbreviation workers_settled :=
  (CreationsSettled Nonce (StopOnShutdown Worker) WorkerError HostedInitialization Installed).

Definition dormant : StableProxy := mkProxy State_Dormant CreationSequence_new.
Definition new : StableProxy := dormant.
Definition proxy_phase (p : StableProxy) : ProxyPhase := phase (state p).

(** ** Actions *)

Definition none {M} : InterpreterRequests M := mkRequests [].

Definition deliver_service (d : EstablishedDelivery Endpoint Msg) : ProxyActions :=
  send (mkProxyEffects none none none none [d] none none).

Definition report (o : ProxyOutcome) : ProxyActions :=
  send (mkProxyEffects none none none none [] (InterpreterRequests_one o) none).

Definition report_pair (earlier later : ProxyOutcome) : ProxyActions :=
  send (mkProxyEffects none none none none [] (mkRequests [earlier; later]) none).

Definition diagnose (d : ProxyDiagnostic) : ProxyActions :=
  send (mkProxyEffects none none none none [] none (InterpreterRequests_one d)).

Definition create_worker (o : ObserveChild) (c : create_worker_request) : ProxyActions :=
  mkActions (mkProxyEffects (InterpreterRequests_one o) none none none [] none none)
    (Creations_one c) Continue.

Definition request_worker_shutdown (s : ShutdownEstablished Installed) : ProxyActions :=
  send (mkProxyEffects none none none (InterpreterRequests_one s) [] none none).

Definition request_initialization (i : InitializeWorker) : ProxyActions :=
  send (mkProxyEffects none (InterpreterRequests_one i) none none [] none none).

Definition initialize_and_shutdown (i : InitializeWorker) (s : ShutdownEstablished Installed) : ProxyActions :=
  send (mkProxyEffects none (InterpreterRequests_one i) none (InterpreterRequests_one s) [] none none).

Definition begin_startup (r : StartWorker) : ProxyActions :=
  send (mkProxyEffects none none (InterpreterRequests_one r) none [] none none).

(** ** Inputs returned to the owner *)

Definition unexpected_stop (c : CreationSequence) (s : ProxyState) (stopped : ChildStopped Addr) : turn :=
  (mkProxy s c, diagnose (UnexpectedWorkerStop (phase s) stopped)).

Definition unexpected_startup (c : CreationSequence) (s : ProxyState) (input : WorkerStartup) : turn :=
  (mkProxy s c, diagnose (UnexpectedWorkerStartup (phase s) input)).

Definition unexpected_shutdown (c : CreationSequence) (s : ProxyState) (r : EstablishedShutdownResolved) : turn :=
  (mkProxy s c, diagnose (UnexpectedWorkerShutdown (phase s) r)).

Definition unexpected_start_initialization (c : CreationSequence) (k : WorkerStartKind) (w : CurrentWorker)
  (stopped : option (ChildStopped Addr)) (i : WorkerInitializationReport) : turn :=
  (mkProxy (State_Starting (mkWorkerStart k (Initializing w stopped))) c,
   diagnose (UnexpectedWorkerInitialization Phase_Initializing i)).

Definition unexpected_worker_start (c : CreationSequence) (s : ProxyShutdown) (workers : workers_settled) : turn :=
  (mkProxy (State_ShuttingDown s) c, diagnose (UnexpectedWorkerStart Phase_ShuttingDown workers)).

Definition unexpected_initialization (c : CreationSequence) (s : ProxyShutdown)
  (i : WorkerInitializationReport) : turn :=
  (mkProxy (State_ShuttingDown s) c, diagnose (UnexpectedWorkerInitialization Phase_ShuttingDown i)).

Definition unexpected_shutdown_startup (c : CreationSequence) (s : ProxyShutdown) (input : WorkerStartup) : turn :=
  (mkProxy (State_ShuttingDown s) c, diagnose (UnexpectedWorkerStartup Phase_ShuttingDown input)).

(** ** Service *)

Definition service (current : StableProxy) (s : User Addr Msg) : turn :=
  match state current with
  | State_Ready w => (current, deliver_service (mkEstablishedDelivery (actor_recipient (actor w)) (message s)))
  | st => (current, report (Outcome_ServiceUnavailable (from s) (phase st) (message s)))
  end.

(** ** Replacement results *)

Definition publish_replacement (c : CreationSequence) (replaces : WorkerAttempt)
  (completion : ReplacementCompletion) : turn :=
  match completion with
  | Completion_Ready w r =>
      (mkProxy (State_Ready w) c, report (Outcome_Replacement (Replacement_Resolved replaces r)))
  | Completion_Empty w r =>
      (mkProxy (State_EmptyAfter w) c, report (Outcome_Replacement (Replacement_Resolved replaces r)))
  | Completion_ReadyAfterStop w r stopped =>
      (mkProxy (State_EmptyAfter w) c,
       report_pair (Outcome_Replacement (Replacement_Resolved replaces r)) (Outcome_WorkerStopped w stopped))
  end.

Definition finish_replacement (c : CreationSequence) (replaces : WorkerAttempt)
  (predecessor_shutdown : PredecessorShutdown) (completion : ReplacementCompletion) : turn :=
  match predecessor_shutdown with
  | Predecessor_Awaiting i =>
      (mkProxy (State_Replacing (SuccessorResultAwaitingShutdown replaces i completion)) c, cont)
  | Predecessor_Settled => publish_replacement c replaces completion
  end.

Definition worker_creation_rejected (c : CreationSequence) (k : WorkerStartKind) (r : WorkerStartResult) : turn :=
  match k with
  | Kind_Initial => (mkProxy State_EmptyInitial c, report (Outcome_Initial (Initial_Resolved r)))
  | Kind_Replacement replaces predecessor_shutdown =>
      finish_replacement c replaces predecessor_shutdown (Completion_Empty replaces r)
  end.

Definition worker_start_ready (c : CreationSequence) (k : WorkerStartKind) (w : CurrentWorker)
  (r : WorkerStartResult) : turn :=
  match k with
  | Kind_Initial => (mkProxy (State_Ready w) c, report (Outcome_Initial (Initial_Resolved r)))
  | Kind_Replacement replaces predecessor_shutdown =>
      finish_replacement c replaces predecessor_shutdown (Completion_Ready w r)
  end.

Definition worker_start_empty (c : CreationSequence) (k : WorkerStartKind) (previous : WorkerAttempt)
  (r : WorkerStartResult) : turn :=
  match k with
  | Kind_Initial => (mkProxy (State_EmptyAfter previous) c, report (Outcome_Initial (Initial_Resolved r)))
  | Kind_Replacement replaces predecessor_shutdown =>
      finish_replacement c replaces predecessor_shutdown (Completion_Empty previous r)
  end.

(** ** Terminal custody *)

Definition stop_with (c : CreationSequence) (r : ProxyRetirement) : turn := (mkProxy (State_Stopped r) c, stop).

Definition finish_shutdown (c : CreationSequence) (w : CurrentWorker) (r : EstablishedShutdownResolved)
  (stopped : ChildStopped Addr) : turn :=
  stop_with c (Retirement_Worker (mkStoppedWorker w r stopped)).

Definition finish_cancelled_replacement (c : CreationSequence) (replaces successor : WorkerAttempt)
  (w : CurrentWorker) (r : EstablishedShutdownResolved) (stopped : ChildStopped Addr) : turn :=
  stop_with c (Retirement_ReplacementCancelled replaces successor (mkStoppedWorker w r stopped)).

Definition finish_start_retirement (c : CreationSequence) (k : WorkerStartKind) (r : WorkerStartRetirement) : turn :=
  match k with
  | Kind_Initial => stop_with c (Retirement_WorkerStart None r)
  | Kind_Replacement replaces Predecessor_Settled => stop_with c (Retirement_WorkerStart (Some replaces) r)
  | Kind_Replacement replaces (Predecessor_Awaiting i) =>
      (mkProxy (State_ShuttingDown (Shutdown_WaitingForPredecessor replaces i r)) c, cont)
  end.

(** ** Starting the first worker *)

Definition begin_initial (c : CreationSequence) (w : Worker) (p : Plan) : Alloc turn :=
  '(c, birth) ← pending_birth c w p;
  match birth with
  | Ok (pending, creation) =>
      mret (mkProxy (State_Starting (mkWorkerStart Kind_Initial (Creating pending None))) c,
            create_worker (mkObserveChild (pending_creation pending)) creation)
  | Err (w, p) => mret (mkProxy State_Dormant c, report (Outcome_Initial (Initial_AttemptsExhausted w p)))
  end.

Definition start_initial (current : StableProxy) (w : Worker) (p : Plan) : Alloc turn :=
  match state current with
  | State_Dormant => begin_initial (creations current) w p
  | st => mret (current, report (Outcome_Initial (Initial_Overlap w p (phase st))))
  end.

Definition await_initialization (c : CreationSequence) (k : WorkerStartKind) (w : CurrentWorker) (p : Plan)
  (stopped : option (ChildStopped Addr)) : turn :=
  (mkProxy (State_Starting (mkWorkerStart k (Initializing w stopped))) c,
   request_initialization (mkInitialize (attempt w) (initialization w) (actor_recipient (actor w)) p)).

(** ** A worker that must be returned before it was ready *)

Definition return_worker (c : CreationSequence) (k : WorkerStartKind) (w : CurrentWorker)
  (f : PreReadyFailure) : turn :=
  let '(departure, shutdown) := stopping_begin w in
  (mkProxy (State_Starting (mkWorkerStart k (ReturningWorker departure f))) c,
   request_worker_shutdown shutdown).

Definition worker_return_result (w : CurrentWorker) (f : PreReadyFailure) (r : EstablishedShutdownResolved)
  (stopped : ChildStopped Addr) : WorkerStartResult :=
  match f with
  | Failure_InitializationEffects failure p =>
      Result_Unavailable (attempt w) (Drain_InitializationRejected failure p (Some r) stopped)
  | Failure_StartupRefused request reason =>
      Result_Unavailable (attempt w) (Drain_StartupRefused request reason (Some r) stopped)
  | Failure_StartupRejected rejection =>
      Result_Unavailable (attempt w) (Drain_StartupRejected rejection (Some r) stopped)
  end.

Definition worker_returned (c : CreationSequence) (k : WorkerStartKind) (w : CurrentWorker)
  (f : PreReadyFailure) (r : EstablishedShutdownResolved) (stopped : ChildStopped Addr) : turn :=
  worker_start_empty c k (attempt w) (worker_return_result w f r stopped).

(** ** Startup *)

Definition admit_startup (progress : StartupProgress) (input : WorkerStartup) : result WorkerStartup WorkerStartup :=
  let expected := match progress with WaitingForStart g | Running g => g end in
  if bool_decide (startup_grant input = expected) then Ok input else Err input.

Definition startup_waiting (c : CreationSequence) (k : WorkerStartKind) (w : CurrentWorker)
  (g : WorkerStartupGrant) (stopped : option (ChildStopped Addr)) (input : WorkerStartup) : turn :=
  match into_started input with
  | Ok _ => (mkProxy (State_Starting (mkWorkerStart k (Starting w (Running g) stopped))) c, cont)
  | Err input =>
      match into_start_rejection input with
      | Ok (request, reason) =>
          match stopped with
          | Some stopped =>
              worker_start_empty c k (attempt w)
                (Result_Unavailable (attempt w) (Drain_StartupRefused request reason None stopped))
          | None => return_worker c k w (Failure_StartupRefused request reason)
          end
      | Err input =>
          unexpected_startup c (State_Starting (mkWorkerStart k (Starting w (WaitingForStart g) stopped))) input
      end
  end.

Definition startup_running (c : CreationSequence) (k : WorkerStartKind) (w : CurrentWorker)
  (g : WorkerStartupGrant) (stopped : option (ChildStopped Addr)) (input : WorkerStartup) : turn :=
  match into_ready input with
  | Ok readiness =>
      match stopped with
      | Some stopped =>
          worker_start_empty c k (attempt w)
            (Result_Unavailable (attempt w) (Drain_StartupCompleted readiness stopped))
      | None => worker_start_ready c k w (Result_Ready (attempt w) readiness)
      end
  | Err input =>
      match into_rejection input with
      | Ok rejection =>
          match stopped with
          | Some stopped =>
              worker_start_empty c k (attempt w)
                (Result_Unavailable (attempt w) (Drain_StartupRejected rejection None stopped))
          | None => return_worker c k w (Failure_StartupRejected rejection)
          end
      | Err input =>
          unexpected_startup c (State_Starting (mkWorkerStart k (Starting w (Running g) stopped))) input
      end
  end.

(** ** Initialization *)

Definition initialization_resolved (c : CreationSequence) (k : WorkerStartKind) (w : CurrentWorker)
  (stopped : option (ChildStopped Addr)) (i : WorkerInitializationReport) : Alloc turn :=
  match i with
  | ReadyForStartup _ _ p permit =>
      match stopped with
      | Some stopped =>
          mret (worker_start_empty c k (attempt w)
            (Result_Unavailable (attempt w) (Drain_InitializationCompleted permit p stopped)))
      | None =>
          request ← start_worker_new p permit;
          mret (mkProxy (State_Starting (mkWorkerStart k
                  (Starting w (WaitingForStart (start_attempt request)) None))) c,
                begin_startup request)
      end
  | EffectsRejected _ _ p failure =>
      match stopped with
      | Some stopped =>
          mret (worker_start_empty c k (attempt w)
            (Result_Unavailable (attempt w) (Drain_InitializationRejected failure p None stopped)))
      | None => mret (return_worker c k w (Failure_InitializationEffects failure p))
      end
  | InitializationStopped worker_attempt initialization p returned_stop =>
      match admit_stop w returned_stop with
      | Ok returned_stop =>
          mret (worker_start_empty c k (attempt w)
            (Result_Unavailable (attempt w) (Drain_InitializationStopped p stopped returned_stop)))
      | Err returned_stop =>
          mret (unexpected_start_initialization c k w stopped
            (InitializationStopped worker_attempt initialization p returned_stop))
      end
  end.

(** ** Replacing the worker *)

Definition replace_worker (current : StableProxy) (w : Worker) (p : Plan) : Alloc turn :=
  match state current with
  | State_Ready current_worker =>
      let replaces := attempt current_worker in
      '(c, r) ← pending_replacement (creations current) (attempt_creation replaces) w p;
      match r with
      | Ok (successor, creation) =>
          let '(departure, shutdown) := stopping_begin current_worker in
          mret (mkProxy (State_Replacing (ReturningPredecessor departure successor creation)) c,
                request_worker_shutdown shutdown)
      | Err (w, p) =>
          mret (mkProxy (State_Ready current_worker) c,
                report (Outcome_Replacement (Replacement_AttemptsExhausted replaces w p)))
      end
  | State_EmptyAfter previous =>
      '(c, r) ← pending_replacement (creations current) (attempt_creation previous) w p;
      match r with
      | Ok (pending, creation) =>
          mret (mkProxy (State_Starting (mkWorkerStart (Kind_Replacement previous Predecessor_Settled)
                  (Creating pending None))) c,
                create_worker (mkObserveChild (pending_creation pending)) creation)
      | Err (w, p) =>
          mret (mkProxy (State_EmptyAfter previous) c,
                report (Outcome_Replacement (Replacement_AttemptsExhausted previous w p)))
      end
  | st => mret (current, report (Outcome_Replacement (Replacement_NotReplaceable w p (phase st))))
  end.

Definition start_successor_after_stop (c : CreationSequence) (replaces : WorkerAttempt)
  (predecessor_shutdown : PredecessorShutdown) (successor : PendingWorker)
  (creation : create_worker_request) (stopped : ChildStopped Addr) : turn :=
  (mkProxy (State_Starting (mkWorkerStart (Kind_Replacement replaces predecessor_shutdown)
     (Creating successor None))) c,
   mkActions
     (mkProxyEffects (InterpreterRequests_one (mkObserveChild (pending_creation successor))) none none none []
        (InterpreterRequests_one (Outcome_WorkerStopped replaces stopped)) none)
     (Creations_one creation) Continue).

Definition replacement_worker_stopped (c : CreationSequence) (replacement : ProxyReplacement)
  (stopped : ChildStopped Addr) : turn :=
  match replacement with
  | ReturningPredecessor departure successor creation =>
      match stopping_worker_stopped departure stopped with
      | Ok (Flow_Continue departure) =>
          match into_stopped_before_shutdown departure with
          | Ok (w, shutdown, stopped) =>
              start_successor_after_stop c (attempt w) (Predecessor_Awaiting shutdown) successor creation stopped
          | Err departure =>
              (mkProxy (State_Replacing (ReturningPredecessor departure successor creation)) c, cont)
          end
      | Ok (Flow_Break (mkStoppedWorker w _ stopped)) =>
          start_successor_after_stop c (attempt w) Predecessor_Settled successor creation stopped
      | Err (departure, input) =>
          unexpected_stop c (State_Replacing (ReturningPredecessor departure successor creation)) input
      end
  | SuccessorResultAwaitingShutdown replaces shutdown (Completion_Ready w r) =>
      match admit_stop w stopped with
      | Ok stopped =>
          (mkProxy (State_Replacing (SuccessorResultAwaitingShutdown replaces shutdown
             (Completion_ReadyAfterStop (attempt w) r stopped))) c, cont)
      | Err stopped =>
          unexpected_stop c
            (State_Replacing (SuccessorResultAwaitingShutdown replaces shutdown (Completion_Ready w r))) stopped
      end
  | replacement => unexpected_stop c (State_Replacing replacement) stopped
  end.

Definition replacement_shutdown_resolved (c : CreationSequence) (replacement : ProxyReplacement)
  (shutdown : EstablishedShutdownResolved) : turn :=
  match replacement with
  | ReturningPredecessor departure successor creation =>
      match stopping_shutdown_resolved departure shutdown with
      | Ok (Flow_Continue departure) =>
          (mkProxy (State_Replacing (ReturningPredecessor departure successor creation)) c, cont)
      | Ok (Flow_Break (mkStoppedWorker w _ stopped)) =>
          start_successor_after_stop c (attempt w) Predecessor_Settled successor creation stopped
      | Err (departure, input) =>
          unexpected_shutdown c (State_Replacing (ReturningPredecessor departure successor creation)) input
      end
  | SuccessorResultAwaitingShutdown replaces expected completion =>
      if bool_decide (resolved_id shutdown = expected) then publish_replacement c replaces completion
      else unexpected_shutdown c
             (State_Replacing (SuccessorResultAwaitingShutdown replaces expected completion)) shutdown
  end.

End Proxy.
