(* ===== verification/ProxyTransition.v ===== *)
(** * Owner shutdown and the transition of a stable proxy
    ([templates/proxy/mod.rs])

    The handlers of the shutting-down states and the dispatch of every event to
    its handler. *)

From stdpp Require Import base list option numbers.
From S2P Require Import Prelude Effects Timers Restart Termination Settlement Interpretation Creation.
From S2P Require Import Workers WorkerPreparation WorkerStartup ProxyWorker ProxyState StableProxy.

Section ProxyShutdowns.
  Context `{WT : WorkerTypes}.

Abbreviation turn := (StableProxy * ProxyActions)%type.
Abbreviation workers_settled :=
  (CreationsSettled Nonce (StopOnShutdown Worker) WorkerError HostedInitialization Installed).
Abbreviation departure_answer I :=
  (result (ControlFlow StoppedWorker WorkerStopping) (WorkerStopping * I)).
Abbreviation initialization_answer I :=
  (result (ControlFlow WorkerStartRetirement WorkerInitializationShutdown)
          (WorkerInitializationShutdown * I)).
Abbreviation startup_answer I :=
  (result (ControlFlow WorkerStartRetirement WorkerStartupShutdown) (WorkerStartupShutdown * I)).
Abbreviation shutdown_answer I := (result turn (CreationSequence * ProxyShutdown * I)).

(** ** Beginning a shutdown *)

Definition begin_startup_shutdown (w : CurrentWorker) (s : StartupProgress) (stopped : option (ChildStopped Addr)) :
  WorkerStartupShutdown * option (ShutdownEstablished Installed) :=
  match stopped with
  | Some stopped => (WaitingForStartup s w None stopped, None)
  | None =>
      let '(departure, shutdown) := stopping_begin w in
      (StartupDeparting (Startup_Pending s) departure, Some shutdown)
  end.

Definition shutdown_start (c : CreationSequence) (start : WorkerStart) : turn :=
  match start with
  | mkWorkerStart k (Initializing w stopped) =>
      match stopped with
      | Some stopped =>
          (mkProxy (State_ShuttingDown (Shutdown_Initializing k (WaitingForInitialization w None stopped))) c, cont)
      | None =>
          let '(departure, shutdown) := stopping_begin w in
          (mkProxy (State_ShuttingDown (Shutdown_Initializing k (InitDeparting None departure))) c,
           request_worker_shutdown shutdown)
      end
  | mkWorkerStart k (Starting w progress stopped) =>
      let '(startup, shutdown) := begin_startup_shutdown w progress stopped in
      (mkProxy (State_ShuttingDown (Shutdown_Starting k startup)) c,
       match shutdown with Some shutdown => request_worker_shutdown shutdown | None => cont end)
  | mkWorkerStart k (ReturningWorker departure failure) =>
      (mkProxy (State_ShuttingDown (Shutdown_ReturningWorkerStart k departure failure)) c, cont)
  | start => (mkProxy (State_ShuttingDown (Shutdown_WaitingForCreation start)) c, cont)
  end.

Definition shutdown_replacement (c : CreationSequence) (replacement : ProxyReplacement) : turn :=
  match replacement with
  | ReturningPredecessor departure successor creation =>
      let replaces := attempt (stopping_worker departure) in
      let '(successor_attempt, w, p) := cancel successor creation in
      (mkProxy (State_ShuttingDown (Shutdown_ReturningPredecessor departure replaces successor_attempt)) c,
       report (Outcome_Replacement (Replacement_CancelledBeforeBirth replaces w p)))
  | SuccessorResultAwaitingShutdown replaces shutdown (Completion_Ready w r) =>
      let '(departure, successor_shutdown) := stopping_begin w in
      (mkProxy (State_ShuttingDown
         (Shutdown_ReturningSuccessor replaces (Return_Awaiting shutdown) departure r)) c,
       request_worker_shutdown successor_shutdown)
  | SuccessorResultAwaitingShutdown replaces shutdown completion =>
      (mkProxy (State_ShuttingDown
         (Shutdown_WaitingForPredecessor replaces shutdown (Retired_ReplacementCompletion completion))) c, cont)
  end.

Definition owner_shutdown (current : StableProxy) : turn :=
  match state current with
  | State_Dormant | State_EmptyInitial => stop_with (creations current) (Retirement_Empty None)
  | State_EmptyAfter previous => stop_with (creations current) (Retirement_Empty (Some previous))
  | State_Ready w =>
      let '(departure, shutdown) := stopping_begin w in
      (mkProxy (State_ShuttingDown (Shutdown_ReturningWorker departure)) (creations current),
       request_worker_shutdown shutdown)
  | State_Starting start => shutdown_start (creations current) start
  | State_Replacing replacement => shutdown_replacement (creations current) replacement
  | State_ShuttingDown s => (mkProxy (State_ShuttingDown s) (creations current), cont)
  | State_Stopped r => stop_with (creations current) r
  end.

(** ** Initialization during shutdown *)

Definition wait_for_initialization_departure (d : WorkerStopping) (i : WorkerInitializationRetirement) :
  WorkerInitializationShutdown := InitDeparting (Some i) d.

Definition return_unrelated_initialization_stop (d : WorkerStopping) (w : WorkerAttempt)
  (i : InitializationAttempt) (p : Plan) (stopped : ChildStopped Addr) :
  WorkerInitializationShutdown * WorkerInitializationReport :=
  (InitDeparting None d, InitializationStopped w i p stopped).

Definition retain_initialization_stop (d : WorkerStopping) (w : WorkerAttempt) (i : InitializationAttempt)
  (p : Plan) (stopped : ChildStopped Addr) : initialization_answer WorkerInitializationReport :=
  match stopping_stopped d with
  | Some _ =>
      match admit_stop (stopping_worker d) stopped with
      | Ok stopped =>
          Ok (Flow_Continue (wait_for_initialization_departure d (InitRetired_Stopped p (Some stopped))))
      | Err stopped => Err (return_unrelated_initialization_stop d w i p stopped)
      end
  | None =>
      match stopping_worker_stopped d stopped with
      | Ok (Flow_Continue d) =>
          Ok (Flow_Continue (wait_for_initialization_departure d (InitRetired_Stopped p None)))
      | Ok (Flow_Break (mkStoppedWorker w shutdown stopped)) =>
          Ok (Flow_Break (Retired_Initialization (InitRetired_Stopped p None) w (Some shutdown) stopped))
      | Err (d, input) => Err (return_unrelated_initialization_stop d w i p input)
      end
  end.

Definition retain_initialization_while_departing (d : WorkerStopping) (input : WorkerInitializationReport) :
  initialization_answer WorkerInitializationReport :=
  match input with
  | ReadyForStartup _ _ p permit =>
      Ok (Flow_Continue (wait_for_initialization_departure d (InitRetired_Initialized permit p)))
  | EffectsRejected _ _ p failure =>
      Ok (Flow_Continue (wait_for_initialization_departure d (InitRetired_EffectsRejected failure p)))
  | InitializationStopped w i p stopped => retain_initialization_stop d w i p stopped
  end.

Definition classify_initialization_after_stop (w : CurrentWorker) (input : WorkerInitializationReport) :
  result WorkerInitializationRetirement WorkerInitializationReport :=
  match input with
  | ReadyForStartup _ _ p permit => Ok (InitRetired_Initialized permit p)
  | EffectsRejected _ _ p failure => Ok (InitRetired_EffectsRejected failure p)
  | InitializationStopped a i p stopped =>
      match admit_stop w stopped with
      | Ok stopped => Ok (InitRetired_Stopped p (Some stopped))
      | Err stopped => Err (InitializationStopped a i p stopped)
      end
  end.

Definition admit_worker_initialized_during_shutdown (current : WorkerInitializationShutdown)
  (input : WorkerInitializationReport) : initialization_answer WorkerInitializationReport :=
  match current with
  | InitDeparting None departure =>
      match admit_initialization (stopping_worker departure) input with
      | Ok input => retain_initialization_while_departing departure input
      | Err input => Err (InitDeparting None departure, input)
      end
  | InitDeparting i departure => Err (InitDeparting i departure, input)
  | WaitingForInitialization w shutdown stopped =>
      match admit_initialization w input with
      | Ok input =>
          match classify_initialization_after_stop w input with
          | Ok i => Ok (Flow_Break (Retired_Initialization i w shutdown stopped))
          | Err input => Err (WaitingForInitialization w shutdown stopped, input)
          end
      | Err input => Err (WaitingForInitialization w shutdown stopped, input)
      end
  end.

Definition rejoin_initialization_departure {I} (i : option WorkerInitializationRetirement)
  (admitted : departure_answer I) : initialization_answer I :=
  match admitted with
  | Ok (Flow_Continue departure) => Ok (Flow_Continue (InitDeparting i departure))
  | Ok (Flow_Break (mkStoppedWorker w shutdown stopped)) =>
      match i with
      | None => Ok (Flow_Continue (WaitingForInitialization w (Some shutdown) stopped))
      | Some i => Ok (Flow_Break (Retired_Initialization i w (Some shutdown) stopped))
      end
  | Err (departure, input) => Err (InitDeparting i departure, input)
  end.

Definition continue_initialization_shutdown {I} (c : CreationSequence) (k : WorkerStartKind)
  (changed : initialization_answer I) : shutdown_answer I :=
  match changed with
  | Ok (Flow_Continue i) => Ok (mkProxy (State_ShuttingDown (Shutdown_Initializing k i)) c, cont)
  | Ok (Flow_Break retirement) => Ok (finish_start_retirement c k retirement)
  | Err (i, input) => Err (c, Shutdown_Initializing k i, input)
  end.

Definition shutdown_worker_initialized (c : CreationSequence) (s : ProxyShutdown)
  (i : WorkerInitializationReport) : turn :=
  match s with
  | Shutdown_Initializing k current =>
      match continue_initialization_shutdown c k (admit_worker_initialized_during_shutdown current i) with
      | Ok changed => changed
      | Err (c, s, input) => unexpected_initialization c s input
      end
  | s => unexpected_initialization c s i
  end.

Definition begin_shutdown_initialization (c : CreationSequence) (k : WorkerStartKind) (w : CurrentWorker)
  (p : Plan) (stopped : option (ChildStopped Addr)) : turn :=
  let request := mkInitialize (attempt w) (initialization w) (actor_recipient (actor w)) p in
  match stopped with
  | Some stopped =>
      (mkProxy (State_ShuttingDown (Shutdown_Initializing k (WaitingForInitialization w None stopped))) c,
       request_initialization request)
  | None =>
      let '(departure, shutdown) := stopping_begin w in
      (mkProxy (State_ShuttingDown (Shutdown_Initializing k (InitDeparting None departure))) c,
       initialize_and_shutdown request shutdown)
  end.

Definition shutdown_workers_created (c : CreationSequence) (s : ProxyShutdown) (workers : workers_settled) : turn :=
  match s with
  | Shutdown_WaitingForCreation (mkWorkerStart k (Creating w stopped)) =>
      match created w workers stopped with
      | Creation_Initializing w p stopped => begin_shutdown_initialization c k w p stopped
      | Creation_RejectedWorker rejection p stopped =>
          finish_start_retirement c k (Retired_Result (Result_CreationRejected rejection p stopped))
      | Creation_Unexpected w stopped workers =>
          unexpected_worker_start c (Shutdown_WaitingForCreation (mkWorkerStart k (Creating w stopped))) workers
      end
  | s => unexpected_worker_start c s workers
  end.

(** ** Startup during shutdown *)

Definition advance_startup_during_shutdown (progress : StartupProgress) (input : WorkerStartup) :
  result StartupDuringDeparture (StartupProgress * WorkerStartup) :=
  match progress with
  | WaitingForStart g =>
      match into_started input with
      | Ok _ => Ok (Startup_Pending (Running g))
      | Err input =>
          match into_start_rejection input with
          | Ok (request, reason) => Ok (Startup_Returned (StartupRetired_StartRejected request reason))
          | Err input => Err (WaitingForStart g, input)
          end
      end
  | Running g =>
      match into_ready input with
      | Ok readiness => Ok (Startup_Returned (StartupRetired_Ready readiness))
      | Err input =>
          match into_rejection input with
          | Ok rejection => Ok (Startup_Returned (StartupRetired_Rejected rejection))
          | Err input => Err (Running g, input)
          end
      end
  end.

Definition retain_startup_while_departing (progress : StartupProgress) (d : WorkerStopping)
  (input : WorkerStartup) : startup_answer WorkerStartup :=
  match advance_startup_during_shutdown progress input with
  | Ok s => Ok (Flow_Continue (StartupDeparting s d))
  | Err (progress, input) => Err (StartupDeparting (Startup_Pending progress) d, input)
  end.

Definition retain_startup_after_worker (progress : StartupProgress) (w : CurrentWorker)
  (shutdown : option EstablishedShutdownResolved) (stopped : ChildStopped Addr) (input : WorkerStartup) :
  startup_answer WorkerStartup :=
  match advance_startup_during_shutdown progress input with
  | Ok (Startup_Pending s) => Ok (Flow_Continue (WaitingForStartup s w shutdown stopped))
  | Ok (Startup_Returned s) => Ok (Flow_Break (Retired_Startup s w shutdown stopped))
  | Err (progress, input) => Err (WaitingForStartup progress w shutdown stopped, input)
  end.

Definition admit_worker_startup_during_shutdown (current : WorkerStartupShutdown) (input : WorkerStartup) :
  startup_answer WorkerStartup :=
  match current with
  | StartupDeparting (Startup_Pending progress) departure =>
      match admit_startup progress input with
      | Ok input => retain_startup_while_departing progress departure input
      | Err input => Err (StartupDeparting (Startup_Pending progress) departure, input)
      end
  | StartupDeparting s departure => Err (StartupDeparting s departure, input)
  | WaitingForStartup s w shutdown stopped =>
      match admit_startup s input with
      | Ok input => retain_startup_after_worker s w shutdown stopped input
      | Err input => Err (WaitingForStartup s w shutdown stopped, input)
      end
  end.

Definition rejoin_startup_departure {I} (s : StartupDuringDeparture) (admitted : departure_answer I) :
  startup_answer I :=
  match admitted with
  | Ok (Flow_Continue departure) => Ok (Flow_Continue (StartupDeparting s departure))
  | Ok (Flow_Break (mkStoppedWorker w shutdown stopped)) =>
      match s with
      | Startup_Pending s => Ok (Flow_Continue (WaitingForStartup s w (Some shutdown) stopped))
      | Startup_Returned s => Ok (Flow_Break (Retired_Startup s w (Some shutdown) stopped))
      end
  | Err (departure, input) => Err (StartupDeparting s departure, input)
  end.

Definition continue_startup_shutdown {I} (c : CreationSequence) (k : WorkerStartKind)
  (changed : startup_answer I) : shutdown_answer I :=
  match changed with
  | Ok (Flow_Continue s) => Ok (mkProxy (State_ShuttingDown (Shutdown_Starting k s)) c, cont)
  | Ok (Flow_Break retirement) => Ok (finish_start_retirement c k retirement)
  | Err (s, input) => Err (c, Shutdown_Starting k s, input)
  end.

Definition settle_shutdown_startup (c : CreationSequence) (s : ProxyShutdown) (input : WorkerStartup) : turn :=
  match s with
  | Shutdown_Starting k startup =>
      match continue_startup_shutdown c k (admit_worker_startup_during_shutdown startup input) with
      | Ok changed => changed
      | Err (c, s, input) => unexpected_shutdown_startup c s input
      end
  | s => unexpected_shutdown_startup c s input
  end.

(** ** Departures during shutdown *)

Definition successor_departed (c : CreationSequence) (replaces : WorkerAttempt) (predecessor : PredecessorReturn)
  (r : WorkerStartResult) (departure : StoppedWorker) : turn :=
  let retirement := Retired_ReadyWorker r departure in
  match predecessor with
  | Return_Awaiting shutdown =>
      (mkProxy (State_ShuttingDown (Shutdown_WaitingForPredecessor replaces shutdown retirement)) c, cont)
  | Return_Returned resolution =>
      stop_with c (Retirement_ReplacementAfterPredecessor replaces resolution retirement)
  end.

Definition successor_shutdown_resolved (c : CreationSequence) (replaces : WorkerAttempt)
  (predecessor : PredecessorReturn) (departure : WorkerStopping) (r : WorkerStartResult)
  (resolution : EstablishedShutdownResolved) : turn :=
  match stopping_shutdown_resolved departure resolution with
  | Ok (Flow_Continue departure) =>
      (mkProxy (State_ShuttingDown (Shutdown_ReturningSuccessor replaces predecessor departure r)) c, cont)
  | Ok (Flow_Break departure) => successor_departed c replaces predecessor r departure
  | Err (departure, input) =>
      unexpected_shutdown c
        (State_ShuttingDown (Shutdown_ReturningSuccessor replaces predecessor departure r)) input
  end.

Definition shutdown_resolved (c : CreationSequence) (s : ProxyShutdown)
  (resolution : EstablishedShutdownResolved) : turn :=
  match s with
  | Shutdown_ReturningWorker departure =>
      match stopping_shutdown_resolved departure resolution with
      | Ok (Flow_Continue departure) =>
          (mkProxy (State_ShuttingDown (Shutdown_ReturningWorker departure)) c, cont)
      | Ok (Flow_Break (mkStoppedWorker w shutdown stopped)) => finish_shutdown c w shutdown stopped
      | Err (departure, input) =>
          unexpected_shutdown c (State_ShuttingDown (Shutdown_ReturningWorker departure)) input
      end
  | Shutdown_ReturningWorkerStart k departure failure =>
      match stopping_shutdown_resolved departure resolution with
      | Ok (Flow_Continue departure) =>
          (mkProxy (State_ShuttingDown (Shutdown_ReturningWorkerStart k departure failure)) c, cont)
      | Ok (Flow_Break (mkStoppedWorker w shutdown stopped)) =>
          finish_start_retirement c k (Retired_Result (worker_return_result w failure shutdown stopped))
      | Err (departure, input) =>
          unexpected_shutdown c
            (State_ShuttingDown (Shutdown_ReturningWorkerStart k departure failure)) input
      end
  | Shutdown_ReturningPredecessor departure replaces successor =>
      match stopping_shutdown_resolved departure resolution with
      | Ok (Flow_Continue departure) =>
          (mkProxy (State_ShuttingDown (Shutdown_ReturningPredecessor departure replaces successor)) c, cont)
      | Ok (Flow_Break (mkStoppedWorker w shutdown stopped)) =>
          finish_cancelled_replacement c replaces successor w shutdown stopped
      | Err (departure, input) =>
          unexpected_shutdown c
            (State_ShuttingDown (Shutdown_ReturningPredecessor departure replaces successor)) input
      end
  | Shutdown_ReturningSuccessor replaces (Return_Awaiting expected) departure r =>
      if bool_decide (resolved_id resolution = expected)
      then (mkProxy (State_ShuttingDown
              (Shutdown_ReturningSuccessor replaces (Return_Returned resolution) departure r)) c, cont)
      else successor_shutdown_resolved c replaces (Return_Awaiting expected) departure r resolution
  | Shutdown_ReturningSuccessor replaces predecessor departure r =>
      successor_shutdown_resolved c replaces predecessor departure r resolution
  | Shutdown_Initializing k i =>
      match i with
      | InitDeparting i departure =>
          match continue_initialization_shutdown c k
                  (rejoin_initialization_departure i (stopping_shutdown_resolved departure resolution)) with
          | Ok changed => changed
          | Err (c, s, input) => unexpected_shutdown c (State_ShuttingDown s) input
          end
      | i => unexpected_shutdown c (State_ShuttingDown (Shutdown_Initializing k i)) resolution
      end
  | Shutdown_Starting k startup =>
      let changed :=
        match startup with
        | StartupDeparting s departure =>
            rejoin_startup_departure s (stopping_shutdown_resolved departure resolution)
        | startup => Err (startup, resolution)
        end in
      match continue_startup_shutdown c k changed with
      | Ok changed => changed
      | Err (c, s, input) => unexpected_shutdown c (State_ShuttingDown s) input
      end
  | Shutdown_WaitingForPredecessor replaces expected retirement =>
      if bool_decide (resolved_id resolution = expected)
      then stop_with c (Retirement_ReplacementAfterPredecessor replaces resolution retirement)
      else unexpected_shutdown c
             (State_ShuttingDown (Shutdown_WaitingForPredecessor replaces expected retirement)) resolution
  | s => unexpected_shutdown c (State_ShuttingDown s) resolution
  end.

Definition shutdown_worker_stopped (c : CreationSequence) (s : ProxyShutdown) (stopped : ChildStopped Addr) : turn :=
  match s with
  | Shutdown_ReturningWorker departure =>
      match stopping_worker_stopped departure stopped with
      | Ok (Flow_Continue departure) =>
          (mkProxy (State_ShuttingDown (Shutdown_ReturningWorker departure)) c, cont)
      | Ok (Flow_Break (mkStoppedWorker w shutdown stopped)) => finish_shutdown c w shutdown stopped
      | Err (departure, input) =>
          unexpected_stop c (State_ShuttingDown (Shutdown_ReturningWorker departure)) input
      end
  | Shutdown_ReturningWorkerStart k departure failure =>
      match stopping_worker_stopped departure stopped with
      | Ok (Flow_Continue departure) =>
          (mkProxy (State_ShuttingDown (Shutdown_ReturningWorkerStart k departure failure)) c, cont)
      | Ok (Flow_Break (mkStoppedWorker w shutdown stopped)) =>
          finish_start_retirement c k (Retired_Result (worker_return_result w failure shutdown stopped))
      | Err (departure, input) =>
          unexpected_stop c (State_ShuttingDown (Shutdown_ReturningWorkerStart k departure failure)) input
      end
  | Shutdown_ReturningPredecessor departure replaces successor =>
      match stopping_worker_stopped departure stopped with
      | Ok (Flow_Continue departure) =>
          (mkProxy (State_ShuttingDown (Shutdown_ReturningPredecessor departure replaces successor)) c, cont)
      | Ok (Flow_Break (mkStoppedWorker w shutdown stopped)) =>
          finish_cancelled_replacement c replaces successor w shutdown stopped
      | Err (departure, input) =>
          unexpected_stop c
            (State_ShuttingDown (Shutdown_ReturningPredecessor departure replaces successor)) input
      end
  | Shutdown_ReturningSuccessor replaces predecessor departure r =>
      match stopping_worker_stopped departure stopped with
      | Ok (Flow_Continue departure) =>
          (mkProxy (State_ShuttingDown (Shutdown_ReturningSuccessor replaces predecessor departure r)) c, cont)
      | Ok (Flow_Break departure) => successor_departed c replaces predecessor r departure
      | Err (departure, input) =>
          unexpected_stop c
            (State_ShuttingDown (Shutdown_ReturningSuccessor replaces predecessor departure r)) input
      end
  | Shutdown_Initializing k i =>
      match i with
      | InitDeparting i departure =>
          match continue_initialization_shutdown c k
                  (rejoin_initialization_departure i (stopping_worker_stopped departure stopped)) with
          | Ok changed => changed
          | Err (c, s, input) => unexpected_stop c (State_ShuttingDown s) input
          end
      | i => unexpected_stop c (State_ShuttingDown (Shutdown_Initializing k i)) stopped
      end
  | Shutdown_Starting k startup =>
      let changed :=
        match startup with
        | StartupDeparting s departure =>
            rejoin_startup_departure s (stopping_worker_stopped departure stopped)
        | startup => Err (startup, stopped)
        end in
      match continue_startup_shutdown c k changed with
      | Ok changed => changed
      | Err (c, s, input) => unexpected_stop c (State_ShuttingDown s) input
      end
  | s => unexpected_stop c (State_ShuttingDown s) stopped
  end.

(** ** Dispatch of the worker's events *)

Definition workers_created (current : StableProxy) (workers : workers_settled) : turn :=
  match state current with
  | State_Starting (mkWorkerStart k (Creating w stopped)) =>
      match created w workers stopped with
      | Creation_Initializing w p stopped => await_initialization (creations current) k w p stopped
      | Creation_RejectedWorker rejection p stopped =>
          worker_creation_rejected (creations current) k (Result_CreationRejected rejection p stopped)
      | Creation_Unexpected w stopped workers =>
          (mkProxy (State_Starting (mkWorkerStart k (Creating w stopped))) (creations current),
           diagnose (UnexpectedWorkerStart Phase_Creating workers))
      end
  | State_ShuttingDown s => shutdown_workers_created (creations current) s workers
  | st => (current, diagnose (UnexpectedWorkerStart (phase st) workers))
  end.

Definition admit_pre_ready_stop (p : WorkerStartPhase) (stopped : ChildStopped Addr) :
  result WorkerStartPhase (WorkerStartPhase * ChildStopped Addr) :=
  match p with
  | Creating w None =>
      match pending_admit_stop w stopped with
      | Ok stopped => Ok (Creating w (Some stopped))
      | Err stopped => Err (Creating w None, stopped)
      end
  | Initializing w None =>
      match admit_stop w stopped with
      | Ok stopped => Ok (Initializing w (Some stopped))
      | Err stopped => Err (Initializing w None, stopped)
      end
  | Starting w progress None =>
      match admit_stop w stopped with
      | Ok stopped => Ok (Starting w progress (Some stopped))
      | Err stopped => Err (Starting w progress None, stopped)
      end
  | p => Err (p, stopped)
  end.

Definition worker_start_stopped (c : CreationSequence) (start : WorkerStart) (stopped : ChildStopped Addr) : turn :=
  let '(mkWorkerStart k p) := start in
  match p with
  | ReturningWorker departure failure =>
      match stopping_worker_stopped departure stopped with
      | Ok (Flow_Continue departure) =>
          (mkProxy (State_Starting (mkWorkerStart k (ReturningWorker departure failure))) c, cont)
      | Ok (Flow_Break (mkStoppedWorker w shutdown stopped)) =>
          worker_returned c k w failure shutdown stopped
      | Err (departure, input) =>
          unexpected_stop c (State_Starting (mkWorkerStart k (ReturningWorker departure failure))) input
      end
  | p =>
      match admit_pre_ready_stop p stopped with
      | Ok p => (mkProxy (State_Starting (mkWorkerStart k p)) c, cont)
      | Err (p, stopped) => unexpected_stop c (State_Starting (mkWorkerStart k p)) stopped
      end
  end.

Definition worker_stopped (current : StableProxy) (stopped : ChildStopped Addr) : turn :=
  match state current with
  | State_Starting start => worker_start_stopped (creations current) start stopped
  | State_Replacing replacement => replacement_worker_stopped (creations current) replacement stopped
  | State_ShuttingDown s => shutdown_worker_stopped (creations current) s stopped
  | State_Ready w =>
      match admit_stop w stopped with
      | Ok stopped =>
          (mkProxy (State_EmptyAfter (attempt w)) (creations current),
           report (Outcome_WorkerStopped (attempt w) stopped))
      | Err stopped => unexpected_stop (creations current) (State_Ready w) stopped
      end
  | st => (current, diagnose (UnexpectedWorkerStop (phase st) stopped))
  end.

Definition settle_worker_startup (current : StableProxy) (input : WorkerStartup) : turn :=
  match state current with
  | State_Starting (mkWorkerStart k (Starting w progress stopped)) =>
      match admit_startup progress input with
      | Ok input =>
          match progress with
          | WaitingForStart g => startup_waiting (creations current) k w g stopped input
          | Running g => startup_running (creations current) k w g stopped input
          end
      | Err input =>
          unexpected_startup (creations current)
            (State_Starting (mkWorkerStart k (Starting w progress stopped))) input
      end
  | State_ShuttingDown s => settle_shutdown_startup (creations current) s input
  | st => unexpected_startup (creations current) st input
  end.

Definition worker_initialized (current : StableProxy) (i : WorkerInitializationReport) : Alloc turn :=
  match state current with
  | State_Starting (mkWorkerStart k (Initializing w stopped)) =>
      match admit_initialization w i with
      | Ok i => initialization_resolved (creations current) k w stopped i
      | Err i => mret (unexpected_start_initialization (creations current) k w stopped i)
      end
  | State_ShuttingDown s => mret (shutdown_worker_initialized (creations current) s i)
  | st => mret (current, diagnose (UnexpectedWorkerInitialization (phase st) i))
  end.

Definition worker_start_shutdown_resolved (c : CreationSequence) (k : WorkerStartKind) (p : WorkerStartPhase)
  (shutdown : EstablishedShutdownResolved) : turn :=
  match p with
  | ReturningWorker departure failure =>
      match stopping_shutdown_resolved departure shutdown with
      | Ok (Flow_Continue departure) =>
          (mkProxy (State_Starting (mkWorkerStart k (ReturningWorker departure failure))) c, cont)
      | Ok (Flow_Break (mkStoppedWorker w shutdown stopped)) =>
          worker_returned c k w failure shutdown stopped
      | Err (departure, input) =>
          unexpected_shutdown c (State_Starting (mkWorkerStart k (ReturningWorker departure failure))) input
      end
  | p => unexpected_shutdown c (State_Starting (mkWorkerStart k p)) shutdown
  end.

Definition worker_shutdown_resolved (current : StableProxy) (shutdown : EstablishedShutdownResolved) : turn :=
  match state current with
  | State_Starting (mkWorkerStart k p) =>
      match k with
      | Kind_Replacement replaces (Predecessor_Awaiting i) =>
          if bool_decide (resolved_id shutdown = i)
          then (mkProxy (State_Starting (mkWorkerStart (Kind_Replacement replaces Predecessor_Settled) p))
                  (creations current), cont)
          else worker_start_shutdown_resolved (creations current) k p shutdown
      | k => worker_start_shutdown_resolved (creations current) k p shutdown
      end
  | State_Replacing replacement => replacement_shutdown_resolved (creations current) replacement shutdown
  | State_ShuttingDown s => shutdown_resolved (creations current) s shutdown
  | st => unexpected_shutdown (creations current) st shutdown
  end.

Definition owner (current : StableProxy) (control : ProxyControl) : Alloc turn :=
  match command control with
  | Command_Start s => start_initial current (worker s) (startup s)
  | Command_Replace s => replace_worker current (worker s) (startup s)
  | Command_Shutdown => mret (owner_shutdown current)
  end.

Definition accept (current : StableProxy) (event : ProxyEvent) : Alloc turn :=
  match event with
  | Service s => mret (service current s)
  | Owner control => owner current control
  | WorkerCreationsSettled workers => mret (workers_created current workers)
  | WorkerInitialization i => worker_initialized current i
  | WorkerStartupReported s => mret (settle_worker_startup current s)
  | WorkerShutdownResolved r => mret (worker_shutdown_resolved current r)
  | WorkerStopped s => mret (worker_stopped current s)
  end.

(** One transition of the proxy beside the allocator. *)
Definition transition (s : nat * StableProxy) (event : ProxyEvent) :
  (nat * StableProxy) * Acted (StopOnShutdown Worker) Never ProxyEffects Never :=
  let '(n, (next, actions)) := accept s.2 event s.1 in ((n, next), Ok actions).

End ProxyShutdowns.
