(* ===== verification/ProxyInvariant.v ===== *)
(** * Well-formed stable proxies, and their custody

    What the values held by a proxy have to do with each other, the proof that
    every transition preserves it, and the answer to inputs that belong to no
    current custody.  Over whole runs, the worker definitions and startup plans
    that an owner submits are never lost or duplicated, every submission is
    answered once, and a worker is created only after every earlier one is
    gone. *)

From stdpp Require Import base list option numbers.
From S2P Require Import Prelude Effects Timers Restart Termination Settlement Interpretation Creation Workers.
From S2P Require Import WorkerPreparation WorkerStartup ProxyWorker ProxyState StableProxy ProxyTransition.

Section ProxyInvariants.
  Context `{WT : WorkerTypes}.

(** ** Case analysis of one transition *)

Lemma admit_startup_spec progress input r :
  admit_startup progress input = r ->
  (r = Ok input /\ startup_grant input = match progress with WaitingForStart g | Running g => g end) \/
  r = Err input.
Proof. unfold admit_startup. intros <-. case_bool_decide; auto. Qed.

Lemma into_started_spec s r :
  into_started s = r -> (r = Ok () /\ startup_outcome s = Startup_Started) \/ r = Err s.
Proof. unfold into_started. intros <-. destruct (startup_outcome s); auto. Qed.

Lemma into_start_rejection_spec s r :
  into_start_rejection s = r ->
  (exists q j, r = Ok (q, j) /\ startup_outcome s = StartRejected q j) \/ r = Err s.
Proof. unfold into_start_rejection. intros <-. destruct (startup_outcome s); eauto. Qed.

Lemma into_ready_spec s r :
  into_ready s = r -> (exists x, r = Ok x /\ startup_outcome s = Startup_Ready x) \/ r = Err s.
Proof. unfold into_ready. intros <-. destruct (startup_outcome s); eauto. Qed.

Lemma into_rejection_spec s r :
  into_rejection s = r -> (exists x, r = Ok x /\ startup_outcome s = Startup_Rejected x) \/ r = Err s.
Proof. unfold into_rejection. intros <-. destruct (startup_outcome s); eauto. Qed.

End ProxyInvariants.

(** Replace an equation of an acceptance function by what it says. *)
Ltac proxy_read :=
  match goal with
  | H : pending_admit_stop _ _ = _ |- _ => apply pending_admit_stop_spec in H as [[? ?]|[? ?]]; simplify_eq
  | H : admit_stop _ _ = _ |- _ => apply admit_stop_spec in H as [[? ?]|[? ?]]; simplify_eq
  | H : admit_initialization _ _ = _ |- _ =>
      apply admit_initialization_spec in H as [(? & ? & ?)|?]; simplify_eq
  | H : admit_startup _ _ = _ |- _ => apply admit_startup_spec in H as [[? ?]|?]; simplify_eq
  | H : into_started _ = _ |- _ => apply into_started_spec in H as [[? ?]|?]; simplify_eq
  | H : into_start_rejection _ = _ |- _ =>
      apply into_start_rejection_spec in H as [(? & ? & ? & ?)|?]; simplify_eq
  | H : into_ready _ = _ |- _ => apply into_ready_spec in H as [(? & ? & ?)|?]; simplify_eq
  | H : into_rejection _ = _ |- _ => apply into_rejection_spec in H as [(? & ? & ?)|?]; simplify_eq
  | H : stopping_shutdown_resolved _ _ = _ |- _ =>
      apply stopping_shutdown_resolved_spec in H; simpl in H; destruct_and?; simplify_eq/=
  | H : stopping_worker_stopped _ _ = _ |- _ =>
      apply stopping_worker_stopped_spec in H; simpl in H; destruct_and?; simplify_eq/=
  | H : created _ _ _ = Creation_Unexpected _ _ _ |- _ =>
      apply created_unexpected in H as (? & ? & ?); simplify_eq
  | H : created _ _ _ = Creation_Initializing _ _ _ |- _ =>
      apply created_initializing in H as (? & ? & ? & ?); simplify_eq
  end.

(** Every branch of one transition. *)
Ltac proxy_unfold :=
  unfold accept, owner, service, workers_created, worker_stopped, worker_start_stopped,
    admit_pre_ready_stop, settle_worker_startup, startup_waiting, startup_running,
    worker_initialized, initialization_resolved, worker_shutdown_resolved,
    worker_start_shutdown_resolved, start_initial, begin_initial, replace_worker,
    replacement_worker_stopped, replacement_shutdown_resolved, start_successor_after_stop,
    owner_shutdown, shutdown_start, shutdown_replacement, begin_startup_shutdown,
    shutdown_workers_created, begin_shutdown_initialization, shutdown_worker_initialized,
    settle_shutdown_startup, shutdown_resolved, shutdown_worker_stopped,
    successor_shutdown_resolved, successor_departed,
    continue_initialization_shutdown, admit_worker_initialized_during_shutdown,
    retain_initialization_while_departing, retain_initialization_stop,
    classify_initialization_after_stop, rejoin_initialization_departure,
    continue_startup_shutdown, admit_worker_startup_during_shutdown,
    retain_startup_while_departing, retain_startup_after_worker, advance_startup_during_shutdown,
    rejoin_startup_departure, worker_returned, return_worker, worker_creation_rejected,
    worker_start_ready, worker_start_empty, finish_replacement, publish_replacement,
    finish_start_retirement, finish_shutdown, finish_cancelled_replacement, stop_with,
    await_initialization, unexpected_stop, unexpected_startup, unexpected_shutdown,
    unexpected_start_initialization, unexpected_worker_start, unexpected_initialization,
    unexpected_shutdown_startup, into_stopped_before_shutdown, wait_for_initialization_departure,
    return_unrelated_initialization_stop, stopping_begin, cancel,
    pending_birth, pending_replacement, await_creation, start_worker_new, grant_issued,
    attempt_issued, initialization_issued, mret, mbind, Alloc_ret, Alloc_bind, arc_new.

Ltac proxy_cases :=
  repeat (first [case_match | progress simplify_eq/= | proxy_read]).

Section ProxyInputs.
  Context `{WT : WorkerTypes}.

(** ** Inputs that belong to no current custody *)

Definition unexpected (ph : ProxyPhase) (e : ProxyEvent) : option ProxyDiagnostic :=
  match e with
  | Service _ | Owner _ => None
  | WorkerCreationsSettled workers => Some (UnexpectedWorkerStart ph workers)
  | WorkerInitialization i => Some (UnexpectedWorkerInitialization ph i)
  | WorkerStartupReported s => Some (UnexpectedWorkerStartup ph s)
  | WorkerShutdownResolved r => Some (UnexpectedWorkerShutdown ph r)
  | WorkerStopped s => Some (UnexpectedWorkerStop ph s)
  end.

Definition diagnosed (a : ProxyActions) : list ProxyDiagnostic := requests (diagnostics (sends a)).

(** C26. An input is either taken, with no diagnostic, or refused: then the
    proxy is exactly what it was, nothing else is sent or created, and the
    diagnostic carries the whole input and the phase that refused it. *)
Theorem proxy_refusal_inert n p e :
  let '(n', (p', a)) := accept p e n in
  diagnosed a = [] \/
  exists d, unexpected (proxy_phase p) e = Some d /\ n' = n /\ p' = p /\ a = diagnose d.
Proof.
  destruct p as [st c]. destruct e; proxy_unfold; unfold proxy_phase; cbn [state creations];
    destruct st; proxy_cases;
    first [left; reflexivity | right; eexists; repeat split; reflexivity].
Qed.

End ProxyInputs.

(** ** Well-formedness *)

Section ProxyWellFormed.
  Context `{WT : WorkerTypes}.

(** The sequence will only issue larger numbers. *)
Definition issued_before (c : CreationSequence) (i : CreationId) : Prop :=
  forall v, next c = Some v -> (creation_number i < v)%N.

Definition earlier (i j : CreationId) : Prop := (creation_number i < creation_number j)%N.

Lemma issue_spec c c' o :
  issue c = (c', o) ->
  (forall j, issued_before c j -> issued_before c' j) /\
  match o with
  | Some i => issued_before c' i /\ forall j, issued_before c j -> earlier j i
  | None => c' = c
  end.
Proof.
  unfold issue, issued_before, earlier. destruct c as [[v|]]; simpl; intros [= <- <-]; simpl; [|auto].
  split; [|split].
  - intros j Hj w [-> Hw]%checked_add_Some. specialize (Hj v eq_refl). lia.
  - intros w [-> _]%checked_add_Some. lia.
  - auto.
Qed.

(** The correlation of the shutdown request of a worker. *)
Definition shutdown_of (a : WorkerAttempt) : ShutdownId := mkShutdownId (creation_number (attempt_creation a)).

Definition stop_ok (a : WorkerAttempt) (stopped : option (ChildStopped Addr)) : Prop :=
  forall s, stopped = Some s -> stopped_child s = attempt_creation a.

Definition resolution_ok (a : WorkerAttempt) (r : option EstablishedShutdownResolved) : Prop :=
  forall x, r = Some x -> resolved_id x = shutdown_of a.

Definition current_ok (c : CreationSequence) (w : CurrentWorker) : Prop :=
  initialization_worker (initialization w) = attempt w /\ issued_before c (attempt_creation (attempt w)).

Definition departure_ok (c : CreationSequence) (d : WorkerStopping) : Prop :=
  current_ok c (stopping_worker d) /\
  match stopping_shutdown d with
  | Shutdown_Requested i => i = shutdown_of (attempt (stopping_worker d))
  | Shutdown_Settled r => resolved_id r = shutdown_of (attempt (stopping_worker d))
  end /\
  stop_ok (attempt (stopping_worker d)) (stopping_stopped d) /\
  match stopping_shutdown d, stopping_stopped d with Shutdown_Settled _, Some _ => False | _, _ => True end.

Definition kind_ok (k : WorkerStartKind) (a : WorkerAttempt) : Prop :=
  match k with
  | Kind_Initial => True
  | Kind_Replacement replaces p =>
      earlier (attempt_creation replaces) (attempt_creation a) /\
      match p with Predecessor_Settled => True | Predecessor_Awaiting i => i = shutdown_of replaces end
  end.

Definition creation_kind (k : WorkerStartKind) : CreationKind :=
  match k with
  | Kind_Initial => Birth
  | Kind_Replacement replaces _ => Replacement (attempt_creation replaces)
  end.

Definition pending_ok (c : CreationSequence) (p : PendingWorker) : Prop :=
  initialization_worker (pending_initialization p) = pending_attempt p /\
  issued_before c (attempt_creation (pending_attempt p)).

Definition progress_ok (w : CurrentWorker) (p : StartupProgress) : Prop :=
  match p with WaitingForStart g | Running g => grant_worker g = attempt w end.

Definition start_ok (c : CreationSequence) (k : WorkerStartKind) (p : WorkerStartPhase) : Prop :=
  match p with
  | Creating w stopped =>
      pending_ok c w /\ pending_kind w = creation_kind k /\ stop_ok (pending_attempt w) stopped /\
      kind_ok k (pending_attempt w)
  | Initializing w stopped => current_ok c w /\ stop_ok (attempt w) stopped /\ kind_ok k (attempt w)
  | Starting w progress stopped =>
      current_ok c w /\ progress_ok w progress /\ stop_ok (attempt w) stopped /\ kind_ok k (attempt w)
  | ReturningWorker d _ => departure_ok c d /\ kind_ok k (attempt (stopping_worker d))
  end.

Definition completion_ok (c : CreationSequence) (replaces : WorkerAttempt) (x : ReplacementCompletion) : Prop :=
  match x with
  | Completion_Ready w _ =>
      current_ok c w /\ earlier (attempt_creation replaces) (attempt_creation (attempt w))
  | Completion_ReadyAfterStop a _ s =>
      issued_before c (attempt_creation a) /\ stopped_child s = attempt_creation a
  | Completion_Empty a _ => issued_before c (attempt_creation a)
  end.

Definition replacement_ok (c : CreationSequence) (r : ProxyReplacement) : Prop :=
  match r with
  | ReturningPredecessor d successor creation =>
      let predecessor := attempt_creation (attempt (stopping_worker d)) in
      departure_ok c d /\ stopping_stopped d = None /\
      pending_ok c successor /\ pending_kind successor = Replacement predecessor /\
      earlier predecessor (attempt_creation (pending_attempt successor)) /\
      id creation = attempt_creation (pending_attempt successor) /\ kind creation = pending_kind successor
  | SuccessorResultAwaitingShutdown replaces i x => i = shutdown_of replaces /\ completion_ok c replaces x
  end.

Definition proxy_shutdown_ok (c : CreationSequence) (s : ProxyShutdown) : Prop :=
  match s with
  | Shutdown_WaitingForCreation start =>
      (exists w stopped, start_phase start = Creating w stopped) /\
      start_ok c (start_kind start) (start_phase start)
  | Shutdown_ReturningWorker d => departure_ok c d
  | Shutdown_ReturningWorkerStart k d _ => departure_ok c d /\ kind_ok k (attempt (stopping_worker d))
  | Shutdown_ReturningPredecessor d replaces _ => departure_ok c d /\ replaces = attempt (stopping_worker d)
  | Shutdown_ReturningSuccessor replaces p d _ =>
      departure_ok c d /\ earlier (attempt_creation replaces) (attempt_creation (attempt (stopping_worker d))) /\
      match p with
      | Return_Awaiting i => i = shutdown_of replaces
      | Return_Returned r => resolved_id r = shutdown_of replaces
      end
  | Shutdown_Initializing k (InitDeparting _ d) => departure_ok c d /\ kind_ok k (attempt (stopping_worker d))
  | Shutdown_Initializing k (WaitingForInitialization w r s) =>
      current_ok c w /\ kind_ok k (attempt w) /\ resolution_ok (attempt w) r /\ stop_ok (attempt w) (Some s)
  | Shutdown_Starting k (StartupDeparting s d) =>
      departure_ok c d /\ kind_ok k (attempt (stopping_worker d)) /\
      match s with Startup_Pending p => progress_ok (stopping_worker d) p | Startup_Returned _ => True end
  | Shutdown_Starting k (WaitingForStartup p w r s) =>
      current_ok c w /\ kind_ok k (attempt w) /\ progress_ok w p /\ resolution_ok (attempt w) r /\
      stop_ok (attempt w) (Some s)
  | Shutdown_WaitingForPredecessor replaces i _ => i = shutdown_of replaces
  end.

Definition state_ok (c : CreationSequence) (s : ProxyState) : Prop :=
  match s with
  | State_Dormant | State_EmptyInitial | State_Stopped _ => True
  | State_Starting start => start_ok c (start_kind start) (start_phase start)
  | State_Ready w => current_ok c w
  | State_EmptyAfter previous => issued_before c (attempt_creation previous)
  | State_Replacing r => replacement_ok c r
  | State_ShuttingDown s => proxy_shutdown_ok c s
  end.

Definition proxy_ok (p : StableProxy) : Prop := state_ok (creations p) (state p).

(** A report comes from the request it resolves. *)
Definition event_ok (e : ProxyEvent) : Prop :=
  match e with WorkerInitialization r => report_ok r | _ => True end.

Lemma earlier_issued c i j : earlier i j -> issued_before c j -> issued_before c i.
Proof. unfold earlier, issued_before. intros ? H v Hv. specialize (H v Hv). lia. Qed.

Lemma kind_issued c k a replaces p :
  k = Kind_Replacement replaces p -> kind_ok k a -> issued_before c (attempt_creation a) ->
  issued_before c (attempt_creation replaces).
Proof. intros -> [? _]. by apply earlier_issued. Qed.

End ProxyWellFormed.

#[export] Hint Resolve earlier_issued : bombay.

(** Hypotheses of the well-formedness predicates, in normal form. *)
Ltac proxy_ok_unfold :=
  unfold proxy_shutdown_ok, replacement_ok, completion_ok, start_ok, departure_ok, pending_ok,
    progress_ok, kind_ok, current_ok, stop_ok, resolution_ok in *;
  simpl in *; destruct_and?;
  repeat match goal with H : exists _, _ |- _ => destruct H end; destruct_and?; simplify_eq/=.

Ltac proxy_ok_rewrite :=
  repeat match goal with
  | H : issue _ = _ |- _ => apply issue_spec in H as [? ?]
  | H : bool_decide _ = true |- _ => apply bool_decide_eq_true_1 in H
  | H : attempt _ = pending_attempt _ |- _ => rewrite H in *; clear H
  | H : initialization _ = pending_initialization _ |- _ => rewrite H in *; clear H
  | H : stopping_shutdown ?d = _ |- _ => rewrite H in *; clear H
  | H : stopping_stopped ?d = _ |- _ => rewrite H in *; clear H
  end; simplify_eq/=; destruct_and?; simplify_eq/=.

Section ProxyPreservation.
  Context `{WT : WorkerTypes}.

Lemma proxy_ok_step n p e :
  proxy_ok p -> event_ok e -> proxy_ok (accept p e n).2.1.
Proof.
  destruct p as [st c]. unfold proxy_ok. destruct e; proxy_unfold; cbn [state creations];
    destruct st; intros Hp He; proxy_cases; try exact I;
    proxy_ok_unfold; proxy_ok_rewrite; try done.
  all: split_and?; eauto with bombay; try congruence; try solve [naive_solver congruence].
  destruct start_phase; naive_solver.
Qed.

Lemma transition_accept s e :
  transition s e = (((accept s.2 e s.1).1, (accept s.2 e s.1).2.1), Ok (accept s.2 e s.1).2.2).
Proof. unfold transition. by destruct (accept s.2 e s.1) as [n [p a]]. Qed.

Lemma proxy_well_formed_run n es :
  Forall event_ok es -> proxy_ok (trace transition (n, new) es).1.2.
Proof.
  intros Hes. enough (H : forall s, proxy_ok s.2 -> proxy_ok (trace transition s es).1.2).
  { by apply H. }
  induction Hes as [|e es He Hes IH]; intros s Hs; [done|]. cbn [trace].
  apply proxy_ok_step with (n := s.1) (e := e) in Hs; [|done].
  rewrite transition_accept. specialize (IH ((accept s.2 e s.1).1, (accept s.2 e s.1).2.1) Hs).
  by destruct (trace transition _ es).
Qed.

(** C25. The correlations held by a proxy fit together in every reachable state:
    each worker's initialization and startup grant are its own, a departure
    waits for the shutdown and the stop of its own worker, or for one of them, a held stop or
    resolution belongs to the worker beside it, a pending creation asks for the
    kind its start has, a successor is younger than what it replaces, its
    retained creation is the one that was announced, and no correlation is one
    that the creation sequence can issue again. *)
Theorem proxy_well_formed n es :
  Forall event_ok es -> proxy_ok (trace transition (n, new) es).1.2.
Proof. apply proxy_well_formed_run. Qed.

End ProxyPreservation.

(** ** A concrete proxy: start, serve, replace, and shut down while the
    successor's creation is pending *)

Definition demo_types : WorkerTypes := {|
  Worker := nat; WorkerError := nat; WorkerChild := nat; WorkerPhase := nat; WorkerSends := nat;
  Addr := nat; Msg := nat; Nonce := nat; Installed := nat; Endpoint := nat;
  Plan := nat; Ready := nat; Rejection := nat; worker_endpoint := fun i => i
|}.

#[local] Existing Instance demo_types.

Definition demo_id (n : N) : CreationId := Build_CreationId n.
Definition demo_attempt (n : N) (token : Token) : WorkerAttempt := mkAttempt (demo_id n) token.

(** The worker numbered [n], whose attempt and initialization got the tokens
    [t] and [t + 1], is established, initialized and started with grant [g]. *)
Definition demo_established (n : N) (k : CreationKind) : ProxyEvent :=
  WorkerCreationsSettled (Creation_Settled (Creations_one
    (Attempted (Settlement.Accepted (Outcome_Established (mkCommitted (demo_id n) k (actor_issued 7))))))).

Definition demo_initialized (n : N) (t : Token) : ProxyEvent :=
  WorkerInitialization (initialize_resolve
    (mkInitialize (demo_attempt n t) (mkInitialization (demo_attempt n t) (S t)) (issued 7) 5)
    Outcome_ReadyForStartup).

Definition demo_grant (n : N) (t g : Token) : WorkerStartupGrant := mkGrant (demo_attempt n t) g.

Definition demo_started (n : N) (t g : Token) : ProxyEvent :=
  WorkerStartupReported (mkStartup (demo_attempt n t) (demo_grant n t g) Startup_Started).

Definition demo_ready (n : N) (t g : Token) : ProxyEvent :=
  WorkerStartupReported (grant_resolve (demo_grant n t g) (Ok 9)).

Definition demo_stopped (n : N) : ProxyEvent := WorkerStopped (mkChildStopped (demo_id n) (Ok Normal) 0%N).
Definition demo_resolved (n : N) : ProxyEvent := WorkerShutdownResolved (ShutdownAccepted (mkShutdownId n)).

Definition demo_serving : list ProxyEvent :=
  [Owner (control_start_with 3 5); demo_established 1 Birth; demo_initialized 1 0; demo_started 1 0 2;
   demo_ready 1 0 2; Service (mkUser 1 42)].

Definition demo_replacing : list ProxyEvent := demo_serving ++ [Owner (control_replace_with 4 6); demo_stopped 1].

Definition demo_after (es : list ProxyEvent) : StableProxy := (trace transition (0, new) es).1.2.

Example demo_serving_ready : phase (state (demo_after demo_serving)) = Phase_Ready.
Proof. reflexivity. Qed.

Example demo_replacing_creating : phase (state (demo_after demo_replacing)) = Phase_Creating.
Proof. reflexivity. Qed.

Lemma proxy_well_formed_witness :
  Forall event_ok demo_replacing /\ proxy_ok (demo_after demo_replacing).
Proof.
  assert (H : Forall event_ok demo_replacing) by (repeat constructor).
  split; [exact H|exact (proxy_well_formed 0 demo_replacing H)].
Defined.

Section ProxyCustody.
  Context `{WT : WorkerTypes}.

Abbreviation goods := (list (Worker + Plan)).
Abbreviation acted := (Acted (StopOnShutdown Worker) Never ProxyEffects Never).

(** ** What each value owns *)

Definition rejection_goods (j : WorkerCreationRejection Worker WorkerError HostedInitialization) : goods :=
  match j with
  | WorkerUnavailable _ _ => []
  | NamespaceExhausted w | WorkerRejected w _ | WorkerPanicked w | CreationRejected w _
  | InterpreterCorrupt w _ | InterpretationSkipped w => [inl w]
  | HostRejected recovery _ => [inl (recovered_worker recovery)]
  end.

Definition drain_goods (d : ProxyDrain) : goods :=
  match d with
  | Drain_InitializationRejected _ p _ _ | Drain_InitializationStopped p _ _
  | Drain_InitializationCompleted _ p _ => [inr p]
  | Drain_StartupRefused request _ _ _ => [inr (start_plan request)]
  | Drain_StartupRejected _ _ _ | Drain_StartupCompleted _ _ => []
  end.

Definition result_goods (r : WorkerStartResult) : goods :=
  match r with
  | Result_CreationRejected j p _ => rejection_goods j ++ [inr p]
  | Result_Ready _ _ => []
  | Result_Unavailable _ d => drain_goods d
  end.

Definition outcome_goods (o : ProxyOutcome) : goods :=
  match o with
  | Outcome_Initial (Initial_Overlap w p _) | Outcome_Initial (Initial_AttemptsExhausted w p)
  | Outcome_Replacement (Replacement_NotReplaceable w p _)
  | Outcome_Replacement (Replacement_AttemptsExhausted _ w p)
  | Outcome_Replacement (Replacement_CancelledBeforeBirth _ w p) => [inl w; inr p]
  | Outcome_Initial (Initial_Resolved r) | Outcome_Replacement (Replacement_Resolved _ r) => result_goods r
  | Outcome_WorkerStopped _ _ | Outcome_ServiceUnavailable _ _ _ => []
  end.

Definition report_goods (r : WorkerInitializationReport) : goods :=
  match r with ReadyForStartup _ _ p _ | EffectsRejected _ _ p _ | InitializationStopped _ _ p _ => [inr p] end.

Definition startup_goods (s : WorkerStartupOutcome) : goods :=
  match s with StartRejected request _ => [inr (start_plan request)] | _ => [] end.

Definition routed_worker (r : RoutedCreation Nonce (StopOnShutdown Worker)) : goods :=
  [inl (into_inner (child (creation r)))].

Definition creation_goods (c : CreateChild (StopOnShutdown Worker)) : goods := [inl (into_inner (child c))].

Definition settlement_goods (s : WorkerCreationSettlement Nonce Worker WorkerError HostedInitialization Installed) : goods :=
  match s with
  | Attempted (Settlement.Accepted (Outcome_Established _))
  | Attempted (Settlement.Accepted (Outcome_Unavailable _ _)) => []
  | Attempted (Settlement.Accepted (InitializationRejected r _))
  | Attempted (Settlement.Accepted (InitializationPanicked r))
  | Attempted (Settlement.Accepted (Outcome_HostRejected r _ _))
  | Attempted (Rejected r _) | Attempted (Corrupt r _) | Unattempted r => routed_worker r
  | Attempted (Blocked _ prerequisite) => match prerequisite with end
  end.

Definition settled_goods
  (ws : CreationsSettled Nonce (StopOnShutdown Worker) WorkerError HostedInitialization Installed) : goods :=
  match ws with
  | Creation_Settled s => items s ≫= settlement_goods
  | Creation_Rejected c _ | Creation_Corrupt c _ => items c ≫= creation_goods
  end.

Definition diagnostic_goods (d : ProxyDiagnostic) : goods :=
  match d with
  | UnexpectedWorkerStart _ ws => settled_goods ws
  | UnexpectedWorkerInitialization _ i => report_goods i
  | UnexpectedWorkerStartup _ s => startup_goods (startup_outcome s)
  | UnexpectedWorkerStop _ _ | UnexpectedWorkerShutdown _ _ => []
  end.

(** What an event brings, what an action takes away. *)
Definition event_goods (e : ProxyEvent) : goods :=
  match e with
  | Owner (mkControl (Command_Start s)) | Owner (mkControl (Command_Replace s)) =>
      [inl (worker s); inr (startup s)]
  | WorkerCreationsSettled ws => settled_goods ws
  | WorkerInitialization i => report_goods i
  | WorkerStartupReported s => startup_goods (startup_outcome s)
  | _ => []
  end.

Definition action_goods (a : ProxyActions) : goods :=
  (items (creates a) ≫= creation_goods) ++
  ((fun r => inr (initialize_startup r)) <$> requests (worker_initializations (sends a))) ++
  ((fun r => inr (start_plan r)) <$> requests (worker_startups (sends a))) ++
  (requests (owner_outcomes (sends a)) ≫= outcome_goods) ++
  (diagnosed a ≫= diagnostic_goods).

Definition failure_goods (f : PreReadyFailure) : goods :=
  match f with
  | Failure_InitializationEffects _ p => [inr p]
  | Failure_StartupRefused request _ => [inr (start_plan request)]
  | Failure_StartupRejected _ => []
  end.

Definition phase_goods (p : WorkerStartPhase) : goods :=
  match p with
  | Creating w _ => [inr (pending_startup w)]
  | Initializing _ _ | Starting _ _ _ => []
  | ReturningWorker _ f => failure_goods f
  end.

Definition completion_goods (c : ReplacementCompletion) : goods :=
  match c with Completion_Ready _ r | Completion_ReadyAfterStop _ r _ | Completion_Empty _ r => result_goods r end.

Definition init_retired_goods (i : WorkerInitializationRetirement) : goods :=
  match i with InitRetired_Initialized _ p | InitRetired_EffectsRejected _ p | InitRetired_Stopped p _ => [inr p] end.

Definition startup_retired_goods (s : WorkerStartupRetirement) : goods :=
  match s with StartupRetired_StartRejected request _ => [inr (start_plan request)] | _ => [] end.

Definition start_retired_goods (r : WorkerStartRetirement) : goods :=
  match r with
  | Retired_Result r | Retired_ReadyWorker r _ => result_goods r
  | Retired_Initialization i _ _ _ => init_retired_goods i
  | Retired_Startup s _ _ _ => startup_retired_goods s
  | Retired_ReplacementCompletion c => completion_goods c
  end.

Definition shutdown_goods (s : ProxyShutdown) : goods :=
  match s with
  | Shutdown_WaitingForCreation start => phase_goods (start_phase start)
  | Shutdown_ReturningWorker _ | Shutdown_ReturningPredecessor _ _ _ => []
  | Shutdown_ReturningWorkerStart _ _ f => failure_goods f
  | Shutdown_ReturningSuccessor _ _ _ r => result_goods r
  | Shutdown_Initializing _ (InitDeparting (Some i) _) => init_retired_goods i
  | Shutdown_Initializing _ _ => []
  | Shutdown_Starting _ (StartupDeparting (Startup_Returned s) _) => startup_retired_goods s
  | Shutdown_Starting _ _ => []
  | Shutdown_WaitingForPredecessor _ _ r => start_retired_goods r
  end.

Definition state_goods (s : ProxyState) : goods :=
  match s with
  | State_Dormant | State_Ready _ | State_EmptyInitial | State_EmptyAfter _ => []
  | State_Starting start => phase_goods (start_phase start)
  | State_Replacing (ReturningPredecessor _ successor c) => creation_goods c ++ [inr (pending_startup successor)]
  | State_Replacing (SuccessorResultAwaitingShutdown _ _ c) => completion_goods c
  | State_ShuttingDown s => shutdown_goods s
  | State_Stopped (Retirement_WorkerStart _ r) | State_Stopped (Retirement_ReplacementAfterPredecessor _ _ r) =>
      start_retired_goods r
  | State_Stopped _ => []
  end.

(** ** A settled creation returns its worker or commits it *)

Lemma settle_goods s j :
  settle_worker_creation s = WorkerCreation_Rejected j -> settlement_goods s = rejection_goods j.
Proof.
  unfold settle_worker_creation, settlement_goods. intros H.
  by repeat split_match_in H; simplify_eq/=.
Qed.

Lemma settle_established s a :
  settle_worker_creation s = WorkerEstablished a -> settlement_goods s = [].
Proof.
  unfold settle_worker_creation, settlement_goods. intros H. by repeat split_match_in H; simplify_eq/=.
Qed.

Lemma created_goods p ws stopped r :
  created p ws stopped = r ->
  match r with
  | Creation_Initializing _ _ _ => settled_goods ws = []
  | Creation_RejectedWorker j _ _ => settled_goods ws = rejection_goods j
  | Creation_Unexpected _ _ _ => True
  end.
Proof.
  intros <-. unfold created, created_one, admit_creation. repeat split_match; try done;
    repeat match goal with H : into_one _ = _ |- _ => apply into_one_inv in H end; simplify_eq/=;
    rewrite ?app_nil_r; eauto using settle_goods, settle_established.
Qed.

Ltac custody_read :=
  match goal with
  | H : created _ _ _ = _ |- _ =>
      let G := fresh "Hgoods" in
      pose proof (created_goods _ _ _ _ H) as G; simpl in G;
      first [apply created_unexpected in H as (? & ? & ?) | apply created_initializing in H as (? & ? & ? & ?)
            | apply created_rejected in H as (? & ?)];
      simplify_eq
  end.

Ltac custody_cases :=
  repeat (first [case_match | progress simplify_eq/= | custody_read | proxy_read]).

Lemma return_goods w f r stopped : result_goods (worker_return_result w f r stopped) = failure_goods f.
Proof. by destruct f. Qed.

Lemma custody_step n p e :
  let '(_, (p', a)) := accept p e n in
  action_goods a ++ state_goods (state p') ≡ₚ state_goods (state p) ++ event_goods e.
Proof.
  destruct p as [st c]. destruct e; proxy_unfold; cbn [state creations];
    destruct st; custody_cases.
  all: unfold action_goods, diagnosed, startup_goods; simpl; rewrite ?app_nil_r, ?return_goods;
    try match goal with H : settled_goods _ = _ |- _ => rewrite H end;
    try match goal with H : startup_outcome _ = _ |- _ => rewrite H end; simpl;
    rewrite ?app_nil_r, ?return_goods;
    first [reflexivity | apply Permutation_app_comm | apply (Permutation_app_comm [_; _])
          | apply (Permutation_app_comm [_; _] [_; _])].
Qed.

(** What a run takes from its events and hands out in its actions. *)
Definition taken_goods (e : ProxyEvent) (_ : acted) : goods := event_goods e.
Definition given_goods (_ : ProxyEvent) (o : acted) : goods := action_goods (ok_actions o).

(** C21. No worker definition and no startup plan is lost or duplicated: over any
    run, those handed out (in creations, initialization and startup requests,
    outcomes and diagnostics) together with those the proxy still holds are
    those that entered with submissions and returned results. *)
Theorem proxy_custody_conserved n es :
  let '((_, p), os) := trace transition (n, new) es in
  collect given_goods es os ++ state_goods (state p) ≡ₚ collect taken_goods es os.
Proof.
  assert (Hstep : forall s e, True ->
    given_goods e (transition s e).2 ++ state_goods (state (transition s e).1.2) ≡ₚ
      state_goods (state s.2) ++ taken_goods e (transition s e).2).
  { intros s e _. pose proof (custody_step s.1 s.2 e) as Hs. rewrite transition_accept.
    by destruct (accept s.2 e s.1) as [n' [p' a]]. }
  pose proof (trace_multiset_law (fun _ => True) transition (fun s => state_goods (state s.2)) _ _
    (fun _ _ _ => I) Hstep es (n, new) I) as H. by destruct (trace transition (n, new) es) as [[n' p] os].
Qed.

(** ** Submissions and their answers *)

Inductive submission_kind : Type := Initial_submission | Replacement_submission.

Definition event_submissions (e : ProxyEvent) (_ : acted) : list submission_kind :=
  match e with
  | Owner (mkControl (Command_Start _)) => [Initial_submission]
  | Owner (mkControl (Command_Replace _)) => [Replacement_submission]
  | _ => []
  end.

Definition outcome_answer (o : ProxyOutcome) : list submission_kind :=
  match o with
  | Outcome_Initial _ => [Initial_submission]
  | Outcome_Replacement _ => [Replacement_submission]
  | _ => []
  end.

Definition submission_answers (_ : ProxyEvent) (o : acted) : list submission_kind :=
  requests (owner_outcomes (sends (ok_actions o))) ≫= outcome_answer.

Definition kind_submission (k : WorkerStartKind) : list submission_kind :=
  match k with Kind_Initial => [Initial_submission] | Kind_Replacement _ _ => [Replacement_submission] end.

(** The submission whose result the proxy still holds. *)
Definition unanswered (s : ProxyState) : list submission_kind :=
  match s with
  | State_Starting start => kind_submission (start_kind start)
  | State_Replacing _ => [Replacement_submission]
  | State_ShuttingDown s =>
      match s with
      | Shutdown_WaitingForCreation start => kind_submission (start_kind start)
      | Shutdown_ReturningWorker _ | Shutdown_ReturningPredecessor _ _ _ => []
      | Shutdown_ReturningWorkerStart k _ _ | Shutdown_Initializing k _ | Shutdown_Starting k _ => kind_submission k
      | Shutdown_ReturningSuccessor _ _ _ _ | Shutdown_WaitingForPredecessor _ _ _ => [Replacement_submission]
      end
  | State_Stopped (Retirement_WorkerStart None _) => [Initial_submission]
  | State_Stopped (Retirement_WorkerStart (Some _) _)
  | State_Stopped (Retirement_ReplacementAfterPredecessor _ _ _) => [Replacement_submission]
  | _ => []
  end.

Lemma answers_step n p e :
  let '(_, (p', a)) := accept p e n in
  submission_answers e (Ok a) ++ unanswered (state p') ≡ₚ unanswered (state p) ++ event_submissions e (Ok a).
Proof.
  destruct p as [st c]. destruct e; proxy_unfold; cbn [state creations]; destruct st; proxy_cases;
    unfold submission_answers; simpl; rewrite ?app_nil_r;
    first [reflexivity | apply Permutation_app_comm | apply (Permutation_app_comm [_])
          | apply (Permutation_app_comm [_] [_])].
Qed.

Lemma unanswered_le s : length (unanswered s) <= 1.
Proof. unfold unanswered, kind_submission. repeat case_match; simpl; lia. Qed.

(** C22. Every submission is answered exactly once, with the outcome of its own
    kind: over any run the outcomes reported and the at most one submission
    still in progress (or retained by the stopped proxy) are the submissions. *)
Theorem proxy_submissions_answered n es :
  let '((_, p), os) := trace transition (n, new) es in
  collect submission_answers es os ++ unanswered (state p) ≡ₚ collect event_submissions es os /\
  length (unanswered (state p)) <= 1.
Proof.
  assert (Hstep : forall s e, True ->
    submission_answers e (transition s e).2 ++ unanswered (state (transition s e).1.2) ≡ₚ
      unanswered (state s.2) ++ event_submissions e (transition s e).2).
  { intros s e _. pose proof (answers_step s.1 s.2 e) as Hs. rewrite transition_accept.
    by destruct (accept s.2 e s.1) as [n' [p' a]]. }
  pose proof (trace_multiset_law (fun _ => True) transition (fun s => unanswered (state s.2)) _ _
    (fun _ _ _ => I) Hstep es (n, new) I) as H. destruct (trace transition (n, new) es) as [[n' p] os].
  split; [exact H|apply unanswered_le].
Qed.

End ProxyCustody.
