(* ===== verification/ProxySafety.v ===== *)
(** * One worker at a time, and retirement

    A stable proxy creates a worker only after every earlier one is gone, and
    addresses no other; a shutdown progresses with every input it takes.  After
    an owner's shutdown a bounded number of inputs is taken, no worker is
    created and no command delivered, and the proxy can always be brought to its
    stop.  The last part is about the settlement of a replaced worker's shutdown
    that arrives while its successor retires. *)

From stdpp Require Import base list option numbers.
From S2P Require Import Prelude Effects Timers Restart Termination Settlement Interpretation Creation Workers.
From S2P Require Import WorkerPreparation WorkerStartup ProxyWorker ProxyState StableProxy ProxyTransition.
From S2P Require Import ProxyInvariant.

Section ProxyOccupancy.
  Context `{WT : WorkerTypes}.

Abbreviation acted := (Acted (StopOnShutdown Worker) Never ProxyEffects Never).
Abbreviation workers_settled :=
  (CreationsSettled Nonce (StopOnShutdown Worker) WorkerError HostedInitialization Installed).

(** ** The worker that may be alive *)

Definition unless_stopped (stopped : option (ChildStopped Addr)) (a : WorkerAttempt) : option CreationId :=
  match stopped with Some _ => None | None => Some (attempt_creation a) end.

Definition departing_occupant (d : WorkerStopping) : option CreationId :=
  unless_stopped (stopping_stopped d) (attempt (stopping_worker d)).

Definition start_occupant (p : WorkerStartPhase) : option CreationId :=
  match p with
  | Creating w stopped => unless_stopped stopped (pending_attempt w)
  | Initializing w stopped | Starting w _ stopped => unless_stopped stopped (attempt w)
  | ReturningWorker d _ => departing_occupant d
  end.

Definition occupant (s : ProxyState) : option CreationId :=
  match s with
  | State_Starting start => start_occupant (start_phase start)
  | State_Ready w => Some (attempt_creation (attempt w))
  | State_Replacing (ReturningPredecessor d _ _) => departing_occupant d
  | State_Replacing (SuccessorResultAwaitingShutdown _ _ (Completion_Ready w _)) =>
      Some (attempt_creation (attempt w))
  | State_ShuttingDown s =>
      match s with
      | Shutdown_WaitingForCreation start => start_occupant (start_phase start)
      | Shutdown_ReturningWorker d | Shutdown_ReturningWorkerStart _ d _
      | Shutdown_ReturningPredecessor d _ _ | Shutdown_ReturningSuccessor _ _ d _
      | Shutdown_Initializing _ (InitDeparting _ d) | Shutdown_Starting _ (StartupDeparting _ d) =>
          departing_occupant d
      | _ => None
      end
  | _ => None
  end.

(** ** Evidence that a worker is gone: its stop, or a creation that did not
    commit it *)

Definition uncommitted (ws : workers_settled) (i : CreationId) : Prop :=
  match ws with
  | Creation_Rejected cs _ => exists c, items cs = [c] /\ id c = i
  | Creation_Settled ss =>
      exists s j, items ss = [s] /\ (identity s).1 = i /\ settle_worker_creation s = WorkerCreation_Rejected j
  | Creation_Corrupt _ _ => False
  end.

Definition departs (e : ProxyEvent) (i : CreationId) : Prop :=
  match e with
  | WorkerStopped s | WorkerInitialization (InitializationStopped _ _ _ s) => stopped_child s = i
  | WorkerCreationsSettled ws => uncommitted ws i
  | _ => False
  end.

Lemma created_uncommitted p ws stopped j plan stopped' :
  created p ws stopped = Creation_RejectedWorker j plan stopped' -> uncommitted ws (pending_creation p).
Proof.
  unfold created, created_one, admit_creation, uncommitted. intros H. repeat split_match_in H; simplify_eq/=;
    repeat match goal with
    | H : into_one _ = _ |- _ => apply into_one_inv in H; subst
    | H : bool_decide _ = false |- _ => apply bool_decide_eq_false_1, dec_stable in H
    | H : bool_decide _ = true |- _ => apply bool_decide_eq_true_1 in H
    end; simplify_eq/=.
  - eexists _, _. split; [reflexivity|]. by match goal with H : identity _ = _ |- _ => rewrite H end.
  - eauto.
Qed.

Definition created_ids (a : ProxyActions) : list CreationId := id <$> items (creates a).

(** One step keeps its occupant, loses it on evidence, or takes a new one when
    there is none left. *)
Definition occupancy (o : option CreationId) (e : ProxyEvent) (o' : option CreationId) (ids : list CreationId) : Prop :=
  (ids = [] /\ (o' = o \/ o' = None /\ exists i, o = Some i /\ departs e i)) \/
  (exists j, ids = [j] /\ o' = Some j /\ (o = None \/ exists i, o = Some i /\ departs e i)).

End ProxyOccupancy.

Ltac occupancy_read :=
  match goal with
  | H : created _ _ _ = Creation_RejectedWorker _ _ _ |- _ =>
      let G := fresh "Hgone" in
      pose proof (created_uncommitted _ _ _ _ _ _ H) as G; apply created_rejected in H as (? & ?); simplify_eq
  end.

Section ProxyOccupancySteps.
  Context `{WT : WorkerTypes}.

Abbreviation acted := (Acted (StopOnShutdown Worker) Never ProxyEffects Never).

Lemma occupancy_same o e : occupancy o e o [].
Proof. left. auto. Qed.
Lemma occupancy_gone i e : departs e i -> occupancy (Some i) e None [].
Proof. left. split; [done|]. right. eauto. Qed.
Lemma occupancy_new j e : occupancy None e (Some j) [j].
Proof. right. eauto. Qed.
Lemma occupancy_swap i j e : departs e i -> occupancy (Some i) e (Some j) [j].
Proof. right. exists j. split; [done|]. split; [done|]. right. eauto. Qed.

Lemma occupancy_step n p e :
  proxy_ok p ->
  let '(_, (p', a)) := accept p e n in
  occupancy (occupant (state p)) e (occupant (state p')) (created_ids a).
Proof.
  destruct p as [st c]. unfold proxy_ok, created_ids. destruct e; proxy_unfold; cbn [state creations];
    destruct st; intros Hp;
    repeat (first [case_match | progress simplify_eq/= | occupancy_read | proxy_read]).
  all: unfold occupant, departing_occupant, start_occupant, unless_stopped in *; simpl in *;
    try solve [left; split; [done|]; left; congruence];
    proxy_ok_unfold;
    repeat match goal with
    | H : stopping_stopped _ = _ |- _ => rewrite H in *; clear H
    | H : attempt _ = pending_attempt _ |- _ => rewrite H in *; clear H
    | H : id _ = _ |- _ => rewrite H; clear H
    | |- context [match ?x with Some _ => None | None => _ end] => destruct x; simplify_eq/=
    end;
    first [apply occupancy_same | apply occupancy_new | by apply occupancy_gone | by apply occupancy_swap].
Qed.

(** The worker most recently announced by a live state. *)
Definition newest (s : ProxyState) : option CreationId :=
  match s with
  | State_Starting start =>
      match start_phase start with
      | Creating w _ => Some (attempt_creation (pending_attempt w))
      | Initializing w _ | Starting w _ _ => Some (attempt_creation (attempt w))
      | ReturningWorker d _ => Some (attempt_creation (attempt (stopping_worker d)))
      end
  | State_Ready w => Some (attempt_creation (attempt w))
  | State_Replacing (ReturningPredecessor d _ _) => Some (attempt_creation (attempt (stopping_worker d)))
  | State_Replacing (SuccessorResultAwaitingShutdown _ _ (Completion_Ready w _)) =>
      Some (attempt_creation (attempt w))
  | _ => None
  end.

Definition ageing (p : StableProxy) (p' : StableProxy) (ids : list CreationId) : Prop :=
  (forall i, issued_before (creations p) i -> issued_before (creations p') i) /\
  ((ids = [] /\ (newest (state p') = None \/ newest (state p') = newest (state p))) \/
   exists j, ids = [j] /\ newest (state p') = Some j /\ issued_before (creations p') j /\
     match newest (state p) with
     | Some i => earlier i j
     | None => forall i, issued_before (creations p) i -> earlier i j
     end).

Lemma ageing_step n p e :
  proxy_ok p -> let '(_, (p', a)) := accept p e n in ageing p p' (created_ids a).
Proof.
  destruct p as [st c]. unfold proxy_ok, created_ids. destruct e; proxy_unfold; cbn [state creations];
    destruct st; intros Hp;
    repeat (first [case_match | progress simplify_eq/= | occupancy_read | proxy_read]).
  all: unfold ageing, newest in *; simpl in *; (split; [try done|]);
    try solve [left; split; [done|]; auto].
  all: proxy_ok_unfold; proxy_ok_rewrite; auto.
  all: repeat match goal with H : id _ = attempt_creation _ |- _ => rewrite H in *; clear H end.
  all: first [by left; auto | right; eexists; repeat split; by eauto].
Qed.

(** ** Runs *)

Definition created_in (_ : ProxyEvent) (o : acted) : list CreationId := created_ids (ok_actions o).

(** What the workers [ids] created during the events [past] have become. *)
Record history (s : nat * StableProxy) (ids : list CreationId) (past : list ProxyEvent) : Prop := {
  history_ok : proxy_ok s.2;
  history_issued : Forall (issued_before (creations s.2)) ids;
  history_newest : forall k, newest (state s.2) = Some k -> Forall (fun i => i = k \/ earlier i k) ids;
  history_gone : forall i, i ∈ ids -> occupant (state s.2) = Some i \/ exists e, e ∈ past /\ departs e i
}.

Lemma earlier_trans i j k : earlier i j -> earlier j k -> earlier i k.
Proof. unfold earlier. lia. Qed.

(** The next creation finds every earlier worker gone, and is younger. *)
Lemma proxy_history_creation s ids past e j :
  history s ids past -> created_ids (accept s.2 e s.1).2.2 = [j] ->
  forall i, i ∈ ids -> earlier i j /\ exists e', e' ∈ past ++ [e] /\ departs e' i.
Proof.
  intros [Hok Hissued Hnew Hgone] Hj i Hi.
  pose proof (ageing_step s.1 s.2 e Hok) as Ha. pose proof (occupancy_step s.1 s.2 e Hok) as Ho.
  destruct (accept s.2 e s.1) as [n' [p' a]]. cbn in Hj. rewrite Hj in Ha, Ho. split.
  - destruct Ha as [_ [[? _]|(j' & [= <-] & _ & _ & Hage)]]; [done|].
    rewrite list.Forall_forall in Hissued. destruct (newest (state s.2)) as [k|] eqn:Hk; [|auto].
    specialize (Hnew k eq_refl). rewrite list.Forall_forall in Hnew.
    destruct (Hnew i Hi) as [->|?]; eauto using earlier_trans.
  - destruct (Hgone i Hi) as [Hocc|(e' & ? & ?)]; [|exists e'; rewrite elem_of_app; auto].
    destruct Ho as [[? _]|(j' & _ & _ & [Hn|(i' & Hi' & Hd)])]; [done|congruence|].
    exists e. rewrite elem_of_app, list_elem_of_singleton. rewrite Hocc in Hi'. simplify_eq. auto.
Qed.

Lemma proxy_history_step s ids past e :
  history s ids past -> event_ok e ->
  history ((accept s.2 e s.1).1, (accept s.2 e s.1).2.1)
    (ids ++ created_ids (accept s.2 e s.1).2.2) (past ++ [e]).
Proof.
  intros Hh He. pose proof (proxy_history_creation s ids past e) as Hnext.
  pose proof (proxy_ok_step s.1 s.2 e (history_ok _ _ _ Hh) He) as Hok'.
  pose proof (ageing_step s.1 s.2 e (history_ok _ _ _ Hh)) as Ha.
  pose proof (occupancy_step s.1 s.2 e (history_ok _ _ _ Hh)) as Ho.
  destruct (accept s.2 e s.1) as [n' [p' a]]. cbn in *.
  destruct Ha as [Hmono [[Hids Hn]|(j & Hids & Hn & Hj & _)]]; rewrite Hids in *.
  - rewrite app_nil_r. destruct Hh as [Hok Hissued Hnew Hgone]. split; [done| | |]; cbn.
    + by eapply Forall_impl.
    + intros k Hk. apply Hnew. by destruct Hn as [Hn|Hn]; rewrite Hn in Hk.
    + intros i Hi. destruct (Hgone i Hi) as [Hocc|(e' & ? & ?)]; [|right; exists e'; rewrite elem_of_app; auto].
      destruct Ho as [[_ [Ho|(Ho & i' & Hi' & Hd)]]|(j & ? & _)]; [left; congruence| |done].
      right. exists e. rewrite elem_of_app, list_elem_of_singleton. rewrite Hocc in Hi'. simplify_eq. auto.
  - specialize (Hnext j Hh eq_refl). destruct Hh as [Hok Hissued Hnew Hgone]. split; [done| | |]; cbn.
    + apply Forall_app. split; [by eapply Forall_impl|by constructor].
    + rewrite Hn. intros k [= <-]. apply Forall_app. split; [|by repeat constructor].
      apply list.Forall_forall. intros i Hi. right. by apply Hnext.
    + intros i [Hi| ->%list_elem_of_singleton]%elem_of_app; [right; by apply Hnext|].
      left. by destruct Ho as [[? _]|(j' & [= <-] & -> & _)].
Qed.

Lemma proxy_history_run es s ids past :
  history s ids past -> Forall event_ok es ->
  history (trace transition s es).1 (ids ++ collect created_in es (trace transition s es).2) (past ++ es).
Proof.
  revert s ids past. induction es as [|e es IH]; intros s ids past Hs Hes.
  { cbn. by rewrite !app_nil_r. }
  apply list.Forall_cons in Hes as [He Hes]. apply proxy_history_step with (e := e) in Hs; [|done].
  specialize (IH _ _ _ Hs Hes). cbn [trace]. rewrite transition_accept.
  destruct (trace transition _ es) as [s' os]. cbn in *. by rewrite <- !app_assoc in IH.
Qed.

(** C3. At most one worker at a time: whenever a step creates a worker, it
    creates just one, younger than every worker created before, and for each of
    those the proxy has received its stop, or a settlement by which its
    creation did not commit. *)
Theorem proxy_single_worker n es e :
  Forall event_ok es ->
  let '(s, os) := trace transition (n, new) es in
  let created := created_ids (accept s.2 e s.1).2.2 in
  created = [] \/
  exists j, created = [j] /\
    forall i, i ∈ collect created_in es os -> earlier i j /\ exists e', e' ∈ es ++ [e] /\ departs e' i.
Proof.
  intros Hes. pose proof (proxy_history_run es (n, new) [] []) as H. cbn in H.
  destruct (trace transition (n, new) es) as [s os]. cbn in *.
  assert (Hh : history s (collect created_in es os) es).
  { apply H; [|done]. split; cbn; [done|constructor|done|]. by intros i ?%not_elem_of_nil. }
  pose proof (occupancy_step s.1 s.2 e (history_ok _ _ _ Hh)) as Ho.
  pose proof (fun j => proxy_history_creation s _ es e j Hh) as Hc.
  destruct (accept s.2 e s.1) as [n' [p' a]]. cbn in *.
  destruct Ho as [[-> _]|(j & Hj & _)]; [by left|right]. exists j. split; [done|]. by apply Hc.
Qed.

End ProxyOccupancySteps.

#[local] Existing Instance demo_types.

Lemma proxy_single_worker_witness :
  Forall event_ok (demo_serving ++ [Owner (control_replace_with 4 6)]) /\
  exists j, [j] = [demo_id 2] /\ earlier (demo_id 1) j.
Proof.
  assert (H : Forall event_ok (demo_serving ++ [Owner (control_replace_with 4 6)])) by (repeat constructor).
  split; [exact H|].
  destruct (proxy_single_worker 0 _ (demo_stopped 1) H) as [Hn|(j & Hj & Hi)]; [discriminate Hn|].
  exists j. split; [exact (eq_sym Hj)|]. apply Hi. vm_compute. left.
Defined.

Section ProxyRetirements.
  Context `{WT : WorkerTypes}.

(** ** What a retiring proxy still waits for *)

Definition departure_inputs (d : WorkerStopping) : nat :=
  (match stopping_shutdown d with Shutdown_Requested _ => 1 | Shutdown_Settled _ => 0 end) +
  (match stopping_stopped d with None => 1 | Some _ => 0 end).

Definition kind_inputs (k : WorkerStartKind) : nat :=
  match k with Kind_Replacement _ (Predecessor_Awaiting _) => 1 | _ => 0 end.

Definition progress_inputs (p : StartupProgress) : nat :=
  match p with WaitingForStart _ => 2 | Running _ => 1 end.

Definition shutdown_inputs (s : ProxyShutdown) : nat :=
  match s with
  | Shutdown_WaitingForCreation start => 4 + kind_inputs (start_kind start)
  | Shutdown_ReturningWorker d | Shutdown_ReturningPredecessor d _ _ => departure_inputs d
  | Shutdown_ReturningWorkerStart k d _ => departure_inputs d + kind_inputs k
  | Shutdown_ReturningSuccessor _ p d _ =>
      departure_inputs d + match p with Return_Awaiting _ => 1 | Return_Returned _ => 0 end
  | Shutdown_Initializing k (InitDeparting i d) =>
      departure_inputs d + match i with None => 1 | Some _ => 0 end + kind_inputs k
  | Shutdown_Initializing k (WaitingForInitialization _ _ _) => 1 + kind_inputs k
  | Shutdown_Starting k (StartupDeparting s d) =>
      departure_inputs d + match s with Startup_Pending p => progress_inputs p | Startup_Returned _ => 0 end +
      kind_inputs k
  | Shutdown_Starting k (WaitingForStartup p _ _ _) => progress_inputs p + kind_inputs k
  | Shutdown_WaitingForPredecessor _ _ _ => 1
  end.

Definition retiring_inputs (s : ProxyState) : nat :=
  match s with State_ShuttingDown s => shutdown_inputs s | _ => 0 end.

Definition retiring (s : ProxyState) : Prop :=
  match s with State_ShuttingDown _ | State_Stopped _ => True | _ => False end.

Definition is_stopped (s : ProxyState) : bool := match s with State_Stopped _ => true | _ => false end.

(** Whether the proxy takes a worker input instead of diagnosing it; service
    commands and owner controls are not counted. *)
Definition taken (e : ProxyEvent) (a : ProxyActions) : nat :=
  match e with Service _ | Owner _ => 0 | _ => match diagnosed a with [] => 1 | _ => 0 end end.

Lemma shutdown_inputs_le s : shutdown_inputs s <= 5.
Proof.
  unfold shutdown_inputs, departure_inputs, kind_inputs, progress_inputs.
  repeat case_match; lia.
Qed.

(** Nothing but retirement happens in a retiring proxy; every input it takes
    brings it nearer to its stop, which it announces when it gets there. *)
Lemma retiring_step n p e :
  retiring (state p) ->
  let '(_, (p', a)) := accept p e n in
  retiring (state p') /\ items (creates a) = [] /\ worker_deliveries (sends a) = [] /\
  requests (worker_startups (sends a)) = [] /\
  retiring_inputs (state p') + taken e a <= retiring_inputs (state p) /\
  (is_stopped (state p) = false -> is_stop (become_ a) = is_stopped (state p')).
Proof.
  destruct p as [st c]. destruct e; proxy_unfold; cbn [state creations];
    destruct st; intros []; proxy_cases;
    unfold retiring_inputs, shutdown_inputs, departure_inputs, kind_inputs, progress_inputs in *; simpl;
    repeat match goal with
    | H : stopping_shutdown _ = _ |- _ => rewrite H in *; clear H
    | H : stopping_stopped _ = _ |- _ => rewrite H in *; clear H
    end; simpl; repeat split; try done; try lia.
Qed.

(** ** The input that is due *)

Definition stop_input (a : WorkerAttempt) : ProxyEvent := WorkerStopped (mkChildStopped (attempt_creation a) (Ok Normal) 0%N).
Definition resolution_input (i : ShutdownId) : ProxyEvent := WorkerShutdownResolved (ShutdownAccepted i).

Definition departure_input (d : WorkerStopping) : ProxyEvent :=
  match stopping_shutdown d with
  | Shutdown_Requested i => resolution_input i
  | Shutdown_Settled _ => stop_input (attempt (stopping_worker d))
  end.

(** A plan answers its start request, and then with [reply]. *)
Definition startup_input (reply : result Ready Rejection) (p : StartupProgress) : ProxyEvent :=
  WorkerStartupReported
    match p with
    | WaitingForStart g => mkStartup (grant_worker g) g Startup_Started
    | Running g => grant_resolve g reply
    end.

Definition next_input (plan : Plan) (reply : result Ready Rejection) (s : ProxyShutdown) : ProxyEvent :=
  match s with
  | Shutdown_WaitingForCreation start =>
      match start_phase start with
      | Creating w _ =>
          WorkerCreationsSettled (Creation_Settled (Creations_one
            (Attempted (Settlement.Accepted (Outcome_Unavailable (pending_creation w) (pending_kind w))))))
      | _ => Owner control_shutdown
      end
  | Shutdown_ReturningWorker d | Shutdown_ReturningPredecessor d _ _ | Shutdown_ReturningWorkerStart _ d _
  | Shutdown_ReturningSuccessor _ _ d _ | Shutdown_Initializing _ (InitDeparting _ d)
  | Shutdown_Starting _ (StartupDeparting _ d) => departure_input d
  | Shutdown_Initializing _ (WaitingForInitialization w _ _) =>
      WorkerInitialization (EffectsRejected (attempt w) (initialization w) plan EffectsRejected_)
  | Shutdown_Starting _ (WaitingForStartup p _ _ _) => startup_input reply p
  | Shutdown_WaitingForPredecessor _ i _ => resolution_input i
  end.

Lemma next_input_taken n p s plan reply :
  proxy_ok p -> state p = State_ShuttingDown s ->
  event_ok (next_input plan reply s) /\ taken (next_input plan reply s) (accept p (next_input plan reply s) n).2.2 = 1.
Proof.
  destruct p as [st c]. unfold proxy_ok. cbn [state creations]. intros Hok ->. split.
  { by destruct s as [[k []]| | | | |k []|k []|]; simpl; try done; unfold departure_input;
      case_match. }
  destruct s as [[k []]|[w [] []]|k [w [] []] f|[w [] []] a b|a pr [w [] []] r
                |k [i [w [] []]|w r st]|k [s [w [] []]|p w r st]|a i r];
    simpl in Hok; proxy_ok_unfold; try done; simpl; proxy_unfold; cbn [state creations];
    unfold created, created_one, admit_creation, admit_initialization, admit_startup,
      stopping_shutdown_resolved, stopping_worker_stopped, admit_stop, complete, pending_creation; simpl;
    repeat (case_match; simplify_eq/=);
    repeat match goal with
    | H : bool_decide _ = false |- _ => apply bool_decide_eq_false_1 in H
    | H : _ && _ = false |- _ => apply andb_false_iff in H as [?|?]
    end; try done.
  all: by destruct reply; unfold into_ready, into_rejection, grant_resolve, replied in *; simplify_eq/=.
Qed.

Lemma retiring_completes (plan : Plan) (reply : result Ready Rejection) m :
  forall n p, proxy_ok p -> retiring (state p) -> retiring_inputs (state p) <= m ->
  exists es, length es <= m /\ Forall event_ok es /\
    is_stopped (state (trace transition (n, p) es).1.2) = true.
Proof.
  induction m as [|m IH]; intros n p Hok Hr Hm.
  all: destruct (is_stopped (state p)) eqn:Hstop;
    [exists []; split; [simpl; lia|by split; [constructor|]]|].
  all: destruct (state p) as [| | | | | |s|r] eqn:Hs; try done.
  all: destruct (next_input_taken n p s plan reply Hok Hs) as [He Ht].
  all: pose proof (retiring_step n p (next_input plan reply s)) as Hstep; rewrite Hs in Hstep.
  all: specialize (Hstep I); pose proof (proxy_ok_step n p _ Hok He) as Hok'.
  all: pose proof (transition_accept (n, p) (next_input plan reply s)) as Hta; cbn in Hta.
  all: destruct (accept p (next_input plan reply s) n) as [n' [p' a]]; cbn in *.
  all: destruct Hstep as (Hr' & _ & _ & _ & Hle & _); rewrite Ht in Hle.
  { lia. }
  destruct (IH n' p') as (es & Hl & Hes & Hst); [done|done|lia|].
  exists (next_input plan reply s :: es). split; [simpl; lia|]. split; [by constructor|].
  cbn [trace]. rewrite Hta. by destruct (trace transition (n', p') es).
Qed.

(** The inputs that a run takes, and what a retiring run may send. *)
Definition retiring_answer (e : ProxyEvent) (o : Acted (StopOnShutdown Worker) Never ProxyEffects Never) : Prop :=
  items (creates (ok_actions o)) = [] /\ worker_deliveries (sends (ok_actions o)) = [] /\
  requests (worker_startups (sends (ok_actions o))) = [].

Definition taken_inputs (e : ProxyEvent) (o : Acted (StopOnShutdown Worker) Never ProxyEffects Never) : list () :=
  replicate (taken e (ok_actions o)) ().

Lemma retiring_run es s :
  retiring (state s.2) ->
  let '(s', os) := trace transition s es in
  retiring (state s'.2) /\ length (collect taken_inputs es os) <= retiring_inputs (state s.2) /\
  Forall2 retiring_answer es os.
Proof.
  revert s. induction es as [|e es IH]; intros s Hs; cbn [trace]; [by repeat split; [|simpl; lia|constructor]|].
  pose proof (retiring_step s.1 s.2 e Hs) as Hstep. rewrite transition_accept.
  destruct (accept s.2 e s.1) as [n' [p' a]]. cbn. destruct Hstep as (Hr & H1 & H2 & H3 & Hle & _).
  specialize (IH (n', p') Hr). destruct (trace transition (n', p') es) as [s' os].
  destruct IH as (Hr' & Hl & Hall). split; [done|]. split; [|by constructor].
  cbn [collect]. rewrite length_app. unfold taken_inputs at 1. rewrite length_replicate. cbn in *. lia.
Qed.

Lemma owner_shutdown_retires n p : retiring (state (accept p (Owner control_shutdown) n).2.1).
Proof.
  destruct p as [st c]. cbn [accept owner command control_shutdown]. unfold owner_shutdown, mret, Alloc_ret.
  destruct st as [|[k []]| | | |[]|s|r]; cbn; repeat case_match; by simplify_eq/=.
Qed.

(** C24. Shutdown always completes: after an owner's shutdown at any point of any
    run, the proxy creates no worker, delivers no command and starts no plan,
    takes at most five more worker inputs whatever arrives (service commands and
    owner controls are not counted), and at most five inputs, each the answer to
    something it waits for, bring it to its stop.  (For a replaced worker's
    shutdown that answer has to come last: see [proxy_refuses_predecessor].) *)
Theorem proxy_shutdown_completes n es (plan : Plan) (reply : result Ready Rejection) :
  Forall event_ok es ->
  let s := (trace transition (n, new) (es ++ [Owner control_shutdown])).1 in
  (forall later,
     let '(s', os) := trace transition s later in
     retiring (state s'.2) /\ length (collect taken_inputs later os) <= 5 /\
     Forall2 retiring_answer later os) /\
  exists rest, length rest <= 5 /\ Forall event_ok rest /\
    is_stopped (state (trace transition s rest).1.2) = true.
Proof.
  intros Hes s.
  assert (Hok : proxy_ok s.2).
  { apply (proxy_well_formed_run n). apply Forall_app. split; [done|]. by repeat constructor. }
  assert (Hr : retiring (state s.2)).
  { unfold s. rewrite trace_app_fst. set (s0 := (trace transition (n, new) es).1).
    cbn [trace]. rewrite transition_accept. apply owner_shutdown_retires. }
  assert (Hi : retiring_inputs (state s.2) <= 5).
  { destruct (state s.2); simpl; try lia. apply shutdown_inputs_le. }
  split.
  - intros later. pose proof (retiring_run later s Hr) as H.
    destruct (trace transition s later) as [s' os]. destruct H as (? & ? & ?). split; [done|]. split; [lia|done].
  - clearbody s. destruct s as [n0 p]. by apply (retiring_completes plan reply 5).
Qed.

(** ** A predecessor's settlement during the successor's retirement *)

Definition kind_awaits (k : WorkerStartKind) : option ShutdownId :=
  match k with Kind_Replacement _ (Predecessor_Awaiting i) => Some i | _ => None end.

(** The successor's start retires while the predecessor's shutdown is
    unsettled. *)
Definition retiring_start (s : ProxyShutdown) : option ShutdownId :=
  match s with
  | Shutdown_WaitingForCreation start => kind_awaits (start_kind start)
  | Shutdown_ReturningWorkerStart k _ _ | Shutdown_Initializing k _ | Shutdown_Starting k _ => kind_awaits k
  | _ => None
  end.

Definition awaits_predecessor (s : ProxyState) : option ShutdownId :=
  match s with
  | State_ShuttingDown (Shutdown_WaitingForPredecessor _ i _) => Some i
  | State_ShuttingDown s => retiring_start s
  | _ => None
  end.

(** Only the predecessor's own settlement ends the wait. *)
Lemma awaits_step n p e i :
  awaits_predecessor (state p) = Some i ->
  (forall r, e = WorkerShutdownResolved r -> resolved_id r <> i) ->
  awaits_predecessor (state (accept p e n).2.1) = Some i.
Proof.
  destruct p as [[| | | | | |s|] c]; try done.
  destruct s as [[[|replaces []] ph]| |[|replaces []] d f| | |[|replaces []] x|[|replaces []] x|]; try done;
    intros [= ->] He; (destruct e as [| | | | |res|]; [| | | | |specialize (He res eq_refl)|]; proxy_unfold;
    cbn [state creations]; proxy_cases; try done).
  all: match goal with H : bool_decide _ = true |- _ => apply bool_decide_eq_true_1 in H end; done.
Qed.

Lemma awaits_run es s i :
  awaits_predecessor (state s.2) = Some i ->
  Forall (fun e => forall r, e = WorkerShutdownResolved r -> resolved_id r <> i) es ->
  awaits_predecessor (state (trace transition s es).1.2) = Some i.
Proof.
  intros Hs Hes. revert s Hs. induction Hes as [|e es He _ IH]; intros s Hs; [done|].
  cbn [trace]. apply awaits_step with (n := s.1) (e := e) in Hs; [|done].
  rewrite transition_accept. specialize (IH ((accept s.2 e s.1).1, (accept s.2 e s.1).2.1) Hs).
  by destruct (trace transition _ es).
Qed.

Lemma foreign_shutdown_refused c d r replaces :
  departure_ok c d ->
  earlier (attempt_creation replaces) (attempt_creation (attempt (stopping_worker d))) ->
  resolved_id r = shutdown_of replaces -> stopping_shutdown_resolved d r = Err (d, r).
Proof.
  intros (_ & Hd & _) He Hr. unfold stopping_shutdown_resolved.
  destruct (stopping_shutdown d) as [i|]; [|done]. subst i. rewrite bool_decide_eq_false_2; [done|].
  unfold earlier in He. rewrite Hr. intros [= Heq]. lia.
Qed.

(** A departure of the code from its document.  docs/stable-proxy.md lets the stop
    and the shutdown settlement of a predecessor arrive in either order and calls
    the owner's shutdown total; while the successor's start retires, the code
    refuses that settlement, and the wait it would have ended remains. *)
Theorem proxy_refuses_predecessor n p s i r :
  proxy_ok p -> state p = State_ShuttingDown s -> retiring_start s = Some i -> resolved_id r = i ->
  (accept p (WorkerShutdownResolved r) n).2 = (p, diagnose (UnexpectedWorkerShutdown Phase_ShuttingDown r)) /\
  forall es, Forall (fun e => forall r', e = WorkerShutdownResolved r' -> resolved_id r' <> i) es ->
    is_stopped (state (trace transition (n, p) es).1.2) = false.
Proof.
  intros Hok Hs Hi Hr. split; last first.
  { intros es Hes. pose proof (awaits_run es (n, p) i) as H. cbn in H. rewrite Hs in H.
    unfold is_stopped. destruct (state (trace transition (n, p) es).1.2) eqn:Hst; try done.
    assert (Ha : awaits_predecessor (State_ShuttingDown s) = Some i) by by destruct s.
    specialize (H Ha Hes). cbn in H. done. }
  destruct p as [st c]. unfold proxy_ok in Hok. cbn [state creations] in *. subst st.
  unfold retiring_start, kind_awaits in Hi. proxy_unfold; cbn [state creations].
  repeat case_match; simplify_eq/=; try done; destruct_and?;
    match goal with H : stopping_shutdown_resolved _ _ = _ |- _ =>
      erewrite foreign_shutdown_refused in H by eauto end; by simplify_eq.
Qed.

End ProxyRetirements.

#[local] Existing Instance demo_types.

Lemma proxy_shutdown_completes_witness :
  Forall event_ok demo_replacing /\
  exists rest : list ProxyEvent, length rest <= 5 /\
    is_stopped (state (trace transition (0, new) ((demo_replacing ++ [Owner control_shutdown]) ++ rest)).1.2) = true.
Proof.
  assert (H : Forall event_ok demo_replacing) by (repeat constructor). split; [exact H|].
  destruct (proxy_shutdown_completes 0 demo_replacing 5 (Ok 9) H) as [_ (rest & Hl & _ & Hs)].
  exists rest. split; [exact Hl|]. rewrite trace_app_fst. exact Hs.
Defined.

(** The owner shuts down while the successor of worker 1 is being created and
    the shutdown of worker 1 is not settled; its settlement is then refused. *)
Lemma proxy_refuses_predecessor_witness :
  let s := (trace transition (0, new) (demo_replacing ++ [Owner control_shutdown])).1 in
  accept s.2 (demo_resolved 1) s.1 =
    (s.1, (s.2, diagnose (UnexpectedWorkerShutdown Phase_ShuttingDown (ShutdownAccepted (mkShutdownId 1))))).
Proof.
  intros s. assert (Hok : proxy_ok s.2) by (apply (proxy_well_formed_run 0); repeat constructor).
  destruct (proxy_refuses_predecessor s.1 s.2 _ (mkShutdownId 1) (ShutdownAccepted (mkShutdownId 1)) Hok
    eq_refl eq_refl eq_refl) as [H _].
  reflexivity.
Defined.
