(* ===== verification/ProxyOperation.v ===== *)
(** * Owner operations on a stable proxy ([templates/proxy/operation.rs])

    The private input of an aggregate to one of its proxies: an operation keeps
    its creation correlation and its identity while the host admits only the
    control it carries, and a witness recognizes the settlement. *)

From stdpp Require Import base list option numbers.
From S2P Require Import Prelude Effects Timers Restart Termination Settlement Interpretation Creation.
From S2P Require Import Workers WorkerPreparation WorkerStartup ProxyWorker ProxyState StableProxy ProxyTransition.

Inductive ChildInputReason : Type := MissingBinding | ClosedControlLane.

Record ProxyOperationId := mkOperationId { operation_token : Token }.
Record ProxyOperationWitness := mkOperationWitness { witness_token : Token }.

Definition operation_reserve : Alloc (ProxyOperationWitness * ProxyOperationId) :=
  token ← arc_new; mret (mkOperationWitness token, mkOperationId token).

Section Operations.
  Context `{WT : WorkerTypes}.
  (** [EstablishedActor<StableProxy<W, P>>] and the host that admits controls. *)
  Context {ProxyActor I : Type}.
  Context (admit_proxy_control :
    I -> CreationId -> ProxyControl -> ItemSettlement ProxyControl ProxyActor ChildInputReason Never * I).

Record ProxyOperation := mkOperation {
  operation_creation : CreationId;
  operation_control : ProxyControl;
  operation_id : ProxyOperationId
}.

Record ProxyInputReceipt := mkReceipt {
  receipt_creation : CreationId;
  receipt_proxy : ProxyActor;
  receipt_operation : ProxyOperationId
}.

Abbreviation control_reply := (ItemSettlement ProxyControl ProxyActor ChildInputReason Never).
Abbreviation operation_reply := (ItemSettlement ProxyOperation ProxyInputReceipt ChildInputReason Never).
Abbreviation input_result := (ActionItemResult ProxyOperation ProxyInputReceipt ChildInputReason Never).

Record ProxyOperationCustody := mkOperationCustody {
  custody_creation : CreationId;
  custody_operation : ProxyOperationId;
  custody_control : option ProxyControl;
  custody_reply : option control_reply
}.

Abbreviation op_progress := (option (InterpretationProgress ProxyOperation ProxyOperationCustody operation_reply)).

(** ** Constructors *)

Definition operation_new (c : CreationId) (control : ProxyControl) : Alloc (ProxyOperationWitness * ProxyOperation) :=
  '(witness, operation) ← operation_reserve; mret (witness, mkOperation c control operation).

Definition operation_initial (c : CreationId) (s : WorkerSubmission Worker Plan) :
  Alloc (ProxyOperationWitness * ProxyOperation) :=
  operation_new c (control_start_with (worker s) (startup s)).

Definition operation_replacement (c : CreationId) (s : WorkerSubmission Worker Plan) :
  Alloc (ProxyOperationWitness * ProxyOperation) :=
  operation_new c (control_replace_with (worker s) (startup s)).

Definition operation_shutdown (c : CreationId) : Alloc (ProxyOperationWitness * ProxyOperation) :=
  operation_new c control_shutdown.

(** ** Interpretation *)

Definition operation_prepare (p : op_progress) : op_progress :=
  match p with
  | Some (Original o) =>
      Some (Interpreting (mkOperationCustody (operation_creation o) (operation_id o)
                            (Some (operation_control o)) None))
  | retained => retained
  end.

(** The interpretation input exists while the control is untaken and no reply
    was received. *)
Definition operation_input (c : ProxyOperationCustody) : option (CreationId * ProxyControl) :=
  match custody_control c, custody_reply c with
  | Some control, None => Some (custody_creation c, control)
  | _, _ => None
  end.

Definition operation_finish (p : op_progress) : op_progress :=
  match p with
  | Some (Interpreting (mkOperationCustody c operation None (Some reply))) =>
      let received : operation_reply :=
        match reply with
        | Settlement.Accepted proxy => Settlement.Accepted (mkReceipt c proxy operation)
        | Rejected control reason => Rejected (mkOperation c control operation) reason
        | Corrupt control fault => Corrupt (mkOperation c control operation) fault
        | Blocked _ prerequisite => match prerequisite with end
        end in
      Some (Completed
        match received with
        | Corrupt _ _ => Interpretation_Corrupt received
        | _ => Interpretation_Complete received
        end)
  | retained => retained
  end.

Definition operation_settle (p : op_progress) (host : I) : op_progress * I :=
  let p := operation_prepare p in
  let '(p, host) :=
    match p with
    | Some (Interpreting c) =>
        match operation_input c with
        | Some (creation, control) =>
            let '(reply, host) := admit_proxy_control host creation control in
            (Some (Interpreting (mkOperationCustody (custody_creation c) (custody_operation c) None (Some reply))), host)
        | None => (p, host)
        end
    | _ => (p, host)
    end in
  (operation_finish p, host).

(** ** Recognizing a settlement *)

Definition result_operation (r : input_result) : ProxyOperationId :=
  match r with
  | Attempted (Settlement.Accepted receipt) => receipt_operation receipt
  | Attempted (Rejected o _) | Attempted (Corrupt o _) | Unattempted o => operation_id o
  | Attempted (Blocked _ prerequisite) => match prerequisite with end
  end.

Definition same_operation (w : ProxyOperationWitness) (o : ProxyOperationId) : bool :=
  bool_decide (witness_token w = operation_token o).

Definition witness_admit (w : ProxyOperationWitness) (r : input_result) :
  result input_result (ProxyOperationWitness * input_result) :=
  if same_operation w (result_operation r) then Ok r else Err (w, r).

Definition admit_receipt (w : ProxyOperationWitness) (r : ProxyInputReceipt) :
  result ProxyInputReceipt (ProxyOperationWitness * ProxyInputReceipt) :=
  if same_operation w (receipt_operation r) then Ok r else Err (w, r).

Definition admit_rejection (w : ProxyOperationWitness) (o : ProxyOperation) (reason : ChildInputReason) :
  result (ProxyOperation * ChildInputReason) (ProxyOperationWitness * ProxyOperation * ChildInputReason) :=
  if same_operation w (operation_id o) then Ok (o, reason) else Err (w, o, reason).

(** ** One admission, one settlement *)

(** What the host's answer makes of the operation. *)
Definition settled_as (o : ProxyOperation) (reply : control_reply) (x : Interpretation operation_reply) : Prop :=
  match reply with
  | Settlement.Accepted proxy =>
      x = Interpretation_Complete (Settlement.Accepted (mkReceipt (operation_creation o) proxy (operation_id o)))
  | Rejected control reason =>
      x = Interpretation_Complete (Rejected (mkOperation (operation_creation o) control (operation_id o)) reason)
  | Corrupt control fault =>
      x = Interpretation_Corrupt (Corrupt (mkOperation (operation_creation o) control (operation_id o)) fault)
  | Blocked _ prerequisite => False
  end.

Lemma operation_settle_original o host :
  operation_settle (Some (Original o)) host =
  let '(reply, host') := admit_proxy_control host (operation_creation o) (operation_control o) in
  (operation_finish (Some (Interpreting
     (mkOperationCustody (operation_creation o) (operation_id o) None (Some reply)))), host').
Proof.
  unfold operation_settle, operation_prepare, operation_input; cbn.
  by destruct (admit_proxy_control _ _ _).
Qed.

(** Settling admits the control once, keeps the correlation and the identity of
    the operation through every answer of the host, and settling again does
    nothing; of all witnesses only the one issued with the operation recognizes
    its settlement. *)
Theorem proxy_operation_settles n c control host :
  let '(_, (witness, o)) := operation_new c control n in
  let '(reply, host') := admit_proxy_control host c control in
  exists x, operation_settle (Some (Original o)) host = (Some (Completed x), host') /\
    settled_as o reply x /\
    (forall later, operation_settle (Some (Completed x)) later = (Some (Completed x), later)) /\
    forall w, is_ok (witness_admit w (Attempted (into_settlement x))) = true <-> w = witness.
Proof.
  cbn -[operation_settle]. pose proof (operation_settle_original (mkOperation c control (mkOperationId n)) host) as E; cbn -[operation_settle] in E.
  destruct (admit_proxy_control host c control) as [reply host'].
  destruct reply as [proxy|item reason|item []|item fault]; eexists; (split; [exact E|]); clear E;
    (split; [reflexivity|]); (split; [done|]); intros [w]; unfold witness_admit, same_operation; cbn;
    case_bool_decide; cbn; split; try done; intros; congruence.
Qed.

End Operations.
