(* ===== verification/PoolAssignment.v ===== *)
(** * Pool assignments ([templates/pool/assignment.rs])

    The correlations of accepted jobs, the request that delivers an assignment
    to an exact worker, and the join of its three answers: the settlement of
    the delivery, the completion by the worker, and the stop of the worker.
    [Arc] tokens are allocation numbers (see Workers.v). *)

From stdpp Require Import base list option numbers sorting.
From S2P Require Import Prelude Effects BTreeMap Timers Restart Termination Settlement Interpretation Creation.
From S2P Require Import Workers WorkerPreparation WorkerStartup.

(** ** Correlations *)

Record SubmissionId := mkSubmissionId { submission_number : N }.
Record JobId := mkJobId { job_number : N }.
Record AdmissionOrdinal := mkOrdinal { ordinal_number : N }.
Record AssignmentId := mkAssignmentId { assignment_number : N }.

#[export] Instance SubmissionId_EqDecision : EqDecision SubmissionId.
Proof. solve_decision. Defined.
#[export] Instance JobId_EqDecision : EqDecision JobId.
Proof. solve_decision. Defined.
#[export] Instance AssignmentId_EqDecision : EqDecision AssignmentId.
Proof. solve_decision. Defined.

(** The derived order of admission ordinals. *)
#[export] Program Instance AdmissionOrdinal_Ord : Ord AdmissionOrdinal := {
  leb a b := (ordinal_number a <=? ordinal_number b)%N
}.
Next Obligation. intros [x]; simpl. apply N.leb_refl. Qed.
Next Obligation. intros [x] [y] [z]; simpl. rewrite !N.leb_le. lia. Qed.
Next Obligation. intros [x] [y]; simpl. rewrite !N.leb_le. intros. f_equal. lia. Qed.
Next Obligation. intros [x] [y]; simpl. destruct (N.leb_spec x y), (N.leb_spec y x); auto; lia. Qed.

(** [Option<NonZeroU64>] counters. *)
Record AcceptedJobSequence := mkJobSequence { next_job : option N }.
Record AssignmentSequence := mkAssignmentSequence { next_assignment : option N }.

Definition jobs_new : AcceptedJobSequence := mkJobSequence (Some 1%N).

Definition jobs_issue (s : AcceptedJobSequence) : AcceptedJobSequence * option (JobId * AdmissionOrdinal) :=
  match next_job s with
  | None => (s, None)
  | Some value =>
      (mkJobSequence (checked_add u64_max value 1), Some (mkJobId value, mkOrdinal value))
  end.

Definition assignments_new : AssignmentSequence := mkAssignmentSequence (Some 1%N).

Definition assignments_issue (s : AssignmentSequence) : AssignmentSequence * option AssignmentId :=
  match next_assignment s with
  | None => (s, None)
  | Some value =>
      (mkAssignmentSequence (checked_add u64_max value 1), Some (mkAssignmentId value))
  end.

(** What a pool takes from its type parameters: those of its workers, the role
    names, the source of replacement workers with its two rejections, the
    payload and the result of a job, and the route of a customer. *)
Class PoolTypes := {
  #[global] pool_workers :: WorkerTypes;
  Role : Type;
  Source : Type;
  WorkerRejection : Type;
  SourceRejection : Type;
  Job : Type;
  WorkerResult : Type;
  Customer : Type
}.

Section Assignments.
  Context `{PT : PoolTypes}.

Record CompletionAuthority := mkAuthority {
  authority_assignment : AssignmentId;
  authority_worker : WorkerAttempt;
  authority_token : Token
}.

Record CompletionCorrelation := mkCorrelation {
  correlation_assignment : AssignmentId;
  correlation_worker : WorkerAttempt;
  correlation_token : Token
}.

Inductive CorrelationMatch : Type := Exact | Foreign.

Definition correlation_compare (c : CompletionCorrelation) (a : CompletionAuthority) : CorrelationMatch :=
  match bool_decide (correlation_assignment c = authority_assignment a),
        bool_decide (correlation_worker c = authority_worker a),
        bool_decide (correlation_token c = authority_token a) with
  | true, true, true => Exact
  | _, _, _ => Foreign
  end.

Record AssignmentReceipt := mkReceipt {
  receipt_assignment : AssignmentId;
  receipt_worker : WorkerAttempt
}.

#[export] Instance AssignmentReceipt_EqDecision : EqDecision AssignmentReceipt.
Proof. solve_decision. Defined.

Definition receipt_issued (c : CompletionCorrelation) : AssignmentReceipt :=
  mkReceipt (correlation_assignment c) (correlation_worker c).

Definition receipt_compare (r : AssignmentReceipt) (c : CompletionCorrelation) : CorrelationMatch :=
  match bool_decide (receipt_assignment r = correlation_assignment c),
        bool_decide (receipt_worker r = correlation_worker c) with
  | true, true => Exact
  | _, _ => Foreign
  end.

Record Assignment := assignment_issued { payload : Job; assignment_authority : CompletionAuthority }.

Record Completion := mkCompletion { worker_result : WorkerResult; completion_authority : CompletionAuthority }.

(** [Assignment::complete]: the value of the report to the parent. *)
Definition assignment_complete (a : Assignment) (r : WorkerResult) : Completion :=
  mkCompletion r (assignment_authority a).

Definition assign (s : AssignmentSequence) (w : WorkerAttempt) (job : Job) :
  AssignmentSequence * Alloc (option (CompletionCorrelation * Assignment)) :=
  match assignments_issue s with
  | (s, None) => (s, mret None)
  | (s, Some a) =>
      (s, token ← arc_new;
          mret (Some (mkCorrelation a w token, assignment_issued job (mkAuthority a w token))))
  end.

(** ** Delivery of an assignment *)

Inductive ExactDeliveryReason : Type := ClosedRecipient.

Record AssignWorker := mkAssignWorker {
  assign_target : EstablishedRecipient Endpoint;
  assign_assignment : Assignment;
  assign_receipt : AssignmentReceipt
}.

Definition assign_worker_new (target : EstablishedRecipient Endpoint) (c : CompletionCorrelation)
  (a : Assignment) : AssignWorker := mkAssignWorker target a (receipt_issued c).

Definition assign_into_parts (a : AssignWorker) :
  EstablishedRecipient Endpoint * Assignment * AssignmentReceipt :=
  (assign_target a, assign_assignment a, assign_receipt a).

Definition assign_returned (target : EstablishedRecipient Endpoint) (a : Assignment)
  (r : AssignmentReceipt) : AssignWorker := mkAssignWorker target a r.

Abbreviation delivery := (EstablishedDelivery Endpoint Assignment).
Abbreviation delivery_reply := (ItemSettlement delivery () ExactDeliveryReason Never).
Abbreviation assign_reply := (ItemSettlement AssignWorker AssignmentReceipt ExactDeliveryReason Never).
Abbreviation assign_custody := (AssignmentReceipt * (option delivery * option delivery_reply))%type.
Abbreviation assign_progress := (option (InterpretationProgress AssignWorker assign_custody assign_reply)).

Definition AssignmentResult : Type :=
  ActionItemResult AssignWorker AssignmentReceipt ExactDeliveryReason Never.

Definition assign_prepare (p : assign_progress) : assign_progress :=
  match p with
  | Some (Original a) =>
      Some (Interpreting (assign_receipt a,
        (Some (mkEstablishedDelivery (assign_target a) (assign_assignment a)), None)))
  | retained => retained
  end.

Definition assign_input (c : assign_custody) : option delivery :=
  match c with
  | (_, (Some input, None)) => Some input
  | _ => None
  end.

Definition assign_finish (p : assign_progress) : assign_progress :=
  match p with
  | Some (Interpreting (receipt, (None, Some reply))) =>
      let received : assign_reply :=
        match reply with
        | Settlement.Accepted _ => Settlement.Accepted receipt
        | Rejected d reason =>
            Rejected (mkAssignWorker (established_to d) (established_message d) receipt) reason
        | Corrupt d fault =>
            Corrupt (mkAssignWorker (established_to d) (established_message d) receipt) fault
        | Blocked _ prerequisite => match prerequisite with end
        end in
      Some (Completed
        match received with
        | Corrupt _ _ => Interpretation_Corrupt received
        | _ => Interpretation_Complete received
        end)
  | retained => retained
  end.

(** [AssignWorker::settle] over a host that answers one delivery. *)
Definition assign_settle {I : Type} (interpret_item : I -> delivery -> delivery_reply * I)
  (p : assign_progress) (host : I) : assign_progress * I :=
  let p := assign_prepare p in
  let '(p, host) :=
    match p with
    | Some (Interpreting custody) =>
        match assign_input custody with
        | Some d =>
            let '(reply, host) := interpret_item host d in
            (Some (Interpreting (custody.1, (None, Some reply))), host)
        | None => (p, host)
        end
    | _ => (p, host)
    end in
  (assign_finish p, host).

(** ** Accepted jobs and their assignment *)

Record CustomerJob := mkCustomerJob {
  job_id : JobId;
  job_admitted : AdmissionOrdinal;
  job_payload : Job;
  job_customer : Customer
}.

Inductive AssignmentDelivery : Type :=
| AwaitingReceipt
| DeliveryAccepted
| CompletionHasPriority (completion : Completion) (later_exit : option (ChildStopped Addr))
| WorkerExitHasPriority (stopped : ChildStopped Addr) (later_completion : option Completion).

Record AssignmentShutdown := mkAssignmentShutdown {
  shutdown_customer : CustomerJob;
  shutdown_worker : WorkerAttempt;
  shutdown_stopped : option (ChildStopped Addr);
  shutdown_completion : option Completion
}.

Record AssignedJob := mkAssignedJob {
  assigned_customer : CustomerJob;
  correlation : CompletionCorrelation;
  assigned_delivery : AssignmentDelivery
}.

Inductive AssignmentReceiptOutcome : Type :=
| Receipt_AwaitingCompletion (a : AssignedJob)
| Receipt_JobCompleted (customer : CustomerJob) (r : WorkerResult) (stopped : option (ChildStopped Addr))
| Receipt_JobInterrupted (customer : CustomerJob) (stopped : ChildStopped Addr)
    (late_completion : option Completion).

Inductive WorkerCompletionOutcome : Type :=
| Completion_AwaitingReceipt (a : AssignedJob)
| Completion_JobCompleted (customer : CustomerJob) (r : WorkerResult) (stopped : option (ChildStopped Addr)).

Inductive AssignmentRejectionOutcome : Type :=
| JobReturned (customer : CustomerJob) (stopped : option (ChildStopped Addr))
| ConflictingCompletion (customer : CustomerJob) (assignment : Assignment) (completion : Completion)
    (stopped : option (ChildStopped Addr)).

Inductive WorkerExitOutcome : Type :=
| Exit_AwaitingReceipt (a : AssignedJob)
| Exit_JobInterrupted (customer : CustomerJob) (stopped : ChildStopped Addr)
    (late_completion : option Completion).

Definition assigned_new (customer : CustomerJob) (c : CompletionCorrelation) : AssignedJob :=
  mkAssignedJob customer c AwaitingReceipt.

Definition compare_receipt (a : AssignedJob) (r : AssignmentReceipt) : CorrelationMatch :=
  receipt_compare r (correlation a).

Definition compare_completion (a : AssignedJob) (c : Completion) : CorrelationMatch :=
  correlation_compare (correlation a) (completion_authority c).

Definition assigned_shutdown (a : AssignedJob) : AssignmentShutdown :=
  let '(mkAssignedJob customer c d) := a in
  let worker := correlation_worker c in
  match d with
  | AwaitingReceipt | DeliveryAccepted => mkAssignmentShutdown customer worker None None
  | CompletionHasPriority completion later_exit =>
      mkAssignmentShutdown customer worker later_exit (Some completion)
  | WorkerExitHasPriority stopped later_completion =>
      mkAssignmentShutdown customer worker (Some stopped) later_completion
  end.

Definition accept_receipt (a : AssignedJob) (r : AssignmentReceipt) :
  result AssignmentReceiptOutcome (AssignedJob * AssignmentReceipt) :=
  match receipt_compare r (correlation a) with
  | Foreign => Err (a, r)
  | Exact =>
      let '(mkAssignedJob customer c d) := a in
      match d with
      | AwaitingReceipt => Ok (Receipt_AwaitingCompletion (mkAssignedJob customer c DeliveryAccepted))
      | CompletionHasPriority completion later_exit =>
          Ok (Receipt_JobCompleted customer (worker_result completion) later_exit)
      | WorkerExitHasPriority stopped later_completion =>
          Ok (Receipt_JobInterrupted customer stopped later_completion)
      | DeliveryAccepted => Err (mkAssignedJob customer c DeliveryAccepted, r)
      end
  end.

Definition accept_rejection (a : AssignedJob) (returned : Assignment) :
  result AssignmentRejectionOutcome (AssignedJob * Assignment) :=
  match correlation_compare (correlation a) (assignment_authority returned) with
  | Foreign => Err (a, returned)
  | Exact =>
      match assigned_delivery a with
      | AwaitingReceipt => Ok (JobReturned (assigned_customer a) None)
      | CompletionHasPriority completion later_exit =>
          Ok (ConflictingCompletion (assigned_customer a) returned completion later_exit)
      | WorkerExitHasPriority stopped None => Ok (JobReturned (assigned_customer a) (Some stopped))
      | WorkerExitHasPriority stopped (Some completion) =>
          Ok (ConflictingCompletion (assigned_customer a) returned completion (Some stopped))
      | DeliveryAccepted =>
          Err (mkAssignedJob (assigned_customer a) (correlation a) DeliveryAccepted, returned)
      end
  end.

Definition accept_completion (a : AssignedJob) (completion : Completion) :
  result WorkerCompletionOutcome (AssignedJob * Completion) :=
  match correlation_compare (correlation a) (completion_authority completion) with
  | Foreign => Err (a, completion)
  | Exact =>
      let '(mkAssignedJob customer c d) := a in
      match d with
      | AwaitingReceipt =>
          Ok (Completion_AwaitingReceipt (mkAssignedJob customer c (CompletionHasPriority completion None)))
      | DeliveryAccepted => Ok (Completion_JobCompleted customer (worker_result completion) None)
      | WorkerExitHasPriority stopped None =>
          Ok (Completion_AwaitingReceipt
                (mkAssignedJob customer c (WorkerExitHasPriority stopped (Some completion))))
      | (CompletionHasPriority _ _ | WorkerExitHasPriority _ (Some _)) as d =>
          Err (mkAssignedJob customer c d, completion)
      end
  end.

Definition accept_worker_exit (a : AssignedJob) (stopped : ChildStopped Addr) :
  result WorkerExitOutcome (AssignedJob * ChildStopped Addr) :=
  if bool_decide (stopped_child stopped = attempt_creation (correlation_worker (correlation a))) then
    let '(mkAssignedJob customer c d) := a in
    match d with
    | AwaitingReceipt =>
        Ok (Exit_AwaitingReceipt (mkAssignedJob customer c (WorkerExitHasPriority stopped None)))
    | DeliveryAccepted => Ok (Exit_JobInterrupted customer stopped None)
    | CompletionHasPriority completion None =>
        Ok (Exit_AwaitingReceipt
              (mkAssignedJob customer c (CompletionHasPriority completion (Some stopped))))
    | (WorkerExitHasPriority _ _ | CompletionHasPriority _ (Some _)) as d =>
        Err (mkAssignedJob customer c d, stopped)
    end
  else Err (a, stopped).

Definition observed_stop (a : AssignedJob) : option (ChildStopped Addr) :=
  match assigned_delivery a with
  | CompletionHasPriority _ (Some stopped) | WorkerExitHasPriority stopped _ => Some stopped
  | AwaitingReceipt | DeliveryAccepted | CompletionHasPriority _ None => None
  end.

(** ** The join as one machine, and its specification

    The four [accept_*] operations are the inputs of one machine that ends in a
    verdict on the job. *)

Inductive answer : Type :=
| Answer_Delivered (r : AssignmentReceipt)
| Answer_Refused (returned : Assignment)
| Answer_Completed (c : Completion)
| Answer_Stopped (stopped : ChildStopped Addr).

Inductive verdict : Type :=
| Verdict_Completed (customer : CustomerJob) (r : WorkerResult) (stopped : option (ChildStopped Addr))
| Verdict_Interrupted (customer : CustomerJob) (stopped : ChildStopped Addr) (late : option Completion)
| Verdict_Returned (customer : CustomerJob) (stopped : option (ChildStopped Addr))
| Verdict_Contradicted (customer : CustomerJob) (returned : Assignment) (c : Completion)
    (stopped : option (ChildStopped Addr)).

Definition join_step (a : AssignedJob) (i : answer) :
  result (AssignedJob + verdict) (AssignedJob * answer) :=
  match i with
  | Answer_Delivered r =>
      match accept_receipt a r with
      | Ok (Receipt_AwaitingCompletion a) => Ok (inl a)
      | Ok (Receipt_JobCompleted c r stopped) => Ok (inr (Verdict_Completed c r stopped))
      | Ok (Receipt_JobInterrupted c stopped late) => Ok (inr (Verdict_Interrupted c stopped late))
      | Err (a, r) => Err (a, Answer_Delivered r)
      end
  | Answer_Refused returned =>
      match accept_rejection a returned with
      | Ok (JobReturned c stopped) => Ok (inr (Verdict_Returned c stopped))
      | Ok (ConflictingCompletion c x completion stopped) =>
          Ok (inr (Verdict_Contradicted c x completion stopped))
      | Err (a, returned) => Err (a, Answer_Refused returned)
      end
  | Answer_Completed c =>
      match accept_completion a c with
      | Ok (Completion_AwaitingReceipt a) => Ok (inl a)
      | Ok (Completion_JobCompleted c r stopped) => Ok (inr (Verdict_Completed c r stopped))
      | Err (a, c) => Err (a, Answer_Completed c)
      end
  | Answer_Stopped stopped =>
      match accept_worker_exit a stopped with
      | Ok (Exit_AwaitingReceipt a) => Ok (inl a)
      | Ok (Exit_JobInterrupted c stopped late) => Ok (inr (Verdict_Interrupted c stopped late))
      | Err (a, stopped) => Err (a, Answer_Stopped stopped)
      end
  end.

(** The specification: a ledger of what has been heard, in order of arrival.
    Each fact is heard once; the verdict falls when the delivery has settled
    and a fact is known, and the first fact heard decides it. *)

Inductive fact : Type := Fact_Completed (c : Completion) | Fact_Stopped (stopped : ChildStopped Addr).

Definition completed_in (l : list fact) : option Completion :=
  head (omap (fun f => match f with Fact_Completed c => Some c | _ => None end) l).
Definition stopped_in (l : list fact) : option (ChildStopped Addr) :=
  head (omap (fun f => match f with Fact_Stopped s => Some s | _ => None end) l).

Record ledger := mkLedger { delivered_ : bool; facts : list fact }.

Definition ledger_verdict (customer : CustomerJob) (first : fact) (rest : list fact) : verdict :=
  match first with
  | Fact_Completed c => Verdict_Completed customer (worker_result c) (stopped_in rest)
  | Fact_Stopped s => Verdict_Interrupted customer s (completed_in rest)
  end.

Definition ledger_settle (customer : CustomerJob) (l : ledger) : ledger + verdict :=
  match delivered_ l, facts l with
  | true, first :: rest => inr (ledger_verdict customer first rest)
  | _, _ => inl l
  end.

Definition ledger_step (customer : CustomerJob) (l : ledger) (i : answer) : option (ledger + verdict) :=
  match i with
  | Answer_Delivered _ =>
      if delivered_ l then None else Some (ledger_settle customer (mkLedger true (facts l)))
  | Answer_Refused returned =>
      if delivered_ l then None
      else Some (inr match completed_in (facts l) with
                     | Some c => Verdict_Contradicted customer returned c (stopped_in (facts l))
                     | None => Verdict_Returned customer (stopped_in (facts l))
                     end)
  | Answer_Completed c =>
      match completed_in (facts l) with
      | Some _ => None
      | None => Some (ledger_settle customer (mkLedger (delivered_ l) (facts l ++ [Fact_Completed c])))
      end
  | Answer_Stopped s =>
      match stopped_in (facts l) with
      | Some _ => None
      | None => Some (ledger_settle customer (mkLedger (delivered_ l) (facts l ++ [Fact_Stopped s])))
      end
  end.

(** What a join has heard. *)
Definition ledger_of (a : AssignedJob) : ledger :=
  match assigned_delivery a with
  | AwaitingReceipt => mkLedger false []
  | DeliveryAccepted => mkLedger true []
  | CompletionHasPriority c None => mkLedger false [Fact_Completed c]
  | CompletionHasPriority c (Some s) => mkLedger false [Fact_Completed c; Fact_Stopped s]
  | WorkerExitHasPriority s None => mkLedger false [Fact_Stopped s]
  | WorkerExitHasPriority s (Some c) => mkLedger false [Fact_Stopped s; Fact_Completed c]
  end.

(** The answer belongs to this assignment. *)
Definition exact_answer (a : AssignedJob) (i : answer) : bool :=
  match i with
  | Answer_Delivered r => bool_decide (r = receipt_issued (correlation a))
  | Answer_Refused returned =>
      match correlation_compare (correlation a) (assignment_authority returned) with
      | Exact => true | Foreign => false end
  | Answer_Completed c =>
      match correlation_compare (correlation a) (completion_authority c) with
      | Exact => true | Foreign => false end
  | Answer_Stopped s =>
      bool_decide (stopped_child s = attempt_creation (correlation_worker (correlation a)))
  end.

Definition refines_ledger (a : AssignedJob) (i : answer) : Prop :=
  match join_step a i with
  | Err back => back = (a, i) /\
      (exact_answer a i = false \/ ledger_step (assigned_customer a) (ledger_of a) i = None)
  | Ok next => exact_answer a i = true /\
      match next with
      | inl a' => ledger_step (assigned_customer a) (ledger_of a) i = Some (inl (ledger_of a')) /\
          assigned_customer a' = assigned_customer a /\ correlation a' = correlation a
      | inr v => ledger_step (assigned_customer a) (ledger_of a) i = Some (inr v)
      end
  end.

Lemma receipt_compare_exact r c :
  receipt_compare r c = if bool_decide (r = receipt_issued c) then Exact else Foreign.
Proof.
  destruct r as [ra rw], c as [ca cw ct]. unfold receipt_compare, receipt_issued; cbn.
  repeat case_bool_decide; simplify_eq/=; done.
Qed.

(** C40. The join of a delivery settlement, a completion and a worker stop is
    the ledger: answers of other assignments and repeated answers are handed
    back with the join unchanged; every other answer is recorded once in order
    of arrival; the verdict falls when the delivery has settled and a fact is
    known, wherever the settlement came among the facts, and the first fact
    heard decides it; a refused delivery returns the job, unless a completion
    contradicts it. *)
Theorem assignment_join_refines a i : refines_ledger a i.
Proof.
  unfold refines_ledger. destruct a as [customer c d].
  destruct d as [| |done [s|]|s [done|]], i as [r|returned|completion|stopped]; cbn;
    unfold accept_receipt, accept_rejection, accept_completion, accept_worker_exit;
    rewrite ?receipt_compare_exact; cbn [correlation assigned_delivery assigned_customer];
    repeat (case_match; simplify_eq/=); try done; auto.
Qed.

End Assignments.
