(* ===== verification/PoolPolicy.v ===== *)
(** * Pool policies, shutdown correlations and diagnostics

    [templates/pool/policy.rs], [templates/pool/shutdown.rs],
    [templates/pool/customer.rs] and [templates/diagnostic.rs]. *)

From stdpp Require Import base list option numbers.
From S2P Require Import Prelude Effects BTreeMap Timers Restart Termination Settlement Interpretation Creation.
From S2P Require Import Workers WorkerPreparation WorkerStartup ProxyWorker PoolAssignment.

(** ** Policies ([policy.rs]) *)

Record BacklogCapacity := backlog_capacity_new { backlog_maximum : nat }.

Inductive Interruption : Type := Interruption_Fail | Interruption_Retry.

Inductive PoolFailureReaction : Type := Reaction_RetireRole | Reaction_StopPool.

Record RecoveryPolicy := mkRecoveryPolicy {
  policy_limit : RestartLimit;
  policy_delay : RestartRelease;
  policy_failure : PoolFailureReaction
}.

Inductive PoolRecovery (S : Type) : Type :=
| Recovery_Permanent (source : S) (limit : RestartLimit) (release : RestartRelease)
    (failure : PoolFailureReaction)
| Recovery_Transient (source : S) (limit : RestartLimit) (release : RestartRelease)
    (failure : PoolFailureReaction)
| Recovery_Temporary (failure : PoolFailureReaction).
Arguments Recovery_Permanent {S} _ _ _ _.
Arguments Recovery_Transient {S} _ _ _ _.
Arguments Recovery_Temporary {S} _.

Definition recovery_permanent {S} (source : S) (p : RecoveryPolicy) : PoolRecovery S :=
  Recovery_Permanent source (policy_limit p) (policy_delay p) (policy_failure p).
Definition recovery_transient {S} (source : S) (p : RecoveryPolicy) : PoolRecovery S :=
  Recovery_Transient source (policy_limit p) (policy_delay p) (policy_failure p).
Definition recovery_temporary (failure : PoolFailureReaction) : PoolRecovery Never :=
  Recovery_Temporary failure.

Inductive WorkerRecoverySource (S : Type) : Type :=
| SourceAvailable (source : S)
| SourceAwaitingReturn.
Arguments SourceAvailable {S} _.
Arguments SourceAwaitingReturn {S}.

Inductive WorkerRecoveryDecision (S : Type) : Type :=
| Decision_PrepareWorker (source : S)
| Decision_WaitForSource
| Decision_RetireRole
| Decision_StopPool.
Arguments Decision_PrepareWorker {S} _.
Arguments Decision_WaitForSource {S}.
Arguments Decision_RetireRole {S}.
Arguments Decision_StopPool {S}.

Inductive PoolRecoveryState (S : Type) : Type :=
| RecoveryState_Permanent (source : WorkerRecoverySource S) (limit : RestartLimit)
    (release : RestartRelease) (failure : PoolFailureReaction)
| RecoveryState_Transient (source : WorkerRecoverySource S) (limit : RestartLimit)
    (release : RestartRelease) (failure : PoolFailureReaction)
| RecoveryState_Temporary (failure : PoolFailureReaction).
Arguments RecoveryState_Permanent {S} _ _ _ _.
Arguments RecoveryState_Transient {S} _ _ _ _.
Arguments RecoveryState_Temporary {S} _.

Section Recovery.
  Context {S : Type}.

Definition recovery_from (r : PoolRecovery S) : PoolRecoveryState S :=
  match r with
  | Recovery_Permanent source limit release failure =>
      RecoveryState_Permanent (SourceAvailable source) limit release failure
  | Recovery_Transient source limit release failure =>
      RecoveryState_Transient (SourceAvailable source) limit release failure
  | Recovery_Temporary failure => RecoveryState_Temporary failure
  end.

(** [mem::replace(self, AwaitingReturn)] *)
Definition claim_source (s : WorkerRecoverySource S) : WorkerRecoverySource S * option S :=
  (SourceAwaitingReturn, match s with SourceAvailable source => Some source | SourceAwaitingReturn => None end).

Definition claim (s : WorkerRecoverySource S) : WorkerRecoverySource S * WorkerRecoveryDecision S :=
  match claim_source s with
  | (s, Some source) => (s, Decision_PrepareWorker source)
  | (s, None) => (s, Decision_WaitForSource)
  end.

Definition decision_of (failure : PoolFailureReaction) : WorkerRecoveryDecision S :=
  match failure with
  | Reaction_RetireRole => Decision_RetireRole
  | Reaction_StopPool => Decision_StopPool
  end.

Definition decide (r : PoolRecoveryState S) (stop : StopKind) :
  PoolRecoveryState S * WorkerRecoveryDecision S :=
  match r, stop with
  | RecoveryState_Permanent source limit release failure, _ =>
      let '(source, d) := claim source in (RecoveryState_Permanent source limit release failure, d)
  | RecoveryState_Transient source limit release failure, Stop_Abnormal =>
      let '(source, d) := claim source in (RecoveryState_Transient source limit release failure, d)
  | RecoveryState_Transient _ _ _ failure, Stop_Normal => (r, decision_of failure)
  | RecoveryState_Temporary failure, _ => (r, decision_of failure)
  end.

Definition recovery_failure (r : PoolRecoveryState S) : PoolFailureReaction :=
  match r with
  | RecoveryState_Permanent _ _ _ failure | RecoveryState_Transient _ _ _ failure
  | RecoveryState_Temporary failure => failure
  end.

Definition restore (s : WorkerRecoverySource S) (returned : S) : result (WorkerRecoverySource S) S :=
  match s with
  | SourceAwaitingReturn => Ok (SourceAvailable returned)
  | SourceAvailable _ => Err returned
  end.

Definition restore_source (r : PoolRecoveryState S) (returned : S) : PoolRecoveryState S * result () S :=
  match r with
  | RecoveryState_Permanent source limit release failure =>
      match restore source returned with
      | Ok source => (RecoveryState_Permanent source limit release failure, Ok ())
      | Err returned => (r, Err returned)
      end
  | RecoveryState_Transient source limit release failure =>
      match restore source returned with
      | Ok source => (RecoveryState_Transient source limit release failure, Ok ())
      | Err returned => (r, Err returned)
      end
  | RecoveryState_Temporary _ => (r, Err returned)
  end.

Definition claim_waiting_source (r : PoolRecoveryState S) : PoolRecoveryState S * option S :=
  match r with
  | RecoveryState_Permanent source limit release failure =>
      let '(source, claimed) := claim_source source in
      (RecoveryState_Permanent source limit release failure, claimed)
  | RecoveryState_Transient source limit release failure =>
      let '(source, claimed) := claim_source source in
      (RecoveryState_Transient source limit release failure, claimed)
  | RecoveryState_Temporary _ => (r, None)
  end.

(** The number of sources given out, of the sources there are. *)
Definition sources_out (r : PoolRecoveryState S) : nat :=
  match r with
  | RecoveryState_Permanent SourceAwaitingReturn _ _ _
  | RecoveryState_Transient SourceAwaitingReturn _ _ _ => 1
  | _ => 0
  end.

Definition sources_home (r : PoolRecoveryState S) : nat :=
  match r with
  | RecoveryState_Permanent (SourceAvailable _) _ _ _
  | RecoveryState_Transient (SourceAvailable _) _ _ _ => 1
  | _ => 0
  end.

(** The policy that never changes. *)
Definition same_policy (r r' : PoolRecoveryState S) : Prop :=
  match r, r' with
  | RecoveryState_Permanent _ l rel f, RecoveryState_Permanent _ l' rel' f'
  | RecoveryState_Transient _ l rel f, RecoveryState_Transient _ l' rel' f' => l = l' /\ rel = rel' /\ f = f'
  | RecoveryState_Temporary f, RecoveryState_Temporary f' => f = f'
  | _, _ => False
  end.

Lemma same_policy_refl r : same_policy r r.
Proof. by destruct r; simpl. Qed.

Lemma same_policy_trans r1 r2 r3 : same_policy r1 r2 -> same_policy r2 r3 -> same_policy r1 r3.
Proof. destruct r1, r2, r3; naive_solver. Qed.

Lemma decide_spec r stop :
  let '(r', d) := decide r stop in
  same_policy r r' /\
  match d with
  | Decision_PrepareWorker _ => sources_out r = 0 /\ sources_out r' = 1
  | Decision_WaitForSource => sources_out r = 1 /\ r' = r
  | Decision_RetireRole => recovery_failure r = Reaction_RetireRole /\ r' = r
  | Decision_StopPool => recovery_failure r = Reaction_StopPool /\ r' = r
  end.
Proof.
  destruct r as [[] ? ? []|[] ? ? []|[]], stop; simpl; auto.
Qed.

Lemma restore_source_spec r s :
  match restore_source r s with
  | (r', Ok _) => same_policy r r' /\ sources_out r = 1 /\ sources_out r' = 0 /\ sources_home r' = 1
  | (r', Err back) => r' = r /\ back = s /\ sources_out r = 0
  end.
Proof. destruct r as [[] ? ? ?|[] ? ? ?|?]; simpl; auto. Qed.

Lemma claim_waiting_spec r :
  match claim_waiting_source r with
  | (r', Some _) => same_policy r r' /\ sources_out r = 0 /\ sources_out r' = 1
  | (r', None) => r' = r /\ sources_home r = 0
  end.
Proof. destruct r as [[] ? ? ?|[] ? ? ?|?]; simpl; auto. Qed.

End Recovery.

(** ** Shutdown correlations ([pool/shutdown.rs]) *)

Record ShutdownSequence := mkShutdownSequence { next_shutdown : option N }.

Definition shutdowns_new : ShutdownSequence := mkShutdownSequence (Some 0%N).

Fixpoint reserve_loop (count : nat) (next : option N) (reserved : list ShutdownId) :
  option (option N * list ShutdownId) :=
  match count with
  | 0 => Some (next, reserved)
  | S count =>
      match next with
      | None => None
      | Some i => reserve_loop count (checked_add u64_max i 1) (reserved ++ [mkShutdownId i])
      end
  end.

Definition reserve (s : ShutdownSequence) (count : nat) : ShutdownSequence * option (list ShutdownId) :=
  match reserve_loop count (next_shutdown s) [] with
  | Some (next, reserved) => (mkShutdownSequence next, Some reserved)
  | None => (s, None)
  end.

Lemma reserve_loop_length count : forall next acc next' l,
  reserve_loop count next acc = Some (next', l) -> length l = length acc + count.
Proof.
  induction count as [|count IH]; intros next acc next' l; simpl; [intros [= _ <-]; lia|].
  destruct next as [i|]; [|done]. intros H%IH. rewrite length_app in H. simpl in H. lia.
Qed.

Lemma reserve_length s count s' l : reserve s count = (s', Some l) -> length l = count.
Proof.
  unfold reserve. destruct (reserve_loop count _ []) as [[next l']|] eqn:H; [|done].
  intros [= _ <-]. by apply reserve_loop_length in H.
Qed.

(** ** Diagnostics ([templates/diagnostic.rs]) *)

Inductive DiagnosticDisposition (Route : Type) : Type :=
| DeliverTo (r : Route)
| Terminate.
Arguments DeliverTo {Route} _.
Arguments Terminate {Route}.

Inductive DiagnosticAction (Route Diagnostic : Type) : Type :=
| Diagnostic_Deliver (r : Route) (d : Diagnostic)
| Diagnostic_Terminal (d : Diagnostic).
Arguments Diagnostic_Deliver {Route Diagnostic} _ _.
Arguments Diagnostic_Terminal {Route Diagnostic} _.

Definition diagnostic_action {Route Diagnostic} (p : DiagnosticDisposition Route) (d : Diagnostic) :
  DiagnosticAction Route Diagnostic :=
  match p with
  | DeliverTo r => Diagnostic_Deliver r d
  | Terminate => Diagnostic_Terminal d
  end.

Definition diagnostic_of {Route Diagnostic} (a : DiagnosticAction Route Diagnostic) : Diagnostic :=
  match a with Diagnostic_Deliver _ d | Diagnostic_Terminal d => d end.

Inductive DiagnosticAccepted (Diagnostic : Type) : Type :=
| Diagnostic_Delivered
| Diagnostic_Retained (d : Diagnostic).
Arguments Diagnostic_Delivered {Diagnostic}.
Arguments Diagnostic_Retained {Diagnostic} _.

Definition retain_accepted {D} (a : DiagnosticAccepted D) : option (DiagnosticAccepted D) :=
  match a with
  | Diagnostic_Delivered => None
  | Diagnostic_Retained d => Some (Diagnostic_Retained d)
  end.

(** ** Customer deliveries ([pool/customer.rs]) *)

Inductive CustomerDelivery (A Ep M : Type) : Type :=
| Customer_Logical (d : Delivery A M)
| Customer_Established (d : EstablishedDelivery Ep M)
| Customer_RejectedLogical (d : Delivery A M) (customer : ReplyRoute A Ep)
| Customer_RejectedEstablished (d : EstablishedDelivery Ep M) (customer : ReplyRoute A Ep).
Arguments Customer_Logical {A Ep M} _.
Arguments Customer_Established {A Ep M} _.
Arguments Customer_RejectedLogical {A Ep M} _ _.
Arguments Customer_RejectedEstablished {A Ep M} _ _.

Definition customer_outcome {A Ep M} (r : ReplyRoute A Ep) (m : M) : CustomerDelivery A Ep M :=
  match r with
  | Logical to => Customer_Logical (mkDelivery to m)
  | Established to => Customer_Established (mkEstablishedDelivery to m)
  end.

Definition customer_rejected {A Ep M} (r : ReplyRoute A Ep) (m : M) : CustomerDelivery A Ep M :=
  match r with
  | Logical to => Customer_RejectedLogical (mkDelivery to m) r
  | Established to => Customer_RejectedEstablished (mkEstablishedDelivery to m) r
  end.
