(* ===== verification/PoolWorker.v ===== *)
(** * Direct pool workers ([templates/pool/worker.rs])

    One semantic role of a pool and its current worker: creation,
    initialization, startup, service, stop, recovery, and retirement during the
    drain of the pool.  [Vec::remove] and [Vec::insert] at a position found by
    a search are [take_at] and [insert_at] of the prelude. *)

From stdpp Require Import base list option numbers.
From S2P Require Import Prelude Effects BTreeMap Timers Restart Termination Settlement Interpretation Creation.
From S2P Require Import Workers WorkerPreparation WorkerStartup ProxyWorker PoolAssignment PoolPolicy.

Section PoolWorkers.
  Context `{PT : PoolTypes}.

Abbreviation pool_child := (StopOnShutdown Worker).
Abbreviation pool_create := (CreateChild pool_child).
Abbreviation pool_settlement :=
  (WorkerCreationSettlement Nonce Worker WorkerError HostedInitialization Installed).
Abbreviation pool_settled := (CreationsSettled Nonce pool_child WorkerError HostedInitialization Installed).
Abbreviation creation_rejection := (WorkerCreationRejection Worker WorkerError HostedInitialization).
Abbreviation prepare_workers := (PrepareWorkers Source Role).
Abbreviation worker_preparation := (WorkerPreparation Source Role Worker Plan WorkerRejection SourceRejection).
Abbreviation preparation_start := (ActionItemResult prepare_workers WorkerPreparationStarted Never Never).
Abbreviation worker_submission := (WorkerSubmission Worker Plan).
Abbreviation role_name := (RoleName Role).

(** ** Rejected creation batches *)

Inductive CreationBatchRejection : Type :=
| Batch_NamespaceExhausted
| Batch_InterpreterCorrupt (fault : InterpreterFault).

Definition batch_worker (r : CreationBatchRejection) (w : Worker) : creation_rejection :=
  match r with
  | Batch_NamespaceExhausted => NamespaceExhausted w
  | Batch_InterpreterCorrupt fault => InterpreterCorrupt w fault
  end.

Definition batch_settlement (r : CreationBatchRejection) (c : Creations pool_create) : pool_settled :=
  match r with
  | Batch_NamespaceExhausted => Creation_Rejected c the_ChildNamespaceExhausted
  | Batch_InterpreterCorrupt fault => Creation_Corrupt c fault
  end.

(** ** Types *)

Inductive WorkerPreparationError : Type :=
| Preparation_WorkerRejected (r : WorkerRejection)
| Preparation_SourceRejected (r : SourceRejection)
| Preparation_InterpreterCorrupt (fault : InterpreterFault)
| Preparation_InterpretationSkipped
| Preparation_SourceStateCorrupt.

Record CurrentWorker := mkCurrent { attempt : WorkerAttempt; current_actor : EstablishedActor Installed }.

Definition current_recipient (c : CurrentWorker) : EstablishedRecipient Endpoint :=
  actor_recipient (current_actor c).

Definition shutdown_request (c : CurrentWorker) (i : ShutdownId) : ShutdownEstablished Installed :=
  mkShutdownEstablished i (current_actor c).

Record CreatingWorker := mkCreating {
  creating_attempt : WorkerAttempt;
  creating_initialization : InitializationAttempt;
  creating_startup : Plan;
  creating_kind : CreationKind;
  creating_stopped : option (ChildStopped Addr)
}.

Inductive ShutdownJoin : Type :=
| AwaitingBoth (request : ShutdownId)
| AwaitingStop (settlement : EstablishedShutdownResolved)
| AwaitingSettlement (request : ShutdownId) (stopped : ChildStopped Addr).

Inductive PoolWorkerPhase : Type :=
| Phase_Initializing (i : InitializationAttempt) (stopped : option (ChildStopped Addr))
| Phase_WaitingForStartup (permit : StartupPermit) (startup : Plan)
| Phase_StartupRequested (g : WorkerStartupGrant) (stopped : option (ChildStopped Addr))
| Phase_Starting (g : WorkerStartupGrant) (stopped : option (ChildStopped Addr))
| Phase_Idle
| Phase_Busy (a : AssignedJob)
| Phase_Stopping (join : ShutdownJoin).

Record PoolWorker := mkPoolWorker { current : CurrentWorker; phase : PoolWorkerPhase }.

Inductive RecoveringWorker : Type :=
| WaitingForSource (previous : WorkerAttempt) (stopped : ChildStopped Addr)
| Preparing (previous : WorkerAttempt) (stopped : ChildStopped Addr)
    (preparation : WorkerPreparationExpectation)
| Recovery_Scheduling (previous : WorkerAttempt) (stopped : ChildStopped Addr)
    (submission : worker_submission) (timer : ScheduleKey)
| Recovery_WaitingForTimer (previous : WorkerAttempt) (stopped : ChildStopped Addr)
    (submission : worker_submission) (timer : ScheduleKey).

Record PreparedReplacement := mkPreparedReplacement {
  prepared_role : role_name;
  prepared_recoveries : RecoveryCount;
  prepared_previous : WorkerAttempt;
  prepared_stopped : ChildStopped Addr;
  prepared_source : Source;
  prepared_submission : worker_submission
}.

Inductive WorkerReplacementError : Type :=
| Replacement_PoolShutdown
| Replacement_RestartDenied (reason : Restart.RestartDenial)
| Replacement_WorkerCreationsExhausted
| Replacement_RestartTimersExhausted
| Replacement_RestartScheduleReturned (r : ScheduleResult)
| Replacement_SourceStateCorrupt.

Inductive WorkerReplacementRelease : Type :=
| Release_Now (creation : CreationId)
| Release_After (timer : ScheduleKey) (delay : Duration).

Record PendingWorkerReplacement := mkPendingReplacement {
  replacement_previous : WorkerAttempt;
  replacement_stopped : ChildStopped Addr;
  replacement_submission : worker_submission
}.

Inductive WorkerRecoveryPreparation : Type :=
| Preparation_Ready (p : PreparedReplacement)
| Preparation_Failed (role : role_name) (recoveries : RecoveryCount) (previous : WorkerAttempt)
    (stopped : ChildStopped Addr) (source : Source) (error : WorkerPreparationError).

Inductive WorkerPreparationStartFault : Type :=
| StartFault_InterpreterCorrupt (fault : InterpreterFault)
| StartFault_InterpretationSkipped.

Record FailedWorkerPreparation := mkFailedPreparation {
  failed_role : role_name;
  failed_recoveries : RecoveryCount;
  failed_previous : WorkerAttempt;
  failed_stopped : ChildStopped Addr;
  failed_source : Source;
  failed_fault : WorkerPreparationStartFault
}.

(** ** Recovery *)

Definition accepts_restart_schedule (r : RecoveringWorker) (input : ScheduleResult) : bool :=
  match r with Recovery_Scheduling _ _ _ timer => accepts_result timer input | _ => false end.

Definition accepts_restart_timer (r : RecoveringWorker) (elapsed : TimerElapsed TimerId) : bool :=
  match r with
  | Recovery_WaitingForTimer _ _ _ timer => same_key timer (elapsed_target elapsed) (elapsed_generation elapsed)
  | _ => false
  end.

Definition admit_restart_schedule (r : RecoveringWorker) (input : ScheduleResult) :
  result (ControlFlow (PendingWorkerReplacement * ScheduleResult) RecoveringWorker)
    (RecoveringWorker * ScheduleResult) :=
  match r with
  | Recovery_Scheduling previous stopped submission timer =>
      match admit_result timer input with
      | Err input => Err (Recovery_Scheduling previous stopped submission timer, input)
      | Ok input =>
          match input with
          | Attempted (Settlement.Accepted _) =>
              Ok (Flow_Continue (Recovery_WaitingForTimer previous stopped submission timer))
          | Attempted (Blocked _ prerequisite) => match prerequisite with end
          | input => Ok (Flow_Break (mkPendingReplacement previous stopped submission, input))
          end
      end
  | r => Err (r, input)
  end.

Definition admit_restart_timer (r : RecoveringWorker) (elapsed : TimerElapsed TimerId) :
  result PendingWorkerReplacement (RecoveringWorker * TimerElapsed TimerId) :=
  match r with
  | Recovery_WaitingForTimer previous stopped submission timer =>
      match admit_elapsed timer elapsed with
      | Ok _ => Ok (mkPendingReplacement previous stopped submission)
      | Err elapsed => Err (Recovery_WaitingForTimer previous stopped submission timer, elapsed)
      end
  | r => Err (r, elapsed)
  end.

(** What a preparation keeps of its role. *)
Abbreviation preparing_member :=
  (role_name * RecoveryCount * WorkerAttempt * ChildStopped Addr * WorkerPreparationExpectation)%type.

Definition accept_preparation_start (m : preparing_member) (input : preparation_start) :
  result (ControlFlow FailedWorkerPreparation preparing_member) (preparing_member * preparation_start) :=
  let '(role, recoveries, previous, stopped, expected) := m in
  if accepts_issued expected input then
    match input with
    | Attempted (Settlement.Accepted started) =>
        match accept_start expected started with
        | Ok expected => Ok (Flow_Continue (role, recoveries, previous, stopped, expected))
        | Err expected =>
            Err (role, recoveries, previous, stopped, expected, Attempted (Settlement.Accepted started))
        end
    | Attempted (Corrupt item fault) =>
        let '(source, _, _) := request_into_parts item in
        Ok (Flow_Break (mkFailedPreparation role recoveries previous stopped source
                          (StartFault_InterpreterCorrupt fault)))
    | Unattempted item =>
        let '(source, _, _) := request_into_parts item in
        Ok (Flow_Break (mkFailedPreparation role recoveries previous stopped source
                          StartFault_InterpretationSkipped))
    | Attempted (Rejected _ reason) => match reason with end
    | Attempted (Blocked _ prerequisite) => match prerequisite with end
    end
  else Err (role, recoveries, previous, stopped, expected, input).

(** [Vec::pop] takes the last member. *)
Definition accept_preparation_return (m : preparing_member) (returned : worker_preparation) :
  result WorkerRecoveryPreparation (preparing_member * worker_preparation) :=
  let '(role, recoveries, previous, stopped, expected) := m in
  if accepts_return expected returned then
    let '(ticket, outcome) := preparation_into_parts returned in
    match outcome with
    | Outcome_Prepared source members =>
        match list.last members with
        | Some prepared =>
            Ok (Preparation_Ready
                  (mkPreparedReplacement role recoveries previous stopped source (submission prepared)))
        | None =>
            Err (role, recoveries, previous, stopped, expected,
                 mkPreparation ticket (Outcome_Prepared source members))
        end
    | Outcome_WorkerRejected source _ _ reason _ =>
        Ok (Preparation_Failed role recoveries previous stopped source (Preparation_WorkerRejected reason))
    | Outcome_SourceRejected source _ reason _ =>
        Ok (Preparation_Failed role recoveries previous stopped source (Preparation_SourceRejected reason))
    end
  else Err (role, recoveries, previous, stopped, expected, returned).

(** ** Joining a shutdown settlement with a stop *)

Definition join_request (j : ShutdownJoin) : ShutdownId :=
  match j with
  | AwaitingBoth request | AwaitingSettlement request _ => request
  | AwaitingStop settlement => resolved_id settlement
  end.

Abbreviation join_flow :=
  (ControlFlow (EstablishedShutdownResolved * ChildStopped Addr) ShutdownJoin).

Definition join_settled (j : ShutdownJoin) (settlement : EstablishedShutdownResolved) :
  result join_flow (ShutdownJoin * EstablishedShutdownResolved) :=
  match j with
  | AwaitingBoth expected =>
      if bool_decide (resolved_id settlement = expected)
      then Ok (Flow_Continue (AwaitingStop settlement)) else Err (j, settlement)
  | AwaitingSettlement request stopped =>
      if bool_decide (resolved_id settlement = request)
      then Ok (Flow_Break (settlement, stopped)) else Err (j, settlement)
  | AwaitingStop _ => Err (j, settlement)
  end.

Definition join_stopped (j : ShutdownJoin) (stopped : ChildStopped Addr) (w : WorkerAttempt) :
  result join_flow (ShutdownJoin * ChildStopped Addr) :=
  if bool_decide (stopped_child stopped = attempt_creation w) then
    match j with
    | AwaitingBoth request => Ok (Flow_Continue (AwaitingSettlement request stopped))
    | AwaitingStop settlement => Ok (Flow_Break (settlement, stopped))
    | AwaitingSettlement _ _ => Err (j, stopped)
    end
  else Err (j, stopped).

(** ** Members *)

Inductive MemberState : Type :=
| Member_Creating (w : CreatingWorker)
| Member_Worker (w : PoolWorker)
| Member_Recovering (r : RecoveringWorker)
| Member_Retired.

Record Member := mkMember {
  member_role : role_name;
  recoveries : RecoveryCount;
  member_state : MemberState
}.

Inductive WorkerStartupCustody : Type :=
| Custody_StartupPlan (p : Plan)
| Custody_Initializing (i : InitializationAttempt)
| Custody_StartupPermit (permit : StartupPermit) (startup : Plan)
| Custody_StartupRequested (g : WorkerStartupGrant)
| Custody_Starting (g : WorkerStartupGrant).

Inductive WorkerShutdownStatus : Type :=
| Shutdown_NotRequested
| Shutdown_Waiting (join : ShutdownJoin).

Inductive RetirementStatus : Type :=
| Retirement_AwaitingCreation (w : CreatingWorker)
| Retirement_Established (current : CurrentWorker) (startup : option WorkerStartupCustody)
    (shutdown : WorkerShutdownStatus)
| Retirement_AwaitingPreparation (recoveries : RecoveryCount) (previous : WorkerAttempt)
    (stopped : ChildStopped Addr) (preparation : WorkerPreparationExpectation)
| Retirement_AwaitingRestartSchedule (replacement : PendingWorkerReplacement) (timer : ScheduleKey)
| Retirement_Drained.

Record RetiringWorker := mkRetiring { retiring_role : role_name; retiring_state : RetirementStatus }.

Record WorkerDeparture := mkDeparture {
  departure_role : role_name;
  departure_startup : option WorkerStartupCustody;
  departure_shutdown : EstablishedShutdownResolved
}.

Inductive WorkerCustody : Type :=
| Worker_Running (role : role_name) (worker : CurrentWorker) (startup : Plan)
| Worker_Rejected (role : role_name) (rejection : creation_rejection) (startup : Plan)
    (stopped : option (ChildStopped Addr))
| Worker_Stopped (role : role_name) (worker : CurrentWorker) (startup : Plan) (stopped : ChildStopped Addr).

Inductive RetiringWorkerInitialization : Type :=
| RetiringInit_Returned (workers : list RetiringWorker) (report : WorkerInitializationReport)
| RetiringInit_WorkerStopped (workers : list RetiringWorker) (departure : option WorkerDeparture)
    (role : role_name) (startup : Plan).

Inductive RetiringWorkerStartup : Type :=
| RetiringStartup_Started (workers : list RetiringWorker)
| RetiringStartup_Returned (workers : list RetiringWorker) (role : role_name) (worker : WorkerAttempt)
    (startup : WorkerStartupGrant) (outcome : WorkerStartupOutcome)
| RetiringStartup_Unrelated (workers : list RetiringWorker) (startup : WorkerStartup).

Inductive RetirementReturns : Type :=
| Returns_NoTransfer
| Returns_Assignment (a : AssignmentShutdown)
| Returns_Replacement (r : PendingWorkerReplacement).

Record MemberRetirement := mkMemberRetirement {
  retirement_member : RetiringWorker;
  retirement_request : option (ShutdownEstablished Installed);
  retirement_custody : RetirementReturns
}.

Inductive WorkerCreationAdmission : Type :=
| Admission_Initializing (m : Member) (request : InitializeWorker)
| Admission_Rejected (m : Member) (role : role_name) (rejection : creation_rejection) (startup : Plan)
    (stopped : option (ChildStopped Addr))
| Admission_Unrelated (m : Member) (creation : pool_settlement).

(** ** Creation settlements *)

Definition creation_identity (s : pool_settlement) : option (CreationId * CreationKind) :=
  match s with
  | Attempted (Settlement.Accepted created) => Some (outcome_identity created)
  | Attempted (Rejected item _) | Attempted (Corrupt item _) | Unattempted item =>
      Some (routed_id item, routed_kind item)
  | Attempted (Blocked _ _) => None
  end.

Fixpoint positions_loop (expected : list (option (CreationId * CreationKind)))
  (identities : list (CreationId * CreationKind)) (positions : list nat) : option (list nat) :=
  match identities with
  | [] => Some positions
  | identity :: identities =>
      match position (fun e => bool_decide (e = Some identity)) expected with
      | None => None
      | Some p =>
          match list.last positions with
          | Some previous =>
              if p <=? previous then None else positions_loop expected identities (positions ++ [p])
          | None => positions_loop expected identities (positions ++ [p])
          end
      end
  end.

Definition ordered_creation_positions (expected : list (option (CreationId * CreationKind)))
  (identities : list (CreationId * CreationKind)) : option (list nat) :=
  match positions_loop expected identities [] with
  | None => None
  | Some positions => match positions with [] => None | _ => Some positions end
  end.

(** ** Retiring workers *)

Definition retire_worker (role : role_name) (c : CurrentWorker) (startup : option WorkerStartupCustody)
  (shutdown : option ShutdownId) : RetiringWorker * option (ShutdownEstablished Installed) :=
  match shutdown with
  | Some i =>
      (mkRetiring role (Retirement_Established c startup (Shutdown_Waiting (AwaitingBoth i))),
       Some (shutdown_request c i))
  | None => (mkRetiring role (Retirement_Established c startup Shutdown_NotRequested), None)
  end.

Definition retiring_initialization (w : RetiringWorker) : option InitializationAttempt :=
  match retiring_state w with
  | Retirement_Established _ (Some (Custody_Initializing i)) _ => Some i
  | _ => None
  end.

Definition retiring_startup (w : RetiringWorker) : option WorkerStartupGrant :=
  match retiring_state w with
  | Retirement_Established _ (Some (Custody_StartupRequested g | Custody_Starting g)) _ => Some g
  | _ => None
  end.

Definition retiring_expected_creation (w : RetiringWorker) : option (CreationId * CreationKind) :=
  match retiring_state w with
  | Retirement_AwaitingCreation w => Some (attempt_creation (creating_attempt w), creating_kind w)
  | _ => None
  end.

Definition waiting (w : RetiringWorker) : option RetirementStatus :=
  match retiring_state w with
  | Retirement_Drained => None
  | state => Some state
  end.

Abbreviation departing := (ControlFlow WorkerDeparture RetiringWorker).

Definition accept_exit (w : RetiringWorker) (stopped : ChildStopped Addr) :
  result departing (RetiringWorker * ChildStopped Addr) :=
  let '(mkRetiring role state) := w in
  match state with
  | Retirement_AwaitingCreation c =>
      if bool_decide (attempt_creation (creating_attempt c) = stopped_child stopped) then
        match creating_stopped c with
        | None =>
            Ok (Flow_Continue (mkRetiring role (Retirement_AwaitingCreation
                  (mkCreating (creating_attempt c) (creating_initialization c) (creating_startup c)
                     (creating_kind c) (Some stopped)))))
        | Some _ => Err (mkRetiring role (Retirement_AwaitingCreation c), stopped)
        end
      else Err (mkRetiring role state, stopped)
  | Retirement_Established current startup (Shutdown_Waiting join) =>
      match join_stopped join stopped (attempt current) with
      | Ok (Flow_Continue join) =>
          Ok (Flow_Continue (mkRetiring role
                (Retirement_Established current startup (Shutdown_Waiting join))))
      | Ok (Flow_Break (shutdown, _)) => Ok (Flow_Break (mkDeparture role startup shutdown))
      | Err (join, stopped) =>
          Err (mkRetiring role (Retirement_Established current startup (Shutdown_Waiting join)), stopped)
      end
  | state => Err (mkRetiring role state, stopped)
  end.

Definition accept_creation (w : RetiringWorker) (settlement : pool_settlement) :
  result WorkerCustody (RetiringWorker * pool_settlement) :=
  let '(mkRetiring role state) := w in
  match state with
  | Retirement_AwaitingCreation c =>
      if bool_decide (creation_identity settlement =
                      Some (attempt_creation (creating_attempt c), creating_kind c)) then
        match settle_worker_creation settlement with
        | WorkerEstablished actor =>
            let current := mkCurrent (creating_attempt c) actor in
            match creating_stopped c with
            | Some stopped => Ok (Worker_Stopped role current (creating_startup c) stopped)
            | None => Ok (Worker_Running role current (creating_startup c))
            end
        | WorkerCreation_Rejected rejection =>
            Ok (Worker_Rejected role rejection (creating_startup c) (creating_stopped c))
        end
      else Err (mkRetiring role (Retirement_AwaitingCreation c), settlement)
  | state => Err (mkRetiring role state, settlement)
  end.

Definition accept_creation_rejection (w : RetiringWorker) (i : CreationId) (k : CreationKind)
  (rejection : creation_rejection) :
  result WorkerCustody (RetiringWorker * CreationId * CreationKind * creation_rejection) :=
  let '(mkRetiring role state) := w in
  match state with
  | Retirement_AwaitingCreation c =>
      if bool_decide ((i, k) = (attempt_creation (creating_attempt c), creating_kind c))
      then Ok (Worker_Rejected role rejection (creating_startup c) (creating_stopped c))
      else Err (mkRetiring role (Retirement_AwaitingCreation c), i, k, rejection)
  | state => Err (mkRetiring role state, i, k, rejection)
  end.

Definition accept_shutdown_settlement (w : RetiringWorker) (settlement : EstablishedShutdownResolved) :
  result departing (RetiringWorker * EstablishedShutdownResolved) :=
  let '(mkRetiring role state) := w in
  match state with
  | Retirement_Established current startup (Shutdown_Waiting join) =>
      match join_settled join settlement with
      | Ok (Flow_Continue join) =>
          Ok (Flow_Continue (mkRetiring role
                (Retirement_Established current startup (Shutdown_Waiting join))))
      | Ok (Flow_Break (shutdown, _)) => Ok (Flow_Break (mkDeparture role startup shutdown))
      | Err (join, settlement) =>
          Err (mkRetiring role (Retirement_Established current startup (Shutdown_Waiting join)), settlement)
      end
  | state => Err (mkRetiring role state, settlement)
  end.

Definition awaits_preparation_start (input : preparation_start) (w : RetiringWorker) : bool :=
  match retiring_state w with
  | Retirement_AwaitingPreparation _ _ _ preparation => accepts_issued preparation input
  | _ => false
  end.

Definition accept_retiring_worker_preparation_start (workers : list RetiringWorker)
  (input : preparation_start) :
  result (ControlFlow (list RetiringWorker * FailedWorkerPreparation) (list RetiringWorker))
    (list RetiringWorker * preparation_start) :=
  match take_at (awaits_preparation_start input) workers with
  | None => Err (workers, input)
  | Some (position, mkRetiring role state, rest) =>
      match state with
      | Retirement_AwaitingPreparation recoveries previous stopped preparation =>
          match accept_preparation_start (role, recoveries, previous, stopped, preparation) input with
          | Ok (Flow_Continue (role, recoveries, previous, stopped, preparation)) =>
              Ok (Flow_Continue (insert_at position (mkRetiring role
                    (Retirement_AwaitingPreparation recoveries previous stopped preparation)) rest))
          | Ok (Flow_Break failed) =>
              Ok (Flow_Break (insert_at position (mkRetiring role Retirement_Drained) rest, failed))
          | Err (role, recoveries, previous, stopped, preparation, input) =>
              Err (insert_at position (mkRetiring role
                     (Retirement_AwaitingPreparation recoveries previous stopped preparation)) rest, input)
          end
      | state => Err (insert_at position (mkRetiring role state) rest, input)
      end
  end.

Definition awaits_preparation_return (returned : worker_preparation) (w : RetiringWorker) : bool :=
  match retiring_state w with
  | Retirement_AwaitingPreparation _ _ _ preparation => accepts_return preparation returned
  | _ => false
  end.

Definition accept_retiring_worker_preparation_return (workers : list RetiringWorker)
  (returned : worker_preparation) :
  result (list RetiringWorker * WorkerRecoveryPreparation) (list RetiringWorker * worker_preparation) :=
  match take_at (awaits_preparation_return returned) workers with
  | None => Err (workers, returned)
  | Some (position, mkRetiring role state, rest) =>
      match state with
      | Retirement_AwaitingPreparation recoveries previous stopped preparation =>
          match accept_preparation_return (role, recoveries, previous, stopped, preparation) returned with
          | Ok prepared => Ok (insert_at position (mkRetiring role Retirement_Drained) rest, prepared)
          | Err (role, recoveries, previous, stopped, preparation, returned) =>
              Err (insert_at position (mkRetiring role
                     (Retirement_AwaitingPreparation recoveries previous stopped preparation)) rest, returned)
          end
      | state => Err (insert_at position (mkRetiring role state) rest, returned)
      end
  end.

Definition accept_worker_initialization (workers : list RetiringWorker)
  (report : WorkerInitializationReport) : RetiringWorkerInitialization :=
  match take_at (fun w => bool_decide (retiring_initialization w = Some (report_initialization report)))
          workers with
  | None => RetiringInit_Returned workers report
  | Some (position, mkRetiring role state, rest) =>
      match state with
      | Retirement_Established current (Some (Custody_Initializing expected)) (Shutdown_Waiting join) =>
          let retained startup join :=
            mkRetiring role (Retirement_Established current startup (Shutdown_Waiting join)) in
          match report with
          | InitializationStopped w i startup stopped =>
              if bool_decide (stopped_child stopped = attempt_creation (attempt current)) then
                match join_stopped join stopped (attempt current) with
                | Ok (Flow_Continue join) =>
                    RetiringInit_WorkerStopped (insert_at position (retained None join) rest) None role startup
                | Ok (Flow_Break (shutdown, _)) =>
                    RetiringInit_WorkerStopped rest (Some (mkDeparture role None shutdown)) role startup
                | Err (join, stopped) =>
                    RetiringInit_Returned
                      (insert_at position (retained (Some (Custody_Initializing expected)) join) rest)
                      (InitializationStopped w i startup stopped)
                end
              else
                RetiringInit_Returned
                  (insert_at position (retained (Some (Custody_Initializing expected)) join) rest)
                  (InitializationStopped w i startup stopped)
          | report => RetiringInit_Returned (insert_at position (retained None join) rest) report
          end
      | state => RetiringInit_Returned (insert_at position (mkRetiring role state) rest) report
      end
  end.

Definition accept_worker_startup (workers : list RetiringWorker) (input : WorkerStartup) :
  RetiringWorkerStartup :=
  match take_at (fun w => bool_decide (retiring_startup w = Some (startup_grant input))) workers with
  | None => RetiringStartup_Unrelated workers input
  | Some (position, mkRetiring role state, rest) =>
      match state with
      | Retirement_Established current startup shutdown =>
          let retained startup := mkRetiring role (Retirement_Established current startup shutdown) in
          match startup with
          | Some (Custody_StartupRequested _) =>
              let '(worker, grant, outcome) := startup_into_parts input in
              match outcome with
              | Startup_Started =>
                  RetiringStartup_Started (insert_at position (retained (Some (Custody_Starting grant))) rest)
              | outcome =>
                  RetiringStartup_Returned (insert_at position (retained None) rest) role worker grant outcome
              end
          | Some (Custody_Starting expected) =>
              let '(worker, grant, outcome) := startup_into_parts input in
              let startup :=
                match outcome with Startup_Started => Some (Custody_Starting expected) | _ => None end in
              RetiringStartup_Returned (insert_at position (retained startup) rest) role worker grant outcome
          | startup => RetiringStartup_Unrelated (insert_at position (retained startup) rest) input
          end
      | state => RetiringStartup_Unrelated (insert_at position (mkRetiring role state) rest) input
      end
  end.

(** The first worker that takes the input; the others are put back. *)
Fixpoint accept_worker_exit (workers : list RetiringWorker) (stopped : ChildStopped Addr) :
  result (ControlFlow (list RetiringWorker * WorkerDeparture) (list RetiringWorker))
    (list RetiringWorker * ChildStopped Addr) :=
  match workers with
  | [] => Err ([], stopped)
  | w :: rest =>
      match accept_exit w stopped with
      | Ok (Flow_Continue w) => Ok (Flow_Continue (w :: rest))
      | Ok (Flow_Break departure) => Ok (Flow_Break (rest, departure))
      | Err (w, stopped) =>
          match accept_worker_exit rest stopped with
          | Ok (Flow_Continue rest) => Ok (Flow_Continue (w :: rest))
          | Ok (Flow_Break (rest, departure)) => Ok (Flow_Break (w :: rest, departure))
          | Err (rest, stopped) => Err (w :: rest, stopped)
          end
      end
  end.

Fixpoint accept_worker_shutdown (workers : list RetiringWorker) (settlement : EstablishedShutdownResolved) :
  result (ControlFlow (list RetiringWorker * WorkerDeparture) (list RetiringWorker))
    (list RetiringWorker * EstablishedShutdownResolved) :=
  match workers with
  | [] => Err ([], settlement)
  | w :: rest =>
      match accept_shutdown_settlement w settlement with
      | Ok (Flow_Continue w) => Ok (Flow_Continue (w :: rest))
      | Ok (Flow_Break departure) => Ok (Flow_Break (rest, departure))
      | Err (w, settlement) =>
          match accept_worker_shutdown rest settlement with
          | Ok (Flow_Continue rest) => Ok (Flow_Continue (w :: rest))
          | Ok (Flow_Break (rest, departure)) => Ok (Flow_Break (w :: rest, departure))
          | Err (rest, settlement) => Err (w :: rest, settlement)
          end
      end
  end.

(** ** Operating members *)

Definition worker_attempt (m : Member) : option WorkerAttempt :=
  match member_state m with Member_Worker w => Some (attempt (current w)) | _ => None end.

Definition with_state (m : Member) (s : MemberState) : Member := mkMember (member_role m) (recoveries m) s.

Definition authorize_startup (m : Member) : result (Alloc (Member * StartWorker)) Member :=
  match member_state m with
  | Member_Worker (mkPoolWorker current (Phase_WaitingForStartup permit startup)) =>
      Ok (request ← start_worker_new startup permit;
          mret (with_state m (Member_Worker
                  (mkPoolWorker current (Phase_StartupRequested (start_attempt request) None))), request))
  | _ => Err m
  end.

Definition member_preparation_start (m : Member) (input : preparation_start) :
  result (ControlFlow FailedWorkerPreparation Member) (Member * preparation_start) :=
  match member_state m with
  | Member_Recovering (Preparing previous stopped expected) =>
      match accept_preparation_start (member_role m, recoveries m, previous, stopped, expected) input with
      | Ok (Flow_Continue (role, recoveries, previous, stopped, preparation)) =>
          Ok (Flow_Continue (mkMember role recoveries
                (Member_Recovering (Preparing previous stopped preparation))))
      | Ok (Flow_Break failed) => Ok (Flow_Break failed)
      | Err (role, recoveries, previous, stopped, preparation, input) =>
          Err (mkMember role recoveries (Member_Recovering (Preparing previous stopped preparation)), input)
      end
  | _ => Err (m, input)
  end.

Definition member_preparation_return (m : Member) (returned : worker_preparation) :
  result WorkerRecoveryPreparation (Member * worker_preparation) :=
  match member_state m with
  | Member_Recovering (Preparing previous stopped preparation) =>
      match accept_preparation_return (member_role m, recoveries m, previous, stopped, preparation) returned with
      | Ok accepted => Ok accepted
      | Err (role, recoveries, previous, stopped, preparation, returned) =>
          Err (mkMember role recoveries (Member_Recovering (Preparing previous stopped preparation)), returned)
      end
  | _ => Err (m, returned)
  end.

Definition expected_creation (m : Member) : option (CreationId * CreationKind) :=
  match member_state m with
  | Member_Creating w => Some (attempt_creation (creating_attempt w), creating_kind w)
  | _ => None
  end.

Definition shutdown_target (m : Member) : option CurrentWorker :=
  match member_state m with
  | Member_Worker w =>
      match phase w with
      | Phase_Initializing _ None | Phase_WaitingForStartup _ _ | Phase_StartupRequested _ None
      | Phase_Starting _ None | Phase_Idle => Some (current w)
      | Phase_Busy a => match observed_stop a with Some _ => None | None => Some (current w) end
      | Phase_Initializing _ (Some _) | Phase_StartupRequested _ (Some _) | Phase_Starting _ (Some _)
      | Phase_Stopping _ => None
      end
  | _ => None
  end.

Definition member_start (role : role_name) (count : RecoveryCount) (startup : Plan) (request : pool_create) :
  Alloc (Member * pool_create * ObserveChild) :=
  let creation := id request in
  attempt ← attempt_issued creation;
  initialization ← initialization_issued attempt;
  mret (mkMember role count
          (Member_Creating (mkCreating attempt initialization startup (kind request) None)),
        request, mkObserveChild creation).

Definition member_begin (prepared : PreparedWorker Role Worker Plan) (creation : CreationId) :
  Alloc (Member * pool_create * ObserveChild) :=
  let '(with_startup worker startup) := submission prepared in
  member_start (role_name_new (role prepared)) count_new startup
    (birth creation (stop_on_shutdown_new worker)).

Definition begin_replacement (prepared : PreparedWorker role_name Worker Plan) (count : RecoveryCount)
  (previous creation : CreationId) : Alloc (Member * pool_create * ObserveChild) :=
  let '(with_startup worker startup) := submission prepared in
  member_start (role prepared) count startup
    (replacement creation previous (stop_on_shutdown_new worker)).

Definition begin_initialization (role : role_name) (count : RecoveryCount) (starting : CreatingWorker)
  (actor : EstablishedActor Installed) : Member * InitializeWorker :=
  let current := mkCurrent (creating_attempt starting) actor in
  (mkMember role count (Member_Worker (mkPoolWorker current
      (Phase_Initializing (creating_initialization starting) (creating_stopped starting)))),
   mkInitialize (creating_attempt starting) (creating_initialization starting)
     (current_recipient current) (creating_startup starting)).

Definition admit_creation (m : Member) (settlement : pool_settlement) : WorkerCreationAdmission :=
  match member_state m with
  | Member_Creating starting =>
      if bool_decide (creation_identity settlement =
                      Some (attempt_creation (creating_attempt starting), creating_kind starting)) then
        match settle_worker_creation settlement with
        | WorkerEstablished actor =>
            let '(m, request) := begin_initialization (member_role m) (recoveries m) starting actor in
            Admission_Initializing m request
        | WorkerCreation_Rejected rejection =>
            Admission_Rejected (with_state m Member_Retired) (member_role m) rejection
              (creating_startup starting) (creating_stopped starting)
        end
      else Admission_Unrelated m settlement
  | _ => Admission_Unrelated m settlement
  end.

Definition admit_initialization (m : Member) (input : WorkerInitializationReport) :
  result Member (Member * WorkerInitializationReport) :=
  match member_state m with
  | Member_Worker (mkPoolWorker current (Phase_Initializing _ None)) =>
      match input with
      | ReadyForStartup _ _ startup permit =>
          Ok (with_state m (Member_Worker (mkPoolWorker current (Phase_WaitingForStartup permit startup))))
      | input => Err (m, input)
      end
  | _ => Err (m, input)
  end.

Definition admit_startup (m : Member) (input : WorkerStartup) : result Member (Member * WorkerStartup) :=
  match member_state m with
  | Member_Worker (mkPoolWorker current phase) =>
      if bool_decide (attempt current = startup_worker input) then
        match phase with
        | Phase_StartupRequested g stopped =>
            if bool_decide (g = startup_grant input) then
              match into_started input with
              | Ok _ => Ok (with_state m (Member_Worker (mkPoolWorker current (Phase_Starting g stopped))))
              | Err input => Err (m, input)
              end
            else Err (m, input)
        | Phase_Starting g None =>
            if bool_decide (g = startup_grant input) then
              match into_ready input with
              | Ok _ => Ok (with_state m (Member_Worker (mkPoolWorker current Phase_Idle)))
              | Err input => Err (m, input)
              end
            else Err (m, input)
        | _ => Err (m, input)
        end
      else Err (m, input)
  | _ => Err (m, input)
  end.

(** [retire_worker] with nothing transferred. *)
Definition retire_member (role : role_name) (c : CurrentWorker) (startup : option WorkerStartupCustody)
  (shutdown : option ShutdownId) (custody : RetirementReturns) : MemberRetirement :=
  let '(member, request) := retire_worker role c startup shutdown in
  mkMemberRetirement member request custody.

Definition member_shutdown (m : Member) (shutdown : option ShutdownId) : MemberRetirement :=
  let role := member_role m in
  let retained state := mkMemberRetirement (mkRetiring role state) None Returns_NoTransfer in
  match member_state m with
  | Member_Creating w => retained (Retirement_AwaitingCreation w)
  | Member_Worker (mkPoolWorker current phase) =>
      match phase with
      | Phase_Initializing i None =>
          retire_member role current (Some (Custody_Initializing i)) shutdown Returns_NoTransfer
      | Phase_WaitingForStartup permit startup =>
          retire_member role current (Some (Custody_StartupPermit permit startup)) shutdown Returns_NoTransfer
      | Phase_StartupRequested g None =>
          retire_member role current (Some (Custody_StartupRequested g)) shutdown Returns_NoTransfer
      | Phase_Starting g None =>
          retire_member role current (Some (Custody_Starting g)) shutdown Returns_NoTransfer
      | Phase_Idle => retire_member role current None shutdown Returns_NoTransfer
      | Phase_Busy a =>
          let assignment := assigned_shutdown a in
          match shutdown_stopped assignment with
          | Some _ =>
              mkMemberRetirement (mkRetiring role Retirement_Drained) None (Returns_Assignment assignment)
          | None => retire_member role current None shutdown (Returns_Assignment assignment)
          end
      | Phase_Stopping ((AwaitingBoth _ | AwaitingStop _) as join) =>
          retained (Retirement_Established current None (Shutdown_Waiting join))
      | Phase_Initializing _ (Some _) | Phase_StartupRequested _ (Some _) | Phase_Starting _ (Some _)
      | Phase_Stopping (AwaitingSettlement _ _) => retained Retirement_Drained
      end
  | Member_Recovering (Preparing previous stopped preparation) =>
      retained (Retirement_AwaitingPreparation (recoveries m) previous stopped preparation)
  | Member_Recovering (Recovery_Scheduling previous stopped submission timer) =>
      retained (Retirement_AwaitingRestartSchedule (mkPendingReplacement previous stopped submission) timer)
  | Member_Recovering (Recovery_WaitingForTimer previous stopped submission _) =>
      mkMemberRetirement (mkRetiring role Retirement_Drained) None
        (Returns_Replacement (mkPendingReplacement previous stopped submission))
  | Member_Recovering (WaitingForSource _ _) | Member_Retired => retained Retirement_Drained
  end.

End PoolWorkers.
