(* ===== verification/PoolMembers.v ===== *)
(** * Members of a pool

    What the pools of both kinds ask of a member: the search predicates of
    [templates/pool/queue/mod.rs] and [templates/pool/router/mod.rs],
    [assignment.rs] and [recovery.rs], the restart policy in force, and the
    creation of the first workers. *)

From stdpp Require Import base list option numbers.
From S2P Require Import Prelude Effects BTreeMap Timers Restart Termination Settlement Interpretation Creation.
From S2P Require Import Workers WorkerPreparation WorkerStartup ProxyWorker PoolAssignment PoolPolicy PoolWorker.

Section PoolMembers.
  Context `{PT : PoolTypes}.

Abbreviation worker_creation := (CreateChild (StopOnShutdown Worker)).
Abbreviation start_result := (ActionItemResult (PrepareWorkers Source Role) WorkerPreparationStarted Never Never).
Abbreviation preparation := (WorkerPreparation Source Role Worker Plan WorkerRejection SourceRejection).

(** ** Search predicates *)

Definition is_idle (m : Member) : bool :=
  match member_state m with Member_Worker (mkPoolWorker _ Phase_Idle) => true | _ => false end.

Definition awaits_receipt (receipt : AssignmentReceipt) (m : Member) : bool :=
  match member_state m with
  | Member_Worker (mkPoolWorker _ (Phase_Busy a)) =>
      match compare_receipt a receipt with Exact => true | Foreign => false end
  | _ => false
  end.

Definition awaits_completion (child : CreationId) (c : Completion) (m : Member) : bool :=
  match member_state m with
  | Member_Worker (mkPoolWorker current (Phase_Busy a)) =>
      if bool_decide (attempt_creation (attempt current) = child)
      then match compare_completion a c with Exact => true | Foreign => false end
      else false
  | _ => false
  end.

Definition awaits_shutdown (request : ShutdownId) (m : Member) : bool :=
  match member_state m with
  | Member_Worker (mkPoolWorker _ (Phase_Stopping join)) => bool_decide (join_request join = request)
  | _ => false
  end.

Definition awaits_start (input : start_result) (m : Member) : bool :=
  match member_state m with
  | Member_Recovering (Preparing _ _ expected) => accepts_issued expected input
  | _ => false
  end.

Definition awaits_return (input : preparation) (m : Member) : bool :=
  match member_state m with
  | Member_Recovering (Preparing _ _ expected) => accepts_return expected input
  | _ => false
  end.

Definition waits_for_source (m : Member) : bool :=
  match member_state m with Member_Recovering (WaitingForSource _ _) => true | _ => false end.

Definition awaits_schedule (input : ScheduleResult) (m : Member) : bool :=
  match member_state m with
  | Member_Recovering r => accepts_restart_schedule r input
  | _ => false
  end.

Definition awaits_timer (elapsed : TimerElapsed TimerId) (m : Member) : bool :=
  match member_state m with
  | Member_Recovering r => accepts_restart_timer r elapsed
  | _ => false
  end.

Definition holds_startup (m : Member) : bool :=
  match member_state m with
  | Member_Worker (mkPoolWorker _ (Phase_StartupRequested _ _ | Phase_Starting _ _)) => true
  | _ => false
  end.

Definition waits_for_startup (m : Member) : bool :=
  match member_state m with
  | Member_Worker (mkPoolWorker _ (Phase_WaitingForStartup _ _)) => true
  | _ => false
  end.

Definition has_attempt (w : WorkerAttempt) (m : Member) : bool :=
  bool_decide (worker_attempt m = Some w).

Definition restart_policy (r : PoolRecoveryState Source) : option (RestartLimit * RestartRelease) :=
  match r with
  | RecoveryState_Permanent _ limit release _ | RecoveryState_Transient _ limit release _ =>
      Some (limit, release)
  | RecoveryState_Temporary _ => None
  end.

(** ** The first workers *)

Fixpoint issue_ids (count : nat) (s : CreationSequence) (ids : list CreationId) :
  CreationSequence * option (list CreationId) :=
  match count with
  | 0 => (s, Some ids)
  | S count =>
      match issue s with
      | (s, None) => (s, None)
      | (s, Some id) => issue_ids count s (ids ++ [id])
      end
  end.

Fixpoint begin_members (l : list (PreparedWorker Role Worker Plan * CreationId)) :
  Alloc (list Member * list worker_creation * list ObserveChild) :=
  match l with
  | [] => mret ([], [], [])
  | (prepared, creation) :: l =>
      '(member, worker, observation) ← member_begin prepared creation;
      '(members, workers, observations) ← begin_members l;
      mret (member :: members, worker :: workers, observation :: observations)
  end.

(** ** Retiring workers *)

Definition any_waiting (workers : list RetiringWorker) : bool :=
  existsb (fun w => match waiting w with Some _ => true | None => false end) workers.

Definition start_fault_error (f : WorkerPreparationStartFault) : WorkerPreparationError :=
  match f with
  | StartFault_InterpreterCorrupt fault => Preparation_InterpreterCorrupt fault
  | StartFault_InterpretationSkipped => Preparation_InterpretationSkipped
  end.

Definition awaits_restart_schedule (settled : ScheduleResult) (w : RetiringWorker) : bool :=
  match retiring_state w with
  | Retirement_AwaitingRestartSchedule _ timer => accepts_result timer settled
  | _ => false
  end.

End PoolMembers.
