(* ===== verification/PoolDrain.v ===== *)
(** * What the members of a pool hold, and what retiring workers wait for

    The job, the startup, the source and the readiness that a member holds, as
    lists and counts, and how each operation of PoolWorker.v changes them; the
    invariants of both pools are sums of these.  Then which answers a retiring
    worker still waits for, counted so that each answer takes some away, the
    joins of [templates/pool/worker.rs] that both pools drain with, and the list
    operations on retiring workers: each takes answers away and never adds one,
    and an answer that a worker waits for is always taken. *)

From stdpp Require Import base list list_numbers option numbers sorting.
From S2P Require Import Prelude Effects BTreeMap Timers Restart Termination Settlement Interpretation Creation Workers.
From S2P Require Import WorkerPreparation WorkerStartup ProxyWorker PoolAssignment PoolPolicy PoolWorker PoolMembers.

Section PoolWeights.
  Context `{PT : PoolTypes}.

Abbreviation worker_member role rec current ph := (mkMember role rec (Member_Worker (mkPoolWorker current ph))).
Abbreviation busy_member role rec current a := (worker_member role rec current (Phase_Busy a)).

Definition as_nat (b : bool) : nat := if b then 1 else 0.

Definition idle (m : Member) : nat := as_nat (is_idle m).

Definition starting (m : Member) : nat := as_nat (holds_startup m).

Definition unstarted (m : Member) : nat := as_nat (waits_for_startup m).

Definition stalled (m : Member) : nat := as_nat (waits_for_source m).

Definition preparing (m : Member) : nat :=
  match member_state m with Member_Recovering (Preparing _ _ _) => 1 | _ => 0 end.

Definition busy (m : Member) : list (CustomerJob * CompletionCorrelation) :=
  match member_state m with
  | Member_Worker (mkPoolWorker _ (Phase_Busy a)) => [(assigned_customer a, correlation a)]
  | _ => []
  end.

Definition busies (l : list Member) : list (CustomerJob * CompletionCorrelation) := l ≫= busy.

Definition job_ordinal (j : CustomerJob) : N := ordinal_number (job_admitted j).

Definition budget_ok (r : PoolRecoveryState Source) (b : RestartBudget) : Prop :=
  match restart_policy r with
  | Some (limit, _) => (maximum limit <= u32_max)%N /\ (total (charges b) <= maximum limit)%N
  | None => True
  end.

#[export] Instance busies_Proper : Proper ((≡ₚ) ==> (≡ₚ)) busies.
Proof. intros l k H. unfold busies. by rewrite H. Qed.

Lemma busies_cons m l : busies (m :: l) = busy m ++ busies l.
Proof. done. Qed.

(** A member that holds no more than the one it replaces. *)
Record lighter (m m' : Member) : Prop := {
  lighter_busy : busy m' = busy m \/ busy m' = [];
  lighter_preparing : preparing m' = preparing m;
  lighter_stalled : stalled m' <= stalled m;
  lighter_starting : starting m' <= starting m
}.

(** The counts that only startup and recovery change. *)
Definition counts (l : list Member) : nat * nat := (sum_list_with starting l, sum_list_with unstarted l).

#[export] Instance counts_Proper : Proper ((≡ₚ) ==> (=)) counts.
Proof. intros l k H. unfold counts. by rewrite H. Qed.

Lemma counts_cons m l :
  counts (m :: l) = (starting m + (counts l).1, unstarted m + (counts l).2).
Proof. done. Qed.

Lemma is_idle_inv m : is_idle m = true ->
  exists role r current, m = mkMember role r (Member_Worker (mkPoolWorker current Phase_Idle)).
Proof. destruct m as [role r [|[current []]| |]]; try done. intros _. eauto. Qed.

Lemma idle_weights m : is_idle m = true ->
  busy m = [] /\ preparing m = 0 /\ stalled m = 0 /\ starting m = 0 /\ unstarted m = 0.
Proof. intros (role & r & current & ->)%is_idle_inv. done. Qed.

Lemma sum_list_with_elem {A} (f : A -> nat) l x : x ∈ l -> f x <= sum_list_with f l.
Proof. intros H. by apply sum_list_with_in. Qed.

(** A member waits for the source only while the source is out. *)
Definition awaited (r : PoolRecoveryState Source) : Prop := sources_out r = 1.

(** Between the return of the source and the next preparation, only that there
    is a source at all. *)
Definition has_source (r : PoolRecoveryState Source) : Prop := restart_policy r <> None.

Lemma same_policy_restart r r' : same_policy r r' -> restart_policy r' = restart_policy r.
Proof. destruct r, r'; naive_solver. Qed.

Lemma budget_ok_policy r r' b : same_policy r r' -> budget_ok r b -> budget_ok r' b.
Proof. intros H. unfold budget_ok. by rewrite (same_policy_restart _ _ H). Qed.

Record neutral (m : Member) : Prop := {
  neutral_busy : busy m = [];
  neutral_idle : idle m = 0;
  neutral_starting : starting m = 0;
  neutral_unstarted : unstarted m = 0
}.

Lemma neutral_counts m l : neutral m -> counts (m :: l) = counts l.
Proof. intros []. rewrite counts_cons, neutral_starting0, neutral_unstarted0. by destruct (counts l). Qed.

Lemma sources_out_le (r : PoolRecoveryState Source) : sources_out r <= 1.
Proof. destruct r as [[]|[]|]; simpl; lia. Qed.

Lemma sources_out_has (r : PoolRecoveryState Source) : sources_out r = 1 -> has_source r.
Proof. by destruct r as [[]|[]|]. Qed.

Lemma waits_for_source_inv m : waits_for_source m = true -> neutral m /\ preparing m = 0 /\ stalled m = 1.
Proof. destruct m as [role r [|[c []]|[]|]]; done. Qed.

Lemma stalled_none l : Forall (fun m => waits_for_source m = false) l -> sum_list_with stalled l = 0.
Proof. induction 1 as [|m l Hm _ IH]; [done|]. simpl. unfold stalled at 1. by rewrite Hm, IH. Qed.

Lemma holds_startup_sum l : length (List.filter holds_startup l) = sum_list_with starting l.
Proof.
  induction l as [|m l IH]; [done|]. simpl. unfold starting at 1.
  destruct (holds_startup m); simpl; by rewrite IH.
Qed.

Lemma unstarted_none l : Forall (fun m => waits_for_startup m = false) l -> sum_list_with unstarted l = 0.
Proof. induction 1 as [|m l Hm _ IH]; [done|]. simpl. unfold unstarted at 1. by rewrite Hm, IH. Qed.

Record same_weight (m m' : Member) : Prop := {
  weight_busy : busy m' = busy m;
  weight_idle : idle m' = idle m;
  weight_starting : starting m' = starting m;
  weight_unstarted : unstarted m' = unstarted m;
  weight_preparing : preparing m' = preparing m;
  weight_stalled : stalled m' = stalled m;
  weight_role : member_role m' = member_role m
}.

Lemma same_weight_refl m : same_weight m m.
Proof. done. Qed.

Lemma preparing_inv m : preparing m = 1 -> exists role rec previous stopped e,
  m = mkMember role rec (Member_Recovering (Preparing previous stopped e)).
Proof. destruct m as [role rec [|[c []]|[]|]]; try done. intros _. eauto 6. Qed.

Lemma awaits_start_preparing input m : awaits_start input m = true -> preparing m = 1 /\ neutral m.
Proof. destruct m as [role rec [|[c []]|[]|]]; done. Qed.

Lemma awaits_return_preparing input m : awaits_return input m = true -> preparing m = 1 /\ neutral m.
Proof. destruct m as [role rec [|[c []]|[]|]]; done. Qed.

Lemma member_preparation_start_spec m input :
  preparing m = 1 ->
  match member_preparation_start m input with
  | Ok (Flow_Continue m') | Err (m', _) => same_weight m m'
  | Ok (Flow_Break failed) => failed_role failed = member_role m
  end.
Proof.
  intros (role & rec & previous & stopped & e & ->)%preparing_inv. unfold member_preparation_start.
  cbn [member_state member_role recoveries]. unfold accept_preparation_start.
  destruct (accepts_issued _ _); [|done]. destruct input as [[started|? []|? []|item fault]|item]; [|done..].
  by destruct (accept_start _ _).
Qed.

Lemma member_preparation_return_spec m input :
  preparing m = 1 ->
  match member_preparation_return m input with
  | Ok (Preparation_Failed role _ _ _ _ error) => error <> Preparation_SourceStateCorrupt /\ role = member_role m
  | Ok (Preparation_Ready prepared) => prepared_role prepared = member_role m
  | Err (m', _) => same_weight m m'
  end.
Proof.
  intros (role & rec & previous & stopped & e & ->)%preparing_inv. unfold member_preparation_return.
  cbn [member_state member_role recoveries]. unfold accept_preparation_return.
  destruct (accepts_return _ _); [|done]. destruct input as [ticket outcome]; cbn.
  destruct outcome as [source ms| |]; [|done..]. by destruct (list.last ms).
Qed.

Lemma restart_admission_budget c b limit release at_ k :
  (maximum limit <= u32_max)%N -> (total (charges b) <= maximum limit)%N ->
  match restart_admission c b limit release at_ k with
  | None => False
  | Some (Proposed _ b' proposed _) => b' = b /\ (total (charges proposed) <= maximum limit)%N
  | Some (Denied b' _) => b' = b
  end.
Proof.
  intros Hm Ht. unfold restart_admission. destruct (propose c) as [ordinal|]; [|done].
  unfold preview. destruct (regressed b at_); [done|].
  destruct (active_charges_split limit b at_) as (old & Hold & _).
  rewrite Hold, total_app in Ht. rewrite try_sum_Some by lia. rewrite N.add_0_l.
  destruct (u32_max <? k)%N; [done|]. destruct (checked_add _ _ _) as [t|] eqn:Hc; [|done].
  apply checked_add_Some in Hc as [-> Hc].
  destruct (N.ltb_spec (maximum limit) (total (active_charges b limit at_) + k)); [done|].
  destruct (calculate release ordinal); [|done]. split; [done|]. cbn [charges]. rewrite total_app. simpl. lia.
Qed.

Lemma recovering_neutral role rec r : neutral (mkMember role rec (Member_Recovering r)).
Proof. by destruct r. Qed.

Lemma admit_restart_schedule_spec role rec w input :
  accepts_restart_schedule w input = true ->
  preparing (mkMember role rec (Member_Recovering w)) = 0 /\
  match admit_restart_schedule w input with
  | Ok (Flow_Continue w') | Err (w', _) =>
      same_weight (mkMember role rec (Member_Recovering w)) (mkMember role rec (Member_Recovering w'))
  | Ok (Flow_Break _) => True
  end.
Proof.
  destruct w as [| |previous stopped sub timer|]; try done. intros _. split; [done|]. cbn.
  destruct (admit_result timer input) as [i|i]; [|done].
  by destruct i as [[| | |? []]|].
Qed.

(** A member between two phases that hold nothing. *)
Lemma neutral_weight m m' :
  neutral m -> neutral m' -> preparing m = preparing m' -> stalled m = stalled m' ->
  member_role m' = member_role m -> same_weight m m'.
Proof. intros [] [] H1 H2 H3. split; congruence. Qed.

Lemma busy_weight role rec current (a a' : AssignedJob) :
  assigned_customer a' = assigned_customer a -> correlation a' = correlation a ->
  same_weight (busy_member role rec current a) (busy_member role rec current a').
Proof. intros H1 H2. split; try done. unfold busy; cbn. by rewrite H1, H2. Qed.

Lemma accept_receipt_spec a r :
  match accept_receipt a r with
  | Ok (Receipt_AwaitingCompletion a') | Err (a', _) =>
      assigned_customer a' = assigned_customer a /\ correlation a' = correlation a
  | Ok (Receipt_JobCompleted j _ _) | Ok (Receipt_JobInterrupted j _ _) => j = assigned_customer a
  end.
Proof. unfold accept_receipt. destruct (receipt_compare _ _); [|done]. by destruct a as [j c [| |? []|? []]]. Qed.

Lemma accept_completion_spec a c :
  match accept_completion a c with
  | Ok (Completion_AwaitingReceipt a') | Err (a', _) =>
      assigned_customer a' = assigned_customer a /\ correlation a' = correlation a
  | Ok (Completion_JobCompleted j _ _) => j = assigned_customer a
  end.
Proof. unfold accept_completion. destruct (correlation_compare _ _); [|done]. by destruct a as [j x [| |? []|? []]]. Qed.

Lemma accept_rejection_spec a returned :
  match PoolAssignment.accept_rejection a returned with
  | Ok (JobReturned j _) | Ok (ConflictingCompletion j _ _ _) => j = assigned_customer a
  | Err (a', _) => assigned_customer a' = assigned_customer a /\ correlation a' = correlation a
  end.
Proof.
  unfold PoolAssignment.accept_rejection. destruct (correlation_compare _ _); [|done].
  by destruct a as [j x [| |? []|? []]].
Qed.

Lemma accept_exit_spec a s :
  match PoolAssignment.accept_worker_exit a s with
  | Ok (Exit_AwaitingReceipt a') | Err (a', _) =>
      assigned_customer a' = assigned_customer a /\ correlation a' = correlation a
  | Ok (Exit_JobInterrupted j _ _) => j = assigned_customer a
  end.
Proof. unfold PoolAssignment.accept_worker_exit. case_bool_decide; [|done]. by destruct a as [j x [| |? []|? []]]. Qed.

Lemma member_initialization_spec m input :
  match PoolWorker.admit_initialization m input with
  | Ok m' => busy m = [] /\ busy m' = [] /\ idle m = 0 /\ idle m' = 0 /\ lighter m m' /\
      member_role m' = member_role m /\ member_state m' <> Member_Retired
  | Err (m', input') => m' = m /\ input' = input
  end.
Proof.
  destruct m as [role rec [|[current []]| |]]; try done. cbn.
  destruct stopped; [done|]. destruct input; try done. split_and!; try done.
  split; auto.
Qed.

Lemma member_startup_spec m input :
  match PoolWorker.admit_startup m input with
  | Ok m' => member_state m <> Member_Retired /\ member_state m' <> Member_Retired /\
      ((same_weight m m' /\ is_idle m' = false) \/
       (exists rec current, m' = worker_member (member_role m) rec current Phase_Idle) /\ preparing m = 0 /\ busy m = [])
  | Err (m', input') => m' = m /\ input' = input
  end.
Proof.
  destruct m as [role rec [|[current ph]| |]]; try done. cbn. case_bool_decide; [|done].
  destruct ph as [| |g' s|g' [s|]| | |]; try done; (case_bool_decide; [|done]); destruct input as [w g []]; try done.
  - split_and!; try done. by left.
  - split_and!; try done. right. split_and!; try done. by eexists _, _.
Qed.

Lemma preparing_unretired m m' : same_weight m m' -> preparing m = 1 -> member_state m' <> Member_Retired.
Proof. intros [_ _ _ _ Hp _ _] H He. unfold preparing in *. rewrite He in Hp. congruence. Qed.

Lemma same_weight_lighter m m' : same_weight m m' -> lighter m m'.
Proof. intros []. split; auto; lia. Qed.

Lemma weights_sum l l' : Forall2 same_weight l l' ->
  busies l' = busies l /\ sum_list_with idle l' = sum_list_with idle l /\
  sum_list_with starting l' = sum_list_with starting l /\ sum_list_with unstarted l' = sum_list_with unstarted l /\
  sum_list_with preparing l' = sum_list_with preparing l /\ sum_list_with stalled l' = sum_list_with stalled l.
Proof.
  induction 1 as [|m m' l l' [Wb Wi Ws Wu Wp Wt _] _ (B & I & S & U & P & T)]; [done|].
  rewrite !busies_cons, Wb, B. simpl. rewrite Wi, I, Ws, S, Wu, U, Wp, P, Wt, T. done.
Qed.

Lemma positions_loop_bounded expected identities : forall positions l,
  positions_loop expected identities positions = Some l -> Forall (fun p => p < length expected) positions ->
  Forall (fun p => p < length expected) l.
Proof.
  induction identities as [|i identities IH]; intros positions l; cbn [positions_loop]; [by intros [= <-]|].
  destruct (position _ expected) as [p|] eqn:Hp; [|done]. intros Hl Hf.
  apply position_Some in Hp as (x & Hx & _). apply lookup_lt_Some in Hx.
  assert (Hf' : Forall (fun p => p < length expected) (positions ++ [p])) by (apply Forall_app; by split; [|constructor]).
  destruct (list.last positions); [destruct (p <=? _); [done|]|]; by eapply IH.
Qed.

Lemma ordered_positions_bounded expected identities l :
  ordered_creation_positions expected identities = Some l -> Forall (fun p => p < length expected) l.
Proof.
  unfold ordered_creation_positions. destruct (positions_loop _ _ _) as [[|p ps]|] eqn:Hl; [done| |done].
  intros [= <-]. by eapply positions_loop_bounded.
Qed.

Lemma admit_creation_spec m settlement :
  match PoolWorker.admit_creation m settlement with
  | Admission_Initializing m' _ => same_weight m m' /\ member_state m' <> Member_Retired
  | Admission_Unrelated m' _ => m' = m
  | Admission_Rejected m' role _ _ _ => same_weight m m' /\ role = member_role m /\
      exists c, member_state m = Member_Creating c
  end.
Proof.
  destruct m as [role rec [w| | |]]; try done. cbn. case_bool_decide; [|done].
  destruct (settle_worker_creation settlement); [by split|]. split_and!; [done|done|by exists w].
Qed.

Lemma begin_members_fresh l : forall k k' ms ws os, begin_members l k = (k', (ms, ws, os)) ->
  Forall (fun m => exists c, member_state m = Member_Creating c) ms.
Proof.
  induction l as [|[prepared creation] l IH]; intros k k' ms ws os; cbn [begin_members];
    unfold mbind, Alloc_bind, mret, Alloc_ret; [intros [= <- <- <- <-]; constructor|].
  destruct (member_begin prepared creation k) as [k1 [[m w] ob]] eqn:Hm.
  destruct (begin_members l k1) as [k2 [[ms' ws'] os']] eqn:Hl. intros [= <- <- <- <-].
  constructor; [|by eapply IH]. unfold member_begin in Hm. destruct (submission prepared) as [worker startup].
  unfold member_start, attempt_issued, initialization_issued, arc_new, mbind, Alloc_bind, mret, Alloc_ret in Hm.
  injection Hm as <- <- <- <-. by eexists.
Qed.

Lemma begin_replacement_fresh prepared rec previous creation k :
  exists k' m w obs, begin_replacement prepared rec previous creation k = (k', (m, w, obs)) /\
    neutral m /\ preparing m = 0 /\ stalled m = 0 /\ member_role m = role prepared /\
    is_idle m = false /\ member_state m <> Member_Retired.
Proof. destruct prepared as [role [w plan]]. eexists _, _, _, _. split; [done|]. by split_and!. Qed.

Lemma fresh_weights l : Forall (fun m => exists c, member_state m = Member_Creating c) l ->
  busies l = [] /\ sum_list_with preparing l = 0 /\ sum_list_with stalled l = 0 /\
  sum_list_with starting l = 0 /\ sum_list_with unstarted l = 0.
Proof.
  induction 1 as [|[role rec st] l [c Hc] _ (B & P & T & S & U)]; [done|]. cbn in Hc. subst st.
  rewrite busies_cons, B. simpl. by rewrite P, T, S, U.
Qed.

(** ** The crew of an operating pool

    [W] is what the wait of a member for the source says of the recovery
    state. *)
Record crew_inv (W : PoolRecoveryState Source -> Prop) (r : PoolRecoveryState Source) (limit : StartupLimit)
  (b : RestartBudget) (l : list Member) : Prop := {
  crew_source : sum_list_with preparing l = sources_out r;
  crew_stalled : 0 < sum_list_with stalled l -> W r;
  crew_starting : sum_list_with starting l <= startup_maximum limit;
  crew_budget : budget_ok r b
}.

Lemma crew_perm W r limit b l k : l ≡ₚ k -> crew_inv W r limit b l -> crew_inv W r limit b k.
Proof. intros H []. split; rewrite <- ?H; auto. Qed.

Lemma crew_replace W r limit b m m' l :
  preparing m' = preparing m -> stalled m' <= stalled m -> starting m' <= starting m ->
  crew_inv W r limit b (m :: l) -> crew_inv W r limit b (m' :: l).
Proof.
  intros Hp Ht Hs [Osrc Ot Ost Obud]. cbn [sum_list_with] in *.
  split; cbn [sum_list_with]; auto; [lia|intros; apply Ot; lia|lia].
Qed.

Lemma crew_budgeted W r limit b b' l : budget_ok r b' -> crew_inv W r limit b l -> crew_inv W r limit b' l.
Proof. intros Hb []. by split. Qed.

(** A member that waited for a worker takes the source. *)
Lemma crew_prepare W r r' limit b m m' l :
  crew_inv W r limit b (m :: l) -> preparing m = 0 -> preparing m' = 1 -> stalled m' = 0 ->
  starting m' <= starting m -> same_policy r r' -> sources_out r = 0 -> sources_out r' = 1 ->
  crew_inv awaited r' limit b (m' :: l).
Proof.
  intros [Osrc Ot Ost Obud] Hp Hp' Hs Hst Hsame H0 H1. cbn [sum_list_with] in *.
  split; cbn [sum_list_with]; [lia|done|lia|by eapply budget_ok_policy].
Qed.

(** The source of a preparing member comes back. *)
Lemma crew_restored r limit b m m' l source r' restored :
  crew_inv awaited r limit b (m :: l) -> preparing m = 1 -> preparing m' = 0 -> stalled m' = 0 ->
  starting m' <= starting m -> restore_source r source = (r', restored) ->
  restored = Ok () /\ crew_inv has_source r' limit b (m' :: l) /\ same_policy r r' /\ sources_out r' = 0.
Proof.
  intros [Osrc Ot Ost Obud] Hp Hp' Hs Hst Hr. cbn [sum_list_with] in *.
  pose proof (sources_out_le r) as Hle. pose proof (restore_source_spec r source) as Hspec. rewrite Hr in Hspec.
  destruct restored as [[]|back]; [|lia]. destruct Hspec as (Hsame & Hone & Hout & _). split_and!; auto.
  split; cbn [sum_list_with]; [lia| |lia|by eapply budget_ok_policy].
  intros _. apply sources_out_has in Hone. unfold has_source. by rewrite (same_policy_restart _ _ Hsame).
Qed.

Lemma crew_returned r limit b l : crew_inv awaited r limit b l -> crew_inv has_source r limit b l.
Proof. intros []. split; auto. intros H. by apply sources_out_has, crew_stalled0. Qed.

Lemma crew_awaited r limit b l :
  (0 < sum_list_with stalled l -> awaited r) -> crew_inv has_source r limit b l -> crew_inv awaited r limit b l.
Proof. intros H []. by split. Qed.

(** A member that holds neither source nor startup. *)
Lemma crew_light W r limit b m m' l : preparing m = 0 -> preparing m' = 0 -> stalled m' = 0 -> starting m' = 0 ->
  crew_inv W r limit b (m :: l) -> crew_inv W r limit b (m' :: l).
Proof. intros. apply (crew_replace W r limit b m); [lia..|done]. Qed.

End PoolWeights.

Section PoolRetirement.
  Context `{PT : PoolTypes}.

(** ** Answers outstanding *)

Definition custody_weight (c : option WorkerStartupCustody) : nat :=
  match c with
  | Some (Custody_Initializing _) | Some (Custody_Starting _) => 1
  | Some (Custody_StartupRequested _) => 2
  | _ => 0
  end.

Definition join_weight (s : WorkerShutdownStatus) : nat :=
  match s with
  | Shutdown_NotRequested => 0
  | Shutdown_Waiting (AwaitingBoth _) => 2
  | Shutdown_Waiting _ => 1
  end.

Definition retiring_weight (w : RetiringWorker) : nat :=
  match retiring_state w with
  | Retirement_AwaitingCreation c => match creating_stopped c with None => 4 | Some _ => 3 end
  | Retirement_Established _ startup shutdown => custody_weight startup + join_weight shutdown
  | Retirement_AwaitingPreparation _ _ _ (Issued _) => 2
  | Retirement_AwaitingPreparation _ _ _ _ => 1
  | Retirement_AwaitingRestartSchedule _ _ => 1
  | Retirement_Drained => 0
  end.

Definition deadline_weight (d : ShutdownDeadline) : nat :=
  match d with Scheduling _ => 1 | _ => 0 end.

Definition outstanding (l : list RetiringWorker) (d : ShutdownDeadline) : nat :=
  sum_list_with retiring_weight l + deadline_weight d.

(** A retiring worker that the source was handed out for. *)
Definition draining_source (w : RetiringWorker) : nat :=
  match retiring_state w with Retirement_AwaitingPreparation _ _ _ _ => 1 | _ => 0 end.

Definition shutdown_requested (w : RetiringWorker) : Prop :=
  match retiring_state w with
  | Retirement_Established _ _ Shutdown_NotRequested => False
  | _ => True
  end.

Definition deadline_pending (d : ShutdownDeadline) : Prop :=
  match d with NotScheduled _ | Elapsed _ => False | _ => True end.

Lemma outstanding_perm l l' d : l ≡ₚ l' -> outstanding l d = outstanding l' d.
Proof. intros H. unfold outstanding. by rewrite H. Qed.

Lemma outstanding_cons w l d : outstanding (w :: l) d = retiring_weight w + outstanding l d.
Proof. unfold outstanding. simpl. lia. Qed.

Lemma outstanding_split l d w rest : l ≡ₚ w :: rest ->
  outstanding l d = retiring_weight w + sum_list_with retiring_weight rest + deadline_weight d.
Proof. intros H. rewrite (outstanding_perm _ _ d H), outstanding_cons. unfold outstanding. lia. Qed.

(** ** Stops and shutdown settlements *)

Lemma join_stopped_spec j s w :
  match join_stopped j s w with
  | Ok (Flow_Continue j') => join_weight (Shutdown_Waiting j') < join_weight (Shutdown_Waiting j)
  | Ok (Flow_Break _) => True
  | Err (j', s') => j' = j /\ s' = s
  end.
Proof. unfold join_stopped. case_bool_decide; [|done]. destruct j; cbn; try done; lia. Qed.

Lemma join_settled_spec j s :
  match join_settled j s with
  | Ok (Flow_Continue j') => join_weight (Shutdown_Waiting j') < join_weight (Shutdown_Waiting j)
  | Ok (Flow_Break _) => True
  | Err (j', s') => j' = j /\ s' = s
  end.
Proof. unfold join_settled. destruct j; try done; case_bool_decide; cbn; try done; lia. Qed.

Lemma accept_exit_retiring w s :
  match accept_exit w s with
  | Ok (Flow_Continue w') => retiring_weight w' < retiring_weight w /\ draining_source w' = draining_source w /\
      shutdown_requested w' /\ waiting w' <> None
  | Ok (Flow_Break _) => draining_source w = 0 /\ 0 < retiring_weight w
  | Err (w', s') => w' = w /\ s' = s
  end.
Proof.
  destruct w as [role [c|current st [|j]| | |]]; try done; cbn [accept_exit].
  - case_bool_decide; [|done]. destruct (creating_stopped c) eqn:Hc; [done|]. unfold retiring_weight; cbn.
    rewrite Hc. split_and!; [lia|done..].
  - pose proof (join_stopped_spec j s (attempt current)) as H.
    destruct (join_stopped j s (attempt current)) as [[[sh s']|j']|[j' s']]; unfold retiring_weight; cbn [retiring_state].
    + split; [done|]. destruct j; cbn; lia.
    + split_and!; [lia|done..].
    + by destruct H as [-> ->].
Qed.

Lemma accept_settlement_retiring w s :
  match accept_shutdown_settlement w s with
  | Ok (Flow_Continue w') => retiring_weight w' < retiring_weight w /\ draining_source w' = draining_source w /\
      shutdown_requested w' /\ waiting w' <> None
  | Ok (Flow_Break _) => draining_source w = 0 /\ 0 < retiring_weight w
  | Err (w', s') => w' = w /\ s' = s
  end.
Proof.
  destruct w as [role [c|current st [|j]| | |]]; try done; cbn [accept_shutdown_settlement].
  pose proof (join_settled_spec j s) as H.
  destruct (join_settled j s) as [[[sh s']|j']|[j' s']]; unfold retiring_weight; cbn [retiring_state].
  - split; [done|]. destruct j; cbn; lia.
  - split_and!; [lia|done..].
  - by destruct H as [-> ->].
Qed.

(** The first worker that takes an input. *)
Definition taken_by {X} (accept : RetiringWorker -> X -> result (ControlFlow WorkerDeparture RetiringWorker) (RetiringWorker * X))
  (l : list RetiringWorker) (x : X)
  (r : result (ControlFlow (list RetiringWorker * WorkerDeparture) (list RetiringWorker)) (list RetiringWorker * X)) : Prop :=
  match r with
  | Ok (Flow_Continue l') => exists w w' rest, l ≡ₚ w :: rest /\ l' ≡ₚ w' :: rest /\ accept w x = Ok (Flow_Continue w')
  | Ok (Flow_Break (l', departure)) => exists w, l ≡ₚ w :: l' /\ accept w x = Ok (Flow_Break departure)
  | Err (l', x') => l' = l /\ x' = x /\ Forall (fun w => accept w x = Err (w, x)) l
  end.

Lemma accept_worker_exit_spec l s : taken_by accept_exit l s (PoolWorker.accept_worker_exit l s).
Proof.
  induction l as [|w l IH]; cbn [PoolWorker.accept_worker_exit]; [by split_and!|].
  pose proof (accept_exit_retiring w s) as Hw.
  destruct (accept_exit w s) as [[dep|w']|[w' s']] eqn:He; [by exists w|by exists w, w', l|].
  destruct Hw as [-> ->].
  destruct (PoolWorker.accept_worker_exit l s) as [[[l' dep]|l']|[l' s']].
  - destruct IH as (w1 & Hp & Ha). exists w1. split; [rewrite Hp; apply perm_swap|done].
  - destruct IH as (w1 & w2 & rest & Hp & Hp' & Ha). exists w1, w2, (w :: rest).
    split; [rewrite Hp; apply perm_swap|split; [rewrite Hp'; apply perm_swap|done]].
  - destruct IH as (-> & -> & Hf). split_and!; try done. by constructor.
Qed.

Lemma accept_worker_shutdown_spec l s : taken_by accept_shutdown_settlement l s (accept_worker_shutdown l s).
Proof.
  induction l as [|w l IH]; cbn [accept_worker_shutdown]; [by split_and!|].
  pose proof (accept_settlement_retiring w s) as Hw.
  destruct (accept_shutdown_settlement w s) as [[dep|w']|[w' s']] eqn:He; [by exists w|by exists w, w', l|].
  destruct Hw as [-> ->].
  destruct (accept_worker_shutdown l s) as [[[l' dep]|l']|[l' s']].
  - destruct IH as (w1 & Hp & Ha). exists w1. split; [rewrite Hp; apply perm_swap|done].
  - destruct IH as (w1 & w2 & rest & Hp & Hp' & Ha). exists w1, w2, (w :: rest).
    split; [rewrite Hp; apply perm_swap|split; [rewrite Hp'; apply perm_swap|done]].
  - destruct IH as (-> & -> & Hf). split_and!; try done. by constructor.
Qed.

(** ** Deadlines and creations *)

Lemma accept_schedule_weight d settled d' :
  accept_schedule d settled = (d', Ok ()) -> deadline_weight d' < deadline_weight d.
Proof.
  destruct d as [|k| | |]; cbn; try done. destruct (admit_result k settled) as [i|]; [|done].
  destruct i as [[| |? []|]|]; intros H; simplify_eq/=; lia.
Qed.

Lemma accept_creation_weight w settlement :
  match accept_creation w settlement with
  | Ok _ => draining_source w = 0 /\ 3 <= retiring_weight w
  | Err (w', s') => w' = w /\ s' = settlement
  end.
Proof.
  destruct w as [role [c| | | |]]; try done. cbn [accept_creation]. case_bool_decide; [|done].
  unfold retiring_weight; cbn. destruct (settle_worker_creation settlement), (creating_stopped c); split; auto; lia.
Qed.

Lemma accept_creation_rejection_weight w i k rejection :
  match accept_creation_rejection w i k rejection with
  | Ok _ => draining_source w = 0 /\ 3 <= retiring_weight w
  | Err (w', _, _, _) => w' = w
  end.
Proof.
  destruct w as [role [c| | | |]]; try done. cbn [accept_creation_rejection]. case_bool_decide; [|done].
  unfold retiring_weight; cbn. destruct (creating_stopped c); split; auto; lia.
Qed.

(** A single settlement that a retiring worker waits for has its position. *)
Lemma single_position l s i w :
  creation_identity s = Some i -> w ∈ l -> retiring_expected_creation w = Some i ->
  exists p w' c, ordered_creation_positions (retiring_expected_creation <$> l) [i] = Some [p] /\
    l !! p = Some w' /\ accept_creation w' s = Ok c.
Proof.
  intros Hs Hin Hw. unfold ordered_creation_positions. cbn [positions_loop].
  destruct (position _ _) as [p|] eqn:Hp.
  - apply position_Some in Hp as (e & Hl & He & _). apply bool_decide_eq_true in He. subst e.
    rewrite list_lookup_fmap in Hl. destruct (l !! p) as [w'|] eqn:Hp; [|done]. injection Hl as Hl.
    destruct w' as [role [c| | | |]]; try done. cbn in Hl.
    cbn [list.last app]. exists p. eexists. 
    destruct (accept_creation (mkRetiring role (Retirement_AwaitingCreation c)) s) as [custody|] eqn:Ha.
    { exists custody. by split_and!. }
    cbn [accept_creation] in Ha. rewrite bool_decide_true in Ha by congruence.
    destruct (settle_worker_creation s), (creating_stopped c); done.
  - exfalso. apply position_None in Hp. rewrite list.Forall_forall in Hp.
    specialize (Hp (Some i)). cbn beta in Hp. rewrite bool_decide_true in Hp by done.
    apply diff_true_false, Hp. apply list_elem_of_fmap. by exists w.
Qed.

Lemma member_shutdown_spec m id :
  draining_source (retirement_member (member_shutdown m id)) = preparing m /\
  (id = None -> shutdown_target m = None -> shutdown_requested (retirement_member (member_shutdown m id))) /\
  (forall i, id = Some i -> shutdown_requested (retirement_member (member_shutdown m id))) /\
  match retirement_custody (member_shutdown m id) with
  | Returns_Assignment a => fst <$> busy m = [shutdown_customer a]
  | _ => busy m = []
  end.
Proof.
  destruct m as [role r [w|[c ph]|rec|]]; [done| | |done].
  - destruct ph as [i []|permit st|g []|g []| |[j c' d]|[]]; try done; try (destruct id; by split_and!).
    destruct d as [| |comp [s|]|s [comp|]]; destruct id; by split_and!.
  - destruct rec; by split_and!.
Qed.

End PoolRetirement.

Section PoolDrain.
  Context `{PT : PoolTypes}.

Abbreviation settled_workers :=
  (CreationsSettled Nonce (StopOnShutdown Worker) WorkerError HostedInitialization Installed).
Abbreviation start_result := (ActionItemResult (PrepareWorkers Source Role) WorkerPreparationStarted Never Never).
Abbreviation preparation := (WorkerPreparation Source Role Worker Plan WorkerRejection SourceRejection).

(** The inputs of a pool that a retiring worker can wait for. *)
Inductive PoolAnswer : Type :=
| Answer_Creations (s : settled_workers)
| Answer_Stopped (s : ChildStopped Addr)
| Answer_Shutdown (r : EstablishedShutdownResolved)
| Answer_PreparationStarted (r : start_result)
| Answer_PreparationReturned (r : preparation)
| Answer_Schedule (r : ScheduleResult).

Definition has_members (r : preparation) : Prop :=
  match (preparation_into_parts r).2 with Outcome_Prepared _ [] => False | _ => True end.

Definition waits_for (w : RetiringWorker) (a : PoolAnswer) : Prop :=
  match retiring_state w, a with
  | Retirement_AwaitingCreation c, Answer_Creations (Creation_Settled (mkCreations [s])) =>
      creation_identity s = Some (attempt_creation (creating_attempt c), creating_kind c)
  | Retirement_Established current _ (Shutdown_Waiting (AwaitingBoth _ | AwaitingStop _)), Answer_Stopped s =>
      stopped_child s = attempt_creation (attempt current)
  | Retirement_Established _ _ (Shutdown_Waiting (AwaitingBoth i | AwaitingSettlement i _)), Answer_Shutdown r =>
      resolved_id r = i
  | Retirement_AwaitingPreparation _ _ _ e, Answer_PreparationStarted r => accepts_issued e r = true
  | Retirement_AwaitingPreparation _ _ _ e, Answer_PreparationReturned r => accepts_return e r = true /\ has_members r
  | Retirement_AwaitingRestartSchedule _ timer, Answer_Schedule r => accepts_result timer r = true
  | _, _ => False
  end.

(** Some retiring worker waits for the answer. *)
Definition awaited_by (l : list RetiringWorker) (a : PoolAnswer) : Prop := exists w, w ∈ l /\ waits_for w a.

(** At least [k] answers fewer, and [n] sources back. *)
Record progress (k n : nat) (l l' : list RetiringWorker) : Prop := {
  progress_source : sum_list_with draining_source l' + n = sum_list_with draining_source l;
  progress_weight : sum_list_with retiring_weight l' + k <= sum_list_with retiring_weight l;
  progress_requested : Forall shutdown_requested l -> Forall shutdown_requested l'
}.

(** The invariant of the workers of a retiring pool. *)
Record retiring_ok (r : PoolRecoveryState Source) (l : list RetiringWorker) (d : ShutdownDeadline) : Prop := {
  drain_source : sum_list_with draining_source l = sources_out r;
  drain_requested : Forall shutdown_requested l;
  drain_waiting : any_waiting l = true;
  drain_deadline : deadline_pending d
}.

Lemma progress_refl l : progress 0 0 l l.
Proof. split; auto. lia. Qed.

Lemma progress_trans k1 k2 n1 n2 l1 l2 l3 :
  progress k1 n1 l1 l2 -> progress k2 n2 l2 l3 -> progress (k1 + k2) (n1 + n2) l1 l3.
Proof. intros [] []. split; [lia|lia|auto]. Qed.

Lemma progress_fewer k k' n l l' : k <= k' -> progress k' n l l' -> progress k n l l'.
Proof. intros Hk []. split; auto. lia. Qed.

Lemma progress_outstanding k n l l' d : progress k n l l' -> outstanding l' d + k <= outstanding l d.
Proof. intros []. unfold outstanding. lia. Qed.

Lemma progress_replaced k n l l' w w' rest : l ≡ₚ w :: rest -> l' ≡ₚ w' :: rest ->
  draining_source w' + n = draining_source w -> retiring_weight w' + k <= retiring_weight w ->
  (shutdown_requested w -> shutdown_requested w') -> progress k n l l'.
Proof.
  intros Hp Hp' Hs Hw Hr. split; rewrite ?Hp, ?Hp'; cbn [sum_list_with]; [lia|lia|].
  rewrite !list.Forall_cons. naive_solver.
Qed.

Lemma progress_removed k l l' w : l ≡ₚ w :: l' -> draining_source w = 0 -> k <= retiring_weight w -> progress k 0 l l'.
Proof.
  intros Hp Hs Hw. split; rewrite ?Hp; cbn [sum_list_with]; [lia|lia|]. rewrite list.Forall_cons. naive_solver.
Qed.

Lemma progress_inserted k n l p w w' rest : l ≡ₚ w :: rest ->
  draining_source w' + n = draining_source w -> retiring_weight w' + k <= retiring_weight w ->
  (shutdown_requested w -> shutdown_requested w') -> progress k n l (insert_at p w' rest).
Proof. intros Hp. apply (progress_replaced _ _ _ _ w w' rest Hp), insert_at_Permutation. Qed.

Lemma any_waiting_perm l w rest : l ≡ₚ w :: rest -> waiting w <> None -> any_waiting l = true.
Proof.
  intros Hp Hw. unfold any_waiting. apply existsb_exists. exists w. split; [|by destruct (waiting w)].
  apply list_elem_of_In. rewrite Hp. left.
Qed.

Lemma not_awaited l a : Forall (fun w => ~ waits_for w a) l -> ~ awaited_by l a.
Proof. rewrite list.Forall_forall. intros Hf (w & Hin & Hw). by apply (Hf w Hin). Qed.

(** ** Stops and shutdown settlements *)

Lemma exit_progress l s :
  match PoolWorker.accept_worker_exit l s with
  | Ok (Flow_Continue l') => progress 1 0 l l' /\ any_waiting l' = true
  | Ok (Flow_Break (l', _)) => progress 1 0 l l'
  | Err (l', s') => l' = l /\ s' = s /\ ~ awaited_by l (Answer_Stopped s)
  end.
Proof.
  pose proof (accept_worker_exit_spec l s) as Hspec.
  destruct (PoolWorker.accept_worker_exit l s) as [[[l' dep]|l']|[l' s']]; cbn [taken_by] in Hspec.
  - destruct Hspec as (w & Hp & Ha). pose proof (accept_exit_retiring w s) as Hw. rewrite Ha in Hw.
    destruct Hw. by eapply progress_removed.
  - destruct Hspec as (w & w' & rest & Hp & Hp' & Ha). pose proof (accept_exit_retiring w s) as Hw.
    rewrite Ha in Hw. destruct Hw as (Hwt & Hsrc & Hreq & Hwait).
    split; [eapply progress_replaced; [done|done|lia|lia|done]|by eapply any_waiting_perm].
  - destruct Hspec as (-> & -> & Hf). split_and!; try done. apply not_awaited.
    eapply Forall_impl; [exact Hf|]. cbn beta. intros w Hw Hans.
    destruct w as [role [c|current st [|[i|r|i t]]| | |]]; try done; cbn in Hans, Hw;
      unfold join_stopped in Hw; by rewrite bool_decide_true in Hw by congruence.
Qed.

Lemma shutdown_progress l s :
  match PoolWorker.accept_worker_shutdown l s with
  | Ok (Flow_Continue l') => progress 1 0 l l' /\ any_waiting l' = true
  | Ok (Flow_Break (l', _)) => progress 1 0 l l'
  | Err (l', s') => l' = l /\ s' = s /\ ~ awaited_by l (Answer_Shutdown s)
  end.
Proof.
  pose proof (accept_worker_shutdown_spec l s) as Hspec.
  destruct (accept_worker_shutdown l s) as [[[l' dep]|l']|[l' s']]; cbn [taken_by] in Hspec.
  - destruct Hspec as (w & Hp & Ha). pose proof (accept_settlement_retiring w s) as Hw. rewrite Ha in Hw.
    destruct Hw. by eapply progress_removed.
  - destruct Hspec as (w & w' & rest & Hp & Hp' & Ha). pose proof (accept_settlement_retiring w s) as Hw.
    rewrite Ha in Hw. destruct Hw as (Hwt & Hsrc & Hreq & Hwait).
    split; [eapply progress_replaced; [done|done|lia|lia|done]|by eapply any_waiting_perm].
  - destruct Hspec as (-> & -> & Hf). split_and!; try done. apply not_awaited.
    eapply Forall_impl; [exact Hf|]. cbn beta. intros w Hw Hans.
    destruct w as [role [c|current st [|[i|r|i t]]| | |]]; try done; cbn in Hans, Hw;
      by rewrite bool_decide_true in Hw by congruence.
Qed.

(** ** Initialization and startup reports *)

Lemma initialization_progress l input :
  match PoolWorker.accept_worker_initialization l input with
  | RetiringInit_Returned l' _ => l' = l \/ progress 1 0 l l' /\ any_waiting l' = true
  | RetiringInit_WorkerStopped l' _ _ _ => progress 1 0 l l'
  end.
Proof.
  unfold PoolWorker.accept_worker_initialization.
  destruct (take_at _ _) as [[[p w] rest]|] eqn:Ht; [|by left].
  pose proof (reinserted _ _ _ _ _ Ht) as Hback. pose proof (take_at_Permutation _ _ _ _ _ Ht) as Hp.
  destruct w as [role [c|current [[]|] [|j]| | |]]; try (left; done).
  assert (Hgone : forall j', join_weight (Shutdown_Waiting j') <= join_weight (Shutdown_Waiting j) ->
    progress 1 0 l (insert_at p (mkRetiring role (Retirement_Established current None (Shutdown_Waiting j'))) rest)).
  { intros j' Hj. eapply progress_inserted; [exact Hp|done| |done].
    unfold retiring_weight; cbn [retiring_state custody_weight]. lia. }
  assert (Hkept : progress 1 0 l (insert_at p (mkRetiring role (Retirement_Established current None (Shutdown_Waiting j))) rest) /\
    any_waiting (insert_at p (mkRetiring role (Retirement_Established current None (Shutdown_Waiting j))) rest) = true).
  { split; [by apply Hgone|]. by eapply any_waiting_perm; [apply insert_at_Permutation|]. }
  destruct input as [w1 i1 plan permit|w1 i1 plan f|w1 i1 plan s]; try (by right).
  case_bool_decide; [|left; exact Hback].
  pose proof (join_stopped_spec j s (attempt current)) as Hj.
  destruct (join_stopped j s (attempt current)) as [[[sh s']|j']|[j' s']].
  - eapply progress_removed; [exact Hp|done|unfold retiring_weight; cbn; lia].
  - apply Hgone. lia.
  - destruct Hj as [-> ->]. left. exact Hback.
Qed.

Lemma startup_progress l input :
  match PoolWorker.accept_worker_startup l input with
  | RetiringStartup_Started l' | RetiringStartup_Returned l' _ _ _ _ => progress 0 0 l l'
  | RetiringStartup_Unrelated l' _ => l' = l
  end.
Proof.
  unfold PoolWorker.accept_worker_startup.
  destruct (take_at _ _) as [[[p w] rest]|] eqn:Ht; [|done].
  pose proof (reinserted _ _ _ _ _ Ht) as Hback. pose proof (take_at_Permutation _ _ _ _ _ Ht) as Hp.
  destruct w as [role [c|current st sh| | |]]; try done.
  assert (Hset : forall st', custody_weight st' <= custody_weight st ->
    progress 0 0 l (insert_at p (mkRetiring role (Retirement_Established current st' sh)) rest)).
  { intros st' Hc. eapply progress_inserted; [exact Hp|done| |by destruct sh].
    unfold retiring_weight; cbn [retiring_state]. lia. }
  destruct st as [[]|]; try done; destruct input as [w1 g1 outcome]; cbn [startup_into_parts];
    destruct outcome; apply Hset; cbn; lia.
Qed.

(** ** Preparations *)

Lemma preparation_start_progress l input :
  match accept_retiring_worker_preparation_start l input with
  | Ok (Flow_Continue l') => progress 1 0 l l'
  | Ok (Flow_Break (l', failed)) => progress 1 1 l l'
  | Err (l', input') => l' = l /\ input' = input /\ ~ awaited_by l (Answer_PreparationStarted input)
  end.
Proof.
  unfold accept_retiring_worker_preparation_start. destruct (take_at _ _) as [[[p w] rest]|] eqn:Ht.
  2: { apply take_at_None in Ht. split_and!; try done. apply not_awaited. eapply Forall_impl; [exact Ht|].
       cbn beta. intros w Hw Hans. destruct w as [role [|? ? [|[]]| | |]]; try done. cbn in Hans, Hw. congruence. }
  pose proof (take_at_Permutation _ _ _ _ _ Ht) as Hp. apply take_at_Some in Ht as (_ & Hw & _).
  destruct w as [role [| |rec previous stopped e| |]]; try done. unfold awaits_preparation_start in Hw. cbn in Hw.
  destruct e as [t|t]; [|done]. cbn [accept_preparation_start]. cbn in Hw. cbn [accepts_issued]. rewrite Hw.
  destruct input as [[started|? []|? []|item fault]|item]; cbn [accept_start].
  - cbn in Hw. rewrite Hw. eapply progress_inserted; [exact Hp|done|unfold retiring_weight; cbn; lia|done].
  - destruct item as [ticket source first remaining]. cbn.
    eapply progress_inserted; [exact Hp|done|unfold retiring_weight; cbn; lia|done].
  - destruct item as [ticket source first remaining]. cbn.
    eapply progress_inserted; [exact Hp|done|unfold retiring_weight; cbn; lia|done].
Qed.

Lemma preparation_return_progress l input :
  match accept_retiring_worker_preparation_return l input with
  | Ok (l', Preparation_Ready _) => progress 1 1 l l'
  | Ok (l', Preparation_Failed _ _ _ _ _ error) => progress 1 1 l l' /\ error <> Preparation_SourceStateCorrupt
  | Err (l', input') => l' = l /\ input' = input /\ ~ awaited_by l (Answer_PreparationReturned input)
  end.
Proof.
  unfold accept_retiring_worker_preparation_return. destruct (take_at _ _) as [[[p w] rest]|] eqn:Ht.
  2: { apply take_at_None in Ht. split_and!; try done. apply not_awaited. eapply Forall_impl; [exact Ht|].
       cbn beta. intros w Hw Hans. destruct w as [role [|? ? [|[]]| | |]]; try done. cbn in Hans, Hw.
       destruct Hans. congruence. }
  pose proof (reinserted _ _ _ _ _ Ht) as Hback. pose proof (take_at_Permutation _ _ _ _ _ Ht) as Hp.
  apply take_at_Some in Ht as (_ & Hw & _).
  destruct w as [role [| |rec previous stopped e| |]]; try done. unfold awaits_preparation_return in Hw. cbn in Hw.
  destruct e as [t|t]; [done|]. cbn [accept_preparation_return]. rewrite Hw.
  destruct input as [ticket outcome]. cbn [preparation_into_parts preparation_ticket preparation_outcome].
  assert (Hdone : progress 1 1 l (insert_at p (mkRetiring role Retirement_Drained) rest)).
  { eapply progress_inserted; [exact Hp|done|unfold retiring_weight; cbn; lia|done]. }
  destruct outcome as [source ms|source pre rl reason rem|source rs reason]; cbn; [|by split..].
  destruct (list.last ms) as [prepared|] eqn:Hl; [exact Hdone|]. apply last_None in Hl. subst ms.
  split_and!; [exact Hback|done|]. apply not_awaited, list.Forall_forall. intros w _ Hans.
  destruct w as [role' [|? ? [|[]]| | |]]; try done; cbn in Hans. by destruct Hans.
Qed.

(** ** Timers *)

Lemma schedule_progress l settled :
  match take_at (awaits_restart_schedule settled) l with
  | Some (p, mkRetiring role s, rest) => progress 1 0 l (insert_at p (mkRetiring role Retirement_Drained) rest) /\
      exists replacement timer, s = Retirement_AwaitingRestartSchedule replacement timer
  | None => ~ awaited_by l (Answer_Schedule settled)
  end.
Proof.
  destruct (take_at _ _) as [[[p [role s]] rest]|] eqn:Ht.
  - pose proof (take_at_Permutation _ _ _ _ _ Ht) as Hp. apply take_at_Some in Ht as (_ & Hw & _).
    destruct s; try done. split; [|by eexists _, _].
    eapply progress_inserted; [exact Hp|done|unfold retiring_weight; cbn; lia|done].
  - apply take_at_None in Ht. apply not_awaited. eapply Forall_impl; [exact Ht|]. cbn beta.
    intros w Hw Hans. destruct w as [role [| ? ? [|[]] | | |]]; try done; cbn in Hans, Hw; congruence.
Qed.

Lemma accept_schedule_err d settled d' settled' : accept_schedule d settled = (d', Err settled') -> d' = d.
Proof.
  intros Hs. destruct d; cbn in Hs; try congruence. destruct (admit_result _ _) as [i|i]; [|congruence].
  by destruct i as [[| |? []|]|].
Qed.

(** ** Creations *)

Lemma creation_awaited l s positions :
  awaited_by l (Answer_Creations (Creation_Settled s)) ->
  (identities ← mapM creation_identity (items s);
   ordered_creation_positions (retiring_expected_creation <$> l) identities) = positions ->
  exists p w c s', positions = Some [p] /\ s = mkCreations [s'] /\ l !! p = Some w /\ accept_creation w s' = Ok c.
Proof.
  intros (w & Hin & Ha) Hpos. destruct w as [role [c|? ? [|[]]| | |]]; try done.
  destruct s as [[|s []]]; try done. cbn in Ha.
  destruct (single_position l s _ _ Ha Hin eq_refl) as (p & w' & cu & Hp & Hl & Hacc).
  cbn in Hpos. rewrite Ha in Hpos. cbn in Hpos. rewrite Hp in Hpos. by exists p, w', cu, s.
Qed.

(** ** The source *)

Lemma restored_progress r l l' d k source :
  retiring_ok r l d -> progress k 1 l l' ->
  exists r', restore_source r source = (r', Ok ()) /\ same_policy r r' /\
    sum_list_with draining_source l' = sources_out r'.
Proof.
  intros [Ks _ _ _] [Ps _ _]. pose proof (sources_out_le r) as Hle.
  pose proof (restore_source_spec r source) as Hspec.
  destruct (restore_source r source) as [r' [[]|]]; [|lia].
  destruct Hspec as (Hsame & H1 & H0 & _). exists r'. split_and!; auto. lia.
Qed.

End PoolDrain.
