(* ===== verification/FifoProtocol.v ===== *)
(** * The FIFO pool: commands, outcomes, events, diagnostics and requests

    [templates/pool/queue/protocol.rs], [event.rs], [requests.rs], [job.rs],
    the construction of [config.rs], and the state types of [queue/mod.rs]. *)

From stdpp Require Import base list option numbers.
From S2P Require Import Prelude Effects BTreeMap Timers Restart Termination Settlement Interpretation Creation.
From S2P Require Import Workers WorkerPreparation WorkerStartup ProxyWorker PoolAssignment PoolPolicy PoolWorker PoolMembers.

(** ** Customer outcomes *)

Inductive AdmissionRejection : Type :=
| Admission_NoRecoverableWorkers
| Admission_BacklogFull
| Admission_JobCorrelationUnavailable
| Admission_AssignmentCorrelationUnavailable
| Admission_ShuttingDown.

Inductive QueuedReturnReason : Type :=
| Queued_NoRecoverableWorkers
| Queued_AssignmentCorrelationUnavailable
| Queued_PoolShutdown.

Inductive AssignedReturnReason : Type :=
| Assigned_WorkerStopped
| Assigned_RetryPreparationRejected
| Assigned_PoolShutdown
| Assigned_ContradictoryAssignmentSettlement.

Inductive FifoOutcomeKind : Type :=
| Kind_Accepted | Kind_Rejected | Kind_Completed | Kind_ReturnedQueued | Kind_ReturnedAssigned.

Section FifoOutcomes.
  Context `{PT : PoolTypes}.

Inductive FifoOutcome : Type :=
| Fifo_Accepted (submission : SubmissionId) (job : JobId)
| Fifo_Rejected (submission : SubmissionId) (payload : Job) (reason : AdmissionRejection)
| Fifo_Completed (job : JobId) (role : RoleName Role) (r : WorkerResult)
| Fifo_ReturnedQueued (job : JobId) (payload : Job) (reason : QueuedReturnReason)
| Fifo_ReturnedAssigned (job : JobId) (role : RoleName Role) (payload : Job) (reason : AssignedReturnReason).

Definition outcome_kind (o : FifoOutcome) : FifoOutcomeKind :=
  match o with
  | Fifo_Accepted _ _ => Kind_Accepted
  | Fifo_Rejected _ _ _ => Kind_Rejected
  | Fifo_Completed _ _ _ => Kind_Completed
  | Fifo_ReturnedQueued _ _ _ => Kind_ReturnedQueued
  | Fifo_ReturnedAssigned _ _ _ _ => Kind_ReturnedAssigned
  end.

Definition outcome_role (o : FifoOutcome) : option Role :=
  match o with
  | Fifo_Completed _ role _ | Fifo_ReturnedAssigned _ role _ _ => Some (named_role role)
  | _ => None
  end.

Definition outcome_payload (o : FifoOutcome) : option Job :=
  match o with
  | Fifo_Rejected _ payload _ | Fifo_ReturnedQueued _ payload _ | Fifo_ReturnedAssigned _ _ payload _ =>
      Some payload
  | _ => None
  end.

Definition outcome_worker_result (o : FifoOutcome) : option WorkerResult :=
  match o with Fifo_Completed _ _ r => Some r | _ => None end.

Definition into_accepted (o : FifoOutcome) : result (SubmissionId * JobId) FifoOutcome :=
  match o with Fifo_Accepted s j => Ok (s, j) | o => Err o end.

Definition into_rejected (o : FifoOutcome) : result (SubmissionId * Job * AdmissionRejection) FifoOutcome :=
  match o with Fifo_Rejected s p r => Ok (s, p, r) | o => Err o end.

Definition into_completed (o : FifoOutcome) : result (JobId * WorkerResult) FifoOutcome :=
  match o with Fifo_Completed j _ r => Ok (j, r) | o => Err o end.

Definition into_returned_queued (o : FifoOutcome) : result (JobId * Job * QueuedReturnReason) FifoOutcome :=
  match o with Fifo_ReturnedQueued j p r => Ok (j, p, r) | o => Err o end.

Definition into_returned_assigned (o : FifoOutcome) : result (JobId * Job * AssignedReturnReason) FifoOutcome :=
  match o with Fifo_ReturnedAssigned j _ p r => Ok (j, p, r) | o => Err o end.

(** [FifoCommand] *)
Inductive FifoCommand : Type :=
| Submit (submission : SubmissionId) (payload : Job) (customer : Customer)
| Command_Shutdown.

(** [ChildReport<Completion<WorkerResult>>] *)
Record CompletionReport := mkCompletionReport { report_child : CreationId; report : Completion }.

Inductive ShutdownRequested : Type := the_ShutdownRequested.

(** [FifoEvent] *)
Inductive FifoEvent : Type :=
| Event_Command (u : User Addr FifoCommand)
| Event_WorkerCreationsSettled
    (workers : CreationsSettled Nonce (StopOnShutdown Worker) WorkerError HostedInitialization Installed)
| Event_WorkerInitialization (r : WorkerInitializationReport)
| Event_WorkerStartupReported (s : WorkerStartup)
| Event_WorkerStopped (stopped : ChildStopped Addr)
| Event_WorkerCompleted (r : CompletionReport)
| Event_AssignmentSettled (r : AssignmentResult)
| Event_WorkerPreparationStarted
    (r : ActionItemResult (PrepareWorkers Source Role) WorkerPreparationStarted Never Never)
| Event_WorkerPreparationReturned
    (r : WorkerPreparation Source Role Worker Plan WorkerRejection SourceRejection)
| Event_RestartScheduleSettled (r : ScheduleResult)
| Event_RestartElapsed (e : TimerElapsed TimerId)
| Event_WorkerShutdownSettled (s : EstablishedShutdownResolved)
| Event_Shutdown (s : ShutdownRequested).

Definition FifoEvent_user (from : Addr) (message : FifoCommand) : FifoEvent :=
  Event_Command (mkUser from message).

Definition FifoEvent_into_user (e : FifoEvent) : result (User Addr FifoCommand) FifoEvent :=
  match e with Event_Command u => Ok u | e => Err e end.

#[export] Instance FifoEvent_User : UserEvent Addr FifoCommand FifoEvent := {
  user := FifoEvent_user;
  into_user := FifoEvent_into_user
}.

(** ** Diagnostics *)

Inductive FifoDiagnosticCause : Type :=
| Unexpected (e : FifoEvent)
| Diag_WorkerCreationRejected (role : RoleName Role)
    (rejection : WorkerCreationRejection Worker WorkerError HostedInitialization) (startup : Plan)
    (stopped : option (ChildStopped Addr))
| Diag_WorkersReturned
    (workers : CreationsSettled Nonce (StopOnShutdown Worker) WorkerError HostedInitialization Installed)
| Diag_UnusedStartup (role : RoleName Role) (permit : option StartupPermit) (startup : Plan)
| Diag_StoppedWorkerEstablished (role : RoleName Role) (worker : CurrentWorker) (startup : Plan)
    (stopped : ChildStopped Addr)
| Diag_UnmatchedWorkerReturn (i : CreationId) (k : CreationKind)
    (rejection : WorkerCreationRejection Worker WorkerError HostedInitialization)
| Diag_WorkerStartupReturned (role : RoleName Role) (worker : WorkerAttempt) (startup : WorkerStartupGrant)
    (outcome : WorkerStartupOutcome)
| Diag_WorkerShutdownRejected (role : RoleName Role) (shutdown : EstablishedShutdownResolved)
| Diag_WorkerPreparationFailed (role : RoleName Role) (previous : WorkerAttempt)
    (stopped : ChildStopped Addr) (returned_source : option Source) (error : WorkerPreparationError)
| Diag_WorkerReplacementFailed (role : RoleName Role) (previous : WorkerAttempt)
    (stopped : ChildStopped Addr) (submission : WorkerSubmission Worker Plan)
    (returned_source : option Source) (error : WorkerReplacementError).

Record FifoDiagnostic := mkFifoDiagnostic { cause : FifoDiagnosticCause }.

Definition diagnostic_role (d : FifoDiagnostic) : option Role :=
  match cause d with
  | Diag_WorkerCreationRejected role _ _ _ | Diag_UnusedStartup role _ _
  | Diag_StoppedWorkerEstablished role _ _ _ | Diag_WorkerStartupReturned role _ _ _
  | Diag_WorkerShutdownRejected role _ | Diag_WorkerPreparationFailed role _ _ _ _
  | Diag_WorkerReplacementFailed role _ _ _ _ _ => Some (named_role role)
  | Unexpected _ | Diag_WorkersReturned _ | Diag_UnmatchedWorkerReturn _ _ _ => None
  end.

Definition into_worker_rejection (d : FifoDiagnostic) :
  result (Role * WorkerAttempt * ChildStopped Addr * option Source * WorkerRejection) FifoDiagnostic :=
  match cause d with
  | Diag_WorkerPreparationFailed role previous stopped source (Preparation_WorkerRejected reason) =>
      Ok (named_role role, previous, stopped, source, reason)
  | _ => Err d
  end.

Definition into_source_rejection (d : FifoDiagnostic) :
  result (Role * WorkerAttempt * ChildStopped Addr * option Source * SourceRejection) FifoDiagnostic :=
  match cause d with
  | Diag_WorkerPreparationFailed role previous stopped source (Preparation_SourceRejected reason) =>
      Ok (named_role role, previous, stopped, source, reason)
  | _ => Err d
  end.

End FifoOutcomes.

(** ** Requests

    [CustomerSends] is the send product of the customer's reply route. *)
Class FifoTypes := {
  #[global] fifo_pool_types :: PoolTypes;
  CustomerSends : Type;
  DiagnosticRoute : Type;
  #[global] customer_sends :: SendEffects CustomerSends;
  #[global] customer_route :: DeliveryRoute Customer FifoOutcome CustomerSends
}.

Section FifoStates.
  Context `{FT : FifoTypes}.

Record FifoRequests := mkFifoRequests {
  worker_observations : InterpreterRequests ObserveChild;
  worker_initializations : InterpreterRequests InitializeWorker;
  worker_startups : InterpreterRequests StartWorker;
  customer_outcomes : CustomerSends;
  worker_assignments : list AssignWorker;
  worker_preparations : list (PrepareWorkers Source Role);
  restart_schedules : list (ScheduleAfter TimerId);
  worker_shutdowns : InterpreterRequests (ShutdownEstablished Installed);
  diagnostics : InterpreterRequests (DiagnosticAction DiagnosticRoute FifoDiagnostic)
}.

#[export] Instance FifoRequests_Sends : SendEffects FifoRequests := {
  sends_empty :=
    mkFifoRequests sends_empty sends_empty sends_empty sends_empty [] [] [] sends_empty sends_empty;
  sends_append a b :=
    mkFifoRequests (sends_append (worker_observations a) (worker_observations b))
      (sends_append (worker_initializations a) (worker_initializations b))
      (sends_append (worker_startups a) (worker_startups b))
      (sends_append (customer_outcomes a) (customer_outcomes b))
      (worker_assignments a ++ worker_assignments b)
      (worker_preparations a ++ worker_preparations b)
      (restart_schedules a ++ restart_schedules b)
      (sends_append (worker_shutdowns a) (worker_shutdowns b))
      (sends_append (diagnostics a) (diagnostics b))
}.

Definition FifoActions : Type := Actions (StopOnShutdown Worker) Never FifoRequests.

(** ** State ([job.rs], [mod.rs], [drain.rs]) *)

Record QueuedJob := mkQueuedJob { queued_customer : CustomerJob; assigned_role : option (RoleName Role) }.

Record FifoOperating := mkOperating {
  members : list Member;
  queue : @BTreeMap AdmissionOrdinal QueuedJob;
  cursor : nat
}.

Inductive PoolState : Type :=
| State_Constructed (prepared : list (PreparedWorker Role Worker Plan))
| State_Operating (o : FifoOperating)
| State_Draining (members : list RetiringWorker) (deadline : ShutdownDeadline)
| State_Stopped
| State_ForcedRetirement (members : list RetiringWorker) (cause : ForcedRetirementCause).

Inductive FifoError : Type := InitializationUnavailable | WorkerCreationsExhausted.

Record FifoPool := mkFifoPool {
  state : PoolState;
  startup_limit : StartupLimit;
  recovery : PoolRecoveryState Source;
  restarts : RestartBudget;
  backlog : BacklogCapacity;
  interruption : Interruption;
  actor_drain : ActorDrainPolicy;
  diagnostics_to : DiagnosticDisposition DiagnosticRoute;
  creations : CreationSequence;
  jobs : AcceptedJobSequence;
  assignments : AssignmentSequence;
  shutdowns : ShutdownSequence;
  next_restart_timer : N
}.

(** ** Construction ([config.rs]) *)

Record Config := mkConfig {
  config_startup : StartupLimit;
  config_recovery : PoolRecovery Source;
  config_backlog : BacklogCapacity;
  config_interruption : Interruption;
  config_shutdown : ActorDrainPolicy;
  config_diagnostics : DiagnosticDisposition DiagnosticRoute
}.

Record FifoConstructionRejected (F Rej : Type) := mkConstructionRejected {
  rejected_workers : InitialWorkerRejection F Role Worker Plan Rej;
  rejected_config : Config
}.
Arguments mkConstructionRejected {F Rej} _ _.
Arguments rejected_workers {F Rej} _.
Arguments rejected_config {F Rej} _.

(** [factory] is the closure, called once per role; [Preparation] is what it
    returns. *)
Record FifoBuilder (F : Type) := mkBuilder {
  builder_factory : F;
  builder_roles : OrderedRoles Role;
  builder_config : Config
}.
Arguments mkBuilder {F} _ _ _.
Arguments builder_factory {F} _.
Arguments builder_roles {F} _.
Arguments builder_config {F} _.

Definition pool_of (prepared : list (PreparedWorker Role Worker Plan)) (c : Config) : FifoPool :=
  mkFifoPool (State_Constructed prepared) (config_startup c) (recovery_from (config_recovery c))
    budget_empty (config_backlog c) (config_interruption c) (config_shutdown c) (config_diagnostics c)
    CreationSequence_new jobs_new assignments_new shutdowns_new 1.

End FifoStates.

Arguments mkConstructionRejected {FT F Rej} _ _.
Arguments rejected_workers {FT F Rej} _.
Arguments rejected_config {FT F Rej} _.
Arguments mkBuilder {FT F} _ _ _.
Arguments builder_factory {FT F} _.
Arguments builder_roles {FT F} _.
Arguments builder_config {FT F} _.
