(* ===== verification/FifoShutdown.v ===== *)
(** * The drain of a FIFO pool

    The part of [templates/pool/queue/mod.rs] that ends the operation of a pool
    ([begin_shutdown]) and joins the answers that its members still owe
    ([accept_drain_*], [continue_draining]).

    A method with [&mut self] takes and returns [self], the allocator of
    [Arc] tokens paired with the pool.  While a step runs, the state of the pool
    has been moved out ([mem::replace]) and is passed as an argument. *)

From stdpp Require Import base list option numbers.
From S2P Require Import Prelude Effects BTreeMap Timers Restart Termination Settlement Interpretation Creation.
From S2P Require Import Workers WorkerPreparation WorkerStartup ProxyWorker PoolAssignment PoolPolicy PoolWorker PoolMembers.
From S2P Require Import FifoProtocol.

Section FifoShutdown.
  Context `{FT : FifoTypes}.

Abbreviation settled_workers :=
  (CreationsSettled Nonce (StopOnShutdown Worker) WorkerError HostedInitialization Installed).
Abbreviation worker_creation := (CreateChild (StopOnShutdown Worker)).
Abbreviation child_settlement :=
  (WorkerCreationSettlement Nonce Worker WorkerError HostedInitialization Installed).
Abbreviation start_result := (ActionItemResult (PrepareWorkers Source Role) WorkerPreparationStarted Never Never).
Abbreviation preparation := (WorkerPreparation Source Role Worker Plan WorkerRejection SourceRejection).
Abbreviation role_name := (RoleName Role).

(** ** Field updates *)

Definition Self : Type := nat * FifoPool.

Definition alloc {X} (self : Self) (m : Alloc X) : Self * X :=
  let '(n, x) := m self.1 in ((n, self.2), x).

Definition set_state (p : FifoPool) (s : PoolState) : FifoPool :=
  mkFifoPool s (startup_limit p) (recovery p) (restarts p) (backlog p) (interruption p) (actor_drain p)
    (diagnostics_to p) (creations p) (jobs p) (assignments p) (shutdowns p) (next_restart_timer p).

Definition set_recovery (self : Self) (r : PoolRecoveryState Source) : Self :=
  let '(n, p) := self in
  (n, mkFifoPool (state p) (startup_limit p) r (restarts p) (backlog p) (interruption p) (actor_drain p)
    (diagnostics_to p) (creations p) (jobs p) (assignments p) (shutdowns p) (next_restart_timer p)).

Definition set_restarts (self : Self) (b : RestartBudget) : Self :=
  let '(n, p) := self in
  (n, mkFifoPool (state p) (startup_limit p) (recovery p) b (backlog p) (interruption p) (actor_drain p)
    (diagnostics_to p) (creations p) (jobs p) (assignments p) (shutdowns p) (next_restart_timer p)).

Definition set_creations (self : Self) (c : CreationSequence) : Self :=
  let '(n, p) := self in
  (n, mkFifoPool (state p) (startup_limit p) (recovery p) (restarts p) (backlog p) (interruption p)
    (actor_drain p) (diagnostics_to p) c (jobs p) (assignments p) (shutdowns p) (next_restart_timer p)).

Definition set_jobs (self : Self) (j : AcceptedJobSequence) : Self :=
  let '(n, p) := self in
  (n, mkFifoPool (state p) (startup_limit p) (recovery p) (restarts p) (backlog p) (interruption p)
    (actor_drain p) (diagnostics_to p) (creations p) j (assignments p) (shutdowns p) (next_restart_timer p)).

Definition set_assignments (self : Self) (a : AssignmentSequence) : Self :=
  let '(n, p) := self in
  (n, mkFifoPool (state p) (startup_limit p) (recovery p) (restarts p) (backlog p) (interruption p)
    (actor_drain p) (diagnostics_to p) (creations p) (jobs p) a (shutdowns p) (next_restart_timer p)).

Definition set_shutdowns (self : Self) (s : ShutdownSequence) : Self :=
  let '(n, p) := self in
  (n, mkFifoPool (state p) (startup_limit p) (recovery p) (restarts p) (backlog p) (interruption p)
    (actor_drain p) (diagnostics_to p) (creations p) (jobs p) (assignments p) s (next_restart_timer p)).

Definition set_next_restart_timer (self : Self) (t : N) : Self :=
  let '(n, p) := self in
  (n, mkFifoPool (state p) (startup_limit p) (recovery p) (restarts p) (backlog p) (interruption p)
    (actor_drain p) (diagnostics_to p) (creations p) (jobs p) (assignments p) (shutdowns p) t).

(** One field of the requests of some actions. *)
Definition on_observations (f : InterpreterRequests ObserveChild -> InterpreterRequests ObserveChild) : FifoActions -> FifoActions :=
  map_sends (fun r => mkFifoRequests (f (worker_observations r)) (worker_initializations r)
    (worker_startups r) (customer_outcomes r) (worker_assignments r) (worker_preparations r)
    (restart_schedules r) (worker_shutdowns r) (diagnostics r)).

Definition on_initializations (f : InterpreterRequests InitializeWorker -> InterpreterRequests InitializeWorker) : FifoActions -> FifoActions :=
  map_sends (fun r => mkFifoRequests (worker_observations r) (f (worker_initializations r))
    (worker_startups r) (customer_outcomes r) (worker_assignments r) (worker_preparations r)
    (restart_schedules r) (worker_shutdowns r) (diagnostics r)).

Definition on_startups (f : InterpreterRequests StartWorker -> InterpreterRequests StartWorker) : FifoActions -> FifoActions :=
  map_sends (fun r => mkFifoRequests (worker_observations r) (worker_initializations r)
    (f (worker_startups r)) (customer_outcomes r) (worker_assignments r) (worker_preparations r)
    (restart_schedules r) (worker_shutdowns r) (diagnostics r)).

Definition on_outcomes (f : CustomerSends -> CustomerSends) : FifoActions -> FifoActions :=
  map_sends (fun r => mkFifoRequests (worker_observations r) (worker_initializations r)
    (worker_startups r) (f (customer_outcomes r)) (worker_assignments r) (worker_preparations r)
    (restart_schedules r) (worker_shutdowns r) (diagnostics r)).

Definition on_assignments (f : list AssignWorker -> list AssignWorker) : FifoActions -> FifoActions :=
  map_sends (fun r => mkFifoRequests (worker_observations r) (worker_initializations r)
    (worker_startups r) (customer_outcomes r) (f (worker_assignments r)) (worker_preparations r)
    (restart_schedules r) (worker_shutdowns r) (diagnostics r)).

Definition on_preparations (f : list (PrepareWorkers Source Role) -> list (PrepareWorkers Source Role)) : FifoActions -> FifoActions :=
  map_sends (fun r => mkFifoRequests (worker_observations r) (worker_initializations r)
    (worker_startups r) (customer_outcomes r) (worker_assignments r) (f (worker_preparations r))
    (restart_schedules r) (worker_shutdowns r) (diagnostics r)).

Definition on_schedules (f : list (ScheduleAfter TimerId) -> list (ScheduleAfter TimerId)) : FifoActions -> FifoActions :=
  map_sends (fun r => mkFifoRequests (worker_observations r) (worker_initializations r)
    (worker_startups r) (customer_outcomes r) (worker_assignments r) (worker_preparations r)
    (f (restart_schedules r)) (worker_shutdowns r) (diagnostics r)).

Definition on_shutdowns (f : InterpreterRequests (ShutdownEstablished Installed) -> InterpreterRequests (ShutdownEstablished Installed)) : FifoActions -> FifoActions :=
  map_sends (fun r => mkFifoRequests (worker_observations r) (worker_initializations r)
    (worker_startups r) (customer_outcomes r) (worker_assignments r) (worker_preparations r)
    (restart_schedules r) (f (worker_shutdowns r)) (diagnostics r)).

Definition on_diagnostics (f : InterpreterRequests (DiagnosticAction DiagnosticRoute FifoDiagnostic) -> InterpreterRequests (DiagnosticAction DiagnosticRoute FifoDiagnostic)) :
  FifoActions -> FifoActions :=
  map_sends (fun r => mkFifoRequests (worker_observations r) (worker_initializations r)
    (worker_startups r) (customer_outcomes r) (worker_assignments r) (worker_preparations r)
    (restart_schedules r) (worker_shutdowns r) (f (diagnostics r))).

Definition fifo_cont : FifoActions := cont.

Definition set_become (b : Become Never) (a : FifoActions) : FifoActions :=
  mkActions (sends a) (creates a) b.

(** [actions.sends.diagnostics.append(one(self.diagnostics.action(FifoDiagnostic::new(cause))))] *)
Definition diagnosed (self : Self) (c : FifoDiagnosticCause) : FifoActions -> FifoActions :=
  on_diagnostics (append_one (diagnostic_action (diagnostics_to self.2) (mkFifoDiagnostic c))).

(** [actions.sends.customer_outcomes.append(customer.deliver(outcome))] *)
Definition answered (customer : Customer) (o : FifoOutcome) : FifoActions -> FifoActions :=
  on_outcomes (fun s => sends_append s (deliver customer o)).

(** [actions.sends.customer_outcomes = customer.deliver(outcome)] *)
Definition answers (customer : Customer) (o : FifoOutcome) : FifoActions -> FifoActions :=
  on_outcomes (fun _ => deliver customer o).

Definition diagnose (self : Self) (s : PoolState) (input : FifoEvent) : PoolState * FifoActions :=
  (s, on_diagnostics (fun _ => InterpreterRequests_one
        (diagnostic_action (diagnostics_to self.2) (mkFifoDiagnostic (Unexpected input)))) fifo_cont).

(** ** The end of operation *)

Definition retain_cancelled_replacement (self : Self) (role : role_name)
  (r : PendingWorkerReplacement) (error : WorkerReplacementError) (a : FifoActions) : FifoActions :=
  diagnosed self (Diag_WorkerReplacementFailed role (replacement_previous r) (replacement_stopped r)
    (replacement_submission r) None error) a.

Fixpoint return_backlog (reason : QueuedReturnReason) (backlog : list (AdmissionOrdinal * QueuedJob))
  (a : FifoActions) : FifoActions :=
  match backlog with
  | [] => a
  | (_, queued) :: backlog =>
      let customer := queued_customer queued in
      return_backlog reason backlog
        (answered (job_customer customer)
           (Fifo_ReturnedQueued (job_id customer) (job_payload customer) reason) a)
  end.

(** The returns of one retiring member. *)
Definition retire_returns (self : Self) (role : role_name) (custody : RetirementReturns)
  (a : FifoActions) : FifoActions :=
  match custody with
  | Returns_NoTransfer => a
  | Returns_Assignment (mkAssignmentShutdown customer worker _ completion) =>
      let a := answered (job_customer customer)
        (Fifo_ReturnedAssigned (job_id customer) role (job_payload customer) Assigned_PoolShutdown) a in
      match completion with
      | Some completion =>
          diagnosed self (Unexpected (Event_WorkerCompleted
            (mkCompletionReport (attempt_creation worker) completion))) a
      | None => a
      end
  | Returns_Replacement replacement =>
      retain_cancelled_replacement self role replacement Replacement_PoolShutdown a
  end.

Fixpoint retire_members (self : Self) (ids : option (list ShutdownId)) (members : list Member)
  (draining : list RetiringWorker) (a : FifoActions) : list RetiringWorker * FifoActions :=
  match members with
  | [] => (draining, a)
  | member :: members =>
      let role := member_role member in
      let '(id, ids) :=
        match ids, shutdown_target member with
        | Some ids, Some _ => (head ids, Some (tail ids))
        | ids, _ => (None, ids)
        end in
      let '(mkMemberRetirement member request custody) := member_shutdown member id in
      let a := match request with
               | Some request => on_shutdowns (append_one request) a
               | None => a
               end in
      retire_members self ids members (draining ++ [member]) (retire_returns self role custody a)
  end.

Definition begin_shutdown (self : Self) (o : FifoOperating) (a : FifoActions) :
  Self * (PoolState * FifoActions) :=
  let a := return_backlog Queued_PoolShutdown (queue o) a in
  let required := length (omap shutdown_target (members o)) in
  let '(shutdowns, ids) := reserve (shutdowns self.2) required in
  let self := set_shutdowns self shutdowns in
  let '(draining, a) := retire_members self ids (members o) [] a in
  match ids with
  | None =>
      (self, (State_ForcedRetirement draining WorkerShutdownIdsExhausted, set_become (Stop the_Stopped) a))
  | Some _ =>
      if any_waiting draining then
        let '(deadline, schedule) := deadline_begin (actor_drain self.2) in
        let a := match schedule with
                 | Some schedule => on_schedules (send_item schedule) a
                 | None => a
                 end in
        (self, (State_Draining draining deadline, a))
      else (self, (State_Stopped, set_become (Stop the_Stopped) a))
  end.

(** ** Draining *)

Definition continue_draining (members : list RetiringWorker) (deadline : ShutdownDeadline)
  (a : FifoActions) : PoolState * FifoActions :=
  match deadline with
  | NotScheduled settlement =>
      (State_ForcedRetirement members (DeadlineNotScheduled settlement), set_become (Stop the_Stopped) a)
  | Elapsed elapsed =>
      (State_ForcedRetirement members (DeadlineElapsed elapsed), set_become (Stop the_Stopped) a)
  | Unlimited | Scheduling _ | Waiting _ =>
      if any_waiting members then (State_Draining members deadline, a)
      else (State_Stopped, set_become (Stop the_Stopped) a)
  end.

Definition retain_drained_worker (self : Self) (w : WorkerDeparture) (a : FifoActions) : FifoActions :=
  let '(mkDeparture role startup shutdown) := w in
  let a :=
    match startup with
    | Some (Custody_StartupPlan startup) => diagnosed self (Diag_UnusedStartup role None startup) a
    | Some (Custody_StartupPermit permit startup) =>
        diagnosed self (Diag_UnusedStartup role (Some permit) startup) a
    | Some (Custody_Initializing _ | Custody_StartupRequested _ | Custody_Starting _) | None => a
    end in
  match shutdown with
  | ShutdownAccepted _ => a
  | shutdown => diagnosed self (Diag_WorkerShutdownRejected role shutdown) a
  end.

Definition retain_worker (self : Self) (custody : WorkerCustody) (workers : list RetiringWorker)
  (a : FifoActions) : Self * (option ForcedRetirementCause * list RetiringWorker * FifoActions) :=
  match custody with
  | Worker_Running role worker startup =>
      let '(shutdowns, reserved) := reserve (shutdowns self.2) 1 in
      let self := set_shutdowns self shutdowns in
      let shutdown := match reserved with Some ids => list.last ids | None => None end in
      let exhausted := match shutdown with Some _ => None | None => Some WorkerShutdownIdsExhausted end in
      let '(worker, request) := retire_worker role worker (Some (Custody_StartupPlan startup)) shutdown in
      let a := match request with
               | Some request => on_shutdowns (append_one request) a
               | None => a
               end in
      (self, (exhausted, workers ++ [worker], a))
  | Worker_Rejected role rejection startup stopped =>
      (self, (None, workers, diagnosed self (Diag_WorkerCreationRejected role rejection startup stopped) a))
  | Worker_Stopped role worker startup stopped =>
      (self, (None, workers, diagnosed self (Diag_StoppedWorkerEstablished role worker startup stopped) a))
  end.

Definition finish_drain_creations (self : Self) (draining : list RetiringWorker)
  (deadline : ShutdownDeadline) (forced : option ForcedRetirementCause) (a : FifoActions) :
  Self * (PoolState * FifoActions) :=
  match forced with
  | Some cause => (self, (State_ForcedRetirement draining cause, set_become (Stop the_Stopped) a))
  | None => (self, continue_draining draining deadline a)
  end.

Fixpoint reject_drain_loop (self : Self) (rejection : CreationBatchRejection) (position : nat)
  (members : list RetiringWorker) (returned : @BTreeMap nat worker_creation)
  (draining : list RetiringWorker) (forced : option ForcedRetirementCause) (a : FifoActions) :
  Self * (list RetiringWorker * option ForcedRetirementCause * FifoActions) :=
  match members with
  | [] => (self, (draining, forced, a))
  | member :: members =>
      match bt_remove position returned with
      | None => reject_drain_loop self rejection (S position) members returned (draining ++ [member]) forced a
      | Some (creation, returned) =>
          match accept_creation_rejection member (id creation) (kind creation)
                  (batch_worker rejection (into_inner (child creation))) with
          | Ok custody =>
              let '(self, (exhausted, draining, a)) := retain_worker self custody draining a in
              reject_drain_loop self rejection (S position) members returned draining
                (option_or forced exhausted) a
          | Err (member, id, kind, returned_worker) =>
              reject_drain_loop self rejection (S position) members returned (draining ++ [member]) forced
                (diagnosed self (Diag_UnmatchedWorkerReturn id kind returned_worker) a)
          end
      end
  end.

Definition reject_drain_creations (self : Self) (members : list RetiringWorker)
  (deadline : ShutdownDeadline) (creations : Creations worker_creation)
  (rejection : CreationBatchRejection) : Self * (PoolState * FifoActions) :=
  match ordered_creation_positions (retiring_expected_creation <$> members)
          ((fun creation => (id creation, kind creation)) <$> items creations) with
  | None =>
      (self, diagnose self (State_Draining members deadline)
               (Event_WorkerCreationsSettled (batch_settlement rejection creations)))
  | Some positions =>
      let '(self, (draining, forced, a)) :=
        reject_drain_loop self rejection 0 members (collect_map (zip positions (items creations))) [] None
          fifo_cont in
      finish_drain_creations self draining deadline forced a
  end.

Fixpoint drain_creations_loop (self : Self) (position : nat) (members : list RetiringWorker)
  (returned : @BTreeMap nat child_settlement) (draining : list RetiringWorker)
  (forced : option ForcedRetirementCause) (a : FifoActions) :
  Self * (list RetiringWorker * option ForcedRetirementCause * FifoActions) :=
  match members with
  | [] => (self, (draining, forced, a))
  | member :: members =>
      match bt_remove position returned with
      | None => drain_creations_loop self (S position) members returned (draining ++ [member]) forced a
      | Some (settlement, returned) =>
          match accept_creation member settlement with
          | Ok custody =>
              let '(self, (exhausted, draining, a)) := retain_worker self custody draining a in
              drain_creations_loop self (S position) members returned draining (option_or forced exhausted) a
          | Err (member, creation) =>
              drain_creations_loop self (S position) members returned (draining ++ [member]) forced
                (diagnosed self (Diag_WorkersReturned (Creation_Settled (Creations_one creation))) a)
          end
      end
  end.

Definition accept_drain_creations (self : Self) (members : list RetiringWorker)
  (deadline : ShutdownDeadline) (workers : settled_workers) : Self * (PoolState * FifoActions) :=
  match workers with
  | Creation_Rejected creations _ =>
      reject_drain_creations self members deadline creations Batch_NamespaceExhausted
  | Creation_Corrupt creations fault =>
      reject_drain_creations self members deadline creations (Batch_InterpreterCorrupt fault)
  | Creation_Settled settlements =>
      match identities ← mapM creation_identity (items settlements);
            ordered_creation_positions (retiring_expected_creation <$> members) identities with
      | None =>
          (self, diagnose self (State_Draining members deadline)
                   (Event_WorkerCreationsSettled (Creation_Settled settlements)))
      | Some positions =>
          let '(self, (draining, forced, a)) :=
            drain_creations_loop self 0 members (collect_map (zip positions (items settlements))) [] None
              fifo_cont in
          finish_drain_creations self draining deadline forced a
      end
  end.

Definition accept_drain_initialization (self : Self) (members : list RetiringWorker)
  (deadline : ShutdownDeadline) (input : WorkerInitializationReport) : PoolState * FifoActions :=
  match accept_worker_initialization members input with
  | RetiringInit_Returned workers report =>
      diagnose self (State_Draining workers deadline) (Event_WorkerInitialization report)
  | RetiringInit_WorkerStopped workers departure role startup =>
      let a := diagnosed self (Diag_UnusedStartup role None startup) fifo_cont in
      let a := match departure with
               | Some departure => retain_drained_worker self departure a
               | None => a
               end in
      continue_draining workers deadline a
  end.

Definition accept_drain_startup (self : Self) (members : list RetiringWorker)
  (deadline : ShutdownDeadline) (input : WorkerStartup) : PoolState * FifoActions :=
  match accept_worker_startup members input with
  | RetiringStartup_Started workers => continue_draining workers deadline fifo_cont
  | RetiringStartup_Returned workers role worker startup outcome =>
      continue_draining workers deadline
        (diagnosed self (Diag_WorkerStartupReturned role worker startup outcome) fifo_cont)
  | RetiringStartup_Unrelated workers startup =>
      diagnose self (State_Draining workers deadline) (Event_WorkerStartupReported startup)
  end.

Definition accept_drain_preparation_start (self : Self) (members : list RetiringWorker)
  (deadline : ShutdownDeadline) (input : start_result) : Self * (PoolState * FifoActions) :=
  match accept_retiring_worker_preparation_start members input with
  | Ok (Flow_Continue members) => (self, continue_draining members deadline fifo_cont)
  | Ok (Flow_Break (members, failed)) =>
      let '(r, restored) := restore_source (recovery self.2) (failed_source failed) in
      let self := set_recovery self r in
      let '(returned_source, error) :=
        match restored with
        | Ok _ => (None, start_fault_error (failed_fault failed))
        | Err source => (Some source, Preparation_SourceStateCorrupt)
        end in
      (self, continue_draining members deadline
        (diagnosed self (Diag_WorkerPreparationFailed (failed_role failed) (failed_previous failed)
           (failed_stopped failed) returned_source error) fifo_cont))
  | Err (workers, input) =>
      (self, diagnose self (State_Draining workers deadline) (Event_WorkerPreparationStarted input))
  end.

Definition accept_drain_preparation_return (self : Self) (members : list RetiringWorker)
  (deadline : ShutdownDeadline) (input : preparation) : Self * (PoolState * FifoActions) :=
  match accept_retiring_worker_preparation_return members input with
  | Err (workers, input) =>
      (self, diagnose self (State_Draining workers deadline) (Event_WorkerPreparationReturned input))
  | Ok (members, accepted) =>
      let '(self, diagnostic) :=
        match accepted with
        | Preparation_Ready (mkPreparedReplacement role _ previous stopped source submission) =>
            let '(r, restored) := restore_source (recovery self.2) source in
            let '(returned_source, error) :=
              match restored with
              | Ok _ => (None, Replacement_PoolShutdown)
              | Err source => (Some source, Replacement_SourceStateCorrupt)
              end in
            (set_recovery self r,
             Diag_WorkerReplacementFailed role previous stopped submission returned_source error)
        | Preparation_Failed role _ previous stopped source error =>
            let '(r, restored) := restore_source (recovery self.2) source in
            let '(returned_source, error) :=
              match restored with
              | Ok _ => (None, error)
              | Err source => (Some source, Preparation_SourceStateCorrupt)
              end in
            (set_recovery self r, Diag_WorkerPreparationFailed role previous stopped returned_source error)
        end in
      (self, continue_draining members deadline (diagnosed self diagnostic fifo_cont))
  end.

Definition accept_drain_stop (self : Self) (members : list RetiringWorker) (deadline : ShutdownDeadline)
  (stopped : ChildStopped Addr) : PoolState * FifoActions :=
  match accept_worker_exit members stopped with
  | Ok (Flow_Continue members) => continue_draining members deadline fifo_cont
  | Ok (Flow_Break (members, worker)) =>
      continue_draining members deadline (retain_drained_worker self worker fifo_cont)
  | Err (members, stopped) =>
      diagnose self (State_Draining members deadline) (Event_WorkerStopped stopped)
  end.

Definition accept_drain_shutdown (self : Self) (members : list RetiringWorker) (deadline : ShutdownDeadline)
  (settled : EstablishedShutdownResolved) : PoolState * FifoActions :=
  match accept_worker_shutdown members settled with
  | Ok (Flow_Continue members) => continue_draining members deadline fifo_cont
  | Ok (Flow_Break (members, worker)) =>
      continue_draining members deadline (retain_drained_worker self worker fifo_cont)
  | Err (members, settled) =>
      diagnose self (State_Draining members deadline) (Event_WorkerShutdownSettled settled)
  end.

Definition accept_drain_schedule (self : Self) (members : list RetiringWorker) (deadline : ShutdownDeadline)
  (settled : ScheduleResult) : PoolState * FifoActions :=
  match take_at (awaits_restart_schedule settled) members with
  | Some (position, mkRetiring role state, rest) =>
      match state with
      | Retirement_AwaitingRestartSchedule replacement _ =>
          continue_draining (insert_at position (mkRetiring role Retirement_Drained) rest) deadline
            (retain_cancelled_replacement self role replacement
               (Replacement_RestartScheduleReturned settled) fifo_cont)
      | state =>
          diagnose self (State_Draining (insert_at position (mkRetiring role state) rest) deadline)
            (Event_RestartScheduleSettled settled)
      end
  | None =>
      match accept_schedule deadline settled with
      | (deadline, Ok _) => continue_draining members deadline fifo_cont
      | (deadline, Err settled) =>
          diagnose self (State_Draining members deadline) (Event_RestartScheduleSettled settled)
      end
  end.

Definition accept_drain_deadline (self : Self) (members : list RetiringWorker) (deadline : ShutdownDeadline)
  (elapsed : TimerElapsed TimerId) : PoolState * FifoActions :=
  match accept_elapsed deadline elapsed with
  | (deadline, Ok _) => continue_draining members deadline fifo_cont
  | (deadline, Err elapsed) =>
      diagnose self (State_Draining members deadline) (Event_RestartElapsed elapsed)
  end.

End FifoShutdown.
