(* ===== verification/FifoPool.v ===== *)
(** * The FIFO pool ([templates/pool/queue/mod.rs])

    Admission, dispatch in order of admission, the join of deliveries,
    completions and stops, recovery of workers through their source, restarts
    with their budget and timers, and startup under its limit.  The end of
    operation is in FifoShutdown.v.  Last, the entry points: [PoolState::start],
    [init] and [transition], and [FifoBuilder::build] of [config.rs]. *)

From stdpp Require Import base list option numbers.
From S2P Require Import Prelude Effects BTreeMap Timers Restart Termination Settlement Interpretation Creation Workers.
From S2P Require Import WorkerPreparation WorkerStartup ProxyWorker PoolAssignment PoolPolicy PoolWorker PoolMembers.
From S2P Require Import FifoProtocol FifoShutdown.

Section FifoPool.
  Context `{FT : FifoTypes}.

Abbreviation settled_workers :=
  (CreationsSettled Nonce (StopOnShutdown Worker) WorkerError HostedInitialization Installed).
Abbreviation worker_creation := (CreateChild (StopOnShutdown Worker)).
Abbreviation child_settlement :=
  (WorkerCreationSettlement Nonce Worker WorkerError HostedInitialization Installed).
Abbreviation start_result := (ActionItemResult (PrepareWorkers Source Role) WorkerPreparationStarted Never Never).
Abbreviation preparation := (WorkerPreparation Source Role Worker Plan WorkerRejection SourceRejection).
Abbreviation role_name := (RoleName Role).
Abbreviation worker_submission := (WorkerSubmission Worker Plan).

Definition with_members (o : FifoOperating) (l : list Member) : FifoOperating :=
  mkOperating l (queue o) (cursor o).

Definition with_queue (o : FifoOperating) (q : @BTreeMap AdmissionOrdinal QueuedJob) : FifoOperating :=
  mkOperating (members o) q (cursor o).

(** [operating.members.insert(position, Member { role, recoveries, state })] *)
Definition put (o : FifoOperating) (position : nat) (role : role_name) (recoveries : RecoveryCount)
  (s : MemberState) : FifoOperating :=
  with_members o (insert_at position (mkMember role recoveries s) (members o)).

(** [operating.backlog.insert(customer.admitted, QueuedJob { .. })] *)
Definition requeue (o : FifoOperating) (customer : CustomerJob) (role : role_name) : FifoOperating :=
  with_queue o (bt_insert (job_admitted customer) (mkQueuedJob customer (Some role)) (queue o)).

(** ** Positions *)

Fixpoint find_from (l : list Member) (cursor : nat) (offsets : list nat) : option nat :=
  match offsets with
  | [] => None
  | offset :: offsets =>
      let position := (cursor + offset) mod length l in
      match l !! position with
      | Some m => if is_idle m then Some position else find_from l cursor offsets
      | None => find_from l cursor offsets
      end
  end.

Definition available_position (o : FifoOperating) : option nat :=
  match members o with
  | [] => None
  | _ => find_from (members o) (cursor o) (seq 0 (length (members o)))
  end.

Definition creation_positions (o : FifoOperating) (identities : list (CreationId * CreationKind)) :
  option (list nat) :=
  ordered_creation_positions (expected_creation <$> members o) identities.

Definition is_recoverable (r : PoolRecoveryState Source) (m : Member) : bool :=
  match member_state m with
  | Member_Retired => false
  | Member_Worker (mkPoolWorker _ (Phase_Stopping _)) | Member_Recovering _ =>
      match r with
      | RecoveryState_Permanent _ _ _ _ | RecoveryState_Transient _ _ _ _ => true
      | RecoveryState_Temporary _ => false
      end
  | Member_Creating _ | Member_Worker _ => true
  end.

Definition recoverable_position (o : FifoOperating) (r : PoolRecoveryState Source) : option nat :=
  position (is_recoverable r) (members o).

Definition is_worker (child : CreationId) (m : Member) : bool :=
  match member_state m with
  | Member_Creating w => bool_decide (attempt_creation (creating_attempt w) = child)
  | Member_Worker w => bool_decide (attempt_creation (attempt (current w)) = child)
  | Member_Recovering _ | Member_Retired => false
  end.

(** ** Dispatch *)

Inductive FifoDispatch : Type :=
| Dispatch_Assigned (a : AssignWorker)
| Dispatch_WorkerUnavailable (queued : QueuedJob)
| Dispatch_CorrelationUnavailable (queued : QueuedJob).

Definition dispatch (self : Self) (o : FifoOperating) (queued : QueuedJob) :
  Self * (FifoOperating * FifoDispatch) :=
  match available_position o with
  | None => (self, (o, Dispatch_WorkerUnavailable queued))
  | Some position =>
      match members o !! position with
      | Some (mkMember role recoveries (Member_Worker (mkPoolWorker current Phase_Idle))) =>
          let '(assignments, m) :=
            assign (assignments self.2) (attempt current) (job_payload (queued_customer queued)) in
          let self := set_assignments self assignments in
          let '(self, assigned) := alloc self m in
          match assigned with
          | None => (self, (o, Dispatch_CorrelationUnavailable queued))
          | Some (correlation, execution) =>
              let action := assign_worker_new (current_recipient current) correlation execution in
              let busy := Phase_Busy (assigned_new (queued_customer queued) correlation) in
              (self,
               (mkOperating
                  (<[position := mkMember role recoveries (Member_Worker (mkPoolWorker current busy))]>
                     (members o))
                  (queue o) (position + 1),
                Dispatch_Assigned action))
          end
      | _ => (self, (o, Dispatch_WorkerUnavailable queued))
      end
  end.

Definition accept_submission (self : Self) (o : FifoOperating) (submission : SubmissionId)
  (payload : Job) (customer : Customer) : Self * (FifoOperating * FifoActions) :=
  let reject reason := answers customer (Fifo_Rejected submission payload reason) fifo_cont in
  match recoverable_position o (recovery self.2) with
  | None => (self, (o, reject Admission_NoRecoverableWorkers))
  | Some _ =>
      let full := negb (length (queue o) <? backlog_maximum (backlog self.2)) in
      match available_position o, full with
      | None, true => (self, (o, reject Admission_BacklogFull))
      | ready, _ =>
          let '(jobs, admission) := jobs_issue (jobs self.2) in
          let self := set_jobs self jobs in
          match admission with
          | None => (self, (o, reject Admission_JobCorrelationUnavailable))
          | Some (job, admitted) =>
              let queued := mkQueuedJob (mkCustomerJob job admitted payload customer) None in
              let accepted := answers customer (Fifo_Accepted submission job) fifo_cont in
              match ready with
              | None => (self, (with_queue o (bt_insert admitted queued (queue o)), accepted))
              | Some _ =>
                  match dispatch self o queued with
                  | (self, (o, Dispatch_Assigned assignment)) =>
                      (self, (o, on_assignments (send_item assignment) accepted))
                  | (self, (o, Dispatch_WorkerUnavailable queued)) =>
                      if length (queue o) <? backlog_maximum (backlog self.2)
                      then (self, (with_queue o (bt_insert admitted queued (queue o)), accepted))
                      else (self, (o, answers (job_customer (queued_customer queued))
                              (Fifo_Rejected submission (job_payload (queued_customer queued))
                                 Admission_BacklogFull) fifo_cont))
                  | (self, (o, Dispatch_CorrelationUnavailable queued)) =>
                      (self, (o, answers (job_customer (queued_customer queued))
                         (Fifo_Rejected submission (job_payload (queued_customer queued))
                            Admission_AssignmentCorrelationUnavailable) fifo_cont))
                  end
              end
          end
      end
  end.

(** The answer for a job that can no longer be assigned. *)
Definition unassignable (q : QueuedJob) : FifoOutcome :=
  let customer := queued_customer q in
  match assigned_role q with
  | None => Fifo_ReturnedQueued (job_id customer) (job_payload customer) Queued_AssignmentCorrelationUnavailable
  | Some role =>
      Fifo_ReturnedAssigned (job_id customer) role (job_payload customer) Assigned_RetryPreparationRejected
  end.

(** Each turn of the loop takes one job from the backlog, so its length is
    enough fuel: with none left the loop has returned. *)
Fixpoint fill_loop (fuel : nat) (self : Self) (o : FifoOperating) (a : FifoActions) :
  Self * (FifoOperating * FifoActions) :=
  match fuel with
  | 0 => (self, (o, a))
  | S fuel =>
      match available_position o with
      | None => (self, (o, a))
      | Some _ =>
          match queue o with
          | [] => (self, (o, a))
          | (admitted, queued) :: rest =>
              match dispatch self (with_queue o rest) queued with
              | (self, (o, Dispatch_Assigned assignment)) =>
                  fill_loop fuel self o (on_assignments (send_item assignment) a)
              | (self, (o, Dispatch_WorkerUnavailable queued)) =>
                  (self, (with_queue o (bt_insert admitted queued (queue o)), a))
              | (self, (o, Dispatch_CorrelationUnavailable queued)) =>
                  fill_loop fuel self o
                    (answered (job_customer (queued_customer queued)) (unassignable queued) a)
              end
          end
      end
  end.

Definition fill_fifo (self : Self) (o : FifoOperating) (a : FifoActions) :
  Self * (FifoOperating * FifoActions) :=
  fill_loop (length (queue o)) self o a.

Definition return_unrecoverable_jobs (self : Self) (o : FifoOperating) (a : FifoActions) :
  FifoOperating * FifoActions :=
  match recoverable_position o (recovery self.2) with
  | Some _ => (o, a)
  | None => (with_queue o [], return_backlog Queued_NoRecoverableWorkers (queue o) a)
  end.

(** ** Recovery *)

Definition request_preparation (self : Self) (role : role_name) (recoveries : RecoveryCount)
  (previous : WorkerAttempt) (stopped : ChildStopped Addr) (source : Source) (a : FifoActions) :
  Self * (Member * FifoActions) :=
  let '(self, (ticket, request)) := alloc self (prepare_new source role []) in
  (self,
   (mkMember role recoveries (Member_Recovering (Preparing previous stopped (expectation_issued ticket))),
    on_preparations (send_item request) a)).

Definition prepare_next_waiting (self : Self) (o : FifoOperating) (a : FifoActions) :
  Self * (FifoOperating * FifoActions) :=
  match take_at waits_for_source (members o) with
  | None => (self, (o, a))
  | Some (position, mkMember role recoveries state, rest) =>
      match state with
      | Member_Recovering (WaitingForSource previous stopped) =>
          let '(r, claimed) := claim_waiting_source (recovery self.2) in
          let self := set_recovery self r in
          match claimed with
          | None => (self, (put (with_members o rest) position role recoveries state, a))
          | Some source =>
              let '(self, (member, a)) :=
                request_preparation self role recoveries previous stopped source a in
              (self, (with_members o (insert_at position member rest), a))
          end
      | state => (self, (put (with_members o rest) position role recoveries state, a))
      end
  end.

Definition retire_role_after_error (self : Self) (o : FifoOperating) (position : nat) (role : role_name)
  (recoveries : RecoveryCount) (a : FifoActions) : Self * (PoolState * FifoActions) :=
  let o := put o position role recoveries Member_Retired in
  match recovery_failure (recovery self.2) with
  | Reaction_RetireRole =>
      let '(self, (o, a)) := prepare_next_waiting self o a in
      let '(self, (o, a)) := fill_fifo self o a in
      let '(o, a) := return_unrecoverable_jobs self o a in
      (self, (State_Operating o, a))
  | Reaction_StopPool => begin_shutdown self o a
  end.

Definition reject_replacement (self : Self) (o : FifoOperating) (position : nat) (role : role_name)
  (recoveries : RecoveryCount) (previous : WorkerAttempt) (stopped : ChildStopped Addr)
  (submission : worker_submission) (returned_source : option Source) (error : WorkerReplacementError)
  (a : FifoActions) : Self * (PoolState * FifoActions) :=
  retire_role_after_error self o position role recoveries
    (diagnosed self (Diag_WorkerReplacementFailed role previous stopped submission returned_source error) a).

Definition reject_preparation (self : Self) (o : FifoOperating) (position : nat) (role : role_name)
  (recoveries : RecoveryCount) (previous : WorkerAttempt) (stopped : ChildStopped Addr) (source : Source)
  (error : WorkerPreparationError) : Self * (PoolState * FifoActions) :=
  let '(r, restored) := restore_source (recovery self.2) source in
  let self := set_recovery self r in
  let '(returned_source, error) :=
    match restored with
    | Ok _ => (None, error)
    | Err source => (Some source, Preparation_SourceStateCorrupt)
    end in
  retire_role_after_error self o position role recoveries
    (diagnosed self (Diag_WorkerPreparationFailed role previous stopped returned_source error) fifo_cont).

Definition return_source_after_failed_replacement (self : Self) (o : FifoOperating) (position : nat)
  (role : role_name) (recoveries : RecoveryCount) (previous : WorkerAttempt) (stopped : ChildStopped Addr)
  (source : Source) (submission : worker_submission) (error : WorkerReplacementError) :
  Self * (PoolState * FifoActions) :=
  let '(r, restored) := restore_source (recovery self.2) source in
  let self := set_recovery self r in
  let '(returned_source, error) :=
    match restored with
    | Ok _ => (None, error)
    | Err source => (Some source, Replacement_SourceStateCorrupt)
    end in
  reject_replacement self o position role recoveries previous stopped submission returned_source error
    fifo_cont.

Definition recover_worker (self : Self) (o : FifoOperating) (position : nat) (role : role_name)
  (recoveries : RecoveryCount) (previous : WorkerAttempt) (stopped : ChildStopped Addr)
  (a : FifoActions) : Self * (PoolState * FifoActions) :=
  let '(r, decision) := decide (recovery self.2) (stop_kind (child_outcome stopped)) in
  let self := set_recovery self r in
  match decision with
  | Decision_PrepareWorker source =>
      let '(self, (member, a)) := request_preparation self role recoveries previous stopped source a in
      let '(self, (o, a)) :=
        fill_fifo self (with_members o (insert_at position member (members o))) a in
      (self, (State_Operating o, a))
  | Decision_WaitForSource =>
      let '(self, (o, a)) :=
        fill_fifo self
          (put o position role recoveries (Member_Recovering (WaitingForSource previous stopped))) a in
      (self, (State_Operating o, a))
  | Decision_RetireRole =>
      let '(self, (o, a)) := fill_fifo self (put o position role recoveries Member_Retired) a in
      let '(o, a) := return_unrecoverable_jobs self o a in
      (self, (State_Operating o, a))
  | Decision_StopPool => begin_shutdown self (put o position role recoveries Member_Retired) a
  end.

(** ** Startup under its limit *)

Fixpoint authorize_loop (available : nat) (self : Self) (o : FifoOperating) (a : FifoActions) :
  Self * (FifoOperating * FifoActions) :=
  match available with
  | 0 => (self, (o, a))
  | S available =>
      match take_at waits_for_startup (members o) with
      | None => (self, (o, a))
      | Some (position, member, rest) =>
          match authorize_startup member with
          | Ok m =>
              let '(self, (member, request)) := alloc self m in
              authorize_loop available self (with_members o (insert_at position member rest))
                (on_startups (append_one request) a)
          | Err member => (self, (with_members o (insert_at position member rest), a))
          end
      end
  end.

Definition authorize_waiting (self : Self) (o : FifoOperating) (a : FifoActions) :
  Self * (FifoOperating * FifoActions) :=
  let occupied := length (List.filter holds_startup (members o)) in
  authorize_loop (startup_maximum (startup_limit self.2) - occupied) self o a.

Definition continue_after_pre_ready_stop (self : Self) (o : FifoOperating) (position : nat)
  (role : role_name) (recoveries : RecoveryCount) (previous : WorkerAttempt) (stopped : ChildStopped Addr)
  (a : FifoActions) : Self * (PoolState * FifoActions) :=
  match recover_worker self o position role recoveries previous stopped a with
  | (self, (State_Operating o, a)) =>
      let '(self, (o, a)) := authorize_waiting self o a in
      (self, (State_Operating o, a))
  | other => other
  end.

Definition continue_after_returned_startup (self : Self) (o : FifoOperating) (position : nat)
  (role : role_name) (recoveries : RecoveryCount) (previous : WorkerAttempt) (stopped : ChildStopped Addr)
  (returned_worker : WorkerAttempt) (returned_attempt : WorkerStartupGrant)
  (outcome : WorkerStartupOutcome) : Self * (PoolState * FifoActions) :=
  continue_after_pre_ready_stop self o position role recoveries previous stopped
    (diagnosed self (Diag_WorkerStartupReturned role returned_worker returned_attempt outcome) fifo_cont).

(** ** Preparations and restarts *)

Definition accept_worker_preparation_start (self : Self) (o : FifoOperating) (input : start_result) :
  Self * result (PoolState * FifoActions) (FifoOperating * start_result) :=
  match take_at (awaits_start input) (members o) with
  | None => (self, Err (o, input))
  | Some (position, member, rest) =>
      let o := with_members o rest in
      match member_preparation_start member input with
      | Ok (Flow_Continue member) =>
          (self, Ok (State_Operating (with_members o (insert_at position member rest)), fifo_cont))
      | Ok (Flow_Break failed) =>
          let '(self, result) :=
            reject_preparation self o position (failed_role failed) (failed_recoveries failed)
              (failed_previous failed) (failed_stopped failed) (failed_source failed)
              (start_fault_error (failed_fault failed)) in
          (self, Ok result)
      | Err (member, input) => (self, Err (with_members o (insert_at position member rest), input))
      end
  end.

Definition issue_restart_timer (self : Self) : Self * option ScheduleKey :=
  let '(next, key) := key_issue (next_restart_timer self.2) in
  (set_next_restart_timer self next, key).

Definition issue_creation (self : Self) : Self * option CreationId :=
  let '(creations, id) := issue (creations self.2) in
  (set_creations self creations, id).

(** The identifier that the release of a replacement needs. *)
Definition issue_release (self : Self) (release : RecoveryRelease) :
  Self * result WorkerReplacementRelease WorkerReplacementError :=
  match release with
  | Immediate =>
      match issue_creation self with
      | (self, Some creation) => (self, Ok (Release_Now creation))
      | (self, None) => (self, Err Replacement_WorkerCreationsExhausted)
      end
  | Delayed delay =>
      match issue_restart_timer self with
      | (self, Some timer) => (self, Ok (Release_After timer delay))
      | (self, None) => (self, Err Replacement_RestartTimersExhausted)
      end
  end.

(** [actions.creates.extend([worker])] and the observation of the worker *)
Definition created (worker : worker_creation) (observation : ObserveChild) (a : FifoActions) : FifoActions :=
  let a := on_observations (append_one observation) a in
  mkActions (sends a) (Creations_extend (creates a) (Creations_one worker)) (become_ a).

(** The accepted proposal of a restart: the worker is created now or after its
    delay. *)
Definition release_replacement (self : Self) (o : FifoOperating) (position : nat)
  (p : PreparedReplacement) (recoveries : RecoveryCount) (release : WorkerReplacementRelease) :
  Self * (FifoOperating * FifoActions) :=
  let '(mkPreparedReplacement role _ previous stopped _ submission) := p in
  match release with
  | Release_Now creation =>
      let '(self, (member, worker, observation)) :=
        alloc self (begin_replacement (mkPrepared role submission) recoveries
                      (attempt_creation previous) creation) in
      (self, (with_members o (insert_at position member (members o)), created worker observation fifo_cont))
  | Release_After timer delay =>
      (self, (put o position role recoveries
                (Member_Recovering (Recovery_Scheduling previous stopped submission timer)),
              on_schedules (send_item (key_after timer delay)) fifo_cont))
  end.

(** [None] is the panic of an overflowing budget sum. *)
Definition accept_worker_preparation_return (self : Self) (o : FifoOperating) (input : preparation) :
  option (Self * result (PoolState * FifoActions) (FifoOperating * preparation)) :=
  match restart_policy (recovery self.2) with
  | None => Some (self, Err (o, input))
  | Some (limit, release) =>
      match take_at (awaits_return input) (members o) with
      | None => Some (self, Err (o, input))
      | Some (position, member, rest) =>
          let o := with_members o rest in
          match member_preparation_return member input with
          | Err (member, input) => Some (self, Err (with_members o (insert_at position member rest), input))
          | Ok (Preparation_Failed role recoveries previous stopped source error) =>
              let '(self, result) :=
                reject_preparation self o position role recoveries previous stopped source error in
              Some (self, Ok result)
          | Ok (Preparation_Ready ((mkPreparedReplacement role recoveries previous stopped source submission)
                                     as prepared)) =>
              match restart_admission recoveries (restarts self.2) limit release (stopped_at stopped) 1 with
              | None => None
              | Some (Proposed ordinal budget proposed release) =>
                  match issue_release self release with
                  | (self, Err error) =>
                      let '(self, result) :=
                        return_source_after_failed_replacement (set_restarts self budget) o position role
                          (decline_recovery recoveries ordinal) previous stopped source submission error in
                      Some (self, Ok result)
                  | (self, Ok release) =>
                      let '(r, restored) := restore_source (recovery self.2) source in
                      let self := set_recovery self r in
                      match restored with
                      | Err source =>
                          let '(self, result) :=
                            reject_replacement (set_restarts self budget) o position role
                              (decline_recovery recoveries ordinal) previous stopped submission (Some source)
                              Replacement_SourceStateCorrupt fifo_cont in
                          Some (self, Ok result)
                      | Ok _ =>
                          let self := set_restarts self proposed in
                          let '(self, (o, a)) :=
                            release_replacement self o position prepared
                              (accept_recovery recoveries ordinal) release in
                          let '(self, (o, a)) := prepare_next_waiting self o a in
                          Some (self, Ok (State_Operating o, a))
                      end
                  end
              | Some (Denied budget reason) =>
                  let '(self, result) :=
                    return_source_after_failed_replacement (set_restarts self budget) o position role
                      recoveries previous stopped source submission (Replacement_RestartDenied reason) in
                  Some (self, Ok result)
              end
          end
      end
  end.

Definition accept_restart_schedule (self : Self) (o : FifoOperating) (input : ScheduleResult) :
  Self * result (PoolState * FifoActions) (FifoOperating * ScheduleResult) :=
  match take_at (awaits_schedule input) (members o) with
  | None => (self, Err (o, input))
  | Some (position, mkMember role recoveries state, rest) =>
      let o := with_members o rest in
      match state with
      | Member_Recovering worker =>
          match admit_restart_schedule worker input with
          | Ok (Flow_Continue worker) =>
              (self, Ok (State_Operating (put o position role recoveries (Member_Recovering worker)), fifo_cont))
          | Ok (Flow_Break (mkPendingReplacement previous stopped submission, settlement)) =>
              let '(self, result) :=
                reject_replacement self o position role recoveries previous stopped submission None
                  (Replacement_RestartScheduleReturned settlement) fifo_cont in
              (self, Ok result)
          | Err (worker, settlement) =>
              (self, Err (put o position role recoveries (Member_Recovering worker), settlement))
          end
      | state => (self, Err (put o position role recoveries state, input))
      end
  end.

Definition accept_restart_timer (self : Self) (o : FifoOperating) (elapsed : TimerElapsed TimerId) :
  Self * result (PoolState * FifoActions) (FifoOperating * TimerElapsed TimerId) :=
  match take_at (awaits_timer elapsed) (members o) with
  | None => (self, Err (o, elapsed))
  | Some (position, mkMember role recoveries state, rest) =>
      let o := with_members o rest in
      match state with
      | Member_Recovering worker =>
          match admit_restart_timer worker elapsed with
          | Err (worker, elapsed) =>
              (self, Err (put o position role recoveries (Member_Recovering worker), elapsed))
          | Ok (mkPendingReplacement previous stopped submission) =>
              match issue_creation self with
              | (self, None) =>
                  let '(self, result) :=
                    reject_replacement self o position role recoveries previous stopped submission None
                      Replacement_WorkerCreationsExhausted fifo_cont in
                  (self, Ok result)
              | (self, Some creation) =>
                  let '(self, (member, worker, observation)) :=
                    alloc self (begin_replacement (mkPrepared role submission) recoveries
                                  (attempt_creation previous) creation) in
                  (self, Ok (State_Operating (with_members o (insert_at position member rest)),
                             created worker observation fifo_cont))
              end
          end
      | state => (self, Err (put o position role recoveries state, elapsed))
      end
  end.

(** ** Assignments *)

Definition complete_assignment (self : Self) (o : FifoOperating) (position : nat) (role : role_name)
  (recoveries : RecoveryCount) (current : CurrentWorker) (customer : CustomerJob) (r : WorkerResult)
  (stopped : option (ChildStopped Addr)) : Self * (PoolState * FifoActions) :=
  let a := answers (job_customer customer) (Fifo_Completed (job_id customer) role r) fifo_cont in
  match stopped with
  | None =>
      let '(self, (o, a)) :=
        fill_fifo self (put o position role recoveries (Member_Worker (mkPoolWorker current Phase_Idle))) a in
      (self, (State_Operating o, a))
  | Some stopped => recover_worker self o position role recoveries (attempt current) stopped a
  end.

Definition interrupt_assignment (self : Self) (o : FifoOperating) (position : nat) (role : role_name)
  (recoveries : RecoveryCount) (current : CurrentWorker) (customer : CustomerJob)
  (stopped : ChildStopped Addr) (late_completion : option Completion) : Self * (PoolState * FifoActions) :=
  let a :=
    match late_completion with
    | Some completion =>
        diagnosed self (Unexpected (Event_WorkerCompleted
          (mkCompletionReport (attempt_creation (attempt current)) completion))) fifo_cont
    | None => fifo_cont
    end in
  let '(o, a) :=
    match interruption self.2 with
    | Interruption_Fail =>
        (o, answers (job_customer customer)
              (Fifo_ReturnedAssigned (job_id customer) role (job_payload customer) Assigned_WorkerStopped) a)
    | Interruption_Retry => (requeue o customer role, a)
    end in
  recover_worker self o position role recoveries (attempt current) stopped a.

Definition accept_assignment_receipt (self : Self) (o : FifoOperating) (receipt : AssignmentReceipt) :
  Self * result (PoolState * FifoActions) (FifoOperating * AssignmentReceipt) :=
  match take_at (awaits_receipt receipt) (members o) with
  | None => (self, Err (o, receipt))
  | Some (position, mkMember role recoveries state, rest) =>
      let o := with_members o rest in
      match state with
      | Member_Worker (mkPoolWorker current (Phase_Busy assignment)) =>
          let busy a := put o position role recoveries (Member_Worker (mkPoolWorker current (Phase_Busy a))) in
          match accept_receipt assignment receipt with
          | Err (assignment, receipt) => (self, Err (busy assignment, receipt))
          | Ok (Receipt_AwaitingCompletion assignment) =>
              (self, Ok (State_Operating (busy assignment), fifo_cont))
          | Ok (Receipt_JobCompleted customer r stopped) =>
              let '(self, result) :=
                complete_assignment self o position role recoveries current customer r stopped in
              (self, Ok result)
          | Ok (Receipt_JobInterrupted customer stopped late_completion) =>
              let '(self, result) :=
                interrupt_assignment self o position role recoveries current customer stopped
                  late_completion in
              (self, Ok result)
          end
      | state => (self, Err (put o position role recoveries state, receipt))
      end
  end.

Definition pool_accept_completion (self : Self) (o : FifoOperating) (child : CreationId)
  (completion : Completion) : Self * result (PoolState * FifoActions) (FifoOperating * CompletionReport) :=
  match take_at (awaits_completion child completion) (members o) with
  | None => (self, Err (o, mkCompletionReport child completion))
  | Some (position, mkMember role recoveries state, rest) =>
      let o := with_members o rest in
      match state with
      | Member_Worker (mkPoolWorker current (Phase_Busy assignment)) =>
          let busy a := put o position role recoveries (Member_Worker (mkPoolWorker current (Phase_Busy a))) in
          match accept_completion assignment completion with
          | Err (assignment, completion) => (self, Err (busy assignment, mkCompletionReport child completion))
          | Ok (Completion_AwaitingReceipt assignment) =>
              (self, Ok (State_Operating (busy assignment), fifo_cont))
          | Ok (Completion_JobCompleted customer r stopped) =>
              let '(self, result) :=
                complete_assignment self o position role recoveries current customer r stopped in
              (self, Ok result)
          end
      | state => (self, Err (put o position role recoveries state, mkCompletionReport child completion))
      end
  end.

Definition request_worker_shutdown (o : FifoOperating) (position : nat) (role : role_name)
  (recoveries : RecoveryCount) (current : CurrentWorker) (shutdown : ShutdownId) (a : FifoActions) :
  FifoOperating * FifoActions :=
  (put o position role recoveries (Member_Worker (mkPoolWorker current (Phase_Stopping (AwaitingBoth shutdown)))),
   on_shutdowns (append_one (shutdown_request current shutdown)) a).

(** [self.shutdowns.reserve(1).and_then(|reserved| reserved.into_iter().next())] *)
Definition reserve_one (self : Self) : Self * option ShutdownId :=
  let '(shutdowns, reserved) := reserve (shutdowns self.2) 1 in
  (set_shutdowns self shutdowns, match reserved with Some ids => head ids | None => None end).

Definition rejected_assignment (item : AssignWorker) (reason : ExactDeliveryReason) : FifoEvent :=
  Event_AssignmentSettled (Attempted (Rejected item reason)).

Definition reject_assignment_delivery (self : Self) (o : FifoOperating) (item : AssignWorker)
  (reason : ExactDeliveryReason) : Self * (PoolState * FifoActions) :=
  match take_at (awaits_receipt (assign_receipt item)) (members o) with
  | None => (self, diagnose self (State_Operating o) (rejected_assignment item reason))
  | Some (position, mkMember role recoveries state, rest) =>
      match reserve_one self with
      | (self, None) =>
          let '(s, a) := diagnose self (State_Operating o) (rejected_assignment item reason) in
          match s with
          | State_Operating o => begin_shutdown self o a
          | s => (self, (s, a))
          end
      | (self, Some shutdown) =>
          let '(target, returned, receipt) := assign_into_parts item in
          let o := with_members o rest in
          match state with
          | Member_Worker (mkPoolWorker current (Phase_Busy assignment)) =>
              match PoolAssignment.accept_rejection assignment returned with
              | Err (assignment, returned) =>
                  (self, diagnose self
                     (State_Operating (put o position role recoveries
                        (Member_Worker (mkPoolWorker current (Phase_Busy assignment)))))
                     (rejected_assignment (assign_returned target returned receipt) reason))
              | Ok (JobReturned customer stopped) =>
                  let o := requeue o customer role in
                  match stopped with
                  | None =>
                      let '(o, a) :=
                        request_worker_shutdown o position role recoveries current shutdown fifo_cont in
                      let '(self, (o, a)) := fill_fifo self o a in
                      (self, (State_Operating o, a))
                  | Some stopped =>
                      recover_worker self o position role recoveries (attempt current) stopped fifo_cont
                  end
              | Ok (ConflictingCompletion customer assignment completion stopped) =>
                  let a := answers (job_customer customer)
                    (Fifo_ReturnedAssigned (job_id customer) role (job_payload customer)
                       Assigned_ContradictoryAssignmentSettlement) fifo_cont in
                  let a := diagnosed self (Unexpected
                    (rejected_assignment (assign_returned target assignment receipt) reason)) a in
                  let a := diagnosed self (Unexpected (Event_WorkerCompleted
                    (mkCompletionReport (attempt_creation (attempt current)) completion))) a in
                  match stopped with
                  | None =>
                      let '(o, a) := request_worker_shutdown o position role recoveries current shutdown a in
                      begin_shutdown self o a
                  | Some stopped =>
                      match recover_worker self o position role recoveries (attempt current) stopped a with
                      | (self, (State_Operating o, a)) => begin_shutdown self o a
                      | other => other
                      end
                  end
              end
          | state =>
              (self, diagnose self (State_Operating (put o position role recoveries state))
                 (rejected_assignment (assign_returned target returned receipt) reason))
          end
      end
  end.

(** ** Stops and shutdowns of workers *)

Definition finish_worker_shutdown (self : Self) (o : FifoOperating) (position : nat) (role : role_name)
  (recoveries : RecoveryCount) (current : CurrentWorker) (shutdown : EstablishedShutdownResolved)
  (stopped : ChildStopped Addr) : Self * (PoolState * FifoActions) :=
  let a :=
    match shutdown with
    | ShutdownAccepted _ => fifo_cont
    | shutdown => diagnosed self (Diag_WorkerShutdownRejected role shutdown) fifo_cont
    end in
  recover_worker self o position role recoveries (attempt current) stopped a.

(** The creating worker with the stop that came before its settlement. *)
Definition creating_with_stop (w : CreatingWorker) (stopped : ChildStopped Addr) : CreatingWorker :=
  mkCreating (creating_attempt w) (creating_initialization w) (creating_startup w) (creating_kind w)
    (Some stopped).

Definition accept_worker_stop (self : Self) (o : FifoOperating) (stopped : ChildStopped Addr) :
  Self * result (PoolState * FifoActions) (FifoOperating * ChildStopped Addr) :=
  match take_at (is_worker (stopped_child stopped)) (members o) with
  | None => (self, Err (o, stopped))
  | Some (position, mkMember role recoveries state, rest) =>
      let o := with_members o rest in
      let put_phase current phase := put o position role recoveries (Member_Worker (mkPoolWorker current phase)) in
      match state with
      | Member_Creating worker =>
          match creating_stopped worker with
          | None =>
              (self, Ok (State_Operating
                 (put o position role recoveries (Member_Creating (creating_with_stop worker stopped))), fifo_cont))
          | Some _ => (self, Err (put o position role recoveries (Member_Creating worker), stopped))
          end
      | (Member_Recovering _ | Member_Retired) as state =>
          (self, Err (put o position role recoveries state, stopped))
      | Member_Worker (mkPoolWorker current phase) =>
          match phase with
          | Phase_Initializing initialization None =>
              (self, Ok (State_Operating (put_phase current (Phase_Initializing initialization (Some stopped))),
                         fifo_cont))
          | Phase_WaitingForStartup permit startup =>
              let '(self, result) :=
                continue_after_pre_ready_stop self o position role recoveries (attempt current) stopped
                  (diagnosed self (Diag_UnusedStartup role (Some permit) startup) fifo_cont) in
              (self, Ok result)
          | Phase_StartupRequested g None =>
              (self, Ok (State_Operating (put_phase current (Phase_StartupRequested g (Some stopped))), fifo_cont))
          | Phase_Starting g None =>
              (self, Ok (State_Operating (put_phase current (Phase_Starting g (Some stopped))), fifo_cont))
          | Phase_Idle =>
              let '(self, result) :=
                recover_worker self o position role recoveries (attempt current) stopped fifo_cont in
              (self, Ok result)
          | Phase_Busy assignment =>
              match PoolAssignment.accept_worker_exit assignment stopped with
              | Err (assignment, stopped) => (self, Err (put_phase current (Phase_Busy assignment), stopped))
              | Ok (Exit_AwaitingReceipt assignment) =>
                  (self, Ok (State_Operating (put_phase current (Phase_Busy assignment)), fifo_cont))
              | Ok (Exit_JobInterrupted customer stopped late_completion) =>
                  let '(self, result) :=
                    interrupt_assignment self o position role recoveries current customer stopped
                      late_completion in
                  (self, Ok result)
              end
          | Phase_Stopping join =>
              match join_stopped join stopped (attempt current) with
              | Ok (Flow_Continue join) =>
                  (self, Ok (State_Operating (put_phase current (Phase_Stopping join)), fifo_cont))
              | Ok (Flow_Break (shutdown, stopped)) =>
                  let '(self, result) :=
                    finish_worker_shutdown self o position role recoveries current shutdown stopped in
                  (self, Ok result)
              | Err (join, stopped) => (self, Err (put_phase current (Phase_Stopping join), stopped))
              end
          | (Phase_Initializing _ (Some _) | Phase_StartupRequested _ (Some _) | Phase_Starting _ (Some _))
              as phase => (self, Err (put_phase current phase, stopped))
          end
      end
  end.

Definition pool_accept_worker_shutdown (self : Self) (o : FifoOperating)
  (shutdown : EstablishedShutdownResolved) :
  Self * result (PoolState * FifoActions) (FifoOperating * EstablishedShutdownResolved) :=
  match take_at (awaits_shutdown (resolved_id shutdown)) (members o) with
  | None => (self, Err (o, shutdown))
  | Some (position, mkMember role recoveries state, rest) =>
      let o := with_members o rest in
      match state with
      | Member_Worker (mkPoolWorker current (Phase_Stopping join)) =>
          let stopping j := put o position role recoveries (Member_Worker (mkPoolWorker current (Phase_Stopping j))) in
          match join_settled join shutdown with
          | Ok (Flow_Continue join) => (self, Ok (State_Operating (stopping join), fifo_cont))
          | Ok (Flow_Break (shutdown, stopped)) =>
              let '(self, result) :=
                finish_worker_shutdown self o position role recoveries current shutdown stopped in
              (self, Ok result)
          | Err (join, shutdown) => (self, Err (stopping join, shutdown))
          end
      | state => (self, Err (put o position role recoveries state, shutdown))
      end
  end.

(** ** Initialization and startup reports

    The loops over the members take one out, and return or put it back where it
    was ([None]). *)
Fixpoint for_members {R} (body : nat -> Member -> list Member -> option R) (l : list Member)
  (positions : list nat) : option R :=
  match positions with
  | [] => None
  | position :: positions =>
      match l !! position with
      | Some member =>
          match body position member (base.delete position l) with
          | Some r => Some r
          | None => for_members body l positions
          end
      | None => None
      end
  end.

Abbreviation loop_result := (Self * (PoolState * FifoActions))%type.

Definition initialization_body (self : Self) (o : FifoOperating) (input : WorkerInitializationReport)
  (position : nat) (member : Member) (rest : list Member) : option loop_result :=
  let '(mkMember role recoveries state) := member in
  let o := with_members o rest in
  match state with
  | Member_Worker (mkPoolWorker current (Phase_Initializing initialization stopped)) =>
      if bool_decide (initialization = report_initialization input) then
        match stopped, input with
        | None, InitializationStopped _ _ startup stopped =>
            if bool_decide (stopped_child stopped = attempt_creation (attempt current)) then
              Some (continue_after_pre_ready_stop self o position role recoveries (attempt current) stopped
                      (diagnosed self (Diag_UnusedStartup role None startup) fifo_cont))
            else None
        | Some stopped, returned =>
            Some (continue_after_pre_ready_stop self o position role recoveries (attempt current) stopped
                    (diagnosed self (Unexpected (Event_WorkerInitialization returned)) fifo_cont))
        | None, EffectsRejected _ _ _ _ =>
            let a := diagnosed self (Unexpected (Event_WorkerInitialization input)) fifo_cont in
            match reserve_one self with
            | (self, None) =>
                Some (begin_shutdown self (put o position role recoveries
                        (Member_Worker (mkPoolWorker current (Phase_Initializing initialization None)))) a)
            | (self, Some shutdown) =>
                let '(o, a) := request_worker_shutdown o position role recoveries current shutdown a in
                Some (self, (State_Operating o, a))
            end
        | None, ReadyForStartup _ _ _ _ => None
        end
      else None
  | _ => None
  end.

Definition accept_initialization (self : Self) (o : FifoOperating) (input : WorkerInitializationReport) :
  Self * result (PoolState * FifoActions) (FifoOperating * WorkerInitializationReport) :=
  let remaining o input :=
    match for_members (initialization_body self o input) (members o) (seq 0 (length (members o))) with
    | Some (self, result) => (self, Ok result)
    | None => (self, Err (o, input))
    end in
  match take_at (has_attempt (report_worker input)) (members o) with
  | Some (position, member, rest) =>
      match admit_initialization member input with
      | Ok member =>
          let '(self, (o, a)) :=
            authorize_waiting self (with_members o (insert_at position member rest)) fifo_cont in
          (self, Ok (State_Operating o, a))
      | Err (member, returned) => remaining (with_members o (insert_at position member rest)) returned
      end
  | None => remaining o input
  end.

(** A startup that came back unusable: the worker is shut down. *)
Definition return_startup (self : Self) (o : FifoOperating) (position : nat) (role : role_name)
  (recoveries : RecoveryCount) (current : CurrentWorker) (phase : PoolWorkerPhase) (a : FifoActions) :
  loop_result :=
  match reserve_one self with
  | (self, None) =>
      begin_shutdown self (put o position role recoveries (Member_Worker (mkPoolWorker current phase))) a
  | (self, Some shutdown) =>
      let '(o, a) := request_worker_shutdown o position role recoveries current shutdown a in
      let '(self, (o, a)) := authorize_waiting self o a in
      (self, (State_Operating o, a))
  end.

Definition startup_body (self : Self) (o : FifoOperating) (input : WorkerStartup)
  (position : nat) (member : Member) (rest : list Member) : option loop_result :=
  let '(mkMember role recoveries state) := member in
  let o := with_members o rest in
  match state with
  | Member_Worker (mkPoolWorker current phase) =>
      if bool_decide (attempt current = startup_worker input) then
        let '(returned_worker, returned_attempt, outcome) := startup_into_parts input in
        let a := diagnosed self
          (Diag_WorkerStartupReturned role returned_worker returned_attempt outcome) fifo_cont in
        let resume stopped :=
          continue_after_returned_startup self o position role recoveries (attempt current) stopped
            returned_worker returned_attempt outcome in
        match phase with
        | Phase_StartupRequested g None =>
            if bool_decide (g = startup_grant input)
            then Some (return_startup self o position role recoveries current phase a) else None
        | Phase_Starting g None =>
            if bool_decide (g = startup_grant input) then
              match outcome with
              | Startup_Started =>
                  Some (self, (State_Operating
                    (put o position role recoveries (Member_Worker (mkPoolWorker current phase))), a))
              | _ => Some (return_startup self o position role recoveries current phase a)
              end
            else None
        | Phase_StartupRequested g (Some stopped) =>
            if bool_decide (g = startup_grant input) then Some (resume stopped) else None
        | Phase_Starting g (Some stopped) =>
            if bool_decide (g = startup_grant input) then
              match outcome with
              | Startup_Started =>
                  Some (self, (State_Operating
                    (put o position role recoveries (Member_Worker (mkPoolWorker current phase))), a))
              | _ => Some (resume stopped)
              end
            else None
        | _ => None
        end
      else None
  | _ => None
  end.

Definition accept_startup (self : Self) (o : FifoOperating) (input : WorkerStartup) :
  Self * result (PoolState * FifoActions) (FifoOperating * WorkerStartup) :=
  let remaining o input :=
    match for_members (startup_body self o input) (members o) (seq 0 (length (members o))) with
    | Some (self, result) => (self, Ok result)
    | None => (self, Err (o, input))
    end in
  match take_at (has_attempt (startup_worker input)) (members o) with
  | Some (position, member, rest) =>
      match admit_startup member input with
      | Ok member =>
          let o := with_members o (insert_at position member rest) in
          let '(self, (o, a)) :=
            if is_idle member then fill_fifo self o fifo_cont else (self, (o, fifo_cont)) in
          let '(self, (o, a)) := authorize_waiting self o a in
          (self, Ok (State_Operating o, a))
      | Err (member, returned) => remaining (with_members o (insert_at position member rest)) returned
      end
  | None => remaining o input
  end.

(** ** Creation settlements *)

Fixpoint reject_batch_loop (self : Self) (rejection : CreationBatchRejection) (position : nat)
  (l : list Member) (returned : @BTreeMap nat worker_creation) (done : list Member) (a : FifoActions) :
  list Member * FifoActions :=
  match l with
  | [] => (done, a)
  | member :: l =>
      match bt_remove position returned with
      | None => reject_batch_loop self rejection (S position) l returned (done ++ [member]) a
      | Some (creation, returned) =>
          let '(mkMember role recoveries state) := member in
          match state with
          | Member_Creating worker =>
              reject_batch_loop self rejection (S position) l returned
                (done ++ [mkMember role recoveries Member_Retired])
                (diagnosed self (Diag_WorkerCreationRejected role
                   (batch_worker rejection (into_inner (child creation)))
                   (creating_startup worker) (creating_stopped worker)) a)
          | state =>
              reject_batch_loop self rejection (S position) l returned
                (done ++ [mkMember role recoveries state])
                (diagnosed self (Diag_WorkersReturned
                   (batch_settlement rejection (Creations_one creation))) a)
          end
      end
  end.

Definition reject_creation_batch (self : Self) (o : FifoOperating) (creations : Creations worker_creation)
  (rejection : CreationBatchRejection) : FifoOperating * result FifoActions settled_workers :=
  match creation_positions o ((fun creation => (id creation, kind creation)) <$> items creations) with
  | None => (o, Err (batch_settlement rejection creations))
  | Some positions =>
      let '(members, a) :=
        reject_batch_loop self rejection 0 (members o) (collect_map (zip positions (items creations))) []
          fifo_cont in
      (with_members o members, Ok a)
  end.

Fixpoint creations_loop (self : Self) (position : nat) (l : list Member)
  (returned : @BTreeMap nat child_settlement) (done : list Member)
  (failure : option PoolFailureReaction) (a : FifoActions) :
  list Member * option PoolFailureReaction * FifoActions :=
  match l with
  | [] => (done, failure, a)
  | member :: l =>
      match bt_remove position returned with
      | None => creations_loop self (S position) l returned (done ++ [member]) failure a
      | Some (settlement, returned) =>
          match admit_creation member settlement with
          | Admission_Initializing member request =>
              creations_loop self (S position) l returned (done ++ [member]) failure
                (on_initializations (append_one request) a)
          | Admission_Rejected member role rejection startup stopped =>
              creations_loop self (S position) l returned (done ++ [member])
                (Some (recovery_failure (recovery self.2)))
                (diagnosed self (Diag_WorkerCreationRejected role rejection startup stopped) a)
          | Admission_Unrelated member creation =>
              creations_loop self (S position) l returned (done ++ [member]) failure
                (diagnosed self (Diag_WorkersReturned (Creation_Settled (Creations_one creation))) a)
          end
      end
  end.

Definition react_to_failure (self : Self) (o : FifoOperating) (failure : option PoolFailureReaction)
  (a : FifoActions) : Self * (PoolState * FifoActions) :=
  match failure with
  | None => (self, (State_Operating o, a))
  | Some Reaction_RetireRole =>
      let '(self, (o, a)) := fill_fifo self o a in
      let '(o, a) := return_unrecoverable_jobs self o a in
      (self, (State_Operating o, a))
  | Some Reaction_StopPool => begin_shutdown self o a
  end.

Definition reject_creations (self : Self) (o : FifoOperating) (creations : Creations worker_creation)
  (rejection : CreationBatchRejection) :
  Self * result (PoolState * FifoActions) (FifoOperating * settled_workers) :=
  match reject_creation_batch self o creations rejection with
  | (o, Err workers) => (self, Err (o, workers))
  | (o, Ok a) =>
      let '(self, result) := react_to_failure self o (Some (recovery_failure (recovery self.2))) a in
      (self, Ok result)
  end.

Definition accept_creations (self : Self) (o : FifoOperating) (workers : settled_workers) :
  Self * result (PoolState * FifoActions) (FifoOperating * settled_workers) :=
  match workers with
  | Creation_Corrupt creations fault => reject_creations self o creations (Batch_InterpreterCorrupt fault)
  | Creation_Rejected creations _ => reject_creations self o creations Batch_NamespaceExhausted
  | Creation_Settled settlements =>
      match identities ← mapM creation_identity (items settlements); creation_positions o identities with
      | None => (self, Err (o, Creation_Settled settlements))
      | Some positions =>
          let '(members, failure, a) :=
            creations_loop self 0 (members o) (collect_map (zip positions (items settlements))) [] None
              fifo_cont in
          let '(self, result) := react_to_failure self (with_members o members) failure a in
          (self, Ok result)
      end
  end.

End FifoPool.

Section FifoTransition.
  Context `{FT : FifoTypes}.

Abbreviation worker_creation := (CreateChild (StopOnShutdown Worker)).

(** ** Initialization *)

Definition pool_start (s : PoolState) (creations : CreationSequence) :
  CreationSequence *
  result (Alloc (PoolState * list ObserveChild * Creations worker_creation)) (PoolState * FifoError) :=
  match s with
  | State_Constructed prepared =>
      match issue_ids (length prepared) creations [] with
      | (creations, None) => (creations, Err (State_Constructed prepared, WorkerCreationsExhausted))
      | (creations, Some ids) =>
          (creations,
           Ok ('(members, workers, observations) ← begin_members (zip prepared ids);
               mret (State_Operating (mkOperating members [] 0), observations, mkCreations workers)))
      end
  | s => (creations, Err (s, InitializationUnavailable))
  end.

(** [Err] leaves the state as it was. *)
Definition init (self : Self) : Self * result FifoActions FifoError :=
  let '(n, p) := self in
  let s := state p in
  let '(creations, started) := pool_start s (creations p) in
  let self := set_creations (n, set_state p State_Stopped) creations in
  match started with
  | Ok m =>
      let '(self, (s, observations, workers)) := alloc self m in
      ((self.1, set_state self.2 s),
       Ok (mkActions
             (mkFifoRequests (mkRequests observations) sends_empty sends_empty sends_empty [] [] []
                sends_empty sends_empty)
             workers Continue))
  | Err (s, error) => ((self.1, set_state self.2 s), Err error)
  end.

(** ** Transitions *)

(** An [Err] of a handler is diagnosed. *)
Definition or_diagnose {X} (event : X -> FifoEvent)
  (r : Self * result (PoolState * FifoActions) (FifoOperating * X)) : Self * (PoolState * FifoActions) :=
  match r with
  | (self, Ok result) => (self, result)
  | (self, Err (o, input)) => (self, diagnose self (State_Operating o) (event input))
  end.

(** One input of an operating pool. *)
Definition operate (self : Self) (o : FifoOperating) (input : FifoEvent) :
  option (Self * (PoolState * FifoActions)) :=
  match input with
  | Event_Command (mkUser _ (Submit submission payload customer)) =>
      let '(self, (o, a)) := accept_submission self o submission payload customer in
      Some (self, (State_Operating o, a))
  | Event_Command (mkUser _ Command_Shutdown) | Event_Shutdown _ => Some (begin_shutdown self o fifo_cont)
  | Event_WorkerCreationsSettled workers =>
      Some (or_diagnose Event_WorkerCreationsSettled (accept_creations self o workers))
  | Event_WorkerInitialization input =>
      Some (or_diagnose Event_WorkerInitialization (accept_initialization self o input))
  | Event_WorkerStartupReported input =>
      Some (or_diagnose Event_WorkerStartupReported (accept_startup self o input))
  | Event_WorkerPreparationStarted input =>
      Some (or_diagnose Event_WorkerPreparationStarted (accept_worker_preparation_start self o input))
  | Event_WorkerPreparationReturned input =>
      or_diagnose Event_WorkerPreparationReturned <$> accept_worker_preparation_return self o input
  | Event_RestartScheduleSettled input =>
      Some (or_diagnose Event_RestartScheduleSettled (accept_restart_schedule self o input))
  | Event_RestartElapsed elapsed =>
      Some (or_diagnose Event_RestartElapsed (accept_restart_timer self o elapsed))
  | Event_AssignmentSettled (Attempted (Settlement.Accepted receipt)) =>
      Some (or_diagnose (fun receipt => Event_AssignmentSettled (Attempted (Settlement.Accepted receipt)))
              (accept_assignment_receipt self o receipt))
  | Event_AssignmentSettled (Attempted (Rejected item reason)) =>
      Some (reject_assignment_delivery self o item reason)
  | Event_AssignmentSettled _ => Some (self, diagnose self (State_Operating o) input)
  | Event_WorkerCompleted (mkCompletionReport child report) =>
      Some (or_diagnose Event_WorkerCompleted (pool_accept_completion self o child report))
  | Event_WorkerStopped stopped => Some (or_diagnose Event_WorkerStopped (accept_worker_stop self o stopped))
  | Event_WorkerShutdownSettled shutdown =>
      Some (or_diagnose Event_WorkerShutdownSettled (pool_accept_worker_shutdown self o shutdown))
  end.

(** One input of a draining pool. *)
Definition drain (self : Self) (members : list RetiringWorker) (deadline : ShutdownDeadline)
  (input : FifoEvent) : Self * (PoolState * FifoActions) :=
  match input with
  | Event_Command (mkUser _ (Submit submission payload customer)) =>
      (self, (State_Draining members deadline,
              answers customer (Fifo_Rejected submission payload Admission_ShuttingDown) fifo_cont))
  | Event_Command (mkUser _ Command_Shutdown) | Event_Shutdown _ =>
      (self, (State_Draining members deadline, fifo_cont))
  | Event_WorkerCreationsSettled workers => accept_drain_creations self members deadline workers
  | Event_WorkerStopped stopped => (self, accept_drain_stop self members deadline stopped)
  | Event_WorkerInitialization i => (self, accept_drain_initialization self members deadline i)
  | Event_WorkerStartupReported s => (self, accept_drain_startup self members deadline s)
  | Event_WorkerShutdownSettled settled => (self, accept_drain_shutdown self members deadline settled)
  | Event_WorkerPreparationStarted started => accept_drain_preparation_start self members deadline started
  | Event_WorkerPreparationReturned returned => accept_drain_preparation_return self members deadline returned
  | Event_RestartScheduleSettled settled => (self, accept_drain_schedule self members deadline settled)
  | Event_RestartElapsed elapsed => (self, accept_drain_deadline self members deadline elapsed)
  | Event_WorkerCompleted _ | Event_AssignmentSettled _ =>
      (self, diagnose self (State_Draining members deadline) input)
  end.

Definition transition (self : Self) (input : FifoEvent) : option (Self * FifoActions) :=
  let s := state self.2 in
  let self := (self.1, set_state self.2 State_Stopped) in
  '(self, (s, a)) ←
    match s with
    | State_Operating o => operate self o input
    | State_Draining members deadline => Some (drain self members deadline input)
    | State_Stopped | State_ForcedRetirement _ _ =>
        let '(s, a) := diagnose self s input in
        Some (self, (s, set_become (Stop the_Stopped) a))
    | State_Constructed _ => Some (self, diagnose self s input)
    end;
  Some ((self.1, set_state self.2 s), a).

(** ** Construction *)

Definition build {F Prep Rej : Type} `{!InitialWorkerPreparation Prep Worker Plan Rej}
  (call : F -> Role -> F * Prep) (b : FifoBuilder F) : result FifoPool (FifoConstructionRejected F Rej) :=
  match prepare_initial_workers call (builder_factory b) (builder_roles b) with
  | Ok prepared => Ok (pool_of prepared (builder_config b))
  | Err workers => Err (mkConstructionRejected workers (builder_config b))
  end.

End FifoTransition.
