(* ===== verification/FifoInvariant.v ===== *)
(** * Invariants and internal operations of the FIFO pool

    What the members and the backlog of an operating pool hold, the accounts of
    accepted jobs and of the answers to their customers.  Then filling idle
    workers, returning jobs, ending operation, the return of the source and the
    next preparation, the retirement of a role after an error, and the
    authorization of startups under their limit, each with the invariant, the
    accounts of jobs and sources, and the counts it leaves. *)

From stdpp Require Import base list list_numbers option numbers sorting.
From S2P Require Import Prelude Effects BTreeMap Timers Restart Termination Settlement Interpretation Creation Workers.
From S2P Require Import WorkerPreparation WorkerStartup ProxyWorker PoolAssignment PoolPolicy PoolWorker PoolMembers.
From S2P Require Import PoolDrain FifoProtocol FifoShutdown FifoPool.

Section FifoInvariant.
  Context `{FT : FifoTypes} `{RL : !RouteLaws Customer FifoOutcome CustomerSends}.
  (** What the wait of a member for the source says of the recovery state. *)
  Context {W : PoolRecoveryState Source -> Prop}.

(** ** What a member holds *)

Abbreviation queue_t := (@BTreeMap AdmissionOrdinal QueuedJob).

Definition waiting_jobs (q : queue_t) : list CustomerJob := queued_customer ∘ snd <$> q.

(** The accepted jobs that a pool has still to answer. *)
Definition held (l : list Member) (q : queue_t) : list CustomerJob := waiting_jobs q ++ (fst <$> busies l).

(** ** The invariant of an operating pool *)

Record fifo_inv (self : Self) (l : list Member) (q : queue_t) : Prop := {
  ok_sorted : sorted q;
  ok_keys : Forall (fun kv => kv.1 = job_admitted (queued_customer kv.2)) q;
  ok_distinct : NoDup (job_ordinal <$> held l q);
  ok_jobs : Forall (fun j => job_number (job_id j) = job_ordinal j /\
                             below (next_job (jobs self.2)) (job_ordinal j)) (held l q);
  ok_assigned : Forall (fun c => below (next_assignment (assignments self.2))
                                   (assignment_number (correlation_assignment c.2))) (busies l);
  ok_source : sum_list_with preparing l = sources_out (recovery self.2);
  ok_stalled : 0 < sum_list_with stalled l -> W (recovery self.2);
  ok_starting : sum_list_with starting l <= startup_maximum (startup_limit self.2);
  ok_budget : budget_ok (recovery self.2) (restarts self.2)
}.

(** No worker is idle while a job waits. *)
Definition conserving (o : FifoOperating) : Prop :=
  queue o = [] \/ sum_list_with idle (members o) = 0.

(** No startup waits while the limit leaves room. *)
Definition startups_settled (self : Self) (o : FifoOperating) : Prop :=
  sum_list_with unstarted (members o) = 0 \/
  sum_list_with starting (members o) = startup_maximum (startup_limit self.2).

(** Jobs assigned since [n] were admitted before every job that still waits. *)
Definition fair (n : option N) (o : FifoOperating) : Prop :=
  forall c, c ∈ busies (members o) -> ~ below n (assignment_number (correlation_assignment c.2)) ->
    Forall (fun kv => (job_ordinal c.1 < ordinal_number kv.1)%N) (queue o).

(** ** Answers *)

Definition replies (a : FifoActions) : list (Customer * FifoOutcome) :=
  addressed (customer_outcomes (sends a)).

(** A terminal answer for a job, to its own customer and with its own payload
    when it is returned. *)
Definition closes (j : CustomerJob) (r : Customer * FifoOutcome) : Prop :=
  r.1 = job_customer j /\
  match r.2 with
  | Fifo_Completed id _ _ => id = job_id j
  | Fifo_ReturnedQueued id payload _ | Fifo_ReturnedAssigned id _ payload _ =>
      id = job_id j /\ payload = job_payload j
  | Fifo_Accepted _ _ | Fifo_Rejected _ _ _ => False
  end.

(** From the open jobs [J] to [J'], every job that left was closed by one answer. *)
Definition settles (J : list CustomerJob) (a : FifoActions) (J' : list CustomerJob) (a' : FifoActions) : Prop :=
  exists closed new, replies a' = replies a ++ new /\ Forall2 closes closed new /\ J ≡ₚ closed ++ J'.

(** A source that came back and could not be put away. *)
Definition source_lost (c : FifoDiagnosticCause) : bool :=
  match c with
  | Diag_WorkerPreparationFailed _ _ _ (Some _) _
  | Diag_WorkerPreparationFailed _ _ _ _ Preparation_SourceStateCorrupt
  | Diag_WorkerReplacementFailed _ _ _ _ (Some _) _
  | Diag_WorkerReplacementFailed _ _ _ _ _ Replacement_SourceStateCorrupt => true
  | _ => false
  end.

Definition clean (a : FifoActions) : Prop :=
  Forall (fun d => source_lost (cause (diagnostic_of d)) = false) (requests (diagnostics (sends a))).

Record accounted (J : list CustomerJob) (a : FifoActions) (J' : list CustomerJob) (a' : FifoActions) : Prop := {
  acc_settles : settles J a J' a';
  acc_clean : clean a -> clean a'
}.

(** ** Accounts *)

#[export] Instance accounted_Proper :
  Proper ((≡ₚ) ==> (=) ==> (≡ₚ) ==> (=) ==> iff) accounted.
Proof.
  assert (H : forall J1 J2 a K1 K2 b, J1 ≡ₚ J2 -> K1 ≡ₚ K2 -> accounted J1 a K1 b -> accounted J2 a K2 b).
  { intros J1 J2 a K1 K2 b HJ HK [(closed & new & Hr & Hf & Hp) Hc]. split; [|done].
    exists closed, new. split_and!; auto. by rewrite <- HJ, <- HK. }
  intros J1 J2 HJ a ? <- K1 K2 HK b ? <-. split; apply H; done.
Qed.

Lemma accounted_refl J a : accounted J a J a.
Proof. split; [|done]. exists [], []. rewrite app_nil_r. repeat split; auto. Qed.

Lemma accounted_trans J1 a1 J2 a2 J3 a3 :
  accounted J1 a1 J2 a2 -> accounted J2 a2 J3 a3 -> accounted J1 a1 J3 a3.
Proof.
  intros [(c1 & n1 & R1 & F1 & P1) C1] [(c2 & n2 & R2 & F2 & P2) C2]. split; [|auto].
  exists (c1 ++ c2), (n1 ++ n2). split_and!; [by rewrite R2, R1, app_assoc|by apply Forall2_app|].
  by rewrite P1, P2, app_assoc.
Qed.

Lemma accounted_frame J K a K' a' :
  accounted K a K' a' -> accounted (J ++ K) a (J ++ K') a'.
Proof.
  intros [(c & n & R & F & P) C]. split; [|done]. exists c, n. split_and!; auto.
  rewrite P, !app_assoc. f_equiv. by rewrite Permutation_app_comm.
Qed.

(** Actions whose answers and diagnostics a request does not touch. *)
Definition same_account (a a' : FifoActions) : Prop :=
  replies a' = replies a /\ requests (diagnostics (sends a')) = requests (diagnostics (sends a)).

Lemma accounted_same J a a' : same_account a a' -> accounted J a J a'.
Proof.
  intros [Hr Hd]. split; [|unfold clean; by rewrite Hd].
  exists [], []. rewrite app_nil_r. repeat split; auto.
Qed.

Lemma accounted_answered J j a r :
  closes j (job_customer j, r) -> accounted (j :: J) a J (answered (job_customer j) r a).
Proof.
  intros Hc. split; [|done]. exists [j], [(job_customer j, r)]. split_and!; [|by constructor|done].
  unfold replies; simpl. by rewrite addressed_append, addressed_deliver.
Qed.

(** [=] in place of [append] is the same on actions that answer nobody yet. *)
Lemma accounted_answers J j a r :
  replies a = [] -> closes j (job_customer j, r) -> accounted (j :: J) a J (answers (job_customer j) r a).
Proof.
  intros Ha Hc. split; [|done]. exists [j], [(job_customer j, r)]. split_and!; [|by constructor|done].
  rewrite Ha. unfold replies; simpl. by rewrite addressed_deliver.
Qed.

Lemma accounted_diagnosed J self c a : source_lost c = false -> accounted J a J (diagnosed self c a).
Proof.
  intros Hc. split.
  - exists [], []. rewrite app_nil_r. repeat split; auto.
  - intros Ha. unfold clean; simpl. apply Forall_app. split; [done|]. constructor; [|done].
    by destruct (diagnostics_to self.2).
Qed.

Lemma replies_cont : replies fifo_cont = [].
Proof. apply addressed_empty. Qed.

Lemma clean_cont : clean fifo_cont.
Proof. constructor. Qed.

Lemma accounted_diagnose J self s e :
  accounted J fifo_cont J (diagnose self s e).2.
Proof.
  split.
  - exists [], []. rewrite app_nil_r. repeat split; auto.
  - intros _. unfold clean; simpl. constructor; [|done]. by destruct (diagnostics_to self.2).
Qed.

(** ** Sums over members *)

#[export] Instance held_Proper : Proper ((≡ₚ) ==> (≡ₚ) ==> (≡ₚ)) held.
Proof. intros l l' Hl q q' Hq. unfold held, waiting_jobs. by rewrite Hl, Hq. Qed.

Lemma held_cons m l q : held (m :: l) q ≡ₚ (fst <$> busy m) ++ held l q.
Proof. unfold held. rewrite busies_cons, fmap_app, !app_assoc. f_equiv. apply Permutation_app_comm. Qed.

Lemma fifo_ok_perm self l k q : l ≡ₚ k -> fifo_inv self l q -> fifo_inv self k q.
Proof.
  intros H [Hs Hk Hd Hj Ha Hp Ht Hst Hb]. split; auto.
  - by rewrite <- H.
  - by rewrite <- H.
  - by rewrite <- H.
  - by rewrite <- H.
  - by rewrite <- H.
  - by rewrite <- H.
Qed.

Lemma fifo_ok_lighter self m m' l q :
  lighter m m' -> fifo_inv self (m :: l) q -> fifo_inv self (m' :: l) q.
Proof.
  intros [Hb Hp Ht Hst] [Os Ok Od Oj Oa Osrc Ot Ost Obud].
  rewrite (held_cons m) in Od, Oj. rewrite busies_cons in Oa. simpl in Osrc, Ot, Ost.
  apply Forall_app in Oa as [Oa1 Oa2], Oj as [Oj1 Oj2]. rewrite fmap_app in Od.
  apply NoDup_app in Od as (Od1 & Odd & Od2).
  split; auto; rewrite ?(held_cons m'), ?busies_cons, ?fmap_app; simpl.
  - destruct Hb as [->| ->]; [|done]. by apply NoDup_app.
  - apply Forall_app. split; [|done]. destruct Hb as [->| ->]; [done|constructor].
  - apply Forall_app. split; [|done]. destruct Hb as [->| ->]; [done|constructor].
  - by rewrite Hp.
  - intros. apply Ot. lia.
  - lia.
Qed.

(** The members without one that holds no source. *)
Lemma fifo_ok_rest self m l q : preparing m = 0 -> fifo_inv self (m :: l) q -> fifo_inv self l q.
Proof.
  intros Hp [Os Ok Od Oj Oa Osrc Ot Ost Obud].
  rewrite (held_cons m) in Od, Oj. rewrite busies_cons in Oa. simpl in Osrc, Ot, Ost.
  apply Forall_app in Oa as [_ Oa], Oj as [_ Oj]. rewrite fmap_app in Od.
  apply NoDup_app in Od as (_ & _ & Od).
  split; auto; [by rewrite Hp in Osrc|intros; apply Ot; lia|lia].
Qed.

(** A member that holds nothing is added. *)
Lemma fifo_ok_add self m l q :
  busy m = [] -> preparing m = 0 -> stalled m = 0 -> starting m = 0 ->
  fifo_inv self l q -> fifo_inv self (m :: l) q.
Proof.
  intros Hb Hp Ht Hst [Os Ok Od Oj Oa Osrc Ot Ost Obud].
  split; auto; rewrite ?held_cons, ?busies_cons, ?Hb; simpl; rewrite ?Hp, ?Ht, ?Hst; auto.
Qed.

(** ** The backlog *)

Lemma waiting_jobs_Permutation (q q' : queue_t) : q ≡ₚ q' -> waiting_jobs q ≡ₚ waiting_jobs q'.
Proof. intros H. unfold waiting_jobs. by rewrite H. Qed.

Lemma queue_fresh (l : list Member) (q : queue_t) j :
  Forall (fun kv => kv.1 = job_admitted (queued_customer kv.2)) q ->
  job_ordinal j ∉ (job_ordinal <$> held l q) -> job_admitted j ∉ (fst <$> q).
Proof.
  intros Hk Hj ([k v] & Hkv & Hin)%list_elem_of_fmap. simpl in Hkv. subst k. apply Hj.
  apply list_elem_of_fmap. exists (queued_customer v).
  rewrite Forall_forall in Hk. specialize (Hk _ Hin). simpl in Hk.
  split; [unfold job_ordinal; by rewrite Hk|].
  unfold held, waiting_jobs. rewrite elem_of_app. left. apply list_elem_of_fmap. by exists (job_admitted j, v).
Qed.

Lemma bt_insert_fresh (q : queue_t) k v :
  sorted q -> k ∉ (fst <$> q) -> sorted (bt_insert k v q) /\ bt_insert k v q ≡ₚ (k, v) :: q.
Proof. intros Hs Hk. split; [by apply bt_insert_sorted|by apply bt_insert_Permutation]. Qed.

Definition admissible (self : Self) (j : CustomerJob) : Prop :=
  job_number (job_id j) = job_ordinal j /\ below (next_job (jobs self.2)) (job_ordinal j).

Lemma held_enqueue (l : list Member) (q : queue_t) k v :
  sorted q -> k ∉ (fst <$> q) -> held l (bt_insert k v q) ≡ₚ queued_customer v :: held l q.
Proof. intros Hs Hk. destruct (bt_insert_fresh q k v Hs Hk) as [_ Hp]. by rewrite Hp. Qed.

Lemma fifo_ok_enqueue self l q j r :
  fifo_inv self l q -> job_ordinal j ∉ (job_ordinal <$> held l q) -> admissible self j ->
  fifo_inv self l (bt_insert (job_admitted j) (mkQueuedJob j r) q) /\
  held l (bt_insert (job_admitted j) (mkQueuedJob j r) q) ≡ₚ j :: held l q.
Proof.
  intros [Os Ok Od Oj Oa Osrc Ot Ost Obud] Hj Ha.
  pose proof (queue_fresh l q j Ok Hj) as Hf.
  pose proof (held_enqueue l q _ (mkQueuedJob j r) Os Hf) as Hh. simpl in Hh.
  destruct (bt_insert_fresh q (job_admitted j) (mkQueuedJob j r) Os Hf) as [Hs Hp].
  split; [|done]. split; auto.
  - rewrite Hp. by constructor.
  - rewrite Hh. csimpl. by constructor.
  - rewrite Hh. by constructor.
Qed.

(** The job of a busy member goes back to the backlog. *)
Lemma fifo_ok_requeue self m l q j c r :
  fifo_inv self (m :: l) q -> busy m = [(j, c)] -> preparing m = 0 ->
  fifo_inv self l (bt_insert (job_admitted j) (mkQueuedJob j r) q) /\
  held l (bt_insert (job_admitted j) (mkQueuedJob j r) q) ≡ₚ held (m :: l) q.
Proof.
  intros Hok Hb Hp. pose proof (ok_distinct _ _ _ Hok) as Hd. pose proof (ok_jobs _ _ _ Hok) as Hj.
  rewrite held_cons, Hb in Hd, Hj. simpl in Hd, Hj. csimpl in Hd.
  apply NoDup_cons in Hd as [Hd _]. inversion_clear Hj as [|? ? Ha _].
  destruct (fifo_ok_enqueue self l q j r (fifo_ok_rest _ _ _ _ Hp Hok) Hd Ha) as [Hok' Hh].
  split; [done|]. rewrite Hh, held_cons, Hb. done.
Qed.

Lemma held_pop l k v (q : queue_t) : held l ((k, v) :: q) = queued_customer v :: held l q.
Proof. done. Qed.

Lemma fifo_ok_pop self l k v q :
  fifo_inv self l ((k, v) :: q) ->
  fifo_inv self l q /\ Forall (fun kv => (job_ordinal (queued_customer v) < ordinal_number kv.1)%N) q /\
  (job_ordinal (queued_customer v) ∉ (job_ordinal <$> held l q)) /\ admissible self (queued_customer v).
Proof.
  intros [Os Ok Od Oj Oa Osrc Ot Ost Obud]. apply sorted_cons in Os as [Os Olt].
  inversion_clear Ok as [|? ? Hk Ok']. simpl in Hk. subst k.
  rewrite held_pop in Od, Oj. csimpl in Od. apply NoDup_cons in Od as [On Od].
  inversion_clear Oj as [|? ? Ha Oj']. split_and!; auto; [by split|].
  eapply Forall_impl; [exact Olt|]. intros [k' v']. unfold ltb, leb, job_ordinal; simpl.
  rewrite negb_true_iff, N.leb_gt. done.
Qed.

(** ** Dispatch *)

Lemma find_from_Some l c offsets p :
  find_from l c offsets = Some p -> exists m, l !! p = Some m /\ is_idle m = true.
Proof.
  induction offsets as [|x offsets IH]; simpl; [done|].
  destruct (l !! ((c + x) mod length l)) as [m|] eqn:Hm; [|done].
  destruct (is_idle m) eqn:Hi; [|done]. intros [= <-]. eauto.
Qed.

Lemma find_from_None l c offsets x :
  find_from l c offsets = None -> x ∈ offsets -> forall m, l !! ((c + x) mod length l) = Some m -> is_idle m = false.
Proof.
  induction offsets as [|y offsets IH]; simpl; [by intros _ ?%not_elem_of_nil|].
  intros H Hx m Hm. apply elem_of_cons in Hx as [<-|Hx].
  - rewrite Hm in H. by destruct (is_idle m).
  - eapply IH; eauto. destruct (l !! ((c + y) mod length l)) as [m'|]; [|done]. by destruct (is_idle m').
Qed.

(** The offsets from any cursor reach every position. *)
Lemma offset_reaches c n i : i < n -> exists x, x < n /\ (c + x) mod n = i.
Proof.
  intros Hi. exists ((i + n - c mod n) mod n). split; [apply Nat.mod_upper_bound; lia|].
  rewrite Nat.Div0.add_mod_idemp_r. rewrite <- (Nat.Div0.add_mod_idemp_l c).
  pose proof (Nat.mod_upper_bound c n ltac:(lia)). replace (c mod n + (i + n - c mod n)) with (i + 1 * n) by lia.
  rewrite Nat.Div0.mod_add. by apply Nat.mod_small.
Qed.

Lemma available_position_spec o :
  match available_position o with
  | Some p => exists m, members o !! p = Some m /\ is_idle m = true
  | None => sum_list_with idle (members o) = 0
  end.
Proof.
  unfold available_position. destruct (members o) as [|m0 l0] eqn:Hl; [done|]. rewrite <- Hl.
  destruct (find_from _ _ _) as [p|] eqn:Hf; [by eapply find_from_Some|].
  assert (Hall : Forall (fun m => is_idle m = false) (members o)).
  { apply list.Forall_forall. intros m Hm. apply list_elem_of_lookup in Hm as [i Hi].
    destruct (offset_reaches (cursor o) (length (members o)) i) as (x & Hx & Hxi); [by eapply lookup_lt_Some|].
    eapply find_from_None; [exact Hf| |by rewrite Hxi]. apply elem_of_seq. simpl. lia. }
  clear Hf Hl. induction Hall as [|m l Hm _ IH]; [done|]. simpl. unfold idle at 1. by rewrite Hm, IH.
Qed.

Lemma idle_available o m : m ∈ members o -> is_idle m = true -> available_position o <> None.
Proof.
  intros Hm Hi Hn. pose proof (available_position_spec o) as H. rewrite Hn in H.
  pose proof (sum_list_with_elem idle _ _ Hm) as Hle. unfold idle at 1 in Hle. rewrite Hi in Hle. simpl in Hle. lia.
Qed.

(** What dispatch and startup leave alone of the pool. *)
Record kept (self self' : Self) : Prop := {
  kept_limit : startup_limit self'.2 = startup_limit self.2;
  kept_recovery : recovery self'.2 = recovery self.2;
  kept_restarts : restarts self'.2 = restarts self.2;
  kept_jobs : jobs self'.2 = jobs self.2
}.

Lemma kept_refl self : kept self self.
Proof. done. Qed.

Lemma kept_trans s1 s2 s3 : kept s1 s2 -> kept s2 s3 -> kept s1 s3.
Proof. intros [] []. split; congruence. Qed.

Lemma fifo_ok_kept self self' l q :
  kept self self' -> assignments self'.2 = assignments self.2 -> fifo_inv self l q -> fifo_inv self' l q.
Proof.
  intros [K1 K2 K3 K4] K5 [Os Ok Od Oj Oa Osrc Ot Ost Obud].
  split; rewrite ?K1, ?K2, ?K3, ?K4, ?K5; auto.
Qed.

Definition assigned_member (m m' : Member) (j : CustomerJob) (c : CompletionCorrelation) : Prop :=
  is_idle m = true /\ busy m' = [(j, c)] /\ preparing m' = 0 /\ stalled m' = 0 /\ starting m' = 0 /\
  unstarted m' = 0.

Lemma dispatch_spec self o queued self' o' d :
  dispatch self o queued = (self', (o', d)) ->
  kept self self' /\ queue o' = queue o /\
  match d with
  | Dispatch_Assigned _ => exists m m' rest n c,
      members o ≡ₚ m :: rest /\ members o' ≡ₚ m' :: rest /\
      assigned_member m m' (queued_customer queued) c /\
      next_assignment (assignments self.2) = Some n /\
      assignment_number (correlation_assignment c) = n /\
      next_assignment (assignments self'.2) = checked_add u64_max n 1
  | Dispatch_WorkerUnavailable queued' => queued' = queued /\ o' = o /\ self' = self /\ available_position o = None
  | Dispatch_CorrelationUnavailable queued' =>
      queued' = queued /\ o' = o /\ assignments self'.2 = assignments self.2
  end.
Proof.
  unfold dispatch. pose proof (available_position_spec o) as Hav.
  destruct (available_position o) as [p|]; [|by intros [= <- <- <-]].
  destruct Hav as (m & Hp & Hi). rewrite Hp. destruct (is_idle_inv m Hi) as (role & r & current & ->).
  destruct self as [n p0]. unfold assign, assignments_issue; cbn -[checked_add u64_max].
  destruct (next_assignment (assignments p0)) as [i|] eqn:Hn; cbn -[checked_add u64_max].
  - intros [= <- <- <-]; cbn -[checked_add u64_max]. split; [done|]. split; [done|].
    eexists _, _, (base.delete p (members o)), i, _.
    split; [by apply delete_Permutation|].
    split; [rewrite <- (insert_at_delete p _ _ _ Hp); by rewrite insert_at_Permutation|].
    unfold assigned_member. split_and!; reflexivity.
  - intros [= <- <- <-]; cbn. done.
Qed.

Lemma fifo_ok_assign self self' m m' rest q j c n :
  fifo_inv self (m :: rest) q -> kept self self' -> assigned_member m m' j c ->
  next_assignment (assignments self.2) = Some n -> assignment_number (correlation_assignment c) = n ->
  next_assignment (assignments self'.2) = checked_add u64_max n 1 ->
  job_ordinal j ∉ (job_ordinal <$> held (m :: rest) q) -> admissible self j ->
  fifo_inv self' (m' :: rest) q /\ held (m' :: rest) q ≡ₚ j :: held (m :: rest) q /\
  counts (m' :: rest) = counts (m :: rest).
Proof.
  intros [Os Ok Od Oj Oa Osrc Ot Ost Obud] [K1 K2 K3 K4] (Hi & Hb & Hp & Hs & Hst & Hu) Hn Hc Hn' Hj Ha.
  destruct (idle_weights m Hi) as (Ib & Ip & Is & Ist & Iu).
  assert (Hh : held (m' :: rest) q ≡ₚ j :: held (m :: rest) q) by (by rewrite !held_cons, Hb, Ib).
  split; [|split; [done|by rewrite !counts_cons, Hst, Hu, Ist, Iu]].
  simpl in Osrc, Ot, Ost. rewrite ?Ip, ?Is, ?Ist in *.
  split; rewrite ?K1, ?K2, ?K3, ?K4, ?Hh, ?Hn', ?busies_cons; simpl; rewrite ?Hp, ?Hs, ?Hst; auto.
  - csimpl. by constructor.
  - rewrite Hb. constructor; simpl.
    + rewrite Hc. apply below_next.
    + rewrite busies_cons, Ib, Hn in Oa. eapply Forall_impl; [exact Oa|]. intros. by apply below_checked_add.
Qed.

Lemma fair_perm n l l' q c c' :
  l ≡ₚ l' -> fair n (mkOperating l q c) -> fair n (mkOperating l' q c').
Proof. intros H Hf x Hx. apply Hf. simpl in *. by rewrite H. Qed.

Lemma fair_assign n self o m m' rest j c :
  members o ≡ₚ m :: rest -> assigned_member m m' j c -> fair n o ->
  Forall (fun kv => (job_ordinal j < ordinal_number kv.1)%N) (queue o) ->
  fair n (mkOperating (m' :: rest) (queue o) self).
Proof.
  intros Hm (Hi & Hb & _) Hf Hj x Hx. cbn [members queue] in *. rewrite busies_cons, Hb in Hx.
  apply elem_of_cons in Hx as [->|Hx]; [done|]. apply Hf. rewrite Hm, busies_cons. rewrite elem_of_app. by right.
Qed.

(** One dispatch. *)
Lemma dispatch_ok self o queued self' o' d n :
  fifo_inv self (members o) (queue o) -> dispatch self o queued = (self', (o', d)) ->
  job_ordinal (queued_customer queued) ∉ (job_ordinal <$> held (members o) (queue o)) ->
  admissible self (queued_customer queued) ->
  kept self self' /\ queue o' = queue o /\ counts (members o') = counts (members o) /\
  match d with
  | Dispatch_Assigned _ => fifo_inv self' (members o') (queue o') /\
      held (members o') (queue o') ≡ₚ queued_customer queued :: held (members o) (queue o) /\
      (Forall (fun kv => (job_ordinal (queued_customer queued) < ordinal_number kv.1)%N) (queue o) ->
         fair n o -> fair n o')
  | Dispatch_WorkerUnavailable queued' => queued' = queued /\ o' = o /\ self' = self /\ available_position o = None
  | Dispatch_CorrelationUnavailable queued' =>
      queued' = queued /\ o' = o /\ fifo_inv self' (members o') (queue o')
  end.
Proof.
  intros Hok Hd Hj Ha. destruct (dispatch_spec _ _ _ _ _ _ Hd) as (Hk & Hq & H).
  split; [done|]. split; [done|]. destruct d as [act|q'|q'].
  - destruct H as (m & m' & rest & i & c & Hm & Hm' & Has & Hn & Hc & Hn').
    pose proof (fifo_ok_perm _ _ _ _ Hm Hok) as Hok1. rewrite Hm in Hj.
    destruct (fifo_ok_assign _ _ _ _ _ _ _ _ _ Hok1 Hk Has Hn Hc Hn' Hj Ha) as (Hok2 & Hh & Hcnt).
    rewrite Hq. split; [by rewrite Hm', Hm|].
    split; [by eapply fifo_ok_perm; [symmetry|]|]. split; [by rewrite Hm', Hm|].
    intros Hlt Hf. destruct o' as [l' q' c']. simpl in *. subst q'.
    eapply fair_perm; [symmetry; exact Hm'|]. by eapply (fair_assign n 0).
  - by destruct H as (-> & -> & -> & Hav).
  - destruct H as (-> & -> & Has). split; [done|]. split_and!; auto. by eapply fifo_ok_kept.
Qed.

End FifoInvariant.

Arguments fifo_inv {FT} W self l q.

Section FifoSteps.
  Context `{FT : FifoTypes} `{RL : !RouteLaws Customer FifoOutcome CustomerSends}.

Abbreviation fifo_ok := (fifo_inv awaited).
Abbreviation fifo_returned := (fifo_inv has_source).

(** ** Filling idle workers *)

Lemma closes_unassignable q : closes (queued_customer q) (job_customer (queued_customer q), unassignable q).
Proof. unfold closes, unassignable. by destruct (assigned_role q). Qed.

Lemma fair_with_queue n o q : (forall x, x ∈ q -> x ∈ queue o) -> fair n o -> fair n (with_queue o q).
Proof.
  intros Hq Hf c Hc Hn. specialize (Hf c Hc Hn). rewrite list.Forall_forall in Hf |- *. auto.
Qed.

Lemma fill_loop_ok {W} n fuel : forall self o a self' o' a',
  length (queue o) <= fuel -> fifo_inv W self (members o) (queue o) ->
  fill_loop fuel self o a = (self', (o', a')) ->
  kept self self' /\ fifo_inv W self' (members o') (queue o') /\ conserving o' /\
  counts (members o') = counts (members o) /\
  accounted (held (members o) (queue o)) a (held (members o') (queue o')) a' /\
  (fair n o -> fair n o').
Proof.
  induction fuel as [|fuel IH]; intros self o a self' o' a' Hlen Hok; cbn -[available_position dispatch].
  { intros [= <- <- <-]. split_and!; auto using kept_refl, accounted_refl.
    left. by destruct (queue o); [|simpl in Hlen; lia]. }
  pose proof (available_position_spec o) as Hav.
  destruct (available_position o) as [p|] eqn:Hp.
  2: { intros [= <- <- <-]. split_and!; auto using kept_refl, accounted_refl. by right. }
  destruct (queue o) as [|[k v] rest] eqn:Hq.
  { intros [= <- <- <-]. rewrite Hq. split_and!; auto using kept_refl, accounted_refl. by left. }
  destruct (fifo_ok_pop _ _ _ _ _ Hok) as (Hok1 & Hlt & Hfresh & Hadm).
  destruct (dispatch self (with_queue o rest) v) as [self1 [o1 d]] eqn:Hd.
  destruct (dispatch_ok self (with_queue o rest) v self1 o1 d n Hok1 Hd Hfresh Hadm)
    as (Hk1 & Hq1 & Hc1 & H1).
  assert (Hrest : fair n o -> fair n (with_queue o rest)).
  { apply fair_with_queue. intros x Hx. rewrite Hq. by right. }
  cbn [with_queue members queue] in *. destruct d as [act|q'|q'].
  - destruct H1 as (Hok2 & Hh2 & Hf2). intros Hfill.
    assert (Hle : length (queue o1) <= fuel) by (rewrite Hq1; simpl in Hlen; lia).
    destruct (IH _ _ _ _ _ _ Hle Hok2 Hfill) as (Hk & Hok' & Hcons & Hc & Hacc & Hf).
    split_and!; auto; [by eapply kept_trans|by rewrite Hc|].
    rewrite held_pop, <- Hh2. eapply accounted_trans; [|exact Hacc]. by apply accounted_same.
  - destruct H1 as (_ & _ & _ & Hno). change (available_position o = None) in Hno. congruence.
  - destruct H1 as (-> & -> & Hok2). intros Hfill.
    assert (Hle : length (queue (with_queue o rest)) <= fuel) by (simpl in *; lia).
    destruct (IH _ _ _ _ _ _ Hle Hok2 Hfill) as (Hk & Hok' & Hcons & Hc & Hacc & Hf).
    split_and!; auto; [by eapply kept_trans|].
    rewrite held_pop. eapply accounted_trans; [|exact Hacc].
    apply accounted_answered, closes_unassignable.
Qed.

Lemma fill_fifo_ok {W} n self o a self' o' a' :
  fifo_inv W self (members o) (queue o) -> fill_fifo self o a = (self', (o', a')) ->
  kept self self' /\ fifo_inv W self' (members o') (queue o') /\ conserving o' /\
  counts (members o') = counts (members o) /\
  accounted (held (members o) (queue o)) a (held (members o') (queue o')) a' /\
  (fair n o -> fair n o').
Proof. intros Hok. by apply fill_loop_ok. Qed.

Lemma return_backlog_ok reason q a J : accounted (waiting_jobs q ++ J) a J (return_backlog reason q a).
Proof.
  revert a. induction q as [|[k v] q IH]; intros a; simpl; [apply accounted_refl|].
  eapply accounted_trans; [|apply IH]. by apply accounted_answered.
Qed.

Lemma fifo_ok_no_queue {W} self l q : fifo_inv W self l q -> fifo_inv W self l [].
Proof.
  intros [Os Ok Od Oj Oa Osrc Ot Ost Obud]. unfold held in *.
  apply Forall_app in Oj as [_ Oj]. rewrite fmap_app in Od. apply NoDup_app in Od as (_ & _ & Od).
  split; unfold held; cbn [waiting_jobs fmap list_fmap app]; auto using sorted_nil.
Qed.

Lemma return_unrecoverable_jobs_ok {W} n self o a o' a' :
  fifo_inv W self (members o) (queue o) -> conserving o ->
  return_unrecoverable_jobs self o a = (o', a') ->
  fifo_inv W self (members o') (queue o') /\ conserving o' /\ members o' = members o /\
  accounted (held (members o) (queue o)) a (held (members o') (queue o')) a' /\
  (fair n o -> fair n o').
Proof.
  intros Hok Hc. unfold return_unrecoverable_jobs.
  destruct (recoverable_position o _); intros [= <- <-]; [split_and!; auto using accounted_refl|].
  cbn [with_queue members queue]. split_and!; auto.
  - by eapply fifo_ok_no_queue.
  - by left.
  - apply return_backlog_ok.
  - intros Hf. by apply fair_with_queue; [intros ? ?%not_elem_of_nil|].
Qed.

(** ** The end of operation *)

(** The invariant of a draining pool. *)
Definition drain_ok (self : Self) (l : list RetiringWorker) (d : ShutdownDeadline) : Prop :=
  retiring_ok (recovery self.2) l d.

Lemma retire_returns_ok self role m id J a :
  accounted ((fst <$> busy m) ++ J) a J
    (retire_returns self role (retirement_custody (member_shutdown m id)) a).
Proof.
  destruct (member_shutdown_spec m id) as (_ & _ & _ & H).
  destruct (retirement_custody (member_shutdown m id)) as [|[j w s c]|r];
    cbn [retire_returns shutdown_customer] in *.
  - rewrite H. apply accounted_refl.
  - rewrite H. destruct c; [eapply accounted_trans; [|by apply accounted_diagnosed]|];
      by apply (accounted_answered J j).
  - rewrite H. by apply accounted_diagnosed.
Qed.

(** Every member with a live worker has an id left. *)
Definition ids_suffice (ids : option (list ShutdownId)) (l : list Member) : Prop :=
  match ids with Some ids => length ids = length (omap shutdown_target l) | None => False end.

Lemma retire_members_ok self l : forall ids done a draining a' J,
  retire_members self ids l done a = (draining, a') ->
  accounted ((fst <$> busies l) ++ J) a J a' /\
  sum_list_with draining_source draining = sum_list_with draining_source done + sum_list_with preparing l /\
  (ids_suffice ids l -> Forall shutdown_requested done -> Forall shutdown_requested draining).
Proof.
  induction l as [|m l IH]; intros ids done a draining a' J; cbn -[member_shutdown retire_returns].
  { intros [= <- <-]. split_and!; auto using accounted_refl. }
  destruct (match ids with Some _ => _ | None => _ end) as [id ids'] eqn:Hids.
  destruct (member_shutdown m id) as [w request custody] eqn:Hm. intros Hr.
  destruct (IH _ _ _ _ _ J Hr) as (Hacc & Hsum & Hreq).
  pose proof (member_shutdown_spec m id) as Hspec. rewrite Hm in Hspec.
  destruct Hspec as (Hsrc & Hn & Hs & _). cbn in Hsrc, Hn, Hs. split_and!.
  - rewrite fmap_app, <- app_assoc. eapply accounted_trans; [|exact Hacc].
    pose proof (retire_returns_ok self (member_role m) m id ((fst <$> busies l) ++ J)) as Hret.
    rewrite Hm in Hret. eapply accounted_trans; [|apply Hret].
    apply accounted_same. by destruct request.
  - rewrite Hsum, sum_list_with_app. simpl. lia.
  - intros Hsuf Hdone. apply Hreq.
    + destruct ids as [ids|]; [|done]. simpl in Hsuf |- *.
      destruct (shutdown_target m); simplify_eq/=; [|done].
      destruct ids; simpl in *; lia.
    + apply Forall_app. split; [done|]. constructor; [|done].
      destruct ids as [ids|]; [|done]. simpl in Hsuf.
      destruct (shutdown_target m) eqn:Ht; simplify_eq/=; [|auto].
      destruct ids; simplify_eq/=. by eapply Hs.
Qed.

Lemma set_shutdowns_kept self s : kept self (set_shutdowns self s).
Proof. by destruct self. Qed.

Lemma begin_shutdown_ok {W} self o a self' s a' :
  fifo_inv W self (members o) (queue o) -> begin_shutdown self o a = (self', (s, a')) ->
  kept self self' /\ accounted (held (members o) (queue o)) a [] a' /\
  match s with
  | State_Draining l d => drain_ok self' l d
  | State_Stopped | State_ForcedRetirement _ _ => True
  | _ => False
  end.
Proof.
  intros Hok. unfold begin_shutdown.
  destruct (reserve _ _) as [sh ids] eqn:Hres.
  destruct (retire_members _ _ _ _ _) as [draining a1] eqn:Hret.
  destruct (retire_members_ok _ _ _ _ _ _ _ [] Hret) as (Hacc & Hsum & Hreq).
  assert (Hall : accounted (held (members o) (queue o)) a [] a1).
  { unfold held. eapply accounted_trans; [apply return_backlog_ok|]. by rewrite app_nil_r in Hacc. }
  assert (Hall' : forall b, same_account a1 b -> accounted (held (members o) (queue o)) a [] b).
  { intros b Hb. eapply accounted_trans; [exact Hall|]. by apply accounted_same. }
  pose proof (set_shutdowns_kept self sh) as Hk.
  destruct ids as [ids|]; [|intros [= <- <- <-]; split_and!; auto; by apply Hall'].
  destruct (any_waiting draining) eqn:Hw; [|intros [= <- <- <-]; split_and!; auto; by apply Hall'].
  destruct (deadline_begin _) as [d sch] eqn:Hd. intros [= <- <- <-].
  split_and!; [done|apply Hall'; by destruct sch|]. split; auto.
  - rewrite Hsum, (kept_recovery _ _ Hk). simpl. apply (ok_source _ _ _ Hok).
  - apply Hreq; [|done]. by eapply reserve_length.
  - unfold deadline_begin in Hd. by destruct (actor_drain _); simplify_eq/=.
Qed.

(** ** Results of a handler *)

Definition state_jobs (s : PoolState) : list CustomerJob :=
  match s with State_Operating o => held (members o) (queue o) | _ => [] end.

Definition config_kept (self self' : Self) : Prop :=
  (startup_limit self'.2 = startup_limit self.2 /\ jobs self'.2 = jobs self.2) /\
  same_policy (recovery self.2) (recovery self'.2).

Lemma config_limit self self' : config_kept self self' -> startup_limit self'.2 = startup_limit self.2.
Proof. by intros [[? _] _]. Qed.

(** From the open jobs [J] and the actions [a] of a pool that assigned up to
    [n]; [P] is what else holds while the pool operates. *)
Record result_ok (P : Self -> FifoOperating -> Prop) (n : option N) (J : list CustomerJob) (a : FifoActions)
  (self self' : Self) (r : PoolState * FifoActions) : Prop := {
  res_config : config_kept self self';
  res_accounted : accounted J a (state_jobs r.1) r.2;
  res_state : match r.1 with
              | State_Operating o =>
                  fifo_ok self' (members o) (queue o) /\ conserving o /\ fair n o /\ P self' o
              | State_Draining l d => drain_ok self' l d
              | State_Stopped | State_ForcedRetirement _ _ => True
              | State_Constructed _ => False
              end
}.

Lemma config_refl self : config_kept self self.
Proof. split; [done|apply same_policy_refl]. Qed.

Lemma config_trans s1 s2 s3 : config_kept s1 s2 -> config_kept s2 s3 -> config_kept s1 s3.
Proof. intros [[] ?] [[] ?]. split; [split; congruence|by eapply same_policy_trans]. Qed.

Lemma kept_config self self' : kept self self' -> config_kept self self'.
Proof. intros [H1 H2 _ H4]. split; [done|]. rewrite H2. apply same_policy_refl. Qed.

Lemma result_ok_from P n J a self J0 a0 self0 self' r :
  accounted J0 a0 J a -> config_kept self0 self ->
  result_ok P n J a self self' r -> result_ok P n J0 a0 self0 self' r.
Proof.
  intros Ha Hc [Rc Ra Rs]. split; [by eapply config_trans|by eapply accounted_trans|done].
Qed.

Lemma result_ok_weaken (P Q : Self -> FifoOperating -> Prop) n J a self self' r :
  (forall o, startup_limit self'.2 = startup_limit self.2 -> P self' o -> Q self' o) ->
  result_ok P n J a self self' r -> result_ok Q n J a self self' r.
Proof.
  intros HP [Rc Ra Rs]. split; auto. apply config_limit in Rc as Hl. destruct r as [[]]; simpl in *; auto.
  destruct Rs as (? & ? & ? & ?). auto.
Qed.

Lemma result_ok_perm P n J J' a self self' r :
  J ≡ₚ J' -> result_ok P n J a self self' r -> result_ok P n J' a self self' r.
Proof. intros HJ [Rc Ra Rs]. split; auto. by rewrite <- HJ. Qed.

Lemma begin_shutdown_result {W} P n self o a self' r :
  fifo_inv W self (members o) (queue o) -> begin_shutdown self o a = (self', r) ->
  result_ok P n (held (members o) (queue o)) a self self' r.
Proof.
  destruct r as [s a']. intros Hok Hb. destruct (begin_shutdown_ok _ _ _ _ _ _ Hok Hb) as (Hk & Ha & Hs).
  split; [by apply kept_config| |]; simpl; by destruct s.
Qed.

Lemma shutdown_result {W} P n self o position m a self' r J :
  fifo_inv W self (m :: members o) (queue o) -> J ≡ₚ held (m :: members o) (queue o) ->
  begin_shutdown self (with_members o (insert_at position m (members o))) a = (self', r) ->
  result_ok P n J a self self' r.
Proof.
  intros Hok HJ Hb. pose proof (insert_at_Permutation position m (members o)) as Hp.
  eapply result_ok_perm; [|eapply begin_shutdown_result; [|exact Hb]].
  - cbn [with_members members queue]. by rewrite Hp.
  - eapply fifo_ok_perm; [symmetry; exact Hp|exact Hok].
Qed.

(** ** Members that change what they hold of the source *)

Lemma neutral_held m l q : neutral m -> held (m :: l) q ≡ₚ held l q.
Proof. intros Hn. rewrite held_cons, (neutral_busy _ Hn). done. Qed.

Lemma neutral_fair n m l q c c' : neutral m -> fair n (mkOperating l q c) -> fair n (mkOperating (m :: l) q c').
Proof.
  intros [Hb _ _ _] Hf x Hx. apply Hf. cbn [members] in *. by rewrite busies_cons, Hb in Hx.
Qed.

Lemma fifo_ok_prepare {W} self self' m l q :
  fifo_inv W self l q -> neutral m -> preparing m = 1 -> stalled m = 0 ->
  startup_limit self'.2 = startup_limit self.2 -> restarts self'.2 = restarts self.2 ->
  jobs self'.2 = jobs self.2 -> assignments self'.2 = assignments self.2 ->
  same_policy (recovery self.2) (recovery self'.2) ->
  sources_out (recovery self.2) = 0 -> sources_out (recovery self'.2) = 1 ->
  fifo_ok self' (m :: l) q.
Proof.
  intros [Os Ok Od Oj Oa Osrc Ot Ost Obud] Hn Hp Hs E1 E2 E3 E4 Hsame H0 H1.
  split; rewrite ?E1, ?E2, ?E3, ?E4; auto; rewrite ?(neutral_held m l q Hn); auto.
  - by rewrite busies_cons, (neutral_busy _ Hn).
  - simpl. rewrite Hp, Osrc, H0. done.
  - simpl. by rewrite (neutral_starting _ Hn).
  - by eapply budget_ok_policy.
Qed.

Lemma fifo_ok_waits self m l q :
  fifo_ok self l q -> neutral m -> preparing m = 0 -> (0 < stalled m -> awaited (recovery self.2)) ->
  fifo_ok self (m :: l) q.
Proof.
  intros [Os Ok Od Oj Oa Osrc Ot Ost Obud] Hn Hp Hs.
  split; auto; rewrite ?(neutral_held m l q Hn); auto.
  - by rewrite busies_cons, (neutral_busy _ Hn).
  - simpl. by rewrite Hp.
  - simpl. intros. destruct (stalled m); [auto|apply Hs; lia].
  - simpl. by rewrite (neutral_starting _ Hn).
Qed.

Lemma request_preparation_spec self role rec previous stopped source a self' m a' :
  request_preparation self role rec previous stopped source a = (self', (m, a')) ->
  neutral m /\ preparing m = 1 /\ stalled m = 0 /\ self'.2 = self.2 /\ same_account a a'.
Proof.
  unfold request_preparation. destruct self as [n p]. cbn. intros [= <- <- <-]. by split_and!.
Qed.

(** A fill after the member at [position] changed. *)
Lemma fill_result P n self o position m a self' o' a' self0 :
  fifo_ok self (m :: members o) (queue o) -> neutral m -> fair n o -> config_kept self0 self ->
  fill_fifo self (with_members o (insert_at position m (members o))) a = (self', (o', a')) ->
  (forall o', counts (members o') = counts (members o) -> P self' o') ->
  result_ok P n (held (members o) (queue o)) a self0 self' (State_Operating o', a').
Proof.
  intros Hok Hn Hf Hc Hfill HP.
  pose proof (insert_at_Permutation position m (members o)) as Hp.
  pose proof (fifo_ok_perm _ _ _ _ (symmetry Hp) Hok) as Hok1.
  destruct (fill_fifo_ok n self (with_members o (insert_at position m (members o))) _ _ _ _ Hok1 Hfill)
    as (Hk & Hok' & Hcons & Hcnt & Hacc & Hfair).
  cbn [with_members members queue] in *. rewrite Hp, neutral_held in Hacc by done.
  split; [by eapply config_trans; [|apply kept_config]|done|]. simpl. split_and!; auto.
  - apply Hfair. destruct o as [l q c]. cbn in *.
    apply (fair_perm _ (m :: l) _ _ c); [by symmetry|]. by eapply neutral_fair.
  - apply HP. by rewrite Hcnt, Hp, neutral_counts.
Qed.

(** ** Recovery of a stopped worker *)

Definition counts_are (k : nat * nat) (_ : Self) (o : FifoOperating) : Prop := counts (members o) = k.

Lemma set_recovery_2 self r :
  startup_limit (set_recovery self r).2 = startup_limit self.2 /\
  restarts (set_recovery self r).2 = restarts self.2 /\ jobs (set_recovery self r).2 = jobs self.2 /\
  assignments (set_recovery self r).2 = assignments self.2 /\ recovery (set_recovery self r).2 = r.
Proof. by destruct self. Qed.

Lemma set_recovery_same self : set_recovery self (recovery self.2) = self.
Proof. by destruct self as [n []]. Qed.

Lemma unrecoverable_result P n J a self0 self o a1 o' a' :
  result_ok P n J a self0 self (State_Operating o, a1) ->
  (forall o', members o' = members o -> P self o -> P self o') ->
  return_unrecoverable_jobs self o a1 = (o', a') ->
  result_ok P n J a self0 self (State_Operating o', a').
Proof.
  intros [Rc Ra (Hok & Hcons & Hfair & HPo)] HP Hret. simpl in *.
  destruct (return_unrecoverable_jobs_ok n _ _ _ _ _ Hok Hcons Hret) as (Hok' & Hc' & Hm & Hacc & Hf).
  split; [done|by eapply accounted_trans|]. simpl. split_and!; auto.
Qed.

Lemma recover_worker_ok n self o position role rec previous stopped a self' r :
  fifo_ok self (members o) (queue o) -> fair n o ->
  FifoPool.recover_worker self o position role rec previous stopped a = (self', r) ->
  result_ok (counts_are (counts (members o))) n (held (members o) (queue o)) a self self' r.
Proof.
  intros Hok Hf. unfold FifoPool.recover_worker.
  pose proof (decide_spec (recovery self.2) (stop_kind (child_outcome stopped))) as Hd.
  destruct (PoolPolicy.decide (recovery self.2) _) as [rc d]. destruct Hd as [Hsame Hd].
  destruct (set_recovery_2 self rc) as (E1 & E2 & E3 & E4 & E5).
  assert (Hcfg : config_kept self (set_recovery self rc)) by (split; [done|by rewrite E5]).
  assert (HP : forall m k (o' : FifoOperating), counts (members o') = k -> counts_are k m o') by done.
  destruct d as [source| | |].
  - destruct Hd as [H0 H1].
    destruct (request_preparation _ _ _ _ _ _ _) as [self1 [m a1]] eqn:Hr.
    destruct (request_preparation_spec _ _ _ _ _ _ _ _ _ _ Hr) as (Hn & Hp & Hs & Hself & Ha).
    destruct (fill_fifo _ _ _) as [self2 [o2 a2]] eqn:Hfill. intros [= <- <-].
    assert (Hok1 : fifo_ok self1 (m :: members o) (queue o)).
    { eapply (fifo_ok_prepare self); rewrite ?Hself, ?E1, ?E2, ?E3, ?E4, ?E5; done. }
    eapply result_ok_from; [by apply accounted_same|apply config_refl|].
    eapply fill_result; eauto. split; rewrite Hself; [done|by rewrite E5].
  - destruct Hd as [H1 ->]. rewrite set_recovery_same.
    destruct (fill_fifo _ _ _) as [self2 [o2 a2]] eqn:Hfill. intros [= <- <-].
    eapply fill_result; [| | |apply config_refl|exact Hfill|auto]; [by apply fifo_ok_waits|done..].
  - destruct Hd as [_ ->]. rewrite set_recovery_same.
    destruct (fill_fifo _ _ _) as [self2 [o2 a2]] eqn:Hfill.
    destruct (return_unrecoverable_jobs _ _ _) as [o3 a3] eqn:Hret. intros [= <- <-].
    eapply unrecoverable_result; [| |exact Hret].
    + eapply fill_result; [| | |apply config_refl|exact Hfill|auto]; [|done..].
      by apply fifo_ok_add.
    + unfold counts_are. intros ? ->. done.
  - destruct Hd as [_ ->]. rewrite set_recovery_same. intros Hb.
    eapply shutdown_result; [| |exact Hb]; [by apply fifo_ok_add|by rewrite neutral_held].
Qed.

End FifoSteps.

Section FifoRecovery.
  Context `{FT : FifoTypes} `{RL : !RouteLaws Customer FifoOutcome CustomerSends}.

Abbreviation fifo_ok := (fifo_inv awaited).
Abbreviation fifo_returned := (fifo_inv has_source).

(** Lists of members with the same work. *)
Record same_work (l l' : list Member) : Prop := {
  same_busy : busies l' ≡ₚ busies l;
  same_counts : counts l' = counts l;
  same_idle : sum_list_with idle l' = sum_list_with idle l
}.

#[export] Instance same_work_Proper : Proper ((≡ₚ) ==> (≡ₚ) ==> iff) same_work.
Proof.
  assert (H : forall l k l' k', l ≡ₚ k -> l' ≡ₚ k' -> same_work l l' -> same_work k k').
  { intros l k l' k' Hl Hk [H1 H2 H3]. split; by rewrite <- Hl, <- Hk. }
  intros l k Hl l' k' Hk. split; by apply H.
Qed.

Lemma same_work_refl l : same_work l l.
Proof. done. Qed.

Lemma same_work_neutral m m' l : neutral m -> neutral m' -> same_work (m :: l) (m' :: l).
Proof.
  intros [B I S U] [B' I' S' U']. split; rewrite ?busies_cons, ?counts_cons, ?B, ?B', ?S, ?S', ?U, ?U'; try done.
  simpl. by rewrite I, I'.
Qed.

Lemma same_work_held l l' q : same_work l l' -> held l' q ≡ₚ held l q.
Proof. intros [H _ _]. unfold held. by rewrite H. Qed.

Lemma same_work_conserving o o' :
  same_work (members o) (members o') -> queue o' = queue o -> conserving o -> conserving o'.
Proof. intros [_ _ H] Hq [Hn|Hi]; [left|right]; congruence. Qed.

Lemma same_work_fair n o o' :
  same_work (members o) (members o') -> queue o' = queue o -> fair n o -> fair n o'.
Proof. intros [H _ _] Hq Hf x Hx. rewrite Hq. apply Hf. by rewrite <- H. Qed.

(** ** The source comes back *)

Lemma restored_ok self m l q source r restored :
  fifo_ok self (m :: l) q -> preparing m = 1 ->
  restore_source (recovery self.2) source = (r, restored) ->
  restored = Ok () /\ fifo_returned (set_recovery self r) l q /\
  config_kept self (set_recovery self r) /\ sources_out r = 0.
Proof.
  intros [Os Ok Od Oj Oa Osrc Ot Ost Obud] Hp Hr.
  destruct (set_recovery_2 self r) as (E1 & E2 & E3 & E4 & E5).
  pose proof (sources_out_le (recovery self.2)) as Hle. simpl in Osrc, Ost. rewrite Hp in Osrc.
  pose proof (restore_source_spec (recovery self.2) source) as Hspec. rewrite Hr in Hspec.
  destruct restored as [[]|back]; [|lia]. destruct Hspec as (Hsame & Hone & Hout & _).
  assert (Hcfg : config_kept self (set_recovery self r)) by (split; [done|by rewrite E5]).
  split_and!; auto.
  rewrite (held_cons m) in Od, Oj. rewrite busies_cons in Oa.
  apply Forall_app in Oa as [_ Oa], Oj as [_ Oj]. rewrite fmap_app in Od.
  apply NoDup_app in Od as (_ & _ & Od).
  split; rewrite ?E1, ?E2, ?E3, ?E4, ?E5; auto; try lia.
  - intros _. apply sources_out_has in Hone. unfold has_source. by rewrite (same_policy_restart _ _ Hsame).
  - by eapply budget_ok_policy.
Qed.

Lemma fifo_returned_awaited self l q :
  (0 < sum_list_with stalled l -> awaited (recovery self.2)) -> fifo_returned self l q -> fifo_ok self l q.
Proof. intros H []. by split. Qed.

(** The next waiting role takes the source, and the wait means again that the
    source is out. *)
Lemma prepare_next_waiting_ok self o a self' o' a' :
  fifo_returned self (members o) (queue o) -> prepare_next_waiting self o a = (self', (o', a')) ->
  fifo_ok self' (members o') (queue o') /\ config_kept self self' /\ queue o' = queue o /\
  same_work (members o) (members o') /\ same_account a a'.
Proof.
  intros Hok. unfold prepare_next_waiting.
  destruct (take_at waits_for_source (members o)) as [[[p m] rest]|] eqn:Ht.
  2: { apply take_at_None in Ht. intros [= <- <- <-]. split_and!; auto using config_refl, same_work_refl; [|done].
       apply fifo_returned_awaited; [|done]. rewrite stalled_none by done. lia. }
  pose proof (take_at_Permutation _ _ _ _ _ Ht) as Hperm.
  apply take_at_Some in Ht as (_ & Hw & _). destruct (waits_for_source_inv m Hw) as (Hn & Hp & Hs).
  destruct m as [role rec st]. destruct st as [|[c ph]|[previous stopped| | |]|]; try done.
  pose proof (fifo_ok_perm _ _ _ _ Hperm Hok) as Hok1.
  pose proof (claim_waiting_spec (recovery self.2)) as Hc.
  destruct (claim_waiting_source (recovery self.2)) as [rc [source|]].
  - destruct Hc as (Hsame & H0 & H1). destruct (set_recovery_2 self rc) as (E1 & E2 & E3 & E4 & E5).
    destruct (request_preparation _ _ _ _ _ _ _) as [self1 [m1 a1]] eqn:Hr.
    destruct (request_preparation_spec _ _ _ _ _ _ _ _ _ _ Hr) as (Hn1 & Hp1 & Hs1 & Hself & Ha).
    intros [= <- <- <-]. cbn [with_members members queue].
    pose proof (insert_at_Permutation p m1 rest) as Hi. split_and!; auto.
    + eapply fifo_ok_perm; [symmetry; exact Hi|].
      eapply (fifo_ok_prepare self _ _ _ _ (fifo_ok_rest _ _ _ _ Hp Hok1));
        rewrite ?Hself, ?E1, ?E2, ?E3, ?E4, ?E5; done.
    + split; rewrite Hself; [done|by rewrite E5].
    + rewrite Hi, Hperm. by apply same_work_neutral.
  - destruct Hc as [-> Hhome]. rewrite set_recovery_same. intros [= <- <- <-].
    cbn [put with_members members queue]. pose proof (@insert_at_Permutation Member p) as Hi.
    split_and!; auto using config_refl; [| |done].
    + eapply fifo_ok_perm; [symmetry; apply Hi|]. apply fifo_returned_awaited; [|done].
      intros Hst. pose proof (ok_stalled _ _ _ Hok1 Hst) as Hh. unfold has_source, awaited in *.
      by destruct (recovery self.2) as [[]|[]|].
    + rewrite Hi, Hperm. done.
Qed.

Lemma retire_role_after_error_ok n self o position role rec a self' r :
  fifo_returned self (members o) (queue o) -> fair n o ->
  retire_role_after_error self o position role rec a = (self', r) ->
  result_ok (counts_are (counts (members o))) n (held (members o) (queue o)) a self self' r.
Proof.
  intros Hok Hf. unfold retire_role_after_error.
  set (m := mkMember role rec Member_Retired).
  pose proof (insert_at_Permutation position m (members o)) as Hi.
  assert (Hok1 : fifo_returned self (m :: members o) (queue o)) by (by apply fifo_ok_add).
  destruct (recovery_failure (recovery self.2)); [|intros Hb;
    eapply shutdown_result; [exact Hok1|by rewrite neutral_held|exact Hb]].
  destruct (prepare_next_waiting _ _ _) as [self1 [o1 a1]] eqn:Hprep.
  destruct (prepare_next_waiting_ok _ (put o position role rec Member_Retired) _ _ _ _
              (fifo_ok_perm _ _ _ _ (symmetry Hi) Hok1) Hprep) as (Hok2 & Hcfg & Hq & Hw & Ha).
  destruct (fill_fifo self1 o1 a1) as [self2 [o2 a2]] eqn:Hfill.
  destruct (fill_fifo_ok n _ _ _ _ _ _ Hok2 Hfill) as (Hk & Hok3 & Hcons & Hcnt & Hacc & Hfair).
  destruct (return_unrecoverable_jobs _ _ _) as [o3 a3] eqn:Hret. intros [= <- <-].
  cbn [put with_members members queue] in Hw, Hq. fold m in Hw. rewrite Hi in Hw.
  pose proof (same_work_held _ _ (queue o) Hw) as Hh. rewrite (neutral_held m) in Hh by done.
  eapply unrecoverable_result; [| |exact Hret]; [|by unfold counts_are; intros ? ->].
  eapply result_ok_from; [by apply accounted_same|exact Hcfg|]. rewrite Hq in *.
  split; [by apply kept_config| |]; cbn [state_jobs].
  - by rewrite Hh in Hacc.
  - simpl. split_and!; auto.
    + apply Hfair. apply (same_work_fair n (mkOperating (m :: members o) (queue o) (cursor o)) o1 Hw Hq).
      by apply (neutral_fair n m (members o) (queue o) (cursor o)); destruct o.
    + unfold counts_are. by rewrite Hcnt, (same_counts _ _ Hw), neutral_counts.
Qed.

(** ** Startups *)

(** What an authorized startup changes of its member. *)
Lemma authorize_startup_spec self m :
  waits_for_startup m = true ->
  exists alloc_m m' request self', authorize_startup m = Ok alloc_m /\ alloc self alloc_m = (self', (m', request)) /\
    self'.2 = self.2 /\ busy m = [] /\ busy m' = [] /\ idle m = 0 /\ idle m' = 0 /\
    preparing m' = preparing m /\ stalled m' = stalled m /\ starting m = 0 /\ starting m' = 1.
Proof.
  destruct m as [role r [|[c []]| |]]; try done. intros _. eexists _, _, _, _.
  split; [done|]. split; [done|]. by split_and!.
Qed.

Lemma fifo_ok_start self m m' l q :
  fifo_ok self (m :: l) q -> busy m = [] -> busy m' = [] -> preparing m' = preparing m ->
  stalled m' = stalled m -> sum_list_with starting (m' :: l) <= startup_maximum (startup_limit self.2) ->
  fifo_ok self (m' :: l) q.
Proof.
  intros [Os Ok Od Oj Oa Osrc Ot Ost Obud] Hb Hb' Hp Hs Hst.
  assert (Hh : held (m' :: l) q ≡ₚ held (m :: l) q) by (by rewrite !held_cons, Hb, Hb').
  split; rewrite ?Hh; auto.
  - rewrite busies_cons, Hb'. by rewrite busies_cons, Hb in Oa.
  - simpl in *. by rewrite Hp.
  - simpl in *. by rewrite Hs.
Qed.

Lemma authorize_loop_ok n k : forall self o a self' o' a',
  fifo_ok self (members o) (queue o) ->
  sum_list_with starting (members o) + k <= startup_maximum (startup_limit self.2) ->
  authorize_loop k self o a = (self', (o', a')) ->
  self'.2 = self.2 /\ fifo_ok self' (members o') (queue o') /\ queue o' = queue o /\
  busies (members o') ≡ₚ busies (members o) /\
  sum_list_with idle (members o') = sum_list_with idle (members o) /\ same_account a a' /\
  (fair n o -> fair n o') /\
  (sum_list_with unstarted (members o') = 0 \/
   sum_list_with starting (members o') = sum_list_with starting (members o) + k).
Proof.
  induction k as [|k IH]; intros self o a self' o' a' Hok Hmax; cbn -[authorize_startup alloc].
  { intros [= <- <- <-]. split_and!; auto; done. }
  destruct (take_at waits_for_startup (members o)) as [[[p m] rest]|] eqn:Ht.
  2: { apply take_at_None in Ht. intros [= <- <- <-].
       split_and!; auto; [done|left; by apply unstarted_none]. }
  pose proof (take_at_Permutation _ _ _ _ _ Ht) as Hperm.
  apply take_at_Some in Ht as (_ & Hw & _).
  destruct (authorize_startup_spec self m Hw) as
    (am & m' & request & self1 & -> & -> & Hself & B & B' & I & I' & Pr & St & Sg & Sg').
  intros Hloop. pose proof (insert_at_Permutation p m' rest) as Hi.
  assert (Hsum : sum_list_with starting (m' :: rest) = S (sum_list_with starting (members o)))
    by (rewrite Hperm; simpl; lia).
  assert (Hok1 : fifo_ok self1 (members (with_members o (insert_at p m' rest))) (queue o)).
  { eapply (fifo_ok_kept self); [by split; rewrite Hself|by rewrite Hself|].
    eapply fifo_ok_perm; [symmetry; exact Hi|].
    apply (fifo_ok_start self m); auto; [by eapply fifo_ok_perm|lia]. }
  assert (Hbusy : busies (insert_at p m' rest) ≡ₚ busies (members o))
    by (by rewrite Hi, Hperm, !busies_cons, B, B').
  assert (Hle : sum_list_with starting (members (with_members o (insert_at p m' rest))) + k <=
            startup_maximum (startup_limit self1.2)) by (cbn [with_members members]; rewrite Hself, Hi, Hsum; lia).
  destruct (IH _ _ _ _ _ _ Hok1 Hle Hloop) as (Hs2 & Hok2 & Hq & Hb & Hid & Ha & Hf & Hor).
  cbn [with_members members queue] in *. split_and!; auto.
  - by rewrite Hs2.
  - by rewrite Hb.
  - rewrite Hid, Hi, Hperm. simpl. lia.
  - intros Hfo. apply Hf. intros x Hx. apply Hfo. cbn [with_members members] in Hx. by rewrite <- Hbusy.
  - destruct Hor as [->|Hst]; [by left|right]. rewrite Hst, Hi, Hsum. lia.
Qed.

Lemma authorize_result P n J a self0 self o a1 self' o' a' :
  result_ok P n J a self0 self (State_Operating o, a1) ->
  authorize_waiting self o a1 = (self', (o', a')) ->
  result_ok startups_settled n J a self0 self' (State_Operating o', a').
Proof.
  intros [Rc Ra (Hok & Hcons & Hfair & _)] Hau. unfold authorize_waiting in Hau.
  rewrite holds_startup_sum in Hau. cbn [state_jobs fst snd] in *.
  pose proof (ok_starting _ _ _ Hok) as Hmax.
  assert (Hle : sum_list_with starting (members o) + (startup_maximum (startup_limit self.2) -
            sum_list_with starting (members o)) <= startup_maximum (startup_limit self.2)) by lia.
  destruct (authorize_loop_ok n _ _ _ _ _ _ _ Hok Hle Hau) as (Hs & Hok' & Hq & Hb & Hid & Ha & Hf & Hor).
  split.
  - unfold config_kept in *. by rewrite Hs.
  - eapply accounted_trans; [exact Ra|]. cbn [state_jobs fst snd].
    assert (Hh : held (members o') (queue o') ≡ₚ held (members o) (queue o)) by (unfold held; by rewrite Hb, Hq).
    rewrite Hh. by apply accounted_same.
  - cbn [fst]. split_and!; auto.
    + destruct Hcons as [Hn|Hn]; [left; congruence|right; congruence].
    + destruct Hor as [|Hst]; [by left|right]. rewrite Hst, Hs. lia.
Qed.

Lemma continue_after_pre_ready_stop_ok n self o position role rec previous stopped a self' r :
  fifo_ok self (members o) (queue o) -> fair n o ->
  continue_after_pre_ready_stop self o position role rec previous stopped a = (self', r) ->
  result_ok startups_settled n (held (members o) (queue o)) a self self' r.
Proof.
  intros Hok Hf. unfold continue_after_pre_ready_stop.
  destruct (FifoPool.recover_worker _ _ _ _ _ _ _ _) as [self1 [s1 a1]] eqn:Hr.
  pose proof (recover_worker_ok n _ _ _ _ _ _ _ _ _ _ Hok Hf Hr) as Hres.
  destruct s1 as [| o1 | | |].
  2: { destruct (authorize_waiting self1 o1 a1) as [self2 [o2 a2]] eqn:Hau. intros [= <- <-].
       by eapply authorize_result. }
  all: intros [= <- <-]; destruct Hres as [Rc Ra Rs]; by split.
Qed.

(** Startups stay settled when no count changes. *)
Lemma settled_by_counts l0 self0 self n J a self' r :
  startups_settled self0 l0 -> startup_limit self.2 = startup_limit self0.2 ->
  result_ok (counts_are (counts (members l0))) n J a self self' r ->
  result_ok startups_settled n J a self self' r.
Proof.
  intros Hset Hlim. apply result_ok_weaken. intros o Hl Hc. unfold counts_are, counts in Hc.
  injection Hc as Hst Hun. unfold startups_settled in *. by rewrite Hst, Hun, Hl, Hlim.
Qed.

End FifoRecovery.
