(* ===== verification/FifoHandlers.v ===== *)
(** * The handlers of an operating FIFO pool

    Recovery, restarts, assignments and completions.  Each handler keeps the
    invariant, accounts for every job and source, and leaves no idle worker
    beside a waiting job and no waiting startup under a free limit. *)

From stdpp Require Import base list list_numbers option numbers sorting.
From S2P Require Import Prelude Effects BTreeMap Timers Restart Termination Settlement Interpretation Creation Workers.
From S2P Require Import WorkerPreparation WorkerStartup ProxyWorker PoolAssignment PoolPolicy PoolWorker PoolMembers.
From S2P Require Import PoolDrain FifoProtocol FifoShutdown FifoPool.
From S2P Require Import FifoInvariant.

Section FifoHandlers.
  Context `{FT : FifoTypes} `{RL : !RouteLaws Customer FifoOutcome CustomerSends}.

Abbreviation fifo_ok := (fifo_inv awaited).

(** An operating pool between two steps, of which [n] was the next assignment. *)
Record steady (n : option N) (self : Self) (o : FifoOperating) : Prop := {
  steady_ok : fifo_ok self (members o) (queue o);
  steady_conserving : conserving o;
  steady_fair : fair n o;
  steady_startups : startups_settled self o
}.

(** What a handler answers: a result, or the input and the pool as it was. *)
Definition handled {X} (n : option N) (self : Self) (o : FifoOperating)
  (r : Self * result (PoolState * FifoActions) (FifoOperating * X)) : Prop :=
  match r with
  | (self', Ok res) => result_ok startups_settled n (held (members o) (queue o)) fifo_cont self self' res
  | (self', Err (o', _)) => steady n self' o' /\ config_kept self self' /\
      held (members o') (queue o') ≡ₚ held (members o) (queue o)
  end.

Definition stepped (n : option N) (self : Self) (o : FifoOperating) (r : Self * (PoolState * FifoActions)) : Prop :=
  result_ok startups_settled n (held (members o) (queue o)) fifo_cont self r.1 r.2.

Lemma steady_result n self o a a' :
  steady n self o -> same_account a a' ->
  result_ok startups_settled n (held (members o) (queue o)) a self self (State_Operating o, a').
Proof. intros [] Ha. split; [apply config_refl|by apply accounted_same|by split_and!]. Qed.

Lemma result_steady n J a self self' o a' :
  result_ok startups_settled n J a self self' (State_Operating o, a') -> steady n self' o.
Proof. intros [_ _ (? & ? & ? & ?)]. by split. Qed.

(** ** Replacing one member *)

Lemma steady_replace n self o m m' rest p c :
  steady n self o -> members o ≡ₚ m :: rest -> same_weight m m' ->
  steady n self (mkOperating (insert_at p m' rest) (queue o) c) /\
  held (insert_at p m' rest) (queue o) ≡ₚ held (members o) (queue o).
Proof.
  intros [Hok Hc Hf Hs] Hp [Wb Wi Wst Wu Wp Wt]. pose proof (insert_at_Permutation p m' rest) as Hi.
  assert (Hb : busies (insert_at p m' rest) ≡ₚ busies (members o)) by (by rewrite Hi, Hp, !busies_cons, Wb).
  split; [|unfold held; by rewrite Hb]. split; cbn [members queue].
  - eapply fifo_ok_perm; [symmetry; exact Hi|]. eapply (fifo_ok_lighter self m).
    + split; auto; lia.
    + by eapply fifo_ok_perm.
  - destruct Hc as [Hq|Hid]; [by left|right]. cbn [members]. rewrite Hi. rewrite Hp in Hid. simpl in *. lia.
  - intros x Hx. apply Hf. cbn [members] in Hx. by rewrite <- Hb.
  - unfold startups_settled in *. cbn [members]. rewrite Hi. rewrite Hp in Hs. simpl in *. by rewrite Wst, Wu.
Qed.

Lemma replace_result n self o m m' rest p a a' :
  steady n self o -> members o ≡ₚ m :: rest -> same_weight m m' -> same_account a a' ->
  result_ok startups_settled n (held (members o) (queue o)) a self self
    (State_Operating (with_members (with_members o rest) (insert_at p m' rest)), a').
Proof.
  intros Hst Hp Hw Ha. destruct (steady_replace n self o m m' rest p (cursor o) Hst Hp Hw) as [Hst' Hh].
  eapply result_ok_perm; [exact Hh|]. exact (steady_result n self _ a a' Hst' Ha).
Qed.

Lemma replace_handled {X} n self o m m' rest p (x : X) :
  steady n self o -> members o ≡ₚ m :: rest -> same_weight m m' ->
  handled n self o (self, Err (with_members (with_members o rest) (insert_at p m' rest), x)).
Proof.
  intros Hst Hp Hw. destruct (steady_replace n self o m m' rest p (cursor o) Hst Hp Hw) as [Hst' Hh].
  split_and!; auto using config_refl.
Qed.

(** ** Taking one member out *)

Lemma steady_rest n self o m rest :
  steady n self o -> members o ≡ₚ m :: rest -> preparing m = 0 ->
  fifo_ok self rest (queue o) /\ fair n (with_members o rest) /\
  held (members o) (queue o) ≡ₚ (fst <$> busy m) ++ held rest (queue o).
Proof.
  intros [Hok Hc Hf Hs] Hp Hm. split_and!.
  - eapply fifo_ok_rest; [exact Hm|]. by eapply fifo_ok_perm.
  - intros x Hx. apply Hf. cbn [with_members members] in Hx. rewrite Hp, busies_cons, elem_of_app. by right.
  - by rewrite Hp, held_cons.
Qed.

Lemma steady_counts n self o m rest self1 J a self' r :
  steady n self o -> members o ≡ₚ m :: rest -> starting m = 0 -> unstarted m = 0 ->
  startup_limit self1.2 = startup_limit self.2 ->
  result_ok (counts_are (counts rest)) n J a self1 self' r ->
  result_ok startups_settled n J a self1 self' r.
Proof.
  intros Hst Hp Hs Hu Hl Hr. eapply settled_by_counts; [exact (steady_startups _ _ _ Hst)|done|].
  rewrite Hp, counts_cons, Hs, Hu. by destruct (counts rest).
Qed.

(** ** Recovery of the worker of a member *)

Lemma recovered_ok n self o m rest p role rec previous stopped a self' r J a0 :
  steady n self o -> members o ≡ₚ m :: rest -> preparing m = 0 -> starting m = 0 -> unstarted m = 0 ->
  accounted J a0 (held rest (queue o)) a ->
  FifoPool.recover_worker self (with_members o rest) p role rec previous stopped a = (self', r) ->
  result_ok startups_settled n J a0 self self' r.
Proof.
  intros Hst Hp Hpr Hs Hu Ha Hr. destruct (steady_rest n self o m rest Hst Hp Hpr) as (Hok & Hf & _).
  eapply result_ok_from; [exact Ha|apply config_refl|].
  eapply steady_counts; [exact Hst|exact Hp|done..|].
  by eapply (recover_worker_ok n self (with_members o rest)).
Qed.

(** The same after the job of the member went back to the backlog. *)
Lemma requeued_ok n self o m rest j c p role rec previous stopped a self' r :
  steady n self o -> n = next_assignment (assignments self.2) ->
  members o ≡ₚ m :: rest -> busy m = [(j, c)] -> preparing m = 0 -> starting m = 0 -> unstarted m = 0 ->
  accounted (held (members o) (queue o)) fifo_cont (held (members o) (queue o)) a ->
  FifoPool.recover_worker self (requeue (with_members o rest) j role) p role rec previous stopped a = (self', r) ->
  result_ok startups_settled n (held (members o) (queue o)) fifo_cont self self' r.
Proof.
  intros Hst Hn Hp Hb Hpr Hs Hu Ha Hr.
  pose proof (fifo_ok_perm _ _ _ _ Hp (steady_ok _ _ _ Hst)) as Hok1.
  destruct (fifo_ok_requeue self m rest (queue o) j c (Some role) Hok1 Hb Hpr) as [Hok2 Hh].
  eapply result_ok_from; [exact Ha|apply config_refl|].
  eapply steady_counts; [exact Hst|exact Hp|done..|].
  eapply result_ok_perm; [|eapply (recover_worker_ok n self (requeue (with_members o rest) j role)); [| |exact Hr]].
  - cbn [requeue with_queue with_members members queue]. by rewrite Hh, Hp.
  - exact Hok2.
  - intros x Hx Hnot. exfalso. apply Hnot. pose proof (ok_assigned _ _ _ Hok1) as Has.
    rewrite list.Forall_forall in Has. rewrite Hn. apply Has. rewrite busies_cons, elem_of_app. by right.
Qed.

(** ** Preparations *)

(** The member whose preparation came back, with the source put away. *)
Lemma restored_result n self o m rest source r restored a J P self' res :
  steady n self o -> members o ≡ₚ m :: rest -> neutral m -> preparing m = 1 ->
  restore_source (recovery self.2) source = (r, restored) ->
  (restored = Ok () -> fifo_inv has_source (set_recovery self r) rest (queue o) -> fair n (with_members o rest) ->
   held (members o) (queue o) ≡ₚ held rest (queue o) ->
   result_ok P n (held rest (queue o)) a (set_recovery self r) self' res) ->
  J ≡ₚ held (members o) (queue o) ->
  result_ok P n J a self self' res.
Proof.
  intros Hst Hp Hn Hpr Hr Hres HJ. pose proof (fifo_ok_perm _ _ _ _ Hp (steady_ok _ _ _ Hst)) as Hok1.
  destruct (restored_ok self m rest (queue o) source r restored Hok1 Hpr Hr) as (-> & Hok2 & Hcfg & _).
  assert (Hh : held (members o) (queue o) ≡ₚ held rest (queue o)) by (by rewrite Hp, neutral_held).
  apply (result_ok_perm _ _ (held rest (queue o))); [by rewrite HJ, Hh|].
  eapply result_ok_from; [apply accounted_refl|exact Hcfg|]. apply Hres; auto.
  intros x Hx. apply (steady_fair _ _ _ Hst). cbn [with_members members] in Hx.
  rewrite Hp, busies_cons, elem_of_app. by right.
Qed.

Lemma retired_ok n self o m rest p role rec a self1 self' r a0 :
  steady n self o -> members o ≡ₚ m :: rest -> neutral m ->
  fifo_inv has_source self1 rest (queue o) -> fair n (with_members o rest) ->
  startup_limit self1.2 = startup_limit self.2 ->
  accounted (held rest (queue o)) a0 (held rest (queue o)) a ->
  retire_role_after_error self1 (with_members o rest) p role rec a = (self', r) ->
  result_ok startups_settled n (held rest (queue o)) a0 self1 self' r.
Proof.
  intros Hst Hp Hn Hok Hf Hl Ha Hr. eapply result_ok_from; [exact Ha|apply config_refl|].
  eapply steady_counts; [exact Hst|exact Hp|apply Hn|apply Hn|exact Hl|].
  by eapply (retire_role_after_error_ok n self1 (with_members o rest)).
Qed.

Lemma set_recovery_limit self r : startup_limit (set_recovery self r).2 = startup_limit self.2.
Proof. by destruct self. Qed.

Lemma reject_preparation_ok n self o m rest p role rec previous stopped source error self' r :
  steady n self o -> members o ≡ₚ m :: rest -> neutral m -> preparing m = 1 ->
  error <> Preparation_SourceStateCorrupt ->
  reject_preparation self (with_members o rest) p role rec previous stopped source error = (self', r) ->
  result_ok startups_settled n (held (members o) (queue o)) fifo_cont self self' r.
Proof.
  intros Hst Hp Hn Hpr He. unfold reject_preparation.
  destruct (restore_source _ _) as [rc restored] eqn:Hrs. intros Hr.
  eapply restored_result; [exact Hst|exact Hp|exact Hn|exact Hpr|exact Hrs| |done].
  intros -> Hok Hf Hh. eapply retired_ok; [exact Hst|exact Hp|exact Hn|exact Hok|exact Hf| | |exact Hr].
  - apply set_recovery_limit.
  - apply accounted_diagnosed. by destruct error.
Qed.

Lemma accept_worker_preparation_start_ok n self o input :
  steady n self o -> handled n self o (accept_worker_preparation_start self o input).
Proof.
  intros Hst. unfold accept_worker_preparation_start.
  destruct (take_at _ _) as [[[p m] rest]|] eqn:Ht; [|by split_and!; auto using config_refl].
  pose proof (take_at_Permutation _ _ _ _ _ Ht) as Hp.
  apply take_at_Some in Ht as (_ & Hw & _). destruct (awaits_start_preparing _ _ Hw) as [Hpr Hn].
  pose proof (member_preparation_start_spec m input Hpr) as Hspec.
  destruct (member_preparation_start m input) as [[failed|m']|[m' input']].
  - destruct (reject_preparation _ _ _ _ _ _ _ _ _) as [self' r] eqn:Hr.
    eapply reject_preparation_ok; [exact Hst|exact Hp|exact Hn|exact Hpr| |exact Hr].
    by destruct (failed_fault failed).
  - by eapply replace_result.
  - by eapply replace_handled.
Qed.

(** ** Restarts *)

Lemma steady_kept n self self' o :
  kept self self' -> assignments self'.2 = assignments self.2 -> steady n self o -> steady n self' o.
Proof.
  intros Hk Ha [Hok Hc Hf Hs]. split; auto; [by eapply fifo_ok_kept|].
  unfold startups_settled in *. by rewrite (kept_limit _ _ Hk).
Qed.

Lemma set_restarts_inv {W} self b l q :
  budget_ok (recovery self.2) b -> fifo_inv W self l q -> fifo_inv W (set_restarts self b) l q.
Proof. destruct self as [k p]. intros Hb []. by split. Qed.

Lemma set_restarts_config self b : config_kept self (set_restarts self b).
Proof. destruct self. split; [done|apply same_policy_refl]. Qed.

Lemma set_restarts_limit self b : startup_limit (set_restarts self b).2 = startup_limit self.2.
Proof. by destruct self. Qed.

Lemma steady_restarts n self b o :
  budget_ok (recovery self.2) b -> steady n self o -> steady n (set_restarts self b) o.
Proof.
  intros Hb [Hok Hc Hf Hs]. split; auto; [by apply set_restarts_inv|].
  unfold startups_settled in *. by rewrite set_restarts_limit.
Qed.

Lemma issue_release_spec self release self' r :
  issue_release self release = (self', r) ->
  kept self self' /\ assignments self'.2 = assignments self.2 /\
  (forall e, r = Err e -> e <> Replacement_SourceStateCorrupt).
Proof.
  unfold issue_release, issue_creation, issue_restart_timer. destruct self as [k p]. cbn [snd].
  destruct release.
  - destruct (issue _) as [s []]; intros [= <- <-]; by split_and!; [split| |naive_solver].
  - destruct (key_issue _) as [s []]; intros [= <- <-]; by split_and!; [split| |naive_solver].
Qed.

Lemma release_replacement_spec self o p prepared rec release self' o' a' :
  release_replacement self o p prepared rec release = (self', (o', a')) ->
  self'.2 = self.2 /\ queue o' = queue o /\ same_account fifo_cont a' /\
  exists m', members o' = insert_at p m' (members o) /\ neutral m' /\ preparing m' = 0 /\ stalled m' = 0.
Proof.
  unfold release_replacement. destruct prepared as [role r previous stopped source [w plan]].
  destruct release; [|intros [= <- <- <-]; split_and!; try done; by eexists].
  destruct self as [k q]. cbn. intros [= <- <- <-]. split_and!; try done. by eexists.
Qed.

Lemma return_source_ok n self o m rest p role rec previous stopped source submission error self' r :
  steady n self o -> members o ≡ₚ m :: rest -> neutral m -> preparing m = 1 ->
  error <> Replacement_SourceStateCorrupt ->
  return_source_after_failed_replacement self (with_members o rest) p role rec previous stopped source
    submission error = (self', r) ->
  result_ok startups_settled n (held (members o) (queue o)) fifo_cont self self' r.
Proof.
  intros Hst Hp Hn Hpr He. unfold return_source_after_failed_replacement, reject_replacement.
  destruct (restore_source _ _) as [rc restored] eqn:Hrs. intros Hr.
  eapply restored_result; [exact Hst|exact Hp|exact Hn|exact Hpr|exact Hrs| |done].
  intros -> Hok Hf Hh. eapply retired_ok; [exact Hst|exact Hp|exact Hn|exact Hok|exact Hf| | |exact Hr].
  - apply set_recovery_limit.
  - apply accounted_diagnosed. by destruct error.
Qed.

(** The prepared worker is released, and the next role takes the source. *)
Lemma released_ok n self o m rest p prepared rec release source rc proposed self1 o1 a1 self2 o2 a2 :
  steady n self o -> members o ≡ₚ m :: rest -> neutral m -> preparing m = 1 ->
  restore_source (recovery self.2) source = (rc, Ok ()) -> budget_ok (recovery self.2) proposed ->
  release_replacement (set_restarts (set_recovery self rc) proposed) (with_members o rest) p prepared rec release
    = (self1, (o1, a1)) ->
  prepare_next_waiting self1 o1 a1 = (self2, (o2, a2)) ->
  result_ok startups_settled n (held (members o) (queue o)) fifo_cont self self2 (State_Operating o2, a2).
Proof.
  intros Hst Hp Hn Hpr Hrs Hb Hrel Hprep.
  pose proof (fifo_ok_perm _ _ _ _ Hp (steady_ok _ _ _ Hst)) as Hok1.
  destruct (restored_ok self m rest (queue o) source rc _ Hok1 Hpr Hrs) as (_ & Hok2 & Hcfg & _).
  destruct (set_recovery_2 self rc) as (_ & _ & _ & _ & E5).
  assert (Hb' : budget_ok (recovery (set_recovery self rc).2) proposed).
  { destruct Hcfg as [_ Hsame]. by eapply budget_ok_policy. }
  pose proof (set_restarts_inv _ _ _ _ Hb' Hok2) as Hok3.
  destruct (release_replacement_spec _ _ _ _ _ _ _ _ _ Hrel) as (Hself & Hq & Ha & m' & Hm' & Hn' & Hp' & Hs').
  cbn [with_members members queue] in Hm', Hq. pose proof (insert_at_Permutation p m' rest) as Hi.
  assert (Hok4 : fifo_inv has_source self1 (members o1) (queue o1)).
  { rewrite Hq, Hm'. eapply fifo_ok_perm; [symmetry; exact Hi|].
    apply fifo_ok_add; [apply Hn'|done|done|apply Hn'|].
    eapply fifo_ok_kept; [| |exact Hok3]; [by split; rewrite Hself|by rewrite Hself]. }
  destruct (prepare_next_waiting_ok _ _ _ _ _ _ Hok4 Hprep) as (Hok5 & Hcfg5 & Hq5 & Hw5 & Ha5).
  assert (Hw : same_work (members o) (members o2)).
  { destruct (same_work_neutral m m' rest Hn Hn') as [B1 C1 I1]. destruct Hw5 as [B2 C2 I2].
    rewrite Hm', Hi in B2, C2, I2. split; rewrite Hp; by etrans. }
  assert (Hlim : startup_limit self2.2 = startup_limit self.2).
  { rewrite (config_limit _ _ Hcfg5), Hself, set_restarts_limit. apply set_recovery_limit. }
  split; cbn [fst snd state_jobs].
  - eapply config_trans; [exact Hcfg|]. eapply config_trans; [apply set_restarts_config|].
    unfold config_kept in *. by rewrite <- Hself.
  - rewrite Hq5, Hq, (same_work_held _ _ _ Hw). apply accounted_same.
    destruct Ha, Ha5. split; congruence.
  - destruct Hst as [_ Hc Hf Hs]. assert (Hq2 : queue o2 = queue o) by congruence.
    split_and!; [exact Hok5|by eapply same_work_conserving|by eapply same_work_fair|].
    destruct Hw as [_ Hcnt _]. unfold counts in Hcnt. injection Hcnt as H1 H2.
    unfold startups_settled in *. by rewrite H1, H2, Hlim.
Qed.

Lemma accept_worker_preparation_return_ok n self o input :
  steady n self o ->
  exists r, accept_worker_preparation_return self o input = Some r /\ handled n self o r.
Proof.
  intros Hst. unfold accept_worker_preparation_return.
  pose proof (ok_budget _ _ _ (steady_ok _ _ _ Hst)) as Hb. unfold budget_ok in Hb.
  destruct (restart_policy (recovery self.2)) as [[limit release]|] eqn:Hpol.
  2: { eexists. split; [done|]. by split_and!; auto using config_refl. }
  destruct (take_at _ _) as [[[p m] rest]|] eqn:Ht.
  2: { eexists. split; [done|]. by split_and!; auto using config_refl. }
  pose proof (take_at_Permutation _ _ _ _ _ Ht) as Hp.
  apply take_at_Some in Ht as (_ & Hw & _). destruct (awaits_return_preparing _ _ Hw) as [Hpr Hn].
  pose proof (member_preparation_return_spec m input Hpr) as Hspec.
  destruct (member_preparation_return m input) as [[prepared|role rec previous stopped source error]|[m' input']].
  2: { destruct (reject_preparation _ _ _ _ _ _ _ _ _) as [self' r] eqn:Hr. destruct Hspec as [Hspec _].
       eexists. split; [done|]. by eapply reject_preparation_ok. }
  2: { eexists. split; [done|]. by eapply replace_handled. }
  destruct prepared as [role rec previous stopped source submission] eqn:Hprepared. rewrite <- Hprepared.
  destruct Hb as [Hm Htot].
  pose proof (restart_admission_budget rec (restarts self.2) limit release (stopped_at stopped) 1 Hm Htot) as Had.
  destruct (restart_admission _ _ _ _ _ _) as [[ordinal b' proposed release'|b' reason]|]; [| |done].
  - destruct Had as [-> Hprop].
    destruct (issue_release self release') as [self1 r1] eqn:Hiss.
    destruct (issue_release_spec _ _ _ _ Hiss) as (Hk & Has & He).
    pose proof (steady_kept n _ _ o Hk Has Hst) as Hst1.
    destruct r1 as [rel|error].
    + destruct (restore_source (recovery self1.2) source) as [rc restored] eqn:Hrs.
      pose proof (fifo_ok_perm _ _ _ _ Hp (steady_ok _ _ _ Hst1)) as Hok1.
      destruct (restored_ok self1 m rest (queue o) source rc restored Hok1 Hpr Hrs) as (-> & _).
      destruct (release_replacement _ _ _ _ _ _) as [self2 [o2 a2]] eqn:Hrel.
      destruct (prepare_next_waiting self2 o2 a2) as [self3 [o3 a3]] eqn:Hprep.
      eexists. split; [done|]. cbn [handled].
      eapply result_ok_from; [apply accounted_refl|by apply kept_config|].
      eapply released_ok; [exact Hst1|exact Hp|exact Hn|exact Hpr|exact Hrs| |exact Hrel|exact Hprep].
      unfold budget_ok. by rewrite (kept_recovery _ _ Hk), Hpol.
    + destruct (return_source_after_failed_replacement _ _ _ _ _ _ _ _ _ _) as [self' r] eqn:Hr.
      eexists. split; [done|]. cbn [handled].
      assert (Hb1 : budget_ok (recovery self1.2) (restarts self.2)).
      { unfold budget_ok. by rewrite (kept_recovery _ _ Hk), Hpol. }
      eapply result_ok_from; [apply accounted_refl| |].
      2: { eapply return_source_ok; [by eapply steady_restarts|exact Hp|exact Hn|exact Hpr|by apply He|exact Hr]. }
      eapply config_trans; [by apply kept_config|apply set_restarts_config].
  - subst b'.
    destruct (return_source_after_failed_replacement _ _ _ _ _ _ _ _ _ _) as [self' r] eqn:Hr.
    eexists. split; [done|]. cbn [handled].
    eapply result_ok_from; [apply accounted_refl|apply set_restarts_config|].
    eapply return_source_ok; [|exact Hp|exact Hn|exact Hpr| |exact Hr]; [|done].
    apply steady_restarts; [|done]. unfold budget_ok. by rewrite Hpol.
Qed.

End FifoHandlers.

Section FifoService.
  Context `{FT : FifoTypes} `{RL : !RouteLaws Customer FifoOutcome CustomerSends}.

Abbreviation fifo_ok := (fifo_inv awaited).

Lemma fifo_ok_returned self l q : fifo_ok self l q -> fifo_inv has_source self l q.
Proof. intros []. split; auto. intros H. by apply sources_out_has, ok_stalled. Qed.

(** ** Restart timers *)

Lemma dropped_ok n self o m rest p role rec previous stopped submission error self' r :
  steady n self o -> members o ≡ₚ m :: rest -> neutral m -> preparing m = 0 ->
  error <> Replacement_SourceStateCorrupt ->
  reject_replacement self (with_members o rest) p role rec previous stopped submission None error fifo_cont
    = (self', r) ->
  result_ok startups_settled n (held (members o) (queue o)) fifo_cont self self' r.
Proof.
  intros Hst Hp Hn Hpr He Hr. destruct (steady_rest n self o m rest Hst Hp Hpr) as (Hok & Hf & Hh).
  rewrite (neutral_busy _ Hn) in Hh. apply (result_ok_perm _ _ (held rest (queue o))); [by rewrite Hh|].
  eapply retired_ok; [exact Hst|exact Hp|exact Hn|by apply fifo_ok_returned|exact Hf|done| |exact Hr].
  apply accounted_diagnosed. by destruct error.
Qed.

Lemma accept_restart_schedule_ok n self o input :
  steady n self o -> handled n self o (accept_restart_schedule self o input).
Proof.
  intros Hst. unfold accept_restart_schedule.
  destruct (take_at _ _) as [[[p m] rest]|] eqn:Ht; [|by split_and!; auto using config_refl].
  pose proof (take_at_Permutation _ _ _ _ _ Ht) as Hp. apply take_at_Some in Ht as (_ & Hw & _).
  destruct m as [role rec [| |w|]]; try done. cbn [awaits_schedule member_state] in Hw.
  destruct (admit_restart_schedule_spec role rec w input Hw) as [Hpr Hspec].
  destruct (admit_restart_schedule w input) as [[[[previous stopped sub] settlement]|w']|[w' settlement]].
  - destruct (reject_replacement _ _ _ _ _ _ _ _ _ _ _) as [self' r] eqn:Hr.
    eapply dropped_ok; [exact Hst|exact Hp|apply recovering_neutral|exact Hpr| |exact Hr]. done.
  - by eapply replace_result.
  - by eapply replace_handled.
Qed.

Lemma issue_creation_spec self self' c : issue_creation self = (self', c) ->
  kept self self' /\ assignments self'.2 = assignments self.2.
Proof. unfold issue_creation. destruct self as [k p]. destruct (issue _) as [s i]. by intros [= <- <-]. Qed.

Lemma accept_restart_timer_ok n self o elapsed :
  steady n self o -> handled n self o (accept_restart_timer self o elapsed).
Proof.
  intros Hst. unfold accept_restart_timer.
  destruct (take_at _ _) as [[[p m] rest]|] eqn:Ht; [|by split_and!; auto using config_refl].
  pose proof (take_at_Permutation _ _ _ _ _ Ht) as Hp. apply take_at_Some in Ht as (_ & Hw & _).
  destruct m as [role rec [| |w|]]; try done. cbn [awaits_timer member_state] in Hw.
  destruct w as [| | |previous stopped sub timer]; try done. cbn [admit_restart_timer].
  destruct (admit_elapsed timer elapsed) as [e|e]; [|by eapply replace_handled].
  destruct (issue_creation self) as [self1 c] eqn:Hiss.
  destruct (issue_creation_spec _ _ _ Hiss) as [Hk Has]. pose proof (steady_kept n _ _ o Hk Has Hst) as Hst1.
  destruct c as [creation|].
  - destruct (begin_replacement_fresh (mkPrepared role sub) rec (attempt_creation previous) creation self1.1)
      as (k & m' & w & obs & Hbegin & Hn & Hpr & Hs & Hrole & _).
    unfold alloc. rewrite Hbegin. set (self2 := (k, self1.2)). assert (Hself : self2.2 = self1.2) by done.
    assert (Hst2 : steady n self2 o) by (by eapply (steady_kept n self1 self2 o)).
    cbn [handled].
    eapply result_ok_from; [apply accounted_refl| |].
    2: { eapply replace_result; [exact Hst2|exact Hp| |done]. by apply neutral_weight. }
    destruct (kept_config _ _ Hk). split; by rewrite Hself.
  - destruct (reject_replacement _ _ _ _ _ _ _ _ _ _ _) as [self' r] eqn:Hr. cbn [handled].
    eapply result_ok_from; [apply accounted_refl|by apply kept_config|].
    eapply dropped_ok; [exact Hst1|exact Hp|apply recovering_neutral|done| |exact Hr]. done.
Qed.

(** ** Assignments *)

Abbreviation busy_member role rec current a :=
  (mkMember role rec (Member_Worker (mkPoolWorker current (Phase_Busy a)))).

(** The fill after a member became idle. *)
Lemma idle_fill_counts n self o m rest p role rec current a self' o' a' :
  steady n self o -> members o ≡ₚ m :: rest -> preparing m = 0 ->
  fill_fifo self (put (with_members o rest) p role rec (Member_Worker (mkPoolWorker current Phase_Idle))) a
    = (self', (o', a')) ->
  result_ok (counts_are (counts rest)) n (held rest (queue o)) a self self' (State_Operating o', a').
Proof.
  intros Hst Hp Hpr Hfill. destruct (steady_rest n self o m rest Hst Hp Hpr) as (Hok & Hf & Hh).
  set (m' := mkMember role rec (Member_Worker (mkPoolWorker current Phase_Idle))).
  pose proof (insert_at_Permutation p m' rest) as Hi.
  assert (Hok1 : fifo_ok self (insert_at p m' rest) (queue o)).
  { eapply fifo_ok_perm; [symmetry; exact Hi|]. by apply fifo_ok_add. }
  destruct (fill_fifo_ok n _ (put (with_members o rest) p role rec (Member_Worker (mkPoolWorker current Phase_Idle)))
              _ _ _ _ Hok1 Hfill) as (Hk & Hok' & Hcons & Hcnt & Hacc & Hfair).
  cbn [put with_members members queue] in Hacc, Hcnt. change (mkMember _ _ _) with m' in Hacc, Hcnt.
  rewrite Hi, held_cons in Hacc. rewrite Hi in Hcnt.
  split; [by apply kept_config|exact Hacc|]. cbn [fst]. split_and!; auto.
  apply Hfair. intros x Hx. apply Hf. cbn [put with_members members] in Hx. change (mkMember _ _ _) with m' in Hx.
  rewrite Hi, busies_cons in Hx. by apply elem_of_app in Hx as [Hx%not_elem_of_nil|Hx].
Qed.

Lemma complete_assignment_ok n self o rest p role rec current a r stopped self' res :
  steady n self o -> members o ≡ₚ busy_member role rec current a :: rest ->
  complete_assignment self (with_members o rest) p role rec current (assigned_customer a) r stopped = (self', res) ->
  result_ok startups_settled n (held (members o) (queue o)) fifo_cont self self' res.
Proof.
  intros Hst Hp. unfold complete_assignment.
  destruct (steady_rest n self o _ rest Hst Hp eq_refl) as (_ & _ & Hh).
  assert (Ha : accounted (held (members o) (queue o)) fifo_cont (held rest (queue o))
    (answers (job_customer (assigned_customer a)) (Fifo_Completed (job_id (assigned_customer a)) role r) fifo_cont)).
  { rewrite Hh. apply (accounted_answers _ (assigned_customer a)); [apply replies_cont|done]. }
  destruct stopped as [stopped|].
  - intros Hr. by eapply recovered_ok.
  - destruct (fill_fifo _ _ _) as [self1 [o1 a1]] eqn:Hfill. intros [= <- <-].
    eapply result_ok_from; [exact Ha|apply config_refl|].
    eapply steady_counts; [exact Hst|exact Hp|done..|]. by eapply (idle_fill_counts n self o _ rest).
Qed.

Lemma interrupt_assignment_ok n self o rest p role rec current a stopped late self' res :
  steady n self o -> n = next_assignment (assignments self.2) ->
  members o ≡ₚ busy_member role rec current a :: rest ->
  interrupt_assignment self (with_members o rest) p role rec current (assigned_customer a) stopped late = (self', res) ->
  result_ok startups_settled n (held (members o) (queue o)) fifo_cont self self' res.
Proof.
  intros Hst Hn Hp. unfold interrupt_assignment.
  destruct (steady_rest n self o _ rest Hst Hp eq_refl) as (_ & _ & Hh).
  set (a0 := match late with Some _ => _ | None => _ end).
  assert (Ha0 : forall J, accounted J fifo_cont J a0).
  { intros J. subst a0. destruct late; [by apply accounted_diagnosed|apply accounted_refl]. }
  assert (Hr0 : replies a0 = []) by (subst a0; destruct late; apply replies_cont).
  destruct (interruption self.2).
  - intros Hr. eapply recovered_ok; [exact Hst|exact Hp|done|done|done| |exact Hr].
    rewrite Hh. eapply accounted_trans; [apply Ha0|].
    by apply (accounted_answers _ (assigned_customer a)).
  - intros Hr. eapply requeued_ok; [exact Hst|exact Hn|exact Hp|done|done|done|done|apply Ha0|exact Hr].
Qed.

(** One handler that took the member [m] out and continues with it. *)
Lemma accept_assignment_receipt_ok n self o receipt :
  steady n self o -> n = next_assignment (assignments self.2) ->
  handled n self o (accept_assignment_receipt self o receipt).
Proof.
  intros Hst Hn. unfold accept_assignment_receipt.
  destruct (take_at _ _) as [[[p m] rest]|] eqn:Ht; [|by split_and!; auto using config_refl].
  pose proof (take_at_Permutation _ _ _ _ _ Ht) as Hp. apply take_at_Some in Ht as (_ & Hw & _).
  destruct m as [role rec [|[current []]| |]]; try done.
  match goal with |- context [accept_receipt ?a _] => pose proof (accept_receipt_spec a receipt) as Hspec;
    destruct (accept_receipt a receipt) as [[a'|j r stopped|j stopped late]|[a' receipt']] end.
  - destruct Hspec. eapply replace_result; [exact Hst|exact Hp|by apply busy_weight|done].
  - subst j. destruct (complete_assignment _ _ _ _ _ _ _ _ _) as [self' res] eqn:Hr.
    by eapply complete_assignment_ok.
  - subst j. destruct (interrupt_assignment _ _ _ _ _ _ _ _ _) as [self' res] eqn:Hr.
    by eapply interrupt_assignment_ok.
  - destruct Hspec. eapply replace_handled; [exact Hst|exact Hp|by apply busy_weight].
Qed.

Lemma pool_accept_completion_ok n self o child completion :
  steady n self o -> handled n self o (pool_accept_completion self o child completion).
Proof.
  intros Hst. unfold pool_accept_completion.
  destruct (take_at _ _) as [[[p m] rest]|] eqn:Ht; [|by split_and!; auto using config_refl].
  pose proof (take_at_Permutation _ _ _ _ _ Ht) as Hp. apply take_at_Some in Ht as (_ & Hw & _).
  destruct m as [role rec [|[current []]| |]]; try done.
  match goal with |- context [accept_completion ?a _] => pose proof (accept_completion_spec a completion) as Hspec;
    destruct (accept_completion a completion) as [[a'|j r stopped]|[a' completion']] end.
  - destruct Hspec. eapply replace_result; [exact Hst|exact Hp|by apply busy_weight|done].
  - subst j. destruct (complete_assignment _ _ _ _ _ _ _ _ _) as [self' res] eqn:Hr.
    by eapply complete_assignment_ok.
  - destruct Hspec. eapply replace_handled; [exact Hst|exact Hp|by apply busy_weight].
Qed.

Lemma reserve_one_spec self self' id : reserve_one self = (self', id) ->
  kept self self' /\ assignments self'.2 = assignments self.2.
Proof. unfold reserve_one. destruct self as [k p]. destruct (reserve _ _) as [s i]. by intros [= <- <-]. Qed.

Lemma diagnose_result n self o e :
  steady n self o ->
  result_ok startups_settled n (held (members o) (queue o)) fifo_cont self self (diagnose self (State_Operating o) e).
Proof. intros []. split; [apply config_refl|apply accounted_diagnose|by split_and!]. Qed.

Lemma result_then_shutdown P Q n J a0 self self1 o1 a1 self2 r2 :
  result_ok P n J a0 self self1 (State_Operating o1, a1) -> begin_shutdown self1 o1 a1 = (self2, r2) ->
  result_ok Q n J a0 self self2 r2.
Proof.
  intros [Rc Ra (Hok & _)] Hb. eapply result_ok_from; [exact Ra|exact Rc|].
  by eapply begin_shutdown_result.
Qed.

Lemma replace_diagnose n self o m m' rest p e :
  steady n self o -> members o ≡ₚ m :: rest -> same_weight m m' ->
  result_ok startups_settled n (held (members o) (queue o)) fifo_cont self self
    (diagnose self (State_Operating (with_members (with_members o rest) (insert_at p m' rest))) e).
Proof.
  intros Hst Hp Hw. destruct (steady_replace n self o m m' rest p (cursor o) Hst Hp Hw) as [Hst' Hh].
  eapply result_ok_perm; [exact Hh|]. exact (diagnose_result n self _ e Hst').
Qed.

Lemma requeue_fair n self o m rest j role :
  steady n self o -> n = next_assignment (assignments self.2) -> members o ≡ₚ m :: rest ->
  fair n (requeue (with_members o rest) j role).
Proof.
  intros Hst Hn Hp x Hx Hnot. exfalso. apply Hnot.
  pose proof (ok_assigned _ _ _ (fifo_ok_perm _ _ _ _ Hp (steady_ok _ _ _ Hst))) as Has.
  rewrite list.Forall_forall in Has. rewrite Hn. apply Has. rewrite busies_cons, elem_of_app. by right.
Qed.

Lemma reject_assignment_delivery_ok n self o item reason :
  steady n self o -> n = next_assignment (assignments self.2) ->
  stepped n self o (reject_assignment_delivery self o item reason).
Proof.
  intros Hst Hn. unfold reject_assignment_delivery.
  destruct (take_at _ _) as [[[p m] rest]|] eqn:Ht; [|by apply diagnose_result].
  pose proof (take_at_Permutation _ _ _ _ _ Ht) as Hp. apply take_at_Some in Ht as (_ & Hw & _).
  destruct m as [role rec [|[current []]| |]]; try done.
  destruct (reserve_one self) as [self1 id] eqn:Hres.
  destruct (reserve_one_spec _ _ _ Hres) as [Hk Has]. pose proof (steady_kept n _ _ o Hk Has Hst) as Hst1.
  rewrite <- Has in Hn. apply (result_ok_from _ _ (held (members o) (queue o)) fifo_cont self1);
    [apply accounted_refl|by apply kept_config|]. clear Hst Hk Has Hres.
  destruct id as [shutdown|].
  2: { unfold diagnose. destruct (begin_shutdown _ _ _) as [self' r] eqn:Hb.
       eapply result_then_shutdown; [|exact Hb]. by apply (diagnose_result n self1 o). }
  destruct item as [target returned receipt]. cbn [assign_into_parts assign_target assign_assignment assign_receipt].
  match goal with |- context [PoolAssignment.accept_rejection ?a _] =>
    pose proof (accept_rejection_spec a returned) as Hspec;
    destruct (PoolAssignment.accept_rejection a returned) as [[j stopped|j asg c stopped]|[a' returned']] end.
  - subst j. destruct stopped as [stopped|].
    + destruct (FifoPool.recover_worker _ _ _ _ _ _ _ _) as [self' r] eqn:Hr.
      eapply requeued_ok; [exact Hst1|exact Hn|exact Hp|done|done|done|done|apply accounted_refl|exact Hr].
    + cbn [request_worker_shutdown].
      destruct (fifo_ok_requeue self1 _ rest (queue o) _ _ (Some role)
                  (fifo_ok_perm _ _ _ _ Hp (steady_ok _ _ _ Hst1)) eq_refl eq_refl) as [Hok2 Hh].
      destruct (fill_fifo _ _ _) as [self2 [o2 a2]] eqn:Hfill. cbn [fst snd].
      eapply steady_counts; [exact Hst1|exact Hp|done..|].
      eapply (result_ok_perm _ _ (held rest _)); [rewrite Hh, Hp; done|].
      eapply (result_ok_from _ _ _ (on_shutdowns (append_one (shutdown_request current shutdown)) fifo_cont));
        [by apply accounted_same|apply config_refl|].
      eapply (fill_result _ n self1 (requeue (with_members o rest) (assigned_customer a) role));
        [| |by eapply requeue_fair|apply config_refl|exact Hfill|done]; [|done].
      by apply fifo_ok_add.
  - subst j. destruct (steady_rest n self1 o _ rest Hst1 Hp eq_refl) as (Hok & Hf & Hh).
    set (a3 := diagnosed self1 _ _).
    assert (Ha : accounted (held (members o) (queue o)) fifo_cont (held rest (queue o)) a3).
    { rewrite Hh. eapply accounted_trans; [|by apply accounted_diagnosed].
      eapply accounted_trans; [|by apply accounted_diagnosed].
      apply (accounted_answers _ (assigned_customer a)); [apply replies_cont|done]. }
    destruct stopped as [stopped|].
    + destruct (FifoPool.recover_worker _ _ _ _ _ _ _ _) as [self2 [s2 a2]] eqn:Hr.
      assert (Hres : result_ok startups_settled n (held (members o) (queue o)) fifo_cont self1 self2 (s2, a2)).
      { eapply recovered_ok; [exact Hst1|exact Hp|done|done|done|exact Ha|exact Hr]. }
      destruct s2 as [|o2| | |]; try exact Hres.
      destruct (begin_shutdown self2 o2 a2) as [self3 r3] eqn:Hb. by eapply result_then_shutdown.
    + cbn [request_worker_shutdown]. destruct (begin_shutdown _ _ _) as [self2 r2] eqn:Hb.
      eapply result_ok_from; [exact Ha|apply config_refl|].
      eapply (result_ok_from _ _ _ (on_shutdowns (append_one (shutdown_request current shutdown)) a3));
        [by apply accounted_same|apply config_refl|].
      eapply (shutdown_result _ n self1 (with_members o rest)); [| |exact Hb]; [by apply fifo_ok_add|done].
  - destruct Hspec. eapply replace_diagnose; [exact Hst1|exact Hp|by apply busy_weight].
Qed.

End FifoService.
