(* ===== verification/FifoLifecycle.v ===== *)
(** * Stops, initialization, startup, creations and submissions

    The remaining handlers of an operating FIFO pool, with the same obligations
    as in FifoHandlers.v, and one step of it. *)

From stdpp Require Import base list list_numbers option numbers sorting.
From S2P Require Import Prelude Effects BTreeMap Timers Restart Termination Settlement Interpretation Creation Workers.
From S2P Require Import WorkerPreparation WorkerStartup ProxyWorker PoolAssignment PoolPolicy PoolWorker PoolMembers.
From S2P Require Import PoolDrain FifoProtocol FifoShutdown FifoPool.
From S2P Require Import FifoInvariant FifoHandlers.

Section FifoLifecycle.
  Context `{FT : FifoTypes} `{RL : !RouteLaws Customer FifoOutcome CustomerSends}.

Abbreviation fifo_ok := (fifo_inv awaited).
Abbreviation worker_member role rec current ph := (mkMember role rec (Member_Worker (mkPoolWorker current ph))).

Definition anything (_ : Self) (_ : FifoOperating) : Prop := True.

(** A member is replaced by one that holds no more and is no more idle. *)
Lemma replace_any n self o m m' rest p a a' :
  steady n self o -> members o ≡ₚ m :: rest -> lighter m m' -> busy m' = busy m -> idle m' = idle m ->
  same_account a a' ->
  result_ok anything n (held (members o) (queue o)) a self self
    (State_Operating (with_members (with_members o rest) (insert_at p m' rest)), a').
Proof.
  intros [Hok Hc Hf Hs] Hp Hl Hb Hi Ha. pose proof (insert_at_Permutation p m' rest) as Hperm.
  assert (Hbs : busies (insert_at p m' rest) ≡ₚ busies (members o)) by (by rewrite Hperm, Hp, !busies_cons, Hb).
  split; [apply config_refl| |]; cbn [fst snd state_jobs with_members members queue].
  - assert (Hh : held (insert_at p m' rest) (queue o) ≡ₚ held (members o) (queue o)) by (unfold held; by rewrite Hbs).
    rewrite Hh. by apply accounted_same.
  - split_and!; [| | |done].
    + eapply fifo_ok_perm; [symmetry; exact Hperm|]. eapply fifo_ok_lighter; [exact Hl|]. by eapply fifo_ok_perm.
    + destruct Hc as [Hq|Hid]; [by left|right]. cbn [with_members members]. rewrite Hperm.
      rewrite Hp in Hid. simpl in *. lia.
    + intros x Hx. apply Hf. cbn [with_members members] in Hx. by rewrite <- Hbs.
Qed.

(** ** Stops of workers *)

Lemma finish_worker_shutdown_ok n self o m rest p role rec current shutdown stopped self' r :
  steady n self o -> members o ≡ₚ m :: rest -> neutral m -> preparing m = 0 ->
  finish_worker_shutdown self (with_members o rest) p role rec current shutdown stopped = (self', r) ->
  result_ok startups_settled n (held (members o) (queue o)) fifo_cont self self' r.
Proof.
  intros Hst Hp Hn Hpr. unfold finish_worker_shutdown. intros Hr.
  destruct (steady_rest n self o m rest Hst Hp Hpr) as (_ & _ & Hh). rewrite (neutral_busy _ Hn) in Hh.
  eapply recovered_ok; [exact Hst|exact Hp|exact Hpr|apply Hn|apply Hn| |exact Hr].
  rewrite Hh. destruct shutdown; [apply accounted_refl|by apply accounted_diagnosed].
Qed.

Lemma pre_ready_ok n self o m rest p role rec previous stopped a self' r :
  steady n self o -> members o ≡ₚ m :: rest -> busy m = [] -> preparing m = 0 ->
  accounted (held rest (queue o)) fifo_cont (held rest (queue o)) a ->
  continue_after_pre_ready_stop self (with_members o rest) p role rec previous stopped a = (self', r) ->
  result_ok startups_settled n (held (members o) (queue o)) fifo_cont self self' r.
Proof.
  intros Hst Hp Hb Hpr Ha Hr. destruct (steady_rest n self o m rest Hst Hp Hpr) as (Hok & Hf & Hh).
  rewrite Hb in Hh. apply (result_ok_perm _ _ (held rest (queue o))); [by rewrite Hh|].
  eapply result_ok_from; [exact Ha|apply config_refl|].
  by eapply (continue_after_pre_ready_stop_ok n self (with_members o rest)).
Qed.

Lemma join_stopping_weight role rec current j j' :
  same_weight (worker_member role rec current (Phase_Stopping j)) (worker_member role rec current (Phase_Stopping j')).
Proof. done. Qed.

Lemma accept_worker_stop_ok n self o stopped :
  steady n self o -> n = next_assignment (assignments self.2) ->
  handled n self o (accept_worker_stop self o stopped).
Proof.
  intros Hst Hn. unfold accept_worker_stop.
  destruct (take_at _ _) as [[[p m] rest]|] eqn:Ht; [|by split_and!; auto using config_refl].
  pose proof (take_at_Permutation _ _ _ _ _ Ht) as Hp. clear Ht.
  destruct m as [role rec [w|[current ph]|rc|]]; [|destruct ph as [i [s|]|permit plan|g [s|]|g [s|]| |a|j]| |].
  - destruct (creating_stopped w); [by eapply replace_handled|by eapply replace_result].
  - by eapply replace_handled.
  - by eapply replace_result.
  - destruct (continue_after_pre_ready_stop _ _ _ _ _ _ _ _) as [self' r] eqn:Hr.
    eapply pre_ready_ok; [exact Hst|exact Hp|done|done| |exact Hr]. by apply accounted_diagnosed.
  - by eapply replace_handled.
  - by eapply replace_result.
  - by eapply replace_handled.
  - by eapply replace_result.
  - destruct (FifoPool.recover_worker _ _ _ _ _ _ _ _) as [self' r] eqn:Hr.
    eapply recovered_ok; [exact Hst|exact Hp|done|done|done| |exact Hr].
    destruct (steady_rest n self o _ rest Hst Hp eq_refl) as (_ & _ & Hh). rewrite Hh. apply accounted_refl.
  - pose proof (accept_exit_spec a stopped) as Hspec.
    destruct (PoolAssignment.accept_worker_exit a stopped) as [[a'|j s late]|[a' s]].
    + destruct Hspec. eapply replace_result; [exact Hst|exact Hp|by apply busy_weight|done].
    + subst j. destruct (interrupt_assignment _ _ _ _ _ _ _ _ _) as [self' r] eqn:Hr.
      by eapply interrupt_assignment_ok.
    + destruct Hspec. eapply replace_handled; [exact Hst|exact Hp|by apply busy_weight].
  - destruct (join_stopped j stopped _) as [[[shutdown s]|j']|[j' s]].
    + destruct (finish_worker_shutdown _ _ _ _ _ _ _ _) as [self' r] eqn:Hr.
      by eapply finish_worker_shutdown_ok.
    + by eapply replace_result.
    + by eapply replace_handled.
  - by eapply replace_handled.
  - by eapply replace_handled.
Qed.

Lemma pool_accept_worker_shutdown_ok n self o shutdown :
  steady n self o -> handled n self o (pool_accept_worker_shutdown self o shutdown).
Proof.
  intros Hst. unfold pool_accept_worker_shutdown.
  destruct (take_at _ _) as [[[p m] rest]|] eqn:Ht; [|by split_and!; auto using config_refl].
  pose proof (take_at_Permutation _ _ _ _ _ Ht) as Hp. apply take_at_Some in Ht as (_ & Hw & _).
  destruct m as [role rec [|[current [| | | | | |j]]| |]]; try done.
  destruct (join_settled j shutdown) as [[[sh s]|j']|[j' sh]].
  - destruct (finish_worker_shutdown _ _ _ _ _ _ _ _) as [self' r] eqn:Hr. by eapply finish_worker_shutdown_ok.
  - by eapply replace_result.
  - by eapply replace_handled.
Qed.

(** ** Initialization and startup reports *)

Lemma for_members_Some {R} (body : nat -> Member -> list Member -> option R) l positions r :
  for_members body l positions = Some r ->
  exists p m, l !! p = Some m /\ body p m (base.delete p l) = Some r.
Proof.
  induction positions as [|p positions IH]; simpl; [done|]. destruct (l !! p) as [m|] eqn:Hm; [|done].
  destruct (body p m _) as [r'|] eqn:Hb; [|done]. intros [= ->]. eauto.
Qed.

Lemma initialization_body_ok n self o input p m rest self' r :
  steady n self o -> members o ≡ₚ m :: rest ->
  initialization_body self o input p m rest = Some (self', r) ->
  result_ok startups_settled n (held (members o) (queue o)) fifo_cont self self' r.
Proof.
  intros Hst Hp. destruct m as [role rec [|[current []]| |]]; try done.
  cbn [initialization_body]. case_bool_decide; [|done].
  destruct stopped as [stopped|]; [|destruct input as [|w0 i0 plan f|w0 i0 plan s]; [done| |]].
  - intros [= Hr]. eapply pre_ready_ok; [exact Hst|exact Hp|done|done| |exact Hr]. by apply accounted_diagnosed.
  - set (a0 := diagnosed self _ fifo_cont).
    assert (Ha0 : accounted (held (members o) (queue o)) fifo_cont (held (members o) (queue o)) a0)
      by (by apply accounted_diagnosed).
    destruct (reserve_one self) as [self1 id] eqn:Hres.
    destruct (reserve_one_spec _ _ _ Hres) as [Hk Has]. pose proof (steady_kept n _ _ o Hk Has Hst) as Hst1.
    destruct id as [shutdown|]; intros [= Hr].
    + subst. eapply result_ok_from; [apply accounted_refl|by apply kept_config|].
      eapply (result_ok_from _ _ _ a0); [exact Ha0|apply config_refl|]. by eapply replace_result.
    + eapply result_ok_from; [apply accounted_refl|by apply kept_config|].
      eapply (result_ok_from _ _ _ a0); [exact Ha0|apply config_refl|].
      eapply (shutdown_result _ n self1 (with_members o rest)); [| |exact Hr].
      * cbn [with_members members queue]. eapply fifo_ok_perm; [exact Hp|apply Hst1].
      * cbn [with_members members queue]. by rewrite Hp.
  - case_bool_decide; [|done]. intros [= Hr].
    eapply pre_ready_ok; [exact Hst|exact Hp|done|done| |exact Hr]. by apply accounted_diagnosed.
Qed.

Lemma for_members_ok n self o positions (body : nat -> Member -> list Member -> option (Self * (PoolState * FifoActions))) self' r :
  (forall p m rest self' r, members o ≡ₚ m :: rest -> body p m rest = Some (self', r) ->
     result_ok startups_settled n (held (members o) (queue o)) fifo_cont self self' r) ->
  for_members body (members o) positions = Some (self', r) ->
  result_ok startups_settled n (held (members o) (queue o)) fifo_cont self self' r.
Proof.
  intros Hbody (p & m & Hm & Hb)%for_members_Some. eapply Hbody; [|exact Hb]. by apply delete_Permutation.
Qed.

Lemma with_members_same o l : members o = l -> with_members o l = o.
Proof. intros <-. by destruct o. Qed.

Lemma accept_initialization_ok n self o input :
  steady n self o -> handled n self o (accept_initialization self o input).
Proof.
  intros Hst. unfold accept_initialization.
  assert (Hloop : handled n self o
    match for_members (initialization_body self o input) (members o) (seq 0 (length (members o))) with
    | Some (self, res) => (self, Ok res) | None => (self, Err (o, input)) end).
  { destruct (for_members _ _ _) as [[self' r]|] eqn:Hf; [|by split_and!; auto using config_refl].
    eapply for_members_ok; [|exact Hf]. intros. by eapply initialization_body_ok. }
  destruct (take_at _ _) as [[[p m] rest]|] eqn:Ht; [|done].
  pose proof (take_at_Permutation _ _ _ _ _ Ht) as Hp. pose proof (reinserted _ _ _ _ _ Ht) as Hback.
  pose proof (member_initialization_spec m input) as Hspec.
  destruct (PoolWorker.admit_initialization m input) as [m'|[m' input']].
  - destruct Hspec as (B & B' & I & I' & Hl & _).
    destruct (authorize_waiting _ _ _) as [self1 [o1 a1]] eqn:Hau. cbn [handled].
    eapply authorize_result; [|exact Hau].
    apply (replace_any n self o m m' rest p fifo_cont); try done; congruence.
  - destruct Hspec as [-> ->]. rewrite Hback, with_members_same by done. exact Hloop.
Qed.

Lemma return_startup_ok n self o rest p role rec current ph a self' r :
  steady n self o -> members o ≡ₚ worker_member role rec current ph :: rest ->
  lighter (worker_member role rec current ph) (worker_member role rec current (Phase_Stopping (AwaitingBoth (mkShutdownId 0)))) ->
  busy (worker_member role rec current ph) = [] -> idle (worker_member role rec current ph) = 0 ->
  accounted (held (members o) (queue o)) fifo_cont (held (members o) (queue o)) a ->
  return_startup self (with_members o rest) p role rec current ph a = (self', r) ->
  result_ok startups_settled n (held (members o) (queue o)) fifo_cont self self' r.
Proof.
  intros Hst Hp Hl Hb Hi Ha. unfold return_startup.
  destruct (reserve_one self) as [self1 id] eqn:Hres.
  destruct (reserve_one_spec _ _ _ Hres) as [Hk Has]. pose proof (steady_kept n _ _ o Hk Has Hst) as Hst1.
  intros Hr. eapply result_ok_from; [exact Ha|by apply kept_config|]. destruct id as [shutdown|].
  - cbn [request_worker_shutdown] in Hr. destruct (authorize_waiting _ _ _) as [self2 [o2 a2]] eqn:Hau.
    injection Hr as <- <-. eapply authorize_result; [|exact Hau].
    apply (replace_any n self1 o (worker_member role rec current ph)); try done.
    destruct Hl as [? ? ? ?]. split; done.
  - eapply (shutdown_result _ n self1 (with_members o rest)); [| |exact Hr]; cbn [with_members members queue].
    + eapply fifo_ok_perm; [exact Hp|apply Hst1].
    + by rewrite Hp.
Qed.

Lemma startup_body_ok n self o input p m rest self' r :
  steady n self o -> members o ≡ₚ m :: rest ->
  startup_body self o input p m rest = Some (self', r) ->
  result_ok startups_settled n (held (members o) (queue o)) fifo_cont self self' r.
Proof.
  intros Hst Hp. destruct m as [role rec [|[current ph]| |]]; try done.
  cbn [startup_body]. case_bool_decide; [|done]. destruct input as [w g outcome]. cbn [startup_into_parts].
  set (a0 := diagnosed self _ fifo_cont).
  assert (Ha0 : forall J, accounted J fifo_cont J a0) by (intros; by apply accounted_diagnosed).
  assert (Hresume : forall stopped, busy (worker_member role rec current ph) = [] ->
    Some (continue_after_returned_startup self (with_members o rest) p role rec (attempt current) stopped w g outcome)
      = Some (self', r) ->
    result_ok startups_settled n (held (members o) (queue o)) fifo_cont self self' r).
  { intros stopped Hb [= Hr]. eapply pre_ready_ok; [exact Hst|exact Hp|exact Hb|by destruct ph|apply Ha0|exact Hr]. }
  assert (Hsame : Some (self, (State_Operating (put (with_members o rest) p role rec
      (Member_Worker (mkPoolWorker current ph))), a0)) = Some (self', r) ->
    result_ok startups_settled n (held (members o) (queue o)) fifo_cont self self' r).
  { intros [= <- <-]. eapply result_ok_from; [apply Ha0|apply config_refl|]. by eapply replace_result. }
  destruct ph as [| |g' [stopped|]|g' [stopped|]| | |]; try done; (case_bool_decide; [|done]).
  - by apply Hresume.
  - intros [= Hr]. eapply return_startup_ok; [exact Hst|exact Hp| |done|done|apply Ha0|exact Hr].
    split; [by left|done|apply Nat.le_0_l..].
  - destruct outcome; first [exact Hsame|by apply Hresume].
  - destruct outcome; try exact Hsame; intros [= Hr];
      (eapply return_startup_ok; [exact Hst|exact Hp| |done|done|apply Ha0|exact Hr];
       split; [by left|done|apply Nat.le_0_l..]).
Qed.

Lemma accept_startup_ok n self o input :
  steady n self o -> handled n self o (accept_startup self o input).
Proof.
  intros Hst. unfold accept_startup.
  assert (Hloop : handled n self o
    match for_members (startup_body self o input) (members o) (seq 0 (length (members o))) with
    | Some (self, res) => (self, Ok res) | None => (self, Err (o, input)) end).
  { destruct (for_members _ _ _) as [[self' r]|] eqn:Hf; [|by split_and!; auto using config_refl].
    eapply for_members_ok; [|exact Hf]. intros. by eapply startup_body_ok. }
  destruct (take_at _ _) as [[[p m] rest]|] eqn:Ht; [|done].
  pose proof (take_at_Permutation _ _ _ _ _ Ht) as Hp. pose proof (reinserted _ _ _ _ _ Ht) as Hback.
  pose proof (member_startup_spec m input) as Hspec.
  destruct (PoolWorker.admit_startup m input) as [m'|[m' input']].
  2: { destruct Hspec as [-> ->]. rewrite Hback, with_members_same by done. exact Hloop. }
  destruct Hspec as (_ & _ & [[Hw Hi]|((rec & current & ->) & Hpr & Hb)]).
  - rewrite Hi. destruct (authorize_waiting _ _ _) as [self1 [o1 a1]] eqn:Hau. cbn [handled].
    eapply authorize_result; [|exact Hau]. by apply (replace_result n self o m m' rest p fifo_cont).
  - cbn [is_idle member_state]. destruct (fill_fifo _ _ _) as [self1 [o1 a1]] eqn:Hfill.
    destruct (authorize_waiting self1 o1 a1) as [self2 [o2 a2]] eqn:Hau. cbn [handled].
    destruct (steady_rest n self o m rest Hst Hp Hpr) as (_ & _ & Hh). rewrite Hb in Hh.
    apply (result_ok_perm _ _ (held rest (queue o))); [by rewrite Hh|].
    eapply authorize_result; [|exact Hau]. eapply (idle_fill_counts n self o m rest p); [done..|exact Hfill].
Qed.

End FifoLifecycle.

Section FifoStep.
  Context `{FT : FifoTypes} `{RL : !RouteLaws Customer FifoOutcome CustomerSends}.

Abbreviation fifo_ok := (fifo_inv awaited).

(** ** Creation settlements *)

Lemma steady_weights n self o l' :
  steady n self o -> Forall2 same_weight (members o) l' ->
  steady n self (with_members o l') /\ held l' (queue o) = held (members o) (queue o).
Proof.
  intros [[Os Ok Od Oj Oa Osrc Ot Ost Obud] Hc Hf Hs] Hw.
  destruct (weights_sum _ _ Hw) as (B & I & S & U & P & T).
  assert (Hh : held l' (queue o) = held (members o) (queue o)) by (unfold held; by rewrite B).
  split; [|done]. split; cbn [with_members members queue].
  - split; rewrite ?Hh, ?B, ?P, ?T, ?S; auto.
  - destruct Hc as [Hq|Hi]; [by left|right]. cbn. congruence.
  - intros x Hx. apply Hf. cbn [with_members members] in Hx. by rewrite B in Hx.
  - unfold startups_settled in *. cbn [with_members members]. by rewrite S, U.
Qed.

Lemma reject_batch_loop_ok self rejection l : forall position returned done a ms a',
  reject_batch_loop self rejection position l returned done a = (ms, a') ->
  (exists l', ms = done ++ l' /\ Forall2 same_weight l l') /\ forall J, accounted J a J a'.
Proof.
  induction l as [|m l IH]; intros position returned done a ms a'; cbn [reject_batch_loop].
  { intros [= <- <-]. split; [exists []; by rewrite app_nil_r|intros; apply accounted_refl]. }
  destruct (bt_remove position returned) as [[creation returned']|].
  - destruct m as [role rec st].
    assert (Hstep : forall m' a1, same_weight (mkMember role rec st) m' -> (forall J, accounted J a J a1) ->
      reject_batch_loop self rejection (S position) l returned' (done ++ [m']) a1 = (ms, a') ->
      (exists l', ms = done ++ l' /\ Forall2 same_weight (mkMember role rec st :: l) l') /\
      forall J, accounted J a J a').
    { intros m' a1 Hw Ha Hr. destruct (IH _ _ _ _ _ _ Hr) as [(l' & -> & Hl) Hacc].
      split; [exists (m' :: l'); rewrite <- app_assoc; split; [done|by constructor]|].
      intros J. by eapply accounted_trans. }
    destruct st; apply Hstep; try done; intros; by apply accounted_diagnosed.
  - intros Hr. destruct (IH _ _ _ _ _ _ Hr) as [(l' & -> & Hl) Hacc]. split; [|done].
    exists (m :: l'). rewrite <- app_assoc. split; [done|by constructor].
Qed.

Lemma creations_loop_ok self l : forall position returned done failure a ms failure' a',
  creations_loop self position l returned done failure a = (ms, failure', a') ->
  (exists l', ms = done ++ l' /\ Forall2 same_weight l l') /\ forall J, accounted J a J a'.
Proof.
  induction l as [|m l IH]; intros position returned done failure a ms failure' a'; cbn [creations_loop].
  { intros [= <- <- <-]. split; [exists []; by rewrite app_nil_r|intros; apply accounted_refl]. }
  destruct (bt_remove position returned) as [[settlement returned']|].
  - assert (Hstep : forall m' f a1, same_weight m m' -> (forall J, accounted J a J a1) ->
      creations_loop self (S position) l returned' (done ++ [m']) f a1 = (ms, failure', a') ->
      (exists l', ms = done ++ l' /\ Forall2 same_weight (m :: l) l') /\ forall J, accounted J a J a').
    { intros m' f a1 Hw Ha Hr. destruct (IH _ _ _ _ _ _ _ _ Hr) as [(l' & -> & Hl) Hacc].
      split; [exists (m' :: l'); rewrite <- app_assoc; split; [done|by constructor]|].
      intros J. by eapply accounted_trans. }
    pose proof (admit_creation_spec m settlement) as Hw.
    destruct (PoolWorker.admit_creation m settlement); [destruct Hw as [Hw _]..|subst]; apply Hstep; try done;
      intros; first [by apply accounted_diagnosed|by apply accounted_same].
  - intros Hr. destruct (IH _ _ _ _ _ _ _ _ Hr) as [(l' & -> & Hl) Hacc]. split; [|done].
    exists (m :: l'). rewrite <- app_assoc. split; [done|by constructor].
Qed.

Lemma react_to_failure_ok n self o failure a J self' r :
  steady n self o -> accounted J fifo_cont (held (members o) (queue o)) a ->
  react_to_failure self o failure a = (self', r) ->
  result_ok startups_settled n J fifo_cont self self' r.
Proof.
  intros Hst Ha Hr. eapply result_ok_from; [exact Ha|apply config_refl|].
  destruct failure as [[]|]; cbn [react_to_failure] in Hr.
  - destruct (fill_fifo self o a) as [self1 [o1 a1]] eqn:Hfill.
    destruct (return_unrecoverable_jobs self1 o1 a1) as [o2 a2] eqn:Hret. injection Hr as <- <-.
    destruct Hst as [Hok Hc Hf Hs].
    destruct (fill_fifo_ok n _ _ _ _ _ _ Hok Hfill) as (Hk & Hok' & Hcons & Hcnt & Hacc & Hfair).
    eapply (settled_by_counts o self); [exact Hs|done|].
    eapply unrecoverable_result; [| |exact Hret]; [|by unfold counts_are; intros ? ->].
    split; [by apply kept_config|exact Hacc|]. by split_and!; auto.
  - by eapply begin_shutdown_result; [apply Hst|].
  - injection Hr as <- <-. by apply steady_result.
Qed.

Lemma reject_creations_ok n self o creations rejection :
  steady n self o -> handled n self o (reject_creations self o creations rejection).
Proof.
  intros Hst. unfold reject_creations, reject_creation_batch.
  destruct (creation_positions _ _) as [positions|]; [|by split_and!; auto using config_refl].
  destruct (reject_batch_loop _ _ _ _ _ _ _) as [ms a] eqn:Hloop.
  destruct (reject_batch_loop_ok _ _ _ _ _ _ _ _ _ Hloop) as [(l' & -> & Hw) Hacc].
  destruct (steady_weights n self o l' Hst Hw) as [Hst' Hh]. cbn [app] in *.
  destruct (react_to_failure _ _ _ _) as [self' r] eqn:Hr. cbn [handled].
  eapply react_to_failure_ok; [exact Hst'| |exact Hr]. cbn [with_members members queue]. rewrite Hh. apply Hacc.
Qed.

Lemma accept_creations_ok n self o workers :
  steady n self o -> handled n self o (accept_creations self o workers).
Proof.
  intros Hst. destruct workers as [settlements|creations reason|creations fault]; cbn [accept_creations].
  2, 3: by apply reject_creations_ok.
  destruct (mbind _ _) as [positions|]; [|by split_and!; auto using config_refl].
  destruct (creations_loop _ _ _ _ _ _ _) as [[ms failure] a] eqn:Hloop.
  destruct (creations_loop_ok _ _ _ _ _ _ _ _ _ _ Hloop) as [(l' & -> & Hw) Hacc].
  destruct (steady_weights n self o l' Hst Hw) as [Hst' Hh]. cbn [app] in *.
  destruct (react_to_failure _ _ _ _) as [self' r] eqn:Hr. cbn [handled].
  eapply react_to_failure_ok; [exact Hst'| |exact Hr]. cbn [with_members members queue]. rewrite Hh. apply Hacc.
Qed.

(** ** Submissions *)

(** Configuration is kept, and at most one job number is issued. *)
Record advanced (self self' : Self) : Prop := {
  advanced_limit : startup_limit self'.2 = startup_limit self.2;
  advanced_policy : same_policy (recovery self.2) (recovery self'.2);
  advanced_jobs : jobs self'.2 = jobs self.2 \/
    exists v, next_job (jobs self.2) = Some v /\ jobs self'.2 = mkJobSequence (checked_add u64_max v 1)
}.

Lemma config_advanced self self' : config_kept self self' -> advanced self self'.
Proof. intros [[] ?]. split; auto. Qed.

Lemma advanced_config self1 self2 self3 : advanced self1 self2 -> config_kept self2 self3 -> advanced self1 self3.
Proof.
  intros [H1 H2 H3] [[H4 H5] H6]. split; [congruence|by eapply same_policy_trans|by rewrite H5].
Qed.

(** The answer to a submission: refused with its payload, or accepted as one
    new job. *)
Definition submission_answered (self self' : Self) (submission : SubmissionId) (payload : Job) (customer : Customer)
  (J J' : list CustomerJob) (a : FifoActions) : Prop :=
  (exists reason, replies a = [(customer, Fifo_Rejected submission payload reason)] /\ J' ≡ₚ J) \/
  (exists j, job_customer j = customer /\ job_payload j = payload /\ J' ≡ₚ j :: J /\
     replies a = [(customer, Fifo_Accepted submission (job_id j))] /\
     next_job (jobs self.2) = Some (job_number (job_id j)) /\
     jobs self'.2 = mkJobSequence (checked_add u64_max (job_number (job_id j)) 1)).

Lemma replies_answers customer o : replies (answers customer o fifo_cont) = [(customer, o)].
Proof. unfold replies; simpl. by rewrite addressed_deliver. Qed.

Lemma set_jobs_2 self j :
  startup_limit (set_jobs self j).2 = startup_limit self.2 /\ recovery (set_jobs self j).2 = recovery self.2 /\
  restarts (set_jobs self j).2 = restarts self.2 /\ assignments (set_jobs self j).2 = assignments self.2 /\
  jobs (set_jobs self j).2 = j.
Proof. by destruct self. Qed.

Lemma set_jobs_same self : set_jobs self (jobs self.2) = self.
Proof. by destruct self as [? []]. Qed.

Lemma jobs_issued {W} self l q v :
  fifo_inv W self l q -> next_job (jobs self.2) = Some v ->
  fifo_inv W (set_jobs self (mkJobSequence (checked_add u64_max v 1))) l q.
Proof.
  intros [Os Ok Od Oj Oa Osrc Ot Ost Obud] Hv.
  destruct (set_jobs_2 self (mkJobSequence (checked_add u64_max v 1))) as (E1 & E2 & E3 & E4 & E5).
  split; rewrite ?E1, ?E2, ?E3, ?E4, ?E5; auto.
  eapply Forall_impl; [exact Oj|]. cbn beta. intros j [Hid Hb]. split; [done|]. rewrite Hv in Hb.
  cbn [next_job]. by apply below_checked_add.
Qed.

Lemma unassigned_fair {W} self l l' q q' c :
  fifo_inv W self l q -> busies l' ≡ₚ busies l ->
  fair (next_assignment (assignments self.2)) (mkOperating l' q' c).
Proof.
  intros Hok Hb x Hx Hnot. exfalso. apply Hnot. cbn [members] in Hx. rewrite Hb in Hx.
  pose proof (ok_assigned _ _ _ Hok) as Ha. rewrite list.Forall_forall in Ha. by apply Ha.
Qed.

Lemma new_job_fresh {W} self l q v payload customer :
  fifo_inv W self l q -> next_job (jobs self.2) = Some v ->
  let j := mkCustomerJob (mkJobId v) (mkOrdinal v) payload customer in
  (job_ordinal j ∉ (job_ordinal <$> held l q)) /\
  admissible (set_jobs self (mkJobSequence (checked_add u64_max v 1))) j.
Proof.
  intros Hok Hv j. split.
  - intros (j' & Hj' & Hin)%list_elem_of_fmap. pose proof (ok_jobs _ _ _ Hok) as Hj.
    rewrite list.Forall_forall in Hj. specialize (Hj _ Hin) as [_ Hb]. rewrite Hv in Hb. cbn in Hb, Hj'.
    unfold job_ordinal in *. cbn in *. lia.
  - unfold admissible. destruct (set_jobs_2 self (mkJobSequence (checked_add u64_max v 1))) as (_ & _ & _ & _ & ->).
    split; [done|]. apply below_next.
Qed.

Lemma clean_answers customer o : clean (answers customer o fifo_cont).
Proof. constructor. Qed.

Lemma accept_submission_ok n self o submission payload customer self' o' a' :
  steady n self o -> n = next_assignment (assignments self.2) ->
  accept_submission self o submission payload customer = (self', (o', a')) ->
  steady n self' o' /\ advanced self self' /\ clean a' /\
  submission_answered self self' submission payload customer
    (held (members o) (queue o)) (held (members o') (queue o')) a'.
Proof.
  intros Hst Hn. unfold accept_submission.
  assert (Href : forall self1 reason, steady n self1 o -> advanced self self1 ->
    steady n self1 o /\ advanced self self1 /\
    clean (answers customer (Fifo_Rejected submission payload reason) fifo_cont) /\
    submission_answered self self1 submission payload customer (held (members o) (queue o)) (held (members o) (queue o))
      (answers customer (Fifo_Rejected submission payload reason) fifo_cont)).
  { intros self1 reason Hs Hc. split_and!; auto using clean_answers. left. exists reason.
    by rewrite replies_answers. }
  destruct (recoverable_position o _); [|intros [= <- <- <-]; apply Href; auto using config_advanced, config_refl].
  pose proof (available_position_spec o) as Hav.
  destruct (available_position o) as [p|] eqn:Hp; [|destruct (negb _);
    [intros [= <- <- <-]; apply Href; auto using config_advanced, config_refl|]].
  all: unfold jobs_issue; destruct (next_job (jobs self.2)) as [v|] eqn:Hv.
  all: try (intros [= <- <- <-]; apply Href;
    rewrite set_jobs_same; auto using config_advanced, config_refl).
  all: set (self1 := set_jobs self (mkJobSequence (checked_add u64_max v 1)));
       set (j := mkCustomerJob (mkJobId v) (mkOrdinal v) payload customer).
  all: pose proof (jobs_issued _ _ _ _ (steady_ok _ _ _ Hst) Hv) as Hok1; fold self1 in Hok1.
  all: destruct (new_job_fresh _ _ _ _ payload customer (steady_ok _ _ _ Hst) Hv) as [Hfresh Hadm];
       fold j self1 in Hfresh, Hadm.
  all: assert (Hcfg : advanced self self1)
         by (destruct self; split; [done|apply same_policy_refl|right; by exists v]).
  all: assert (Hn1 : n = next_assignment (assignments self1.2)) by (by destruct self).
  all: assert (Hst1 : startups_settled self1 o)
         by (pose proof (steady_startups _ _ _ Hst) as Hs; by destruct self).
  - destruct (dispatch self1 o (mkQueuedJob j None)) as [self2 [o2 d]] eqn:Hd.
    destruct (dispatch_ok self1 o (mkQueuedJob j None) self2 o2 d n Hok1 Hd Hfresh Hadm) as (Hk & Hq & Hcnt & H).
    assert (Hempty : queue o = []).
    { destruct (steady_conserving _ _ _ Hst) as [|Hi]; [done|]. destruct Hav as (m & Hm & Hid).
      apply list_elem_of_lookup_2, (sum_list_with_elem idle) in Hm. unfold idle at 1 in Hm. rewrite Hid in Hm.
      simpl in Hm. lia. }
    destruct d as [act|q'|q'].
    + destruct H as (Hok2 & Hh & Hf). intros [= <- <- <-]. split_and!.
      * split; [done|left; congruence| |].
        -- apply Hf; [rewrite Hempty; constructor|]. apply Hst.
        -- unfold counts in Hcnt. injection Hcnt as C1 C2. unfold startups_settled in *.
           by rewrite C1, C2, (kept_limit _ _ Hk).
      * eapply advanced_config; [exact Hcfg|by apply kept_config].
      * constructor.
      * right. exists j. split_and!; try done; [apply (replies_answers customer)|].
        rewrite (kept_jobs _ _ Hk). by destruct self.
    + destruct H as (_ & _ & _ & Hno). congruence.
    + destruct H as (-> & -> & Hok2). intros [= <- <- <-]. apply Href.
      * split; [done|apply Hst|apply Hst|]. unfold startups_settled in *. by rewrite (kept_limit _ _ Hk).
      * eapply advanced_config; [exact Hcfg|by apply kept_config].
  - intros [= <- <- <-].
    destruct (fifo_ok_enqueue self1 (members o) (queue o) j None Hok1 Hfresh Hadm) as [Hok2 Hh].
    split_and!; [|exact Hcfg|constructor|].
    + split; cbn [with_queue members queue]; [exact Hok2|by right| |done].
      rewrite Hn1. by eapply unassigned_fair.
    + right. exists j. split_and!; try done; [apply (replies_answers customer)|by destruct self].
Qed.

End FifoStep.
