(* ===== verification/FifoRun.v ===== *)
(** * The drain and the runs of the FIFO pool

    A draining pool asks for nothing new, keeps account of the source, and
    every answer that one of its members waits for brings it strictly nearer to
    its end.  One step of [transition] in every state, runs from the
    construction of a pool, and what holds over all of them. *)

From stdpp Require Import base list list_numbers option numbers sorting.
From S2P Require Import Prelude Effects BTreeMap Timers Restart Termination Settlement Interpretation Creation Workers.
From S2P Require Import WorkerPreparation WorkerStartup ProxyWorker PoolAssignment PoolPolicy PoolWorker PoolMembers.
From S2P Require Import PoolDrain FifoProtocol FifoShutdown FifoPool.
From S2P Require Import FifoInvariant FifoHandlers FifoLifecycle.

Section FifoDrain.
  Context `{FT : FifoTypes} `{RL : !RouteLaws Customer FifoOutcome CustomerSends}.

(** Nothing new is asked of the host but shutdowns, timers and diagnostics. *)
Record quiet (a : FifoActions) : Prop := {
  quiet_creates : creates a = Creations_empty;
  quiet_observations : requests (worker_observations (sends a)) = [];
  quiet_initializations : requests (worker_initializations (sends a)) = [];
  quiet_startups : requests (worker_startups (sends a)) = [];
  quiet_assignments : worker_assignments (sends a) = [];
  quiet_preparations : worker_preparations (sends a) = [];
  quiet_schedules : restart_schedules (sends a) = []
}.

Lemma quiet_cont : quiet fifo_cont.
Proof. done. Qed.

Lemma quiet_diagnosed self c a : quiet a -> quiet (diagnosed self c a).
Proof. intros []. by split. Qed.

Lemma clean_diagnosed self c a : source_lost c = false -> clean a -> clean (diagnosed self c a).
Proof. intros Hc. by apply (acc_clean _ _ _ _ (accounted_diagnosed [] self c a Hc)). Qed.

(** Requests, answers and diagnostics of a step of the drain. *)
Record drain_actions (a : FifoActions) : Prop := {
  drain_quiet : quiet a;
  drain_clean : clean a;
  drain_replies : replies a = []
}.

Lemma drain_actions_cont : drain_actions fifo_cont.
Proof. split; [done|constructor|apply replies_cont]. Qed.

Lemma drain_actions_diagnosed self c a :
  source_lost c = false -> drain_actions a -> drain_actions (diagnosed self c a).
Proof. intros Hc []. split; [by apply quiet_diagnosed|by apply clean_diagnosed|done]. Qed.

Lemma drain_actions_shutdown r a : drain_actions a -> drain_actions (on_shutdowns (append_one r) a).
Proof. intros [[] ? ?]. by split. Qed.

Lemma drain_actions_become b a : drain_actions a -> drain_actions (set_become b a).
Proof. intros [[] ? ?]. by split. Qed.

Lemma drain_actions_diagnose self s e : drain_actions (diagnose self s e).2.
Proof. split; [done| |apply replies_cont]. constructor; [|done]. cbn. by destruct (diagnostics_to self.2). Qed.

(** A step of the drain that leaves fewer than [k] answers outstanding. *)
Record drained (k : nat) (self self' : Self) (r : PoolState * FifoActions) : Prop := {
  drained_config : config_kept self self';
  drained_actions : drain_actions r.2;
  drained_state : match r.1 with
                  | State_Draining l d => drain_ok self' l d /\ outstanding l d < k
                  | State_Stopped | State_ForcedRetirement _ _ => become_ r.2 = Stop the_Stopped
                  | _ => False
                  end
}.

Lemma continue_draining_ok k self self' l d a :
  config_kept self self' -> sum_list_with draining_source l = sources_out (recovery self'.2) ->
  Forall shutdown_requested l -> outstanding l d < k -> drain_actions a ->
  drained k self self' (continue_draining l d a).
Proof.
  intros Hc Hs Hr Hk Ha. unfold continue_draining.
  destruct d; try (by split; [done|by apply drain_actions_become|]);
    (destruct (any_waiting l) eqn:Hw; split; [done|done| |done|by apply drain_actions_become|done]; cbn; split; [by split|done]).
Qed.

Lemma drained_diagnose k self l d e :
  drain_ok self l d -> outstanding l d < k -> drained k self self (diagnose self (State_Draining l d) e).
Proof. intros Hok Hk. split; [apply config_refl|apply drain_actions_diagnose|done]. Qed.

Lemma drained_weaken k k' self self' r : k <= k' -> drained k self self' r -> drained k' self self' r.
Proof.
  intros Hk [Hc Ha Hs]. split; auto. destruct r as [[]]; cbn in *; try done. destruct Hs. split; [done|lia].
Qed.

(** The drain goes on with the workers that an answer left. *)
Lemma drained_progress k self l l' d a :
  drain_ok self l d -> progress k 0 l l' -> drain_actions a ->
  drained (S (outstanding l d) - k) self self (continue_draining l' d a).
Proof.
  intros [Ks Kr Kw Kd] Hp Ha. pose proof (progress_outstanding _ _ _ _ d Hp).
  destruct Hp as [Ps _ Pr]. apply continue_draining_ok; auto using config_refl; [congruence || lia|lia].
Qed.

(** ** Steps *)

Lemma retain_drained_actions self w a : drain_actions a -> drain_actions (retain_drained_worker self w a).
Proof.
  intros Ha. destruct w as [role st sh]. cbn [retain_drained_worker].
  assert (H : forall a1, drain_actions a1 -> drain_actions
    match sh with ShutdownAccepted _ => a1 | _ => diagnosed self (Diag_WorkerShutdownRejected role sh) a1 end).
  { intros a1 H1. destruct sh; [done|by apply drain_actions_diagnosed]. }
  apply H. destruct st as [[]|]; try done; by apply drain_actions_diagnosed.
Qed.

(** The answer among the inputs of a draining pool. *)
Definition answer_of (input : FifoEvent) : option PoolAnswer :=
  match input with
  | Event_WorkerCreationsSettled s => Some (Answer_Creations s)
  | Event_WorkerStopped s => Some (Answer_Stopped s)
  | Event_WorkerShutdownSettled r => Some (Answer_Shutdown r)
  | Event_WorkerPreparationStarted r => Some (Answer_PreparationStarted r)
  | Event_WorkerPreparationReturned r => Some (Answer_PreparationReturned r)
  | Event_RestartScheduleSettled r => Some (Answer_Schedule r)
  | _ => None
  end.

Definition answers_wait (w : RetiringWorker) (input : FifoEvent) : Prop :=
  match answer_of input with Some a => waits_for w a | None => False end.

(** A step never adds to what is outstanding, and an answer takes from it. *)
Definition drain_step (self : Self) (l : list RetiringWorker) (d : ShutdownDeadline) (answered : Prop)
  (self' : Self) (r : PoolState * FifoActions) : Prop :=
  drained (S (outstanding l d)) self self' r /\ (answered -> drained (outstanding l d) self self' r).

Lemma drain_step_strict self l d answered self' r :
  drained (S (outstanding l d) - 1) self self' r -> drain_step self l d answered self' r.
Proof.
  replace (S (outstanding l d) - 1) with (outstanding l d) by lia.
  intros H. split; [by eapply drained_weaken; [|exact H]; lia|done].
Qed.

Lemma drain_step_ignored self l d (answered : Prop) e :
  drain_ok self l d -> (answered -> False) ->
  drain_step self l d answered self (diagnose self (State_Draining l d) e).
Proof. intros Hok Hno. split; [apply drained_diagnose; [done|lia]|done]. Qed.

(** An answer was taken. *)
Lemma drain_step_progress self l l' d answered a :
  drain_ok self l d -> progress 1 0 l l' -> drain_actions a ->
  drain_step self l d answered self (continue_draining l' d a).
Proof. intros. by apply drain_step_strict, drained_progress. Qed.

Lemma accept_drain_stop_ok self l d s :
  drain_ok self l d ->
  drain_step self l d (awaited_by l (Answer_Stopped s)) self (accept_drain_stop self l d s).
Proof.
  intros Hok. unfold accept_drain_stop. pose proof (exit_progress l s) as Hspec.
  destruct (PoolWorker.accept_worker_exit l s) as [[[l' dep]|l']|[l' s']].
  - apply drain_step_progress; [done..|]. apply retain_drained_actions, drain_actions_cont.
  - destruct Hspec as [Hspec _]. apply drain_step_progress; [done..|apply drain_actions_cont].
  - destruct Hspec as (-> & -> & Hno). by apply drain_step_ignored.
Qed.

Lemma accept_drain_shutdown_ok self l d s :
  drain_ok self l d ->
  drain_step self l d (awaited_by l (Answer_Shutdown s)) self (accept_drain_shutdown self l d s).
Proof.
  intros Hok. unfold accept_drain_shutdown. pose proof (shutdown_progress l s) as Hspec.
  destruct (accept_worker_shutdown l s) as [[[l' dep]|l']|[l' s']].
  - apply drain_step_progress; [done..|]. apply retain_drained_actions, drain_actions_cont.
  - destruct Hspec as [Hspec _]. apply drain_step_progress; [done..|apply drain_actions_cont].
  - destruct Hspec as (-> & -> & Hno). by apply drain_step_ignored.
Qed.

Lemma accept_drain_schedule_ok self l d settled :
  drain_ok self l d ->
  drain_step self l d (awaited_by l (Answer_Schedule settled)) self (accept_drain_schedule self l d settled).
Proof.
  intros Hok. unfold accept_drain_schedule. pose proof (schedule_progress l settled) as Hspec.
  destruct (take_at _ _) as [[[p [role s]] rest]|].
  - destruct Hspec as (Hp & replacement & timer & ->). apply drain_step_progress; [done..|].
    apply drain_actions_diagnosed; [done|apply drain_actions_cont].
  - destruct (accept_schedule d settled) as [d' [[]|settled']] eqn:Hs.
    + apply accept_schedule_weight in Hs. apply drain_step_strict.
      apply continue_draining_ok; auto using config_refl, drain_actions_cont; [apply Hok|apply Hok|].
      unfold outstanding. lia.
    + apply accept_schedule_err in Hs as ->. by apply drain_step_ignored.
Qed.

Lemma accept_drain_deadline_ok self l d elapsed answered :
  drain_ok self l d -> (answered -> False) ->
  drain_step self l d answered self (accept_drain_deadline self l d elapsed).
Proof.
  intros Hok Hno. unfold accept_drain_deadline.
  destruct d as [|k|k|r|e]; cbn [accept_elapsed]; try (by apply drain_step_ignored).
  destruct (admit_elapsed k elapsed); [|by apply drain_step_ignored].
  apply drain_step_strict. split; [apply config_refl|apply drain_actions_become, drain_actions_cont|done].
Qed.

(** ** Initialization and startup reports *)

Lemma accept_drain_initialization_ok self l d input answered :
  drain_ok self l d -> (answered -> False) ->
  drain_step self l d answered self (accept_drain_initialization self l d input).
Proof.
  intros Hok Hno. unfold accept_drain_initialization. pose proof (initialization_progress l input) as Hspec.
  destruct (PoolWorker.accept_worker_initialization l input) as [l' report|l' departure role startup].
  - destruct Hspec as [->|[Hp Hw]]; [by apply drain_step_ignored|]. split; [|done].
    pose proof (progress_outstanding _ _ _ _ d Hp). destruct Hok as [Ks Kr Kw Kd], Hp as [Ps _ Pr].
    apply drained_diagnose; [|lia]. split; auto. lia.
  - apply drain_step_progress; [done..|].
    destruct departure; [apply retain_drained_actions|]; (apply drain_actions_diagnosed; [done|apply drain_actions_cont]).
Qed.

Lemma accept_drain_startup_ok self l d input answered :
  drain_ok self l d -> (answered -> False) ->
  drain_step self l d answered self (accept_drain_startup self l d input).
Proof.
  intros Hok Hno. unfold accept_drain_startup. pose proof (startup_progress l input) as Hspec.
  destruct (PoolWorker.accept_worker_startup l input) as [l'|l' role w g outcome|l' startup].
  - split; [|done]. apply (drained_progress 0); auto using drain_actions_cont.
  - split; [|done]. apply (drained_progress 0); auto.
    apply drain_actions_diagnosed; [done|apply drain_actions_cont].
  - subst l'. by apply drain_step_ignored.
Qed.

(** ** Preparations *)

(** The source is put away and its worker is drained. *)
Lemma source_back_step self l l' d source :
  drain_ok self l d -> progress 1 1 l l' ->
  exists r, restore_source (recovery self.2) source = (r, Ok ()) /\
    forall c answered, source_lost c = false -> drain_step self l d answered (set_recovery self r)
      (continue_draining l' d (diagnosed (set_recovery self r) c fifo_cont)).
Proof.
  intros Hok Hp. destruct (restored_progress _ _ _ _ _ source Hok Hp) as (r & Hrs & Hsame & Hsum).
  exists r. split; [done|]. intros c answered Hc. apply drain_step_strict.
  pose proof (progress_outstanding _ _ _ _ d Hp). destruct (set_recovery_2 self r) as (E1 & _ & E3 & _ & E5).
  apply continue_draining_ok; [by split; [|rewrite E5]|by rewrite E5| |lia|].
  - destruct Hok, Hp. auto.
  - apply drain_actions_diagnosed; [done|apply drain_actions_cont].
Qed.

Lemma accept_drain_preparation_start_ok self l d input self' r :
  drain_ok self l d -> accept_drain_preparation_start self l d input = (self', r) ->
  drain_step self l d (awaited_by l (Answer_PreparationStarted input)) self' r.
Proof.
  intros Hok. unfold accept_drain_preparation_start. pose proof (preparation_start_progress l input) as Hspec.
  destruct (accept_retiring_worker_preparation_start l input) as [[[l' failed]|l']|[l' input']].
  - destruct (source_back_step self l l' d (failed_source failed) Hok Hspec) as (rc & -> & Hstep).
    intros [= <- <-]. apply Hstep. by destruct (failed_fault failed).
  - intros [= <- <-]. apply drain_step_progress; auto using drain_actions_cont.
  - destruct Hspec as (-> & -> & Hno). intros [= <- <-]. by apply drain_step_ignored.
Qed.

Lemma accept_drain_preparation_return_ok self l d input self' r :
  drain_ok self l d -> accept_drain_preparation_return self l d input = (self', r) ->
  drain_step self l d (awaited_by l (Answer_PreparationReturned input)) self' r.
Proof.
  intros Hok. unfold accept_drain_preparation_return. pose proof (preparation_return_progress l input) as Hspec.
  destruct (accept_retiring_worker_preparation_return l input) as [[l' [prepared|role rec previous stopped source error]]|[l' input']].
  - destruct prepared as [role rec previous stopped source submission].
    destruct (source_back_step self l l' d source Hok Hspec) as (rc & -> & Hstep). intros [= <- <-]. by apply Hstep.
  - destruct Hspec as [Hp He].
    destruct (source_back_step self l l' d source Hok Hp) as (rc & -> & Hstep). intros [= <- <-]. apply Hstep.
    by destruct error.
  - destruct Hspec as (-> & -> & Hno). intros [= <- <-]. by apply drain_step_ignored.
Qed.

(** ** Creation settlements *)

(** The retiring workers [l] and the actions [a], [k] answers later; [f] is the
    cause of a forced retirement. *)
Record joined (k : nat) (self self' : Self) (l l' : list RetiringWorker) (a a' : FifoActions)
  (f : option ForcedRetirementCause) : Prop := {
  joined_config : config_kept self self';
  joined_recovery : recovery self'.2 = recovery self.2;
  joined_actions : drain_actions a -> drain_actions a';
  joined_source : sum_list_with draining_source l' = sum_list_with draining_source l;
  joined_weight : sum_list_with retiring_weight l' + k <= sum_list_with retiring_weight l;
  joined_requested : f = None -> Forall shutdown_requested l -> Forall shutdown_requested l'
}.

Lemma joined_refl self l a f : joined 0 self self l l a a f.
Proof. split; auto using config_refl. lia. Qed.

Lemma joined_trans k1 k2 s1 s2 s3 l1 l2 l3 a1 a2 a3 f1 f2 :
  (f2 = None -> f1 = None) -> joined k1 s1 s2 l1 l2 a1 a2 f1 -> joined k2 s2 s3 l2 l3 a2 a3 f2 ->
  joined (k1 + k2) s1 s3 l1 l3 a1 a3 f2.
Proof.
  intros Hf [] []. split; [by eapply config_trans|congruence|auto|congruence|lia|auto].
Qed.

Lemma joined_fewer k k' s1 s2 l1 l2 a1 a2 f : k <= k' -> joined k' s1 s2 l1 l2 a1 a2 f -> joined k s1 s2 l1 l2 a1 a2 f.
Proof. intros Hk []. split; auto. lia. Qed.

Lemma joined_diagnosed k self self' l l' a a' c f :
  source_lost c = false -> joined k self self' l l' (diagnosed self c a) a' f -> joined k self self' l l' a a' f.
Proof. intros Hc []. split; auto. intros. by apply joined_actions0, drain_actions_diagnosed. Qed.

(** A worker whose creation is settled is retained, or given up. *)
Lemma retain_worker_joined self custody workers a self' f workers' a' w rest :
  draining_source w = 0 -> 3 <= retiring_weight w ->
  retain_worker self custody workers a = (self', (f, workers', a')) ->
  joined 1 self self' (workers ++ w :: rest) (workers' ++ rest) a a' f.
Proof.
  intros Hsrc Hw. destruct custody as [role current startup|role rejection startup stopped|role current startup stopped];
    cbn [retain_worker].
  - destruct (reserve (shutdowns self.2) 1) as [s reserved].
    assert (Hc : config_kept self (set_shutdowns self s) /\ recovery (set_shutdowns self s).2 = recovery self.2).
    { destruct self. split; [split; [done|apply same_policy_refl]|done]. }
    destruct Hc as [Hc Hr].
    destruct (match reserved with Some ids => list.last ids | None => None end) as [i|];
      cbn [retire_worker]; intros [= <- <- <- <-]; split; auto;
      rewrite ?sum_list_with_app; cbn [sum_list_with].
    + apply drain_actions_shutdown.
    + change (draining_source (mkRetiring role _)) with 0. lia.
    + change (retiring_weight (mkRetiring role _)) with 2. lia.
    + intros _. rewrite !Forall_app, !list.Forall_cons. intros (? & ? & ?). by split_and!.
    + change (draining_source (mkRetiring role _)) with 0. lia.
    + change (retiring_weight (mkRetiring role _)) with 0. lia.
    + done.
  - intros [= <- <- <- <-]. split; auto using config_refl.
    + intros. by apply drain_actions_diagnosed.
    + rewrite !sum_list_with_app. simpl. lia.
    + rewrite !sum_list_with_app. simpl. lia.
    + intros _. rewrite !Forall_app, list.Forall_cons. intros (? & ? & ?). by split_and!.
  - intros [= <- <- <- <-]. split; auto using config_refl.
    + intros. by apply drain_actions_diagnosed.
    + rewrite !sum_list_with_app. simpl. lia.
    + rewrite !sum_list_with_app. simpl. lia.
    + intros _. rewrite !Forall_app, list.Forall_cons. intros (? & ? & ?). by split_and!.
Qed.

Lemma reject_drain_loop_ok rejection l : forall self position returned draining f a self' draining' f' a',
  reject_drain_loop self rejection position l returned draining f a = (self', (draining', f', a')) ->
  (f' = None -> f = None) /\ joined 0 self self' (draining ++ l) draining' a a' f'.
Proof.
  induction l as [|w l IH]; intros self position returned draining f a self' draining' f' a'; cbn [reject_drain_loop].
  { intros [= <- <- <- <-]. rewrite app_nil_r. split; [done|apply joined_refl]. }
  destruct (bt_remove position returned) as [[creation returned']|].
  2: { intros Hr. destruct (IH _ _ _ _ _ _ _ _ _ _ Hr) as [Hf Hj]. by rewrite <- app_assoc in Hj. }
  pose proof (accept_creation_rejection_weight w (id creation) (kind creation)
    (batch_worker rejection (into_inner (child creation)))) as Hw.
  destruct (accept_creation_rejection w _ _ _) as [custody|[[[w' i] k] back]].
  - destruct Hw as [Hsrc Hw]. destruct (retain_worker self custody draining a) as [self1 [[f1 draining1] a1]] eqn:Hret.
    intros Hr. destruct (IH _ _ _ _ _ _ _ _ _ _ Hr) as [Hf Hj].
    split; [intros H; by apply Hf, option_or_None in H as []|].
    apply (joined_fewer 0 1); [lia|]. rewrite <- (Nat.add_0_r 1).
    eapply joined_trans; [|by eapply retain_worker_joined|exact Hj]. intros H. by apply Hf, option_or_None in H as [].
  - subst w'. intros Hr. destruct (IH _ _ _ _ _ _ _ _ _ _ Hr) as [Hf Hj]. rewrite <- app_assoc in Hj.
    split; [done|]. by eapply joined_diagnosed; [|exact Hj].
Qed.

Lemma drain_creations_loop_ok l : forall self position returned draining f a self' draining' f' a',
  drain_creations_loop self position l returned draining f a = (self', (draining', f', a')) ->
  (f' = None -> f = None) /\ joined 0 self self' (draining ++ l) draining' a a' f' /\
  ((exists i w s c, l !! i = Some w /\ bt_get (position + i) returned = Some s /\ accept_creation w s = Ok c) ->
   joined 1 self self' (draining ++ l) draining' a a' f').
Proof.
  induction l as [|w l IH]; intros self position returned draining f a self' draining' f' a'; cbn [drain_creations_loop].
  { intros [= <- <- <- <-]. rewrite app_nil_r. split_and!; [done|apply joined_refl|].
    by intros (i & ? & ? & ? & H & _). }
  destruct (bt_remove position returned) as [[s returned']|] eqn:Hrem.
  - apply bt_remove_Some in Hrem as [Hget ->].
    pose proof (accept_creation_weight w s) as Hw. destruct (accept_creation w s) as [custody|[w' s']] eqn:Hacc.
    + destruct Hw as [Hsrc Hw]. destruct (retain_worker self custody draining a) as [self1 [[f1 draining1] a1]] eqn:Hret.
      intros Hr. destruct (IH _ _ _ _ _ _ _ _ _ _ Hr) as (Hf & Hj & _).
      assert (H1 : joined 1 self self' (draining ++ w :: l) draining' a a' f').
      { rewrite <- (Nat.add_0_r 1). eapply joined_trans; [|by eapply retain_worker_joined|exact Hj].
        intros H. by apply Hf, option_or_None in H as []. }
      split_and!; [intros H; by apply Hf, option_or_None in H as []| |done].
      apply (joined_fewer 0 1); [lia|done].
    + destruct Hw as [-> ->]. intros Hr. destruct (IH _ _ _ _ _ _ _ _ _ _ Hr) as (Hf & Hj & Hs).
      rewrite <- app_assoc in Hj, Hs. cbn [app] in Hj, Hs.
      split; [done|]. split; [by eapply joined_diagnosed; [|exact Hj]|].
      intros (i & w1 & s1 & c1 & Hl & Hg & Ha). eapply joined_diagnosed; [|apply Hs]; [done|].
      destruct i as [|i]; simpl in Hl; [rewrite Nat.add_0_r in Hg; simplify_eq; congruence|].
      exists i, w1, s1, c1. split_and!; [done| |done].
      rewrite bt_get_delete_ne by lia. rewrite <- Hg. f_equal; lia.
  - apply bt_remove_None in Hrem. intros Hr. destruct (IH _ _ _ _ _ _ _ _ _ _ Hr) as (Hf & Hj & Hs).
    rewrite <- app_assoc in Hj, Hs. split; [done|]. split; [done|]. intros (i & w1 & s1 & c1 & Hl & Hg & Ha). apply Hs.
    destruct i as [|i]; simpl in Hl; [rewrite Nat.add_0_r in Hg; simplify_eq; congruence|].
    exists i, w1, s1, c1. split_and!; [done| |done]. rewrite <- Hg. f_equal; lia.
Qed.

Lemma finish_drain_ok k self self1 l l' d f a self' r :
  drain_ok self l d -> joined k self self1 l l' fifo_cont a f ->
  finish_drain_creations self1 l' d f a = (self', r) -> drained (S (outstanding l d) - k) self self' r.
Proof.
  intros [Ks Kr Kw Kd] [Jc Jr Ja Js Jw Jq]. unfold finish_drain_creations.
  destruct f as [cause|]; intros [= <- <-].
  - split; [done|apply drain_actions_become, Ja, drain_actions_cont|done].
  - apply continue_draining_ok; [done|congruence|auto| |apply Ja, drain_actions_cont].
    unfold outstanding. lia.
Qed.

Lemma reject_drain_creations_ok self l d creations rejection self' r (answered : Prop) :
  drain_ok self l d -> (answered -> False) -> reject_drain_creations self l d creations rejection = (self', r) ->
  drain_step self l d answered self' r.
Proof.
  intros Hok Hno. unfold reject_drain_creations.
  destruct (ordered_creation_positions _ _) as [positions|]; [|intros [= <- <-]; by apply drain_step_ignored].
  destruct (reject_drain_loop _ _ _ _ _ _ _ _) as [self1 [[l' f] a]] eqn:Hloop.
  apply reject_drain_loop_ok in Hloop as [_ Hj]. intros Hr. split; [|done].
  by apply (finish_drain_ok 0 self self1 l l' d f a).
Qed.

Lemma accept_drain_creations_ok self l d workers self' r :
  drain_ok self l d -> accept_drain_creations self l d workers = (self', r) ->
  drain_step self l d (awaited_by l (Answer_Creations workers)) self' r.
Proof.
  intros Hok. destruct workers as [settlements|creations reason|creations fault]; cbn [accept_drain_creations].
  2, 3: apply reject_drain_creations_ok; [done|]; intros (w & _ & Ha); by destruct w as [role [|? ? [|[]]| | |]].
  destruct (mbind _ _) as [positions|] eqn:Hpos.
  - destruct (drain_creations_loop _ _ _ _ _ _ _) as [self1 [[l' f] a]] eqn:Hloop.
    apply drain_creations_loop_ok in Hloop as (_ & Hj & Hs). intros Hr. split.
    { by apply (finish_drain_ok 0 self self1 l l' d f a). }
    intros Ha. apply (drained_weaken (S (outstanding l d) - 1)); [lia|].
    apply (finish_drain_ok 1 self self1 l l' d f a); [done| |done]. apply Hs.
    destruct (creation_awaited l settlements _ Ha Hpos) as (p & w & c & s & [= ->] & -> & Hl & Hacc).
    exists p, w, s, c. split_and!; [done| |done]. cbn. by rewrite bool_decide_true.
  - intros [= <- <-]. apply drain_step_ignored; [done|]. intros Ha.
    by destruct (creation_awaited l settlements _ Ha Hpos) as (p & w & c & s & ? & _).
Qed.

End FifoDrain.

Section FifoRun.
  Context `{FT : FifoTypes} `{RL : !RouteLaws Customer FifoOutcome CustomerSends}.

Abbreviation fifo_ok := (fifo_inv awaited).

(** ** The invariant of a pool *)

Definition pool_ok (self : Self) : Prop :=
  match state self.2 with
  | State_Constructed _ => sources_out (recovery self.2) = 0 /\ budget_ok (recovery self.2) (restarts self.2)
  | State_Operating o => fifo_ok self (members o) (queue o) /\ conserving o /\ startups_settled self o
  | State_Draining l d => drain_ok self l d
  | State_Stopped | State_ForcedRetirement _ _ => True
  end.

(** The accepted jobs that are still open. *)
Definition open_jobs (self : Self) : list CustomerJob := state_jobs (state self.2).

Definition with_state (self : Self) (s : PoolState) : Self := (self.1, set_state self.2 s).

Lemma fifo_ok_state {W} self s l q : fifo_inv W self l q -> fifo_inv W (with_state self s) l q.
Proof. intros []. by split. Qed.

Lemma drain_ok_state self s l d : drain_ok self l d -> drain_ok (with_state self s) l d.
Proof. done. Qed.

Lemma pool_ok_result {P n J a} self self' s a' :
  result_ok P n J a self self' (s, a') -> (forall o, P self' o -> startups_settled self' o) ->
  pool_ok (with_state self' s) /\ (forall o, s = State_Operating o -> fair n o).
Proof.
  intros [_ _ Hs] HP. unfold pool_ok. cbn in *. destruct s; try done.
  - destruct Hs as (H1 & H2 & H3 & H4). split; [|by intros ? [= <-]].
    split_and!; [by apply fifo_ok_state|done|by apply HP].
Qed.

(** ** An operating pool *)

Lemma or_diagnose_ok {X} n self o (event : X -> FifoEvent) r :
  handled n self o r -> stepped n self o (or_diagnose event r).
Proof.
  unfold stepped. destruct r as [self' [res|[o' x]]]; [done|]. intros (Hst & Hc & Hp). cbn [or_diagnose fst snd].
  eapply result_ok_perm; [exact Hp|]. eapply result_ok_from; [apply accounted_refl|exact Hc|].
  by apply diagnose_result.
Qed.

(** The customer's command among the inputs. *)
Definition submission_of (input : FifoEvent) : option (SubmissionId * Job * Customer) :=
  match input with
  | Event_Command (mkUser _ (Submit submission payload customer)) => Some (submission, payload, customer)
  | _ => None
  end.

Lemma operate_ok n self o input :
  steady n self o -> n = next_assignment (assignments self.2) -> submission_of input = None ->
  exists r, operate self o input = Some r /\ stepped n self o r.
Proof.
  intros Hst Hn Hsub.
  assert (Hd : stepped n self o (self, diagnose self (State_Operating o) input)) by by apply diagnose_result.
  assert (Hshut : stepped n self o (begin_shutdown self o fifo_cont)).
  { unfold stepped. destruct (begin_shutdown _ _ _) as [self' r] eqn:Hb. by eapply begin_shutdown_result; [apply Hst|]. }
  destruct input as [[from [submission payload customer|]]|w|i|s|s|[child report]|r|r|r|r|e|s|s]; try done;
    cbn [operate]; try (eexists; split; [reflexivity|]; first [exact Hd|exact Hshut]).
  - eexists. split; [reflexivity|]. by apply or_diagnose_ok, accept_creations_ok.
  - eexists. split; [reflexivity|]. by apply or_diagnose_ok, accept_initialization_ok.
  - eexists. split; [reflexivity|]. by apply or_diagnose_ok, accept_startup_ok.
  - eexists. split; [reflexivity|]. by apply or_diagnose_ok, accept_worker_stop_ok.
  - eexists. split; [reflexivity|]. by apply or_diagnose_ok, pool_accept_completion_ok.
  - destruct r as [[receipt|item reason|item reason|item fault]|item]; try (eexists; split; [reflexivity|]; exact Hd).
    + eexists. split; [reflexivity|]. by apply or_diagnose_ok, accept_assignment_receipt_ok.
    + eexists. split; [reflexivity|]. by apply reject_assignment_delivery_ok.
  - eexists. split; [reflexivity|]. by apply or_diagnose_ok, accept_worker_preparation_start_ok.
  - destruct (accept_worker_preparation_return_ok n self o r Hst) as (res & -> & Hres).
    eexists. split; [reflexivity|]. by apply or_diagnose_ok.
  - eexists. split; [reflexivity|]. by apply or_diagnose_ok, accept_restart_schedule_ok.
  - eexists. split; [reflexivity|]. by apply or_diagnose_ok, accept_restart_timer_ok.
  - eexists. split; [reflexivity|]. by apply or_diagnose_ok, pool_accept_worker_shutdown_ok.
Qed.

(** ** A draining pool *)

Lemma drain_step_ok self l d input self' r :
  drain_ok self l d -> submission_of input = None -> drain self l d input = (self', r) ->
  drain_step self l d (exists w, w ∈ l /\ answers_wait w input) self' r.
Proof.
  intros Hok Hsub.
  assert (Hidle : drained (S (outstanding l d)) self self (State_Draining l d, fifo_cont)).
  { split; [apply config_refl|apply drain_actions_cont|]. split; [done|lia]. }
  assert (Hnone : forall e, (forall w, answers_wait w e -> False) ->
    drain_step self l d (exists w, w ∈ l /\ answers_wait w e) self (diagnose self (State_Draining l d) e)).
  { intros e He. apply drain_step_ignored; [done|]. intros (w & _ & Hw). by eapply He. }
  destruct input as [[from [submission payload customer|]]|w|i|s|s|c|r'|r'|r'|r'|e|s|s]; try done; cbn [drain].
  - intros [= <- <-]. split; [done|]. intros (w & _ & Hw). by destruct w as [role [|? ? [|[]]| | |]].
  - by apply accept_drain_creations_ok.
  - intros [= <- <-]. apply accept_drain_initialization_ok; [done|].
    intros (w & _ & Hw). by destruct w as [role [|? ? [|[]]| | |]].
  - intros [= <- <-]. apply accept_drain_startup_ok; [done|].
    intros (w & _ & Hw). by destruct w as [role [|? ? [|[]]| | |]].
  - intros [= <- <-]. by apply accept_drain_stop_ok.
  - intros [= <- <-]. apply Hnone. intros w Hw. by destruct w as [role [|? ? [|[]]| | |]].
  - intros [= <- <-]. apply Hnone. intros w Hw. by destruct w as [role [|? ? [|[]]| | |]].
  - by apply accept_drain_preparation_start_ok.
  - by apply accept_drain_preparation_return_ok.
  - intros [= <- <-]. by apply accept_drain_schedule_ok.
  - intros [= <- <-]. apply accept_drain_deadline_ok; [done|].
    intros (w & _ & Hw). by destruct w as [role [|? ? [|[]]| | |]].
  - intros [= <- <-]. by apply accept_drain_shutdown_ok.
  - intros [= <- <-]. split; [done|]. intros (w & _ & Hw). by destruct w as [role [|? ? [|[]]| | |]].
Qed.

(** ** One step *)

(** What a step answers to customers. *)
Definition customers_step (self : Self) (input : FifoEvent) (self' : Self) (a : FifoActions) : Prop :=
  match submission_of input with
  | Some (submission, payload, customer) =>
      match state self.2 with
      | State_Operating _ =>
          submission_answered self self' submission payload customer (open_jobs self) (open_jobs self') a
      | State_Draining _ _ =>
          replies a = [(customer, Fifo_Rejected submission payload Admission_ShuttingDown)] /\ open_jobs self' = []
      | _ => replies a = [] /\ open_jobs self' = []
      end
  | None => exists closed, Forall2 closes closed (replies a) /\ open_jobs self ≡ₚ closed ++ open_jobs self'
  end.

(** What a step of the drain does. *)
Definition drain_progress (self : Self) (input : FifoEvent) (self' : Self) (a : FifoActions) : Prop :=
  match state self.2 with
  | State_Draining l d =>
      quiet a /\
      match state self'.2 with
      | State_Draining l' d' =>
          outstanding l' d' <= outstanding l d /\
          ((exists w, w ∈ l /\ answers_wait w input) -> outstanding l' d' < outstanding l d)
      | State_Stopped | State_ForcedRetirement _ _ => become_ a = Stop the_Stopped
      | _ => False
      end
  | _ => True
  end.

Record step_ok (self : Self) (input : FifoEvent) (self' : Self) (a : FifoActions) : Prop := {
  step_pool : pool_ok self';
  step_clean : clean a;
  step_advanced : advanced self self';
  step_fair : forall o', state self'.2 = State_Operating o' -> fair (next_assignment (assignments self.2)) o';
  step_customers : customers_step self input self' a;
  step_drain : drain_progress self input self' a
}.

Lemma pool_steady self o :
  pool_ok self -> state self.2 = State_Operating o ->
  steady (next_assignment (assignments self.2)) (with_state self State_Stopped) o.
Proof.
  unfold pool_ok. intros Hok Hs. rewrite Hs in Hok. destruct Hok as (H1 & H2 & H3).
  split; [by apply fifo_ok_state|done| |done]. destruct o. by eapply unassigned_fair.
Qed.

Lemma advanced_state self self' s s' : advanced (with_state self s) self' -> advanced self (with_state self' s').
Proof. intros []. by split. Qed.

Lemma transition_operating self o input :
  pool_ok self -> state self.2 = State_Operating o ->
  exists self' a, transition self input = Some (self', a) /\ step_ok self input self' a.
Proof.
  intros Hok Hs. pose proof (pool_steady _ _ Hok Hs) as Hst. unfold transition. rewrite Hs.
  set (self0 := with_state self State_Stopped) in *. change (self.1, set_state self.2 State_Stopped) with self0.
  assert (Hopen : open_jobs self = held (members o) (queue o)) by (unfold open_jobs; by rewrite Hs).
  destruct (submission_of input) as [[[submission payload] customer]|] eqn:Hsub.
  - destruct input as [[from [? ? ?|]]| | | | | | | | | | | |]; try done. cbn in Hsub. simplify_eq. cbn [operate].
    destruct (accept_submission self0 o submission payload customer) as [self1 [o1 a1]] eqn:Ha.
    destruct (accept_submission_ok _ _ _ _ _ _ _ _ _ Hst eq_refl Ha) as ([S1 S2 S3 S4] & Hadv & Hcl & Hans).
    eexists _, _. split; [reflexivity|]. change (self1.1, set_state self1.2 (State_Operating o1)) with (with_state self1 (State_Operating o1)).
    split; [|done|by eapply advanced_state| | |].
    + split_and!; [by apply fifo_ok_state|done|done].
    + by intros o' [= <-].
    + unfold customers_step. cbn [submission_of]. by rewrite Hs, Hopen.
    + unfold drain_progress. by rewrite Hs.
  - destruct (operate_ok _ self0 o input Hst eq_refl Hsub) as ([self1 [s1 a1]] & -> & Hres).
    unfold stepped in Hres. cbn [fst snd] in Hres. cbn [mbind option_bind].
    eexists _, _. split; [reflexivity|]. change (self1.1, set_state self1.2 s1) with (with_state self1 s1).
    destruct (pool_ok_result _ _ _ _ Hres ltac:(done)) as [Hp Hf]. destruct Hres as [Rc [(cl & new & R1 & R2 & R3) Rk] _].
    split; [done|by apply Rk, clean_cont| |by apply Hf| |].
    + eapply advanced_state, config_advanced, Rc.
    + unfold customers_step. rewrite Hsub, Hopen. exists cl. rewrite replies_cont in R1. cbn in R1. by rewrite R1.
    + unfold drain_progress. by rewrite Hs.
Qed.

Lemma transition_draining self l d input :
  pool_ok self -> state self.2 = State_Draining l d ->
  exists self' a, transition self input = Some (self', a) /\ step_ok self input self' a.
Proof.
  intros Hok Hs. unfold transition. rewrite Hs. unfold pool_ok in Hok. rewrite Hs in Hok.
  set (self0 := with_state self State_Stopped). change (self.1, set_state self.2 State_Stopped) with self0.
  apply (drain_ok_state _ State_Stopped) in Hok. fold self0 in Hok.
  assert (Hopen : open_jobs self = []) by (unfold open_jobs; by rewrite Hs).
  destruct (submission_of input) as [[[submission payload] customer]|] eqn:Hsub.
  - destruct input as [[from [? ? ?|]]| | | | | | | | | | | |]; try done. cbn in Hsub. simplify_eq. cbn [drain].
    eexists _, _. split; [reflexivity|]. split.
    + by apply (drain_ok_state self0 (State_Draining l d)).
    + apply clean_answers.
    + eapply advanced_state, config_advanced, config_refl.
    + done.
    + unfold customers_step. cbn [submission_of]. rewrite Hs. split; [apply replies_answers|done].
    + unfold drain_progress. rewrite Hs. cbn. split; [done|]. split; [done|].
      intros (w & _ & Hw). by destruct w as [role [|? ? [|[]]| | |]].
  - destruct (drain self0 l d input) as [self1 [s1 a1]] eqn:Hd.
    destruct (drain_step_ok _ _ _ _ _ _ Hok Hsub Hd) as [[Dc [Dq Dcl Dr] Ds] Hstrict].
    cbn [mbind option_bind fst snd] in *. eexists _, _. split; [reflexivity|].
    change (self1.1, set_state self1.2 s1) with (with_state self1 s1).
    assert (Hopen' : open_jobs (with_state self1 s1) = []) by (by destruct s1).
    split; [|done| | | |].
    + unfold pool_ok. cbn. destruct s1; try done. (destruct Ds; by apply drain_ok_state).
    + eapply advanced_state, config_advanced, Dc.
    + cbn. intros o' ->. done.
    + unfold customers_step. rewrite Hsub, Hopen, Hopen', Dr. by exists [].
    + unfold drain_progress. rewrite Hs. split; [done|]. cbn. destruct s1; try done.
      split; [lia|]. intros Hw. by destruct (Hstrict Hw) as [_ _ []].
Qed.

Lemma transition_idle self input :
  pool_ok self -> match state self.2 with State_Operating _ | State_Draining _ _ => False | _ => True end ->
  exists self' a, transition self input = Some (self', a) /\ step_ok self input self' a.
Proof.
  intros Hok Hs. unfold transition.
  assert (Hopen : open_jobs self = []) by (unfold open_jobs; by destruct (state self.2)).
  assert (Hstep : forall a, replies a = [] -> clean a -> step_ok self input (with_state (with_state self State_Stopped) (state self.2)) a).
  { intros a Ha Hc. split.
    - unfold pool_ok in *. cbn. by destruct (state self.2).
    - done.
    - eapply advanced_state, config_advanced, config_refl.
    - cbn. intros o' Ho. by rewrite Ho in Hs.
    - unfold customers_step. destruct (submission_of input) as [[[? ?] ?]|].
      + by destruct (state self.2).
      + rewrite Ha. exists []. split; [constructor|done].
    - unfold drain_progress. by destruct (state self.2). }
  assert (Hrd : forall s, clean (diagnose (with_state self State_Stopped) s input).2).
  { intros s. apply (drain_clean _ (drain_actions_diagnose _ _ _)). }
  destruct (state self.2) as [prepared|o|l d| |l cause]; try done; cbn;
    eexists _, _; (split; [reflexivity|]); (apply Hstep; [exact replies_cont|]).
  1: exact (Hrd (State_Constructed prepared)).
  1: exact (Hrd State_Stopped).
  exact (Hrd (State_ForcedRetirement l cause)).
Qed.

Lemma transition_ok self input :
  pool_ok self -> exists self' a, transition self input = Some (self', a) /\ step_ok self input self' a.
Proof.
  intros Hok. destruct (state self.2) eqn:E.
  1, 4, 5: by apply transition_idle; [|rewrite E].
  - by eapply transition_operating.
  - by eapply transition_draining.
Qed.

End FifoRun.
