(* ===== verification/FifoCorrect.v ===== *)
(** * Correctness of the FIFO pool

    What every run of a constructed pool keeps: the account of its customers,
    the order and the promptness of dispatch, the limit on startups, the custody
    of the worker source, and the end of its drain. *)

From stdpp Require Import base list list_numbers option numbers sorting.
From S2P Require Import Prelude Effects BTreeMap Timers Restart Termination Settlement Interpretation Creation.
From S2P Require Import Workers WorkerPreparation WorkerStartup ProxyWorker PoolAssignment PoolPolicy PoolWorker PoolMembers PoolDrain.
From S2P Require Import FifoProtocol FifoShutdown FifoPool FifoInvariant.
From S2P Require Import FifoHandlers FifoLifecycle FifoRun.

Section FifoCorrect.
  Context `{FT : FifoTypes}.

(** ** Runs *)

Fixpoint run (self : Self) (inputs : list FifoEvent) : option (Self * list FifoActions) :=
  match inputs with
  | [] => Some (self, [])
  | input :: inputs =>
      '(self, a) ← transition self input;
      '(self, acts) ← run self inputs;
      Some (self, a :: acts)
  end.

(** A pool that was built, initialized, and ran the inputs. *)
Definition life (n : nat) (prepared : list (PreparedWorker Role Worker Plan)) (c : Config)
  (inputs : list FifoEvent) : option (Self * list FifoActions) :=
  match init (n, pool_of prepared c) with
  | (self, Ok _) => run self inputs
  | (_, Err _) => None
  end.

(** [RestartLimit::maximum] is a [u32]. *)
Definition config_ok (c : Config) : Prop :=
  match restart_policy (recovery_from (config_recovery c)) with
  | Some (limit, _) => (maximum limit <= u32_max)%N
  | None => True
  end.

(** ** The account of the customers *)

Definition accepted_of (r : Customer * FifoOutcome) : option (Customer * JobId) :=
  match r.2 with Fifo_Accepted _ job => Some (r.1, job) | _ => None end.

Definition terminal_of (r : Customer * FifoOutcome) : option (Customer * FifoOutcome) :=
  match r.2 with Fifo_Accepted _ _ | Fifo_Rejected _ _ _ => None | _ => Some r end.

  Context `{RL : !RouteLaws Customer FifoOutcome CustomerSends}.

(** The jobs admitted over a run: each was submitted, was accepted under a
    number of its own, and is open or was closed by exactly one terminal answer
    to its own customer. *)
Record ledger (inputs : list FifoEvent) (rs : list (Customer * FifoOutcome))
  (admitted closed opened : list CustomerJob) : Prop := {
  ledger_submitted : Forall (fun j => exists input submission, input ∈ inputs /\
    submission_of input = Some (submission, job_payload j, job_customer j)) admitted;
  ledger_accepted : omap accepted_of rs = (fun j => (job_customer j, job_id j)) <$> admitted;
  ledger_distinct : NoDup (job_id <$> admitted);
  ledger_closed : Forall2 closes closed (omap terminal_of rs);
  ledger_open : admitted ≡ₚ closed ++ opened
}.

(** Every number issued is below the next one. *)
Definition issued_below (self : Self) (l : list CustomerJob) : Prop :=
  Forall (fun j => below (next_job (jobs self.2)) (job_number (job_id j))) l.

Lemma issued_advanced self self' l : advanced self self' -> issued_below self l -> issued_below self' l.
Proof.
  intros [_ _ Hj] Hb. eapply Forall_impl; [exact Hb|]. cbn beta. intros j Hj'.
  destruct Hj as [->|(v & Hv & ->)]; [done|]. rewrite Hv in Hj'. by apply below_checked_add.
Qed.

Lemma closes_terminal closed new :
  Forall2 closes closed new -> omap terminal_of new = new /\ omap accepted_of new = [].
Proof.
  induction 1 as [|j [c o] closed new Hc _ [IH1 IH2]]; [done|]. destruct Hc as [_ Hc].
  cbn in Hc. destruct o; try done; cbn; by rewrite IH1.
Qed.

Lemma customers_ledger_step self input self' a inputs rs admitted closed :
  pool_ok self -> step_ok self input self' a -> issued_below self admitted ->
  ledger inputs rs admitted closed (open_jobs self) ->
  exists admitted' closed', issued_below self' admitted' /\
    ledger (inputs ++ [input]) (rs ++ replies a) admitted' closed' (open_jobs self').
Proof.
  intros Hok [_ _ Hadv _ Hcust _] Hb [Ls La Ld Lc Lo]. pose proof (issued_advanced _ _ _ Hadv Hb) as Hb'.
  assert (Ls' : Forall (fun j => exists i s, i ∈ inputs ++ [input] /\
    submission_of i = Some (s, job_payload j, job_customer j)) admitted).
  { eapply Forall_impl; [exact Ls|]. intros j (i & s & Hi & He). exists i, s. split; [apply elem_of_app; by left|done]. }
  assert (Hquiet : omap accepted_of (replies a) = [] -> omap terminal_of (replies a) = [] ->
    open_jobs self' ≡ₚ open_jobs self -> exists admitted' closed', issued_below self' admitted' /\
    ledger (inputs ++ [input]) (rs ++ replies a) admitted' closed' (open_jobs self')).
  { intros Ha Ht Ho. exists admitted, closed. split; [done|].
    split; rewrite ?omap_app, ?Ha, ?Ht, ?app_nil_r; auto. by rewrite Ho. }
  unfold customers_step in Hcust. destruct (submission_of input) as [[[submission payload] customer]|] eqn:Hsub.
  - assert (Hidle : replies a = [] /\ open_jobs self' = [] -> open_jobs self = [] -> exists admitted' closed',
      issued_below self' admitted' /\ ledger (inputs ++ [input]) (rs ++ replies a) admitted' closed' (open_jobs self')).
    { intros [Ha Ho] Ho'. apply Hquiet; rewrite ?Ha; auto. by rewrite Ho, Ho'. }
    assert (Hnone : match state self.2 with State_Operating _ => True | _ => open_jobs self = [] end)
      by (unfold open_jobs; by destruct (state self.2)).
    destruct (state self.2); try (by apply Hidle).
    + destruct Hcust as [(reason & Ha & Ho)|(j & Hc & Hp & Ho & Ha & Hn & Hn')].
      { by apply Hquiet; [rewrite Ha..|]. }
      exists (admitted ++ [j]), closed. split.
      { apply Forall_app. split; [done|]. constructor; [|done]. rewrite Hn'. apply below_next. }
      split; rewrite ?omap_app, ?Ha, ?fmap_app, ?La.
      * apply Forall_app. split; [done|]. constructor; [|done]. exists input, submission.
        split; [apply elem_of_app; right; by apply list_elem_of_singleton|congruence].
      * cbn. by rewrite Hc.
      * apply NoDup_app. split_and!; [done| |apply NoDup_singleton].
        intros i Hi ->%list_elem_of_singleton. apply list_elem_of_fmap in Hi as (j' & Hj' & Hin).
        unfold issued_below in Hb. rewrite list.Forall_forall in Hb. specialize (Hb _ Hin). rewrite Hn in Hb.
        cbn in Hb. rewrite Hj' in Hb. lia.
      * cbn. by rewrite app_nil_r.
      * rewrite Lo, Ho. rewrite <- app_assoc. f_equiv. by rewrite Permutation_app_comm.
    + destruct Hcust as [Ha Ho]. apply Hquiet; [by rewrite Ha..|]. by rewrite Ho, Hnone.
  - destruct Hcust as (cl & Hcl & Ho). destruct (closes_terminal _ _ Hcl) as [Ht Ha].
    exists admitted, (closed ++ cl). split; [done|].
    split; rewrite ?omap_app, ?Ha, ?Ht, ?app_nil_r; auto; [by apply Forall2_app|].
    by rewrite Lo, Ho, app_assoc.
Qed.

Lemma run_app_pool self inputs : pool_ok self ->
  exists self' acts, run self inputs = Some (self', acts) /\ pool_ok self' /\ Forall clean acts /\
    startup_limit self'.2 = startup_limit self.2.
Proof.
  revert self. induction inputs as [|input inputs IH]; intros self Hok; cbn [run].
  { by exists self, []. }
  destruct (transition_ok self input Hok) as (self1 & a & -> & [Hp Hc [Hl _ _] _ _ _]).
  destruct (IH self1 Hp) as (self2 & acts & E & Hp2 & Hcl & Hl2). cbn. rewrite E. cbn.
  exists self2, (a :: acts). split_and!; [done|done|by constructor|congruence].
Qed.

Lemma run_ledger inputs : forall self inputs0 rs admitted closed self' acts,
  pool_ok self -> issued_below self admitted -> ledger inputs0 rs admitted closed (open_jobs self) ->
  run self inputs = Some (self', acts) ->
  exists admitted' closed', ledger (inputs0 ++ inputs) (rs ++ (acts ≫= replies)) admitted' closed' (open_jobs self').
Proof.
  induction inputs as [|input inputs IH]; intros self inputs0 rs admitted closed self' acts Hok Hb Hl; cbn [run].
  { intros [= <- <-]. exists admitted, closed. cbn. by rewrite !app_nil_r. }
  destruct (transition_ok self input Hok) as (self1 & a & -> & Hstep). cbn.
  destruct (run self1 inputs) as [[self2 acts']|] eqn:Hrun; [|done]. cbn. intros [= <- <-].
  destruct (customers_ledger_step _ _ _ _ _ _ _ _ Hok Hstep Hb Hl) as (adm & cl & Hb' & Hl').
  destruct (IH _ _ _ _ _ _ _ (step_pool _ _ _ _ Hstep) Hb' Hl' Hrun) as (adm' & cl' & H).
  exists adm', cl'. rewrite <- !app_assoc in H. exact H.
Qed.

(** ** Initialization *)

Lemma init_ok n prepared c self a :
  config_ok c -> init (n, pool_of prepared c) = (self, Ok a) ->
  pool_ok self /\ open_jobs self = [] /\ startup_limit self.2 = config_startup c.
Proof.
  intros Hc. unfold init, pool_of. cbn [state creations set_state pool_start].
  destruct (issue_ids _ _ _) as [cs [ids|]]; [|done].
  cbn [set_creations alloc fst snd]. unfold mbind, Alloc_bind, mret, Alloc_ret.
  destruct (begin_members (zip prepared ids) n) as [n' [[ms ws] os]] eqn:Hm. cbn [fst snd set_state].
  intros Hi. unfold alloc in Hi. cbn in Hi. rewrite Hm in Hi. injection Hi as <- _. destruct (fresh_weights ms (begin_members_fresh _ _ _ _ _ _ Hm)) as (B & P & T & S & U).
  assert (Hh : held ms [] = []) by (unfold held; by rewrite B).
  split_and!; [|exact Hh|done]. split_and!; [|by left|by left]. cbn [members queue].
  split; cbn [snd jobs assignments recovery restarts startup_limit]; rewrite ?Hh, ?B, ?P, ?T, ?S; auto.
  - apply sorted_nil.
  - constructor.
  - by destruct (config_recovery c).
  - lia.
  - lia.
  - unfold budget_ok, config_ok in *. destruct (restart_policy _) as [[limit release]|]; [|done].
    split; [done|]. cbn. lia.
Qed.

Lemma life_pool n prepared c inputs self acts :
  config_ok c -> life n prepared c inputs = Some (self, acts) ->
  pool_ok self /\ Forall clean acts /\ startup_limit self.2 = config_startup c.
Proof.
  intros Hc. unfold life. destruct (init _) as [self0 [a0|]] eqn:Hi; [|done]. intros Hr.
  destruct (init_ok _ _ _ _ _ Hc Hi) as (Hp & _ & Hl).
  destruct (run_app_pool self0 inputs Hp) as (self' & acts' & E & Hp' & Hcl & Hl'). split_and!; congruence.
Qed.

(** ** Properties *)

(** C2. Every customer is served once.  Over any run of a pool, the jobs that
    were accepted are exactly those announced by [Accepted], under distinct
    ids; each was submitted with that payload by that customer; and every one
    is either still held by the pool (waiting or assigned) or was closed by
    exactly one terminal answer (completed or returned) to its own customer,
    with its own id, and with its own payload when it is returned.  Once the
    pool no longer operates, none is open. *)
Theorem fifo_customers_settled n prepared c inputs self acts :
  config_ok c -> life n prepared c inputs = Some (self, acts) ->
  (exists admitted closed, ledger inputs (acts ≫= replies) admitted closed (open_jobs self)) /\
  (match state self.2 with State_Operating _ => True | _ => open_jobs self = [] end).
Proof.
  intros Hc. unfold life. destruct (init _) as [self0 [a0|]] eqn:Hi; [|done]. intros Hr.
  destruct (init_ok _ _ _ _ _ Hc Hi) as (Hp & Ho & _). split.
  - apply (run_ledger inputs self0 [] [] [] [] self acts Hp); [constructor| |done].
    rewrite Ho. split; try done; constructor.
  - unfold open_jobs. by destruct (state self.2).
Qed.

(** The pool never panics: whatever the host delivers, in whatever order,
    every input of a built and initialized pool has a transition. *)
Theorem fifo_never_panics n prepared c self a inputs :
  config_ok c -> init (n, pool_of prepared c) = (self, Ok a) ->
  exists self' acts, run self inputs = Some (self', acts) /\ length acts = length inputs.
Proof.
  intros Hc Hi. destruct (init_ok _ _ _ _ _ Hc Hi) as (Hp & _ & _).
  destruct (run_app_pool self inputs Hp) as (self' & acts & E & _). exists self', acts. split; [done|].
  clear Hp Hi. revert self acts E. induction inputs as [|input inputs IH]; intros s acts; cbn [run].
  { by intros [= <- <-]. }
  destruct (transition s input) as [[s1 a1]|]; [|done]. cbn.
  destruct (run s1 inputs) as [[s2 acts']|] eqn:Hr; [|done]. cbn. intros [= <- <-]. cbn.
  f_equal. by eapply IH.
Qed.

(** Every submission is answered at once, and alone: in a reachable pool
    that operates or drains, the step that takes a submission answers exactly
    its customer, either with the acceptance of one new job that carries the
    payload, or with a rejection that returns the payload and leaves the open
    jobs as they were; a draining pool rejects it for the shutdown. *)
Theorem fifo_submission_answered n prepared c inputs self acts from submission payload customer self' a :
  config_ok c -> life n prepared c inputs = Some (self, acts) ->
  transition self (Event_Command (mkUser from (Submit submission payload customer))) = Some (self', a) ->
  match state self.2 with
  | State_Operating _ =>
      (exists reason, replies a = [(customer, Fifo_Rejected submission payload reason)] /\
         open_jobs self' ≡ₚ open_jobs self) \/
      (exists j, job_customer j = customer /\ job_payload j = payload /\ open_jobs self' ≡ₚ j :: open_jobs self /\
         replies a = [(customer, Fifo_Accepted submission (job_id j))])
  | State_Draining _ _ => replies a = [(customer, Fifo_Rejected submission payload Admission_ShuttingDown)]
  | _ => True
  end.
Proof.
  intros Hc Hl Ht. destruct (life_pool _ _ _ _ _ _ Hc Hl) as (Hp & _ & _).
  destruct (transition_ok _ (Event_Command (mkUser from (Submit submission payload customer))) Hp)
    as (s1 & a1 & E & [_ _ _ _ Hcust _]). rewrite Ht in E. simplify_eq.
  unfold customers_step in Hcust. cbn [submission_of] in Hcust. destruct (state self.2); try done.
  - destruct Hcust as [?|(j & ? & ? & ? & ? & _)]; [by left|right]. by exists j.
  - by destruct Hcust.
Qed.

(** C11. Dispatch is work-conserving and first in, first out.  In every
    reachable operating pool no worker is idle while a job waits, the backlog
    is in admission order, and whatever input comes next, a job that its step
    assigns was admitted before every job that then still waits. *)
Theorem fifo_dispatch_fair n prepared c inputs input self acts o self' a o' :
  config_ok c -> life n prepared c inputs = Some (self, acts) -> state self.2 = State_Operating o ->
  transition self input = Some (self', a) -> state self'.2 = State_Operating o' ->
  (queue o' = [] \/ sum_list_with idle (members o') = 0) /\ sorted (queue o') /\
  forall job correlation, (job, correlation) ∈ busies (members o') ->
    ~ below (next_assignment (assignments self.2)) (assignment_number (correlation_assignment correlation)) ->
    Forall (fun kv => (ordinal_number (job_admitted job) < ordinal_number kv.1)%N) (queue o').
Proof.
  intros Hc Hl Hs Ht Hs'. destruct (life_pool _ _ _ _ _ _ Hc Hl) as (Hp & _ & _).
  destruct (transition_ok self input Hp) as (self1 & a1 & E & [Hp' _ _ Hf _ _]). rewrite Ht in E. simplify_eq.
  unfold pool_ok in Hp'. rewrite Hs' in Hp'. destruct Hp' as ([Hsort _ _ _ _ _ _ _ _] & Hcons & _).
  split_and!; [done|done|]. intros job correlation Hin Hn. by apply (Hf o' Hs' (job, correlation)).
Qed.

(** The startup limit is respected and used: in every reachable operating
    pool at most the configured number of workers holds a startup grant, and
    when fewer do, no worker waits for one. *)
Theorem fifo_startup_limit n prepared c inputs self acts o :
  config_ok c -> life n prepared c inputs = Some (self, acts) -> state self.2 = State_Operating o ->
  sum_list_with starting (members o) <= startup_maximum (config_startup c) /\
  (sum_list_with starting (members o) < startup_maximum (config_startup c) ->
   sum_list_with unstarted (members o) = 0).
Proof.
  intros Hc Hl Hs. destruct (life_pool _ _ _ _ _ _ Hc Hl) as (Hp & _ & Hlim).
  unfold pool_ok in Hp. rewrite Hs in Hp. destruct Hp as ([_ _ _ _ _ _ _ Hst _] & _ & [Hun|Hfull]).
  - rewrite Hlim in Hst. split; [done|]. by intros _.
  - rewrite Hlim in *. split; [done|]. lia.
Qed.

(** C20. The source that prepares replacements is never lost or duplicated: no
    step reports a source that could not be put away, and in every reachable
    operating or draining pool the members that prepare hold the source exactly
    when the recovery state says that it is out. *)
Theorem fifo_source_custody n prepared c inputs self acts :
  config_ok c -> life n prepared c inputs = Some (self, acts) ->
  Forall (fun a => Forall (fun d => source_lost (cause (diagnostic_of d)) = false)
                     (requests (diagnostics (sends a)))) acts /\
  match state self.2 with
  | State_Operating o => sum_list_with preparing (members o) = sources_out (recovery self.2)
  | State_Draining l _ => sum_list_with draining_source l = sources_out (recovery self.2)
  | _ => True
  end.
Proof.
  intros Hc Hl. destruct (life_pool _ _ _ _ _ _ Hc Hl) as (Hp & Hcl & _). split; [exact Hcl|].
  unfold pool_ok in Hp. destruct (state self.2); try done.
  - by destruct Hp as ([_ _ _ _ _ Hsrc _ _ _] & _).
  - by destruct Hp.
Qed.

(** ** The drain *)

(** Steps of a draining pool; [k] of them delivered an answer that a retiring
    worker waited for. *)
Inductive drain_run (self : Self) : nat -> Self -> list FifoActions -> Prop :=
| Drain_Here : drain_run self 0 self []
| Drain_Answered k self1 acts l d input self2 a :
    drain_run self k self1 acts -> state self1.2 = State_Draining l d ->
    (exists w, w ∈ l /\ answers_wait w input) -> transition self1 input = Some (self2, a) ->
    drain_run self (S k) self2 (acts ++ [a])
| Drain_Other k self1 acts l d input self2 a :
    drain_run self k self1 acts -> state self1.2 = State_Draining l d ->
    transition self1 input = Some (self2, a) ->
    drain_run self k self2 (acts ++ [a]).

Lemma drain_run_pool self k self' acts : drain_run self k self' acts -> pool_ok self -> pool_ok self'.
Proof.
  induction 1 as [|k s1 acts l d i s2 a _ IH _ _ Ht|k s1 acts l d i s2 a _ IH _ Ht]; intros Hp; [done| |];
    destruct (transition_ok s1 i (IH Hp)) as (s3 & a3 & E & Hs); rewrite Ht in E; simplify_eq; apply Hs.
Qed.

(** C14. The drain ends.  From a draining pool, whatever the host delivers, no
    step asks for a creation, a preparation, an initialization, a startup, an
    assignment or a restart timer; the number of answers outstanding never grows
    and falls with every answer that a retiring worker waits for.  So once more
    such answers were delivered than were outstanding the pool has left the
    drain, and the step that leaves it orders the actor to stop. *)
Theorem fifo_drain_terminates n prepared c inputs self acts0 l d k self' acts :
  config_ok c -> life n prepared c inputs = Some (self, acts0) -> state self.2 = State_Draining l d ->
  drain_run self k self' acts ->
  Forall quiet acts /\
  match state self'.2 with
  | State_Draining l' d' => outstanding l' d' + k <= outstanding l d
  | State_Stopped | State_ForcedRetirement _ _ =>
      match list.last acts with Some a => become_ a = Stop the_Stopped | None => False end
  | _ => False
  end.
Proof.
  intros Hc Hl Hs Hd. destruct (life_pool _ _ _ _ _ _ Hc Hl) as (Hp & _ & _).
  induction Hd as [|k s1 acts l1 d1 i s2 a Hd IH Hs1 Hw Ht|k s1 acts l1 d1 i s2 a Hd IH Hs1 Ht];
    [rewrite Hs; split; [constructor|lia]| |]; destruct IH as [Hq Hst]; rewrite Hs1 in Hst;
    destruct (transition_ok s1 i (drain_run_pool _ _ _ _ Hd Hp)) as (s3 & a3 & E & [_ _ _ _ _ Hprog]);
    rewrite Ht in E; simplify_eq; unfold drain_progress in Hprog; rewrite Hs1 in Hprog; destruct Hprog as [Hqa Hprog];
    (split; [apply Forall_app; by split; [|constructor]|]); rewrite last_snoc;
    destruct (state s3.2); try done; destruct Hprog as [Hle Hlt]; [specialize (Hlt Hw)|]; lia.
Qed.

End FifoCorrect.

(** ** A concrete pool: two roles, one startup at a time *)

Definition fifo_demo_workers : WorkerTypes := {|
  Worker := nat; WorkerError := nat; WorkerChild := nat; WorkerPhase := nat; WorkerSends := nat;
  Addr := nat; Msg := nat; Nonce := nat; Installed := nat; Endpoint := nat;
  Plan := nat; Ready := nat; Rejection := nat; worker_endpoint := fun i => i
|}.

Definition fifo_demo_pool_types : PoolTypes := {|
  pool_workers := fifo_demo_workers;
  Role := nat; Source := nat; WorkerRejection := nat; SourceRejection := nat; Job := nat; WorkerResult := nat;
  Customer := Recipient nat
|}.

Definition fifo_demo : FifoTypes := {|
  fifo_pool_types := fifo_demo_pool_types;
  CustomerSends := list (Delivery nat (@FifoOutcome fifo_demo_pool_types));
  DiagnosticRoute := nat;
  customer_sends := Vec_SendEffects _;
  customer_route := Recipient_DeliveryRoute nat (@FifoOutcome fifo_demo_pool_types)
|}.

#[local] Existing Instance fifo_demo.

#[local] Instance fifo_demo_laws : RouteLaws Customer FifoOutcome CustomerSends :=
  Recipient_RouteLaws nat FifoOutcome.

Definition fifo_demo_config : Config :=
  mkConfig (mkStartupLimit (mkPositive 1))
    (Recovery_Permanent 0 (mkLimit 3 1000) (mkRelease ImmediateSchedule) Reaction_RetireRole)
    (backlog_capacity_new 4) Interruption_Retry WaitForActorGraph Terminate.

Definition fifo_demo_prepared : list (PreparedWorker Role Worker Plan) :=
  [mkPrepared (0 : Role) (with_startup (10 : Worker) (20 : Plan));
   mkPrepared (1 : Role) (with_startup (11 : Worker) (21 : Plan))].

Definition fifo_id (n : N) : CreationId := Build_CreationId n.
Definition fifo_attempt (n : N) (t : Token) : WorkerAttempt := mkAttempt (fifo_id n) t.

(** Creation [n], whose attempt and initialization got the tokens [t] and
    [t + 1], is established, initialized and started with the grant [g]. *)
Definition fifo_established (n : N) : FifoEvent :=
  Event_WorkerCreationsSettled (Creation_Settled (Creations_one
    (Attempted (Settlement.Accepted (Outcome_Established
      (mkCommitted (fifo_id n) Birth (actor_issued (7 : Installed)))))))).
Definition fifo_initialized (n : N) (t : Token) : FifoEvent :=
  Event_WorkerInitialization (initialize_resolve
    (mkInitialize (fifo_attempt n t) (mkInitialization (fifo_attempt n t) (S t)) (issued (7 : Installed)) (20 : Plan))
    Outcome_ReadyForStartup).
Definition fifo_grant (n : N) (t g : Token) : WorkerStartupGrant := mkGrant (fifo_attempt n t) g.
Definition fifo_started (n : N) (t g : Token) : FifoEvent :=
  Event_WorkerStartupReported (mkStartup (fifo_attempt n t) (fifo_grant n t g) Startup_Started).
Definition fifo_ready (n : N) (t g : Token) : FifoEvent :=
  Event_WorkerStartupReported (grant_resolve (fifo_grant n t g) (Ok (9 : Ready))).
Definition fifo_submit (k : N) (payload customer : nat) : FifoEvent :=
  Event_Command (mkUser (0 : Addr) (Submit (mkSubmissionId k) (payload : Job) (mkRecipient customer : Customer))).

(** Both workers serve, and three jobs are submitted. *)
Definition fifo_serving : list FifoEvent :=
  [fifo_established 1; fifo_established 2; fifo_initialized 1 0; fifo_initialized 2 2;
   fifo_started 1 0 4; fifo_ready 1 0 4; fifo_started 2 2 5; fifo_ready 2 2 5;
   fifo_submit 1 100 50; fifo_submit 2 101 51; fifo_submit 3 102 52].

Definition fifo_receipt (k n : N) (t : Token) : FifoEvent :=
  Event_AssignmentSettled (Attempted (Settlement.Accepted (mkReceipt (mkAssignmentId k) (fifo_attempt n t)))).
Definition fifo_completed (k n : N) (t authority : Token) (r : nat) : FifoEvent :=
  Event_WorkerCompleted (mkCompletionReport (fifo_id n)
    (mkCompletion (r : WorkerResult) (mkAuthority (mkAssignmentId k) (fifo_attempt n t) authority))).
Definition fifo_stopped (n : N) : FifoEvent :=
  Event_WorkerStopped (mkChildStopped (fifo_id n) (Ok Normal) 0%N).
Definition fifo_resolved (n : N) : FifoEvent := Event_WorkerShutdownSettled (ShutdownAccepted (mkShutdownId n)).

Definition fifo_delivered : list FifoEvent := fifo_serving ++ [fifo_receipt 1 1 0].
Definition fifo_completion : FifoEvent := fifo_completed 1 1 0 6 77.
Definition fifo_draining : list FifoEvent :=
  fifo_delivered ++ [fifo_completion; Event_Shutdown the_ShutdownRequested].

Definition fifo_at (inputs : list FifoEvent) : Self * list FifoActions :=
  default (0, pool_of fifo_demo_prepared fifo_demo_config, []) (life 0 fifo_demo_prepared fifo_demo_config inputs).

(** The answers of that run, in order. *)
Example fifo_draining_answers :
  (fifo_at fifo_draining).2 ≫= replies =
  [(mkRecipient 50, Fifo_Accepted (mkSubmissionId 1) (mkJobId 1));
   (mkRecipient 51, Fifo_Accepted (mkSubmissionId 2) (mkJobId 2));
   (mkRecipient 52, Fifo_Accepted (mkSubmissionId 3) (mkJobId 3));
   (mkRecipient 50, Fifo_Completed (mkJobId 1) (role_name_new 0) 77);
   (mkRecipient 52, Fifo_ReturnedAssigned (mkJobId 3) (role_name_new 0) 102 Assigned_PoolShutdown);
   (mkRecipient 51, Fifo_ReturnedAssigned (mkJobId 2) (role_name_new 1) 101 Assigned_PoolShutdown)].
Proof. vm_compute. reflexivity. Qed.

Lemma fifo_at_life inputs :
  is_Some (life 0 fifo_demo_prepared fifo_demo_config inputs) ->
  life 0 fifo_demo_prepared fifo_demo_config inputs = Some ((fifo_at inputs).1, (fifo_at inputs).2).
Proof. unfold fifo_at. by intros [[self acts] ->]. Qed.

Lemma fifo_life_delivered : is_Some (life 0 fifo_demo_prepared fifo_demo_config fifo_delivered).
Proof. vm_compute. by eexists. Qed.

Lemma fifo_life_draining : is_Some (life 0 fifo_demo_prepared fifo_demo_config fifo_draining).
Proof. vm_compute. by eexists. Qed.

Lemma fifo_demo_config_ok : config_ok fifo_demo_config.
Proof. vm_compute. discriminate. Qed.

Lemma fifo_customers_settled_witness :
  exists admitted closed,
    ledger fifo_draining ((fifo_at fifo_draining).2 ≫= replies) admitted closed (open_jobs (fifo_at fifo_draining).1).
Proof.
  destruct (fifo_customers_settled (FT := fifo_demo) 0 fifo_demo_prepared fifo_demo_config fifo_draining
    (fifo_at fifo_draining).1 (fifo_at fifo_draining).2 fifo_demo_config_ok (fifo_at_life _ fifo_life_draining))
    as [H _]. exact H.
Defined.

Lemma fifo_never_panics_witness : exists self' acts, run (fifo_at []).1 fifo_draining = Some (self', acts) /\ length acts = 14.
Proof.
  refine (fifo_never_panics (FT := fifo_demo) 0 fifo_demo_prepared fifo_demo_config (fifo_at []).1 _ fifo_draining fifo_demo_config_ok _).
  vm_compute. reflexivity.
Defined.

Lemma fifo_draining_state : exists l d, state (fifo_at fifo_draining).1.2 = State_Draining l d.
Proof. vm_compute. by eexists _, _. Qed.

Lemma fifo_submission_answered_witness :
  exists self' a, transition (fifo_at fifo_draining).1 (fifo_submit 4 103 53) = Some (self', a) /\
    replies a = [(mkRecipient 53, Fifo_Rejected (mkSubmissionId 4) 103 Admission_ShuttingDown)].
Proof.
  assert (Ht : exists self' a, transition (fifo_at fifo_draining).1 (fifo_submit 4 103 53) = Some (self', a))
    by (vm_compute; by eexists _, _).
  destruct Ht as (self' & a & Ht). exists self', a. split; [exact Ht|].
  pose proof (fifo_submission_answered (FT := fifo_demo) 0 fifo_demo_prepared fifo_demo_config fifo_draining
    (fifo_at fifo_draining).1 (fifo_at fifo_draining).2 0 (mkSubmissionId 4) 103 (mkRecipient 53) self' a
    fifo_demo_config_ok (fifo_at_life _ fifo_life_draining) Ht) as H.
  destruct fifo_draining_state as (l & d & E). rewrite E in H. exact H.
Defined.

Definition fifo_members (s : PoolState) : FifoOperating :=
  match s with State_Operating o => o | _ => mkOperating [] [] 0 end.

Lemma fifo_delivered_state :
  state (fifo_at fifo_delivered).1.2 = State_Operating (fifo_members (state (fifo_at fifo_delivered).1.2)).
Proof. vm_compute. reflexivity. Qed.

(** The completion of the first job frees the worker for the third. *)
Lemma fifo_dispatch_fair_witness :
  exists self' a, transition (fifo_at fifo_delivered).1 fifo_completion = Some (self', a) /\
    sorted (queue (fifo_members (state self'.2))).
Proof.
  assert (Ht : exists self' a, transition (fifo_at fifo_delivered).1 fifo_completion = Some (self', a) /\
    state self'.2 = State_Operating (fifo_members (state self'.2))) by (vm_compute; by eexists _, _).
  destruct Ht as (self' & a & Ht & Hs). exists self', a. split; [exact Ht|].
  exact (proj1 (proj2 (fifo_dispatch_fair (FT := fifo_demo) 0 fifo_demo_prepared fifo_demo_config fifo_delivered
    fifo_completion (fifo_at fifo_delivered).1 (fifo_at fifo_delivered).2 _ self' a _
    fifo_demo_config_ok (fifo_at_life _ fifo_life_delivered) fifo_delivered_state Ht Hs))).
Defined.

Lemma fifo_startup_limit_witness :
  sum_list_with starting (members (fifo_members (state (fifo_at fifo_delivered).1.2))) <= 1.
Proof.
  exact (proj1 (fifo_startup_limit (FT := fifo_demo) 0 fifo_demo_prepared fifo_demo_config fifo_delivered
    (fifo_at fifo_delivered).1 (fifo_at fifo_delivered).2 _ fifo_demo_config_ok
    (fifo_at_life _ fifo_life_delivered) fifo_delivered_state)).
Defined.

Lemma fifo_source_custody_witness :
  exists l d, state (fifo_at fifo_draining).1.2 = State_Draining l d /\
    sum_list_with draining_source l = sources_out (recovery (fifo_at fifo_draining).1.2).
Proof.
  pose proof (fifo_source_custody (FT := fifo_demo) 0 fifo_demo_prepared fifo_demo_config fifo_draining
    (fifo_at fifo_draining).1 (fifo_at fifo_draining).2 fifo_demo_config_ok
    (fifo_at_life _ fifo_life_draining)) as H.
  destruct fifo_draining_state as (l & d & E). exists l, d. rewrite E in H. destruct H as [_ H].
  split; [exact E|exact H].
Defined.

(** The answers that the drain waits for end it. *)
Example fifo_demo_ends :
  state (fifo_at (fifo_draining ++ [fifo_stopped 1; fifo_resolved 0; fifo_stopped 2; fifo_resolved 1])).1.2 = State_Stopped.
Proof. vm_compute. reflexivity. Qed.

Definition fifo_step (self : Self) (input : FifoEvent) : Self * FifoActions :=
  default (self, fifo_cont) (transition self input).

Definition draining_of (s : PoolState) : list RetiringWorker * ShutdownDeadline :=
  match s with State_Draining l d => (l, d) | _ => ([], Unlimited) end.

Lemma fifo_demo_answer (self : Self) input w :
  state self.2 = State_Draining (draining_of (state self.2)).1 (draining_of (state self.2)).2 ->
  head (draining_of (state self.2)).1 = Some w -> answers_wait w input -> is_Some (transition self input) ->
  forall s0 k acts, drain_run s0 k self acts ->
    drain_run s0 (S k) (fifo_step self input).1 (acts ++ [(fifo_step self input).2]).
Proof.
  intros Hs Hw Ha [[s a] Ht] s0 k acts Hd. unfold fifo_step. rewrite Ht.
  eapply Drain_Answered; [exact Hd|exact Hs| |exact Ht]. exists w. split; [|done].
  destruct (draining_of _).1; [done|]. injection Hw as <-. left.
Qed.

Lemma fifo_demo_drains :
  exists self' acts, drain_run (fifo_at fifo_draining).1 2 self' acts /\
    exists l d, state self'.2 = State_Draining l d.
Proof.
  set (self := (fifo_at fifo_draining).1). set (self1 := (fifo_step self (fifo_stopped 1)).1).
  exists (fifo_step self1 (fifo_resolved 0)).1. eexists. split.
  - eapply (fifo_demo_answer self1); [vm_compute; reflexivity..|vm_compute; by eexists|].
    eapply (fifo_demo_answer self); [vm_compute; reflexivity..|vm_compute; by eexists|]. constructor.
  - vm_compute. by eexists _, _.
Qed.

Lemma fifo_drain_terminates_witness :
  exists l d l' d' acts, state (fifo_at fifo_draining).1.2 = State_Draining l d /\
    Forall quiet acts /\ outstanding l' d' + 2 <= outstanding l d.
Proof.
  destruct fifo_draining_state as (l & d & E). destruct fifo_demo_drains as (self' & acts & Hd & l' & d' & E').
  pose proof (fifo_drain_terminates (FT := fifo_demo) 0 fifo_demo_prepared fifo_demo_config fifo_draining
    (fifo_at fifo_draining).1 (fifo_at fifo_draining).2 l d 2 self' acts fifo_demo_config_ok
    (fifo_at_life _ fifo_life_draining) E Hd) as H.
  rewrite E' in H. exists l, d, l', d', acts. split; [exact E|exact H].
Defined.
