(* ===== verification/KeyedBinding.v ===== *)
(** * Key bindings of the keyed pool

    [templates/pool/router/binding.rs]: the bounded table of retained keys, each
    with the role that serves it and a generation that is never issued again.

    [Vec::binary_search_by] answers [Ok] with the position of the key or [Err]
    with the position at which inserting it keeps the order; on a sorted vector
    both are the number of smaller keys.  The borrows [ReservedBinding] and
    [OccupiedBinding] are the values they hold besides the table; their methods
    take the table. *)

From stdpp Require Import base list option numbers sorting.
From S2P Require Import Prelude Effects BTreeMap Workers WorkerPreparation.

(** ** Capacity, generations and evidence *)

Record BindingCapacity := mkBindingCapacity { binding_maximum : PositiveCapacity }.

Definition binding_capacity_new (maximum : nat) : result BindingCapacity ZeroCapacity :=
  map_result mkBindingCapacity (capacity_new maximum).

Definition bindings_maximum (c : BindingCapacity) : nat := capacity_get (binding_maximum c).

(** [PartialEq] compares the ordinal and the allocation of the token. *)
Record BindingGeneration := generation_issued { generation_ordinal : N; generation_token : Token }.

#[export] Instance BindingGeneration_EqDecision : EqDecision BindingGeneration.
Proof. solve_decision. Defined.

Definition generation_get (g : BindingGeneration) : N := generation_ordinal g.

Inductive BindingExpectation : Type :=
| Expect_Absent
| Expect_Exact (g : BindingGeneration).

#[export] Instance BindingExpectation_EqDecision : EqDecision BindingExpectation.
Proof. solve_decision. Defined.

Record BindingEvidence (Role : Type) := evidence_issued {
  generation : BindingGeneration;
  evidence_role_name : RoleName Role
}.
Arguments evidence_issued {Role} _ _.
Arguments generation {Role} _.
Arguments evidence_role_name {Role} _.

Definition evidence_role {Role} (e : BindingEvidence Role) : Role := named_role (evidence_role_name e).

Record BindingRequestId := binding_request_new { binding_request_get : N }.

Record Binding (Key Role : Type) := mkBinding { binding_key : Key; binding_evidence : BindingEvidence Role }.
Arguments mkBinding {Key Role} _ _.
Arguments binding_key {Key Role} _.
Arguments binding_evidence {Key Role} _.

Definition binding_into_parts {Key Role} (b : Binding Key Role) : Key * BindingEvidence Role :=
  (binding_key b, binding_evidence b).

Record GenerationSequence := mkGenerations { next_generation : option N; generations_token : Token }.

Definition generations_new : Alloc GenerationSequence :=
  token ← arc_new; mret (mkGenerations (Some 1%N) token).

Definition generations_issue (s : GenerationSequence) : GenerationSequence * option BindingGeneration :=
  match next_generation s with
  | None => (s, None)
  | Some ordinal =>
      (mkGenerations (checked_add u64_max ordinal 1) (generations_token s),
       Some (generation_issued ordinal (generations_token s)))
  end.

Inductive BindingReservationRejected (Key : Type) : Type :=
| Reservation_AlreadyBound (key : Key)
| Reservation_CapacityExhausted (key : Key)
| Reservation_GenerationsExhausted (key : Key).
Arguments Reservation_AlreadyBound {Key} _.
Arguments Reservation_CapacityExhausted {Key} _.
Arguments Reservation_GenerationsExhausted {Key} _.

(** ** The table *)

Record BindingTable (Key Role : Type) := mkTable {
  table_capacity : BindingCapacity;
  bindings : list (Binding Key Role);
  generations : GenerationSequence
}.
Arguments mkTable {Key Role} _ _ _.
Arguments table_capacity {Key Role} _.
Arguments bindings {Key Role} _.
Arguments generations {Key Role} _.

Record ReservedBinding (Key Role : Type) := mkReserved {
  reserved_position : nat;
  reserved_key : Key;
  reserved_generation : BindingGeneration;
  reserved_role : RoleName Role
}.
Arguments mkReserved {Key Role} _ _ _ _.
Arguments reserved_position {Key Role} _.
Arguments reserved_key {Key Role} _.
Arguments reserved_generation {Key Role} _.
Arguments reserved_role {Key Role} _.

Section Table.
  Context {Key Role : Type} `{!Ord Key, !EqDecision Role}.

Abbreviation table := (BindingTable Key Role).
Abbreviation evidence := (BindingEvidence Role).

Definition table_new (capacity : BindingCapacity) : Alloc table :=
  generations ← generations_new; mret (mkTable capacity [] generations).

(** [Vec::binary_search_by] *)
Fixpoint search (key : Key) (l : list (Binding Key Role)) : result nat nat :=
  match l with
  | [] => Err 0
  | b :: l =>
      if bool_decide (binding_key b = key) then Ok 0
      else if leb key (binding_key b) then Err 0
      else match search key l with Ok i => Ok (S i) | Err i => Err (S i) end
  end.

Definition table_position (t : table) (key : Key) : result nat nat := search key (bindings t).

Definition binding (t : table) (key : Key) : option evidence :=
  match table_position t key with
  | Ok position => binding_evidence <$> bindings t !! position
  | Err _ => None
  end.

(** [OccupiedBinding]: the position of the binding. *)
Definition occupied (t : table) (key : Key) : option nat :=
  match table_position t key with Ok position => Some position | Err _ => None end.

Definition reserve_binding (t : table) (key : Key) (role : RoleName Role) :
  table * result (ReservedBinding Key Role) (BindingReservationRejected Key) :=
  match table_position t key with
  | Ok _ => (t, Err (Reservation_AlreadyBound key))
  | Err position =>
      if length (bindings t) <? bindings_maximum (table_capacity t) then
        match generations_issue (generations t) with
        | (g, None) => (mkTable (table_capacity t) (bindings t) g, Err (Reservation_GenerationsExhausted key))
        | (g, Some generation) =>
            (mkTable (table_capacity t) (bindings t) g, Ok (mkReserved position key generation role))
        end
      else (t, Err (Reservation_CapacityExhausted key))
  end.

Definition remove_binding (t : table) (key : Key) : table * option (Key * evidence) :=
  match table_position t key with
  | Ok position =>
      (mkTable (table_capacity t) (delete position (bindings t)) (generations t),
       binding_into_parts <$> bindings t !! position)
  | Err _ => (t, None)
  end.

(** [extract_if] *)
Definition retire_role_bindings (t : table) (role : Role) : table * list (Key * evidence) :=
  let serves b := bool_decide (evidence_role (binding_evidence b) = role) in
  (mkTable (table_capacity t) (List.filter (fun b => negb (serves b)) (bindings t)) (generations t),
   binding_into_parts <$> List.filter serves (bindings t)).

Definition drain_bindings (t : table) : list (Key * evidence) := binding_into_parts <$> bindings t.

Definition rebind (t : table) (position : nat) (role : RoleName Role) : table * option (evidence * evidence) :=
  match generations_issue (generations t), bindings t !! position with
  | (g, Some generation), Some b =>
      let current := evidence_issued generation role in
      (mkTable (table_capacity t) (<[position := mkBinding (binding_key b) current]> (bindings t)) g,
       Some (binding_evidence b, current))
  | _, _ => (t, None)
  end.

Definition commit_binding (t : table) (r : ReservedBinding Key Role) : table * evidence :=
  let evidence := evidence_issued (reserved_generation r) (reserved_role r) in
  (mkTable (table_capacity t)
     (insert_at (reserved_position r) (mkBinding (reserved_key r) evidence) (bindings t)) (generations t),
   evidence).

Definition reject_binding_key (r : ReservedBinding Key Role) : Key := reserved_key r.

End Table.

(** ** What the table keeps *)

Section TableFacts.
  Context {Key Role : Type} `{!Ord Key, !EqDecision Role}.

Abbreviation table := (BindingTable Key Role).
Abbreviation evidence := (BindingEvidence Role).
Implicit Types (t : table) (l : list (Binding Key Role)).

Definition before (a b : Binding Key Role) : Prop := ltb (binding_key a) (binding_key b) = true.

(** Sorted by key, within the capacity, and every generation issued by this
    table before the next one. *)
Record table_ok (t : table) : Prop := {
  table_sorted : StronglySorted before (bindings t);
  table_bounded : length (bindings t) <= bindings_maximum (table_capacity t);
  table_issued : Forall (fun b => generation_token (generation (binding_evidence b)) = generations_token (generations t) /\
    below (next_generation (generations t)) (generation_ordinal (generation (binding_evidence b)))) (bindings t);
  table_distinct : NoDup (generation_ordinal ∘ generation ∘ binding_evidence <$> bindings t)
}.

Lemma search_spec key l : StronglySorted before l ->
  match search key l with
  | Ok i => exists b, l !! i = Some b /\ binding_key b = key
  | Err i => Forall (fun b => ltb (binding_key b) key = true) (take i l) /\
             Forall (fun b => ltb key (binding_key b) = true) (drop i l) /\ i <= length l
  end.
Proof.
  induction 1 as [|b l Hs IH Hb]; cbn [search]; [done|]. case_bool_decide as Heq; [by exists b|].
  destruct (leb key (binding_key b)) eqn:Hle.
  - assert (Hlt : ltb key (binding_key b) = true) by (apply ltb_or_eq in Hle as [Hlt|Hk]; [exact Hlt|congruence]).
    split_and!; [constructor| |simpl; lia]. constructor; [done|]. eapply Forall_impl; [exact Hb|].
    intros c Hc. by eapply ltb_trans.
  - apply leb_not in Hle. destruct (search key l) as [i|i]; [done|].
    destruct IH as (H1 & H2 & H3). split_and!; [by constructor|done|simpl; lia].
Qed.

Lemma absent_key key l i : Forall (fun b => ltb (binding_key b) key = true) (take i l) ->
  Forall (fun b => ltb key (binding_key b) = true) (drop i l) -> Forall (fun b => binding_key b <> key) l.
Proof.
  intros H1 H2. rewrite <- (take_drop i l). apply Forall_app.
  split; (eapply Forall_impl; [eassumption|]); cbn; intros b Hb Heq; subst key;
    by rewrite ltb_irrefl in Hb.
Qed.

Lemma before_keys l i j a b : StronglySorted before l -> l !! i = Some a -> l !! j = Some b ->
  binding_key a = binding_key b -> i = j.
Proof.
  intros Hs. revert i j. induction Hs as [|c l Hs IH Hc]; intros i j Hi Hj Heq; [done|].
  rewrite list.Forall_forall in Hc. destruct i as [|i], j as [|j]; simplify_eq/=; [done| | |f_equal; eauto].
  - apply list_elem_of_lookup_2, Hc in Hj. unfold before in Hj. by rewrite Heq, ltb_irrefl in Hj.
  - apply list_elem_of_lookup_2, Hc in Hi. unfold before in Hi. by rewrite Heq, ltb_irrefl in Hi.
Qed.

(** The table as a finite map. *)
Lemma binding_Some t key e : table_ok t -> binding t key = Some e <-> mkBinding key e ∈ bindings t.
Proof.
  intros [Hs _ _ _]. unfold binding, table_position. pose proof (search_spec key (bindings t) Hs) as H.
  destruct (search key (bindings t)) as [i|i].
  - destruct H as (b & Hb & Hk). rewrite Hb. simpl. split.
    + intros [= <-]. apply list_elem_of_lookup_2 in Hb. destruct b as [k e]. simpl in *. by subst k.
    + intros Hin. apply list_elem_of_lookup_1 in Hin as [j Hj].
      assert (i = j) as <- by (eapply before_keys; [exact Hs|exact Hb|exact Hj|by rewrite Hk]).
      rewrite Hj in Hb. injection Hb as <-. done.
  - destruct H as (H1 & H2 & _). split; [done|]. intros Hin. exfalso.
    pose proof (absent_key _ _ _ H1 H2) as Hn. rewrite list.Forall_forall in Hn. by apply (Hn _ Hin).
Qed.

Lemma binding_None t key : table_ok t -> binding t key = None <-> Forall (fun b => binding_key b <> key) (bindings t).
Proof.
  intros Hok. rewrite list.Forall_forall, eq_None_not_Some. split.
  - intros Hn [k e] Hin Hk. cbn in Hk. subst k. apply Hn. exists e. by apply binding_Some.
  - intros Hf [e He]. apply binding_Some in He; [|done]. by apply (Hf _ He).
Qed.

(** Two tables hold the same map. *)
Lemma binding_ext t t' key : table_ok t -> table_ok t' ->
  (forall e, mkBinding key e ∈ bindings t' <-> mkBinding key e ∈ bindings t) -> binding t' key = binding t key.
Proof. intros H1 H2 Hin. apply option_eq. intros e. by rewrite !binding_Some, Hin. Qed.

Lemma keyed_issue_spec g : match generations_issue g with
  | (g', None) => g' = g /\ next_generation g = None
  | (g', Some new) => next_generation g = Some (generation_ordinal new) /\ generation_token new = generations_token g /\
      generations_token g' = generations_token g /\
      below (next_generation g') (generation_ordinal new) /\
      (forall x, below (next_generation g) x -> below (next_generation g') x)
  end.
Proof.
  unfold generations_issue. destruct (next_generation g) as [n|] eqn:Hn; [|done]. cbn.
  split_and!; [done|done|done|apply below_next|]. intros x. apply below_checked_add.
Qed.

Lemma sorted_by_key l :
  StronglySorted before l <-> StronglySorted (fun a b => ltb a b = true) (binding_key <$> l).
Proof.
  induction l as [|b l IH]; [split; constructor|]. rewrite fmap_cons, !StronglySorted_cons, IH, Forall_fmap. done.
Qed.

Lemma sorted_sublist (R : relation (Binding Key Role)) l l' : sublist l' l -> StronglySorted R l -> StronglySorted R l'.
Proof.
  induction 1 as [|x l1 l2 Hs IH|x l1 l2 Hs IH]; intros H; [constructor| |]; apply StronglySorted_cons in H as [Hx Hl]; [|auto].
  apply StronglySorted_cons. split; [|auto]. rewrite list.Forall_forall in *. intros y Hy.
  apply Hx. by eapply elem_of_sublist.
Qed.

(** A table of which some bindings went. *)
Lemma table_ok_sublist t l' : table_ok t -> sublist l' (bindings t) ->
  table_ok (mkTable (table_capacity t) l' (generations t)).
Proof.
  intros [Hs Hb Hi Hd] Hsub. split; cbn.
  - by eapply sorted_sublist.
  - apply sublist_length in Hsub. lia.
  - rewrite list.Forall_forall in *. intros b Hin. apply Hi. by eapply elem_of_sublist.
  - eapply sublist_NoDup; [exact Hd|]. by apply fmap_sublist.
Qed.

Lemma table_new_ok capacity k k' t : table_new capacity k = (k', t) ->
  table_ok t /\ bindings t = [] /\ table_capacity t = capacity.
Proof. intros [= _ <-]. split; [|done]. split; cbn; [constructor|lia|constructor|constructor]. Qed.

(** A reservation changes no binding; at most a generation is used up. *)
Lemma reserve_spec t key role : table_ok t ->
  let '(t1, r) := reserve_binding t key role in
  table_ok t1 /\ bindings t1 = bindings t /\ table_capacity t1 = table_capacity t /\
  match r with
  | Ok res => binding t key = None /\ length (bindings t) < bindings_maximum (table_capacity t) /\
      reserved_key res = key /\
      let e := evidence_issued (reserved_generation res) role in
      next_generation (generations t) = Some (generation_ordinal (generation e)) /\
      let '(t2, e') := commit_binding t1 res in
      e' = e /\ table_ok t2 /\ table_capacity t2 = table_capacity t /\
      bindings t2 ≡ₚ mkBinding key e :: bindings t
  | Err (Reservation_AlreadyBound k) => k = key /\ t1 = t /\ exists e, binding t key = Some e
  | Err (Reservation_CapacityExhausted k) =>
      k = key /\ t1 = t /\ binding t key = None /\ length (bindings t) = bindings_maximum (table_capacity t)
  | Err (Reservation_GenerationsExhausted k) =>
      k = key /\ t1 = t /\ binding t key = None /\ next_generation (generations t) = None /\
      length (bindings t) < bindings_maximum (table_capacity t)
  end.
Proof.
  intros Hok. pose proof Hok as [Hs Hb Hi Hd]. unfold reserve_binding.
  pose proof (search_spec key (bindings t) Hs) as Hsearch. unfold table_position.
  destruct (search key (bindings t)) as [i|i] eqn:Hf.
  { destruct Hsearch as (b & Hb' & Hk). split_and!; auto. exists (binding_evidence b).
    unfold binding, table_position. by rewrite Hf, Hb'. }
  assert (Hnone : binding t key = None) by (unfold binding, table_position; by rewrite Hf).
  destruct Hsearch as (H1 & H2 & H3).
  destruct (Nat.ltb_spec (length (bindings t)) (bindings_maximum (table_capacity t))) as [Hlt|Hge];
    [|split_and!; auto; lia].
  pose proof (keyed_issue_spec (generations t)) as Hg. destruct (generations_issue (generations t)) as [g [new|]].
  2: { destruct Hg as [-> Hn]. destruct t. cbn in *. by split_and!. }
  destruct Hg as (Hn & Ht & Ht' & Hbel & Hmono).
  assert (Hi' : Forall (fun b => generation_token (generation (binding_evidence b)) = generations_token g /\
    below (next_generation g) (generation_ordinal (generation (binding_evidence b)))) (bindings t)).
  { eapply Forall_impl; [exact Hi|]. intros b [Hb1 Hb2]. split; [congruence|auto]. }
  split_and!; [by split|done|done|done|done|done|done|].
  cbn. pose proof (insert_at_Permutation i (mkBinding key (evidence_issued new role)) (bindings t)) as Hp.
  split_and!; [done| |done|exact Hp]. split; cbn [bindings generations table_capacity].
  - unfold insert_at. apply StronglySorted_app. rewrite <- (take_drop i (bindings t)) in Hs.
    apply StronglySorted_app in Hs as (Hx & Hs1 & Hs2). rewrite list.Forall_forall in H1, H2. split_and!; [|done|].
    + intros a b Ha [->|Hb2]%elem_of_cons; [by apply H1|by apply Hx].
    + apply StronglySorted_cons. split; [|done]. rewrite list.Forall_forall. intros b Hb2. by apply H2.
  - rewrite Hp. simpl. lia.
  - rewrite Hp. constructor; [cbn; split; [congruence|done]|done].
  - rewrite Hp. rewrite fmap_cons. apply NoDup_cons. split; [|done]. cbn.
    intros (b & Hb1 & Hb2)%list_elem_of_fmap. rewrite list.Forall_forall in Hi. apply Hi in Hb2 as [_ Hb2].
    cbn in Hb1. rewrite <- Hb1, Hn in Hb2. cbn in Hb2. lia.
Qed.

Lemma remove_binding_spec t key : table_ok t ->
  match remove_binding t key with
  | (t', Some (k, e)) => k = key /\ binding t key = Some e /\ table_ok t' /\ table_capacity t' = table_capacity t /\
      generations t' = generations t /\ bindings t ≡ₚ mkBinding key e :: bindings t'
  | (t', None) => t' = t /\ binding t key = None
  end.
Proof.
  intros Hok. unfold remove_binding, binding, table_position.
  pose proof (search_spec key (bindings t) (table_sorted _ Hok)) as Hsearch.
  destruct (search key (bindings t)) as [i|i]; [|done]. destruct Hsearch as ([k e] & Hb & Hk). cbn in Hk. subst k.
  rewrite Hb. cbn. split_and!; [done|done| |done|done|by apply delete_Permutation].
  apply table_ok_sublist; [done|]. apply sublist_delete.
Qed.

Lemma rebind_spec t key e role : table_ok t -> binding t key = Some e ->
  exists i, occupied t key = Some i /\
  match rebind t i role with
  | (t', Some (prior, current)) =>
      prior = e /\ evidence_role_name current = role /\
      next_generation (generations t) = Some (generation_ordinal (generation current)) /\
      table_ok t' /\ table_capacity t' = table_capacity t /\
      exists rest, bindings t ≡ₚ mkBinding key e :: rest /\ bindings t' ≡ₚ mkBinding key current :: rest
  | (t', None) => t' = t /\ next_generation (generations t) = None
  end.
Proof.
  intros Hok. pose proof Hok as [Hs Hb Hi Hd]. unfold binding, occupied, table_position.
  pose proof (search_spec key (bindings t) Hs) as Hsearch.
  destruct (search key (bindings t)) as [i|i]; [|done]. destruct Hsearch as ([k e'] & Hl & Hk). cbn in Hk. subst k.
  rewrite Hl. intros [= <-]. exists i. split; [done|]. unfold rebind.
  pose proof (keyed_issue_spec (generations t)) as Hg. destruct (generations_issue (generations t)) as [g [new|]].
  2: { by destruct Hg. }
  destruct Hg as (Hn & Ht & Ht' & Hbel & Hmono). rewrite Hl. cbn [binding_key binding_evidence].
  pose proof (delete_Permutation _ _ _ Hl) as Hp.
  set (b' := mkBinding key (evidence_issued new role)).
  assert (Hp' : <[i := b']> (bindings t) ≡ₚ b' :: delete i (bindings t)).
  { by rewrite <- (insert_at_delete i b' _ _ Hl), insert_at_Permutation. }
  split_and!; [done|done|done| |done|by exists (delete i (bindings t))].
  rewrite Hp in Hi, Hd. inversion_clear Hi as [|? ? [Hb1 Hb2] Hrest]. rewrite fmap_cons in Hd.
  apply NoDup_cons in Hd as [Hd1 Hd2]. split; cbn [bindings generations table_capacity].
  - apply sorted_by_key. rewrite list_fmap_insert. cbn.
    rewrite list_insert_id; [|by rewrite list_lookup_fmap, Hl]. by apply sorted_by_key.
  - by rewrite length_insert.
  - rewrite Hp'. constructor; [cbn; split; [congruence|done]|]. eapply Forall_impl; [exact Hrest|].
    intros b [Hb3 Hb4]. split; [congruence|auto].
  - rewrite Hp', fmap_cons. apply NoDup_cons. split; [|done]. cbn.
    intros (b & Hb5 & Hb6)%list_elem_of_fmap. rewrite list.Forall_forall in Hrest. apply Hrest in Hb6 as [_ Hb6].
    cbn in Hb5. rewrite <- Hb5, Hn in Hb6. cbn in Hb6. lia.
Qed.

Lemma retire_role_spec t role : table_ok t ->
  let '(t', gone) := retire_role_bindings t role in
  table_ok t' /\ table_capacity t' = table_capacity t /\ generations t' = generations t /\
  Forall (fun b => evidence_role (binding_evidence b) <> role) (bindings t') /\
  Forall (fun ke => evidence_role ke.2 = role) gone /\
  (binding_into_parts <$> bindings t) ≡ₚ gone ++ (binding_into_parts <$> bindings t').
Proof.
  intros Hok. unfold retire_role_bindings. cbn. split_and!; auto.
  - apply table_ok_sublist; [done|]. induction (bindings t) as [|b l IH]; simpl; [constructor|].
    destruct (negb _); by constructor.
  - induction (bindings t) as [|b l IH]; simpl; [constructor|]. case_bool_decide; simpl; [done|by constructor].
  - induction (bindings t) as [|b l IH]; simpl; [constructor|]. case_bool_decide; simpl; [by constructor|done].
  - induction (bindings t) as [|b l IH]; simpl; [constructor|]. case_bool_decide; simpl; [by constructor|].
    rewrite <- Permutation_middle. by constructor.
Qed.

(** What lookup sees of a change of one key. *)
Lemma binding_added t t' key e : table_ok t -> table_ok t' -> bindings t' ≡ₚ mkBinding key e :: bindings t ->
  binding t key = None -> forall k, binding t' k = if bool_decide (k = key) then Some e else binding t k.
Proof.
  intros H1 H2 Hp Hn k. case_bool_decide as Hk.
  - subst k. apply binding_Some; [done|]. rewrite Hp. by left.
  - apply binding_ext; [done..|]. intros e'. rewrite Hp, elem_of_cons. naive_solver.
Qed.

(** The other bindings are of other keys. *)
Lemma binding_alone t key e rest : table_ok t -> bindings t ≡ₚ mkBinding key e :: rest ->
  forall e', ~ mkBinding key e' ∈ rest.
Proof.
  intros Hok Hp e' Hin.
  assert (He : binding t key = Some e) by (apply binding_Some; [done|]; rewrite Hp; by left).
  assert (He' : binding t key = Some e') by (apply binding_Some; [done|]; rewrite Hp; by right).
  assert (e' = e) as -> by congruence. pose proof (table_distinct _ Hok) as Hd. rewrite Hp, fmap_cons in Hd.
  apply NoDup_cons in Hd as [Hd _]. apply Hd. apply list_elem_of_fmap. by exists (mkBinding key e).
Qed.

Lemma binding_replaced t t' key e e' rest : table_ok t -> table_ok t' ->
  bindings t ≡ₚ mkBinding key e :: rest -> bindings t' ≡ₚ mkBinding key e' :: rest ->
  forall k, binding t' k = if bool_decide (k = key) then Some e' else binding t k.
Proof.
  intros H1 H2 Hp Hp' k. case_bool_decide as Hk.
  - subst k. apply binding_Some; [done|]. rewrite Hp'. by left.
  - apply binding_ext; [done..|]. intros x. rewrite Hp, Hp', !elem_of_cons. naive_solver.
Qed.

Lemma binding_removed t t' key e : table_ok t -> table_ok t' -> bindings t ≡ₚ mkBinding key e :: bindings t' ->
  forall k, binding t' k = if bool_decide (k = key) then None else binding t k.
Proof.
  intros H1 H2 Hp k. case_bool_decide as Hk.
  - subst k. apply binding_None; [done|]. rewrite list.Forall_forall. intros [k' e'] Hin. cbn. intros ->.
    by apply (binding_alone t key e (bindings t') H1 Hp e').
  - apply binding_ext; [done..|]. intros x. rewrite Hp, !elem_of_cons. naive_solver.
Qed.

(** ** Successive tables

    A binding of the later table is one of the earlier, or has a generation that
    the earlier had not issued. *)
Record tabled (t t' : table) : Prop := {
  tabled_token : generations_token (generations t') = generations_token (generations t);
  tabled_next n : below (next_generation (generations t)) n -> below (next_generation (generations t')) n;
  tabled_new b : b ∈ bindings t' ->
    b ∈ bindings t \/ ~ below (next_generation (generations t)) (generation_ordinal (generation (binding_evidence b)))
}.

Lemma tabled_refl t : tabled t t.
Proof. split; auto. Qed.

Lemma tabled_trans t1 t2 t3 : tabled t1 t2 -> tabled t2 t3 -> tabled t1 t3.
Proof.
  intros [A1 A2 A3] [B1 B2 B3]. split; [congruence|auto|]. intros b [Hb|Hb]%B3; [by apply A3|]. right. auto.
Qed.

(** No binding is added. *)
Lemma tabled_fewer t t' : generations t' = generations t -> (forall b, b ∈ bindings t' -> b ∈ bindings t) -> tabled t t'.
Proof. intros Hg Hb. split; rewrite ?Hg; auto. Qed.

Lemma tabled_issued t t' g new :
  generations_issue (generations t) = (g, Some new) -> generations t' = g ->
  (forall b, b ∈ bindings t' -> b ∈ bindings t \/ generation (binding_evidence b) = new) -> tabled t t'.
Proof.
  intros Hi Hg Hb. pose proof (keyed_issue_spec (generations t)) as Hs. rewrite Hi in Hs. destruct Hs as (Hn & Ht & Ht' & _ & Hmono).
  split; [congruence|rewrite Hg; auto|]. intros b [?| ->]%Hb; [by left|right]. rewrite Hn. cbn. lia.
Qed.

Lemma reserve_tabled t key role :
  let '(t1, r) := reserve_binding t key role in
  tabled t t1 /\ forall res, r = Ok res -> tabled t (commit_binding t1 res).1.
Proof.
  unfold reserve_binding. destruct (table_position t key) as [i|i]; [split; [apply tabled_refl|done]|].
  destruct (_ <? _); [|split; [apply tabled_refl|done]].
  destruct (generations_issue (generations t)) as [g [new|]] eqn:Hg.
  - split; [eapply tabled_issued; [exact Hg|done|auto]|]. intros res [= <-].
    eapply tabled_issued; [exact Hg|done|]. cbn [commit_binding fst bindings]. intros b. rewrite insert_at_Permutation, elem_of_cons.
    intros [->|?]; [by right|by left].
  - split; [|done]. apply tabled_fewer; [|auto]. pose proof (keyed_issue_spec (generations t)) as Hs. rewrite Hg in Hs. apply Hs.
Qed.

Lemma rebind_tabled t i role : tabled t (rebind t i role).1.
Proof.
  unfold rebind. destruct (generations_issue (generations t)) as [g [new|]] eqn:Hg; [|apply tabled_refl].
  destruct (bindings t !! i) as [b|] eqn:Hb; [|apply tabled_refl].
  eapply tabled_issued; [exact Hg|done|]. cbn. intros b' (j & Hj)%list_elem_of_lookup.
  apply list_lookup_insert_Some in Hj as [(_ & <- & _)|[_ Hj]]; [by right|left].
  by apply list_elem_of_lookup_2 in Hj.
Qed.

End TableFacts.
