(* ===== verification/KeyedProtocol.v ===== *)
(** * The keyed pool: commands, outcomes, events, diagnostics, requests and state

    [templates/pool/router/protocol.rs], [event.rs], [requests.rs], [job.rs],
    [role.rs], the construction of [config.rs] and the state types of [mod.rs]. *)

From stdpp Require Import base list option numbers.
From S2P Require Import Prelude Effects BTreeMap Timers Restart Termination Settlement Interpretation Creation.
From S2P Require Import Workers WorkerPreparation WorkerStartup ProxyWorker PoolAssignment PoolPolicy PoolWorker PoolMembers.
From S2P Require Import KeyedBinding.

(** [job.rs] *)
Record KeyedCustomer (Role Route : Type) := mkKeyedCustomer {
  customer_binding : BindingEvidence Role;
  customer_route : Route
}.
Arguments mkKeyedCustomer {Role Route} _ _.
Arguments customer_binding {Role Route} _.
Arguments customer_route {Role Route} _.

(** The type parameters of a keyed pool: those of a pool, with ordered keys,
    roles compared by [Eq], and the endpoints of its two kinds of reply route. *)
Class KeyedTypes := {
  keyed_workers : WorkerTypes;
  KeyedRole : Type;
  keyed_role_eq : EqDecision KeyedRole;
  KeyedSource : Type;
  KeyedWorkerRejection : Type;
  KeyedSourceRejection : Type;
  KeyedJob : Type;
  KeyedResult : Type;
  Key : Type;
  #[global] key_ord :: Ord Key;
  CustomerEndpoint : Type;
  ManagementEndpoint : Type;
  DiagnosticRoute : Type
}.

(** The customer of an accepted job is its route and its binding. *)
#[export] Instance keyed_pool_types `{KT : KeyedTypes} : PoolTypes := {|
  pool_workers := keyed_workers;
  Role := KeyedRole;
  Source := KeyedSource;
  WorkerRejection := KeyedWorkerRejection;
  SourceRejection := KeyedSourceRejection;
  Job := KeyedJob;
  WorkerResult := KeyedResult;
  Customer := KeyedCustomer KeyedRole (ReplyRoute (@Addr keyed_workers) CustomerEndpoint)
|}.

#[export] Instance keyed_role_dec `{KT : KeyedTypes} : EqDecision Role := keyed_role_eq.

(** ** Binding management ([protocol.rs]) *)

Inductive BindingRejection : Type :=
| Binding_StaleExpectation (actual : BindingExpectation)
| Binding_UnknownTarget
| Binding_TargetUnavailable
| Binding_CapacityExhausted
| Binding_GenerationExhausted
| Binding_ShuttingDown.

Inductive KeyedAdmissionRejection : Type :=
| Keyed_ShuttingDown
| Keyed_BindingCapacityExhausted
| Keyed_UnknownSelectedRole
| Keyed_RoleUnavailable
| Keyed_RoleBacklogFull
| Keyed_NoRecoverableWorkers
| Keyed_BindingGenerationExhausted
| Keyed_JobCorrelationExhausted
| Keyed_AssignmentCorrelationExhausted.

Inductive KeyedQueuedReturnReason : Type :=
| Queued_PoolShutdown
| Queued_RolePermanentlyUnavailable
| Queued_NoRecoverableWorkers
| Queued_AssignmentCorrelationExhausted.

Inductive KeyedAssignedReturnReason : Type :=
| Assigned_PoolShutdown
| Assigned_RolePermanentlyUnavailable
| Assigned_WorkerStopped
| Assigned_AssignmentReturned
| Assigned_RetryPreparationRejected
| Assigned_ContradictoryAssignmentSettlement.

(** [pool/mod.rs] *)
Inductive ShutdownRequested : Type := the_ShutdownRequested.

Section KeyedOutcomes.
  Context `{KT : KeyedTypes}.

Definition CustomerRoute : Type := ReplyRoute Addr CustomerEndpoint.
Definition ManagementRoute : Type := ReplyRoute Addr ManagementEndpoint.

Inductive BindingChange : Type :=
| Rebalance (target : Role)
| Unbind.

Record BindingCommand := mkBindingCommand {
  command_request : BindingRequestId;
  command_key : Key;
  command_expected : BindingExpectation;
  command_change : BindingChange;
  command_reply : ManagementRoute
}.

Definition command_rebalance (request : BindingRequestId) (key : Key) (expected : BindingExpectation)
  (target : Role) (reply : ManagementRoute) : BindingCommand :=
  mkBindingCommand request key expected (Rebalance target) reply.

Definition command_unbind (request : BindingRequestId) (key : Key) (expected : BindingExpectation)
  (reply : ManagementRoute) : BindingCommand :=
  mkBindingCommand request key expected Unbind reply.

Definition command_from_parts (request : BindingRequestId) (key : Key) (expected : BindingExpectation)
  (change : BindingChange) (reply : ManagementRoute) : BindingCommand :=
  mkBindingCommand request key expected change reply.

Definition command_into_parts (c : BindingCommand) :
  BindingRequestId * Key * BindingExpectation * BindingChange * ManagementRoute :=
  (command_request c, command_key c, command_expected c, command_change c, command_reply c).

Inductive BindingReply : Type :=
| Reply_Bound (request : BindingRequestId) (current : BindingEvidence Role)
| Reply_Rebalanced (request : BindingRequestId) (prior current : BindingEvidence Role)
| Reply_Unchanged (request : BindingRequestId) (current : BindingEvidence Role)
| Reply_Unbound (request : BindingRequestId) (key : Key) (removed : BindingEvidence Role)
| Reply_AlreadyUnbound (command : BindingCommand)
| Reply_Rejected (command : BindingCommand) (reason : BindingRejection).

(** ** Customer outcomes *)

Inductive KeyedOutcome : Type :=
| Keyed_Accepted (submission : SubmissionId) (job : JobId) (binding : BindingEvidence Role)
| Keyed_Rejected (submission : SubmissionId) (key : Key) (payload : Job) (reason : KeyedAdmissionRejection)
| Keyed_Completed (job : JobId) (binding : BindingEvidence Role) (r : WorkerResult)
| Keyed_ReturnedQueued (job : JobId) (binding : BindingEvidence Role) (payload : Job)
    (reason : KeyedQueuedReturnReason)
| Keyed_ReturnedAssigned (job : JobId) (binding : BindingEvidence Role) (payload : Job)
    (reason : KeyedAssignedReturnReason).

(** [KeyedRequest] *)
Inductive KeyedRequest : Type :=
| Submit (submission : SubmissionId) (key : Key) (payload : Job) (customer : CustomerRoute)
| Request_Binding (command : BindingCommand)
| Request_Shutdown.

Record KeyedCommand := from_request { into_request : KeyedRequest }.

Definition keyed_submit (submission : SubmissionId) (key : Key) (payload : Job) (customer : CustomerRoute) :
  KeyedCommand := from_request (Submit submission key payload customer).

Definition keyed_rebalance (request : BindingRequestId) (key : Key) (expected : BindingExpectation)
  (target : Role) (reply : ManagementRoute) : KeyedCommand :=
  from_request (Request_Binding (command_rebalance request key expected target reply)).

Definition keyed_unbind (request : BindingRequestId) (key : Key) (expected : BindingExpectation)
  (reply : ManagementRoute) : KeyedCommand :=
  from_request (Request_Binding (command_unbind request key expected reply)).

Definition keyed_binding (command : BindingCommand) : KeyedCommand := from_request (Request_Binding command).

Definition keyed_shutdown : KeyedCommand := from_request Request_Shutdown.

(** [ChildReport<Completion<WorkerResult>>] *)
Record CompletionReport := mkCompletionReport { report_child : CreationId; report : Completion }.

(** ** Events ([event.rs]) *)

Inductive KeyedEvent : Type :=
| Event_Command (u : User Addr KeyedCommand)
| Event_WorkerCreationsSettled
    (workers : CreationsSettled Nonce (StopOnShutdown Worker) WorkerError HostedInitialization Installed)
| Event_WorkerInitialization (r : WorkerInitializationReport)
| Event_WorkerStartupReported (s : WorkerStartup)
| Event_WorkerStopped (stopped : ChildStopped Addr)
| Event_WorkerCompleted (r : CompletionReport)
| Event_AssignmentSettled (r : AssignmentResult)
| Event_WorkerPreparationStarted
    (r : ActionItemResult (PrepareWorkers Source Role) WorkerPreparationStarted Never Never)
| Event_WorkerPreparationReturned
    (r : WorkerPreparation Source Role Worker Plan WorkerRejection SourceRejection)
| Event_RestartScheduleSettled (r : ScheduleResult)
| Event_RestartElapsed (e : TimerElapsed TimerId)
| Event_WorkerShutdownSettled (s : EstablishedShutdownResolved)
| Event_Shutdown (s : ShutdownRequested).

Definition KeyedEvent_user (from : Addr) (message : KeyedCommand) : KeyedEvent :=
  Event_Command (mkUser from message).

Definition KeyedEvent_into_user (e : KeyedEvent) : result (User Addr KeyedCommand) KeyedEvent :=
  match e with Event_Command u => Ok u | e => Err e end.

#[export] Instance KeyedEvent_User : UserEvent Addr KeyedCommand KeyedEvent := {
  user := KeyedEvent_user;
  into_user := KeyedEvent_into_user
}.

(** ** Diagnostics *)

Inductive KeyedDiagnosticCause : Type :=
| Diag_BindingRemoved (key : Key) (binding : BindingEvidence Role)
| Diag_WorkerCreationRejected (role : RoleName Role)
    (rejection : WorkerCreationRejection Worker WorkerError HostedInitialization) (startup : Plan)
    (stopped : option (ChildStopped Addr))
| Diag_StoppedWorkerEstablished (role : RoleName Role) (worker : CurrentWorker) (startup : Plan)
    (stopped : ChildStopped Addr)
| Diag_UnmatchedWorkerReturn (i : CreationId) (k : CreationKind)
    (rejection : WorkerCreationRejection Worker WorkerError HostedInitialization)
| Diag_UnusedStartup (role : RoleName Role) (permit : option StartupPermit) (startup : Plan)
| Diag_WorkerStartupReturned (role : RoleName Role) (worker : WorkerAttempt) (startup : WorkerStartupGrant)
    (outcome : WorkerStartupOutcome)
| Diag_WorkerShutdownRejected (role : RoleName Role) (shutdown : EstablishedShutdownResolved)
| Diag_WorkerReplacementCancelled (role : RoleName Role) (replacement : PendingWorkerReplacement)
| Diag_WorkerPreparationFailed (role : RoleName Role) (previous : WorkerAttempt)
    (stopped : ChildStopped Addr) (returned_source : option Source) (error : WorkerPreparationError)
| Diag_WorkerReplacementFailed (role : RoleName Role) (previous : WorkerAttempt)
    (stopped : ChildStopped Addr) (submission : WorkerSubmission Worker Plan)
    (returned_source : option Source) (error : WorkerReplacementError)
| Unexpected (input : KeyedEvent).

Record KeyedDiagnostic := mkKeyedDiagnostic { cause : KeyedDiagnosticCause }.

(** ** Requests ([requests.rs]) *)

Record KeyedRequests := mkKeyedRequests {
  worker_observations : InterpreterRequests ObserveChild;
  worker_initializations : InterpreterRequests InitializeWorker;
  worker_startups : InterpreterRequests StartWorker;
  customer_outcomes : InterpreterRequests (CustomerDelivery Addr CustomerEndpoint KeyedOutcome);
  binding_replies : ReplyDeliveries (Delivery Addr BindingReply) (EstablishedDelivery ManagementEndpoint BindingReply);
  worker_assignments : list AssignWorker;
  worker_preparations : list (PrepareWorkers Source Role);
  restart_schedules : list (ScheduleAfter TimerId);
  worker_shutdowns : InterpreterRequests (ShutdownEstablished Installed);
  diagnostics : InterpreterRequests (DiagnosticAction DiagnosticRoute KeyedDiagnostic)
}.

#[export] Instance KeyedRequests_Sends : SendEffects KeyedRequests := {
  sends_empty :=
    mkKeyedRequests sends_empty sends_empty sends_empty sends_empty sends_empty [] [] [] sends_empty sends_empty;
  sends_append a b :=
    mkKeyedRequests (sends_append (worker_observations a) (worker_observations b))
      (sends_append (worker_initializations a) (worker_initializations b))
      (sends_append (worker_startups a) (worker_startups b))
      (sends_append (customer_outcomes a) (customer_outcomes b))
      (sends_append (binding_replies a) (binding_replies b))
      (worker_assignments a ++ worker_assignments b)
      (worker_preparations a ++ worker_preparations b)
      (restart_schedules a ++ restart_schedules b)
      (sends_append (worker_shutdowns a) (worker_shutdowns b))
      (sends_append (diagnostics a) (diagnostics b))
}.

Definition KeyedActions : Type := Actions (StopOnShutdown Worker) Never KeyedRequests.

(** ** Role cells ([role.rs]) *)

Definition KeyedQueue : Type := @BTreeMap AdmissionOrdinal CustomerJob.

Record RoleCell := mkCell {
  cell_member : Member;
  cell_queue : KeyedQueue;
  cell_capacity : BacklogCapacity
}.

Definition cell_new (m : Member) (capacity : BacklogCapacity) : RoleCell := mkCell m [] capacity.

Definition cell_role (c : RoleCell) : Role := named_role (member_role (cell_member c)).

Inductive AdmissionTarget : Type :=
| Target_Assign
| Target_Queue
| Target_QueueFull
| Target_Unavailable.

Inductive ManagementTarget : Type := Management_Bindable | Management_Unavailable.

Definition queue_target (c : RoleCell) : AdmissionTarget :=
  if length (cell_queue c) <? backlog_maximum (cell_capacity c) then Target_Queue else Target_QueueFull.

Definition admission_target (c : RoleCell) : AdmissionTarget :=
  match member_state (cell_member c) with
  | Member_Creating _ | Member_Recovering _ => queue_target c
  | Member_Worker (mkPoolWorker _ phase) =>
      match phase with
      | Phase_Idle => Target_Assign
      | Phase_Initializing _ None | Phase_WaitingForStartup _ _ | Phase_StartupRequested _ None
      | Phase_Starting _ None | Phase_Busy _ => queue_target c
      | Phase_Initializing _ (Some _) | Phase_StartupRequested _ (Some _) | Phase_Starting _ (Some _)
      | Phase_Stopping _ => Target_Unavailable
      end
  | Member_Retired => Target_Unavailable
  end.

Definition management_target (c : RoleCell) : ManagementTarget :=
  match member_state (cell_member c) with
  | Member_Creating _ | Member_Recovering _ => Management_Bindable
  | Member_Worker (mkPoolWorker _ phase) =>
      match phase with
      | Phase_Initializing _ None | Phase_WaitingForStartup _ _ | Phase_StartupRequested _ None
      | Phase_Starting _ None | Phase_Idle | Phase_Busy _ => Management_Bindable
      | Phase_Initializing _ (Some _) | Phase_StartupRequested _ (Some _) | Phase_Starting _ (Some _)
      | Phase_Stopping _ => Management_Unavailable
      end
  | Member_Retired => Management_Unavailable
  end.

(** ** State ([mod.rs]) *)

Record KeyedOperating := mkOperating {
  roles : list RoleCell;
  affinity : BindingTable Key Role
}.

(** [AdmissionBinding] *)
Inductive AdmissionBinding : Type :=
| Binding_Retained (submitted_key : Key) (evidence : BindingEvidence Role)
| Binding_Reserved (r : ReservedBinding Key Role).

Inductive KeyedPoolState : Type :=
| State_Constructed (prepared : list (PreparedWorker Role Worker Plan))
| State_Operating (o : KeyedOperating)
| State_Retiring (workers : list RetiringWorker) (deadline : ShutdownDeadline)
| State_Stopped
| State_ForcedRetirement (workers : list RetiringWorker) (cause : ForcedRetirementCause).

Inductive KeyedError : Type := InitializationUnavailable | WorkerCreationsExhausted.

Record KeyedPool := mkKeyedPool {
  state : KeyedPoolState;
  selector : Key -> Role;
  startup_limit : StartupLimit;
  recovery : PoolRecoveryState Source;
  restarts : RestartBudget;
  backlog : BacklogCapacity;
  binding_capacity : BindingCapacity;
  interruption : Interruption;
  actor_drain : ActorDrainPolicy;
  diagnostics_to : DiagnosticDisposition DiagnosticRoute;
  creations : CreationSequence;
  jobs : AcceptedJobSequence;
  assignments : AssignmentSequence;
  shutdowns : ShutdownSequence;
  next_restart_timer : N
}.

(** ** Construction ([config.rs]) *)

Record Config := mkConfig {
  config_startup : StartupLimit;
  config_recovery : PoolRecovery Source;
  config_backlog : BacklogCapacity;
  config_bindings : BindingCapacity;
  config_interruption : Interruption;
  config_shutdown : ActorDrainPolicy;
  config_diagnostics : DiagnosticDisposition DiagnosticRoute
}.

Record KeyedConstructionRejected (F Rej : Type) := mkConstructionRejected {
  rejected_workers : InitialWorkerRejection F Role Worker Plan Rej;
  rejected_selector : Key -> Role;
  rejected_config : Config
}.
Arguments mkConstructionRejected {F Rej} _ _ _.
Arguments rejected_workers {F Rej} _.
Arguments rejected_selector {F Rej} _.
Arguments rejected_config {F Rej} _.

Definition pool_of (prepared : list (PreparedWorker Role Worker Plan)) (selector : Key -> Role) (c : Config) :
  KeyedPool :=
  mkKeyedPool (State_Constructed prepared) selector (config_startup c) (recovery_from (config_recovery c))
    budget_empty (config_backlog c) (config_bindings c) (config_interruption c) (config_shutdown c)
    (config_diagnostics c) CreationSequence_new jobs_new assignments_new shutdowns_new 1.

End KeyedOutcomes.

Arguments mkConstructionRejected {KT F Rej} _ _ _.
Arguments rejected_workers {KT F Rej} _.
Arguments rejected_selector {KT F Rej} _.
Arguments rejected_config {KT F Rej} _.
