(* ===== verification/KeyedRetirement.v ===== *)
(** * The retirement of a keyed pool

    [templates/pool/router/shutdown.rs]: the end of operation
    ([begin_retirement]) and the answers that the retiring workers still owe.

    A method with [&mut self] takes and returns [self], the allocator of [Arc]
    tokens paired with the pool, whose state was moved out. *)

From stdpp Require Import base list option numbers.
From S2P Require Import Prelude Effects BTreeMap Timers Restart Termination Settlement Interpretation Creation.
From S2P Require Import Workers WorkerPreparation WorkerStartup ProxyWorker PoolAssignment PoolPolicy PoolWorker PoolMembers.
From S2P Require Import KeyedBinding KeyedProtocol.

Section KeyedRetirement.
  Context `{KT : KeyedTypes}.

Abbreviation settled_workers :=
  (CreationsSettled Nonce (StopOnShutdown Worker) WorkerError HostedInitialization Installed).
Abbreviation worker_creation := (CreateChild (StopOnShutdown Worker)).
Abbreviation child_settlement :=
  (WorkerCreationSettlement Nonce Worker WorkerError HostedInitialization Installed).
Abbreviation creation_rejection := (WorkerCreationRejection Worker WorkerError HostedInitialization).
Abbreviation start_result := (ActionItemResult (PrepareWorkers Source Role) WorkerPreparationStarted Never Never).
Abbreviation preparation := (WorkerPreparation Source Role Worker Plan WorkerRejection SourceRejection).
Abbreviation role_name := (RoleName Role).

(** ** Field updates *)

Definition Self : Type := nat * KeyedPool.

Definition alloc {X} (self : Self) (m : Alloc X) : Self * X :=
  let '(n, x) := m self.1 in ((n, self.2), x).

Definition set_state (p : KeyedPool) (s : KeyedPoolState) : KeyedPool :=
  mkKeyedPool s (selector p) (startup_limit p) (recovery p) (restarts p) (backlog p) (binding_capacity
    p) (interruption p) (actor_drain p) (diagnostics_to p) (creations p) (jobs p) (assignments p)
    (shutdowns p) (next_restart_timer p).

Definition set_recovery (self : Self) (r : PoolRecoveryState Source) : Self :=
  let '(n, p) := self in
  (n, mkKeyedPool (state p) (selector p) (startup_limit p) r (restarts p) (backlog p) (binding_capacity p)
    (interruption p) (actor_drain p) (diagnostics_to p) (creations p) (jobs p) (assignments p)
    (shutdowns p) (next_restart_timer p)).

Definition set_restarts (self : Self) (b : RestartBudget) : Self :=
  let '(n, p) := self in
  (n, mkKeyedPool (state p) (selector p) (startup_limit p) (recovery p) b (backlog p) (binding_capacity p)
    (interruption p) (actor_drain p) (diagnostics_to p) (creations p) (jobs p) (assignments p)
    (shutdowns p) (next_restart_timer p)).

Definition set_creations (self : Self) (c : CreationSequence) : Self :=
  let '(n, p) := self in
  (n, mkKeyedPool (state p) (selector p) (startup_limit p) (recovery p) (restarts p) (backlog p)
    (binding_capacity p) (interruption p) (actor_drain p) (diagnostics_to p) c (jobs p) (assignments
    p) (shutdowns p) (next_restart_timer p)).

Definition set_jobs (self : Self) (j : AcceptedJobSequence) : Self :=
  let '(n, p) := self in
  (n, mkKeyedPool (state p) (selector p) (startup_limit p) (recovery p) (restarts p) (backlog p)
    (binding_capacity p) (interruption p) (actor_drain p) (diagnostics_to p) (creations p) j
    (assignments p) (shutdowns p) (next_restart_timer p)).

Definition set_assignments (self : Self) (a : AssignmentSequence) : Self :=
  let '(n, p) := self in
  (n, mkKeyedPool (state p) (selector p) (startup_limit p) (recovery p) (restarts p) (backlog p)
    (binding_capacity p) (interruption p) (actor_drain p) (diagnostics_to p) (creations p) (jobs p)
    a (shutdowns p) (next_restart_timer p)).

Definition set_shutdowns (self : Self) (s : ShutdownSequence) : Self :=
  let '(n, p) := self in
  (n, mkKeyedPool (state p) (selector p) (startup_limit p) (recovery p) (restarts p) (backlog p)
    (binding_capacity p) (interruption p) (actor_drain p) (diagnostics_to p) (creations p) (jobs p)
    (assignments p) s (next_restart_timer p)).

Definition set_next_restart_timer (self : Self) (t : N) : Self :=
  let '(n, p) := self in
  (n, mkKeyedPool (state p) (selector p) (startup_limit p) (recovery p) (restarts p) (backlog p)
    (binding_capacity p) (interruption p) (actor_drain p) (diagnostics_to p) (creations p) (jobs p)
    (assignments p) (shutdowns p) t).

Definition on_observations (f : InterpreterRequests ObserveChild ->
    InterpreterRequests ObserveChild) : KeyedActions -> KeyedActions :=
  map_sends (fun r => mkKeyedRequests (f (worker_observations r)) (worker_initializations r)
    (worker_startups r) (customer_outcomes r) (binding_replies r) (worker_assignments r)
    (worker_preparations r) (restart_schedules r) (worker_shutdowns r) (diagnostics r)).

Definition on_initializations (f : InterpreterRequests InitializeWorker ->
    InterpreterRequests InitializeWorker) : KeyedActions -> KeyedActions :=
  map_sends (fun r => mkKeyedRequests (worker_observations r) (f (worker_initializations r))
    (worker_startups r) (customer_outcomes r) (binding_replies r) (worker_assignments r)
    (worker_preparations r) (restart_schedules r) (worker_shutdowns r) (diagnostics r)).

Definition on_startups (f : InterpreterRequests StartWorker ->
    InterpreterRequests StartWorker) : KeyedActions -> KeyedActions :=
  map_sends (fun r => mkKeyedRequests (worker_observations r) (worker_initializations r) (f
    (worker_startups r)) (customer_outcomes r) (binding_replies r) (worker_assignments r)
    (worker_preparations r) (restart_schedules r) (worker_shutdowns r) (diagnostics r)).

Definition on_outcomes (f : InterpreterRequests (CustomerDelivery Addr CustomerEndpoint KeyedOutcome) ->
    InterpreterRequests (CustomerDelivery Addr CustomerEndpoint KeyedOutcome)) : KeyedActions -> KeyedActions :=
  map_sends (fun r => mkKeyedRequests (worker_observations r) (worker_initializations r)
    (worker_startups r) (f (customer_outcomes r)) (binding_replies r) (worker_assignments r)
    (worker_preparations r) (restart_schedules r) (worker_shutdowns r) (diagnostics r)).

Definition on_replies (f : ReplyDeliveries (Delivery Addr BindingReply) (EstablishedDelivery ManagementEndpoint BindingReply) ->
    ReplyDeliveries (Delivery Addr BindingReply) (EstablishedDelivery ManagementEndpoint BindingReply)) : KeyedActions -> KeyedActions :=
  map_sends (fun r => mkKeyedRequests (worker_observations r) (worker_initializations r)
    (worker_startups r) (customer_outcomes r) (f (binding_replies r)) (worker_assignments r)
    (worker_preparations r) (restart_schedules r) (worker_shutdowns r) (diagnostics r)).

Definition on_assignments (f : list AssignWorker ->
    list AssignWorker) : KeyedActions -> KeyedActions :=
  map_sends (fun r => mkKeyedRequests (worker_observations r) (worker_initializations r)
    (worker_startups r) (customer_outcomes r) (binding_replies r) (f (worker_assignments r))
    (worker_preparations r) (restart_schedules r) (worker_shutdowns r) (diagnostics r)).

Definition on_preparations (f : list (PrepareWorkers Source Role) ->
    list (PrepareWorkers Source Role)) : KeyedActions -> KeyedActions :=
  map_sends (fun r => mkKeyedRequests (worker_observations r) (worker_initializations r)
    (worker_startups r) (customer_outcomes r) (binding_replies r) (worker_assignments r) (f
    (worker_preparations r)) (restart_schedules r) (worker_shutdowns r) (diagnostics r)).

Definition on_schedules (f : list (ScheduleAfter TimerId) ->
    list (ScheduleAfter TimerId)) : KeyedActions -> KeyedActions :=
  map_sends (fun r => mkKeyedRequests (worker_observations r) (worker_initializations r)
    (worker_startups r) (customer_outcomes r) (binding_replies r) (worker_assignments r)
    (worker_preparations r) (f (restart_schedules r)) (worker_shutdowns r) (diagnostics r)).

Definition on_shutdowns (f : InterpreterRequests (ShutdownEstablished Installed) ->
    InterpreterRequests (ShutdownEstablished Installed)) : KeyedActions -> KeyedActions :=
  map_sends (fun r => mkKeyedRequests (worker_observations r) (worker_initializations r)
    (worker_startups r) (customer_outcomes r) (binding_replies r) (worker_assignments r)
    (worker_preparations r) (restart_schedules r) (f (worker_shutdowns r)) (diagnostics r)).

Definition on_diagnostics (f : InterpreterRequests (DiagnosticAction DiagnosticRoute KeyedDiagnostic) ->
    InterpreterRequests (DiagnosticAction DiagnosticRoute KeyedDiagnostic)) : KeyedActions -> KeyedActions :=
  map_sends (fun r => mkKeyedRequests (worker_observations r) (worker_initializations r)
    (worker_startups r) (customer_outcomes r) (binding_replies r) (worker_assignments r)
    (worker_preparations r) (restart_schedules r) (worker_shutdowns r) (f (diagnostics r))).

Definition keyed_cont : KeyedActions := cont.

Definition set_become (b : Become Never) (a : KeyedActions) : KeyedActions := mkActions (sends a) (creates a) b.

(** [actions.sends.diagnostics.append(one(self.diagnostics.action(cause.into())))] *)
Definition diagnosed (self : Self) (c : KeyedDiagnosticCause) : KeyedActions -> KeyedActions :=
  on_diagnostics (append_one (diagnostic_action (diagnostics_to self.2) (mkKeyedDiagnostic c))).

(** [actions.sends.customer_outcomes.append(one(CustomerDelivery::outcome(route, outcome)))] *)
Definition answered (route : CustomerRoute) (o : KeyedOutcome) : KeyedActions -> KeyedActions :=
  on_outcomes (append_one (customer_outcome route o)).

(** [actions.sends.customer_outcomes = one(CustomerDelivery::outcome(route, outcome))] *)
Definition answers (route : CustomerRoute) (o : KeyedOutcome) : KeyedActions -> KeyedActions :=
  on_outcomes (fun _ => InterpreterRequests_one (customer_outcome route o)).

Definition diagnose (self : Self) (s : KeyedPoolState) (input : KeyedEvent) : KeyedPoolState * KeyedActions :=
  (s, on_diagnostics (fun _ => InterpreterRequests_one
        (diagnostic_action (diagnostics_to self.2) (mkKeyedDiagnostic (Unexpected input)))) keyed_cont).

(** ** The end of operation *)

Definition returned_queued (reason : KeyedQueuedReturnReason) (j : CustomerJob) : KeyedActions -> KeyedActions :=
  answered (customer_route (job_customer j))
    (Keyed_ReturnedQueued (job_id j) (customer_binding (job_customer j)) (job_payload j) reason).

Definition return_assigned (j : CustomerJob) (reason : KeyedAssignedReturnReason) : KeyedActions -> KeyedActions :=
  answered (customer_route (job_customer j))
    (Keyed_ReturnedAssigned (job_id j) (customer_binding (job_customer j)) (job_payload j) reason).

Fixpoint return_queue (reason : KeyedQueuedReturnReason) (q : KeyedQueue) (a : KeyedActions) : KeyedActions :=
  match q with
  | [] => a
  | (_, customer) :: q => return_queue reason q (returned_queued reason customer a)
  end.

Fixpoint diagnose_bindings (self : Self) (l : list (Key * BindingEvidence Role)) (a : KeyedActions) : KeyedActions :=
  match l with
  | [] => a
  | (key, binding) :: l => diagnose_bindings self l (diagnosed self (Diag_BindingRemoved key binding) a)
  end.

(** What the retirement of one member returns. *)
Definition retirement_returns (self : Self) (role : role_name) (custody : RetirementReturns)
  (a : KeyedActions) : KeyedActions :=
  match custody with
  | Returns_NoTransfer => a
  | Returns_Assignment (mkAssignmentShutdown customer worker _ completion) =>
      let a := return_assigned customer Assigned_PoolShutdown a in
      match completion with
      | Some completion =>
          diagnosed self (Unexpected (Event_WorkerCompleted
            (mkCompletionReport (attempt_creation worker) completion))) a
      | None => a
      end
  | Returns_Replacement replacement =>
      diagnosed self (Diag_WorkerReplacementCancelled role replacement) a
  end.

Fixpoint retire_cells (self : Self) (ids : option (list ShutdownId)) (l : list RoleCell)
  (workers : list RetiringWorker) (a : KeyedActions) : list RetiringWorker * KeyedActions :=
  match l with
  | [] => (workers, a)
  | cell :: l =>
      let a := return_queue Queued_PoolShutdown (cell_queue cell) a in
      let member := cell_member cell in
      let '(id, ids) :=
        match ids, shutdown_target member with
        | Some ids, Some _ => (head ids, Some (tail ids))
        | ids, _ => (None, ids)
        end in
      let '(mkMemberRetirement retiring request custody) := member_shutdown member id in
      let a := match request with
               | Some request => on_shutdowns (append_one request) a
               | None => a
               end in
      retire_cells self ids l (workers ++ [retiring]) (retirement_returns self (member_role member) custody a)
  end.

Definition continue_retirement (workers : list RetiringWorker) (deadline : ShutdownDeadline)
  (schedule : option (ScheduleAfter TimerId)) (a : KeyedActions) : KeyedPoolState * KeyedActions :=
  let a := match schedule with
           | Some schedule => on_schedules (send_item schedule) a
           | None => a
           end in
  match deadline with
  | NotScheduled settlement =>
      (State_ForcedRetirement workers (DeadlineNotScheduled settlement), set_become (Stop the_Stopped) a)
  | Elapsed elapsed =>
      (State_ForcedRetirement workers (DeadlineElapsed elapsed), set_become (Stop the_Stopped) a)
  | Unlimited | Scheduling _ | Waiting _ =>
      if any_waiting workers then (State_Retiring workers deadline, a)
      else (State_Stopped, set_become (Stop the_Stopped) a)
  end.

Definition begin_retirement (self : Self) (o : KeyedOperating) (a : KeyedActions) :
  Self * (KeyedPoolState * KeyedActions) :=
  let a := diagnose_bindings self (drain_bindings (affinity o)) a in
  let required := length (omap (shutdown_target ∘ cell_member) (roles o)) in
  let '(shutdowns, ids) := reserve (shutdowns self.2) required in
  let self := set_shutdowns self shutdowns in
  let '(workers, a) := retire_cells self ids (roles o) [] a in
  match ids with
  | None =>
      (self, (State_ForcedRetirement workers WorkerShutdownIdsExhausted, set_become (Stop the_Stopped) a))
  | Some _ =>
      let '(deadline, schedule) := deadline_begin (actor_drain self.2) in
      (self, continue_retirement workers deadline schedule a)
  end.

(** ** Retiring *)

Definition retain_retired_worker (self : Self) (w : WorkerDeparture) (a : KeyedActions) : KeyedActions :=
  let '(mkDeparture role startup shutdown) := w in
  let a :=
    match startup with
    | Some (Custody_StartupPlan startup) => diagnosed self (Diag_UnusedStartup role None startup) a
    | Some (Custody_StartupPermit permit startup) =>
        diagnosed self (Diag_UnusedStartup role (Some permit) startup) a
    | Some (Custody_Initializing _ | Custody_StartupRequested _ | Custody_Starting _) | None => a
    end in
  match shutdown with
  | ShutdownAccepted _ => a
  | shutdown => diagnosed self (Diag_WorkerShutdownRejected role shutdown) a
  end.

Definition retain_worker (self : Self) (custody : WorkerCustody) (workers : list RetiringWorker)
  (a : KeyedActions) : Self * (option ForcedRetirementCause * list RetiringWorker * KeyedActions) :=
  match custody with
  | Worker_Running role worker startup =>
      let '(shutdowns, reserved) := reserve (shutdowns self.2) 1 in
      let self := set_shutdowns self shutdowns in
      let shutdown := match reserved with Some ids => list.last ids | None => None end in
      let exhausted := match shutdown with Some _ => None | None => Some WorkerShutdownIdsExhausted end in
      let '(worker, request) := retire_worker role worker (Some (Custody_StartupPlan startup)) shutdown in
      let a := match request with
               | Some request => on_shutdowns (append_one request) a
               | None => a
               end in
      (self, (exhausted, workers ++ [worker], a))
  | Worker_Rejected role rejection startup stopped =>
      (self, (None, workers, diagnosed self (Diag_WorkerCreationRejected role rejection startup stopped) a))
  | Worker_Stopped role worker startup stopped =>
      (self, (None, workers, diagnosed self (Diag_StoppedWorkerEstablished role worker startup stopped) a))
  end.

Definition finish_creations (self : Self) (remaining : list RetiringWorker) (deadline : ShutdownDeadline)
  (forced : option ForcedRetirementCause) (a : KeyedActions) : Self * (KeyedPoolState * KeyedActions) :=
  match forced with
  | Some cause => (self, (State_ForcedRetirement remaining cause, set_become (Stop the_Stopped) a))
  | None => (self, continue_retirement remaining deadline None a)
  end.

Fixpoint correlated_loop (self : Self) (position : nat) (workers : list RetiringWorker)
  (received : @BTreeMap nat child_settlement) (remaining : list RetiringWorker)
  (forced : option ForcedRetirementCause) (a : KeyedActions) :
  Self * (list RetiringWorker * option ForcedRetirementCause * KeyedActions) :=
  match workers with
  | [] => (self, (remaining, forced, a))
  | worker :: workers =>
      match bt_remove position received with
      | None => correlated_loop self (S position) workers received (remaining ++ [worker]) forced a
      | Some (settlement, received) =>
          match accept_creation worker settlement with
          | Ok custody =>
              let '(self, (exhausted, remaining, a)) := retain_worker self custody remaining a in
              correlated_loop self (S position) workers received remaining (option_or forced exhausted) a
          | Err (worker, creation) =>
              correlated_loop self (S position) workers received (remaining ++ [worker]) forced
                (diagnosed self (Unexpected (Event_WorkerCreationsSettled
                   (Creation_Settled (Creations_one creation)))) a)
          end
      end
  end.

Definition accept_correlated_creations (self : Self) (workers : list RetiringWorker)
  (deadline : ShutdownDeadline) (received : @BTreeMap nat child_settlement) :
  Self * (KeyedPoolState * KeyedActions) :=
  let '(self, (remaining, forced, a)) := correlated_loop self 0 workers received [] None keyed_cont in
  finish_creations self remaining deadline forced a.

Fixpoint correlated_rejections_loop (self : Self) (position : nat) (workers : list RetiringWorker)
  (returned : @BTreeMap nat (CreationId * CreationKind * creation_rejection)) (remaining : list RetiringWorker)
  (forced : option ForcedRetirementCause) (a : KeyedActions) :
  Self * (list RetiringWorker * option ForcedRetirementCause * KeyedActions) :=
  match workers with
  | [] => (self, (remaining, forced, a))
  | worker :: workers =>
      match bt_remove position returned with
      | None => correlated_rejections_loop self (S position) workers returned (remaining ++ [worker]) forced a
      | Some ((id, kind, rejection), returned) =>
          match accept_creation_rejection worker id kind rejection with
          | Ok custody =>
              let '(self, (exhausted, remaining, a)) := retain_worker self custody remaining a in
              correlated_rejections_loop self (S position) workers returned remaining (option_or forced exhausted) a
          | Err (worker, id, kind, rejection) =>
              correlated_rejections_loop self (S position) workers returned (remaining ++ [worker]) forced
                (diagnosed self (Diag_UnmatchedWorkerReturn id kind rejection) a)
          end
      end
  end.

Definition accept_correlated_creation_rejections (self : Self) (workers : list RetiringWorker)
  (deadline : ShutdownDeadline) (returned : @BTreeMap nat (CreationId * CreationKind * creation_rejection)) :
  Self * (KeyedPoolState * KeyedActions) :=
  let '(self, (remaining, forced, a)) := correlated_rejections_loop self 0 workers returned [] None keyed_cont in
  finish_creations self remaining deadline forced a.

(** The rejected creations of a batch, at their positions. *)
Definition rejected_returns (rejection : CreationBatchRejection) (positions : list nat)
  (creations : Creations worker_creation) : @BTreeMap nat (CreationId * CreationKind * creation_rejection) :=
  collect_map (zip positions ((fun creation =>
    (id creation, kind creation, batch_worker rejection (into_inner (child creation)))) <$> items creations)).

Definition reject_worker_creations (self : Self) (workers : list RetiringWorker) (deadline : ShutdownDeadline)
  (creations : Creations worker_creation) (rejection : CreationBatchRejection) :
  Self * (KeyedPoolState * KeyedActions) :=
  match ordered_creation_positions (retiring_expected_creation <$> workers)
          ((fun creation => (id creation, kind creation)) <$> items creations) with
  | None =>
      (self, diagnose self (State_Retiring workers deadline)
               (Event_WorkerCreationsSettled (batch_settlement rejection creations)))
  | Some positions =>
      accept_correlated_creation_rejections self workers deadline (rejected_returns rejection positions creations)
  end.

Definition accept_worker_creations (self : Self) (workers : list RetiringWorker) (deadline : ShutdownDeadline)
  (creations : settled_workers) : Self * (KeyedPoolState * KeyedActions) :=
  match creations with
  | Creation_Settled settlements =>
      match identities ← mapM creation_identity (items settlements);
            ordered_creation_positions (retiring_expected_creation <$> workers) identities with
      | None =>
          (self, diagnose self (State_Retiring workers deadline)
                   (Event_WorkerCreationsSettled (Creation_Settled settlements)))
      | Some positions =>
          accept_correlated_creations self workers deadline (collect_map (zip positions (items settlements)))
      end
  | Creation_Rejected creations _ =>
      reject_worker_creations self workers deadline creations Batch_NamespaceExhausted
  | Creation_Corrupt creations fault =>
      reject_worker_creations self workers deadline creations (Batch_InterpreterCorrupt fault)
  end.

Definition retiring_worker_exit (self : Self) (workers : list RetiringWorker) (deadline : ShutdownDeadline)
  (stopped : ChildStopped Addr) : KeyedPoolState * KeyedActions :=
  match PoolWorker.accept_worker_exit workers stopped with
  | Ok (Flow_Continue workers) => (State_Retiring workers deadline, keyed_cont)
  | Ok (Flow_Break (workers, worker)) =>
      continue_retirement workers deadline None (retain_retired_worker self worker keyed_cont)
  | Err (workers, stopped) => diagnose self (State_Retiring workers deadline) (Event_WorkerStopped stopped)
  end.

Definition retiring_worker_shutdown (self : Self) (workers : list RetiringWorker) (deadline : ShutdownDeadline)
  (settlement : EstablishedShutdownResolved) : KeyedPoolState * KeyedActions :=
  match PoolWorker.accept_worker_shutdown workers settlement with
  | Ok (Flow_Continue workers) => (State_Retiring workers deadline, keyed_cont)
  | Ok (Flow_Break (workers, worker)) =>
      continue_retirement workers deadline None (retain_retired_worker self worker keyed_cont)
  | Err (workers, settlement) =>
      diagnose self (State_Retiring workers deadline) (Event_WorkerShutdownSettled settlement)
  end.

Definition retiring_worker_initialization (self : Self) (workers : list RetiringWorker)
  (deadline : ShutdownDeadline) (input : WorkerInitializationReport) : KeyedPoolState * KeyedActions :=
  match PoolWorker.accept_worker_initialization workers input with
  | RetiringInit_Returned workers report =>
      diagnose self (State_Retiring workers deadline) (Event_WorkerInitialization report)
  | RetiringInit_WorkerStopped workers departure role startup =>
      let a := diagnosed self (Diag_UnusedStartup role None startup) keyed_cont in
      let a := match departure with
               | Some departure => retain_retired_worker self departure a
               | None => a
               end in
      continue_retirement workers deadline None a
  end.

Definition retiring_worker_startup (self : Self) (workers : list RetiringWorker) (deadline : ShutdownDeadline)
  (input : WorkerStartup) : KeyedPoolState * KeyedActions :=
  match PoolWorker.accept_worker_startup workers input with
  | RetiringStartup_Started workers => continue_retirement workers deadline None keyed_cont
  | RetiringStartup_Returned workers role worker startup outcome =>
      continue_retirement workers deadline None
        (diagnosed self (Diag_WorkerStartupReturned role worker startup outcome) keyed_cont)
  | RetiringStartup_Unrelated workers startup =>
      diagnose self (State_Retiring workers deadline) (Event_WorkerStartupReported startup)
  end.

Definition accept_retired_preparation_start (self : Self) (workers : list RetiringWorker)
  (deadline : ShutdownDeadline) (input : start_result) : Self * (KeyedPoolState * KeyedActions) :=
  match accept_retiring_worker_preparation_start workers input with
  | Ok (Flow_Continue workers) => (self, continue_retirement workers deadline None keyed_cont)
  | Ok (Flow_Break (workers, failed)) =>
      let '(r, restored) := restore_source (recovery self.2) (failed_source failed) in
      let self := set_recovery self r in
      let '(returned_source, error) :=
        match restored with
        | Ok _ => (None, start_fault_error (failed_fault failed))
        | Err source => (Some source, Preparation_SourceStateCorrupt)
        end in
      (self, continue_retirement workers deadline None
        (diagnosed self (Diag_WorkerPreparationFailed (failed_role failed) (failed_previous failed)
           (failed_stopped failed) returned_source error) keyed_cont))
  | Err (workers, input) =>
      (self, diagnose self (State_Retiring workers deadline) (Event_WorkerPreparationStarted input))
  end.

Definition accept_retired_preparation_return (self : Self) (workers : list RetiringWorker)
  (deadline : ShutdownDeadline) (input : preparation) : Self * (KeyedPoolState * KeyedActions) :=
  match accept_retiring_worker_preparation_return workers input with
  | Err (workers, input) =>
      (self, diagnose self (State_Retiring workers deadline) (Event_WorkerPreparationReturned input))
  | Ok (workers, returned) =>
      let '(self, diagnostic) :=
        match returned with
        | Preparation_Ready (mkPreparedReplacement role _ previous stopped source submission) =>
            let '(r, restored) := restore_source (recovery self.2) source in
            let '(returned_source, error) :=
              match restored with
              | Ok _ => (None, Replacement_PoolShutdown)
              | Err source => (Some source, Replacement_SourceStateCorrupt)
              end in
            (set_recovery self r,
             Diag_WorkerReplacementFailed role previous stopped submission returned_source error)
        | Preparation_Failed role _ previous stopped source error =>
            let '(r, restored) := restore_source (recovery self.2) source in
            let '(returned_source, error) :=
              match restored with
              | Ok _ => (None, error)
              | Err source => (Some source, Preparation_SourceStateCorrupt)
              end in
            (set_recovery self r, Diag_WorkerPreparationFailed role previous stopped returned_source error)
        end in
      (self, continue_retirement workers deadline None (diagnosed self diagnostic keyed_cont))
  end.

Definition accept_retirement_schedule (self : Self) (workers : list RetiringWorker) (deadline : ShutdownDeadline)
  (settled : ScheduleResult) : KeyedPoolState * KeyedActions :=
  match take_at (awaits_restart_schedule settled) workers with
  | Some (position, mkRetiring role state, rest) =>
      match state with
      | Retirement_AwaitingRestartSchedule replacement _ =>
          continue_retirement (insert_at position (mkRetiring role Retirement_Drained) rest) deadline None
            (diagnosed self (Diag_WorkerReplacementFailed role (replacement_previous replacement)
               (replacement_stopped replacement) (replacement_submission replacement) None
               (Replacement_RestartScheduleReturned settled)) keyed_cont)
      | state =>
          diagnose self (State_Retiring (insert_at position (mkRetiring role state) rest) deadline)
            (Event_RestartScheduleSettled settled)
      end
  | None =>
      match accept_schedule deadline settled with
      | (deadline, Ok _) => continue_retirement workers deadline None keyed_cont
      | (deadline, Err settled) =>
          diagnose self (State_Retiring workers deadline) (Event_RestartScheduleSettled settled)
      end
  end.

Definition accept_deadline (self : Self) (workers : list RetiringWorker) (deadline : ShutdownDeadline)
  (elapsed : TimerElapsed TimerId) : KeyedPoolState * KeyedActions :=
  match accept_elapsed deadline elapsed with
  | (deadline, Ok _) => continue_retirement workers deadline None keyed_cont
  | (deadline, Err elapsed) =>
      diagnose self (State_Retiring workers deadline) (Event_RestartElapsed elapsed)
  end.

End KeyedRetirement.
