(* ===== verification/KeyedPool.v ===== *)
(** * The operating keyed pool: admission, service and bindings

    [templates/pool/router/mod.rs]: the admission of a submission to the role
    that its key is bound to, the service of each role's own backlog, startup
    under its limit and the management of bindings.  Recovery and the joins of
    assignments are in KeyedRecovery.v and KeyedAssignment.v, the end of
    operation is in KeyedRetirement.v and the entry points [init] and
    [transition] are in KeyedTransition.v. *)

From stdpp Require Import base list option numbers.
From S2P Require Import Prelude Effects BTreeMap Timers Restart Termination Settlement Interpretation Creation.
From S2P Require Import Workers WorkerPreparation WorkerStartup ProxyWorker PoolAssignment PoolPolicy PoolWorker PoolMembers.
From S2P Require Import KeyedBinding KeyedProtocol KeyedRetirement.

Section KeyedPool.
  Context `{KT : KeyedTypes}.

Abbreviation role_name := (RoleName Role).
Abbreviation evidence := (BindingEvidence Role).

Definition with_roles (o : KeyedOperating) (l : list RoleCell) : KeyedOperating := mkOperating l (affinity o).

Definition with_affinity (o : KeyedOperating) (t : BindingTable Key Role) : KeyedOperating :=
  mkOperating (roles o) t.

(** [operating.roles.insert(position, cell)] *)
Definition put_cell (o : KeyedOperating) (position : nat) (c : RoleCell) : KeyedOperating :=
  with_roles o (insert_at position c (roles o)).

(** [operating.roles.insert(position, RoleCell { member: Member { role, recoveries, state }, queue, capacity })] *)
Definition put (o : KeyedOperating) (position : nat) (role : role_name) (recoveries : RecoveryCount)
  (s : MemberState) (queue : KeyedQueue) (capacity : BacklogCapacity) : KeyedOperating :=
  put_cell o position (mkCell (mkMember role recoveries s) queue capacity).

(** [operating.roles.remove(position)] at the position that a search found *)
Definition take_cell (p : Member -> bool) (o : KeyedOperating) : option (nat * RoleCell * KeyedOperating) :=
  '(position, cell, rest) ← take_at (p ∘ cell_member) (roles o);
  Some (position, cell, with_roles o rest).

(** ** Positions *)

Definition role_position (o : KeyedOperating) (role : Role) : option nat :=
  position (fun cell => bool_decide (cell_role cell = role)) (roles o).

(** The position with [operating.roles[position]]. *)
Definition role_cell (o : KeyedOperating) (role : Role) : option (nat * RoleCell) :=
  position ← role_position o role; cell ← roles o !! position; Some (position, cell).

Definition binding_expectation (o : KeyedOperating) (key : Key) : BindingExpectation :=
  match binding (affinity o) key with
  | Some evidence => Expect_Exact (generation evidence)
  | None => Expect_Absent
  end.

Definition creation_positions (o : KeyedOperating) (identities : list (CreationId * CreationKind)) :
  option (list nat) :=
  ordered_creation_positions (expected_creation ∘ cell_member <$> roles o) identities.

(** ** Admission *)

Definition admission_commit (t : BindingTable Key Role) (b : AdmissionBinding) :
  BindingTable Key Role * evidence :=
  match b with
  | Binding_Retained _ evidence => (t, evidence)
  | Binding_Reserved r => commit_binding t r
  end.

Definition admission_reject (b : AdmissionBinding) : Key :=
  match b with
  | Binding_Retained submitted_key _ => submitted_key
  | Binding_Reserved r => reject_binding_key r
  end.

Definition reject_submission (o : KeyedOperating) (submission : SubmissionId) (key : Key) (payload : Job)
  (customer : CustomerRoute) (reason : KeyedAdmissionRejection) : KeyedOperating * KeyedActions :=
  (o, on_outcomes (fun _ => InterpreterRequests_one
        (customer_rejected customer (Keyed_Rejected submission key payload reason))) keyed_cont).

(** The binding that a submission is admitted with: the position of its role
    and the proposal, or the rejection. *)
Definition propose_binding (self : Self) (o : KeyedOperating) (key : Key) :
  KeyedOperating * result (nat * RoleCell * AdmissionBinding) (Key * KeyedAdmissionRejection) :=
  match binding (affinity o) key with
  | Some evidence =>
      match role_cell o (evidence_role evidence) with
      | None => (o, Err (key, Keyed_RoleUnavailable))
      | Some (position, cell) => (o, Ok (position, cell, Binding_Retained key evidence))
      end
  | None =>
      match role_cell o (selector self.2 key) with
      | None => (o, Err (key, Keyed_UnknownSelectedRole))
      | Some (position, cell) =>
          let '(t, reserved) := reserve_binding (affinity o) key (member_role (cell_member cell)) in
          (with_affinity o t,
           match reserved with
           | Ok reserved => Ok (position, cell, Binding_Reserved reserved)
           | Err (Reservation_CapacityExhausted key) => Err (key, Keyed_BindingCapacityExhausted)
           | Err (Reservation_GenerationsExhausted key) => Err (key, Keyed_BindingGenerationExhausted)
           | Err (Reservation_AlreadyBound key) => Err (key, Keyed_RoleUnavailable)
           end)
      end
  end.

Definition accept_submission (self : Self) (o : KeyedOperating) (submission : SubmissionId) (key : Key)
  (payload : Job) (customer : CustomerRoute) : Self * (KeyedOperating * KeyedActions) :=
  match propose_binding self o key with
  | (o, Err (key, reason)) => (self, reject_submission o submission key payload customer reason)
  | (o, Ok (position, cell, proposed)) =>
      let rejected reason :=
        reject_submission o submission (admission_reject proposed) payload customer reason in
      let admitted_with job admitted t binding :=
        (with_affinity o t, mkCustomerJob job admitted payload (mkKeyedCustomer binding customer),
         answers customer (Keyed_Accepted submission job binding) keyed_cont) in
      match admission_target cell with
      | Target_QueueFull => (self, rejected Keyed_RoleBacklogFull)
      | Target_Unavailable => (self, rejected Keyed_RoleUnavailable)
      | Target_Assign =>
          let '(jobs, admission) := jobs_issue (jobs self.2) in
          let self := set_jobs self jobs in
          match admission, cell with
          | None, _ => (self, rejected Keyed_JobCorrelationExhausted)
          | Some (job, admitted),
            mkCell (mkMember role recoveries (Member_Worker (mkPoolWorker current Phase_Idle))) queue capacity =>
              let '(assignments, m) := assign (assignments self.2) (attempt current) payload in
              let self := set_assignments self assignments in
              let '(self, assigned) := alloc self m in
              match assigned with
              | None => (self, rejected Keyed_AssignmentCorrelationExhausted)
              | Some (correlation, assignment) =>
                  let request := assign_worker_new (current_recipient current) correlation assignment in
                  let '(t, binding) := admission_commit (affinity o) proposed in
                  let '(o, obligation, a) := admitted_with job admitted t binding in
                  let busy := Member_Worker (mkPoolWorker current (Phase_Busy (assigned_new obligation correlation))) in
                  (self, (with_roles o (<[position := mkCell (mkMember role recoveries busy) queue capacity]> (roles o)),
                          on_assignments (send_item request) a))
              end
          | Some _, _ => (self, rejected Keyed_RoleUnavailable)
          end
      | Target_Queue =>
          let '(jobs, admission) := jobs_issue (jobs self.2) in
          let self := set_jobs self jobs in
          match admission with
          | None => (self, rejected Keyed_JobCorrelationExhausted)
          | Some (job, admitted) =>
              let '(t, binding) := admission_commit (affinity o) proposed in
              let '(o, obligation, a) := admitted_with job admitted t binding in
              (self, (with_roles o (<[position := mkCell (cell_member cell)
                                        (bt_insert admitted obligation (cell_queue cell)) (cell_capacity cell)]>
                                      (roles o)), a))
          end
      end
  end.

(** ** Service of one role *)

Definition fill_role (self : Self) (o : KeyedOperating) (position : nat) (a : KeyedActions) :
  Self * (KeyedOperating * KeyedActions) :=
  match roles o !! position with
  | Some (mkCell (mkMember role recoveries (Member_Worker (mkPoolWorker current Phase_Idle)))
            ((_, customer) :: queue) capacity) =>
      let '(assignments, m) := assign (assignments self.2) (attempt current) (job_payload customer) in
      let self := set_assignments self assignments in
      let '(self, assigned) := alloc self m in
      let serve phase :=
        with_roles o (<[position := mkCell (mkMember role recoveries (Member_Worker (mkPoolWorker current phase)))
                                      queue capacity]> (roles o)) in
      match assigned with
      | None => (self, (serve Phase_Idle, returned_queued Queued_AssignmentCorrelationExhausted customer a))
      | Some (correlation, assignment) =>
          let request := assign_worker_new (current_recipient current) correlation assignment in
          (self, (serve (Phase_Busy (assigned_new customer correlation)), on_assignments (send_item request) a))
      end
  | _ => (self, (o, a))
  end.

(** ** Startup under its limit *)

Fixpoint authorize_loop (available : nat) (self : Self) (o : KeyedOperating) (a : KeyedActions) :
  Self * (KeyedOperating * KeyedActions) :=
  match available with
  | 0 => (self, (o, a))
  | S available =>
      match take_cell waits_for_startup o with
      | None => (self, (o, a))
      | Some (position, mkCell member queue capacity, o) =>
          match authorize_startup member with
          | Ok m =>
              let '(self, (member, request)) := alloc self m in
              authorize_loop available self (put_cell o position (mkCell member queue capacity))
                (on_startups (append_one request) a)
          | Err member => (self, (put_cell o position (mkCell member queue capacity), a))
          end
      end
  end.

Definition authorize_waiting (self : Self) (o : KeyedOperating) (a : KeyedActions) :
  Self * (KeyedOperating * KeyedActions) :=
  let occupied := length (List.filter (holds_startup ∘ cell_member) (roles o)) in
  authorize_loop (startup_maximum (startup_limit self.2) - occupied) self o a.

Definition accept_initialization (self : Self) (o : KeyedOperating) (input : WorkerInitializationReport) :
  Self * result (KeyedOperating * KeyedActions) (KeyedOperating * WorkerInitializationReport) :=
  match take_cell (has_attempt (report_worker input)) o with
  | None => (self, Err (o, input))
  | Some (position, mkCell member queue capacity, o) =>
      match admit_initialization member input with
      | Ok member =>
          let '(self, result) :=
            authorize_waiting self (put_cell o position (mkCell member queue capacity)) keyed_cont in
          (self, Ok result)
      | Err (member, input) => (self, Err (put_cell o position (mkCell member queue capacity), input))
      end
  end.

Definition accept_startup (self : Self) (o : KeyedOperating) (input : WorkerStartup) :
  Self * result (KeyedOperating * KeyedActions) (KeyedOperating * WorkerStartup) :=
  match take_cell (has_attempt (startup_worker input)) o with
  | None => (self, Err (o, input))
  | Some (position, mkCell member queue capacity, o) =>
      match admit_startup member input with
      | Ok member =>
          let o := put_cell o position (mkCell member queue capacity) in
          let '(self, (o, a)) :=
            if is_idle member then fill_role self o position keyed_cont else (self, (o, keyed_cont)) in
          let '(self, result) := authorize_waiting self o a in
          (self, Ok result)
      | Err (member, input) => (self, Err (put_cell o position (mkCell member queue capacity), input))
      end
  end.

(** ** Binding management *)

(** [actions.sends.binding_replies = reply.deliver(..)] *)
Definition replies (reply : ManagementRoute) (r : BindingReply) : KeyedActions :=
  on_replies (fun _ => deliver reply r) keyed_cont.

Definition reject_binding (o : KeyedOperating) (command : BindingCommand) (reason : BindingRejection) :
  KeyedOperating * KeyedActions :=
  (o, replies (command_reply command) (Reply_Rejected command reason)).

(** A key without a binding is bound to the target. *)
Definition bind_absent (o : KeyedOperating) (command : BindingCommand) (target : role_name) :
  KeyedOperating * KeyedActions :=
  let '(request, key, expected, change, reply) := command_into_parts command in
  match reserve_binding (affinity o) key target with
  | (t, Ok reserved) =>
      let '(t, current) := commit_binding t reserved in
      (with_affinity o t, replies reply (Reply_Bound request current))
  | (t, Err rejection) =>
      let o := with_affinity o t in
      let '(key, reason) :=
        match rejection with
        | Reservation_AlreadyBound key => (key, Binding_StaleExpectation (binding_expectation o key))
        | Reservation_CapacityExhausted key => (key, Binding_CapacityExhausted)
        | Reservation_GenerationsExhausted key => (key, Binding_GenerationExhausted)
        end in
      reject_binding o (command_from_parts request key expected change reply) reason
  end.

(** A bound key is moved to the target. *)
Definition rebind_exact (o : KeyedOperating) (command : BindingCommand) (target : role_name) :
  KeyedOperating * KeyedActions :=
  let '(request, key, _, _, reply) := command_into_parts command in
  match binding (affinity o) key with
  | None => reject_binding o command (Binding_StaleExpectation Expect_Absent)
  | Some current =>
      if bool_decide (evidence_role current = named_role target) then
        (o, replies reply (Reply_Unchanged request current))
      else
        match occupied (affinity o) key with
        | None => reject_binding o command Binding_GenerationExhausted
        | Some position =>
            match rebind (affinity o) position target with
            | (t, None) => reject_binding (with_affinity o t) command Binding_GenerationExhausted
            | (t, Some (prior, current)) =>
                (with_affinity o t, replies reply (Reply_Rebalanced request prior current))
            end
        end
  end.

Definition accept_binding (o : KeyedOperating) (command : BindingCommand) : KeyedOperating * KeyedActions :=
  let actual := binding_expectation o (command_key command) in
  if negb (bool_decide (command_expected command = actual)) then
    reject_binding o command (Binding_StaleExpectation actual)
  else
    match command_change command with
    | Rebalance target =>
        match role_cell o target with
        | None => reject_binding o command Binding_UnknownTarget
        | Some (_, cell) =>
            match management_target cell with
            | Management_Unavailable => reject_binding o command Binding_TargetUnavailable
            | Management_Bindable =>
                let target := member_role (cell_member cell) in
                match actual with
                | Expect_Absent => bind_absent o command target
                | Expect_Exact _ => rebind_exact o command target
                end
            end
        end
    | Unbind =>
        match actual with
        | Expect_Absent => (o, replies (command_reply command) (Reply_AlreadyUnbound command))
        | Expect_Exact _ =>
            match remove_binding (affinity o) (command_key command) with
            | (t, None) => reject_binding (with_affinity o t) command (Binding_StaleExpectation Expect_Absent)
            | (t, Some (key, removed)) =>
                (with_affinity o t,
                 replies (command_reply command) (Reply_Unbound (command_request command) key removed))
            end
        end
    end.

End KeyedPool.
