(* ===== verification/KeyedRecovery.v ===== *)
(** * Recovery of the workers of a keyed pool

    [templates/pool/router/recovery.rs]: creation settlements, preparation of
    replacements through the source, restarts with their budget and timers, and
    the retirement of a role.  [None] is a panic: an index out of range or an
    overflowing budget sum. *)

From stdpp Require Import base list option numbers.
From S2P Require Import Prelude Effects BTreeMap Timers Restart Termination Settlement Interpretation Creation.
From S2P Require Import Workers WorkerPreparation WorkerStartup ProxyWorker PoolAssignment PoolPolicy PoolWorker PoolMembers.
From S2P Require Import KeyedBinding KeyedProtocol KeyedRetirement KeyedPool.

Section KeyedRecovery.
  Context `{KT : KeyedTypes}.

Abbreviation settled_workers :=
  (CreationsSettled Nonce (StopOnShutdown Worker) WorkerError HostedInitialization Installed).
Abbreviation worker_creation := (CreateChild (StopOnShutdown Worker)).
Abbreviation child_settlement :=
  (WorkerCreationSettlement Nonce Worker WorkerError HostedInitialization Installed).
Abbreviation start_result := (ActionItemResult (PrepareWorkers Source Role) WorkerPreparationStarted Never Never).
Abbreviation preparation := (WorkerPreparation Source Role Worker Plan WorkerRejection SourceRejection).
Abbreviation role_name := (RoleName Role).
Abbreviation worker_submission := (WorkerSubmission Worker Plan).
Abbreviation state_actions := (KeyedPoolState * KeyedActions)%type.

(** ** Retiring a role *)

Definition retire_role (self : Self) (o : KeyedOperating) (position : nat) (role : role_name)
  (recoveries : RecoveryCount) (queue : KeyedQueue) (capacity : BacklogCapacity) (a : KeyedActions) :
  KeyedOperating * KeyedActions :=
  let a := return_queue Queued_RolePermanentlyUnavailable queue a in
  let '(t, removed) := retire_role_bindings (affinity o) (named_role role) in
  let a := diagnose_bindings self removed a in
  (put (with_affinity o t) position role recoveries Member_Retired [] capacity, a).

Definition request_preparation (self : Self) (role : role_name) (recoveries : RecoveryCount)
  (previous : WorkerAttempt) (stopped : ChildStopped Addr) (source : Source) (queue : KeyedQueue)
  (capacity : BacklogCapacity) (a : KeyedActions) : Self * (RoleCell * KeyedActions) :=
  let '(self, (ticket, request)) := alloc self (prepare_new source role []) in
  (self,
   (mkCell (mkMember role recoveries (Member_Recovering (Preparing previous stopped (expectation_issued ticket))))
      queue capacity,
    on_preparations (send_item request) a)).

Definition prepare_next_waiting (self : Self) (o : KeyedOperating) (a : KeyedActions) :
  Self * (KeyedOperating * KeyedActions) :=
  match take_cell waits_for_source o with
  | None => (self, (o, a))
  | Some (position, mkCell (mkMember role recoveries state) queue capacity, o) =>
      match state with
      | Member_Recovering (WaitingForSource previous stopped) =>
          let '(r, claimed) := claim_waiting_source (recovery self.2) in
          let self := set_recovery self r in
          match claimed with
          | None => (self, (put o position role recoveries state queue capacity, a))
          | Some source =>
              let '(self, (cell, a)) :=
                request_preparation self role recoveries previous stopped source queue capacity a in
              (self, (put_cell o position cell, a))
          end
      | state => (self, (put o position role recoveries state queue capacity, a))
      end
  end.

Definition retire_unrecovered_worker (self : Self) (o : KeyedOperating) (position : nat) (role : role_name)
  (recoveries : RecoveryCount) (queue : KeyedQueue) (capacity : BacklogCapacity) (a : KeyedActions) :
  Self * state_actions :=
  match recovery_failure (recovery self.2) with
  | Reaction_RetireRole =>
      let '(o, a) := retire_role self o position role recoveries queue capacity a in
      let '(self, (o, a)) := prepare_next_waiting self o a in
      (self, (State_Operating o, a))
  | Reaction_StopPool => begin_retirement self (put o position role recoveries Member_Retired queue capacity) a
  end.

(** ** Creation settlements *)

(** The pool left operation with part of a batch unread: the rest is read by
    the retiring pool, or diagnosed. *)
Definition settle_rest (self : Self) (s : KeyedPoolState) (a : KeyedActions) (remaining : settled_workers) :
  Self * state_actions :=
  match s with
  | State_Retiring workers deadline =>
      let '(self, (s, settled)) := accept_worker_creations self workers deadline remaining in
      (self, (s, mkActions (sends_append (sends a) (sends settled))
                   (Creations_extend (creates a) (creates settled)) (become_ settled)))
  | s =>
      let '(s, returned) := diagnose self s (Event_WorkerCreationsSettled remaining) in
      (self, (s, mkActions (sends_append (sends a) (sends returned)) (creates a) (become_ a)))
  end.

Fixpoint creations_loop (self : Self) (o : KeyedOperating) (received : @BTreeMap nat child_settlement)
  (a : KeyedActions) : option (Self * state_actions) :=
  match received with
  | [] => Some (self, (State_Operating o, a))
  | (position, settlement) :: received =>
      '(mkCell member queue capacity) ← roles o !! position;
      let o := with_roles o (base.delete position (roles o)) in
      match admit_creation member settlement with
      | Admission_Initializing member request =>
          creations_loop self (put_cell o position (mkCell member queue capacity)) received
            (on_initializations (append_one request) a)
      | Admission_Rejected member role rejection startup stopped =>
          let a := diagnosed self (Diag_WorkerCreationRejected role rejection startup stopped) a in
          match retire_unrecovered_worker self o position role (recoveries member) queue capacity a with
          | (self, (State_Operating o, a)) => creations_loop self o received a
          | (self, (s, a)) =>
              Some (match received with
                    | [] => (self, (s, a))
                    | _ => settle_rest self s a (Creation_Settled (mkCreations received.*2))
                    end)
          end
      | Admission_Unrelated member creation =>
          creations_loop self (put_cell o position (mkCell member queue capacity)) received
            (diagnosed self (Unexpected (Event_WorkerCreationsSettled
               (Creation_Settled (Creations_one creation)))) a)
      end
  end.

Fixpoint reject_batch_loop (self : Self) (rejection : CreationBatchRejection) (o : KeyedOperating)
  (received : @BTreeMap nat worker_creation) (a : KeyedActions) : option (Self * state_actions) :=
  match received with
  | [] => Some (self, (State_Operating o, a))
  | (position, creation) :: received =>
      '(mkCell (mkMember role recoveries state) queue capacity) ← roles o !! position;
      let o := with_roles o (base.delete position (roles o)) in
      match state with
      | Member_Creating starting =>
          let a := diagnosed self (Diag_WorkerCreationRejected role
            (batch_worker rejection (into_inner (child creation)))
            (creating_startup starting) (creating_stopped starting)) a in
          match retire_unrecovered_worker self o position role recoveries queue capacity a with
          | (self, (State_Operating o, a)) => reject_batch_loop self rejection o received a
          | (self, (s, a)) =>
              Some (match received with
                    | [] => (self, (s, a))
                    | _ => settle_rest self s a (batch_settlement rejection (mkCreations received.*2))
                    end)
          end
      | state =>
          reject_batch_loop self rejection (put o position role recoveries state queue capacity) received
            (diagnosed self (Unexpected (Event_WorkerCreationsSettled
               (batch_settlement rejection (Creations_one creation)))) a)
      end
  end.

Definition reject_creation_batch (self : Self) (o : KeyedOperating) (creations : Creations worker_creation)
  (rejection : CreationBatchRejection) :
  option (Self * result state_actions (KeyedOperating * settled_workers)) :=
  match creation_positions o ((fun creation => (id creation, kind creation)) <$> items creations) with
  | None => Some (self, Err (o, batch_settlement rejection creations))
  | Some positions =>
      '(self, result) ←
        reject_batch_loop self rejection o (collect_map (zip positions (items creations))) keyed_cont;
      Some (self, Ok result)
  end.

Definition accept_creations (self : Self) (o : KeyedOperating) (workers : settled_workers) :
  option (Self * result state_actions (KeyedOperating * settled_workers)) :=
  match workers with
  | Creation_Rejected creations _ => reject_creation_batch self o creations Batch_NamespaceExhausted
  | Creation_Corrupt creations fault => reject_creation_batch self o creations (Batch_InterpreterCorrupt fault)
  | Creation_Settled settlements =>
      match identities ← mapM creation_identity (items settlements); creation_positions o identities with
      | None => Some (self, Err (o, Creation_Settled settlements))
      | Some positions =>
          '(self, result) ←
            creations_loop self o (collect_map (zip positions (items settlements))) keyed_cont;
          Some (self, Ok result)
      end
  end.

(** ** Failed preparations and replacements *)

Definition reject_preparation (self : Self) (o : KeyedOperating) (position : nat) (role : role_name)
  (recoveries : RecoveryCount) (previous : WorkerAttempt) (stopped : ChildStopped Addr) (source : Source)
  (error : WorkerPreparationError) (queue : KeyedQueue) (capacity : BacklogCapacity) : Self * state_actions :=
  let '(r, restored) := restore_source (recovery self.2) source in
  let self := set_recovery self r in
  let '(returned_source, error) :=
    match restored with
    | Ok _ => (None, error)
    | Err source => (Some source, Preparation_SourceStateCorrupt)
    end in
  retire_unrecovered_worker self o position role recoveries queue capacity
    (diagnosed self (Diag_WorkerPreparationFailed role previous stopped returned_source error) keyed_cont).

Definition reject_replacement (self : Self) (o : KeyedOperating) (position : nat) (role : role_name)
  (recoveries : RecoveryCount) (previous : WorkerAttempt) (stopped : ChildStopped Addr)
  (submission : worker_submission) (returned_source : option Source) (error : WorkerReplacementError)
  (queue : KeyedQueue) (capacity : BacklogCapacity) (a : KeyedActions) : Self * state_actions :=
  retire_unrecovered_worker self o position role recoveries queue capacity
    (diagnosed self (Diag_WorkerReplacementFailed role previous stopped submission returned_source error) a).

Definition return_source_after_replacement_failure (self : Self) (o : KeyedOperating) (position : nat)
  (role : role_name) (recoveries : RecoveryCount) (previous : WorkerAttempt) (stopped : ChildStopped Addr)
  (source : Source) (submission : worker_submission) (error : WorkerReplacementError) (queue : KeyedQueue)
  (capacity : BacklogCapacity) : Self * state_actions :=
  let '(r, restored) := restore_source (recovery self.2) source in
  let self := set_recovery self r in
  let '(returned_source, error) :=
    match restored with
    | Ok _ => (None, error)
    | Err source => (Some source, Replacement_SourceStateCorrupt)
    end in
  reject_replacement self o position role recoveries previous stopped submission returned_source error queue
    capacity keyed_cont.

(** ** A stopped worker *)

(** The interrupted job while the role goes on: failed, or back in its queue. *)
Definition keep_interrupted (self : Self) (interrupted : option CustomerJob) (queue : KeyedQueue)
  (a : KeyedActions) : KeyedQueue * KeyedActions :=
  match interrupted with
  | None => (queue, a)
  | Some customer =>
      match interruption self.2 with
      | Interruption_Fail => (queue, return_assigned customer Assigned_WorkerStopped a)
      | Interruption_Retry => (bt_insert (job_admitted customer) customer queue, a)
      end
  end.

(** The interrupted job when the role ends. *)
Definition end_interrupted (self : Self) (interrupted : option CustomerJob)
  (retry_reason : KeyedAssignedReturnReason) (a : KeyedActions) : KeyedActions :=
  match interrupted with
  | None => a
  | Some customer =>
      return_assigned customer
        match interruption self.2 with
        | Interruption_Fail => Assigned_WorkerStopped
        | Interruption_Retry => retry_reason
        end a
  end.

Definition recover_worker (self : Self) (o : KeyedOperating) (position : nat) (role : role_name)
  (recoveries : RecoveryCount) (previous : WorkerAttempt) (stopped : ChildStopped Addr)
  (interrupted : option CustomerJob) (queue : KeyedQueue) (capacity : BacklogCapacity) (a : KeyedActions) :
  Self * state_actions :=
  let '(r, decision) := decide (recovery self.2) (stop_kind (child_outcome stopped)) in
  let self := set_recovery self r in
  match decision with
  | Decision_PrepareWorker source =>
      let '(queue, a) := keep_interrupted self interrupted queue a in
      let '(self, (cell, a)) :=
        request_preparation self role recoveries previous stopped source queue capacity a in
      (self, (State_Operating (put_cell o position cell), a))
  | Decision_WaitForSource =>
      let '(queue, a) := keep_interrupted self interrupted queue a in
      (self, (State_Operating
                (put o position role recoveries (Member_Recovering (WaitingForSource previous stopped)) queue
                   capacity), a))
  | Decision_RetireRole =>
      let a := end_interrupted self interrupted Assigned_RolePermanentlyUnavailable a in
      let '(o, a) := retire_role self o position role recoveries queue capacity a in
      (self, (State_Operating o, a))
  | Decision_StopPool =>
      let a := end_interrupted self interrupted Assigned_PoolShutdown a in
      begin_retirement self (put o position role recoveries Member_Retired queue capacity) a
  end.

(** ** Preparations *)

Definition accept_worker_preparation_start (self : Self) (o : KeyedOperating) (input : start_result) :
  Self * result state_actions (KeyedOperating * start_result) :=
  match take_cell (awaits_start input) o with
  | None => (self, Err (o, input))
  | Some (position, mkCell member queue capacity, o) =>
      match member_preparation_start member input with
      | Ok (Flow_Continue member) =>
          (self, Ok (State_Operating (put_cell o position (mkCell member queue capacity)), keyed_cont))
      | Ok (Flow_Break failed) =>
          let '(self, result) :=
            reject_preparation self o position (failed_role failed) (failed_recoveries failed)
              (failed_previous failed) (failed_stopped failed) (failed_source failed)
              (start_fault_error (failed_fault failed)) queue capacity in
          (self, Ok result)
      | Err (member, input) => (self, Err (put_cell o position (mkCell member queue capacity), input))
      end
  end.

Definition issue_restart_timer (self : Self) : Self * option ScheduleKey :=
  let '(next, key) := key_issue (next_restart_timer self.2) in
  (set_next_restart_timer self next, key).

Definition issue_creation (self : Self) : Self * option CreationId :=
  let '(creations, id) := issue (creations self.2) in
  (set_creations self creations, id).

(** The identifier that the release of a replacement needs. *)
Definition issue_release (self : Self) (release : RecoveryRelease) :
  Self * result WorkerReplacementRelease WorkerReplacementError :=
  match release with
  | Immediate =>
      match issue_creation self with
      | (self, Some creation) => (self, Ok (Release_Now creation))
      | (self, None) => (self, Err Replacement_WorkerCreationsExhausted)
      end
  | Delayed delay =>
      match issue_restart_timer self with
      | (self, Some timer) => (self, Ok (Release_After timer delay))
      | (self, None) => (self, Err Replacement_RestartTimersExhausted)
      end
  end.

(** [actions.creates.extend([worker])] and the observation of the worker *)
Definition created (worker : worker_creation) (observation : ObserveChild) (a : KeyedActions) : KeyedActions :=
  let a := on_observations (append_one observation) a in
  mkActions (sends a) (Creations_extend (creates a) (Creations_one worker)) (become_ a).

(** The accepted proposal of a restart: the worker is created now or after its
    delay. *)
Definition release_replacement (self : Self) (o : KeyedOperating) (position : nat)
  (p : PreparedReplacement) (recoveries : RecoveryCount) (release : WorkerReplacementRelease)
  (queue : KeyedQueue) (capacity : BacklogCapacity) : Self * (KeyedOperating * KeyedActions) :=
  let '(mkPreparedReplacement role _ previous stopped _ submission) := p in
  match release with
  | Release_Now creation =>
      let '(self, (member, worker, observation)) :=
        alloc self (begin_replacement (mkPrepared role submission) recoveries
                      (attempt_creation previous) creation) in
      (self, (put_cell o position (mkCell member queue capacity), created worker observation keyed_cont))
  | Release_After timer delay =>
      (self, (put o position role recoveries
                (Member_Recovering (Recovery_Scheduling previous stopped submission timer)) queue capacity,
              on_schedules (send_item (key_after timer delay)) keyed_cont))
  end.

(** The admission of the restart of a prepared worker. *)
Definition restart_prepared (self : Self) (o : KeyedOperating) (position : nat) (limit : RestartLimit)
  (release : RestartRelease) (prepared : PreparedReplacement) (queue : KeyedQueue)
  (capacity : BacklogCapacity) : option (Self * state_actions) :=
  let '(mkPreparedReplacement role recoveries previous stopped source submission) := prepared in
  match restart_admission recoveries (restarts self.2) limit release (stopped_at stopped) 1 with
  | None => None
  | Some (Proposed ordinal budget proposed release) =>
      match issue_release self release with
      | (self, Err error) =>
          Some (return_source_after_replacement_failure (set_restarts self budget) o position role
                  (decline_recovery recoveries ordinal) previous stopped source submission error queue capacity)
      | (self, Ok release) =>
          let '(r, restored) := restore_source (recovery self.2) source in
          let self := set_recovery self r in
          match restored with
          | Err source =>
              Some (reject_replacement (set_restarts self budget) o position role
                      (decline_recovery recoveries ordinal) previous stopped submission (Some source)
                      Replacement_SourceStateCorrupt queue capacity keyed_cont)
          | Ok _ =>
              let self := set_restarts self proposed in
              let '(self, (o, a)) :=
                release_replacement self o position prepared (accept_recovery recoveries ordinal) release
                  queue capacity in
              let '(self, (o, a)) := prepare_next_waiting self o a in
              Some (self, (State_Operating o, a))
          end
      end
  | Some (Denied budget reason) =>
      Some (return_source_after_replacement_failure (set_restarts self budget) o position role recoveries
              previous stopped source submission (Replacement_RestartDenied reason) queue capacity)
  end.

Definition accept_worker_preparation_return (self : Self) (o : KeyedOperating) (input : preparation) :
  option (Self * result state_actions (KeyedOperating * preparation)) :=
  match restart_policy (recovery self.2) with
  | None => Some (self, Err (o, input))
  | Some (limit, release) =>
      match take_cell (awaits_return input) o with
      | None => Some (self, Err (o, input))
      | Some (position, mkCell member queue capacity, o) =>
          match member_preparation_return member input with
          | Err (member, input) => Some (self, Err (put_cell o position (mkCell member queue capacity), input))
          | Ok (Preparation_Failed role recoveries previous stopped source error) =>
              let '(self, result) :=
                reject_preparation self o position role recoveries previous stopped source error queue capacity in
              Some (self, Ok result)
          | Ok (Preparation_Ready prepared) =>
              '(self, result) ← restart_prepared self o position limit release prepared queue capacity;
              Some (self, Ok result)
          end
      end
  end.

(** ** Restart timers *)

Definition accept_restart_schedule (self : Self) (o : KeyedOperating) (input : ScheduleResult) :
  Self * result state_actions (KeyedOperating * ScheduleResult) :=
  match take_cell (awaits_schedule input) o with
  | None => (self, Err (o, input))
  | Some (position, mkCell (mkMember role recoveries state) queue capacity, o) =>
      match state with
      | Member_Recovering worker =>
          match admit_restart_schedule worker input with
          | Ok (Flow_Continue worker) =>
              (self, Ok (State_Operating (put o position role recoveries (Member_Recovering worker) queue capacity),
                         keyed_cont))
          | Ok (Flow_Break (mkPendingReplacement previous stopped submission, settlement)) =>
              let '(self, result) :=
                reject_replacement self o position role recoveries previous stopped submission None
                  (Replacement_RestartScheduleReturned settlement) queue capacity keyed_cont in
              (self, Ok result)
          | Err (worker, settlement) =>
              (self, Err (put o position role recoveries (Member_Recovering worker) queue capacity, settlement))
          end
      | state => (self, Err (put o position role recoveries state queue capacity, input))
      end
  end.

Definition accept_restart_timer (self : Self) (o : KeyedOperating) (elapsed : TimerElapsed TimerId) :
  Self * result state_actions (KeyedOperating * TimerElapsed TimerId) :=
  match take_cell (awaits_timer elapsed) o with
  | None => (self, Err (o, elapsed))
  | Some (position, mkCell (mkMember role recoveries state) queue capacity, o) =>
      match state with
      | Member_Recovering worker =>
          match admit_restart_timer worker elapsed with
          | Err (worker, elapsed) =>
              (self, Err (put o position role recoveries (Member_Recovering worker) queue capacity, elapsed))
          | Ok (mkPendingReplacement previous stopped submission) =>
              match issue_creation self with
              | (self, None) =>
                  let '(self, result) :=
                    reject_replacement self o position role recoveries previous stopped submission None
                      Replacement_WorkerCreationsExhausted queue capacity keyed_cont in
                  (self, Ok result)
              | (self, Some creation) =>
                  let '(self, (member, worker, observation)) :=
                    alloc self (begin_replacement (mkPrepared role submission) recoveries
                                  (attempt_creation previous) creation) in
                  (self, Ok (State_Operating (put_cell o position (mkCell member queue capacity)),
                             created worker observation keyed_cont))
              end
          end
      | state => (self, Err (put o position role recoveries state queue capacity, elapsed))
      end
  end.

End KeyedRecovery.
