(* ===== verification/KeyedTransition.v ===== *)
(** * Assignments and entry points of the keyed pool

    The assignment, completion and stop handlers of
    [templates/pool/router/assignment.rs]; [KeyedPoolState::start], [init] and
    [transition] of [mod.rs], and [new] of [config.rs]. *)

From stdpp Require Import base list option numbers.
From S2P Require Import Prelude Effects BTreeMap Timers Restart Termination Settlement Interpretation Creation Workers.
From S2P Require Import WorkerPreparation WorkerStartup ProxyWorker PoolAssignment PoolPolicy PoolWorker PoolMembers.
From S2P Require Import KeyedBinding KeyedProtocol KeyedRetirement KeyedPool KeyedRecovery.

Section KeyedAssignment.
  Context `{KT : KeyedTypes}.

Abbreviation role_name := (RoleName Role).
Abbreviation state_actions := (KeyedPoolState * KeyedActions)%type.

(** The worker of a member, by the identifier of its creation. *)
Definition is_worker (worker : CreationId) (m : Member) : bool :=
  match worker_attempt m with
  | Some attempt => bool_decide (attempt_creation attempt = worker)
  | None => false
  end.

Definition complete_assignment (self : Self) (o : KeyedOperating) (position : nat) (role : role_name)
  (recoveries : RecoveryCount) (current : CurrentWorker) (customer : CustomerJob) (worker_result : WorkerResult)
  (stopped : option (ChildStopped Addr)) (queue : KeyedQueue) (capacity : BacklogCapacity) :
  Self * state_actions :=
  let a := answers (customer_route (job_customer customer))
    (Keyed_Completed (job_id customer) (customer_binding (job_customer customer)) worker_result) keyed_cont in
  match stopped with
  | None =>
      let '(self, (o, a)) :=
        fill_role self
          (put o position role recoveries (Member_Worker (mkPoolWorker current Phase_Idle)) queue capacity)
          position a in
      (self, (State_Operating o, a))
  | Some stopped =>
      recover_worker self o position role recoveries (attempt current) stopped None queue capacity a
  end.

Definition interrupt_assignment (self : Self) (o : KeyedOperating) (position : nat) (role : role_name)
  (recoveries : RecoveryCount) (current : CurrentWorker) (customer : CustomerJob) (stopped : ChildStopped Addr)
  (late_completion : option Completion) (queue : KeyedQueue) (capacity : BacklogCapacity) :
  Self * state_actions :=
  let a :=
    match late_completion with
    | Some completion =>
        diagnosed self (Unexpected (Event_WorkerCompleted
          (mkCompletionReport (attempt_creation (attempt current)) completion))) keyed_cont
    | None => keyed_cont
    end in
  recover_worker self o position role recoveries (attempt current) stopped (Some customer) queue capacity a.

Definition quarantine_worker (o : KeyedOperating) (position : nat) (role : role_name)
  (recoveries : RecoveryCount) (current : CurrentWorker) (shutdown : ShutdownId) (queue : KeyedQueue)
  (capacity : BacklogCapacity) (a : KeyedActions) : KeyedOperating * KeyedActions :=
  (put o position role recoveries (Member_Worker (mkPoolWorker current (Phase_Stopping (AwaitingBoth shutdown))))
     queue capacity,
   on_shutdowns (append_one (shutdown_request current shutdown)) a).

(** [self.shutdowns.reserve(1).and_then(|reserved| reserved.into_iter().next())] *)
Definition reserve_one (self : Self) : Self * option ShutdownId :=
  let '(shutdowns, reserved) := reserve (shutdowns self.2) 1 in
  (set_shutdowns self shutdowns, match reserved with Some ids => head ids | None => None end).

Definition rejected_assignment (item : AssignWorker) (reason : ExactDeliveryReason) : KeyedEvent :=
  Event_AssignmentSettled (Attempted (Rejected item reason)).

Definition reject_assignment_delivery (self : Self) (o : KeyedOperating) (item : AssignWorker)
  (reason : ExactDeliveryReason) : Self * state_actions :=
  match take_cell (awaits_receipt (assign_receipt item)) o with
  | None => (self, diagnose self (State_Operating o) (rejected_assignment item reason))
  | Some (position, mkCell (mkMember role recoveries state) queue capacity, taken) =>
      match reserve_one self with
      | (self, None) =>
          let '(s, a) := diagnose self (State_Operating o) (rejected_assignment item reason) in
          match s with
          | State_Operating o => begin_retirement self o a
          | s => (self, (s, a))
          end
      | (self, Some shutdown) =>
          let '(target, returned, receipt) := assign_into_parts item in
          let o := taken in
          match state with
          | Member_Worker (mkPoolWorker current (Phase_Busy assignment)) =>
              match PoolAssignment.accept_rejection assignment returned with
              | Err (assignment, returned) =>
                  (self, diagnose self
                     (State_Operating (put o position role recoveries
                        (Member_Worker (mkPoolWorker current (Phase_Busy assignment))) queue capacity))
                     (rejected_assignment (assign_returned target returned receipt) reason))
              | Ok (JobReturned customer stopped) =>
                  let queue := bt_insert (job_admitted customer) customer queue in
                  match stopped with
                  | None =>
                      let '(o, a) :=
                        quarantine_worker o position role recoveries current shutdown queue capacity keyed_cont in
                      (self, (State_Operating o, a))
                  | Some stopped =>
                      recover_worker self o position role recoveries (attempt current) stopped None queue
                        capacity keyed_cont
                  end
              | Ok (ConflictingCompletion customer assignment completion stopped) =>
                  let a := return_assigned customer Assigned_ContradictoryAssignmentSettlement keyed_cont in
                  let a := diagnosed self (Unexpected
                    (rejected_assignment (assign_returned target assignment receipt) reason)) a in
                  let a := diagnosed self (Unexpected (Event_WorkerCompleted
                    (mkCompletionReport (attempt_creation (attempt current)) completion))) a in
                  match stopped with
                  | None =>
                      let '(o, a) :=
                        quarantine_worker o position role recoveries current shutdown queue capacity a in
                      begin_retirement self o a
                  | Some stopped =>
                      match recover_worker self o position role recoveries (attempt current) stopped None queue
                              capacity a with
                      | (self, (State_Operating o, a)) => begin_retirement self o a
                      | other => other
                      end
                  end
              end
          | state =>
              (self, diagnose self (State_Operating (put o position role recoveries state queue capacity))
                 (rejected_assignment (assign_returned target returned receipt) reason))
          end
      end
  end.

Definition accept_assignment_receipt (self : Self) (o : KeyedOperating) (receipt : AssignmentReceipt) :
  Self * result state_actions (KeyedOperating * AssignmentReceipt) :=
  match take_cell (awaits_receipt receipt) o with
  | None => (self, Err (o, receipt))
  | Some (position, mkCell (mkMember role recoveries state) queue capacity, o) =>
      match state with
      | Member_Worker (mkPoolWorker current (Phase_Busy assignment)) =>
          let busy a :=
            put o position role recoveries (Member_Worker (mkPoolWorker current (Phase_Busy a))) queue capacity in
          match accept_receipt assignment receipt with
          | Ok (Receipt_AwaitingCompletion assignment) =>
              (self, Ok (State_Operating (busy assignment), keyed_cont))
          | Ok (Receipt_JobCompleted customer r stopped) =>
              let '(self, result) :=
                complete_assignment self o position role recoveries current customer r stopped queue capacity in
              (self, Ok result)
          | Ok (Receipt_JobInterrupted customer stopped late_completion) =>
              let '(self, result) :=
                interrupt_assignment self o position role recoveries current customer stopped late_completion
                  queue capacity in
              (self, Ok result)
          | Err (assignment, receipt) => (self, Err (busy assignment, receipt))
          end
      | state => (self, Err (put o position role recoveries state queue capacity, receipt))
      end
  end.

Definition pool_accept_completion (self : Self) (o : KeyedOperating) (child : CreationId)
  (completion : Completion) : Self * result state_actions (KeyedOperating * CompletionReport) :=
  match take_cell (awaits_completion child completion) o with
  | None => (self, Err (o, mkCompletionReport child completion))
  | Some (position, mkCell (mkMember role recoveries state) queue capacity, o) =>
      match state with
      | Member_Worker (mkPoolWorker current (Phase_Busy assignment)) =>
          let busy a :=
            put o position role recoveries (Member_Worker (mkPoolWorker current (Phase_Busy a))) queue capacity in
          match accept_completion assignment completion with
          | Ok (Completion_AwaitingReceipt assignment) =>
              (self, Ok (State_Operating (busy assignment), keyed_cont))
          | Ok (Completion_JobCompleted customer r stopped) =>
              let '(self, result) :=
                complete_assignment self o position role recoveries current customer r stopped queue capacity in
              (self, Ok result)
          | Err (assignment, completion) => (self, Err (busy assignment, mkCompletionReport child completion))
          end
      | state =>
          (self, Err (put o position role recoveries state queue capacity, mkCompletionReport child completion))
      end
  end.

(** ** Stops and shutdowns of workers *)

Definition recover_quarantined_worker (self : Self) (o : KeyedOperating) (position : nat) (role : role_name)
  (recoveries : RecoveryCount) (current : CurrentWorker) (shutdown : EstablishedShutdownResolved)
  (stopped : ChildStopped Addr) (queue : KeyedQueue) (capacity : BacklogCapacity) : Self * state_actions :=
  let a :=
    match shutdown with
    | ShutdownAccepted _ => keyed_cont
    | shutdown => diagnosed self (Diag_WorkerShutdownRejected role shutdown) keyed_cont
    end in
  recover_worker self o position role recoveries (attempt current) stopped None queue capacity a.

Definition accept_worker_stop (self : Self) (o : KeyedOperating) (stopped : ChildStopped Addr) :
  Self * result state_actions (KeyedOperating * ChildStopped Addr) :=
  match take_cell (is_worker (stopped_child stopped)) o with
  | None => (self, Err (o, stopped))
  | Some (position, mkCell (mkMember role recoveries state) queue capacity, o) =>
      match state with
      | Member_Worker (mkPoolWorker current phase) =>
          let put_phase phase :=
            put o position role recoveries (Member_Worker (mkPoolWorker current phase)) queue capacity in
          match phase with
          | Phase_Idle =>
              let '(self, result) :=
                recover_worker self o position role recoveries (attempt current) stopped None queue capacity
                  keyed_cont in
              (self, Ok result)
          | Phase_Busy assignment =>
              match PoolAssignment.accept_worker_exit assignment stopped with
              | Ok (Exit_AwaitingReceipt assignment) =>
                  (self, Ok (State_Operating (put_phase (Phase_Busy assignment)), keyed_cont))
              | Ok (Exit_JobInterrupted customer stopped late_completion) =>
                  let '(self, result) :=
                    interrupt_assignment self o position role recoveries current customer stopped
                      late_completion queue capacity in
                  (self, Ok result)
              | Err (assignment, stopped) => (self, Err (put_phase (Phase_Busy assignment), stopped))
              end
          | Phase_Stopping shutdown =>
              match join_stopped shutdown stopped (attempt current) with
              | Ok (Flow_Continue shutdown) =>
                  (self, Ok (State_Operating (put_phase (Phase_Stopping shutdown)), keyed_cont))
              | Ok (Flow_Break (shutdown, stopped)) =>
                  let '(self, result) :=
                    recover_quarantined_worker self o position role recoveries current shutdown stopped queue
                      capacity in
                  (self, Ok result)
              | Err (shutdown, stopped) => (self, Err (put_phase (Phase_Stopping shutdown), stopped))
              end
          | phase => (self, Err (put_phase phase, stopped))
          end
      | state => (self, Err (put o position role recoveries state queue capacity, stopped))
      end
  end.

Definition accept_quarantine_shutdown (self : Self) (o : KeyedOperating)
  (settlement : EstablishedShutdownResolved) :
  Self * result state_actions (KeyedOperating * EstablishedShutdownResolved) :=
  match take_cell (awaits_shutdown (resolved_id settlement)) o with
  | None => (self, Err (o, settlement))
  | Some (position, mkCell (mkMember role recoveries state) queue capacity, o) =>
      match state with
      | Member_Worker (mkPoolWorker current (Phase_Stopping shutdown)) =>
          let stopping join :=
            put o position role recoveries (Member_Worker (mkPoolWorker current (Phase_Stopping join))) queue
              capacity in
          match join_settled shutdown settlement with
          | Ok (Flow_Continue shutdown) => (self, Ok (State_Operating (stopping shutdown), keyed_cont))
          | Ok (Flow_Break (shutdown, stopped)) =>
              let '(self, result) :=
                recover_quarantined_worker self o position role recoveries current shutdown stopped queue
                  capacity in
              (self, Ok result)
          | Err (shutdown, settlement) => (self, Err (stopping shutdown, settlement))
          end
      | state => (self, Err (put o position role recoveries state queue capacity, settlement))
      end
  end.

End KeyedAssignment.

Section KeyedTransition.
  Context `{KT : KeyedTypes}.

Abbreviation worker_creation := (CreateChild (StopOnShutdown Worker)).
Abbreviation state_actions := (KeyedPoolState * KeyedActions)%type.

(** ** Initialization *)

Definition pool_start (s : KeyedPoolState) (creations : CreationSequence) (backlog : BacklogCapacity)
  (binding_capacity : BindingCapacity) :
  CreationSequence *
  result (Alloc (KeyedPoolState * list ObserveChild * Creations worker_creation)) (KeyedPoolState * KeyedError) :=
  match s with
  | State_Constructed prepared =>
      match issue_ids (length prepared) creations [] with
      | (creations, None) => (creations, Err (State_Constructed prepared, WorkerCreationsExhausted))
      | (creations, Some ids) =>
          (creations,
           Ok ('(members, workers, observations) ← begin_members (zip prepared ids);
               bindings ← table_new binding_capacity;
               mret (State_Operating (mkOperating ((fun member => cell_new member backlog) <$> members) bindings),
                     observations, mkCreations workers)))
      end
  | s => (creations, Err (s, InitializationUnavailable))
  end.

(** [Err] leaves the state as it was. *)
Definition init (self : Self) : Self * result KeyedActions KeyedError :=
  let '(n, p) := self in
  let s := state p in
  let '(creations, started) := pool_start s (creations p) (backlog p) (binding_capacity p) in
  let self := set_creations (n, set_state p State_Stopped) creations in
  match started with
  | Ok m =>
      let '(self, (s, observations, workers)) := alloc self m in
      ((self.1, set_state self.2 s),
       Ok (mkActions
             (mkKeyedRequests (mkRequests observations) sends_empty sends_empty sends_empty sends_empty [] [] []
                sends_empty sends_empty)
             workers Continue))
  | Err (s, error) => ((self.1, set_state self.2 s), Err error)
  end.

(** ** Transitions *)

(** An [Err] of a handler is diagnosed. *)
Definition or_diagnose {X} (event : X -> KeyedEvent)
  (r : Self * result state_actions (KeyedOperating * X)) : Self * state_actions :=
  match r with
  | (self, Ok result) => (self, result)
  | (self, Err (o, input)) => (self, diagnose self (State_Operating o) (event input))
  end.

(** A handler that always goes on operating. *)
Definition operating_on {X} (r : Self * result (KeyedOperating * KeyedActions) (KeyedOperating * X)) :
  Self * result state_actions (KeyedOperating * X) :=
  (r.1, map_result (fun '(o, a) => (State_Operating o, a)) r.2).

(** One input of an operating pool. *)
Definition operate (self : Self) (o : KeyedOperating) (input : KeyedEvent) : option (Self * state_actions) :=
  match input with
  | Event_Command (mkUser _ command) =>
      Some (match into_request command with
            | Submit submission key payload customer =>
                let '(self, (o, a)) := accept_submission self o submission key payload customer in
                (self, (State_Operating o, a))
            | Request_Binding command =>
                let '(o, a) := accept_binding o command in (self, (State_Operating o, a))
            | Request_Shutdown => begin_retirement self o keyed_cont
            end)
  | Event_WorkerCreationsSettled workers =>
      or_diagnose Event_WorkerCreationsSettled <$> accept_creations self o workers
  | Event_WorkerInitialization input =>
      Some (or_diagnose Event_WorkerInitialization (operating_on (accept_initialization self o input)))
  | Event_WorkerStartupReported input =>
      Some (or_diagnose Event_WorkerStartupReported (operating_on (accept_startup self o input)))
  | Event_AssignmentSettled (Attempted (Settlement.Accepted receipt)) =>
      Some (or_diagnose (fun receipt => Event_AssignmentSettled (Attempted (Settlement.Accepted receipt)))
              (accept_assignment_receipt self o receipt))
  | Event_AssignmentSettled (Attempted (Rejected item reason)) =>
      Some (reject_assignment_delivery self o item reason)
  | Event_AssignmentSettled _ => Some (self, diagnose self (State_Operating o) input)
  | Event_WorkerCompleted (mkCompletionReport child report) =>
      Some (or_diagnose Event_WorkerCompleted (pool_accept_completion self o child report))
  | Event_WorkerStopped stopped => Some (or_diagnose Event_WorkerStopped (accept_worker_stop self o stopped))
  | Event_WorkerShutdownSettled settlement =>
      Some (or_diagnose Event_WorkerShutdownSettled (accept_quarantine_shutdown self o settlement))
  | Event_WorkerPreparationStarted input =>
      Some (or_diagnose Event_WorkerPreparationStarted (accept_worker_preparation_start self o input))
  | Event_WorkerPreparationReturned input =>
      or_diagnose Event_WorkerPreparationReturned <$> accept_worker_preparation_return self o input
  | Event_RestartScheduleSettled input =>
      Some (or_diagnose Event_RestartScheduleSettled (accept_restart_schedule self o input))
  | Event_RestartElapsed elapsed =>
      Some (or_diagnose Event_RestartElapsed (accept_restart_timer self o elapsed))
  | Event_Shutdown _ => Some (begin_retirement self o keyed_cont)
  end.

(** One input of a retiring pool. *)
Definition retire (self : Self) (workers : list RetiringWorker) (deadline : ShutdownDeadline)
  (input : KeyedEvent) : Self * state_actions :=
  match input with
  | Event_WorkerCreationsSettled creations => accept_worker_creations self workers deadline creations
  | Event_WorkerStopped stopped => (self, retiring_worker_exit self workers deadline stopped)
  | Event_WorkerShutdownSettled settlement => (self, retiring_worker_shutdown self workers deadline settlement)
  | Event_WorkerInitialization input => (self, retiring_worker_initialization self workers deadline input)
  | Event_WorkerStartupReported input => (self, retiring_worker_startup self workers deadline input)
  | Event_WorkerPreparationStarted input => accept_retired_preparation_start self workers deadline input
  | Event_WorkerPreparationReturned input => accept_retired_preparation_return self workers deadline input
  | Event_RestartScheduleSettled settlement => (self, accept_retirement_schedule self workers deadline settlement)
  | Event_RestartElapsed elapsed => (self, accept_deadline self workers deadline elapsed)
  | Event_Command _ | Event_WorkerCompleted _ | Event_AssignmentSettled _ | Event_Shutdown _ =>
      (self, diagnose self (State_Retiring workers deadline) input)
  end.

Definition transition (self : Self) (input : KeyedEvent) : option (Self * KeyedActions) :=
  let s := state self.2 in
  let self := (self.1, set_state self.2 State_Stopped) in
  '(self, (s, a)) ←
    match s with
    | State_Operating o => operate self o input
    | State_Retiring workers deadline => Some (retire self workers deadline input)
    | State_Constructed _ | State_Stopped | State_ForcedRetirement _ _ => Some (self, diagnose self s input)
    end;
  Some ((self.1, set_state self.2 s), a).

(** ** Construction *)

Definition keyed_new {F Prep Rej : Type} `{!InitialWorkerPreparation Prep Worker Plan Rej}
  (call : F -> Role -> F * Prep) (factory : F) (roles : OrderedRoles Role) (selector : Key -> Role)
  (config : Config) : result KeyedPool (KeyedConstructionRejected F Rej) :=
  match prepare_initial_workers call factory roles with
  | Ok prepared => Ok (pool_of prepared selector config)
  | Err workers => Err (mkConstructionRejected workers selector config)
  end.

End KeyedTransition.
