(* ===== verification/KeyedInvariant.v ===== *)
(** * Invariants and internal operations of the keyed pool

    What each role cell and the binding table of an operating pool keep, the
    accounts of accepted jobs and of the answers to their customers; and the
    end of operation, the service of a role, startup, and the recovery or
    retirement of a role, each with the invariant and the account it leaves. *)

From stdpp Require Import base list list_numbers option numbers sorting.
From S2P Require Import Prelude Effects BTreeMap Timers Restart Termination Settlement Interpretation Creation Workers.
From S2P Require Import WorkerPreparation WorkerStartup ProxyWorker PoolAssignment PoolPolicy PoolWorker PoolMembers.
From S2P Require Import PoolDrain KeyedBinding KeyedProtocol KeyedRetirement KeyedPool KeyedRecovery.
From S2P Require Import KeyedTransition.

Section KeyedInvariant.
  Context `{KT : KeyedTypes}.

(** ** Jobs *)

Definition queued_jobs (q : KeyedQueue) : list CustomerJob := snd <$> q.

Definition cell_jobs (c : RoleCell) : list CustomerJob :=
  queued_jobs (cell_queue c) ++ (fst <$> busy (cell_member c)).

(** The accepted jobs that a pool has still to answer. *)
Definition held (l : list RoleCell) : list CustomerJob := l ≫= cell_jobs.

Definition job_binding (j : CustomerJob) : BindingEvidence Role := customer_binding (job_customer j).
Definition job_route (j : CustomerJob) : CustomerRoute := customer_route (job_customer j).

Definition members (o : KeyedOperating) : list Member := cell_member <$> roles o.

Definition role_names (l : list RoleCell) : list (RoleName Role) := member_role ∘ cell_member <$> l.

Definition retired (c : RoleCell) : Prop := member_state (cell_member c) = Member_Retired.

(** ** Cells and bindings *)

(** The queue is in admission order, every job is held by the role that its
    binding names, and a retired role holds none. *)
Record cell_ok (c : RoleCell) : Prop := {
  cell_sorted : sorted (cell_queue c);
  cell_keys : Forall (fun kv => kv.1 = job_admitted kv.2) (cell_queue c);
  cell_affine : Forall (fun j => evidence_role (job_binding j) = cell_role c) (cell_jobs c);
  cell_retired : retired c -> cell_queue c = []
}.

(** An idle worker has no job waiting, unless no assignment can be numbered. *)
Definition served (self : Self) (c : RoleCell) : Prop :=
  is_idle (cell_member c) = true -> cell_queue c = [] \/ next_assignment (assignments self.2) = None.

Definition admissible (next : option N) (j : CustomerJob) : Prop :=
  job_number (job_id j) = job_ordinal j /\ below next (job_ordinal j).

(** Some role of the name serves. *)
Definition live (l : list RoleCell) (role : Role) : Prop := exists c, c ∈ l /\ cell_role c = role /\ ~ retired c.

Record desk_inv (next : option N) (o : KeyedOperating) : Prop := {
  desk_cells : Forall cell_ok (roles o);
  desk_distinct : NoDup (job_ordinal <$> held (roles o));
  desk_jobs : Forall (admissible next) (held (roles o));
  desk_table : table_ok (affinity o);
  desk_bound : Forall (fun b => live (roles o) (evidence_role (binding_evidence b))) (bindings (affinity o))
}.

(** The invariant of an operating pool. *)
Record keyed_inv (W : PoolRecoveryState Source -> Prop) (self : Self) (o : KeyedOperating) : Prop := {
  ok_desk : desk_inv (next_job (jobs self.2)) o;
  ok_served : Forall (served self) (roles o);
  ok_crew : crew_inv W (recovery self.2) (startup_limit self.2) (restarts self.2) (members o);
  ok_capacity : table_capacity (affinity o) = binding_capacity self.2
}.

(** ** Answers *)

(** Whom a delivery answers, and with what. *)
Definition reply_of (d : CustomerDelivery Addr CustomerEndpoint KeyedOutcome) : CustomerRoute * KeyedOutcome :=
  match d with
  | Customer_Logical d | Customer_RejectedLogical d _ => (Logical (to d), delivered d)
  | Customer_Established d | Customer_RejectedEstablished d _ => (Established (established_to d), established_message d)
  end.

Definition replies (a : KeyedActions) : list (CustomerRoute * KeyedOutcome) :=
  reply_of <$> requests (customer_outcomes (sends a)).

(** A terminal answer for a job: to its own customer, under the binding it was
    accepted with, and with its own payload when it is returned. *)
Definition closes (j : CustomerJob) (r : CustomerRoute * KeyedOutcome) : Prop :=
  r.1 = job_route j /\
  match r.2 with
  | Keyed_Completed id binding _ => id = job_id j /\ binding = job_binding j
  | Keyed_ReturnedQueued id binding payload _ | Keyed_ReturnedAssigned id binding payload _ =>
      id = job_id j /\ binding = job_binding j /\ payload = job_payload j
  | Keyed_Accepted _ _ _ | Keyed_Rejected _ _ _ _ => False
  end.

(** A source that came back and could not be put away. *)
Definition source_lost (c : KeyedDiagnosticCause) : bool :=
  match c with
  | Diag_WorkerPreparationFailed _ _ _ (Some _) _
  | Diag_WorkerPreparationFailed _ _ _ _ Preparation_SourceStateCorrupt
  | Diag_WorkerReplacementFailed _ _ _ _ (Some _) _
  | Diag_WorkerReplacementFailed _ _ _ _ _ Replacement_SourceStateCorrupt => true
  | _ => false
  end.

Definition clean (a : KeyedActions) : Prop :=
  Forall (fun d => source_lost (cause (diagnostic_of d)) = false) (requests (diagnostics (sends a))).

(** From the open jobs [J] to [J'], every job that left was closed by one
    answer, and no source was lost. *)
Record accounted (J : list CustomerJob) (a : KeyedActions) (J' : list CustomerJob) (a' : KeyedActions) : Prop := {
  acc_settles : exists closed new, replies a' = replies a ++ new /\ Forall2 closes closed new /\ J ≡ₚ closed ++ J';
  acc_clean : clean a -> clean a'
}.

#[export] Instance keyed_accounted_Proper :
  Proper ((≡ₚ) ==> (=) ==> (≡ₚ) ==> (=) ==> iff) accounted.
Proof.
  assert (H : forall J1 J2 a K1 K2 b, J1 ≡ₚ J2 -> K1 ≡ₚ K2 -> accounted J1 a K1 b -> accounted J2 a K2 b).
  { intros J1 J2 a K1 K2 b HJ HK [(closed & new & Hr & Hf & Hp) Hc]. split; [|done].
    exists closed, new. split_and!; auto. by rewrite <- HJ, <- HK. }
  intros J1 J2 HJ a ? <- K1 K2 HK b ? <-. split; apply H; done.
Qed.

Lemma keyed_accounted_refl J a : accounted J a J a.
Proof. split; [|done]. exists [], []. rewrite app_nil_r. repeat split; auto. Qed.

Lemma keyed_accounted_trans J1 a1 J2 a2 J3 a3 :
  accounted J1 a1 J2 a2 -> accounted J2 a2 J3 a3 -> accounted J1 a1 J3 a3.
Proof.
  intros [(c1 & n1 & R1 & F1 & P1) C1] [(c2 & n2 & R2 & F2 & P2) C2]. split; [|auto].
  exists (c1 ++ c2), (n1 ++ n2). split_and!; [by rewrite R2, R1, app_assoc|by apply Forall2_app|].
  by rewrite P1, P2, app_assoc.
Qed.

(** Actions whose answers and diagnostics a request does not touch. *)
Definition same_account (a a' : KeyedActions) : Prop :=
  replies a' = replies a /\ requests (diagnostics (sends a')) = requests (diagnostics (sends a)).

Lemma keyed_accounted_same J a a' : same_account a a' -> accounted J a J a'.
Proof.
  intros [Hr Hd]. split; [|unfold clean; by rewrite Hd].
  exists [], []. rewrite app_nil_r. repeat split; auto.
Qed.

Lemma reply_of_outcome r o : reply_of (customer_outcome r o) = (r, o).
Proof. by destruct r. Qed.

Lemma reply_of_rejected r o : reply_of (customer_rejected r o) = (r, o).
Proof. by destruct r. Qed.

Lemma replies_answered route r a : replies (answered route r a) = replies a ++ [(route, r)].
Proof. unfold replies; cbn. by rewrite fmap_app, fmap_cons, reply_of_outcome. Qed.

Lemma keyed_replies_answers route r a : replies (answers route r a) = [(route, r)].
Proof. unfold replies; cbn. by rewrite reply_of_outcome. Qed.

Lemma keyed_accounted_answered J j a r :
  closes j (job_route j, r) -> accounted (j :: J) a J (answered (job_route j) r a).
Proof.
  intros Hc. split; [|done]. exists [j], [(job_route j, r)]. rewrite replies_answered.
  split_and!; [done|by constructor|done].
Qed.

(** [=] in place of [append] is the same on actions that answer nobody yet. *)
Lemma keyed_accounted_answers J j r :
  closes j (job_route j, r) -> accounted (j :: J) keyed_cont J (answers (job_route j) r keyed_cont).
Proof.
  intros Hc. split; [|done]. exists [j], [(job_route j, r)]. rewrite keyed_replies_answers.
  split_and!; [done|by constructor|done].
Qed.

Lemma keyed_accounted_diagnosed J self c a : source_lost c = false -> accounted J a J (diagnosed self c a).
Proof.
  intros Hc. split.
  - exists [], []. rewrite app_nil_r. repeat split; auto.
  - intros Ha. unfold clean; simpl. apply Forall_app. split; [done|]. constructor; [|done].
    by destruct (diagnostics_to self.2).
Qed.

Lemma keyed_accounted_diagnose J self s e : accounted J keyed_cont J (diagnose self s e).2.
Proof.
  split.
  - exists [], []. repeat split; auto.
  - intros _. unfold clean; simpl. constructor; [|done]. by destruct (diagnostics_to self.2).
Qed.

Lemma keyed_clean_cont : clean keyed_cont.
Proof. constructor. Qed.

Lemma return_queue_ok reason q : forall a J, accounted (queued_jobs q ++ J) a J (return_queue reason q a).
Proof.
  induction q as [|[k j] q IH]; intros a J; cbn [return_queue queued_jobs fmap list_fmap app]; [apply keyed_accounted_refl|].
  eapply keyed_accounted_trans; [|apply IH]. by apply keyed_accounted_answered.
Qed.

Lemma diagnose_bindings_ok self l : forall a J, accounted J a J (diagnose_bindings self l a).
Proof.
  induction l as [|[k b] l IH]; intros a J; cbn [diagnose_bindings]; [apply keyed_accounted_refl|].
  eapply keyed_accounted_trans; [|apply IH]. by apply keyed_accounted_diagnosed.
Qed.

(** ** Replacing one cell *)

#[export] Instance keyed_held_Proper : Proper ((≡ₚ) ==> (≡ₚ)) held.
Proof. intros l k H. unfold held. by rewrite H. Qed.

Lemma keyed_held_cons c l : held (c :: l) = cell_jobs c ++ held l.
Proof. done. Qed.

Lemma cell_split (l : list RoleCell) p c c' : l !! p = Some c ->
  l ≡ₚ c :: delete p l /\ <[p := c']> l ≡ₚ c' :: delete p l.
Proof.
  intros Hc. split; [by apply delete_Permutation|].
  by rewrite <- (insert_at_delete p c' _ _ Hc), insert_at_Permutation.
Qed.

Lemma members_split o p c c' : roles o !! p = Some c ->
  members o ≡ₚ cell_member c :: (cell_member <$> delete p (roles o)) /\
  members (with_roles o (<[p := c']> (roles o))) ≡ₚ cell_member c' :: (cell_member <$> delete p (roles o)).
Proof. intros Hc. destruct (cell_split _ _ _ c' Hc) as [H1 H2]. unfold members. cbn. by rewrite H1 at 1; rewrite H2. Qed.

Lemma held_replace l p c c' closed : l !! p = Some c -> cell_jobs c ≡ₚ closed ++ cell_jobs c' ->
  held l ≡ₚ closed ++ held (<[p := c']> l).
Proof.
  intros Hc Hj. destruct (cell_split _ _ _ c' Hc) as [H1 H2]. rewrite H2, H1 at 1.
  by rewrite !keyed_held_cons, Hj, app_assoc.
Qed.

Lemma role_names_replace l p c c' : l !! p = Some c ->
  member_role (cell_member c') = member_role (cell_member c) -> role_names (<[p := c']> l) = role_names l.
Proof.
  intros Hc Hr. unfold role_names. rewrite list_fmap_insert. apply list_insert_id.
  rewrite list_lookup_fmap, Hc. cbn. by rewrite Hr.
Qed.

Lemma live_replace l p c c' role : l !! p = Some c -> cell_role c' = cell_role c ->
  (retired c' -> retired c \/ role <> cell_role c) -> live l role -> live (<[p := c']> l) role.
Proof.
  intros Hc Hr Hret (x & Hx & Hxr & Hn). destruct (cell_split _ _ _ c' Hc) as [H1 H2]. rewrite H1 in Hx.
  unfold live. setoid_rewrite H2. apply elem_of_cons in Hx as [->|Hx].
  - exists c'. split_and!; [by left|congruence|]. intros [?|?]%Hret; [done|congruence].
  - exists x. split_and!; [by right|done|done].
Qed.

(** A cell is replaced by one of the same role that holds some of its jobs. *)
Lemma desk_replace next o p c c' closed :
  desk_inv next o -> roles o !! p = Some c -> cell_role c' = cell_role c -> cell_ok c' ->
  cell_jobs c ≡ₚ closed ++ cell_jobs c' ->
  (retired c' -> retired c \/ Forall (fun b => evidence_role (binding_evidence b) <> cell_role c) (bindings (affinity o))) ->
  desk_inv next (with_roles o (<[p := c']> (roles o))).
Proof.
  intros [Dc Dd Dj Dt Db] Hc Hr Hok Hj Hret. pose proof (held_replace _ _ _ _ _ Hc Hj) as Hh.
  destruct (cell_split _ _ _ c' Hc) as [H1 H2]. rewrite Hh in Dd, Dj. rewrite fmap_app in Dd.
  apply NoDup_app in Dd as (_ & _ & Dd). apply Forall_app in Dj as [_ Dj].
  split; cbn [with_roles roles affinity]; auto.
  - rewrite H2. rewrite H1 in Dc. inversion_clear Dc. by constructor.
  - rewrite list.Forall_forall in Db |- *. intros b Hb. eapply live_replace; eauto.
    intros [?|Hf]%Hret; [by left|right]. rewrite list.Forall_forall in Hf. by apply Hf.
Qed.

Lemma served_replace self o p c c' :
  Forall (served self) (roles o) -> roles o !! p = Some c -> served self c' ->
  Forall (served self) (roles (with_roles o (<[p := c']> (roles o)))).
Proof.
  intros Hf Hc Hs. destruct (cell_split _ _ _ c' Hc) as [H1 H2]. cbn. rewrite H2. rewrite H1 in Hf.
  inversion_clear Hf. by constructor.
Qed.

(** ** Queues *)

Lemma sorted_affine_pop c k j q :
  cell_ok c -> cell_queue c = (k, j) :: q ->
  sorted q /\ Forall (fun kv => kv.1 = job_admitted kv.2) q /\ k = job_admitted j /\
  Forall (fun kv => (job_ordinal j < ordinal_number kv.1)%N) q.
Proof.
  intros [Hs Hk _ _] Hq. rewrite Hq in Hs, Hk. apply sorted_cons in Hs as [Hs Hlt].
  inversion_clear Hk as [|? ? Hkj Hk']. cbn in Hkj. subst k. split_and!; auto.
  eapply Forall_impl; [exact Hlt|]. intros [k v]. unfold ltb, leb, job_ordinal; cbn.
  rewrite negb_true_iff, N.leb_gt. done.
Qed.

Lemma keyed_queue_fresh (q : KeyedQueue) j :
  Forall (fun kv => kv.1 = job_admitted kv.2) q ->
  job_ordinal j ∉ (job_ordinal <$> queued_jobs q) -> job_admitted j ∉ (fst <$> q).
Proof.
  intros Hk Hj ([k v] & Hkv & Hin)%list_elem_of_fmap. cbn in Hkv. subst k. apply Hj.
  apply list_elem_of_fmap. exists v. rewrite list.Forall_forall in Hk. specialize (Hk _ Hin). cbn in Hk.
  split; [unfold job_ordinal; by rewrite Hk|]. apply list_elem_of_fmap. by exists (job_admitted j, v).
Qed.

Lemma keyed_bt_insert_fresh (q : KeyedQueue) j :
  sorted q -> Forall (fun kv => kv.1 = job_admitted kv.2) q ->
  job_ordinal j ∉ (job_ordinal <$> queued_jobs q) ->
  sorted (bt_insert (job_admitted j) j q) /\
  Forall (fun kv => kv.1 = job_admitted kv.2) (bt_insert (job_admitted j) j q) /\
  queued_jobs (bt_insert (job_admitted j) j q) ≡ₚ j :: queued_jobs q.
Proof.
  intros Hs Hk Hj. pose proof (keyed_queue_fresh _ _ Hk Hj) as Hf.
  pose proof (bt_insert_Permutation (job_admitted j) j q Hf) as Hp. split_and!.
  - by apply bt_insert_sorted.
  - rewrite Hp. by constructor.
  - unfold queued_jobs. by rewrite Hp.
Qed.

(** The job of a worker goes back to the queue of its role. *)
Lemma requeued m m' q capacity j x :
  cell_ok (mkCell m q capacity) -> busy m = [(j, x)] -> NoDup (job_ordinal <$> cell_jobs (mkCell m q capacity)) ->
  member_role m' = member_role m -> busy m' = [] -> member_state m' <> Member_Retired ->
  cell_ok (mkCell m' (bt_insert (job_admitted j) j q) capacity) /\
  cell_jobs (mkCell m' (bt_insert (job_admitted j) j q) capacity) ≡ₚ cell_jobs (mkCell m q capacity).
Proof.
  intros [Hs Hk Ha _] Hb Hd Hr Hb' Hn. unfold cell_jobs in *. cbn in Hs, Hk, Ha, Hd |- *. rewrite Hb in *. cbn in Hd, Ha |- *.
  rewrite fmap_app in Hd. apply NoDup_app in Hd as (_ & Hd & _).
  assert (Hfresh : job_ordinal j ∉ (job_ordinal <$> queued_jobs q)).
  { intros Hin. apply (Hd _ Hin). cbn. by left. }
  destruct (keyed_bt_insert_fresh q j Hs Hk Hfresh) as (Hs' & Hk' & Hp').
  assert (Hp : queued_jobs (bt_insert (job_admitted j) j q) ++ (fst <$> busy m') ≡ₚ queued_jobs q ++ [j]).
  { rewrite Hb', Hp'. cbn. rewrite app_nil_r. by rewrite Permutation_app_comm. }
  split; [|exact Hp]. split; cbn; auto.
  - unfold cell_jobs; cbn. rewrite Hp. eapply Forall_impl; [exact Ha|]. cbn. unfold cell_role; cbn. by rewrite Hr.
  - done.
Qed.

(** ** What a step leaves alone of the pool *)

Record kept (self self' : Self) : Prop := {
  kept_limit : startup_limit self'.2 = startup_limit self.2;
  kept_recovery : recovery self'.2 = recovery self.2;
  kept_restarts : restarts self'.2 = restarts self.2;
  kept_jobs : jobs self'.2 = jobs self.2;
  kept_capacity : binding_capacity self'.2 = binding_capacity self.2;
  kept_selector : selector self'.2 = selector self.2;
  kept_exhausted : next_assignment (assignments self.2) = None -> next_assignment (assignments self'.2) = None
}.

Record config_kept (self self' : Self) : Prop := {
  config_limit : startup_limit self'.2 = startup_limit self.2;
  config_policy : same_policy (recovery self.2) (recovery self'.2);
  config_jobs : jobs self'.2 = jobs self.2;
  config_capacity : binding_capacity self'.2 = binding_capacity self.2;
  config_selector : selector self'.2 = selector self.2;
  config_exhausted : next_assignment (assignments self.2) = None -> next_assignment (assignments self'.2) = None
}.

Lemma keyed_kept_refl self : kept self self.
Proof. done. Qed.

Lemma keyed_kept_trans s1 s2 s3 : kept s1 s2 -> kept s2 s3 -> kept s1 s3.
Proof. intros [] []. split; [congruence..|auto]. Qed.

Lemma keyed_config_refl self : config_kept self self.
Proof. split; auto. apply same_policy_refl. Qed.

Lemma keyed_config_trans s1 s2 s3 : config_kept s1 s2 -> config_kept s2 s3 -> config_kept s1 s3.
Proof. intros [] []. split; [congruence|by eapply same_policy_trans|congruence..|auto]. Qed.

Lemma keyed_kept_config self self' : kept self self' -> config_kept self self'.
Proof. intros [H1 H2 _ H4 H5 H6 H7]. split; auto. rewrite H2. apply same_policy_refl. Qed.

Lemma served_kept self self' l :
  (next_assignment (assignments self.2) = None -> next_assignment (assignments self'.2) = None) ->
  Forall (served self) l -> Forall (served self') l.
Proof. intros Hn Hf. eapply Forall_impl; [exact Hf|]. intros c Hc [?|?]%Hc; [by left|right; auto]. Qed.

Lemma keyed_inv_kept {W} self self' o : kept self self' -> keyed_inv W self o -> keyed_inv W self' o.
Proof.
  intros [K1 K2 K3 K4 K5 _ K6] [Id Is Ic Ik]. split; rewrite ?K1, ?K2, ?K3, ?K4, ?K5; auto. by eapply served_kept.
Qed.

(** ** Successive operating states: the same roles, and a later table *)

Record follows (o o' : KeyedOperating) : Prop := {
  follows_names : role_names (roles o') = role_names (roles o);
  follows_table : tabled (affinity o) (affinity o')
}.

Lemma follows_refl o : follows o o.
Proof. split; [done|apply tabled_refl]. Qed.

Lemma follows_trans o1 o2 o3 : follows o1 o2 -> follows o2 o3 -> follows o1 o3.
Proof. intros [H1 H2] [H3 H4]. split; [congruence|by eapply tabled_trans]. Qed.

Lemma follows_replace o p c c' : roles o !! p = Some c ->
  member_role (cell_member c') = member_role (cell_member c) -> follows o (with_roles o (<[p := c']> (roles o))).
Proof. intros Hc Hr. split; [by eapply role_names_replace|apply tabled_refl]. Qed.

End KeyedInvariant.

Section KeyedSteps.
  Context `{KT : KeyedTypes}.

Abbreviation keyed_ok := (keyed_inv awaited).
Abbreviation keyed_returned := (keyed_inv has_source).

(** ** The end of operation *)

Lemma retirement_returns_ok self role m id J a :
  accounted ((fst <$> busy m) ++ J) a J
    (retirement_returns self role (retirement_custody (member_shutdown m id)) a).
Proof.
  destruct (member_shutdown_spec m id) as (_ & _ & _ & H).
  destruct (retirement_custody (member_shutdown m id)) as [|[j w s c]|r];
    cbn [retirement_returns shutdown_customer] in *.
  - rewrite H. apply keyed_accounted_refl.
  - rewrite H. destruct c; [eapply keyed_accounted_trans; [|by apply keyed_accounted_diagnosed]|];
      by apply (keyed_accounted_answered J j).
  - rewrite H. by apply keyed_accounted_diagnosed.
Qed.

(** Every member with a live worker has an id left. *)
Definition ids_suffice (ids : option (list ShutdownId)) (l : list RoleCell) : Prop :=
  match ids with Some ids => length ids = length (omap (shutdown_target ∘ cell_member) l) | None => False end.

Lemma retire_cells_ok self l : forall ids done a workers a' J,
  retire_cells self ids l done a = (workers, a') ->
  accounted (held l ++ J) a J a' /\
  sum_list_with draining_source workers =
    sum_list_with draining_source done + sum_list_with preparing (cell_member <$> l) /\
  (ids_suffice ids l -> Forall shutdown_requested done -> Forall shutdown_requested workers).
Proof.
  induction l as [|c l IH]; intros ids done a workers a' J; cbn [retire_cells].
  { intros [= <- <-]. split_and!; auto using keyed_accounted_refl. }
  destruct (match ids with Some _ => _ | None => _ end) as [id ids'] eqn:Hids.
  destruct (member_shutdown (cell_member c) id) as [w request custody] eqn:Hm. intros Hr.
  destruct (IH _ _ _ _ _ J Hr) as (Hacc & Hsum & Hreq).
  pose proof (member_shutdown_spec (cell_member c) id) as Hspec. rewrite Hm in Hspec.
  destruct Hspec as (Hsrc & Hn & Hs & _). cbn in Hsrc, Hn, Hs. split_and!.
  - rewrite keyed_held_cons. unfold cell_jobs. rewrite <- !app_assoc. eapply keyed_accounted_trans; [|exact Hacc].
    eapply keyed_accounted_trans; [apply return_queue_ok|].
    pose proof (retirement_returns_ok self (member_role (cell_member c)) (cell_member c) id (held l ++ J)) as Hret.
    rewrite Hm in Hret. eapply keyed_accounted_trans; [|apply Hret]. apply keyed_accounted_same. by destruct request.
  - rewrite Hsum, sum_list_with_app. cbn [sum_list_with fmap list_fmap]. cbn. lia.
  - intros Hsuf Hdone. apply Hreq.
    + destruct ids as [ids|]; [|done]. simpl in Hsuf |- *.
      destruct (shutdown_target (cell_member c)); simplify_eq/=; [|done].
      destruct ids; simpl in *; lia.
    + apply Forall_app. split; [done|]. constructor; [|done].
      destruct ids as [ids|]; [|done]. simpl in Hsuf.
      destruct (shutdown_target (cell_member c)) eqn:Ht; simplify_eq/=; [|auto].
      destruct ids; simplify_eq/=. by eapply Hs.
Qed.

(** What holds when the pool no longer operates. *)
Definition ended (self : Self) (s : KeyedPoolState) (a : KeyedActions) : Prop :=
  match s with
  | State_Retiring l d => retiring_ok (recovery self.2) l d
  | State_Stopped | State_ForcedRetirement _ _ => become_ a = Stop the_Stopped
  | State_Constructed _ | State_Operating _ => False
  end.

Lemma begin_retirement_ok self o a self' s a' :
  sum_list_with preparing (members o) = sources_out (recovery self.2) ->
  begin_retirement self o a = (self', (s, a')) ->
  kept self self' /\ accounted (held (roles o)) a [] a' /\ ended self' s a'.
Proof.
  intros Hsrc. unfold begin_retirement. destruct (reserve _ _) as [sh ids] eqn:Hres.
  destruct (retire_cells _ _ _ _ _) as [workers a1] eqn:Hret.
  destruct (retire_cells_ok _ _ _ _ _ _ _ [] Hret) as (Hacc & Hsum & Hreq).
  assert (Hall : forall b, same_account a1 b -> accounted (held (roles o)) a [] b).
  { intros b Hb. eapply keyed_accounted_trans; [apply diagnose_bindings_ok|].
    rewrite app_nil_r in Hacc. eapply keyed_accounted_trans; [exact Hacc|by apply keyed_accounted_same]. }
  assert (Hk : kept self (set_shutdowns self sh)) by (by destruct self).
  destruct ids as [ids|]; [|intros [= <- <- <-]; split_and!; [done|by apply Hall|done]].
  destruct (deadline_begin _) as [d sch] eqn:Hd. unfold continue_retirement.
  assert (Hend : any_waiting workers = true -> deadline_pending d ->
    retiring_ok (recovery (set_shutdowns self sh).2) workers d).
  { intros Hw Hp. split; auto.
    - rewrite Hsum, (kept_recovery _ _ Hk). exact Hsrc.
    - apply Hreq; [|done]. by eapply reserve_length. }
  destruct d; try destruct (any_waiting workers) eqn:Hw; intros [= <- <- <-];
    (split_and!; [done|apply Hall; by destruct sch|]); try done; by apply Hend.
Qed.

(** ** Results of a step *)

Definition state_jobs (s : KeyedPoolState) : list CustomerJob :=
  match s with State_Operating o => held (roles o) | _ => [] end.

(** From the open jobs [J], the actions [a] and the operating state [base]. *)
Record result_ok (base : KeyedOperating) (J : list CustomerJob) (a : KeyedActions)
  (self self' : Self) (r : KeyedPoolState * KeyedActions) : Prop := {
  res_config : config_kept self self';
  res_accounted : accounted J a (state_jobs r.1) r.2;
  res_state : match r.1 with
              | State_Operating o => keyed_ok self' o /\ follows base o
              | s => ended self' s r.2
              end
}.

Lemma keyed_result_ok_from base J a self J0 a0 self0 self' r :
  accounted J0 a0 J a -> config_kept self0 self ->
  result_ok base J a self self' r -> result_ok base J0 a0 self0 self' r.
Proof. intros Ha Hc [Rc Ra Rs]. split; [by eapply keyed_config_trans|by eapply keyed_accounted_trans|done]. Qed.

Lemma keyed_result_ok_perm base J J' a self self' r :
  J ≡ₚ J' -> result_ok base J a self self' r -> result_ok base J' a self self' r.
Proof. intros HJ [Rc Ra Rs]. split; auto. by rewrite <- HJ. Qed.

Lemma begin_retirement_result base self o a self' r :
  sum_list_with preparing (members o) = sources_out (recovery self.2) ->
  begin_retirement self o a = (self', r) -> result_ok base (held (roles o)) a self self' r.
Proof.
  destruct r as [s a']. intros Hs Hb. destruct (begin_retirement_ok _ _ _ _ _ _ Hs Hb) as (Hk & Ha & He).
  split; [by apply keyed_kept_config| |]; simpl; by destruct s.
Qed.

(** ** Replacing the cell at a position *)

Lemma put_taken o p c c' : roles o !! p = Some c ->
  put_cell (with_roles o (base.delete p (roles o))) p c' = with_roles o (<[p := c']> (roles o)).
Proof. intros Hc. unfold put_cell, with_roles; cbn. by rewrite (insert_at_delete _ _ _ _ Hc). Qed.

Lemma take_cell_Some f o p c o' : take_cell f o = Some (p, c, o') ->
  roles o !! p = Some c /\ f (cell_member c) = true /\ o' = with_roles o (base.delete p (roles o)).
Proof.
  unfold take_cell. destruct (take_at _ _) as [[[p' c'] rest]|] eqn:Ht; [|done]. intros [= <- <- <-].
  apply take_at_Some in Ht as (H1 & H2 & -> & _). done.
Qed.

Lemma take_cell_None f o : take_cell f o = None -> Forall (fun m => f m = false) (members o).
Proof.
  unfold take_cell. destruct (take_at _ _) as [[[p' c'] rest]|] eqn:Ht; [done|]. intros _.
  apply take_at_None in Ht. unfold members. by apply Forall_fmap.
Qed.

(** The other members. *)
Definition others (o : KeyedOperating) (p : nat) : list Member := cell_member <$> base.delete p (roles o).

Lemma keyed_replace {W W'} self self' o p c c' :
  keyed_inv W self o -> roles o !! p = Some c ->
  member_role (cell_member c') = member_role (cell_member c) -> cell_ok c' ->
  (exists closed, cell_jobs c ≡ₚ closed ++ cell_jobs c') -> (retired c' -> retired c) -> served self' c' ->
  config_kept self self' ->
  crew_inv W' (recovery self'.2) (startup_limit self'.2) (restarts self'.2) (cell_member c' :: others o p) ->
  keyed_inv W' self' (with_roles o (<[p := c']> (roles o))) /\ follows o (with_roles o (<[p := c']> (roles o))).
Proof.
  intros [Id Is Ic Ik] Hc Hr Hok [closed Hj] Hret Hs [C1 C2 C3 C4 _ C5] Hcrew. split; [|by eapply follows_replace].
  split; cbn [with_roles affinity].
  - rewrite C3. eapply desk_replace; [done|done| |done|exact Hj|auto]. unfold cell_role. by rewrite Hr.
  - eapply served_replace; [|done|done]. by eapply served_kept.
  - eapply crew_perm; [symmetry; exact (proj2 (members_split o p c c' Hc))|exact Hcrew].
  - congruence.
Qed.

Lemma keyed_crew {W} self o p c : keyed_inv W self o -> roles o !! p = Some c ->
  crew_inv W (recovery self.2) (startup_limit self.2) (restarts self.2) (cell_member c :: others o p).
Proof. intros [_ _ Ic _] Hc. eapply crew_perm; [exact (proj1 (members_split o p c c Hc))|done]. Qed.

Lemma keyed_cell {W} self o p c : keyed_inv W self o -> roles o !! p = Some c ->
  cell_ok c /\ served self c /\ NoDup (job_ordinal <$> cell_jobs c).
Proof.
  intros [[Dc Dd _ _ _] Is _ _] Hc. apply list_elem_of_lookup_2 in Hc as Hin.
  rewrite list.Forall_forall in Dc, Is. split_and!; auto.
  destruct (cell_split _ _ _ c Hc) as [H1 _]. rewrite H1, keyed_held_cons, fmap_app in Dd. by apply NoDup_app in Dd as [? _].
Qed.

(** A member changes to one with the same weights. *)
Lemma cell_ok_member m m' q capacity :
  cell_ok (mkCell m q capacity) -> member_role m' = member_role m -> busy m' = busy m ->
  (member_state m' = Member_Retired -> member_state m = Member_Retired) -> cell_ok (mkCell m' q capacity).
Proof.
  intros [H1 H2 H3 H4] Hr Hb Hn. split; [done|done| |by intros ?%Hn; apply H4].
  unfold cell_jobs, cell_role in *; cbn in *. by rewrite Hb, Hr.
Qed.

Lemma keyed_same_member self o p m m' q capacity :
  keyed_ok self o -> roles o !! p = Some (mkCell m q capacity) -> same_weight m m' ->
  (member_state m' = Member_Retired -> member_state m = Member_Retired) ->
  keyed_ok self (with_roles o (<[p := mkCell m' q capacity]> (roles o))) /\
  follows o (with_roles o (<[p := mkCell m' q capacity]> (roles o))) /\
  held (<[p := mkCell m' q capacity]> (roles o)) ≡ₚ held (roles o).
Proof.
  intros Hok Hc [Wb Wi Wst Wu Wp Wt Hr] Hn. destruct (keyed_cell _ _ _ _ Hok Hc) as (Hcell & Hserved & _).
  assert (Hj : cell_jobs (mkCell m q capacity) ≡ₚ [] ++ cell_jobs (mkCell m' q capacity)).
  { unfold cell_jobs; cbn. by rewrite Wb. }
  edestruct (@keyed_replace awaited awaited self self o p) as [H1 H2]; [done|exact Hc| | | | | |apply keyed_config_refl| |].
  7: { split_and!; [exact H1|exact H2|]. symmetry. rewrite (held_replace _ _ _ _ _ Hc Hj). done. }
  all: cbn; auto.
  - by eapply cell_ok_member.
  - by exists [].
  - intros Hi. apply Hserved. cbn in *. unfold idle in Wi. by destruct (is_idle m), (is_idle m').
  - eapply crew_replace; [..|by apply (keyed_crew _ _ _ _ Hok Hc)]; cbn; lia.
Qed.

(** ** Service of one role *)

Lemma cell_pop role rec current ph k j q capacity :
  cell_ok (mkCell (mkMember role rec (Member_Worker (mkPoolWorker current Phase_Idle))) ((k, j) :: q) capacity) ->
  (ph = Phase_Idle \/ exists a, ph = Phase_Busy a /\ assigned_customer a = j) ->
  cell_ok (mkCell (mkMember role rec (Member_Worker (mkPoolWorker current ph))) q capacity).
Proof.
  intros Hc Hph. destruct (sorted_affine_pop _ _ _ _ Hc eq_refl) as (Hs & Hk & _ & _).
  destruct Hc as [_ _ Ha _]. split; [done|done| |done]. unfold cell_jobs, cell_role in *; cbn in *.
  inversion_clear Ha as [|? ? Hj Hq]. rewrite app_nil_r in Hq. apply Forall_app. split; [done|].
  destruct Hph as [->|(a & -> & <-)]; cbn; [constructor|]. by constructor.
Qed.

Lemma fill_role_ok self o p a self' o' a' :
  desk_inv (next_job (jobs self.2)) o -> Forall (served self) (base.delete p (roles o)) ->
  crew_inv awaited (recovery self.2) (startup_limit self.2) (restarts self.2) (members o) ->
  table_capacity (affinity o) = binding_capacity self.2 ->
  fill_role self o p a = (self', (o', a')) ->
  kept self self' /\ keyed_ok self' o' /\ follows o o' /\
  accounted (held (roles o)) a (held (roles o')) a'.
Proof.
  intros Hd Hs Hcr Hcap. unfold fill_role.
  assert (Hsame : (forall c, roles o !! p = Some c -> served self c) ->
    kept self self /\ keyed_ok self o /\ follows o o /\
    accounted (held (roles o)) a (held (roles o)) a).
  { intros Hc. split_and!; auto using keyed_kept_refl, keyed_accounted_refl, follows_refl. split; auto.
    destruct (roles o !! p) as [c|] eqn:Hp.
    - destruct (cell_split _ _ _ c Hp) as [H1 _]. rewrite H1. constructor; auto.
    - apply lookup_ge_None in Hp. rewrite delete_take_drop, take_ge, drop_ge, app_nil_r in Hs by lia. done. }
  destruct (roles o !! p) as [[[role rec st] q capacity]|] eqn:Hp; [|intros [= <- <- <-]; by apply Hsame].
  destruct st as [|[current ph]| |]; try (intros [= <- <- <-]; apply Hsame; by intros ? [= <-]).
  destruct ph; try (intros [= <- <- <-]; apply Hsame; by intros ? [= <-]).
  destruct q as [|[k j] q]; [intros [= <- <- <-]; apply Hsame; intros ? [= <-]; by left|].
  assert (Hcell : cell_ok (mkCell (mkMember role rec (Member_Worker (mkPoolWorker current Phase_Idle))) ((k, j) :: q) capacity)).
  { apply list_elem_of_lookup_2 in Hp. destruct Hd as [Dc _ _ _ _]. rewrite list.Forall_forall in Dc. by apply Dc. }
  assert (Hstep : forall self1 ph closed a1, kept self self1 ->
    (ph = Phase_Idle /\ next_assignment (assignments self1.2) = None \/ exists x, ph = Phase_Busy x /\ assigned_customer x = j) ->
    let c' := mkCell (mkMember role rec (Member_Worker (mkPoolWorker current ph))) q capacity in
    (forall J, accounted (closed ++ J) a J a1) ->
    j :: queued_jobs q ≡ₚ closed ++ cell_jobs c' ->
    kept self self1 /\ keyed_ok self1 (with_roles o (<[p := c']> (roles o))) /\
    follows o (with_roles o (<[p := c']> (roles o))) /\
    accounted (held (roles o)) a (held (<[p := c']> (roles o))) a1).
  { intros self1 ph closed a1 Hk Hph c' Ha Hj. pose proof Hk as [K1 K2 K3 K4 K5 _ K6].
    assert (Hj' : cell_jobs (mkCell (mkMember role rec (Member_Worker (mkPoolWorker current Phase_Idle))) ((k, j) :: q) capacity)
      ≡ₚ closed ++ cell_jobs c') by (rewrite <- Hj; unfold cell_jobs; cbn; by rewrite app_nil_r).
    split_and!; [done| |by eapply follows_replace|rewrite (held_replace _ _ _ _ _ Hp Hj'); apply Ha].
    split; rewrite ?K1, ?K2, ?K3, ?K4, ?K5; cbn [with_roles affinity]; auto.
    - eapply desk_replace; [done|exact Hp|done| |exact Hj'|done].
      eapply cell_pop; [exact Hcell|]. destruct Hph as [[? _]|?]; auto.
    - destruct (cell_split _ _ _ c' Hp) as [_ H2]. cbn [with_roles roles]. rewrite H2. constructor; [|by eapply served_kept].
      intros Hi. destruct Hph as [[_ ?]|(x & Hx & _)]; [by right|]. subst c' ph. done.
    - destruct (members_split o p _ c' Hp) as [M1 M2]. eapply crew_perm; [symmetry; exact M2|].
      eapply crew_light; [| | | |eapply crew_perm; [exact M1|done]]; [done|..];
        by destruct Hph as [[-> _]|(x & -> & _)]. }
  destruct self as [n p0]. unfold assign, assignments_issue; cbn -[checked_add u64_max answered held].
  destruct (next_assignment (assignments p0)) as [i|] eqn:Hn; cbn -[checked_add u64_max answered held].
  - intros [= <- <- <-]. apply (Hstep _ _ []); [split; cbn; congruence| |by intros; apply keyed_accounted_same|].
    + right. by eexists.
    + cbn. by rewrite Permutation_app_comm.
  - intros [= <- <- <-]. apply (Hstep _ _ [j]); [split; cbn; congruence|by left| |].
    + intros J. by apply keyed_accounted_answered.
    + unfold cell_jobs; cbn. by rewrite app_nil_r.
Qed.

(** ** Startups *)

Lemma authorize_startup_cell m : waits_for_startup m = true ->
  exists am, authorize_startup m = Ok am /\ forall self, exists m' request self', alloc self am = (self', (m', request)) /\
    self'.2 = self.2 /\ member_role m' = member_role m /\ busy m = [] /\ busy m' = [] /\ is_idle m' = false /\
    preparing m' = preparing m /\ stalled m' = stalled m /\ starting m = 0 /\ starting m' = 1 /\
    member_state m' <> Member_Retired.
Proof.
  destruct m as [role r [|[c []]| |]]; try done. intros _. eexists. split; [done|]. intros self.
  eexists _, _, _. split; [done|]. by split_and!.
Qed.

Lemma keyed_authorize_loop_ok k : forall self o a self' o' a',
  keyed_ok self o -> sum_list_with starting (members o) + k <= startup_maximum (startup_limit self.2) ->
  authorize_loop k self o a = (self', (o', a')) ->
  self'.2 = self.2 /\ keyed_ok self' o' /\ follows o o' /\
  held (roles o') ≡ₚ held (roles o) /\ same_account a a'.
Proof.
  induction k as [|k IH]; intros self o a self' o' a' Hok Hmax; cbn [authorize_loop].
  { intros [= <- <- <-]. by split_and!; auto using follows_refl. }
  destruct (take_cell waits_for_startup o) as [[[p [m q capacity]] o1]|] eqn:Ht.
  2: { intros [= <- <- <-]. by split_and!; auto using follows_refl. }
  apply take_cell_Some in Ht as (Hp & Hw & ->). cbn in Hw.
  destruct (authorize_startup_cell m Hw) as (am & -> & Hm). destruct (Hm self) as
    (m' & request & self1 & -> & Hself & R & B & B' & I' & Pr & St & Sg & Sg' & N).
  rewrite (put_taken _ _ _ _ Hp). set (c' := mkCell m' q capacity). intros Hloop.
  destruct (keyed_cell _ _ _ _ Hok Hp) as (Hcell & _ & _).
  pose proof (keyed_crew _ _ _ _ Hok Hp) as Hcr. destruct (members_split o p _ c' Hp) as [M1 M2].
  assert (Hj : cell_jobs (mkCell m q capacity) ≡ₚ [] ++ cell_jobs c') by (unfold cell_jobs; cbn; by rewrite B, B').
  assert (Hsum : sum_list_with starting (members (with_roles o (<[p := c']> (roles o)))) = S (sum_list_with starting (members o))).
  { rewrite M2. rewrite M1. cbn [sum_list_with cell_member c']. lia. }
  destruct (@keyed_replace awaited awaited self self1 o p (mkCell m q capacity) c' Hok Hp) as [Hok1 Hn1];
    [done| | |done| | | |].
  - eapply cell_ok_member; [exact Hcell|done|congruence|done].
  - by exists [].
  - intros Hi. change (is_idle m' = true) in Hi. congruence.
  - split; rewrite Hself; auto. apply same_policy_refl.
  - rewrite Hself. destruct Hcr as [C1 C2 C3 C4]. cbn [sum_list_with cell_member] in *.
    split; cbn [sum_list_with cell_member c']; rewrite ?Pr, ?St; auto.
    assert (Hm1 : sum_list_with starting (members o) = starting m + sum_list_with starting (others o p)) by (by rewrite M1).
    lia.
  - destruct (IH _ _ _ _ _ _ Hok1 ltac:(rewrite Hself, Hsum; lia) Hloop) as (H1 & H2 & H3 & H4 & H5).
    split_and!; [congruence|done|by eapply follows_trans| |done]. rewrite H4. cbn [with_roles roles].
    symmetry. by rewrite (held_replace _ _ _ _ _ Hp Hj).
Qed.

Lemma holds_startup_cells l : length (List.filter (holds_startup ∘ cell_member) l) = sum_list_with starting (cell_member <$> l).
Proof.
  induction l as [|c l IH]; [done|]. cbn [List.filter fmap list_fmap sum_list_with]. unfold starting at 1, compose at 1.
  destruct (holds_startup (cell_member c)); cbn; by rewrite IH.
Qed.

Lemma keyed_authorize_result base J a self0 self o a1 self' o' a' :
  result_ok base J a self0 self (State_Operating o, a1) -> authorize_waiting self o a1 = (self', (o', a')) ->
  result_ok base J a self0 self' (State_Operating o', a').
Proof.
  intros [Rc Ra [Hok Hn]] Hau. unfold authorize_waiting in Hau. rewrite holds_startup_cells in Hau.
  cbn [state_jobs fst snd] in *. pose proof (crew_starting _ _ _ _ _ (ok_crew _ _ _ Hok)) as Hmax.
  change (cell_member <$> roles o) with (members o) in Hau.
  assert (Hle : sum_list_with starting (members o) + (startup_maximum (startup_limit self.2) -
    sum_list_with starting (members o)) <= startup_maximum (startup_limit self.2)) by lia.
  destruct (keyed_authorize_loop_ok _ _ _ _ _ _ _ Hok Hle Hau) as (Hs & Hok' & Hn' & Hh & Ha).
  split; cbn [state_jobs fst snd].
  - eapply keyed_config_trans; [exact Rc|]. split; rewrite Hs; auto. apply same_policy_refl.
  - rewrite Hh. eapply keyed_accounted_trans; [exact Ra|by apply keyed_accounted_same].
  - split; [done|by eapply follows_trans].
Qed.

End KeyedSteps.
