(* ===== verification/KeyedHandlers.v ===== *)
(** * The handlers of an operating keyed pool

    What a change of one role does to the invariant; recovery, restarts,
    assignments, completions and stops, each with the invariant, the account
    of its customers and the table of bindings it leaves. *)

From stdpp Require Import base list list_numbers option numbers sorting.
From S2P Require Import Prelude Effects BTreeMap Timers Restart Termination Settlement Interpretation Creation Workers.
From S2P Require Import WorkerPreparation WorkerStartup ProxyWorker PoolAssignment PoolPolicy PoolWorker PoolMembers.
From S2P Require Import PoolDrain KeyedBinding KeyedProtocol KeyedRetirement KeyedPool KeyedRecovery.
From S2P Require Import KeyedTransition KeyedInvariant.

Section KeyedRoles.
  Context `{KT : KeyedTypes}.

Abbreviation keyed_ok := (keyed_inv awaited).
Abbreviation keyed_returned := (keyed_inv has_source).
Abbreviation taken o p := (with_roles o (base.delete p (roles o))).

(** ** A cell taken out *)

Definition option_list {A} (x : option A) : list A := match x with Some x => [x] | None => [] end.

(** The jobs of the other cells. *)
Definition rest_jobs (o : KeyedOperating) (p : nat) : list CustomerJob := held (base.delete p (roles o)).

(** The cell [c] of [role] was taken out; its jobs that are not yet answered
    are those of [queue] and [extra]. *)
Record opened (o : KeyedOperating) (p : nat) (c : RoleCell) (role : RoleName Role) (queue : KeyedQueue)
  (extra : list CustomerJob) : Prop := {
  opened_at : roles o !! p = Some c;
  opened_role : member_role (cell_member c) = role;
  opened_live : ~ retired c;
  opened_sorted : sorted queue;
  opened_keys : Forall (fun kv => kv.1 = job_admitted kv.2) queue;
  opened_affine : Forall (fun j => evidence_role (job_binding j) = named_role role) (queued_jobs queue ++ extra);
  opened_jobs : exists closed, cell_jobs c ≡ₚ closed ++ queued_jobs queue ++ extra;
  opened_distinct : NoDup (job_ordinal <$> queued_jobs queue ++ extra)
}.

Lemma opened_start {W} self o p m q capacity :
  keyed_inv W self o -> roles o !! p = Some (mkCell m q capacity) -> member_state m <> Member_Retired ->
  opened o p (mkCell m q capacity) (member_role m) q (fst <$> busy m) /\
  held (roles o) ≡ₚ queued_jobs q ++ (fst <$> busy m) ++ rest_jobs o p.
Proof.
  intros Hok Hc Hn. destruct (keyed_cell _ _ _ _ Hok Hc) as ([C1 C2 C3 C4] & _ & Hd). split.
  - split; auto. by exists [].
  - destruct (cell_split _ _ _ (mkCell m q capacity) Hc) as [H1 _]. rewrite H1 at 1. rewrite keyed_held_cons.
    unfold cell_jobs; cbn. by rewrite app_assoc.
Qed.

Lemma opened_drop o p c role queue j extra : opened o p c role queue (j :: extra) -> opened o p c role queue extra.
Proof.
  intros [O1 O2 O3 O4 O5 O6 [closed O7] O8]. rewrite <- Permutation_middle in O6, O8. split; auto.
  - by inversion_clear O6.
  - exists (closed ++ [j]). rewrite O7, <- Permutation_middle, <- app_assoc. done.
  - by apply NoDup_cons in O8 as [_ ?].
Qed.

Lemma opened_requeue o p c role queue j : opened o p c role queue [j] ->
  opened o p c role (bt_insert (job_admitted j) j queue) [] /\
  queued_jobs (bt_insert (job_admitted j) j queue) ≡ₚ queued_jobs queue ++ [j].
Proof.
  intros [O1 O2 O3 O4 O5 O6 [closed O7] O8].
  assert (Hfresh : job_ordinal j ∉ (job_ordinal <$> queued_jobs queue)).
  { rewrite fmap_app in O8. apply NoDup_app in O8 as (_ & O8 & _). intros Hin. apply (O8 _ Hin). by left. }
  destruct (keyed_bt_insert_fresh queue j O4 O5 Hfresh) as (Hs & Hk & Hp).
  assert (Hp' : queued_jobs (bt_insert (job_admitted j) j queue) ≡ₚ queued_jobs queue ++ [j])
    by (rewrite Hp; by rewrite Permutation_app_comm).
  split; [|done]. split; auto; rewrite ?app_nil_r, ?Hp'; auto. exists closed. by rewrite Hp'.
Qed.

(** The cell is put back with a member that holds no job. *)
Lemma opened_put {W W'} self self' o p c role queue m' capacity :
  keyed_inv W self o -> opened o p c role queue [] -> member_role m' = role -> busy m' = [] ->
  member_state m' <> Member_Retired -> is_idle m' = false -> config_kept self self' ->
  crew_inv W' (recovery self'.2) (startup_limit self'.2) (restarts self'.2) (m' :: others o p) ->
  let c' := mkCell m' queue capacity in
  put_cell (taken o p) p c' = with_roles o (<[p := c']> (roles o)) /\
  keyed_inv W' self' (with_roles o (<[p := c']> (roles o))) /\
  follows o (with_roles o (<[p := c']> (roles o))) /\
  held (<[p := c']> (roles o)) ≡ₚ queued_jobs queue ++ rest_jobs o p.
Proof.
  intros Hok [O1 O2 O3 O4 O5 O6 O7 O8] Hr Hb Hn Hi Hc Hcr c'. rewrite app_nil_r in O6.
  setoid_rewrite app_nil_r in O7.
  assert (Hj : cell_jobs c' = queued_jobs queue) by (unfold cell_jobs; cbn; by rewrite Hb, app_nil_r).
  split; [by apply (put_taken _ _ c)|].
  destruct (keyed_replace (W:=W) (W':=W') self self' o p c c' Hok O1) as [H1 H2]; auto.
  - cbn. congruence.
  - split; [done|done| |done]. rewrite Hj. unfold cell_role; cbn. by rewrite Hr.
  - by rewrite Hj.
  - done.
  - intros Hi'. cbn in Hi'. congruence.
  - split_and!; [done|done|]. destruct (cell_split _ _ _ c' O1) as [_ H3]. by rewrite H3, keyed_held_cons, Hj.
Qed.

(** ** The source *)

Lemma keyed_set_recovery_2 self r :
  startup_limit (set_recovery self r).2 = startup_limit self.2 /\
  restarts (set_recovery self r).2 = restarts self.2 /\ jobs (set_recovery self r).2 = jobs self.2 /\
  assignments (set_recovery self r).2 = assignments self.2 /\ recovery (set_recovery self r).2 = r /\
  binding_capacity (set_recovery self r).2 = binding_capacity self.2.
Proof. by destruct self. Qed.

Lemma keyed_set_recovery_same self : set_recovery self (recovery self.2) = self.
Proof. by destruct self as [n []]. Qed.

Lemma set_recovery_config self r : same_policy (recovery self.2) r -> config_kept self (set_recovery self r).
Proof. intros H. destruct self as [n p]. by split. Qed.

Lemma keyed_request_preparation_spec self role rec previous stopped source q capacity a self' c a' :
  request_preparation self role rec previous stopped source q capacity a = (self', (c, a')) ->
  exists m', c = mkCell m' q capacity /\ member_role m' = role /\ neutral m' /\ preparing m' = 1 /\ stalled m' = 0 /\
    is_idle m' = false /\ member_state m' <> Member_Retired /\ self'.2 = self.2 /\ same_account a a'.
Proof.
  unfold request_preparation. destruct self as [n p]. cbn. intros [= <- <- <-]. eexists. split; [done|]. by split_and!.
Qed.

(** The next waiting role takes the source, and the wait means again that the
    source is out. *)
Lemma keyed_prepare_next_waiting_ok self o a self' o' a' :
  keyed_returned self o -> prepare_next_waiting self o a = (self', (o', a')) ->
  keyed_ok self' o' /\ config_kept self self' /\ follows o o' /\
  held (roles o') ≡ₚ held (roles o) /\ same_account a a'.
Proof.
  intros Hok. unfold prepare_next_waiting.
  assert (Haw : (0 < sum_list_with stalled (members o) -> awaited (recovery self.2)) -> keyed_ok self o).
  { intros H. destruct Hok as [I1 I2 I3 I4]. split; auto. by apply crew_awaited. }
  destruct (take_cell waits_for_source o) as [[[p [m q capacity]] o1]|] eqn:Ht.
  2: { apply take_cell_None in Ht. intros [= <- <- <-]. split_and!; auto using keyed_config_refl, follows_refl; [|done].
       apply Haw. rewrite stalled_none by done. lia. }
  apply take_cell_Some in Ht as (Hc & Hw & ->). cbn in Hw. destruct (waits_for_source_inv m Hw) as (Hn & Hp & Hs).
  destruct m as [role rec st]. destruct st as [|[c ph]|[previous stopped| | |]|]; try done.
  destruct (opened_start _ _ _ _ _ _ Hok Hc ltac:(done)) as [Hop Hh]. cbn in Hop, Hh.
  pose proof (keyed_crew _ _ _ _ Hok Hc) as Hcr. cbn [cell_member] in Hcr.
  pose proof (claim_waiting_spec (recovery self.2)) as Hcl.
  destruct (claim_waiting_source (recovery self.2)) as [rc [source|]].
  - destruct Hcl as (Hsame & H0 & H1). destruct (keyed_set_recovery_2 self rc) as (E1 & E2 & E3 & E4 & E5 & E6).
    destruct (request_preparation _ _ _ _ _ _ _ _ _) as [self1 [c1 a1]] eqn:Hr.
    destruct (keyed_request_preparation_spec _ _ _ _ _ _ _ _ _ _ _ _ Hr) as
      (m' & -> & R & N & P & S & I & X & Hself & Ha). intros [= <- <- <-].
    assert (Hcfg : config_kept self self1).
    { destruct (set_recovery_config self rc Hsame). split; by rewrite Hself. }
    edestruct (@opened_put has_source awaited self self1 o p) as (-> & H2 & H3 & H4); [done|exact Hop|exact R| |done|done|done| |].
    + apply N.
    + rewrite Hself, E1, E2, E5. eapply crew_prepare; [exact Hcr|done..| |done|done|done].
      rewrite (neutral_starting _ N). lia.
    + split_and!; auto. cbn [with_roles roles]. rewrite H4, Hh. done.
  - destruct Hcl as [-> Hhome]. rewrite keyed_set_recovery_same. intros [= <- <- <-].
    unfold put. rewrite (put_taken _ _ _ _ Hc), list_insert_id by done.
    replace (with_roles o (roles o)) with o by (by destruct o).
    split_and!; auto using keyed_config_refl, follows_refl; [|done]. apply Haw. intros Hst.
    pose proof (crew_stalled _ _ _ _ _ (ok_crew _ _ _ Hok) Hst) as Hh'. unfold has_source, awaited in *.
    by destruct (recovery self.2) as [[]|[]|].
Qed.

(** ** Retirement of a role *)

Lemma desk_tabled next o t : desk_inv next o -> table_ok t ->
  Forall (fun b => live (roles o) (evidence_role (binding_evidence b))) (bindings t) -> desk_inv next (with_affinity o t).
Proof. intros [] Ht Hb. by split. Qed.

Lemma retire_role_ok {W W'} self self1 o p c role rec queue capacity a o' a' :
  keyed_inv W self o -> opened o p c role queue [] -> config_kept self self1 ->
  crew_inv W' (recovery self1.2) (startup_limit self1.2) (restarts self1.2) (mkMember role rec Member_Retired :: others o p) ->
  retire_role self1 (taken o p) p role rec queue capacity a = (o', a') ->
  keyed_inv W' self1 o' /\ follows o o' /\
  accounted (queued_jobs queue ++ rest_jobs o p) a (held (roles o')) a'.
Proof.
  intros [Id Is Ic Ik] [O1 O2 O3 O4 O5 O6 [closed O7] O8] Hcfg Hcr. unfold retire_role. cbn [affinity with_roles].
  pose proof (retire_role_spec (affinity o) (named_role role) (desk_table _ _ Id)) as Hsp.
  destruct (retire_role_bindings _ _) as [t removed] eqn:Ht.
  destruct Hsp as (Hok & Hcap & Hgen & Hgone & _ & Hperm). intros [= <- <-].
  assert (Hsub : forall b, b ∈ bindings t -> b ∈ bindings (affinity o)).
  { intros b Hb. assert (Hin : binding_into_parts b ∈ binding_into_parts <$> bindings (affinity o)).
    { rewrite Hperm, elem_of_app. right. by apply list_elem_of_fmap_2. }
    apply list_elem_of_fmap in Hin as ([k e] & He & Hin). destruct b as [k' e']. cbn in He. by injection He as <- <-. }
  set (c' := mkCell (mkMember role rec Member_Retired) [] capacity).
  assert (E : put (with_affinity (taken o p) t) p role rec Member_Retired [] capacity =
    with_roles (with_affinity o t) (<[p := c']> (roles o))).
  { unfold put, put_cell, with_roles, with_affinity; cbn. by rewrite (insert_at_delete _ _ _ _ O1). }
  rewrite E. cbn [with_roles with_affinity roles affinity]. destruct Hcfg as [C1 C2 C3 C4 _ C5].
  destruct (cell_split _ _ _ c' O1) as [S1 S2]. split_and!.
  - split; cbn [affinity]; [|  |eapply crew_perm; [symmetry; exact (proj2 (members_split o p c c' O1))|done]|change (table_capacity t = binding_capacity self1.2); rewrite C4, <- Ik; exact Hcap].
    + rewrite C3. apply (desk_replace _ (with_affinity o t) p c c' (cell_jobs c)).
      * apply desk_tabled; [done|done|]. destruct Id as [_ _ _ _ Db]. rewrite list.Forall_forall in Db |- *.
        intros b Hb. by apply Db, Hsub.
      * done.
      * unfold cell_role; cbn. by rewrite O2.
      * split; [constructor|constructor|constructor|done].
      * by rewrite app_nil_r.
      * intros _. right. cbn. unfold cell_role. by rewrite O2.
    + cbn. rewrite S2. rewrite S1 in Is. inversion_clear Is. constructor; [done|]. by eapply served_kept.
  - split; [by eapply role_names_replace|]. apply tabled_fewer; [done|]. intros b Hb. by eapply Hsub.
  - rewrite S2, keyed_held_cons. cbn. eapply keyed_accounted_trans; [apply return_queue_ok|apply diagnose_bindings_ok].
Qed.

(** A role ends without a worker: it retires, or the pool does. *)
Lemma retire_unrecovered_worker_ok {W} self0 self o p c role rec queue capacity a self' r J a0 :
  keyed_inv W self0 o -> opened o p c role queue [] -> config_kept self0 self ->
  crew_inv has_source (recovery self.2) (startup_limit self.2) (restarts self.2) (mkMember role rec Member_Retired :: others o p) ->
  accounted J a0 (queued_jobs queue ++ rest_jobs o p) a ->
  retire_unrecovered_worker self (taken o p) p role rec queue capacity a = (self', r) ->
  result_ok o J a0 self0 self' r.
Proof.
  intros Hok Hop Hcfg Hcr Ha. unfold retire_unrecovered_worker.
  destruct (recovery_failure (recovery self.2)).
  - destruct (retire_role _ _ _ _ _ _ _ _) as [o1 a1] eqn:Hret.
    destruct (retire_role_ok self0 self o p c _ _ _ _ _ _ _ Hok Hop Hcfg Hcr Hret) as (Hok1 & Hn1 & Ha1).
    destruct (prepare_next_waiting self o1 a1) as [self2 [o2 a2]] eqn:Hprep.
    destruct (keyed_prepare_next_waiting_ok _ _ _ _ _ _ Hok1 Hprep) as (Hok2 & Hcfg2 & Hn2 & Hh2 & Ha2).
    intros [= <- <-]. split; cbn [fst snd state_jobs].
    + by eapply keyed_config_trans.
    + rewrite Hh2. eapply keyed_accounted_trans; [exact Ha|]. eapply keyed_accounted_trans; [exact Ha1|by apply keyed_accounted_same].
    + split; [done|by eapply follows_trans].
  - intros Hb. eapply keyed_result_ok_from; [exact Ha|exact Hcfg|].
    unfold put in Hb. rewrite (put_taken _ _ _ _ (opened_at _ _ _ _ _ _ Hop)) in Hb.
    pose proof (opened_at _ _ _ _ _ _ Hop) as Hc. set (c' := mkCell _ _ _) in Hb.
    destruct (cell_split _ _ _ c' Hc) as [_ S2]. eapply keyed_result_ok_perm; [|eapply begin_retirement_result; [|exact Hb]].
    + cbn [with_roles roles]. rewrite S2, keyed_held_cons. unfold cell_jobs; cbn. by rewrite app_nil_r.
    + pose proof (proj2 (members_split o p c c' Hc)) as M2. unfold members in *. rewrite M2. apply Hcr.
Qed.

(** ** Recovery of a stopped worker *)

Lemma keep_interrupted_ok self interrupted queue a queue' a' o p c role J :
  opened o p c role queue (option_list interrupted) ->
  keep_interrupted self interrupted queue a = (queue', a') ->
  opened o p c role queue' [] /\ accounted (queued_jobs queue ++ option_list interrupted ++ J) a (queued_jobs queue' ++ J) a'.
Proof.
  intros Hop. destruct interrupted as [j|]; cbn [keep_interrupted option_list app] in *.
  2: { intros [= <- <-]. split; [done|apply keyed_accounted_refl]. }
  destruct (interruption self.2); intros [= <- <-].
  - split; [by eapply opened_drop|]. rewrite <- Permutation_middle. by apply keyed_accounted_answered.
  - destruct (opened_requeue _ _ _ _ _ _ Hop) as [Hop' Hp]. split; [done|]. rewrite Hp, <- app_assoc. apply keyed_accounted_refl.
Qed.

Lemma end_interrupted_ok self interrupted reason a queue J o p c role :
  opened o p c role queue (option_list interrupted) ->
  opened o p c role queue [] /\
  accounted (queued_jobs queue ++ option_list interrupted ++ J) a (queued_jobs queue ++ J) (end_interrupted self interrupted reason a).
Proof.
  intros Hop. destruct interrupted as [j|]; cbn [end_interrupted option_list app] in *; [|split; [done|apply keyed_accounted_refl]].
  split; [by eapply opened_drop|]. rewrite <- Permutation_middle. by apply keyed_accounted_answered.
Qed.

Lemma crew_wait r limit b m m' l : crew_inv awaited r limit b (m :: l) -> preparing m = 0 -> preparing m' = 0 ->
  starting m' = 0 -> awaited r -> crew_inv awaited r limit b (m' :: l).
Proof. intros [C1 C2 C3 C4] H1 H2 H3 H4. cbn [sum_list_with] in *. split; cbn [sum_list_with]; auto; lia. Qed.

Lemma keyed_recover_worker_ok self o p c role rec previous stopped interrupted queue capacity a self' r J a0 :
  keyed_ok self o -> opened o p c role queue (option_list interrupted) -> preparing (cell_member c) = 0 ->
  accounted J a0 (queued_jobs queue ++ option_list interrupted ++ rest_jobs o p) a ->
  KeyedRecovery.recover_worker self (taken o p) p role rec previous stopped interrupted queue capacity a = (self', r) ->
  result_ok o J a0 self self' r.
Proof.
  intros Hok Hop Hpr Ha. unfold KeyedRecovery.recover_worker.
  pose proof (keyed_crew _ _ _ _ Hok (opened_at _ _ _ _ _ _ Hop)) as Hcr.
  pose proof (decide_spec (recovery self.2) (stop_kind (child_outcome stopped))) as Hd.
  destruct (PoolPolicy.decide (recovery self.2) _) as [rc d]. destruct Hd as [Hsame Hd].
  destruct (keyed_set_recovery_2 self rc) as (E1 & E2 & E3 & E4 & E5 & E6).
  pose proof (set_recovery_config self rc Hsame) as Hcfg.
  destruct d as [source| | |].
  - destruct Hd as [H0 H1]. destruct (keep_interrupted _ _ _ _) as [queue' a1] eqn:Hkeep.
    destruct (keep_interrupted_ok _ _ _ _ _ _ _ _ _ _ (rest_jobs o p) Hop Hkeep) as [Hop' Ha1].
    destruct (request_preparation _ _ _ _ _ _ _ _ _) as [self1 [c1 a2]] eqn:Hr.
    destruct (keyed_request_preparation_spec _ _ _ _ _ _ _ _ _ _ _ _ Hr) as
      (m' & -> & R & N & P & S & I & X & Hself & Ha2). intros [= <- <-].
    assert (Hcfg1 : config_kept self self1) by (destruct Hcfg; split; by rewrite Hself).
    edestruct (@opened_put awaited awaited self self1 o p) as (-> & H2 & H3 & H4); [done|exact Hop'|exact R| |done|done|done| |].
    + apply N.
    + rewrite Hself, E1, E2, E5. eapply crew_prepare; [exact Hcr|done..| |done|done|done].
      rewrite (neutral_starting _ N). lia.
    + split; [done| |done]. cbn [fst snd state_jobs with_roles roles]. rewrite H4.
      eapply keyed_accounted_trans; [exact Ha|]. eapply keyed_accounted_trans; [exact Ha1|by apply keyed_accounted_same].
  - destruct Hd as [H1 ->]. rewrite keyed_set_recovery_same in *.
    destruct (keep_interrupted _ _ _ _) as [queue' a1] eqn:Hkeep.
    destruct (keep_interrupted_ok _ _ _ _ _ _ _ _ _ _ (rest_jobs o p) Hop Hkeep) as [Hop' Ha1]. intros [= <- <-].
    edestruct (@opened_put awaited awaited self self o p) as (E & H2 & H3 & H4); [done|exact Hop'| | | | | | |].
    7: { unfold put. rewrite E. split; [done| |done]. cbn [fst snd state_jobs with_roles roles]. rewrite H4.
         by eapply keyed_accounted_trans. }
    all: try done. by eapply crew_wait.
  - destruct Hd as [_ ->]. rewrite keyed_set_recovery_same in *.
    destruct (end_interrupted_ok self interrupted Assigned_RolePermanentlyUnavailable a queue (rest_jobs o p) _ _ _ _ Hop)
      as [Hop' Ha1].
    destruct (retire_role _ _ _ _ _ _ _ _) as [o1 a1] eqn:Hret. intros [= <- <-].
    assert (Hcr' : crew_inv awaited (recovery self.2) (startup_limit self.2) (restarts self.2)
      (mkMember role rec Member_Retired :: others o p)) by (by eapply crew_light).
    destruct (retire_role_ok self self o p c _ _ _ _ _ _ _ Hok Hop' (keyed_config_refl _) Hcr' Hret) as (Hok1 & Hn1 & Ha2).
    split; [apply keyed_config_refl| |done]. cbn [fst snd state_jobs]. eapply keyed_accounted_trans; [exact Ha|]. by eapply keyed_accounted_trans.
  - destruct Hd as [_ ->]. rewrite keyed_set_recovery_same in *.
    destruct (end_interrupted_ok self interrupted Assigned_PoolShutdown a queue (rest_jobs o p) _ _ _ _ Hop) as [Hop' Ha1].
    intros Hb. eapply keyed_result_ok_from; [eapply keyed_accounted_trans; [exact Ha|exact Ha1]|apply keyed_config_refl|].
    unfold put in Hb. pose proof (opened_at _ _ _ _ _ _ Hop) as Hc. rewrite (put_taken _ _ _ _ Hc) in Hb.
    set (c' := mkCell _ _ _) in Hb.
    destruct (cell_split _ _ _ c' Hc) as [_ S2]. eapply keyed_result_ok_perm; [|eapply begin_retirement_result; [|exact Hb]].
    + cbn [with_roles roles]. rewrite S2, keyed_held_cons. unfold cell_jobs; cbn. by rewrite app_nil_r.
    + pose proof (proj2 (members_split o p c c' Hc)) as M2. unfold members in *. rewrite M2.
      destruct Hcr as [C1 _ _ _]. cbn [sum_list_with] in *. rewrite Hpr in C1. exact C1.
Qed.

End KeyedRoles.

Section KeyedHandlers.
  Context `{KT : KeyedTypes}.

Abbreviation keyed_ok := (keyed_inv awaited).
Abbreviation taken o p := (with_roles o (base.delete p (roles o))).
Abbreviation worker_member role rec current ph := (mkMember role rec (Member_Worker (mkPoolWorker current ph))).

(** What a handler answers: a result, or the input and the pool as it was. *)
Definition handled {X} (self : Self) (o : KeyedOperating)
  (r : Self * result (KeyedPoolState * KeyedActions) (KeyedOperating * X)) : Prop :=
  match r with
  | (self', Ok res) => result_ok o (held (roles o)) keyed_cont self self' res
  | (self', Err (o', _)) => keyed_ok self' o' /\ config_kept self self' /\ follows o o' /\
      held (roles o') ≡ₚ held (roles o)
  end.

Definition stepped (self : Self) (o : KeyedOperating) (r : Self * (KeyedPoolState * KeyedActions)) : Prop :=
  result_ok o (held (roles o)) keyed_cont self r.1 r.2.

Lemma handed_back {X} self o (x : X) : keyed_ok self o -> handled self o (self, Err (o, x)).
Proof. intros Hok. by split_and!; auto using keyed_config_refl, follows_refl. Qed.

(** ** Replacing a member by one that holds the same *)

Lemma keyed_replace_result self o p m m' q capacity a a' :
  keyed_ok self o -> roles o !! p = Some (mkCell m q capacity) -> same_weight m m' ->
  (member_state m' = Member_Retired -> member_state m = Member_Retired) -> same_account a a' ->
  result_ok o (held (roles o)) a self self
    (State_Operating (put_cell (taken o p) p (mkCell m' q capacity)), a').
Proof.
  intros Hok Hc Hw Hn Ha. destruct (keyed_same_member _ _ _ _ _ _ _ Hok Hc Hw Hn) as (H1 & H2 & H3).
  rewrite (put_taken _ _ _ _ Hc). split; [apply keyed_config_refl| |done]. cbn [fst snd state_jobs with_roles roles].
  rewrite H3. by apply keyed_accounted_same.
Qed.

Lemma keyed_replace_handled {X} self o p m m' q capacity (x : X) :
  keyed_ok self o -> roles o !! p = Some (mkCell m q capacity) -> same_weight m m' ->
  (member_state m' = Member_Retired -> member_state m = Member_Retired) ->
  handled self o (self, Err (put_cell (taken o p) p (mkCell m' q capacity), x)).
Proof.
  intros Hok Hc Hw Hn. destruct (keyed_same_member _ _ _ _ _ _ _ Hok Hc Hw Hn) as (H1 & H2 & H3).
  cbn [handled]. rewrite (put_taken _ _ _ _ Hc). split_and!; auto using keyed_config_refl.
Qed.

Lemma keyed_diagnose_result self o e : keyed_ok self o ->
  result_ok o (held (roles o)) keyed_cont self self (diagnose self (State_Operating o) e).
Proof. intros Hok. split; [apply keyed_config_refl|apply keyed_accounted_diagnose|by split; [|apply follows_refl]]. Qed.

(** Later than a later state. *)
Lemma result_ok_after o o' J a self self' r : follows o o' -> result_ok o' J a self self' r -> result_ok o J a self self' r.
Proof.
  intros Hf [Rc Ra Rs]. split; auto. destruct r.1; try done. destruct Rs. split; [done|by eapply follows_trans].
Qed.

Lemma keyed_replace_diagnose self o p m m' q capacity e :
  keyed_ok self o -> roles o !! p = Some (mkCell m q capacity) -> same_weight m m' ->
  (member_state m' = Member_Retired -> member_state m = Member_Retired) ->
  result_ok o (held (roles o)) keyed_cont self self
    (diagnose self (State_Operating (put_cell (taken o p) p (mkCell m' q capacity))) e).
Proof.
  intros Hok Hc Hw Hn. destruct (keyed_same_member _ _ _ _ _ _ _ Hok Hc Hw Hn) as (H1 & H2 & H3).
  rewrite (put_taken _ _ _ _ Hc). eapply result_ok_after; [exact H2|].
  eapply keyed_result_ok_perm; [exact H3|]. exact (keyed_diagnose_result _ _ e H1).
Qed.

(** A handler that fails is diagnosed. *)
Lemma keyed_or_diagnose_ok {X} (event : X -> KeyedEvent) self o r : handled self o r -> stepped self o (or_diagnose event r).
Proof.
  destruct r as [self' [res|[o' x]]]; cbn [handled or_diagnose]; [done|]. intros (Hok & Hc & Hn & Hh).
  unfold stepped; cbn [fst snd]. eapply keyed_result_ok_from; [apply keyed_accounted_refl|exact Hc|].
  eapply keyed_result_ok_perm; [exact Hh|]. eapply result_ok_after; [exact Hn|]. by apply keyed_diagnose_result.
Qed.

(** ** Preparations *)

(** A preparing role gives its source back and ends. *)
Lemma crew_restored_retired self o p m q capacity source rc restored role rec :
  keyed_ok self o -> roles o !! p = Some (mkCell m q capacity) -> preparing m = 1 ->
  restore_source (recovery self.2) source = (rc, restored) ->
  restored = Ok () /\ config_kept self (set_recovery self rc) /\
  crew_inv has_source (recovery (set_recovery self rc).2) (startup_limit (set_recovery self rc).2)
    (restarts (set_recovery self rc).2) (mkMember role rec Member_Retired :: others o p).
Proof.
  intros Hok Hc Hpr Hrs. pose proof (keyed_crew _ _ _ _ Hok Hc) as Hcr.
  destruct (crew_restored _ _ _ m (mkMember role rec Member_Retired) _ _ _ _ Hcr Hpr eq_refl eq_refl (Nat.le_0_l _) Hrs)
    as (-> & Hcr' & Hsame & _).
  destruct (keyed_set_recovery_2 self rc) as (E1 & E2 & E3 & E4 & E5 & E6).
  split_and!; [done|by apply set_recovery_config|]. by rewrite E1, E2, E5.
Qed.

Lemma preparing_opened self o p m q capacity :
  keyed_ok self o -> roles o !! p = Some (mkCell m q capacity) -> preparing m = 1 ->
  opened o p (mkCell m q capacity) (member_role m) q [] /\ held (roles o) ≡ₚ queued_jobs q ++ rest_jobs o p.
Proof.
  intros Hok Hc Hpr. destruct (preparing_inv _ Hpr) as (role & rec & previous & stopped & e & ->).
  by destruct (opened_start _ _ _ _ _ _ Hok Hc ltac:(done)) as [Hop Hh].
Qed.

Lemma keyed_reject_preparation_ok self o p m q capacity role rec previous stopped source error self' r :
  keyed_ok self o -> roles o !! p = Some (mkCell m q capacity) -> preparing m = 1 -> role = member_role m ->
  error <> Preparation_SourceStateCorrupt ->
  reject_preparation self (taken o p) p role rec previous stopped source error q capacity = (self', r) ->
  result_ok o (held (roles o)) keyed_cont self self' r.
Proof.
  intros Hok Hc Hpr -> He. unfold reject_preparation.
  destruct (restore_source _ _) as [rc restored] eqn:Hrs.
  destruct (preparing_opened _ _ _ _ _ _ Hok Hc Hpr) as [Hop Hh].
  destruct (crew_restored_retired self o p m q capacity source rc restored (member_role m) rec Hok Hc Hpr Hrs)
    as (-> & Hcfg & Hcr). intros Hr.
  eapply retire_unrecovered_worker_ok; [exact Hok|exact Hop|exact Hcfg|exact Hcr| |exact Hr].
  rewrite Hh. apply keyed_accounted_diagnosed. by destruct error.
Qed.

Lemma keyed_accept_worker_preparation_start_ok self o input :
  keyed_ok self o -> handled self o (accept_worker_preparation_start self o input).
Proof.
  intros Hok. unfold accept_worker_preparation_start.
  destruct (take_cell _ _) as [[[p [m q capacity]] o1]|] eqn:Ht; [|by apply handed_back].
  apply take_cell_Some in Ht as (Hc & Hw & ->). cbn in Hw. destruct (awaits_start_preparing _ _ Hw) as [Hpr _].
  pose proof (member_preparation_start_spec m input Hpr) as Hspec.
  destruct (member_preparation_start m input) as [[failed|m']|[m' input']].
  - destruct (reject_preparation _ _ _ _ _ _ _ _ _ _ _) as [self' r] eqn:Hr.
    eapply keyed_reject_preparation_ok; [exact Hok|exact Hc|exact Hpr|exact Hspec| |exact Hr].
    by destruct (failed_fault failed).
  - eapply keyed_replace_result; [exact Hok|exact Hc|exact Hspec| |done].
    by intros ?%(preparing_unretired _ _ Hspec Hpr).
  - eapply keyed_replace_handled; [exact Hok|exact Hc|exact Hspec|]. by intros ?%(preparing_unretired _ _ Hspec Hpr).
Qed.

(** ** Restarts *)

Lemma set_restarts_2 self b :
  startup_limit (set_restarts self b).2 = startup_limit self.2 /\ restarts (set_restarts self b).2 = b /\
  recovery (set_restarts self b).2 = recovery self.2.
Proof. by destruct self. Qed.

Lemma keyed_set_restarts_config self b : config_kept self (set_restarts self b).
Proof. destruct self. split; auto. apply same_policy_refl. Qed.

Lemma set_restarts_ok {W} self b o : budget_ok (recovery self.2) b -> keyed_inv W self o -> keyed_inv W (set_restarts self b) o.
Proof.
  intros Hb [I1 I2 I3 I4]. destruct self as [n p]. split; auto. by eapply crew_budgeted.
Qed.

Lemma keyed_issue_release_spec self release self' r :
  issue_release self release = (self', r) ->
  kept self self' /\ (forall e, r = Err e -> e <> Replacement_SourceStateCorrupt).
Proof.
  unfold issue_release, issue_creation, issue_restart_timer. destruct self as [k p]. cbn [snd].
  destruct release.
  - destruct (issue _) as [s []]; intros [= <- <-]; by split_and!; [split|naive_solver].
  - destruct (key_issue _) as [s []]; intros [= <- <-]; by split_and!; [split|naive_solver].
Qed.

Lemma keyed_release_replacement_spec self o p prepared rec release q capacity self' o' a' :
  release_replacement self o p prepared rec release q capacity = (self', (o', a')) ->
  self'.2 = self.2 /\ same_account keyed_cont a' /\
  exists m', o' = put_cell o p (mkCell m' q capacity) /\ neutral m' /\ preparing m' = 0 /\ stalled m' = 0 /\
    is_idle m' = false /\ member_state m' <> Member_Retired /\ member_role m' = prepared_role prepared.
Proof.
  unfold release_replacement. destruct prepared as [role r previous stopped source submission].
  destruct release; [|intros [= <- <- <-]; split_and!; try done; by eexists].
  unfold alloc. destruct (begin_replacement_fresh (mkPrepared role submission) rec (attempt_creation previous) creation self.1)
    as (k & m' & w & obs & -> & Hn & Hp & Hs & Hr & Hi & Hu).
  intros [= <- <- <-]. split_and!; try done. exists m'. by split_and!.
Qed.

(** A role ends after its replacement failed. *)
Lemma reject_replacement_ok {W} self0 self o p c role rec previous stopped submission source error q capacity a J a0 self' r :
  keyed_inv W self0 o -> opened o p c role q [] -> config_kept self0 self ->
  crew_inv has_source (recovery self.2) (startup_limit self.2) (restarts self.2) (mkMember role rec Member_Retired :: others o p) ->
  accounted J a0 (queued_jobs q ++ rest_jobs o p) a -> source = None -> error <> Replacement_SourceStateCorrupt ->
  reject_replacement self (taken o p) p role rec previous stopped submission source error q capacity a = (self', r) ->
  result_ok o J a0 self0 self' r.
Proof.
  intros Hok Hop Hcfg Hcr Ha -> He Hr.
  eapply retire_unrecovered_worker_ok; [exact Hok|exact Hop|exact Hcfg|exact Hcr| |exact Hr].
  eapply keyed_accounted_trans; [exact Ha|]. apply keyed_accounted_diagnosed. by destruct error.
Qed.

Lemma keyed_return_source_ok self o p m q capacity role rec previous stopped source submission error self' r :
  keyed_ok self o -> roles o !! p = Some (mkCell m q capacity) -> preparing m = 1 -> role = member_role m ->
  error <> Replacement_SourceStateCorrupt ->
  return_source_after_replacement_failure self (taken o p) p role rec previous stopped source submission error q
    capacity = (self', r) ->
  result_ok o (held (roles o)) keyed_cont self self' r.
Proof.
  intros Hok Hc Hpr -> He. unfold return_source_after_replacement_failure.
  destruct (restore_source _ _) as [rc restored] eqn:Hrs.
  destruct (preparing_opened _ _ _ _ _ _ Hok Hc Hpr) as [Hop Hh].
  destruct (crew_restored_retired self o p m q capacity source rc restored (member_role m) rec Hok Hc Hpr Hrs)
    as (-> & Hcfg & Hcr). intros Hr.
  eapply reject_replacement_ok; [exact Hok|exact Hop|exact Hcfg|exact Hcr| |done|exact He|exact Hr].
  rewrite Hh. apply keyed_accounted_refl.
Qed.

(** The prepared worker is released, and the next role takes the source. *)
Lemma keyed_released_ok self o p m q capacity prepared rec release source rc proposed self1 o1 a1 self2 o2 a2 :
  keyed_ok self o -> roles o !! p = Some (mkCell m q capacity) -> preparing m = 1 ->
  prepared_role prepared = member_role m -> restore_source (recovery self.2) source = (rc, Ok ()) ->
  budget_ok (recovery self.2) proposed ->
  release_replacement (set_restarts (set_recovery self rc) proposed) (taken o p) p prepared rec release q capacity
    = (self1, (o1, a1)) ->
  prepare_next_waiting self1 o1 a1 = (self2, (o2, a2)) ->
  result_ok o (held (roles o)) keyed_cont self self2 (State_Operating o2, a2).
Proof.
  intros Hok Hc Hpr Hrole Hrs Hb Hrel Hprep.
  destruct (preparing_opened _ _ _ _ _ _ Hok Hc Hpr) as [Hop Hh].
  destruct (keyed_release_replacement_spec _ _ _ _ _ _ _ _ _ _ _ Hrel) as
    (Hself & Ha & m' & -> & Hn & Hp' & Hs' & Hi & Hu & Hr').
  assert (Hst : starting m' <= starting m) by (rewrite (neutral_starting _ Hn); lia).
  destruct (crew_restored _ _ _ m m' _ _ _ _ (keyed_crew _ _ _ _ Hok Hc) Hpr Hp' Hs' Hst Hrs) as (_ & Hcr & Hsame & _).
  destruct (keyed_set_recovery_2 self rc) as (E1 & E2 & E3 & E4 & E5 & E6).
  destruct (set_restarts_2 (set_recovery self rc) proposed) as (F1 & F2 & F3).
  assert (Hcfg : config_kept self self1).
  { eapply keyed_config_trans; [by apply (set_recovery_config self rc)|].
    destruct (keyed_set_restarts_config (set_recovery self rc) proposed). split; by rewrite Hself. }
  edestruct (opened_put (W:=awaited) (W':=has_source) self self1 o p _ _ q m' capacity Hok Hop)
    as (E & Hok1 & Hn1 & Hh1); [congruence|apply Hn|done|done|done| |].
  { rewrite Hself, F1, F2, F3, E1, E5. eapply crew_budgeted; [|exact Hcr]. by eapply budget_ok_policy. }
  rewrite E in Hprep. destruct (keyed_prepare_next_waiting_ok _ _ _ _ _ _ Hok1 Hprep) as (Hok2 & Hcfg2 & Hn2 & Hh2 & Ha2).
  split; cbn [fst snd state_jobs]; [by eapply keyed_config_trans| |split; [done|by eapply follows_trans]].
  rewrite Hh2. cbn [with_roles roles]. rewrite Hh1, Hh. apply keyed_accounted_same. destruct Ha, Ha2. split; congruence.
Qed.

Lemma restart_prepared_ok self o p m q capacity limit release prepared :
  keyed_ok self o -> roles o !! p = Some (mkCell m q capacity) -> preparing m = 1 ->
  prepared_role prepared = member_role m -> restart_policy (recovery self.2) = Some (limit, release) ->
  exists self' r, restart_prepared self (taken o p) p limit release prepared q capacity = Some (self', r) /\
    result_ok o (held (roles o)) keyed_cont self self' r.
Proof.
  intros Hok Hc Hpr Hrole Hpol. unfold restart_prepared.
  destruct prepared as [role rec previous stopped source submission] eqn:Hprepared. rewrite <- Hprepared. cbn in Hrole.
  pose proof (crew_budget _ _ _ _ _ (ok_crew _ _ _ Hok)) as Hb. unfold budget_ok in Hb. rewrite Hpol in Hb.
  destruct Hb as [Hm Htot].
  assert (Hbudget : forall self1 b, kept self self1 -> (total (charges b) <= maximum limit)%N -> budget_ok (recovery self1.2) b).
  { intros self1 b Hk Hle. unfold budget_ok. by rewrite (kept_recovery _ _ Hk), Hpol. }
  pose proof (restart_admission_budget rec (restarts self.2) limit release (stopped_at stopped) 1 Hm Htot) as Had.
  destruct (restart_admission _ _ _ _ _ _) as [[ordinal b' proposed release'|b' reason]|]; [| |done].
  - destruct Had as [-> Hprop].
    destruct (issue_release self release') as [self1 r1] eqn:Hiss.
    destruct (keyed_issue_release_spec _ _ _ _ Hiss) as (Hk & He).
    pose proof (keyed_inv_kept _ _ _ Hk Hok) as Hok1.
    destruct r1 as [rel|error].
    + destruct (restore_source (recovery self1.2) source) as [rc restored] eqn:Hrs.
      destruct (crew_restored_retired self1 o p m q capacity source rc restored role rec Hok1 Hc Hpr Hrs) as (-> & _).
      destruct (release_replacement _ _ _ _ _ _ _ _) as [self2 [o2 a2]] eqn:Hrel.
      destruct (prepare_next_waiting self2 o2 a2) as [self3 [o3 a3]] eqn:Hprep.
      eexists _, _. split; [done|]. eapply keyed_result_ok_from; [apply keyed_accounted_refl|by apply keyed_kept_config|].
      eapply keyed_released_ok; [exact Hok1|exact Hc|exact Hpr| |exact Hrs|by apply Hbudget|exact Hrel|exact Hprep].
      by subst prepared.
    + destruct (return_source_after_replacement_failure _ _ _ _ _ _ _ _ _ _ _ _) as [self' r] eqn:Hr.
      eexists _, _. split; [done|]. eapply keyed_result_ok_from; [apply keyed_accounted_refl|by apply keyed_kept_config|].
      eapply keyed_result_ok_from; [apply keyed_accounted_refl|apply keyed_set_restarts_config|].
      eapply keyed_return_source_ok; [|exact Hc|exact Hpr|exact Hrole| |exact Hr]; [|by apply He].
      apply set_restarts_ok; [by apply Hbudget|done].
  - subst b'. destruct (return_source_after_replacement_failure _ _ _ _ _ _ _ _ _ _ _ _) as [self' r] eqn:Hr.
    eexists _, _. split; [done|].
    eapply keyed_result_ok_from; [apply keyed_accounted_refl|apply keyed_set_restarts_config|].
    eapply keyed_return_source_ok; [|exact Hc|exact Hpr|exact Hrole| |exact Hr]; [|done].
    apply set_restarts_ok; [by apply Hbudget|done].
Qed.

Lemma keyed_accept_worker_preparation_return_ok self o input :
  keyed_ok self o -> exists r, accept_worker_preparation_return self o input = Some r /\ handled self o r.
Proof.
  intros Hok. unfold accept_worker_preparation_return.
  destruct (restart_policy (recovery self.2)) as [[limit release]|] eqn:Hpol.
  2: { eexists. split; [done|by apply handed_back]. }
  destruct (take_cell _ _) as [[[p [m q capacity]] o1]|] eqn:Ht.
  2: { eexists. split; [done|by apply handed_back]. }
  apply take_cell_Some in Ht as (Hc & Hw & ->). cbn in Hw. destruct (awaits_return_preparing _ _ Hw) as [Hpr _].
  pose proof (member_preparation_return_spec m input Hpr) as Hspec.
  destruct (member_preparation_return m input) as [[prepared|role rec previous stopped source error]|[m' input']].
  - destruct (restart_prepared_ok self o p m q capacity limit release prepared Hok Hc Hpr Hspec Hpol)
      as (self' & r & -> & Hr). by eexists.
  - destruct Hspec as [He ->]. destruct (reject_preparation _ _ _ _ _ _ _ _ _ _ _) as [self' r] eqn:Hr.
    eexists. split; [done|]. by eapply keyed_reject_preparation_ok.
  - eexists. split; [done|]. eapply keyed_replace_handled; [exact Hok|exact Hc|exact Hspec|].
    by intros ?%(preparing_unretired _ _ Hspec Hpr).
Qed.

(** ** Restart timers *)

Lemma keyed_dropped_ok self o p role rec w q capacity previous stopped submission error self' r :
  keyed_ok self o -> roles o !! p = Some (mkCell (mkMember role rec (Member_Recovering w)) q capacity) ->
  preparing (mkMember role rec (Member_Recovering w)) = 0 -> error <> Replacement_SourceStateCorrupt ->
  reject_replacement self (taken o p) p role rec previous stopped submission None error q capacity keyed_cont
    = (self', r) ->
  result_ok o (held (roles o)) keyed_cont self self' r.
Proof.
  intros Hok Hc Hpr He Hr. destruct (opened_start _ _ _ _ _ _ Hok Hc ltac:(done)) as [Hop Hh]. cbn in Hop, Hh.
  eapply reject_replacement_ok; [exact Hok|exact Hop|apply keyed_config_refl| | |done|exact He|exact Hr].
  - eapply crew_light; [exact Hpr|done..|]. apply crew_returned. by apply (keyed_crew _ _ _ _ Hok Hc).
  - rewrite Hh. apply keyed_accounted_refl.
Qed.

Lemma keyed_accept_restart_schedule_ok self o input :
  keyed_ok self o -> handled self o (accept_restart_schedule self o input).
Proof.
  intros Hok. unfold accept_restart_schedule.
  destruct (take_cell _ _) as [[[p [m q capacity]] o1]|] eqn:Ht; [|by apply handed_back].
  apply take_cell_Some in Ht as (Hc & Hw & ->). destruct m as [role rec [| |w|]]; try done.
  cbn [awaits_schedule member_state cell_member] in Hw. destruct (admit_restart_schedule_spec role rec w input Hw) as [Hpr Hspec].
  destruct (admit_restart_schedule w input) as [[[[previous stopped sub] settlement]|w']|[w' settlement]].
  - destruct (reject_replacement _ _ _ _ _ _ _ _ _ _ _ _ _) as [self' r] eqn:Hr.
    eapply keyed_dropped_ok; [exact Hok|exact Hc|exact Hpr| |exact Hr]. done.
  - by eapply keyed_replace_result.
  - by eapply keyed_replace_handled.
Qed.

Lemma keyed_issue_creation_spec self self' c : issue_creation self = (self', c) -> kept self self'.
Proof. unfold issue_creation. destruct self as [k p]. destruct (issue _) as [s i]. by intros [= <- <-]. Qed.

Lemma keyed_accept_restart_timer_ok self o elapsed :
  keyed_ok self o -> handled self o (accept_restart_timer self o elapsed).
Proof.
  intros Hok. unfold accept_restart_timer.
  destruct (take_cell _ _) as [[[p [m q capacity]] o1]|] eqn:Ht; [|by apply handed_back].
  apply take_cell_Some in Ht as (Hc & Hw & ->). destruct m as [role rec [| |w|]]; try done.
  destruct w as [| | |previous stopped sub timer]; try done. cbn [admit_restart_timer].
  destruct (admit_elapsed timer elapsed) as [e|e]; [|by eapply keyed_replace_handled].
  destruct (issue_creation self) as [self1 c] eqn:Hiss.
  pose proof (keyed_issue_creation_spec _ _ _ Hiss) as Hk. pose proof (keyed_inv_kept _ _ _ Hk Hok) as Hok1.
  destruct c as [creation|].
  - unfold alloc. destruct (begin_replacement_fresh (mkPrepared role sub) rec (attempt_creation previous) creation self1.1)
      as (k & m' & w & obs & -> & Hn & Hpr & Hs & Hr & Hi & Hu). cbn [handled].
    eapply keyed_result_ok_from; [apply keyed_accounted_refl|by apply (keyed_kept_config self (k, self1.2)); destruct Hk; split|].
    eapply keyed_replace_result; [|exact Hc| |done|done]; [by apply (keyed_inv_kept self1)|]. by apply neutral_weight.
  - destruct (reject_replacement _ _ _ _ _ _ _ _ _ _ _ _ _) as [self' r] eqn:Hr. cbn [handled].
    eapply keyed_result_ok_from; [apply keyed_accounted_refl|by apply keyed_kept_config|].
    eapply keyed_dropped_ok; [exact Hok1|exact Hc|done| |exact Hr]. done.
Qed.

(** ** Assignments *)

Lemma delete_replaced {A} (l : list A) p x : base.delete p (<[p := x]> l) = base.delete p l.
Proof. rewrite !delete_take_drop. by rewrite take_insert_ge, drop_insert_lt by lia. Qed.

(** The worker of a role becomes idle and takes the next job of the role. *)
Lemma idle_fill self o p c role rec current q capacity a self' o' a' J a0 :
  keyed_ok self o -> opened o p c role q [] -> preparing (cell_member c) = 0 ->
  accounted J a0 (queued_jobs q ++ rest_jobs o p) a ->
  fill_role self (put (taken o p) p role rec (Member_Worker (mkPoolWorker current Phase_Idle)) q capacity) p a
    = (self', (o', a')) ->
  result_ok o J a0 self self' (State_Operating o', a').
Proof.
  intros Hok [O1 O2 O3 O4 O5 O6 [closed O7] O8] Hpr Ha Hf. unfold put in Hf. rewrite (put_taken _ _ _ _ O1) in Hf.
  set (c' := mkCell _ q capacity) in Hf. rewrite app_nil_r in O6, O7.
  assert (Hj : cell_jobs c' = queued_jobs q) by (unfold cell_jobs; cbn; by rewrite app_nil_r).
  destruct (cell_split _ _ _ c' O1) as [S1 S2].
  pose proof Hok as [I1 I2 I3 I4]. edestruct fill_role_ok as (Hk & Hok' & Hn & Hacc); [| | | |exact Hf|].
  - eapply desk_replace; [done|exact O1| | |by rewrite Hj|done].
    + unfold cell_role; cbn. congruence.
    + split; [done|done| |done]. rewrite Hj. unfold cell_role; cbn. done.
  - cbn [with_roles roles]. rewrite delete_replaced. rewrite S1 in I2. by inversion_clear I2.
  - eapply crew_perm; [symmetry; exact (proj2 (members_split o p c c' O1))|].
    eapply crew_light; [exact Hpr|done..|]. by apply (keyed_crew _ _ _ _ Hok O1).
  - done.
  - split; cbn [fst snd state_jobs]; [by apply keyed_kept_config| |].
    + eapply keyed_accounted_trans; [exact Ha|]. cbn [with_roles roles] in Hacc. by rewrite S2, keyed_held_cons, Hj in Hacc.
    + split; [done|]. eapply follows_trans; [|exact Hn]. eapply follows_replace; [exact O1|]. cbn. congruence.
Qed.

Lemma busy_opened self o p role rec current a q capacity :
  keyed_ok self o -> roles o !! p = Some (mkCell (worker_member role rec current (Phase_Busy a)) q capacity) ->
  opened o p (mkCell (worker_member role rec current (Phase_Busy a)) q capacity) role q [assigned_customer a] /\
  held (roles o) ≡ₚ assigned_customer a :: queued_jobs q ++ rest_jobs o p.
Proof.
  intros Hok Hc. destruct (opened_start _ _ _ _ _ _ Hok Hc ltac:(done)) as [Hop Hh]. split; [exact Hop|].
  rewrite Hh. cbn. by rewrite <- Permutation_middle.
Qed.

Lemma keyed_complete_assignment_ok self o p role rec current a q capacity r stopped self' res :
  keyed_ok self o -> roles o !! p = Some (mkCell (worker_member role rec current (Phase_Busy a)) q capacity) ->
  complete_assignment self (taken o p) p role rec current (assigned_customer a) r stopped q capacity = (self', res) ->
  result_ok o (held (roles o)) keyed_cont self self' res.
Proof.
  intros Hok Hc. unfold complete_assignment. destruct (busy_opened _ _ _ _ _ _ _ _ _ Hok Hc) as [Hop%opened_drop Hh].
  set (a1 := answers _ _ _).
  assert (Ha : accounted (held (roles o)) keyed_cont (queued_jobs q ++ rest_jobs o p) a1).
  { rewrite Hh. by apply (keyed_accounted_answers _ (assigned_customer a)). }
  destruct stopped as [stopped|].
  - intros Hr. eapply keyed_recover_worker_ok with (interrupted := None); [exact Hok|exact Hop|done|exact Ha|exact Hr].
  - destruct (fill_role _ _ _ _) as [self1 [o1 a2]] eqn:Hf. intros [= <- <-]. by eapply idle_fill.
Qed.

Lemma keyed_interrupt_assignment_ok self o p role rec current a q capacity stopped late self' res :
  keyed_ok self o -> roles o !! p = Some (mkCell (worker_member role rec current (Phase_Busy a)) q capacity) ->
  interrupt_assignment self (taken o p) p role rec current (assigned_customer a) stopped late q capacity = (self', res) ->
  result_ok o (held (roles o)) keyed_cont self self' res.
Proof.
  intros Hok Hc. unfold interrupt_assignment. destruct (busy_opened _ _ _ _ _ _ _ _ _ Hok Hc) as [Hop Hh]. intros Hr.
  eapply keyed_recover_worker_ok with (interrupted := Some (assigned_customer a)); [exact Hok|exact Hop|done| |exact Hr].
  assert (Hh' : held (roles o) ≡ₚ queued_jobs q ++ option_list (Some (assigned_customer a)) ++ rest_jobs o p)
    by (rewrite Hh; cbn; by rewrite <- Permutation_middle).
  rewrite Hh'. destruct late; [by apply keyed_accounted_diagnosed|apply keyed_accounted_refl].
Qed.

Lemma keyed_accept_assignment_receipt_ok self o receipt :
  keyed_ok self o -> handled self o (accept_assignment_receipt self o receipt).
Proof.
  intros Hok. unfold accept_assignment_receipt.
  destruct (take_cell _ _) as [[[p [m q capacity]] o1]|] eqn:Ht; [|by apply handed_back].
  apply take_cell_Some in Ht as (Hc & Hw & ->). destruct m as [role rec [|[current []]| |]]; try done.
  match goal with |- context [accept_receipt ?a _] => pose proof (accept_receipt_spec a receipt) as Hspec;
    destruct (accept_receipt a receipt) as [[a'|j r stopped|j stopped late]|[a' receipt']] end.
  - destruct Hspec. eapply keyed_replace_result; [exact Hok|exact Hc|by apply busy_weight|done|done].
  - subst j. destruct (complete_assignment _ _ _ _ _ _ _ _ _ _ _) as [self' res] eqn:Hr.
    by eapply keyed_complete_assignment_ok.
  - subst j. destruct (interrupt_assignment _ _ _ _ _ _ _ _ _ _ _) as [self' res] eqn:Hr.
    by eapply keyed_interrupt_assignment_ok.
  - destruct Hspec. eapply keyed_replace_handled; [exact Hok|exact Hc|by apply busy_weight|done].
Qed.

Lemma keyed_pool_accept_completion_ok self o child completion :
  keyed_ok self o -> handled self o (pool_accept_completion self o child completion).
Proof.
  intros Hok. unfold pool_accept_completion.
  destruct (take_cell _ _) as [[[p [m q capacity]] o1]|] eqn:Ht; [|by apply handed_back].
  apply take_cell_Some in Ht as (Hc & Hw & ->). destruct m as [role rec [|[current []]| |]]; try done.
  match goal with |- context [accept_completion ?a _] => pose proof (accept_completion_spec a completion) as Hspec;
    destruct (accept_completion a completion) as [[a'|j r stopped]|[a' completion']] end.
  - destruct Hspec. eapply keyed_replace_result; [exact Hok|exact Hc|by apply busy_weight|done|done].
  - subst j. destruct (complete_assignment _ _ _ _ _ _ _ _ _ _ _) as [self' res] eqn:Hr.
    by eapply keyed_complete_assignment_ok.
  - destruct Hspec. eapply keyed_replace_handled; [exact Hok|exact Hc|by apply busy_weight|done].
Qed.

Lemma keyed_reserve_one_spec self self' id : reserve_one self = (self', id) -> kept self self'.
Proof. unfold reserve_one. destruct self as [k p]. destruct (reserve _ _) as [s i]. by intros [= <- <-]. Qed.

Lemma result_then_retire base J a0 self self1 o1 a1 self2 r2 :
  result_ok base J a0 self self1 (State_Operating o1, a1) -> begin_retirement self1 o1 a1 = (self2, r2) ->
  result_ok base J a0 self self2 r2.
Proof.
  intros [Rc Ra [Hok _]] Hb. eapply keyed_result_ok_from; [exact Ra|exact Rc|].
  eapply begin_retirement_result; [|exact Hb]. apply (crew_source _ _ _ _ _ (ok_crew _ _ _ Hok)).
Qed.

(** The worker of a role is asked to stop. *)
Lemma quarantine_ok self o p c role rec current shutdown q capacity a J a0 o' a' :
  keyed_ok self o -> opened o p c role q [] -> preparing (cell_member c) = 0 ->
  accounted J a0 (queued_jobs q ++ rest_jobs o p) a ->
  quarantine_worker (taken o p) p role rec current shutdown q capacity a = (o', a') ->
  result_ok o J a0 self self (State_Operating o', a').
Proof.
  intros Hok Hop Hpr Ha [= <- <-]. pose proof (opened_at _ _ _ _ _ _ Hop) as Hc. unfold put.
  set (m' := mkMember role rec _).
  assert (Hcr : crew_inv awaited (recovery self.2) (startup_limit self.2) (restarts self.2) (m' :: others o p)).
  { eapply crew_light; [exact Hpr|done..|]. by apply (keyed_crew _ _ _ _ Hok Hc). }
  destruct (opened_put self self o p c role q m' capacity Hok Hop eq_refl eq_refl ltac:(done) eq_refl (keyed_config_refl _) Hcr)
    as (-> & Hok1 & Hn1 & Hh1).
  split; [apply keyed_config_refl| |by split]. cbn [fst snd state_jobs with_roles roles]. rewrite Hh1.
  eapply keyed_accounted_trans; [exact Ha|by apply keyed_accounted_same].
Qed.

Lemma keyed_reject_assignment_delivery_ok self o item reason :
  keyed_ok self o -> stepped self o (reject_assignment_delivery self o item reason).
Proof.
  intros Hok. unfold reject_assignment_delivery.
  destruct (take_cell _ _) as [[[p [m q capacity]] o1]|] eqn:Ht; [|by apply keyed_diagnose_result].
  apply take_cell_Some in Ht as (Hc & Hw & ->). destruct m as [role rec [|[current []]| |]]; try done.
  destruct (reserve_one self) as [self1 id] eqn:Hres.
  pose proof (keyed_reserve_one_spec _ _ _ Hres) as Hk. pose proof (keyed_inv_kept _ _ _ Hk Hok) as Hok1.
  apply (keyed_result_ok_from _ (held (roles o)) keyed_cont self1); [apply keyed_accounted_refl|by apply keyed_kept_config|].
  clear Hok Hk Hres. destruct id as [shutdown|].
  2: { unfold diagnose. destruct (begin_retirement _ _ _) as [self' r] eqn:Hb.
       eapply result_then_retire; [|exact Hb]. by apply (keyed_diagnose_result self1 o). }
  destruct item as [target returned receipt]. cbn [assign_into_parts assign_target assign_assignment assign_receipt].
  destruct (busy_opened _ _ _ _ _ _ _ _ _ Hok1 Hc) as [Hop Hh].
  pose proof (accept_rejection_spec a returned) as Hspec.
  destruct (PoolAssignment.accept_rejection a returned) as [[j stopped|j asg c stopped]|[a' returned']].
  - subst j. destruct (opened_requeue _ _ _ _ _ _ Hop) as [Hop' Hp].
    assert (Ha : accounted (held (roles o)) keyed_cont
      (queued_jobs (bt_insert (job_admitted (assigned_customer a)) (assigned_customer a) q) ++ rest_jobs o p) keyed_cont).
    { rewrite Hh, Hp, <- app_assoc. cbn [app]. rewrite <- Permutation_middle. apply keyed_accounted_refl. }
    destruct stopped as [stopped|].
    + destruct (KeyedRecovery.recover_worker _ _ _ _ _ _ _ _ _ _ _) as [self' r] eqn:Hr.
      eapply keyed_recover_worker_ok with (interrupted := None); [exact Hok1|exact Hop'|done|exact Ha|exact Hr].
    + destruct (quarantine_worker _ _ _ _ _ _ _ _ _) as [o2 a2] eqn:Hq. by eapply quarantine_ok.
  - subst j. apply opened_drop in Hop. set (a3 := diagnosed self1 _ _).
    assert (Ha : accounted (held (roles o)) keyed_cont (queued_jobs q ++ rest_jobs o p) a3).
    { rewrite Hh. eapply keyed_accounted_trans; [|by apply keyed_accounted_diagnosed].
      eapply keyed_accounted_trans; [|by apply keyed_accounted_diagnosed]. by apply (keyed_accounted_answered _ (assigned_customer a)). }
    destruct stopped as [stopped|].
    + destruct (KeyedRecovery.recover_worker _ _ _ _ _ _ _ _ _ _ _) as [self2 [s2 a2]] eqn:Hr.
      assert (Hres : result_ok o (held (roles o)) keyed_cont self1 self2 (s2, a2)).
      { eapply keyed_recover_worker_ok with (interrupted := None); [exact Hok1|exact Hop|done|exact Ha|exact Hr]. }
      destruct s2 as [|o2| | |]; try exact Hres.
      destruct (begin_retirement self2 o2 a2) as [self3 r3] eqn:Hb. by eapply result_then_retire.
    + destruct (quarantine_worker _ _ _ _ _ _ _ _ _) as [o2 a2] eqn:Hq.
      destruct (begin_retirement self1 o2 a2) as [self3 r3] eqn:Hb.
      eapply result_then_retire; [|exact Hb]. by eapply quarantine_ok.
  - destruct Hspec. eapply keyed_replace_diagnose; [exact Hok1|exact Hc|by apply busy_weight|done].
Qed.

(** ** Stops and shutdowns of workers *)

Lemma recover_quarantined_ok self o p role rec current ph shutdown stopped q capacity self' r :
  keyed_ok self o -> roles o !! p = Some (mkCell (worker_member role rec current ph) q capacity) ->
  busy (worker_member role rec current ph) = [] ->
  recover_quarantined_worker self (taken o p) p role rec current shutdown stopped q capacity = (self', r) ->
  result_ok o (held (roles o)) keyed_cont self self' r.
Proof.
  intros Hok Hc Hb. unfold recover_quarantined_worker. intros Hr.
  destruct (opened_start _ _ _ _ _ _ Hok Hc ltac:(done)) as [Hop Hh]. rewrite Hb in Hop, Hh. cbn in Hop, Hh.
  eapply keyed_recover_worker_ok with (interrupted := None); [exact Hok|exact Hop|done| |exact Hr]. rewrite Hh.
  destruct shutdown; [apply keyed_accounted_refl|by apply keyed_accounted_diagnosed].
Qed.

Lemma keyed_accept_worker_stop_ok self o stopped :
  keyed_ok self o -> handled self o (accept_worker_stop self o stopped).
Proof.
  intros Hok. unfold accept_worker_stop.
  destruct (take_cell _ _) as [[[p [m q capacity]] o1]|] eqn:Ht; [|by apply handed_back].
  apply take_cell_Some in Ht as (Hc & _ & ->).
  destruct m as [role rec [w|[current ph]|rc|]]; [by eapply keyed_replace_handled| |by eapply keyed_replace_handled..].
  destruct ph as [| | | | |a|j]; try by eapply keyed_replace_handled.
  - destruct (KeyedRecovery.recover_worker _ _ _ _ _ _ _ _ _ _ _) as [self' r] eqn:Hr.
    destruct (opened_start _ _ _ _ _ _ Hok Hc ltac:(done)) as [Hop Hh]. cbn in Hop, Hh.
    eapply keyed_recover_worker_ok with (interrupted := None); [exact Hok|exact Hop|done| |exact Hr]. rewrite Hh. apply keyed_accounted_refl.
  - pose proof (accept_exit_spec a stopped) as Hspec.
    destruct (PoolAssignment.accept_worker_exit a stopped) as [[a'|j s late]|[a' s]].
    + destruct Hspec. eapply keyed_replace_result; [exact Hok|exact Hc|by apply busy_weight|done|done].
    + subst j. destruct (interrupt_assignment _ _ _ _ _ _ _ _ _ _ _) as [self' r] eqn:Hr.
      by eapply keyed_interrupt_assignment_ok.
    + destruct Hspec. eapply keyed_replace_handled; [exact Hok|exact Hc|by apply busy_weight|done].
  - destruct (join_stopped j stopped _) as [[[shutdown s]|j']|[j' s]].
    + destruct (recover_quarantined_worker _ _ _ _ _ _ _ _ _ _) as [self' r] eqn:Hr.
      by eapply recover_quarantined_ok.
    + by eapply keyed_replace_result.
    + by eapply keyed_replace_handled.
Qed.

Lemma accept_quarantine_shutdown_ok self o shutdown :
  keyed_ok self o -> handled self o (accept_quarantine_shutdown self o shutdown).
Proof.
  intros Hok. unfold accept_quarantine_shutdown.
  destruct (take_cell _ _) as [[[p [m q capacity]] o1]|] eqn:Ht; [|by apply handed_back].
  apply take_cell_Some in Ht as (Hc & Hw & ->). destruct m as [role rec [|[current [| | | | | |j]]| |]]; try done.
  destruct (join_settled j shutdown) as [[[sh s]|j']|[j' sh]].
  - destruct (recover_quarantined_worker _ _ _ _ _ _ _ _ _ _) as [self' r] eqn:Hr. by eapply recover_quarantined_ok.
  - by eapply keyed_replace_result.
  - by eapply keyed_replace_handled.
Qed.

(** ** Initialization and startup reports *)

Lemma keyed_accept_initialization_ok self o input :
  keyed_ok self o -> handled self o (operating_on (accept_initialization self o input)).
Proof.
  intros Hok. unfold accept_initialization.
  destruct (take_cell _ _) as [[[p [m q capacity]] o1]|] eqn:Ht; [|by apply handed_back].
  apply take_cell_Some in Ht as (Hc & _ & ->). pose proof (member_initialization_spec m input) as Hspec.
  destruct (PoolWorker.admit_initialization m input) as [m'|[m' input']].
  - destruct Hspec as (B & B' & I & I' & [L1 L2 L3 L4] & Hr & Hn).
    destruct (authorize_waiting _ _ _) as [self1 [o1 a1]] eqn:Hau. unfold operating_on. cbn [fst snd map_result handled].
    eapply keyed_authorize_result; [|exact Hau]. rewrite (put_taken _ _ _ _ Hc).
    destruct (keyed_cell _ _ _ _ Hok Hc) as (Hcell & _ & _).
    assert (Hj : cell_jobs (mkCell m q capacity) ≡ₚ [] ++ cell_jobs (mkCell m' q capacity)).
    { unfold cell_jobs; cbn. by rewrite B, B'. }
    destruct (keyed_replace (W:=awaited) (W':=awaited) self self o p _ (mkCell m' q capacity) Hok Hc) as [Hok1 Hn1].
    + done.
    + eapply cell_ok_member; [exact Hcell|done|congruence|done].
    + by exists [].
    + done.
    + unfold served, idle in *. cbn. by destruct (is_idle m').
    + apply keyed_config_refl.
    + eapply crew_replace; [..|by apply (keyed_crew _ _ _ _ Hok Hc)]; cbn; lia.
    + split; [apply keyed_config_refl| |done]. cbn [fst snd state_jobs with_roles roles].
      rewrite (held_replace _ _ _ _ _ Hc Hj). apply keyed_accounted_refl.
  - destruct Hspec as [-> ->]. by eapply keyed_replace_handled.
Qed.

Lemma keyed_accept_startup_ok self o input :
  keyed_ok self o -> handled self o (operating_on (accept_startup self o input)).
Proof.
  intros Hok. unfold accept_startup.
  destruct (take_cell _ _) as [[[p [m q capacity]] o1]|] eqn:Ht; [|by apply handed_back].
  apply take_cell_Some in Ht as (Hc & _ & ->). pose proof (member_startup_spec m input) as Hspec.
  destruct (PoolWorker.admit_startup m input) as [m'|[m' input']].
  2: { destruct Hspec as [-> ->]. by eapply keyed_replace_handled. }
  destruct Hspec as (Hu & Hu' & [[Hw Hi]|((rec & current & ->) & Hpr & Hb)]).
  - rewrite Hi. destruct (authorize_waiting _ _ _) as [self1 [o1 a1]] eqn:Hau.
    unfold operating_on. cbn [fst snd map_result handled]. eapply keyed_authorize_result; [|exact Hau].
    eapply keyed_replace_result; [exact Hok|exact Hc|exact Hw|done|done].
  - cbn [is_idle member_state]. destruct (fill_role _ _ _ _) as [self1 [o1 a1]] eqn:Hfill.
    destruct (authorize_waiting self1 o1 a1) as [self2 [o2 a2]] eqn:Hau.
    unfold operating_on. cbn [fst snd map_result handled]. eapply keyed_authorize_result; [|exact Hau].
    destruct (opened_start _ _ _ _ _ _ Hok Hc Hu) as [Hop Hh]. rewrite Hb in Hop, Hh. cbn in Hop, Hh.
    eapply (idle_fill self o p _ (member_role m)); [exact Hok|exact Hop|exact Hpr| |exact Hfill]. rewrite Hh. apply keyed_accounted_refl.
Qed.

End KeyedHandlers.
