(* ===== verification/KeyedDrain.v ===== *)
(** * The retirement of the keyed pool

    A retiring pool asks for nothing new, keeps account of the source, and every
    answer that one of its workers waits for brings it strictly nearer to its
    end. *)

From stdpp Require Import base list list_numbers option numbers sorting.
From S2P Require Import Prelude Effects BTreeMap Timers Restart Termination Settlement Interpretation Creation.
From S2P Require Import Workers WorkerPreparation WorkerStartup ProxyWorker PoolAssignment PoolPolicy PoolWorker PoolMembers PoolDrain.
From S2P Require Import KeyedBinding KeyedProtocol KeyedRetirement KeyedPool KeyedRecovery KeyedTransition.
From S2P Require Import KeyedInvariant KeyedHandlers.

Section KeyedDrain.
  Context `{KT : KeyedTypes}.

Abbreviation drain_ok self l d := (retiring_ok (recovery self.2) l d).

(** Nothing new is asked of the host but shutdowns, timers and diagnostics. *)
Record quiet (a : KeyedActions) : Prop := {
  quiet_creates : creates a = Creations_empty;
  quiet_observations : requests (worker_observations (sends a)) = [];
  quiet_initializations : requests (worker_initializations (sends a)) = [];
  quiet_startups : requests (worker_startups (sends a)) = [];
  quiet_bindings : binding_replies (sends a) = sends_empty;
  quiet_assignments : worker_assignments (sends a) = [];
  quiet_preparations : worker_preparations (sends a) = [];
  quiet_schedules : restart_schedules (sends a) = []
}.

Lemma keyed_quiet_cont : quiet keyed_cont.
Proof. done. Qed.

Lemma keyed_quiet_diagnosed self c a : quiet a -> quiet (diagnosed self c a).
Proof. intros []. by split. Qed.

Lemma keyed_clean_diagnosed self c a : source_lost c = false -> clean a -> clean (diagnosed self c a).
Proof. intros Hc. by apply (acc_clean _ _ _ _ (keyed_accounted_diagnosed [] self c a Hc)). Qed.

(** Requests, answers and diagnostics of a step of the retirement. *)
Record drain_actions (a : KeyedActions) : Prop := {
  drain_quiet : quiet a;
  drain_clean : clean a;
  drain_replies : replies a = []
}.

Lemma keyed_drain_actions_cont : drain_actions keyed_cont.
Proof. split; [done|constructor|done]. Qed.

Lemma keyed_drain_actions_diagnosed self c a :
  source_lost c = false -> drain_actions a -> drain_actions (diagnosed self c a).
Proof. intros Hc []. split; [by apply keyed_quiet_diagnosed|by apply keyed_clean_diagnosed|done]. Qed.

Lemma keyed_drain_actions_shutdown r a : drain_actions a -> drain_actions (on_shutdowns (append_one r) a).
Proof. intros [[] ? ?]. by split. Qed.

Lemma keyed_drain_actions_become b a : drain_actions a -> drain_actions (set_become b a).
Proof. intros [[] ? ?]. by split. Qed.

Lemma keyed_drain_actions_diagnose self s e : drain_actions (diagnose self s e).2.
Proof. split; [done| |done]. constructor; [|done]. cbn. by destruct (diagnostics_to self.2). Qed.

(** A step of the retirement that leaves fewer than [k] answers outstanding. *)
Record drained (k : nat) (self self' : Self) (r : KeyedPoolState * KeyedActions) : Prop := {
  drained_config : config_kept self self';
  drained_actions : drain_actions r.2;
  drained_state : match r.1 with
                  | State_Retiring l d => drain_ok self' l d /\ outstanding l d < k
                  | State_Stopped | State_ForcedRetirement _ _ => become_ r.2 = Stop the_Stopped
                  | _ => False
                  end
}.

Lemma continue_retirement_ok k self self' l d a :
  config_kept self self' -> sum_list_with draining_source l = sources_out (recovery self'.2) ->
  Forall shutdown_requested l -> outstanding l d < k -> drain_actions a ->
  drained k self self' (continue_retirement l d None a).
Proof.
  intros Hc Hs Hr Hk Ha. unfold continue_retirement.
  destruct d; try (by split; [done|by apply keyed_drain_actions_become|]);
    (destruct (any_waiting l) eqn:Hw; split; [done|done| |done|by apply keyed_drain_actions_become|done]; cbn; split; [by split|done]).
Qed.

Lemma keyed_drained_diagnose k self l d e :
  drain_ok self l d -> outstanding l d < k -> drained k self self (diagnose self (State_Retiring l d) e).
Proof. intros Hok Hk. split; [apply keyed_config_refl|apply keyed_drain_actions_diagnose|done]. Qed.

Lemma keyed_drained_weaken k k' self self' r : k <= k' -> drained k self self' r -> drained k' self self' r.
Proof.
  intros Hk [Hc Ha Hs]. split; auto. destruct r as [[]]; cbn in *; try done. destruct Hs. split; [done|lia].
Qed.

(** The retirement goes on with the workers that an answer left. *)
Lemma keyed_drained_progress k self l l' d a :
  drain_ok self l d -> progress k 0 l l' -> drain_actions a ->
  drained (S (outstanding l d) - k) self self (continue_retirement l' d None a).
Proof.
  intros [Ks Kr Kw Kd] Hp Ha. pose proof (progress_outstanding _ _ _ _ d Hp).
  destruct Hp as [Ps _ Pr]. apply continue_retirement_ok; auto using keyed_config_refl; [congruence || lia|lia].
Qed.

(** ** Steps *)

Lemma retain_retired_actions self w a : drain_actions a -> drain_actions (retain_retired_worker self w a).
Proof.
  intros Ha. destruct w as [role st sh]. cbn [retain_retired_worker].
  assert (H : forall a1, drain_actions a1 -> drain_actions
    match sh with ShutdownAccepted _ => a1 | _ => diagnosed self (Diag_WorkerShutdownRejected role sh) a1 end).
  { intros a1 H1. destruct sh; [done|by apply keyed_drain_actions_diagnosed]. }
  apply H. destruct st as [[]|]; try done; by apply keyed_drain_actions_diagnosed.
Qed.

(** The answer among the inputs of a retiring pool. *)
Definition answer_of (input : KeyedEvent) : option PoolAnswer :=
  match input with
  | Event_WorkerCreationsSettled s => Some (Answer_Creations s)
  | Event_WorkerStopped s => Some (Answer_Stopped s)
  | Event_WorkerShutdownSettled r => Some (Answer_Shutdown r)
  | Event_WorkerPreparationStarted r => Some (Answer_PreparationStarted r)
  | Event_WorkerPreparationReturned r => Some (Answer_PreparationReturned r)
  | Event_RestartScheduleSettled r => Some (Answer_Schedule r)
  | _ => None
  end.

Definition answers_wait (w : RetiringWorker) (input : KeyedEvent) : Prop :=
  match answer_of input with Some a => waits_for w a | None => False end.

(** A step never adds to what is outstanding, and an answer takes from it. *)
Definition drain_step (self : Self) (l : list RetiringWorker) (d : ShutdownDeadline) (answered : Prop)
  (self' : Self) (r : KeyedPoolState * KeyedActions) : Prop :=
  drained (S (outstanding l d)) self self' r /\ (answered -> drained (outstanding l d) self self' r).

Lemma keyed_drain_step_strict self l d answered self' r :
  drained (S (outstanding l d) - 1) self self' r -> drain_step self l d answered self' r.
Proof.
  replace (S (outstanding l d) - 1) with (outstanding l d) by lia.
  intros H. split; [by eapply keyed_drained_weaken; [|exact H]; lia|done].
Qed.

Lemma keyed_drain_step_ignored self l d (answered : Prop) e :
  drain_ok self l d -> (answered -> False) ->
  drain_step self l d answered self (diagnose self (State_Retiring l d) e).
Proof. intros Hok Hno. split; [apply keyed_drained_diagnose; [done|lia]|done]. Qed.

(** An answer was taken. *)
Lemma keyed_drain_step_progress self l l' d answered a :
  drain_ok self l d -> progress 1 0 l l' -> drain_actions a ->
  drain_step self l d answered self (continue_retirement l' d None a).
Proof. intros. by apply keyed_drain_step_strict, keyed_drained_progress. Qed.

(** A worker took its answer and waits for another. *)
Lemma drain_step_waiting self l l' d answered :
  drain_ok self l d -> progress 1 0 l l' -> any_waiting l' = true ->
  drain_step self l d answered self (State_Retiring l' d, keyed_cont).
Proof.
  intros [Ks Kr Kw Kd] Hp Hw. apply keyed_drain_step_strict. pose proof (progress_outstanding _ _ _ _ d Hp).
  destruct Hp as [Ps _ Pr]. split; [apply keyed_config_refl|apply keyed_drain_actions_cont|]. cbn. split; [|lia].
  split; auto. lia.
Qed.

Lemma retiring_worker_exit_ok self l d s :
  drain_ok self l d ->
  drain_step self l d (awaited_by l (Answer_Stopped s)) self (retiring_worker_exit self l d s).
Proof.
  intros Hok. unfold retiring_worker_exit. pose proof (exit_progress l s) as Hspec.
  destruct (PoolWorker.accept_worker_exit l s) as [[[l' dep]|l']|[l' s']].
  - apply keyed_drain_step_progress; [done..|]. apply retain_retired_actions, keyed_drain_actions_cont.
  - destruct Hspec. by apply drain_step_waiting.
  - destruct Hspec as (-> & -> & Hno). by apply keyed_drain_step_ignored.
Qed.

Lemma retiring_worker_shutdown_ok self l d s :
  drain_ok self l d ->
  drain_step self l d (awaited_by l (Answer_Shutdown s)) self (retiring_worker_shutdown self l d s).
Proof.
  intros Hok. unfold retiring_worker_shutdown. pose proof (shutdown_progress l s) as Hspec.
  destruct (accept_worker_shutdown l s) as [[[l' dep]|l']|[l' s']].
  - apply keyed_drain_step_progress; [done..|]. apply retain_retired_actions, keyed_drain_actions_cont.
  - destruct Hspec. by apply drain_step_waiting.
  - destruct Hspec as (-> & -> & Hno). by apply keyed_drain_step_ignored.
Qed.

Lemma accept_retirement_schedule_ok self l d settled :
  drain_ok self l d ->
  drain_step self l d (awaited_by l (Answer_Schedule settled)) self (accept_retirement_schedule self l d settled).
Proof.
  intros Hok. unfold accept_retirement_schedule. pose proof (schedule_progress l settled) as Hspec.
  destruct (take_at _ _) as [[[p [role s]] rest]|].
  - destruct Hspec as (Hp & replacement & timer & ->). apply keyed_drain_step_progress; [done..|].
    apply keyed_drain_actions_diagnosed; [done|apply keyed_drain_actions_cont].
  - destruct (accept_schedule d settled) as [d' [[]|settled']] eqn:Hs.
    + apply accept_schedule_weight in Hs. apply keyed_drain_step_strict.
      apply continue_retirement_ok; auto using keyed_config_refl, keyed_drain_actions_cont; [apply Hok|apply Hok|].
      unfold outstanding. lia.
    + apply accept_schedule_err in Hs as ->. by apply keyed_drain_step_ignored.
Qed.

Lemma accept_deadline_ok self l d elapsed answered :
  drain_ok self l d -> (answered -> False) ->
  drain_step self l d answered self (accept_deadline self l d elapsed).
Proof.
  intros Hok Hno. unfold accept_deadline.
  destruct d as [|k|k|r|e]; cbn [accept_elapsed]; try (by apply keyed_drain_step_ignored).
  destruct (admit_elapsed k elapsed); [|by apply keyed_drain_step_ignored].
  apply keyed_drain_step_strict. split; [apply keyed_config_refl|apply keyed_drain_actions_become, keyed_drain_actions_cont|done].
Qed.

(** ** Initialization and startup reports *)

Lemma retiring_worker_initialization_ok self l d input answered :
  drain_ok self l d -> (answered -> False) ->
  drain_step self l d answered self (retiring_worker_initialization self l d input).
Proof.
  intros Hok Hno. unfold retiring_worker_initialization. pose proof (initialization_progress l input) as Hspec.
  destruct (PoolWorker.accept_worker_initialization l input) as [l' report|l' departure role startup].
  - destruct Hspec as [->|[Hp Hw]]; [by apply keyed_drain_step_ignored|]. split; [|done].
    pose proof (progress_outstanding _ _ _ _ d Hp). destruct Hok as [Ks Kr Kw Kd], Hp as [Ps _ Pr].
    apply keyed_drained_diagnose; [|lia]. split; auto. lia.
  - apply keyed_drain_step_progress; [done..|].
    destruct departure; [apply retain_retired_actions|]; (apply keyed_drain_actions_diagnosed; [done|apply keyed_drain_actions_cont]).
Qed.

Lemma retiring_worker_startup_ok self l d input answered :
  drain_ok self l d -> (answered -> False) ->
  drain_step self l d answered self (retiring_worker_startup self l d input).
Proof.
  intros Hok Hno. unfold retiring_worker_startup. pose proof (startup_progress l input) as Hspec.
  destruct (PoolWorker.accept_worker_startup l input) as [l'|l' role w g outcome|l' startup].
  - split; [|done]. apply (keyed_drained_progress 0); auto using keyed_drain_actions_cont.
  - split; [|done]. apply (keyed_drained_progress 0); auto.
    apply keyed_drain_actions_diagnosed; [done|apply keyed_drain_actions_cont].
  - subst l'. by apply keyed_drain_step_ignored.
Qed.

(** ** Preparations *)

(** The source is put away and its worker is drained. *)
Lemma keyed_source_back_step self l l' d source :
  drain_ok self l d -> progress 1 1 l l' ->
  exists r, restore_source (recovery self.2) source = (r, Ok ()) /\
    forall c answered, source_lost c = false -> drain_step self l d answered (set_recovery self r)
      (continue_retirement l' d None (diagnosed (set_recovery self r) c keyed_cont)).
Proof.
  intros Hok Hp. destruct (restored_progress _ _ _ _ _ source Hok Hp) as (r & Hrs & Hsame & Hsum).
  exists r. split; [done|]. intros c answered Hc. apply keyed_drain_step_strict.
  pose proof (progress_outstanding _ _ _ _ d Hp). destruct (keyed_set_recovery_2 self r) as (_ & _ & _ & _ & E5 & _).
  apply continue_retirement_ok; [by apply set_recovery_config|by rewrite E5| |lia|].
  - destruct Hok, Hp. auto.
  - apply keyed_drain_actions_diagnosed; [done|apply keyed_drain_actions_cont].
Qed.

Lemma accept_retired_preparation_start_ok self l d input self' r :
  drain_ok self l d -> accept_retired_preparation_start self l d input = (self', r) ->
  drain_step self l d (awaited_by l (Answer_PreparationStarted input)) self' r.
Proof.
  intros Hok. unfold accept_retired_preparation_start. pose proof (preparation_start_progress l input) as Hspec.
  destruct (accept_retiring_worker_preparation_start l input) as [[[l' failed]|l']|[l' input']].
  - destruct (keyed_source_back_step self l l' d (failed_source failed) Hok Hspec) as (rc & -> & Hstep).
    intros [= <- <-]. apply Hstep. by destruct (failed_fault failed).
  - intros [= <- <-]. apply keyed_drain_step_progress; auto using keyed_drain_actions_cont.
  - destruct Hspec as (-> & -> & Hno). intros [= <- <-]. by apply keyed_drain_step_ignored.
Qed.

Lemma accept_retired_preparation_return_ok self l d input self' r :
  drain_ok self l d -> accept_retired_preparation_return self l d input = (self', r) ->
  drain_step self l d (awaited_by l (Answer_PreparationReturned input)) self' r.
Proof.
  intros Hok. unfold accept_retired_preparation_return. pose proof (preparation_return_progress l input) as Hspec.
  destruct (accept_retiring_worker_preparation_return l input) as [[l' [prepared|role rec previous stopped source error]]|[l' input']].
  - destruct prepared as [role rec previous stopped source submission].
    destruct (keyed_source_back_step self l l' d source Hok Hspec) as (rc & -> & Hstep). intros [= <- <-]. by apply Hstep.
  - destruct Hspec as [Hp He].
    destruct (keyed_source_back_step self l l' d source Hok Hp) as (rc & -> & Hstep). intros [= <- <-]. apply Hstep.
    by destruct error.
  - destruct Hspec as (-> & -> & Hno). intros [= <- <-]. by apply keyed_drain_step_ignored.
Qed.

(** ** Creation settlements *)

(** The retiring workers [l] and the actions [a], [k] answers later; [f] is the
    cause of a forced retirement. *)
Record joined (k : nat) (self self' : Self) (l l' : list RetiringWorker) (a a' : KeyedActions)
  (f : option ForcedRetirementCause) : Prop := {
  joined_config : config_kept self self';
  joined_recovery : recovery self'.2 = recovery self.2;
  joined_actions : drain_actions a -> drain_actions a';
  joined_source : sum_list_with draining_source l' = sum_list_with draining_source l;
  joined_weight : sum_list_with retiring_weight l' + k <= sum_list_with retiring_weight l;
  joined_requested : f = None -> Forall shutdown_requested l -> Forall shutdown_requested l'
}.

Lemma keyed_joined_refl self l a f : joined 0 self self l l a a f.
Proof. split; auto using keyed_config_refl. lia. Qed.

Lemma keyed_joined_trans k1 k2 s1 s2 s3 l1 l2 l3 a1 a2 a3 f1 f2 :
  (f2 = None -> f1 = None) -> joined k1 s1 s2 l1 l2 a1 a2 f1 -> joined k2 s2 s3 l2 l3 a2 a3 f2 ->
  joined (k1 + k2) s1 s3 l1 l3 a1 a3 f2.
Proof.
  intros Hf [] []. split; [by eapply keyed_config_trans|congruence|auto|congruence|lia|auto].
Qed.

Lemma keyed_joined_fewer k k' s1 s2 l1 l2 a1 a2 f : k <= k' -> joined k' s1 s2 l1 l2 a1 a2 f -> joined k s1 s2 l1 l2 a1 a2 f.
Proof. intros Hk []. split; auto. lia. Qed.

Lemma keyed_joined_diagnosed k self self' l l' a a' c f :
  source_lost c = false -> joined k self self' l l' (diagnosed self c a) a' f -> joined k self self' l l' a a' f.
Proof. intros Hc []. split; auto. intros. by apply joined_actions0, keyed_drain_actions_diagnosed. Qed.

(** A worker whose creation is settled is retained, or given up. *)
Lemma keyed_retain_worker_joined self custody workers a self' f workers' a' w rest :
  draining_source w = 0 -> 3 <= retiring_weight w ->
  retain_worker self custody workers a = (self', (f, workers', a')) ->
  joined 1 self self' (workers ++ w :: rest) (workers' ++ rest) a a' f.
Proof.
  intros Hsrc Hw. destruct custody as [role current startup|role rejection startup stopped|role current startup stopped];
    cbn [retain_worker].
  - destruct (reserve (shutdowns self.2) 1) as [s reserved].
    assert (Hc : config_kept self (set_shutdowns self s) /\ recovery (set_shutdowns self s).2 = recovery self.2).
    { destruct self. split; [|done]. split; auto. apply same_policy_refl. }
    destruct Hc as [Hc Hr].
    destruct (match reserved with Some ids => list.last ids | None => None end) as [i|];
      cbn [retire_worker]; intros [= <- <- <- <-]; split; auto;
      rewrite ?sum_list_with_app; cbn [sum_list_with].
    + apply keyed_drain_actions_shutdown.
    + change (draining_source (mkRetiring role _)) with 0. lia.
    + change (retiring_weight (mkRetiring role _)) with 2. lia.
    + intros _. rewrite !Forall_app, !list.Forall_cons. intros (? & ? & ?). by split_and!.
    + change (draining_source (mkRetiring role _)) with 0. lia.
    + change (retiring_weight (mkRetiring role _)) with 0. lia.
    + done.
  - intros [= <- <- <- <-]. split; auto using keyed_config_refl.
    + intros. by apply keyed_drain_actions_diagnosed.
    + rewrite !sum_list_with_app. simpl. lia.
    + rewrite !sum_list_with_app. simpl. lia.
    + intros _. rewrite !Forall_app, list.Forall_cons. intros (? & ? & ?). by split_and!.
  - intros [= <- <- <- <-]. split; auto using keyed_config_refl.
    + intros. by apply keyed_drain_actions_diagnosed.
    + rewrite !sum_list_with_app. simpl. lia.
    + rewrite !sum_list_with_app. simpl. lia.
    + intros _. rewrite !Forall_app, list.Forall_cons. intros (? & ? & ?). by split_and!.
Qed.

Lemma correlated_rejections_loop_ok l : forall self position returned draining f a self' draining' f' a',
  correlated_rejections_loop self position l returned draining f a = (self', (draining', f', a')) ->
  (f' = None -> f = None) /\ joined 0 self self' (draining ++ l) draining' a a' f'.
Proof.
  induction l as [|w l IH]; intros self position returned draining f a self' draining' f' a';
    cbn [correlated_rejections_loop].
  { intros [= <- <- <- <-]. rewrite app_nil_r. split; [done|apply keyed_joined_refl]. }
  destruct (bt_remove position returned) as [[[[i k] rejection] returned']|].
  2: { intros Hr. destruct (IH _ _ _ _ _ _ _ _ _ _ Hr) as [Hf Hj]. by rewrite <- app_assoc in Hj. }
  pose proof (accept_creation_rejection_weight w i k rejection) as Hw.
  destruct (accept_creation_rejection w _ _ _) as [custody|[[[w' i'] k'] back]].
  - destruct Hw as [Hsrc Hw]. destruct (retain_worker self custody draining a) as [self1 [[f1 draining1] a1]] eqn:Hret.
    intros Hr. destruct (IH _ _ _ _ _ _ _ _ _ _ Hr) as [Hf Hj].
    split; [intros H; by apply Hf, option_or_None in H as []|].
    apply (keyed_joined_fewer 0 1); [lia|]. rewrite <- (Nat.add_0_r 1).
    eapply keyed_joined_trans; [|by eapply keyed_retain_worker_joined|exact Hj]. intros H. by apply Hf, option_or_None in H as [].
  - subst w'. intros Hr. destruct (IH _ _ _ _ _ _ _ _ _ _ Hr) as [Hf Hj]. rewrite <- app_assoc in Hj.
    split; [done|]. by eapply keyed_joined_diagnosed; [|exact Hj].
Qed.

Lemma correlated_loop_ok l : forall self position returned draining f a self' draining' f' a',
  correlated_loop self position l returned draining f a = (self', (draining', f', a')) ->
  (f' = None -> f = None) /\ joined 0 self self' (draining ++ l) draining' a a' f' /\
  ((exists i w s c, l !! i = Some w /\ bt_get (position + i) returned = Some s /\ accept_creation w s = Ok c) ->
   joined 1 self self' (draining ++ l) draining' a a' f').
Proof.
  induction l as [|w l IH]; intros self position returned draining f a self' draining' f' a'; cbn [correlated_loop].
  { intros [= <- <- <- <-]. rewrite app_nil_r. split_and!; [done|apply keyed_joined_refl|].
    by intros (i & ? & ? & ? & H & _). }
  destruct (bt_remove position returned) as [[s returned']|] eqn:Hrem.
  - apply bt_remove_Some in Hrem as [Hget ->].
    pose proof (accept_creation_weight w s) as Hw. destruct (accept_creation w s) as [custody|[w' s']] eqn:Hacc.
    + destruct Hw as [Hsrc Hw]. destruct (retain_worker self custody draining a) as [self1 [[f1 draining1] a1]] eqn:Hret.
      intros Hr. destruct (IH _ _ _ _ _ _ _ _ _ _ Hr) as (Hf & Hj & _).
      assert (H1 : joined 1 self self' (draining ++ w :: l) draining' a a' f').
      { rewrite <- (Nat.add_0_r 1). eapply keyed_joined_trans; [|by eapply keyed_retain_worker_joined|exact Hj].
        intros H. by apply Hf, option_or_None in H as []. }
      split_and!; [intros H; by apply Hf, option_or_None in H as []| |done].
      apply (keyed_joined_fewer 0 1); [lia|done].
    + destruct Hw as [-> ->]. intros Hr. destruct (IH _ _ _ _ _ _ _ _ _ _ Hr) as (Hf & Hj & Hs).
      rewrite <- app_assoc in Hj, Hs. cbn [app] in Hj, Hs.
      split; [done|]. split; [by eapply keyed_joined_diagnosed; [|exact Hj]|].
      intros (i & w1 & s1 & c1 & Hl & Hg & Ha). eapply keyed_joined_diagnosed; [|apply Hs]; [done|].
      destruct i as [|i]; simpl in Hl; [rewrite Nat.add_0_r in Hg; simplify_eq; congruence|].
      exists i, w1, s1, c1. split_and!; [done| |done].
      rewrite bt_get_delete_ne by lia. rewrite <- Hg. f_equal; lia.
  - apply bt_remove_None in Hrem. intros Hr. destruct (IH _ _ _ _ _ _ _ _ _ _ Hr) as (Hf & Hj & Hs).
    rewrite <- app_assoc in Hj, Hs. split; [done|]. split; [done|]. intros (i & w1 & s1 & c1 & Hl & Hg & Ha). apply Hs.
    destruct i as [|i]; simpl in Hl; [rewrite Nat.add_0_r in Hg; simplify_eq; congruence|].
    exists i, w1, s1, c1. split_and!; [done| |done]. rewrite <- Hg. f_equal; lia.
Qed.

Lemma finish_creations_ok k self self1 l l' d f a self' r :
  drain_ok self l d -> joined k self self1 l l' keyed_cont a f ->
  finish_creations self1 l' d f a = (self', r) -> drained (S (outstanding l d) - k) self self' r.
Proof.
  intros [Ks Kr Kw Kd] [Jc Jr Ja Js Jw Jq]. unfold finish_creations.
  destruct f as [cause|]; intros [= <- <-].
  - split; [done|apply keyed_drain_actions_become, Ja, keyed_drain_actions_cont|done].
  - apply continue_retirement_ok; [done|congruence|auto| |apply Ja, keyed_drain_actions_cont].
    unfold outstanding. lia.
Qed.

Lemma reject_worker_creations_ok self l d creations rejection self' r (answered : Prop) :
  drain_ok self l d -> (answered -> False) -> reject_worker_creations self l d creations rejection = (self', r) ->
  drain_step self l d answered self' r.
Proof.
  intros Hok Hno. unfold reject_worker_creations.
  destruct (ordered_creation_positions _ _) as [positions|]; [|intros [= <- <-]; by apply keyed_drain_step_ignored].
  unfold accept_correlated_creation_rejections.
  destruct (correlated_rejections_loop _ _ _ _ _ _ _) as [self1 [[l' f] a]] eqn:Hloop.
  apply correlated_rejections_loop_ok in Hloop as [_ Hj]. intros Hr. split; [|done].
  by apply (finish_creations_ok 0 self self1 l l' d f a).
Qed.

Lemma accept_worker_creations_ok self l d workers self' r :
  drain_ok self l d -> accept_worker_creations self l d workers = (self', r) ->
  drain_step self l d (awaited_by l (Answer_Creations workers)) self' r.
Proof.
  intros Hok. destruct workers as [settlements|creations reason|creations fault]; cbn [accept_worker_creations].
  2, 3: apply reject_worker_creations_ok; [done|]; intros (w & _ & Ha); by destruct w as [role [|? ? [|[]]| | |]].
  destruct (mbind _ _) as [positions|] eqn:Hpos.
  - unfold accept_correlated_creations. destruct (correlated_loop _ _ _ _ _ _ _) as [self1 [[l' f] a]] eqn:Hloop.
    apply correlated_loop_ok in Hloop as (_ & Hj & Hs). intros Hr. split.
    { by apply (finish_creations_ok 0 self self1 l l' d f a). }
    intros Ha. apply (keyed_drained_weaken (S (outstanding l d) - 1)); [lia|].
    apply (finish_creations_ok 1 self self1 l l' d f a); [done| |done]. apply Hs.
    destruct (creation_awaited l settlements _ Ha Hpos) as (p & w & c & s & [= ->] & -> & Hl & Hacc).
    exists p, w, s, c. split_and!; [done| |done]. cbn. by rewrite bool_decide_true.
  - intros [= <- <-]. apply keyed_drain_step_ignored; [done|]. intros Ha.
    by destruct (creation_awaited l settlements _ Ha Hpos) as (p & w & c & s & ? & _).
Qed.

End KeyedDrain.
