(* ===== verification/KeyedRun.v ===== *)
(** * Creations, commands and steps of the keyed pool

    The settlement of creations, submissions with their affinity, binding
    commands against their contract [managed], and one step of [transition] in
    every state. *)

From stdpp Require Import base list list_numbers option numbers sorting.
From S2P Require Import Prelude Effects BTreeMap Timers Restart Termination Settlement Interpretation Creation Workers.
From S2P Require Import WorkerPreparation WorkerStartup ProxyWorker PoolAssignment PoolPolicy PoolWorker PoolMembers.
From S2P Require Import PoolDrain KeyedBinding KeyedProtocol KeyedRetirement KeyedPool KeyedRecovery.
From S2P Require Import KeyedTransition KeyedInvariant KeyedHandlers KeyedDrain.

Section KeyedDesk.
  Context `{KT : KeyedTypes}.

Abbreviation keyed_ok := (keyed_inv awaited).
Abbreviation taken o p := (with_roles o (base.delete p (roles o))).

(** ** Creation settlements *)

Lemma replies_append (a b : KeyedActions) c d :
  replies (mkActions (sends_append (sends a) (sends b)) c d) = replies a ++ replies b.
Proof. unfold replies; cbn. apply fmap_app. Qed.

Lemma clean_append (a b : KeyedActions) c d :
  clean a -> clean b -> clean (mkActions (sends_append (sends a) (sends b)) c d).
Proof. unfold clean; cbn. intros. by apply Forall_app. Qed.

(** The rest of a batch is read by the pool that no longer operates. *)
Lemma settle_rest_ok base J a0 self self1 s a remaining self2 r :
  result_ok base J a0 self self1 (s, a) -> (forall o, s <> State_Operating o) ->
  settle_rest self1 s a remaining = (self2, r) -> result_ok base J a0 self self2 r.
Proof.
  intros [Rc Ra Rs] Hs. cbn [fst snd] in *.
  assert (Hj : state_jobs s = []) by (destruct s; try done; by destruct (Hs o)). rewrite Hj in Ra.
  assert (Hacc : forall b c d, replies b = [] -> clean b -> accounted J a0 [] (mkActions (sends_append (sends a) (sends b)) c d)).
  { intros b c d Hb Hc. eapply keyed_accounted_trans; [exact Ra|]. split.
    - exists [], []. rewrite replies_append, Hb. by split_and!.
    - intros Ha. by apply clean_append. }
  destruct s as [p|o|l d| |l cause]; cbn [settle_rest ended] in *; [done|by destruct (Hs o)|..].
  - destruct (accept_worker_creations self1 l d remaining) as [self3 [s3 a3]] eqn:Hcr.
    destruct (accept_worker_creations_ok _ _ _ _ _ _ Rs Hcr) as [[Dc [_ Dcl Dr] Ds] _]. intros [= <- <-].
    cbn [fst snd] in *. split; cbn [fst snd].
    + by eapply keyed_config_trans.
    + assert (Hj3 : state_jobs s3 = []) by (by destruct s3). rewrite Hj3. by apply Hacc.
    + destruct s3; try done. by destruct Ds.
  - intros [= <- <-]. split; [done| |done]. cbn [fst snd state_jobs].
    apply (Hacc (diagnose self1 State_Stopped (Event_WorkerCreationsSettled remaining)).2); [done|].
    apply (drain_clean _ (keyed_drain_actions_diagnose self1 State_Stopped (Event_WorkerCreationsSettled remaining))).
  - intros [= <- <-]. split; [done| |done]. cbn [fst snd state_jobs].
    apply (Hacc (diagnose self1 (State_ForcedRetirement l cause) (Event_WorkerCreationsSettled remaining)).2); [done|].
    apply (drain_clean _ (keyed_drain_actions_diagnose self1 (State_ForcedRetirement l cause) (Event_WorkerCreationsSettled remaining))).
Qed.

(** A creating role ends without its worker. *)
Lemma creation_rejected_ok self o p m q capacity rec a J a0 self0 self' r :
  keyed_ok self o -> roles o !! p = Some (mkCell m q capacity) -> (exists c, member_state m = Member_Creating c) ->
  config_kept self0 self -> accounted J a0 (held (roles o)) a ->
  retire_unrecovered_worker self (taken o p) p (member_role m) rec q capacity a = (self', r) ->
  result_ok o J a0 self0 self' r.
Proof.
  intros Hok Hc [c Hm] Hcfg Ha Hr. destruct m as [role rec' st]. cbn in Hm. subst st.
  destruct (opened_start _ _ _ _ _ _ Hok Hc ltac:(done)) as [Hop Hh]. cbn in Hop, Hh. rewrite Hh in Ha.
  eapply keyed_result_ok_from; [apply keyed_accounted_refl|exact Hcfg|].
  eapply retire_unrecovered_worker_ok; [exact Hok|exact Hop|apply keyed_config_refl| |exact Ha|exact Hr].
  eapply crew_light; [..|apply crew_returned; by apply (keyed_crew _ _ _ _ Hok Hc)]; done.
Qed.

Lemma roles_length (o o' : KeyedOperating) : follows o o' -> length (roles o') = length (roles o).
Proof. intros [H _]. apply (f_equal length) in H. unfold role_names in H. by rewrite !length_fmap in H. Qed.

Lemma put_back o p c : roles o !! p = Some c -> put_cell (taken o p) p c = o.
Proof. intros Hc. rewrite (put_taken _ _ _ _ Hc), list_insert_id by done. by destruct o. Qed.

(** [loop] settles the entries of [received], which are at roles of the pool. *)
Definition settles {X} (loop : Self -> KeyedOperating -> @BTreeMap nat X -> KeyedActions ->
  option (Self * (KeyedPoolState * KeyedActions))) (received : @BTreeMap nat X) : Prop :=
  forall self o a J a0 self0, keyed_ok self o -> Forall (fun kv => kv.1 < length (roles o)) received ->
    config_kept self0 self -> accounted J a0 (held (roles o)) a ->
    exists self' r, loop self o received a = Some (self', r) /\ result_ok o J a0 self0 self' r.

(** The loop goes on after a cell was replaced or diagnosed. *)
Lemma settles_next {X} loop (received : @BTreeMap nat X) self o o' a' J a0 self0 :
  settles loop received -> keyed_ok self o' -> follows o o' ->
  Forall (fun kv => kv.1 < length (roles o)) received -> config_kept self0 self ->
  accounted J a0 (held (roles o')) a' ->
  exists self' r, loop self o' received a' = Some (self', r) /\ result_ok o J a0 self0 self' r.
Proof.
  intros Hloop Hok Hn Hf Hcfg Ha. rewrite <- (roles_length _ _ Hn) in Hf.
  destruct (Hloop self o' a' J a0 self0 Hok Hf Hcfg Ha) as (self' & r & Hr & Hres).
  exists self', r. split; [done|by eapply result_ok_after].
Qed.

(** The loop goes on after a role ended, or leaves the rest of the batch. *)
Lemma settles_rejected {X} loop (received : @BTreeMap nat X) rest o J a0 self0 self1 s1 a1 :
  settles loop received -> Forall (fun kv => kv.1 < length (roles o)) received ->
  result_ok o J a0 self0 self1 (s1, a1) ->
  exists self' r, match s1 with
    | State_Operating o' => loop self1 o' received a1
    | s => Some (match received with [] => (self1, (s, a1)) | _ => settle_rest self1 s a1 rest end)
    end = Some (self', r) /\ result_ok o J a0 self0 self' r.
Proof.
  intros Hloop Hf Hres.
  assert (Hrest : (forall o', s1 <> State_Operating o') -> exists self' r,
    Some (match received with [] => (self1, (s1, a1)) | _ => settle_rest self1 s1 a1 rest end) = Some (self', r) /\
    result_ok o J a0 self0 self' r).
  { intros Hs. destruct received; [by eexists _, _|].
    destruct (settle_rest self1 s1 a1 rest) as [self2 r2] eqn:Hr. eexists _, _. split; [done|]. by eapply settle_rest_ok. }
  destruct s1 as [|o'| | |]; try by apply Hrest.
  destruct Hres as [Rc Ra [Hok Hn]]. by eapply settles_next.
Qed.

Lemma keyed_creations_loop_ok received : settles creations_loop received.
Proof.
  induction received as [|[p s] received IH]; intros self o a J a0 self0 Hok Hf Hcfg Ha; cbn [creations_loop].
  { eexists _, _. split; [done|]. by split; [..|split; [|apply follows_refl]]. }
  inversion_clear Hf as [|? ? Hp Hf']. cbn in Hp.
  destruct (lookup_lt_is_Some_2 _ _ Hp) as [[m q capacity] Hc]. rewrite Hc. cbn [mbind option_bind].
  pose proof (admit_creation_spec m s) as Hspec.
  destruct (PoolWorker.admit_creation m s) as [m' request|m' role rejection startup stopped|m' creation].
  - destruct Hspec as [Hw Hn]. destruct (keyed_same_member _ _ _ _ _ _ _ Hok Hc Hw) as (H1 & H2 & H3); [done|].
    rewrite (put_taken _ _ _ _ Hc). eapply settles_next; [exact IH|exact H1|exact H2|done|done|].
    cbn [with_roles roles]. rewrite H3. eapply keyed_accounted_trans; [exact Ha|by apply keyed_accounted_same].
  - destruct Hspec as (Hw & -> & Hcr). destruct (retire_unrecovered_worker _ _ _ _ _ _ _ _) as [self1 [s1 a1]] eqn:Hr.
    assert (Hres : result_ok o J a0 self0 self1 (s1, a1)).
    { eapply creation_rejected_ok; [exact Hok|exact Hc|exact Hcr|exact Hcfg| |exact Hr].
      eapply keyed_accounted_trans; [exact Ha|by apply keyed_accounted_diagnosed]. }
    destruct (settles_rejected creations_loop received (Creation_Settled (mkCreations received.*2)) o _ _ _ _ _ _ IH Hf' Hres)
      as (self' & r & Hrun & Hok'). exists self', r. split; [|done]. by destruct s1.
  - subst m'. rewrite (put_back _ _ _ Hc). eapply settles_next; [exact IH|exact Hok|apply follows_refl|done|done|].
    eapply keyed_accounted_trans; [exact Ha|by apply keyed_accounted_diagnosed].
Qed.

Lemma keyed_reject_batch_loop_ok rejection received : settles (fun self => reject_batch_loop self rejection) received.
Proof.
  induction received as [|[p s] received IH]; intros self o a J a0 self0 Hok Hf Hcfg Ha; cbn [reject_batch_loop].
  { eexists _, _. split; [done|]. by split; [..|split; [|apply follows_refl]]. }
  inversion_clear Hf as [|? ? Hp Hf']. cbn in Hp.
  destruct (lookup_lt_is_Some_2 _ _ Hp) as [[[role rec st] q capacity] Hc]. rewrite Hc. cbn [mbind option_bind].
  destruct st as [w| | |];
    [|unfold put; rewrite (put_back _ _ _ Hc); eapply (settles_next (fun self => reject_batch_loop self rejection));
      [exact IH|exact Hok|apply follows_refl|done|done|]; eapply keyed_accounted_trans; [exact Ha|by apply keyed_accounted_diagnosed]..].
  destruct (retire_unrecovered_worker _ _ _ _ _ _ _ _) as [self1 [s1 a1]] eqn:Hr.
  assert (Hres : result_ok o J a0 self0 self1 (s1, a1)).
  { eapply creation_rejected_ok; [exact Hok|exact Hc|by eexists|exact Hcfg| |exact Hr].
    eapply keyed_accounted_trans; [exact Ha|by apply keyed_accounted_diagnosed]. }
  destruct (settles_rejected (fun self => reject_batch_loop self rejection) received
    (batch_settlement rejection (mkCreations received.*2)) o _ _ _ _ _ _ IH Hf' Hres)
    as (self' & r & Hrun & Hok'). exists self', r. split; [|done]. by destruct s1.
Qed.

Lemma creation_positions_bounded o identities positions {X} (l : list X) :
  creation_positions o identities = Some positions ->
  Forall (fun kv => kv.1 < length (roles o)) (collect_map (zip positions l)).
Proof.
  intros H%ordered_positions_bounded. rewrite length_fmap in H. apply (collect_map_keys (fun p => p < length (roles o))).
  apply list.Forall_forall. intros [p x] Hin%elem_of_zip_l. exact (proj1 (list.Forall_forall _ _) H p Hin).
Qed.

Lemma reject_creation_batch_ok self o creations rejection :
  keyed_ok self o -> exists r, reject_creation_batch self o creations rejection = Some r /\ handled self o r.
Proof.
  intros Hok. unfold reject_creation_batch. destruct (creation_positions _ _) as [positions|] eqn:Hp.
  2: { eexists. split; [done|by apply handed_back]. }
  destruct (keyed_reject_batch_loop_ok rejection (collect_map (zip positions (items creations))) self o keyed_cont
    (held (roles o)) keyed_cont self Hok) as (self' & r & -> & Hr); auto using keyed_config_refl, keyed_accounted_refl.
  - by eapply creation_positions_bounded.
  - by eexists.
Qed.

Lemma keyed_accept_creations_ok self o workers :
  keyed_ok self o -> exists r, accept_creations self o workers = Some r /\ handled self o r.
Proof.
  intros Hok. destruct workers as [settlements|creations reason|creations fault]; cbn [accept_creations].
  2, 3: by apply reject_creation_batch_ok.
  destruct (mapM creation_identity (items settlements)) as [identities|]; cbn [mbind option_bind].
  2: { eexists. split; [done|by apply handed_back]. }
  destruct (creation_positions o identities) as [positions|] eqn:Hp.
  2: { eexists. split; [done|by apply handed_back]. }
  destruct (keyed_creations_loop_ok (collect_map (zip positions (items settlements))) self o keyed_cont
    (held (roles o)) keyed_cont self Hok) as (self' & r & -> & Hr); auto using keyed_config_refl, keyed_accounted_refl.
  - by eapply creation_positions_bounded.
  - by eexists.
Qed.

(** ** Submissions *)

(** Configuration is kept, and at most one job number is issued. *)
Record advanced (self self' : Self) : Prop := {
  advanced_limit : startup_limit self'.2 = startup_limit self.2;
  advanced_policy : same_policy (recovery self.2) (recovery self'.2);
  advanced_capacity : binding_capacity self'.2 = binding_capacity self.2;
  advanced_selector : selector self'.2 = selector self.2;
  advanced_jobs : jobs self'.2 = jobs self.2 \/
    exists v, next_job (jobs self.2) = Some v /\ jobs self'.2 = mkJobSequence (checked_add u64_max v 1)
}.

Lemma keyed_config_advanced self self' : config_kept self self' -> advanced self self'.
Proof. intros []. split; auto. Qed.

Lemma keyed_advanced_config self1 self2 self3 : advanced self1 self2 -> config_kept self2 self3 -> advanced self1 self3.
Proof.
  intros [H1 H2 H3 H4 H5] [C1 C2 C3 C4 C5 C6]. split; [congruence|by eapply same_policy_trans|congruence..|].
  by rewrite C3.
Qed.

Lemma role_cell_Some o role p c : role_cell o role = Some (p, c) -> roles o !! p = Some c /\ cell_role c = role.
Proof.
  unfold role_cell, role_position. destruct (position _ _) as [p'|] eqn:Hp; [|done]. cbn.
  apply position_Some in Hp as (c' & Hc & Hr & _). rewrite Hc. cbn. intros [= <- <-].
  by apply bool_decide_eq_true in Hr.
Qed.

(** A proposal names a role of the pool, and its commit binds the key to it. *)
Lemma propose_binding_spec next self o key : desk_inv next o ->
  let '(o1, r) := propose_binding self o key in
  roles o1 = roles o /\ desk_inv next o1 /\ table_capacity (affinity o1) = table_capacity (affinity o) /\
  tabled (affinity o) (affinity o1) /\
  match r with
  | Err (k, _) => k = key
  | Ok (p, c, proposed) => roles o !! p = Some c /\ admission_reject proposed = key /\
      let '(t, e) := admission_commit (affinity o1) proposed in
      (~ retired c -> desk_inv next (with_affinity o1 t)) /\ evidence_role e = cell_role c /\
      table_capacity t = table_capacity (affinity o) /\ tabled (affinity o) t /\ binding t key = Some e /\
      match binding (affinity o) key with Some e0 => e = e0 | None => evidence_role e = selector self.2 key end
  end.
Proof.
  intros Hd. pose proof (desk_table _ _ Hd) as Ht. unfold propose_binding.
  destruct (binding (affinity o) key) as [e|] eqn:Hb.
  - destruct (role_cell o (evidence_role e)) as [[p c]|] eqn:Hr; [|by split_and!; auto using tabled_refl].
    apply role_cell_Some in Hr as [Hc Hrole]. split_and!; auto using tabled_refl. cbn. destruct o.
    by split_and!; auto using tabled_refl.
  - destruct (role_cell o (selector self.2 key)) as [[p c]|] eqn:Hr; [|by split_and!; auto using tabled_refl].
    apply role_cell_Some in Hr as [Hc Hrole].
    pose proof (reserve_spec (affinity o) key (member_role (cell_member c)) Ht) as Hsp.
    pose proof (reserve_tabled (affinity o) key (member_role (cell_member c))) as Htab.
    destruct (reserve_binding (affinity o) key (member_role (cell_member c))) as [t1 r].
    destruct Hsp as (Ht1 & Hbs & Hcap & Hres). destruct Htab as [Htab Htab2].
    assert (Hd1 : desk_inv next (with_affinity o t1)).
    { apply desk_tabled; [done|done|]. rewrite Hbs. apply Hd. }
    destruct r as [res|[k|k|k]].
    2-4: destruct Hres as (-> & -> & _); by split_and!.
    destruct Hres as (_ & _ & Hkey & _ & Hcommit). split_and!; try done. cbn [admission_commit affinity with_affinity].
    specialize (Htab2 res eq_refl).
    destruct (commit_binding t1 res) as [t2 e]. destruct Hcommit as (-> & Ht2 & Hcap2 & Hp2).
    split_and!; [|done|congruence|done| |by cbn].
    + intros Hn. apply (desk_tabled next o); [done|done|]. rewrite Hp2. constructor; [|apply Hd].
      exists c. split_and!; [by eapply list_elem_of_lookup_2|by cbn|done].
    + apply binding_Some; [done|]. rewrite Hp2. by left.
Qed.

(** A cell takes one more job. *)
Lemma desk_add next next' o p c c' j :
  desk_inv next o -> roles o !! p = Some c -> cell_role c' = cell_role c -> cell_ok c' -> ~ retired c' ->
  cell_jobs c' ≡ₚ j :: cell_jobs c -> job_ordinal j ∉ (job_ordinal <$> held (roles o)) ->
  admissible next' j -> (forall x, below next x -> below next' x) ->
  desk_inv next' (with_roles o (<[p := c']> (roles o))) /\ held (<[p := c']> (roles o)) ≡ₚ j :: held (roles o).
Proof.
  intros [D1 D2 D3 D4 D5] Hc Hr Hok Hn Hj Hf Ha Hmono. destruct (cell_split _ _ _ c' Hc) as [S1 S2].
  assert (Hh : held (<[p := c']> (roles o)) ≡ₚ j :: held (roles o)).
  { rewrite S2. rewrite S1 at 2. rewrite !keyed_held_cons, Hj. done. }
  split; [|done]. split; cbn [with_roles roles affinity]; auto.
  - rewrite S2. rewrite S1 in D1. inversion_clear D1. by constructor.
  - rewrite Hh. by constructor.
  - rewrite Hh. constructor; [done|]. eapply Forall_impl; [exact D3|]. intros x [H1 H2]. split; auto.
  - eapply Forall_impl; [exact D5|]. cbn. intros b. eapply live_replace; [exact Hc|done|]. by intros ?%Hn.
Qed.

Lemma keyed_set_jobs_2 self j :
  startup_limit (set_jobs self j).2 = startup_limit self.2 /\ recovery (set_jobs self j).2 = recovery self.2 /\
  restarts (set_jobs self j).2 = restarts self.2 /\ assignments (set_jobs self j).2 = assignments self.2 /\
  jobs (set_jobs self j).2 = j /\ binding_capacity (set_jobs self j).2 = binding_capacity self.2 /\
  selector (set_jobs self j).2 = selector self.2.
Proof. by destruct self. Qed.

Lemma keyed_set_jobs_same self : set_jobs self (jobs self.2) = self.
Proof. by destruct self as [? []]. Qed.

(** Jobs of the pool after a number was issued. *)
Lemma desk_issued next v o : desk_inv next o -> next = Some v -> desk_inv (checked_add u64_max v 1) o.
Proof.
  intros [D1 D2 D3 D4 D5] ->. split; auto. eapply Forall_impl; [exact D3|].
  intros j [H1 H2]. split; [done|]. by apply below_checked_add.
Qed.

Lemma fresh_job v payload route e o : desk_inv (Some v) o ->
  let j := mkCustomerJob (mkJobId v) (mkOrdinal v) payload (mkKeyedCustomer e route) in
  (job_ordinal j ∉ (job_ordinal <$> held (roles o))) /\ admissible (checked_add u64_max v 1) j.
Proof.
  intros Hd j. split; [|split; [done|apply below_next]].
  intros (j' & Hj' & Hin)%list_elem_of_fmap. pose proof (desk_jobs _ _ Hd) as Hj. rewrite list.Forall_forall in Hj.
  specialize (Hj _ Hin) as [_ Hb]. unfold job_ordinal in *. cbn in *. lia.
Qed.

(** The answer to a submission: refused with its key and payload, or accepted as
    one new job under the binding of its key, which is the one it had or a new
    one to the selected role. *)
Definition submission_answered (self self' : Self) (submission : SubmissionId) (key : Key) (payload : Job)
  (customer : CustomerRoute) (o o' : KeyedOperating) (a : KeyedActions) : Prop :=
  (exists reason, replies a = [(customer, Keyed_Rejected submission key payload reason)] /\
     held (roles o') ≡ₚ held (roles o)) \/
  (exists j, job_route j = customer /\ job_payload j = payload /\ held (roles o') ≡ₚ j :: held (roles o) /\
     replies a = [(customer, Keyed_Accepted submission (job_id j) (job_binding j))] /\
     next_job (jobs self.2) = Some (job_number (job_id j)) /\
     jobs self'.2 = mkJobSequence (checked_add u64_max (job_number (job_id j)) 1) /\
     binding (affinity o') key = Some (job_binding j) /\
     match binding (affinity o) key with
     | Some e => job_binding j = e
     | None => evidence_role (job_binding j) = selector self.2 key
     end).

(** An operating pool after a command. *)
Record desk_step (self self' : Self) (o o' : KeyedOperating) (a : KeyedActions) : Prop := {
  step_ok : keyed_ok self' o';
  step_follows : follows o o';
  step_advanced : advanced self self';
  step_clean : clean a
}.

Lemma admission_target_spec c :
  match admission_target c with
  | Target_Assign => is_idle (cell_member c) = true
  | Target_Queue => is_idle (cell_member c) = false /\ ~ retired c
  | Target_QueueFull | Target_Unavailable => True
  end.
Proof.
  destruct c as [[role rec st] q capacity]. unfold admission_target, retired; cbn.
  destruct st as [w|[current []]|r|]; cbn; try (destruct stopped); try done;
    unfold queue_target; destruct (_ <? _); done.
Qed.

Lemma assign_kept self w payload asg m self' assigned :
  assign (assignments self.2) w payload = (asg, m) -> alloc (set_assignments self asg) m = (self', assigned) ->
  kept self self'.
Proof.
  destruct self as [n p]. unfold assign, assignments_issue, alloc. cbn [snd fst].
  destruct (next_assignment (assignments p)) as [i|] eqn:Hn; intros [= <- <-]; cbn -[checked_add u64_max]; intros [= <- <-];
    split; cbn; congruence.
Qed.

Lemma keyed_tabled self o o1 : keyed_ok self o -> roles o1 = roles o -> desk_inv (next_job (jobs self.2)) o1 ->
  table_capacity (affinity o1) = table_capacity (affinity o) -> keyed_ok self o1.
Proof. intros [I1 I2 I3 I4] Hr Hd Ht. split; unfold members in *; rewrite ?Hr; auto. congruence. Qed.

Lemma keyed_issued self o v : keyed_ok self o -> next_job (jobs self.2) = Some v ->
  keyed_ok (set_jobs self (mkJobSequence (checked_add u64_max v 1))) o.
Proof. intros [I1 I2 I3 I4] Hv. destruct self as [n p]. split; auto. cbn. by eapply desk_issued. Qed.

Lemma keyed_issued_advanced self self1 v : next_job (jobs self.2) = Some v ->
  kept (set_jobs self (mkJobSequence (checked_add u64_max v 1))) self1 -> advanced self self1.
Proof.
  intros Hv Hk. eapply keyed_advanced_config; [|by apply keyed_kept_config]. destruct self as [n p].
  split; cbn; auto; [apply same_policy_refl|right; by exists v].
Qed.

Lemma rejected_step self self1 o o1 submission key payload customer reason :
  keyed_ok self1 o1 -> roles o1 = roles o -> tabled (affinity o) (affinity o1) -> advanced self self1 ->
  let '(o', a') := reject_submission o1 submission key payload customer reason in
  desk_step self self1 o o' a' /\ submission_answered self self1 submission key payload customer o o' a'.
Proof.
  intros Hok Hr Ht Ha. cbn. split; [split; [done|by split; [rewrite Hr|]|done|constructor]|]. left. exists reason.
  split; [by destruct customer|by rewrite Hr].
Qed.

(** What the cell that takes the new job [j] has to be. *)
Record takes (c c' : RoleCell) (j : CustomerJob) : Prop := {
  takes_ok : cell_ok c';
  takes_role : member_role (cell_member c') = member_role (cell_member c);
  takes_live : ~ retired c';
  takes_idle : is_idle (cell_member c') = false;
  takes_jobs : cell_jobs c' ≡ₚ j :: cell_jobs c;
  takes_starting : starting (cell_member c') <= starting (cell_member c);
  takes_stalled : stalled (cell_member c') <= stalled (cell_member c);
  takes_preparing : preparing (cell_member c') = preparing (cell_member c)
}.

Lemma admitted_step self self1 o o1 p c c' t v e submission key payload customer a :
  let j := mkCustomerJob (mkJobId v) (mkOrdinal v) payload (mkKeyedCustomer e customer) in
  keyed_ok self o -> roles o1 = roles o -> roles o !! p = Some c -> next_job (jobs self.2) = Some v ->
  desk_inv (Some v) (with_affinity o1 t) -> table_capacity t = table_capacity (affinity o) -> tabled (affinity o) t ->
  kept (set_jobs self (mkJobSequence (checked_add u64_max v 1))) self1 -> takes c c' j ->
  same_account (answers customer (Keyed_Accepted submission (mkJobId v) e) keyed_cont) a ->
  binding t key = Some e ->
  match binding (affinity o) key with Some e0 => e = e0 | None => evidence_role e = selector self.2 key end ->
  let o' := with_roles (with_affinity o1 t) (<[p := c']> (roles o1)) in
  desk_step self self1 o o' a /\ submission_answered self self1 submission key payload customer o o' a.
Proof.
  intros j Hok Hr Hc Hv Hd Hcap Htab Hk [T1 T2 T3 T4 T5 T6 T7 T8] [Ha1 Ha2] Hb Hsel o'.
  destruct (fresh_job v payload customer e (with_affinity o1 t) Hd) as [Hfresh Hadm]. fold j in Hfresh, Hadm.
  assert (Hc1 : roles (with_affinity o1 t) !! p = Some c) by (cbn; by rewrite Hr).
  destruct (desk_add (Some v) (checked_add u64_max v 1) (with_affinity o1 t) p c c' j Hd Hc1) as [Hd' Hh]; auto.
  { unfold cell_role. by rewrite T2. }
  { intros x. by apply below_checked_add. }
  pose proof (keyed_issued self o v Hok Hv) as Hok1.
  assert (Hok' : keyed_ok self1 o').
  { eapply keyed_inv_kept; [exact Hk|]. destruct Hok1 as [_ I2 I3 I4]. split.
    - by destruct self.
    - cbn. destruct (cell_split _ _ _ c' Hc) as [S1 S2]. rewrite Hr, S2. rewrite S1 in I2. inversion_clear I2.
      constructor; [|done]. intros Hi. congruence.
    - eapply crew_perm; [symmetry; apply (members_split (with_affinity o1 t) p c c' Hc1)|].
      apply (crew_replace _ _ _ _ (cell_member c)); [done..|]. eapply crew_perm; [|exact I3].
      unfold members. rewrite <- Hr. apply (members_split (with_affinity o1 t) p c c' Hc1).
    - by rewrite <- I4. }
  assert (Hcl : clean a) by (unfold clean in *; by rewrite Ha2).
  split; [split; [done| |by eapply keyed_issued_advanced|done]|].
  - split; [|done]. cbn. rewrite Hr. by eapply role_names_replace.
  - right. exists j. cbn in Hh. rewrite Hr in Hh at 2. split_and!; try done.
    + rewrite Ha1. apply keyed_replies_answers.
    + rewrite (kept_jobs _ _ Hk). by destruct self.
Qed.

Lemma keyed_accept_submission_ok self o submission key payload customer self' o' a' :
  keyed_ok self o -> accept_submission self o submission key payload customer = (self', (o', a')) ->
  desk_step self self' o o' a' /\ submission_answered self self' submission key payload customer o o' a'.
Proof.
  intros Hok. unfold accept_submission.
  pose proof (propose_binding_spec _ self o key (ok_desk _ _ _ Hok)) as Hsp.
  destruct (propose_binding self o key) as [o1 r]. destruct Hsp as (Hr & Hd1 & Hcap & Htab & Hres).
  pose proof (keyed_tabled _ _ _ Hok Hr Hd1 Hcap) as Hok1.
  assert (Href : forall self1 reason, keyed_ok self1 o1 -> advanced self self1 ->
    let '(o', a') := reject_submission o1 submission key payload customer reason in
    desk_step self self1 o o' a' /\ submission_answered self self1 submission key payload customer o o' a')
    by (intros; by apply rejected_step).
  destruct r as [[[p c] proposed]|[k reason]].
  2: { subst k. intros [= <- <- <-]. apply Href; [done|apply keyed_config_advanced, keyed_config_refl]. }
  destruct Hres as (Hc & -> & Hcommit). pose proof (admission_target_spec c) as Htgt.
  destruct (admission_target c).
  3, 4: intros [= <- <- <-]; apply Href; [done|apply keyed_config_advanced, keyed_config_refl].
  all: unfold jobs_issue; destruct (next_job (jobs self.2)) as [v|] eqn:Hv.
  2, 4: rewrite keyed_set_jobs_same; intros [= <- <- <-]; apply Href; [done|apply keyed_config_advanced, keyed_config_refl].
  all: set (self1 := set_jobs self (mkJobSequence (checked_add u64_max v 1))).
  all: assert (Hissued : keyed_ok self1 o1) by (apply keyed_issued; [done|done]).
  all: destruct (keyed_cell _ _ _ _ Hok Hc) as (Hcell & _ & _).
  - destruct c as [m q capacity]. apply is_idle_inv in Htgt as (role & rec & current & Hm). cbn in Hm. subst m.
    destruct (assign _ _ _) as [asg m] eqn:Has. destruct (alloc _ m) as [self2 assigned] eqn:Hal.
    pose proof (assign_kept _ _ _ _ _ _ _ Has Hal) as Hk.
    destruct assigned as [[correlation assignment]|].
    2: { intros [= <- <- <-]. apply Href; [by eapply keyed_inv_kept|by eapply keyed_issued_advanced]. }
    destruct (admission_commit (affinity o1) proposed) as [t e]. destruct Hcommit as (Hd2 & He & Hcap2 & Htab2 & Hb & Hsel).
    intros [= <- <- <-]. eapply (admitted_step self self2 o o1 p _ _ t v e); try done; [by apply Hd2|].
    split; try done.
    + destruct Hcell as [C1 C2 C3 C4]. split; cbn; auto; [|done]. unfold cell_jobs, cell_role in *. cbn in *.
      rewrite app_nil_r in C3. apply Forall_app. split; [done|]. by constructor.
    + unfold cell_jobs; cbn. rewrite app_nil_r. by rewrite Permutation_app_comm.
  - destruct Htgt as [Hidle Hlive].
    destruct (admission_commit (affinity o1) proposed) as [t e]. destruct Hcommit as (Hd2 & He & Hcap2 & Htab2 & Hb & Hsel).
    intros [= <- <- <-].
    set (j := mkCustomerJob (mkJobId v) (mkOrdinal v) payload (mkKeyedCustomer e customer)).
    destruct (fresh_job v payload customer e _ (Hd2 Hlive)) as [Hfresh _]. fold j in Hfresh.
    assert (Hfq : job_ordinal j ∉ (job_ordinal <$> queued_jobs (cell_queue c))).
    { intros Hin. apply Hfresh. change (roles (with_affinity o1 t)) with (roles o1). rewrite Hr. destruct (cell_split _ _ _ c Hc) as [S1 _]. rewrite S1, keyed_held_cons.
      unfold cell_jobs. rewrite !fmap_app, !elem_of_app. by left; left. }
    destruct Hcell as [C1 C2 C3 C4]. destruct (keyed_bt_insert_fresh _ j C1 C2 Hfq) as (B1 & B2 & B3).
    eapply (admitted_step self self1 o o1 p _ _ t v e); try done; [by apply Hd2|].
    assert (Hj : cell_jobs (mkCell (cell_member c) (bt_insert (mkOrdinal v) j (cell_queue c)) (cell_capacity c))
      ≡ₚ j :: cell_jobs c) by exact (Permutation_app_tail _ B3).
    split; try done. split; [exact B1|exact B2| |done].
    eapply Permutation_Forall; [symmetry; exact Hj|]. by constructor.
Qed.

(** ** Binding management

    The contract of a command: compare and swap on a bounded map from keys to
    evidence.  The expectation is compared with the binding of the key; the
    change is refused, or made with the next generation. *)

Definition expectation_of (e : option (BindingEvidence Role)) : BindingExpectation :=
  match e with Some e => Expect_Exact (generation e) | None => Expect_Absent end.

(** Only the binding of [key] changed. *)
Definition updated (o o' : KeyedOperating) (key : Key) (e : option (BindingEvidence Role)) : Prop :=
  forall k, binding (affinity o') k = if bool_decide (k = key) then e else binding (affinity o) k.

(** The evidence has the next generation of the table. *)
Definition next_evidence (o : KeyedOperating) (target : Role) (e : BindingEvidence Role) : Prop :=
  next_generation (generations (affinity o)) = Some (generation_ordinal (generation e)) /\ evidence_role e = target.

Definition has_room (o : KeyedOperating) : Prop :=
  length (bindings (affinity o)) < bindings_maximum (table_capacity (affinity o)).

(** The role that a command names, when there is one. *)
Definition target_of (o : KeyedOperating) (role : Role) : option ManagementTarget :=
  management_target ∘ snd <$> role_cell o role.

Inductive managed (o : KeyedOperating) (c : BindingCommand) : KeyedOperating -> BindingReply -> Prop :=
| managed_stale :
    command_expected c <> expectation_of (binding (affinity o) (command_key c)) ->
    managed o c o (Reply_Rejected c (Binding_StaleExpectation (expectation_of (binding (affinity o) (command_key c)))))
| managed_current reply o' :
    command_expected c = expectation_of (binding (affinity o) (command_key c)) ->
    changed o c (command_change c) (binding (affinity o) (command_key c)) o' reply ->
    managed o c o' reply
with changed (o : KeyedOperating) (c : BindingCommand) :
  BindingChange -> option (BindingEvidence Role) -> KeyedOperating -> BindingReply -> Prop :=
| changed_unknown target current : target_of o target = None ->
    changed o c (Rebalance target) current o (Reply_Rejected c Binding_UnknownTarget)
| changed_unavailable target current : target_of o target = Some Management_Unavailable ->
    changed o c (Rebalance target) current o (Reply_Rejected c Binding_TargetUnavailable)
| changed_full target : target_of o target = Some Management_Bindable -> ~ has_room o ->
    changed o c (Rebalance target) None o (Reply_Rejected c Binding_CapacityExhausted)
| changed_exhausted target current : target_of o target = Some Management_Bindable ->
    match current with Some e => evidence_role e <> target | None => has_room o end ->
    next_generation (generations (affinity o)) = None ->
    changed o c (Rebalance target) current o (Reply_Rejected c Binding_GenerationExhausted)
| changed_bound target e o' : target_of o target = Some Management_Bindable -> has_room o ->
    next_evidence o target e -> updated o o' (command_key c) (Some e) ->
    changed o c (Rebalance target) None o' (Reply_Bound (command_request c) e)
| changed_rebalanced target prior e o' : target_of o target = Some Management_Bindable -> evidence_role prior <> target ->
    next_evidence o target e -> updated o o' (command_key c) (Some e) ->
    changed o c (Rebalance target) (Some prior) o' (Reply_Rebalanced (command_request c) prior e)
| changed_unchanged target e : target_of o target = Some Management_Bindable -> evidence_role e = target ->
    changed o c (Rebalance target) (Some e) o (Reply_Unchanged (command_request c) e)
| changed_unbound e o' : updated o o' (command_key c) None ->
    changed o c Unbind (Some e) o' (Reply_Unbound (command_request c) (command_key c) e)
| changed_absent : changed o c Unbind None o (Reply_AlreadyUnbound c).

(** What a command leaves of the pool besides the table. *)
Record rebound (self : Self) (o : KeyedOperating) (c : BindingCommand) (r : KeyedOperating * KeyedActions) : Prop := {
  rebound_ok : keyed_ok self r.1;
  rebound_roles : roles r.1 = roles o;
  rebound_table : tabled (affinity o) (affinity r.1);
  rebound_reply : exists reply, r.2 = KeyedPool.replies (command_reply c) reply /\ managed o c r.1 reply
}.

Lemma with_affinity_same o : with_affinity o (affinity o) = o.
Proof. by destruct o. Qed.

Lemma rebound_same self o c reply : keyed_ok self o -> managed o c o reply ->
  rebound self o c (o, KeyedPool.replies (command_reply c) reply).
Proof. intros Hok Hm. split; [done|done|apply tabled_refl|by exists reply]. Qed.

Lemma rebound_table_to self o c t reply :
  keyed_ok self o -> desk_inv (next_job (jobs self.2)) (with_affinity o t) ->
  table_capacity t = table_capacity (affinity o) -> tabled (affinity o) t ->
  managed o c (with_affinity o t) reply ->
  rebound self o c (with_affinity o t, KeyedPool.replies (command_reply c) reply).
Proof. intros Hok Hd Hc Ht Hm. split; [by eapply keyed_tabled|done|done|by exists reply]. Qed.

Lemma target_cell o target p c : role_cell o target = Some (p, c) -> target_of o target = Some (management_target c) .
Proof. intros H. unfold target_of. by rewrite H. Qed.

Lemma bindable_live c : management_target c = Management_Bindable -> ~ retired c.
Proof. destruct c as [[role rec st] q capacity]. unfold retired, management_target. cbn. by intros H ->. Qed.

Lemma live_cell o p c : roles o !! p = Some c -> ~ retired c -> live (roles o) (cell_role c).
Proof. intros Hc Hn. exists c. split_and!; [by eapply list_elem_of_lookup_2|done|done]. Qed.

Lemma bind_absent_ok self o c target cell p :
  keyed_ok self o -> command_change c = Rebalance target -> binding (affinity o) (command_key c) = None ->
  command_expected c = Expect_Absent -> role_cell o target = Some (p, cell) ->
  management_target cell = Management_Bindable -> rebound self o c (bind_absent o c (member_role (cell_member cell))).
Proof.
  intros Hok Hch Hb Hex Hrc Hm. pose proof (target_cell _ _ _ _ Hrc) as Ht. rewrite Hm in Ht.
  apply role_cell_Some in Hrc as [Hc Hrole]. pose proof (ok_desk _ _ _ Hok) as Hd.
  assert (Hman : forall reply o', changed o c (Rebalance target) None o' reply -> managed o c o' reply).
  { intros reply o' H. apply managed_current; rewrite Hb; [done|by rewrite Hch]. }
  unfold bind_absent. cbn [command_into_parts].
  pose proof (reserve_spec (affinity o) (command_key c) (member_role (cell_member cell)) (desk_table _ _ Hd)) as Hsp.
  pose proof (reserve_tabled (affinity o) (command_key c) (member_role (cell_member cell))) as Htab.
  destruct (reserve_binding (affinity o) (command_key c) (member_role (cell_member cell))) as [t1 r].
  destruct Hsp as (Ht1 & Hbs & Hcap & Hres). destruct Htab as [_ Htab].
  assert (Hback : command_from_parts (command_request c) (command_key c) (command_expected c) (command_change c)
    (command_reply c) = c) by (by destruct c).
  destruct r as [res|[k|k|k]].
  - destruct Hres as (_ & Hlt & _ & Hg & Hcommit). specialize (Htab res eq_refl).
    destruct (commit_binding t1 res) as [t2 e]. destruct Hcommit as (-> & Ht2 & Hcap2 & Hp2).
    apply rebound_table_to; [done| |done|done|].
    + apply desk_tabled; [done|done|]. rewrite Hp2. constructor; [|apply Hd].
      eapply live_cell; [exact Hc|by apply bindable_live].
    + apply Hman. eapply changed_bound; [done|done|split; [exact Hg|exact Hrole]|].
      intros k. eapply (binding_added (affinity o) t2); [apply Hd|done|exact Hp2|done].
  - destruct Hres as (-> & -> & e & He). congruence.
  - destruct Hres as (-> & -> & _ & Hlen). rewrite with_affinity_same. unfold reject_binding.
    rewrite Hback. apply rebound_same; [done|]. apply Hman, changed_full; [done|]. unfold has_room. lia.
  - destruct Hres as (-> & -> & _ & Hn & Hlen). rewrite with_affinity_same. unfold reject_binding.
    rewrite Hback. apply rebound_same; [done|]. by apply Hman, changed_exhausted.
Qed.

Lemma rebind_exact_ok self o c target cell p e :
  keyed_ok self o -> command_change c = Rebalance target -> binding (affinity o) (command_key c) = Some e ->
  command_expected c = Expect_Exact (generation e) -> role_cell o target = Some (p, cell) ->
  management_target cell = Management_Bindable -> rebound self o c (rebind_exact o c (member_role (cell_member cell))).
Proof.
  intros Hok Hch Hb Hex Hrc Hm. pose proof (target_cell _ _ _ _ Hrc) as Ht. rewrite Hm in Ht.
  apply role_cell_Some in Hrc as [Hc Hrole]. pose proof (ok_desk _ _ _ Hok) as Hd.
  assert (Hman : forall reply o', changed o c (Rebalance target) (Some e) o' reply -> managed o c o' reply).
  { intros reply o' H. apply managed_current; rewrite Hb; [done|by rewrite Hch]. }
  unfold rebind_exact. cbn [command_into_parts]. rewrite Hb. change (named_role (member_role (cell_member cell))) with (cell_role cell).
  rewrite Hrole. case_bool_decide as Hsame; [apply rebound_same; [done|by apply Hman, changed_unchanged]|].
  destruct (rebind_spec (affinity o) (command_key c) e (member_role (cell_member cell)) (desk_table _ _ Hd) Hb) as (i & -> & Hsp).
  pose proof (rebind_tabled (affinity o) i (member_role (cell_member cell))) as Htab.
  destruct (rebind (affinity o) i (member_role (cell_member cell))) as [t [[prior current]|]].
  - destruct Hsp as (-> & Hcr & Hg & Htok & Hcap & rest & Hp & Hp').
    apply rebound_table_to; [done| |done|done|].
    + apply desk_tabled; [done|done|]. rewrite Hp'. pose proof (desk_bound _ _ Hd) as Hbd. rewrite Hp in Hbd.
      inversion_clear Hbd. constructor; [|done]. change (live (roles o) (evidence_role current)).
      unfold evidence_role. rewrite Hcr. exact (live_cell _ _ _ Hc (bindable_live _ Hm)).
    + apply Hman. eapply changed_rebalanced; [done|done|split; [done|]|].
      * unfold evidence_role. by rewrite Hcr.
      * intros k. eapply (binding_replaced (affinity o) t); [apply Hd|done|exact Hp|exact Hp'].
  - destruct Hsp as [-> Hg]. rewrite with_affinity_same. apply rebound_same; [done|].
    by apply Hman, changed_exhausted.
Qed.

Lemma accept_binding_ok self o c : keyed_ok self o -> rebound self o c (accept_binding o c).
Proof.
  intros Hok. unfold accept_binding. change (binding_expectation o (command_key c)) with
    (expectation_of (binding (affinity o) (command_key c))).
  case_bool_decide as Hex; cbn [negb]; [|apply rebound_same; [done|by apply managed_stale]].
  pose proof (ok_desk _ _ _ Hok) as Hd. destruct (binding (affinity o) (command_key c)) as [e|] eqn:Hb; cbn [expectation_of] in *.
  all: assert (Hman : forall reply o', changed o c (command_change c) (binding (affinity o) (command_key c)) o' reply ->
    managed o c o' reply) by (intros reply o' H; apply managed_current; rewrite Hb in *; done).
  all: rewrite Hb in Hman; destruct (command_change c) as [target|] eqn:Hch.
  1, 3: destruct (role_cell o target) as [[p cell]|] eqn:Hrc;
    [|apply rebound_same; [done|]; apply Hman, changed_unknown; unfold target_of; by rewrite Hrc].
  1, 2: destruct (management_target cell) eqn:Hm;
    [|apply rebound_same; [done|]; apply Hman, changed_unavailable; by rewrite (target_cell _ _ _ _ Hrc), Hm].
  - by eapply rebind_exact_ok.
  - by eapply bind_absent_ok.
  - pose proof (remove_binding_spec (affinity o) (command_key c) (desk_table _ _ Hd)) as Hsp.
    destruct (remove_binding (affinity o) (command_key c)) as [t [[k removed]|]]; [|by destruct Hsp; congruence].
    destruct Hsp as (-> & He & Htok & Hcap & Hgen & Hp). assert (removed = e) as -> by congruence.
    apply rebound_table_to; [done| |done| |].
    + apply desk_tabled; [done|done|]. pose proof (desk_bound _ _ Hd) as Hbd. rewrite Hp in Hbd. by inversion_clear Hbd.
    + apply tabled_fewer; [done|]. intros b Hin. rewrite Hp. by right.
    + apply Hman, changed_unbound. intros k. eapply (binding_removed (affinity o) t); [apply Hd|done|exact Hp].
  - apply rebound_same; [done|by apply Hman, changed_absent].
Qed.

End KeyedDesk.

Section KeyedRun.
  Context `{KT : KeyedTypes}.

Abbreviation keyed_ok := (keyed_inv awaited).

(** ** The invariant of a pool *)

Definition pool_ok (self : Self) : Prop :=
  match state self.2 with
  | State_Operating o => keyed_ok self o
  | State_Retiring l d => retiring_ok (recovery self.2) l d
  | State_Constructed _ | State_Stopped | State_ForcedRetirement _ _ => True
  end.

(** The accepted jobs that are still open. *)
Definition open_jobs (self : Self) : list CustomerJob := state_jobs (state self.2).

Definition with_state (self : Self) (s : KeyedPoolState) : Self := (self.1, set_state self.2 s).

Lemma keyed_ok_state {W} self s o : keyed_inv W self o -> keyed_inv W (with_state self s) o.
Proof. intros []. by split. Qed.

(** The customer's command among the inputs. *)
Definition submission_of (input : KeyedEvent) : option (SubmissionId * Key * Job * CustomerRoute) :=
  match input with
  | Event_Command (mkUser _ command) =>
      match into_request command with
      | Submit submission key payload customer => Some (submission, key, payload, customer)
      | _ => None
      end
  | _ => None
  end.

(** ** An operating pool *)

Lemma rebound_stepped self o c : rebound self o c (accept_binding o c) ->
  let '(o', a) := accept_binding o c in stepped self o (self, (State_Operating o', a)).
Proof.
  destruct (accept_binding o c) as [o' a]. intros [R1 R2 R3 (reply & Ha & _)]. cbn [fst snd] in *.
  split; [apply keyed_config_refl| |]; cbn [fst snd state_jobs].
  - rewrite R2, Ha. by apply keyed_accounted_same.
  - split; [done|]. split; [by rewrite R2|done].
Qed.

Lemma keyed_operate_ok self o input : keyed_ok self o -> submission_of input = None ->
  exists r, operate self o input = Some r /\ stepped self o r.
Proof.
  intros Hok Hsub.
  assert (Hd : stepped self o (self, diagnose self (State_Operating o) input)) by by apply keyed_diagnose_result.
  assert (Hshut : stepped self o (begin_retirement self o keyed_cont)).
  { unfold stepped. destruct (begin_retirement _ _ _) as [self' r] eqn:Hb.
    eapply begin_retirement_result; [|exact Hb]. apply (crew_source _ _ _ _ _ (ok_crew _ _ _ Hok)). }
  destruct input as [[from [request]]|w|i|s|s|[child report]|r|r|r|r|e|s|s]; cbn [operate];
    try (eexists; split; [reflexivity|]; first [exact Hd|exact Hshut]).
  - destruct request as [submission key payload customer|command|]; [done| |].
    + pose proof (rebound_stepped _ _ _ (accept_binding_ok self o command Hok)) as Hb. cbn [into_request].
      destruct (accept_binding o command) as [o' a]. by eexists.
    + by eexists.
  - destruct (keyed_accept_creations_ok self o w Hok) as (res & -> & Hres). eexists. split; [reflexivity|].
    by apply keyed_or_diagnose_ok.
  - eexists. split; [reflexivity|]. by apply keyed_or_diagnose_ok, keyed_accept_initialization_ok.
  - eexists. split; [reflexivity|]. by apply keyed_or_diagnose_ok, keyed_accept_startup_ok.
  - eexists. split; [reflexivity|]. by apply keyed_or_diagnose_ok, keyed_accept_worker_stop_ok.
  - eexists. split; [reflexivity|]. by apply keyed_or_diagnose_ok, keyed_pool_accept_completion_ok.
  - destruct r as [[receipt|item reason|item reason|item fault]|item]; try (eexists; split; [reflexivity|]; exact Hd).
    + eexists. split; [reflexivity|]. by apply keyed_or_diagnose_ok, keyed_accept_assignment_receipt_ok.
    + eexists. split; [reflexivity|]. by apply keyed_reject_assignment_delivery_ok.
  - eexists. split; [reflexivity|]. by apply keyed_or_diagnose_ok, keyed_accept_worker_preparation_start_ok.
  - destruct (keyed_accept_worker_preparation_return_ok self o r Hok) as (res & -> & Hres).
    eexists. split; [reflexivity|]. by apply keyed_or_diagnose_ok.
  - eexists. split; [reflexivity|]. by apply keyed_or_diagnose_ok, keyed_accept_restart_schedule_ok.
  - eexists. split; [reflexivity|]. by apply keyed_or_diagnose_ok, keyed_accept_restart_timer_ok.
  - eexists. split; [reflexivity|]. by apply keyed_or_diagnose_ok, accept_quarantine_shutdown_ok.
Qed.

(** ** A retiring pool *)

Lemma retire_step_ok self l d input self' r :
  retiring_ok (recovery self.2) l d -> retire self l d input = (self', r) ->
  drain_step self l d (exists w, w ∈ l /\ answers_wait w input) self' r.
Proof.
  intros Hok.
  assert (Hnone : forall e, (forall w, answers_wait w e -> False) ->
    drain_step self l d (exists w, w ∈ l /\ answers_wait w e) self (diagnose self (State_Retiring l d) e)).
  { intros e He. apply keyed_drain_step_ignored; [done|]. intros (w & _ & Hw). by eapply He. }
  assert (Hquiet : forall w e, answer_of e = None -> answers_wait w e -> False).
  { intros w e He. unfold answers_wait. by rewrite He. }
  destruct input as [u|w|i|s|s|c|r'|r'|r'|r'|e|s|s]; cbn [retire].
  - intros [= <- <-]. apply Hnone. intros w. by apply Hquiet.
  - by apply accept_worker_creations_ok.
  - intros [= <- <-]. apply retiring_worker_initialization_ok; [done|]. intros (w & _ & Hw). by eapply Hquiet.
  - intros [= <- <-]. apply retiring_worker_startup_ok; [done|]. intros (w & _ & Hw). by eapply Hquiet.
  - intros [= <- <-]. by apply retiring_worker_exit_ok.
  - intros [= <- <-]. apply Hnone. intros w. by apply Hquiet.
  - intros [= <- <-]. apply Hnone. intros w. by apply Hquiet.
  - by apply accept_retired_preparation_start_ok.
  - by apply accept_retired_preparation_return_ok.
  - intros [= <- <-]. by apply accept_retirement_schedule_ok.
  - intros [= <- <-]. apply accept_deadline_ok; [done|]. intros (w & _ & Hw). by eapply Hquiet.
  - intros [= <- <-]. by apply retiring_worker_shutdown_ok.
  - intros [= <- <-]. apply Hnone. intros w. by apply Hquiet.
Qed.

(** ** One step *)

(** What a step answers to customers. *)
Definition customers_step (self : Self) (input : KeyedEvent) (self' : Self) (a : KeyedActions) : Prop :=
  match submission_of input with
  | Some (submission, key, payload, customer) =>
      match state self.2 with
      | State_Operating o => exists o', state self'.2 = State_Operating o' /\
          submission_answered self self' submission key payload customer o o' a
      | _ => replies a = [] /\ open_jobs self' = []
      end
  | None => exists closed, Forall2 closes closed (replies a) /\ open_jobs self ≡ₚ closed ++ open_jobs self'
  end.

(** What a step of the retirement does. *)
Definition retirement_progress (self : Self) (input : KeyedEvent) (self' : Self) (a : KeyedActions) : Prop :=
  match state self.2 with
  | State_Retiring l d =>
      quiet a /\
      match state self'.2 with
      | State_Retiring l' d' =>
          outstanding l' d' <= outstanding l d /\
          ((exists w, w ∈ l /\ answers_wait w input) -> outstanding l' d' < outstanding l d)
      | State_Stopped | State_ForcedRetirement _ _ => become_ a = Stop the_Stopped
      | _ => False
      end
  | _ => True
  end.

Record step_done (self : Self) (input : KeyedEvent) (self' : Self) (a : KeyedActions) : Prop := {
  done_pool : pool_ok self';
  done_clean : clean a;
  done_advanced : advanced self self';
  done_follows : forall o', state self'.2 = State_Operating o' ->
    exists o, state self.2 = State_Operating o /\ follows o o';
  done_customers : customers_step self input self' a;
  done_retirement : retirement_progress self input self' a
}.

Lemma keyed_advanced_state self self' s s' : advanced (with_state self s) self' -> advanced self (with_state self' s').
Proof. intros []. by split. Qed.

Lemma keyed_transition_operating self o input :
  pool_ok self -> state self.2 = State_Operating o ->
  exists self' a, transition self input = Some (self', a) /\ step_done self input self' a.
Proof.
  intros Hok Hs. unfold pool_ok in Hok. rewrite Hs in Hok. unfold transition. rewrite Hs.
  set (self0 := with_state self State_Stopped) in *. change (self.1, set_state self.2 State_Stopped) with self0.
  apply (keyed_ok_state self State_Stopped) in Hok. fold self0 in Hok.
  assert (Hopen : open_jobs self = held (roles o)) by (unfold open_jobs; by rewrite Hs).
  destruct (submission_of input) as [[[[submission key] payload] customer]|] eqn:Hsub.
  - destruct input as [[from [[]]]| | | | | | | | | | | |]; try done. cbn in Hsub. simplify_eq. cbn [operate into_request].
    destruct (accept_submission self0 o submission key payload customer) as [self1 [o1 a1]] eqn:Ha.
    destruct (keyed_accept_submission_ok _ _ _ _ _ _ _ _ _ Hok Ha) as [[S1 S2 S3 S4] Hans].
    eexists _, _. split; [reflexivity|].
    change (self1.1, set_state self1.2 (State_Operating o1)) with (with_state self1 (State_Operating o1)).
    split; [by apply (keyed_ok_state self1)|done|by eapply keyed_advanced_state| | |].
    + intros o' [= <-]. by exists o.
    + unfold customers_step. cbn [submission_of into_request]. rewrite Hs. by exists o1.
    + unfold retirement_progress. by rewrite Hs.
  - destruct (keyed_operate_ok self0 o input Hok Hsub) as ([self1 [s1 a1]] & -> & Hres).
    unfold stepped in Hres. cbn [fst snd] in Hres. cbn [mbind option_bind].
    eexists _, _. split; [reflexivity|]. change (self1.1, set_state self1.2 s1) with (with_state self1 s1).
    destruct Hres as [Rc [(cl & new & R1 & R2 & R3) Rk] Rs]. cbn [fst snd] in *.
    split.
    + unfold pool_ok. cbn. destruct s1; try done. by apply (keyed_ok_state self1), Rs.
    + by apply Rk, keyed_clean_cont.
    + eapply keyed_advanced_state, keyed_config_advanced, Rc.
    + cbn. intros o' ->. exists o. by destruct Rs.
    + unfold customers_step. rewrite Hsub, Hopen. exists cl. cbn in R1. by rewrite R1.
    + unfold retirement_progress. by rewrite Hs.
Qed.

Lemma transition_retiring self l d input :
  pool_ok self -> state self.2 = State_Retiring l d ->
  exists self' a, transition self input = Some (self', a) /\ step_done self input self' a.
Proof.
  intros Hok Hs. unfold transition. rewrite Hs. unfold pool_ok in Hok. rewrite Hs in Hok.
  set (self0 := with_state self State_Stopped). change (self.1, set_state self.2 State_Stopped) with self0.
  assert (Hopen : open_jobs self = []) by (unfold open_jobs; by rewrite Hs).
  destruct (retire self0 l d input) as [self1 [s1 a1]] eqn:Hd.
  destruct (retire_step_ok self0 _ _ _ _ _ Hok Hd) as [[Dc [Dq Dcl Dr] Ds] Hstrict].
  cbn [mbind option_bind fst snd] in *. eexists _, _. split; [reflexivity|].
  change (self1.1, set_state self1.2 s1) with (with_state self1 s1).
  assert (Hopen' : open_jobs (with_state self1 s1) = []) by (by destruct s1).
  split; [|done| | | |].
  - unfold pool_ok. cbn. destruct s1; try done. by destruct Ds.
  - eapply keyed_advanced_state, keyed_config_advanced, Dc.
  - cbn. intros o' ->. done.
  - unfold customers_step. rewrite Hopen, Hopen', Dr, Hs.
    destruct (submission_of input) as [[[[? ?] ?] ?]|]; [done|by exists []].
  - unfold retirement_progress. rewrite Hs. split; [done|]. cbn. destruct s1; try done.
    split; [lia|]. intros Hw. by destruct (Hstrict Hw) as [_ _ []].
Qed.

Lemma keyed_transition_idle self input :
  pool_ok self -> match state self.2 with State_Operating _ | State_Retiring _ _ => False | _ => True end ->
  exists self' a, transition self input = Some (self', a) /\ step_done self input self' a.
Proof.
  intros Hok Hs. unfold transition.
  assert (Hopen : open_jobs self = []) by (unfold open_jobs; by destruct (state self.2)).
  assert (Hstep : forall a, replies a = [] -> clean a ->
    step_done self input (with_state (with_state self State_Stopped) (state self.2)) a).
  { intros a Ha Hc. split.
    - unfold pool_ok in *. cbn. by destruct (state self.2).
    - done.
    - eapply keyed_advanced_state, keyed_config_advanced, keyed_config_refl.
    - cbn. intros o' Ho. by rewrite Ho in Hs.
    - unfold customers_step. rewrite Hopen, Ha. destruct (submission_of input) as [[[[? ?] ?] ?]|].
      + by destruct (state self.2).
      + exists []. split; [constructor|]. unfold open_jobs in *. cbn. by rewrite Hopen.
    - unfold retirement_progress. by destruct (state self.2). }
  assert (Hrd : forall s, clean (diagnose (with_state self State_Stopped) s input).2).
  { intros s. apply (drain_clean _ (keyed_drain_actions_diagnose _ _ _)). }
  destruct (state self.2) as [prepared|o|l d| |l cause]; try done; cbn;
    eexists _, _; (split; [reflexivity|]); (apply Hstep; [done|]).
  1: exact (Hrd (State_Constructed prepared)).
  1: exact (Hrd State_Stopped).
  exact (Hrd (State_ForcedRetirement l cause)).
Qed.

Lemma keyed_transition_ok self input :
  pool_ok self -> exists self' a, transition self input = Some (self', a) /\ step_done self input self' a.
Proof.
  intros Hok. destruct (state self.2) eqn:E.
  1, 4, 5: by apply keyed_transition_idle; [|rewrite E].
  - by eapply keyed_transition_operating.
  - by eapply transition_retiring.
Qed.

End KeyedRun.
