(* ===== verification/KeyedCorrect.v ===== *)
(** * Correctness of the keyed pool

    What every run of a constructed pool keeps: the account of its customers,
    the affinity of keys to roles, the binding table and its generations, the
    custody of the worker source, and the end of its retirement. *)

From stdpp Require Import base list list_numbers option numbers sorting.
From S2P Require Import Prelude Effects BTreeMap Timers Restart Termination Settlement Interpretation Creation.
From S2P Require Import Workers WorkerPreparation WorkerStartup ProxyWorker PoolAssignment PoolPolicy PoolWorker PoolMembers PoolDrain.
From S2P Require Import KeyedBinding KeyedProtocol KeyedRetirement KeyedPool KeyedRecovery KeyedTransition.
From S2P Require Import KeyedInvariant KeyedHandlers KeyedDrain KeyedRun.

Section KeyedCorrect.
  Context `{KT : KeyedTypes}.

(** ** Runs *)

Fixpoint run (self : Self) (inputs : list KeyedEvent) : option (Self * list KeyedActions) :=
  match inputs with
  | [] => Some (self, [])
  | input :: inputs =>
      '(self, a) ← transition self input;
      '(self, acts) ← run self inputs;
      Some (self, a :: acts)
  end.

(** A pool that was built, initialized, and ran the inputs. *)
Definition life (n : nat) (prepared : list (PreparedWorker Role Worker Plan)) (select : Key -> Role) (c : Config)
  (inputs : list KeyedEvent) : option (Self * list KeyedActions) :=
  match init (n, pool_of prepared select c) with
  | (self, Ok _) => run self inputs
  | (_, Err _) => None
  end.

(** [RestartLimit::maximum] is a [u32]. *)
Definition config_ok (c : Config) : Prop :=
  match restart_policy (recovery_from (config_recovery c)) with
  | Some (limit, _) => (maximum limit <= u32_max)%N
  | None => True
  end.

(** ** The account of the customers *)

Definition accepted_of (r : CustomerRoute * KeyedOutcome) : option (CustomerRoute * JobId * BindingEvidence Role) :=
  match r.2 with Keyed_Accepted _ job binding => Some (r.1, job, binding) | _ => None end.

Definition terminal_of (r : CustomerRoute * KeyedOutcome) : option (CustomerRoute * KeyedOutcome) :=
  match r.2 with Keyed_Accepted _ _ _ | Keyed_Rejected _ _ _ _ => None | _ => Some r end.

(** The jobs admitted over a run: each was submitted, was accepted under a
    number of its own and a binding, and is open or was closed by exactly one
    terminal answer to its own customer. *)
Record ledger (inputs : list KeyedEvent) (rs : list (CustomerRoute * KeyedOutcome))
  (admitted closed opened : list CustomerJob) : Prop := {
  ledger_submitted : Forall (fun j => exists input submission key, input ∈ inputs /\
    submission_of input = Some (submission, key, job_payload j, job_route j)) admitted;
  ledger_accepted : omap accepted_of rs = (fun j => (job_route j, job_id j, job_binding j)) <$> admitted;
  ledger_distinct : NoDup (job_id <$> admitted);
  ledger_closed : Forall2 closes closed (omap terminal_of rs);
  ledger_open : admitted ≡ₚ closed ++ opened
}.

(** Every number issued is below the next one. *)
Definition issued_below (self : Self) (l : list CustomerJob) : Prop :=
  Forall (fun j => below (next_job (jobs self.2)) (job_number (job_id j))) l.

Lemma issued_below_advanced self self' l : advanced self self' -> issued_below self l -> issued_below self' l.
Proof.
  intros [_ _ _ _ Hj] Hb. eapply Forall_impl; [exact Hb|]. cbn beta. intros j Hj'.
  destruct Hj as [->|(v & Hv & ->)]; [done|]. rewrite Hv in Hj'. by apply below_checked_add.
Qed.

Lemma keyed_closes_terminal closed new :
  Forall2 closes closed new -> omap terminal_of new = new /\ omap accepted_of new = [].
Proof.
  induction 1 as [|j [c o] closed new Hc _ [IH1 IH2]]; [done|]. destruct Hc as [_ Hc].
  cbn in Hc. destruct o; try done; cbn; by rewrite IH1.
Qed.

Lemma keyed_customers_ledger_step self input self' a inputs rs admitted closed :
  step_done self input self' a -> issued_below self admitted ->
  ledger inputs rs admitted closed (open_jobs self) ->
  exists admitted' closed', issued_below self' admitted' /\
    ledger (inputs ++ [input]) (rs ++ KeyedInvariant.replies a) admitted' closed' (open_jobs self').
Proof.
  intros [_ _ Hadv _ Hcust _] Hb [Ls La Ld Lc Lo]. pose proof (issued_below_advanced _ _ _ Hadv Hb) as Hb'.
  assert (Ls' : Forall (fun j => exists i s k, i ∈ inputs ++ [input] /\
    submission_of i = Some (s, k, job_payload j, job_route j)) admitted).
  { eapply Forall_impl; [exact Ls|]. intros j (i & s & k & Hi & He). exists i, s, k.
    split; [apply elem_of_app; by left|done]. }
  assert (Hquiet : omap accepted_of (KeyedInvariant.replies a) = [] -> omap terminal_of (KeyedInvariant.replies a) = [] ->
    open_jobs self' ≡ₚ open_jobs self -> exists admitted' closed', issued_below self' admitted' /\
    ledger (inputs ++ [input]) (rs ++ KeyedInvariant.replies a) admitted' closed' (open_jobs self')).
  { intros Ha Ht Ho. exists admitted, closed. split; [done|].
    split; rewrite ?omap_app, ?Ha, ?Ht, ?app_nil_r; auto. by rewrite Ho. }
  unfold customers_step in Hcust. destruct (submission_of input) as [[[[submission key] payload] customer]|] eqn:Hsub.
  - destruct (state self.2) as [|o| | |] eqn:Hs;
      try (destruct Hcust as [Ha Ho]; apply Hquiet; rewrite ?Ha; auto; rewrite Ho; unfold open_jobs; by rewrite Hs).
    destruct Hcust as (o' & Hs' & Hcust). assert (Hopen : open_jobs self = held (roles o)) by (unfold open_jobs; by rewrite Hs).
    assert (Hopen' : open_jobs self' = held (roles o')) by (unfold open_jobs; by rewrite Hs').
    destruct Hcust as [(reason & Ha & Ho)|(j & Hc & Hp & Ho & Ha & Hn & Hn' & _)].
    { apply Hquiet; [by rewrite Ha..|]. by rewrite Hopen, Hopen'. }
    exists (admitted ++ [j]), closed. split.
    { apply Forall_app. split; [done|]. constructor; [|done]. rewrite Hn'. apply below_next. }
    split; rewrite ?omap_app, ?Ha, ?fmap_app, ?La.
    + apply Forall_app. split; [done|]. constructor; [|done]. exists input, submission, key.
      split; [apply elem_of_app; right; by apply list_elem_of_singleton|congruence].
    + cbn. by rewrite Hc.
    + apply NoDup_app. split_and!; [done| |apply NoDup_singleton].
      intros i Hi ->%list_elem_of_singleton. apply list_elem_of_fmap in Hi as (j' & Hj' & Hin).
      unfold issued_below in Hb. rewrite list.Forall_forall in Hb. specialize (Hb _ Hin). rewrite Hn in Hb.
      cbn in Hb. rewrite Hj' in Hb. lia.
    + cbn. by rewrite app_nil_r.
    + rewrite Lo, Hopen, Hopen', Ho. rewrite <- app_assoc. f_equiv. by rewrite Permutation_app_comm.
  - destruct Hcust as (cl & Hcl & Ho). destruct (keyed_closes_terminal _ _ Hcl) as [Ht Ha].
    exists admitted, (closed ++ cl). split; [done|].
    split; rewrite ?omap_app, ?Ha, ?Ht, ?app_nil_r; auto; [by apply Forall2_app|].
    by rewrite Lo, Ho, app_assoc.
Qed.

(** What a run keeps besides the account. *)
Lemma run_pool inputs : forall self, pool_ok self ->
  exists self' acts, run self inputs = Some (self', acts) /\ pool_ok self' /\ Forall clean acts /\
    startup_limit self'.2 = startup_limit self.2 /\ binding_capacity self'.2 = binding_capacity self.2 /\
    selector self'.2 = selector self.2 /\ length acts = length inputs /\
    forall o', state self'.2 = State_Operating o' -> exists o, state self.2 = State_Operating o /\ follows o o'.
Proof.
  induction inputs as [|input inputs IH]; intros self Hok; cbn [run].
  { exists self, []. split_and!; try done. intros o' Ho. exists o'. split; [done|apply follows_refl]. }
  destruct (keyed_transition_ok self input Hok) as (self1 & a & -> & [Hp Hc [Hl _ Hb Hs _] Hf _ _]).
  destruct (IH self1 Hp) as (self2 & acts & E & Hp2 & Hcl & Hl2 & Hb2 & Hs2 & Hlen & Hf2). cbn. rewrite E. cbn.
  exists self2, (a :: acts). split_and!; [done|done|by constructor|congruence..|by rewrite <- Hlen|].
  intros o' Ho'. destruct (Hf2 o' Ho') as (o1 & Ho1 & Hfo). destruct (Hf o1 Ho1) as (o & Ho & Hfo').
  exists o. split; [done|by eapply follows_trans].
Qed.

Lemma keyed_run_ledger inputs : forall self inputs0 rs admitted closed self' acts,
  pool_ok self -> issued_below self admitted -> ledger inputs0 rs admitted closed (open_jobs self) ->
  run self inputs = Some (self', acts) ->
  exists admitted' closed',
    ledger (inputs0 ++ inputs) (rs ++ (acts ≫= KeyedInvariant.replies)) admitted' closed' (open_jobs self').
Proof.
  induction inputs as [|input inputs IH]; intros self inputs0 rs admitted closed self' acts Hok Hb Hl; cbn [run].
  { intros [= <- <-]. exists admitted, closed. cbn. by rewrite !app_nil_r. }
  destruct (keyed_transition_ok self input Hok) as (self1 & a & -> & Hstep). cbn.
  destruct (run self1 inputs) as [[self2 acts']|] eqn:Hrun; [|done]. cbn. intros [= <- <-].
  destruct (keyed_customers_ledger_step _ _ _ _ _ _ _ _ Hstep Hb Hl) as (adm & cl & Hb' & Hl').
  destruct (IH _ _ _ _ _ _ _ (done_pool _ _ _ _ Hstep) Hb' Hl' Hrun) as (adm' & cl' & H).
  exists adm', cl'. rewrite <- !app_assoc in H. exact H.
Qed.

(** ** Initialization *)

Lemma fresh_cells ms backlog : Forall (fun m => exists c, member_state m = Member_Creating c) ms ->
  let cells := (fun member => cell_new member backlog) <$> ms in
  held cells = [] /\ Forall cell_ok cells /\ Forall (fun c => is_idle (cell_member c) = false) cells /\
  cell_member <$> cells = ms.
Proof.
  induction 1 as [|[role rec st] ms [c Hc] _ (H1 & H2 & H3 & H4)]; [done|]. cbn in Hc. subst st.
  cbn [fmap list_fmap]. split_and!.
  - rewrite keyed_held_cons. exact H1.
  - constructor; [|exact H2]. split; [constructor|constructor|constructor|done].
  - by constructor.
  - f_equal. exact H4.
Qed.

Lemma keyed_init_ok n prepared select c self a :
  config_ok c -> init (n, pool_of prepared select c) = (self, Ok a) ->
  pool_ok self /\ open_jobs self = [] /\ startup_limit self.2 = config_startup c /\
  binding_capacity self.2 = config_bindings c /\ selector self.2 = select.
Proof.
  intros Hc. unfold init, pool_of. cbn [state creations backlog binding_capacity set_state pool_start].
  destruct (issue_ids _ _ _) as [cs [ids|]]; [|done].
  cbn [set_creations alloc fst snd]. unfold mbind, Alloc_bind, mret, Alloc_ret.
  destruct (begin_members (zip prepared ids) n) as [n' [[ms ws] os]] eqn:Hm. cbn [fst snd set_state].
  intros Hi. unfold alloc in Hi. cbn [fst snd] in Hi. rewrite Hm in Hi. cbn [fst snd] in Hi. injection Hi as <- _.
  pose proof (begin_members_fresh _ _ _ _ _ _ Hm) as Hfresh.
  destruct (fresh_weights ms Hfresh) as (B & P & T & S & U).
  destruct (fresh_cells ms (config_backlog c) Hfresh) as (Hh & Hcells & Hidle & Hms).
  split_and!; try done. unfold pool_ok. cbn [state snd]. split; cbn [snd jobs assignments recovery restarts startup_limit affinity table_capacity binding_capacity].
  - split; cbn [roles affinity]; [exact Hcells|by rewrite Hh; constructor|by rewrite Hh| |constructor].
    split; cbn; [constructor|lia|constructor|constructor].
  - cbn [roles]. eapply Forall_impl; [exact Hidle|]. cbn. intros x Hx Hi. congruence.
  - unfold members. cbn [roles]. rewrite Hms. split; rewrite ?P, ?T, ?S; auto; [by destruct (config_recovery c)|lia|lia|].
    unfold budget_ok, config_ok in *. destruct (restart_policy _) as [[limit release]|]; [|done].
    split; [done|]. cbn. lia.
  - done.
Qed.

Lemma keyed_life_pool n prepared select c inputs self acts :
  config_ok c -> life n prepared select c inputs = Some (self, acts) ->
  pool_ok self /\ Forall clean acts /\ startup_limit self.2 = config_startup c /\
  binding_capacity self.2 = config_bindings c /\ selector self.2 = select.
Proof.
  intros Hc. unfold life. destruct (init _) as [self0 [a0|]] eqn:Hi; [|done]. intros Hr.
  destruct (keyed_init_ok _ _ _ _ _ _ Hc Hi) as (Hp & _ & Hl & Hb & Hs).
  destruct (run_pool inputs self0 Hp) as (self' & acts' & E & Hp' & Hcl & Hl' & Hb' & Hs' & _). split_and!; congruence.
Qed.

(** ** Properties *)

(** C4. Every customer is served once, under one binding.  Over any run of a
    keyed pool, the jobs that were accepted are exactly those announced by
    [Accepted], under distinct ids; each was submitted with that payload by that
    customer; and every one is either still held by the pool or was closed by
    exactly one terminal answer to its own customer, with its own id, with the
    binding it was accepted under, and with its own payload when it is returned.
    Once the pool no longer operates, none is open. *)
Theorem keyed_customers_settled n prepared select c inputs self acts :
  config_ok c -> life n prepared select c inputs = Some (self, acts) ->
  (exists admitted closed, ledger inputs (acts ≫= KeyedInvariant.replies) admitted closed (open_jobs self)) /\
  (match state self.2 with State_Operating _ => True | _ => open_jobs self = [] end).
Proof.
  intros Hc. unfold life. destruct (init _) as [self0 [a0|]] eqn:Hi; [|done]. intros Hr.
  destruct (keyed_init_ok _ _ _ _ _ _ Hc Hi) as (Hp & Ho & _). split.
  - apply (keyed_run_ledger inputs self0 [] [] [] [] self acts Hp); [constructor| |done].
    rewrite Ho. split; try done; constructor.
  - unfold open_jobs. by destruct (state self.2).
Qed.

(** C12. Jobs stay with the role of their key.  In every reachable operating
    pool each role holds only jobs whose binding names it, waiting in admission
    order; a retired role holds none; and an idle worker has none of its role
    waiting, unless no assignment can be numbered any more. *)
Theorem keyed_affinity n prepared select c inputs self acts o :
  config_ok c -> life n prepared select c inputs = Some (self, acts) -> state self.2 = State_Operating o ->
  Forall (fun cell =>
    Forall (fun j => evidence_role (job_binding j) = cell_role cell) (cell_jobs cell) /\
    sorted (cell_queue cell) /\ Forall (fun kv => kv.1 = job_admitted kv.2) (cell_queue cell) /\
    (member_state (cell_member cell) = Member_Retired -> cell_jobs cell = []) /\
    (is_idle (cell_member cell) = true ->
     cell_queue cell = [] \/ next_assignment (assignments self.2) = None)) (roles o).
Proof.
  intros Hc Hl Hs. destruct (keyed_life_pool _ _ _ _ _ _ _ Hc Hl) as (Hp & _).
  unfold pool_ok in Hp. rewrite Hs in Hp. destruct Hp as [[Dc _ _ _ _] Is _ _].
  rewrite list.Forall_forall in Dc, Is |- *. intros cell Hin. destruct (Dc _ Hin) as [C1 C2 C3 C4]. split_and!; auto.
  - intros Hr. unfold cell_jobs. rewrite (C4 Hr). unfold busy. by rewrite Hr.
  - by apply Is.
Qed.

(** C8. A submission is answered at once, and its key sticks.  The step of a
    reachable operating pool that takes a submission answers exactly its
    customer: with a rejection that returns the key and the payload and leaves
    the open jobs as they were, or with the acceptance of one new job.  The job
    is accepted under the binding of its key, which is the one the key had
    before, or a new one to the role that the selector chose; the key has that
    binding afterwards. *)
Theorem keyed_submission_answered n prepared select c inputs self acts o from submission key payload customer self' a :
  config_ok c -> life n prepared select c inputs = Some (self, acts) -> state self.2 = State_Operating o ->
  transition self (Event_Command (mkUser from (keyed_submit submission key payload customer))) = Some (self', a) ->
  exists o', state self'.2 = State_Operating o' /\
  ((exists reason, KeyedInvariant.replies a = [(customer, Keyed_Rejected submission key payload reason)] /\
      open_jobs self' ≡ₚ open_jobs self) \/
   (exists j, job_route j = customer /\ job_payload j = payload /\ open_jobs self' ≡ₚ j :: open_jobs self /\
      KeyedInvariant.replies a = [(customer, Keyed_Accepted submission (job_id j) (job_binding j))] /\
      binding (affinity o') key = Some (job_binding j) /\
      match binding (affinity o) key with
      | Some e => job_binding j = e
      | None => evidence_role (job_binding j) = select key
      end)).
Proof.
  intros Hc Hl Hs Ht. destruct (keyed_life_pool _ _ _ _ _ _ _ Hc Hl) as (Hp & _ & _ & _ & <-).
  destruct (keyed_transition_ok _ (Event_Command (mkUser from (keyed_submit submission key payload customer))) Hp)
    as (s1 & a1 & E & [_ _ _ _ Hcust _]). rewrite Ht in E. simplify_eq.
  unfold customers_step in Hcust. cbn [submission_of keyed_submit into_request] in Hcust. rewrite Hs in Hcust.
  destruct Hcust as (o' & Hs' & Hcust). exists o'. split; [done|]. unfold open_jobs. rewrite Hs, Hs'. cbn [state_jobs].
  destruct Hcust as [?|(j & ? & ? & ? & ? & _ & _ & ? & ?)]; [by left|right]. by exists j.
Qed.

(** C7. Bindings are compared and swapped.  The step of a reachable operating
    pool that takes a binding command sends one reply and nothing else, and
    leaves the roles and their jobs alone; the reply and the new table are those
    of the contract [managed]: a command whose expectation is not the exact
    current generation of its key (or its absence) changes nothing and is told
    the actual one, an unknown, unavailable or unaffordable target changes
    nothing, and otherwise only the binding of that key changes, with the next
    generation. *)
Theorem keyed_binding_refines n prepared select c inputs self acts o from command self' a :
  config_ok c -> life n prepared select c inputs = Some (self, acts) -> state self.2 = State_Operating o ->
  transition self (Event_Command (mkUser from (keyed_binding command))) = Some (self', a) ->
  exists o' reply, state self'.2 = State_Operating o' /\ roles o' = roles o /\
    a = KeyedPool.replies (command_reply command) reply /\ managed o command o' reply.
Proof.
  intros Hc Hl Hs. destruct (keyed_life_pool _ _ _ _ _ _ _ Hc Hl) as (Hp & _).
  unfold pool_ok in Hp. rewrite Hs in Hp. unfold transition. rewrite Hs. cbn [operate keyed_binding into_request].
  destruct (accept_binding_ok self o command Hp) as [_ Hr _ (reply & Ha & Hm)].
  destruct (accept_binding o command) as [o' a']. cbn [fst snd mbind option_bind] in *.
  intros [= <- <-]. by exists o', reply.
Qed.

(** C13. Generations fence stale commands for ever.  In every reachable
    operating pool the table holds at most the configured number of keys, their
    generations are distinct, and every key is bound to a role that serves.
    After any further inputs a binding is either one of the present table or has
    a generation that was not yet issued: a binding that was once replaced,
    removed or retired never comes back. *)
Theorem keyed_generations_fence n prepared select c inputs self acts o inputs' self' acts' o' :
  config_ok c -> life n prepared select c inputs = Some (self, acts) -> state self.2 = State_Operating o ->
  run self inputs' = Some (self', acts') -> state self'.2 = State_Operating o' ->
  length (bindings (affinity o)) <= bindings_maximum (config_bindings c) /\
  NoDup (generation_ordinal ∘ generation ∘ binding_evidence <$> bindings (affinity o)) /\
  Forall (fun b => exists cell, cell ∈ roles o /\ cell_role cell = evidence_role (binding_evidence b) /\
    member_state (cell_member cell) <> Member_Retired) (bindings (affinity o)) /\
  Forall (fun b => below (next_generation (generations (affinity o))) (generation_ordinal (generation (binding_evidence b))))
    (bindings (affinity o)) /\
  forall b, b ∈ bindings (affinity o') ->
    b ∈ bindings (affinity o) \/
    ~ below (next_generation (generations (affinity o))) (generation_ordinal (generation (binding_evidence b))).
Proof.
  intros Hc Hl Hs Hr Hs'. destruct (keyed_life_pool _ _ _ _ _ _ _ Hc Hl) as (Hp & _ & _ & Hcap & _).
  destruct (run_pool inputs' self Hp) as (s1 & a1 & E & _ & _ & _ & _ & _ & _ & Hf). rewrite Hr in E. simplify_eq.
  destruct (Hf o' Hs') as (o1 & Ho1 & [_ [_ _ Hnew]]). rewrite Hs in Ho1. simplify_eq.
  unfold pool_ok in Hp. rewrite Hs in Hp. destruct Hp as [[_ _ _ [T1 T2 T3 T4] Db] _ _ Ik].
  rewrite Ik, Hcap in T2. split_and!; auto. eapply Forall_impl; [exact T3|]. by intros b [_ Hb].
Qed.

(** The pool never panics: whatever the host delivers, in whatever order,
    every input of a built and initialized pool has a transition. *)
Theorem keyed_never_panics n prepared select c self a inputs :
  config_ok c -> init (n, pool_of prepared select c) = (self, Ok a) ->
  exists self' acts, run self inputs = Some (self', acts) /\ length acts = length inputs.
Proof.
  intros Hc Hi. destruct (keyed_init_ok _ _ _ _ _ _ Hc Hi) as (Hp & _).
  destruct (run_pool inputs self Hp) as (self' & acts & E & _ & _ & _ & _ & _ & Hlen & _). by exists self', acts.
Qed.

(** The source of workers is never lost or duplicated, and the startup
    limit is respected: over any run no diagnostic reports a source that could
    not be put away; a member prepares exactly while the recovery state says the
    source is out, also during the retirement; and at most the configured number
    of workers holds a startup grant. *)
Theorem keyed_source_custody n prepared select c inputs self acts :
  config_ok c -> life n prepared select c inputs = Some (self, acts) ->
  Forall (fun a => Forall (fun d => source_lost (cause (diagnostic_of d)) = false)
    (requests (diagnostics (sends a)))) acts /\
  match state self.2 with
  | State_Operating o => sum_list_with preparing (members o) = sources_out (recovery self.2) /\
      sum_list_with starting (members o) <= startup_maximum (config_startup c)
  | State_Retiring l _ => sum_list_with draining_source l = sources_out (recovery self.2)
  | _ => True
  end.
Proof.
  intros Hc Hl. destruct (keyed_life_pool _ _ _ _ _ _ _ Hc Hl) as (Hp & Hcl & Hlim & _). split; [exact Hcl|].
  unfold pool_ok in Hp. destruct (state self.2); try done; [|by destruct Hp].
  destruct Hp as [_ _ [Hsrc _ Hst _] _]. rewrite Hlim in Hst. done.
Qed.

(** ** The retirement *)




(** A step puts the state back into the pool it took it from. *)
Lemma state_restored (self : Self) s : state self.2 = s ->
  (self.1, set_state (set_state self.2 State_Stopped) s) = self.
Proof. destruct self as [k p]. cbn. intros <-. by destruct p. Qed.

(** A departure of the code from its document.  docs/actor-laws/keyed-pool.md has
    a draining pool reject commands unchanged; the code hands a submission or a
    binding command that arrives during the retirement to the diagnostics, and
    its customer or manager gets no reply. *)
Theorem keyed_retiring_unanswered self l d from command :
  state self.2 = State_Retiring l d ->
  exists a, transition self (Event_Command (mkUser from command)) = Some (self, a) /\
    KeyedInvariant.replies a = [] /\ binding_replies (sends a) = sends_empty /\
    requests (diagnostics (sends a)) =
      [diagnostic_action (diagnostics_to self.2)
         (mkKeyedDiagnostic (Unexpected (Event_Command (mkUser from command))))].
Proof.
  intros Hs. unfold transition. rewrite Hs. eexists. split.
  - cbn [retire diagnose fst snd mbind option_bind set_state]. rewrite (state_restored _ _ Hs). reflexivity.
  - split_and!; reflexivity.
Qed.

(** The phases of a worker before it is ready. *)
Definition pre_ready (p : PoolWorkerPhase) : bool :=
  match p with
  | Phase_Initializing _ _ | Phase_WaitingForStartup _ _ | Phase_StartupRequested _ _ | Phase_Starting _ _ => true
  | Phase_Idle | Phase_Busy _ | Phase_Stopping _ => false
  end.

(** A departure of the code from its document.  The member matrix of
    docs/actor-laws/keyed-pool.md drains or joins the stop of a worker that is
    not yet ready; the code only diagnoses it and keeps every role as it is, so
    the role holds its startup slot and its backlog although its worker is
    gone. *)
Theorem keyed_pre_ready_stop_ignored self o stopped position cell rest w :
  state self.2 = State_Operating o ->
  take_at (is_worker (stopped_child stopped) ∘ cell_member) (roles o) = Some (position, cell, rest) ->
  member_state (cell_member cell) = Member_Worker w -> pre_ready (phase w) = true ->
  exists a, transition self (Event_WorkerStopped stopped) = Some (self, a) /\
    creates a = Creations_empty /\ worker_preparations (sends a) = [] /\ KeyedInvariant.replies a = [] /\
    requests (diagnostics (sends a)) =
      [diagnostic_action (diagnostics_to self.2) (mkKeyedDiagnostic (Unexpected (Event_WorkerStopped stopped)))].
Proof.
  intros Hs Ht Hm Hp. pose proof (reinserted _ _ _ _ _ Ht) as Hback.
  assert (Hstop : accept_worker_stop (self.1, set_state self.2 State_Stopped) o stopped =
    ((self.1, set_state self.2 State_Stopped), Err (o, stopped))).
  { unfold accept_worker_stop, take_cell. rewrite Ht. cbn [mbind option_bind].
    destruct cell as [[role recoveries s] queue capacity]. cbn in Hm. subst s. destruct w as [current ph]. cbn in Hp.
    assert (Ho : put (with_roles o rest) position role recoveries (Member_Worker (mkPoolWorker current ph)) queue capacity = o).
    { unfold put, put_cell. destruct o as [rs af]. cbn [roles affinity with_roles] in *. by rewrite Hback. }
    by destruct ph; try discriminate; rewrite Ho. }
  unfold transition. rewrite Hs. cbn [operate]. rewrite Hstop. eexists. split.
  - cbn [or_diagnose diagnose fst snd mbind option_bind set_state]. rewrite (state_restored _ _ Hs). reflexivity.
  - split_and!; reflexivity.
Qed.

End KeyedCorrect.

(** ** A concrete pool

    Two roles, keys bound by parity, a worker for each. *)

Definition keyed_demo_workers : WorkerTypes := {|
  Worker := nat; WorkerError := nat; WorkerChild := nat; WorkerPhase := nat; WorkerSends := nat;
  Addr := nat; Msg := nat; Nonce := nat; Installed := nat; Endpoint := nat;
  Plan := nat; Ready := nat; Rejection := nat; worker_endpoint := fun i => i
|}.

Definition keyed_demo : KeyedTypes := {|
  keyed_workers := keyed_demo_workers;
  KeyedRole := nat; keyed_role_eq := Nat.eq_dec; KeyedSource := nat; KeyedWorkerRejection := nat;
  KeyedSourceRejection := nat; KeyedJob := nat; KeyedResult := nat; Key := nat; key_ord := nat_Ord;
  CustomerEndpoint := nat; ManagementEndpoint := nat; DiagnosticRoute := nat
|}.

#[local] Existing Instance keyed_demo.

Definition keyed_demo_config : Config :=
  mkConfig (mkStartupLimit (mkPositive 1))
    (Recovery_Permanent 0 (mkLimit 3 1000) (mkRelease ImmediateSchedule) Reaction_RetireRole)
    (backlog_capacity_new 4) (mkBindingCapacity (mkPositive 2)) Interruption_Retry WaitForActorGraph Terminate.

Definition keyed_demo_prepared : list (PreparedWorker Role Worker Plan) :=
  [mkPrepared (0 : Role) (with_startup (10 : Worker) (20 : Plan));
   mkPrepared (1 : Role) (with_startup (11 : Worker) (21 : Plan))].

Definition keyed_demo_select : Key -> Role := fun key => Nat.modulo key 2.

Definition keyed_id (n : N) : CreationId := Build_CreationId n.
Definition keyed_attempt (n : N) (t : Token) : WorkerAttempt := mkAttempt (keyed_id n) t.

Definition keyed_established (n : N) : KeyedEvent :=
  Event_WorkerCreationsSettled (Creation_Settled (Creations_one
    (Attempted (Settlement.Accepted (Outcome_Established
      (mkCommitted (keyed_id n) Birth (actor_issued (7 : Installed)))))))).
Definition keyed_initialized (n : N) (t : Token) : KeyedEvent :=
  Event_WorkerInitialization (initialize_resolve
    (mkInitialize (keyed_attempt n t) (mkInitialization (keyed_attempt n t) (S t)) (issued (7 : Installed)) (20 : Plan))
    Outcome_ReadyForStartup).
Definition keyed_grant (n : N) (t g : Token) : WorkerStartupGrant := mkGrant (keyed_attempt n t) g.
Definition keyed_started (n : N) (t g : Token) : KeyedEvent :=
  Event_WorkerStartupReported (mkStartup (keyed_attempt n t) (keyed_grant n t g) Startup_Started).
Definition keyed_ready (n : N) (t g : Token) : KeyedEvent :=
  Event_WorkerStartupReported (grant_resolve (keyed_grant n t g) (Ok (9 : Ready))).
Definition keyed_to (customer : nat) : CustomerRoute := Logical (mkRecipient (customer : Addr)).
Definition keyed_job (k : N) (key payload customer : nat) : KeyedEvent :=
  Event_Command (mkUser (0 : Addr) (keyed_submit (mkSubmissionId k) (key : Key) (payload : Job) (keyed_to customer))).
Definition keyed_generation (n : N) : BindingGeneration := generation_issued n 4.
Definition keyed_move : BindingCommand :=
  command_rebalance (binding_request_new 1) (2 : Key) (Expect_Exact (keyed_generation 1)) (1 : Role)
    (Logical (mkRecipient (60 : Addr))).

(** Both workers serve; the keys 2 and 3 are bound to their roles, two jobs of
    key 2 and one of key 3. *)
Definition keyed_serving : list KeyedEvent :=
  [keyed_established 1; keyed_established 2; keyed_initialized 1 0; keyed_initialized 2 2;
   keyed_started 1 0 5; keyed_ready 1 0 5; keyed_started 2 2 6; keyed_ready 2 2 6;
   keyed_job 1 2 100 50; keyed_job 2 3 101 51; keyed_job 3 2 102 52].

Definition keyed_receipt (k n : N) (t : Token) : KeyedEvent :=
  Event_AssignmentSettled (Attempted (Settlement.Accepted (mkReceipt (mkAssignmentId k) (keyed_attempt n t)))).
Definition keyed_completed (k n : N) (t authority : Token) (r : nat) : KeyedEvent :=
  Event_WorkerCompleted (mkCompletionReport (keyed_id n)
    (mkCompletion (r : WorkerResult) (mkAuthority (mkAssignmentId k) (keyed_attempt n t) authority))).
Definition keyed_stop (n : N) : ChildStopped Addr := mkChildStopped (keyed_id n) (Ok Normal) 0%N.
Definition keyed_stopped (n : N) : KeyedEvent := Event_WorkerStopped (keyed_stop n).
Definition keyed_resolved (n : N) : KeyedEvent := Event_WorkerShutdownSettled (ShutdownAccepted (mkShutdownId n)).

Definition keyed_moving : list KeyedEvent :=
  [keyed_receipt 1 1 0; keyed_completed 1 1 0 7 77; Event_Command (mkUser (0 : Addr) (keyed_binding keyed_move))].
Definition keyed_retiring : list KeyedEvent :=
  keyed_serving ++ keyed_moving ++ [Event_Shutdown the_ShutdownRequested].

Definition keyed_at (inputs : list KeyedEvent) : Self * list KeyedActions :=
  default (0, pool_of keyed_demo_prepared keyed_demo_select keyed_demo_config, [])
    (life 0 keyed_demo_prepared keyed_demo_select keyed_demo_config inputs).

(** Once its binding moved, the jobs that were accepted under the old one keep
    it. *)
Example keyed_retiring_answers :
  let served := evidence_issued (keyed_generation 1) (role_name_new (0 : Role)) in
  let other := evidence_issued (keyed_generation 2) (role_name_new (1 : Role)) in
  (keyed_at keyed_retiring).2 ≫= KeyedInvariant.replies =
  [(keyed_to 50, Keyed_Accepted (mkSubmissionId 1) (mkJobId 1) served);
   (keyed_to 51, Keyed_Accepted (mkSubmissionId 2) (mkJobId 2) other);
   (keyed_to 52, Keyed_Accepted (mkSubmissionId 3) (mkJobId 3) served);
   (keyed_to 50, Keyed_Completed (mkJobId 1) served (77 : WorkerResult));
   (keyed_to 52, Keyed_ReturnedAssigned (mkJobId 3) served (102 : Job) Assigned_PoolShutdown);
   (keyed_to 51, Keyed_ReturnedAssigned (mkJobId 2) other (101 : Job) Assigned_PoolShutdown)].
Proof. vm_compute. reflexivity. Qed.

(** The answers that the retirement waits for end it. *)
Example keyed_demo_ends :
  state (keyed_at (keyed_retiring ++ [keyed_stopped 1; keyed_resolved 0; keyed_stopped 2; keyed_resolved 1])).1.2 =
  State_Stopped.
Proof. vm_compute. reflexivity. Qed.

Lemma keyed_at_life inputs :
  is_Some (life 0 keyed_demo_prepared keyed_demo_select keyed_demo_config inputs) ->
  life 0 keyed_demo_prepared keyed_demo_select keyed_demo_config inputs =
    Some ((keyed_at inputs).1, (keyed_at inputs).2).
Proof. unfold keyed_at. by intros [[self acts] ->]. Qed.

Lemma keyed_life_serving : is_Some (life 0 keyed_demo_prepared keyed_demo_select keyed_demo_config keyed_serving).
Proof. vm_compute. by eexists. Qed.

Lemma keyed_life_retiring : is_Some (life 0 keyed_demo_prepared keyed_demo_select keyed_demo_config keyed_retiring).
Proof. vm_compute. by eexists. Qed.

Lemma keyed_demo_config_ok : config_ok keyed_demo_config.
Proof. vm_compute. discriminate. Qed.

Definition operating_of (s : KeyedPoolState) : KeyedOperating :=
  match s with State_Operating o => o | _ => mkOperating [] (mkTable (mkBindingCapacity (mkPositive 1)) [] (mkGenerations None 0)) end.

Definition retiring_of (s : KeyedPoolState) : list RetiringWorker * ShutdownDeadline :=
  match s with State_Retiring l d => (l, d) | _ => ([], Unlimited) end.


Lemma keyed_serving_state :
  state (keyed_at keyed_serving).1.2 = State_Operating (operating_of (state (keyed_at keyed_serving).1.2)).
Proof. vm_compute. reflexivity. Qed.

Lemma keyed_retiring_state :
  state (keyed_at keyed_retiring).1.2 =
  State_Retiring (retiring_of (state (keyed_at keyed_retiring).1.2)).1 (retiring_of (state (keyed_at keyed_retiring).1.2)).2.
Proof. vm_compute. reflexivity. Qed.

(** *** Witnesses *)

Lemma keyed_customers_settled_witness :
  (exists admitted closed, ledger keyed_retiring ((keyed_at keyed_retiring).2 ≫= KeyedInvariant.replies)
     admitted closed (open_jobs (keyed_at keyed_retiring).1)) /\
  open_jobs (keyed_at keyed_retiring).1 = [].
Proof.
  destruct (keyed_customers_settled (KT := keyed_demo) 0 keyed_demo_prepared keyed_demo_select keyed_demo_config
    keyed_retiring (keyed_at keyed_retiring).1 (keyed_at keyed_retiring).2 keyed_demo_config_ok
    (keyed_at_life _ keyed_life_retiring)) as [H Ho].
  rewrite keyed_retiring_state in Ho. split; [exact H|exact Ho].
Defined.

Lemma keyed_affinity_witness :
  Forall (fun cell => sorted (cell_queue cell)) (roles (operating_of (state (keyed_at keyed_serving).1.2))).
Proof.
  eapply Forall_impl; [exact (keyed_affinity (KT := keyed_demo) 0 keyed_demo_prepared keyed_demo_select
    keyed_demo_config keyed_serving (keyed_at keyed_serving).1 (keyed_at keyed_serving).2 _ keyed_demo_config_ok
    (keyed_at_life _ keyed_life_serving) keyed_serving_state)|].
  intros cell (_ & H & _). exact H.
Defined.

(** The table is full: a third key is rejected. *)
Lemma keyed_submission_answered_witness :
  exists self' a o', transition (keyed_at keyed_serving).1 (keyed_job 4 4 103 53) = Some (self', a) /\
    state self'.2 = State_Operating o'.
Proof.
  assert (Ht : exists self' a, transition (keyed_at keyed_serving).1 (keyed_job 4 4 103 53) = Some (self', a))
    by (vm_compute; by eexists _, _).
  destruct Ht as (self' & a & Ht).
  destruct (keyed_submission_answered (KT := keyed_demo) 0 keyed_demo_prepared keyed_demo_select
    keyed_demo_config keyed_serving (keyed_at keyed_serving).1 (keyed_at keyed_serving).2 _ 0
    (mkSubmissionId 4) 4 103 (keyed_to 53) self' a keyed_demo_config_ok
    (keyed_at_life _ keyed_life_serving) keyed_serving_state Ht) as (o' & Hs & _).
  exists self', a, o'. split; [exact Ht|exact Hs].
Defined.

Lemma keyed_binding_refines_witness :
  exists o' reply, managed (operating_of (state (keyed_at keyed_serving).1.2)) keyed_move o' reply.
Proof.
  assert (Ht : exists self' a, transition (keyed_at keyed_serving).1
    (Event_Command (mkUser (0 : Addr) (keyed_binding keyed_move))) = Some (self', a)) by (vm_compute; by eexists _, _).
  destruct Ht as (self' & a & Ht).
  destruct (keyed_binding_refines (KT := keyed_demo) 0 keyed_demo_prepared keyed_demo_select
    keyed_demo_config keyed_serving (keyed_at keyed_serving).1 (keyed_at keyed_serving).2 _ 0
    keyed_move self' a keyed_demo_config_ok (keyed_at_life _ keyed_life_serving) keyed_serving_state Ht)
    as (o' & reply & _ & _ & _ & Hm).
  exists o', reply. exact Hm.
Defined.

Lemma keyed_generations_fence_witness :
  length (bindings (affinity (operating_of (state (keyed_at keyed_serving).1.2)))) <= 2.
Proof.
  assert (Hr : exists self' acts', run (keyed_at keyed_serving).1 keyed_moving = Some (self', acts') /\
    state self'.2 = State_Operating (operating_of (state self'.2))) by (vm_compute; by eexists _, _).
  destruct Hr as (self' & acts' & Hr & Hs).
  exact (proj1 (keyed_generations_fence (KT := keyed_demo) 0 keyed_demo_prepared keyed_demo_select
    keyed_demo_config keyed_serving (keyed_at keyed_serving).1 (keyed_at keyed_serving).2 _ keyed_moving self' acts' _
    keyed_demo_config_ok (keyed_at_life _ keyed_life_serving) keyed_serving_state Hr Hs)).
Defined.

Lemma keyed_never_panics_witness :
  exists self' acts, run (keyed_at []).1 keyed_retiring = Some (self', acts) /\ length acts = 15.
Proof.
  refine (keyed_never_panics (KT := keyed_demo) 0 keyed_demo_prepared keyed_demo_select keyed_demo_config
    (keyed_at []).1 _ keyed_retiring keyed_demo_config_ok _).
  vm_compute. reflexivity.
Defined.

Lemma keyed_source_custody_witness :
  sum_list_with draining_source (retiring_of (state (keyed_at keyed_retiring).1.2)).1 =
  sources_out (recovery (keyed_at keyed_retiring).1.2).
Proof.
  pose proof (keyed_source_custody (KT := keyed_demo) 0 keyed_demo_prepared keyed_demo_select keyed_demo_config
    keyed_retiring (keyed_at keyed_retiring).1 (keyed_at keyed_retiring).2 keyed_demo_config_ok
    (keyed_at_life _ keyed_life_retiring)) as [_ H].
  rewrite keyed_retiring_state in H. exact H.
Defined.




Lemma keyed_retiring_unanswered_witness :
  exists a, transition (keyed_at keyed_retiring).1 (keyed_job 4 4 103 53) = Some ((keyed_at keyed_retiring).1, a) /\
    KeyedInvariant.replies a = [].
Proof.
  destruct (keyed_retiring_unanswered (KT := keyed_demo) (keyed_at keyed_retiring).1 _ _ 0
    (keyed_submit (KT := keyed_demo) (mkSubmissionId 4) 4 103 (keyed_to 53)) keyed_retiring_state) as (a & Ht & Hr & _).
  exists a. split; [exact Ht|exact Hr].
Defined.

(** The first worker stops after it was started and before it was ready. *)
Definition keyed_starting : list KeyedEvent :=
  [keyed_established 1; keyed_established 2; keyed_initialized 1 0; keyed_started 1 0 5].

Lemma keyed_pre_ready_stop_ignored_witness :
  exists a, transition (keyed_at keyed_starting).1 (keyed_stopped 1) = Some ((keyed_at keyed_starting).1, a) /\
    worker_preparations (sends a) = [].
Proof.
  assert (Ht : exists o position cell rest w, state (keyed_at keyed_starting).1.2 = State_Operating o /\
    take_at (is_worker (stopped_child (keyed_stop 1)) ∘ cell_member) (roles o) = Some (position, cell, rest) /\
    member_state (cell_member cell) = Member_Worker w /\ pre_ready (phase w) = true)
    by (vm_compute; eexists _, _, _, _, _; by repeat split).
  destruct Ht as (o & position & cell & rest & w & Hs & Ht & Hm & Hp).
  destruct (keyed_pre_ready_stop_ignored (KT := keyed_demo) (keyed_at keyed_starting).1 o (keyed_stop 1) position cell
    rest w Hs Ht Hm Hp) as (a & E & _ & Hw & _).
  exists a. split; [exact E|exact Hw].
Defined.
