(* ===== verification/Directory.v ===== *)
(** * The dynamic supervisor ([templates/supervisor/directory/])

    Commands, replies, lifecycle, events and entries: [protocol.rs],
    [lifecycle.rs], [diagnostic.rs], [event.rs], [requests.rs], [capacity.rs],
    [config.rs], [entry/mod.rs] and [entry/retirement.rs].  Then [mod.rs]:
    commands, the settlements of proxy creations and proxy inputs, the reports
    and stops of proxies, and the shutdown of the whole directory.

    A dynamic supervisor keeps one stable proxy per key.  An entry goes through
    the creation of its proxy, the start of its worker, service, replacements,
    and a retirement. *)

From stdpp Require Import base list option numbers.
From S2P Require Import Prelude Effects BTreeMap Timers Restart Termination Settlement Interpretation Creation Workers.
From S2P Require Import WorkerPreparation WorkerStartup ProxyWorker ProxyState StableProxy ProxyOperation PoolPolicy.

(** The type parameters: workers, ordered keys, and what the host keeps of a
    proxy (its installed value and endpoint, and what a failed creation
    returns). *)
Class DirectoryValues := {
  #[global] directory_workers :: WorkerTypes;
  Key : Type;
  #[global] directory_key_ord :: Ord Key;
  ProxyInstalled : Type;
  ProxyEndpoint : Type;
  ProxyError : Type;
  ProxyInitialization : Type;
  ReplyEndpoint : Type;
  #[global] proxy_endpoint :: EndpointAddress ProxyInstalled ProxyEndpoint
}.

(** ** Rejections ([protocol.rs]) *)

Inductive StartRejection : Type :=
| Start_AlreadyExists
| Start_AtCapacity
| Start_ShuttingDown
| Start_EntryGenerationExhausted
| Start_OperationExhausted
| Start_ProxyCreationExhausted.

Inductive ReplaceRejection : Type :=
| Replace_Unknown
| Replace_Unavailable
| Replace_ShuttingDown
| Replace_OperationExhausted.

(** [mod.rs] *)
Inductive UnexpectedExit : Type := KeepEmpty | Retire.

(** ** Lifecycle causes ([lifecycle.rs]) *)

Inductive EntryRetirement : Type :=
| Retired_Cancellation
| Retired_StartFailed
| Retired_UnexpectedWorkerStopped
| Retired_Stop
| Retired_Shutdown.

Inductive EntryStopFailureReason : Type :=
| ControlRejected (reason : ChildInputReason)
| Stop_InterpreterCorrupt (fault : InterpreterFault)
| Stop_InterpretationSkipped.

Inductive WorkerChange : Type := Change_Start | Change_Replacement.

Inductive WorkerChangeInterruption : Type :=
| ExplicitStop (operation : N)
| SupervisorShutdown (change : WorkerChange).

(** [capacity.rs] *)
Record EntryCapacity := mkEntryCapacity { entry_maximum : PositiveCapacity }.

Definition entry_capacity_new (maximum : nat) : result EntryCapacity ZeroCapacity :=
  map_result mkEntryCapacity (capacity_new maximum).

Definition entries_maximum (c : EntryCapacity) : nat := capacity_get (entry_maximum c).

Section DirectoryProtocol.
  Context `{DV : DirectoryValues}.

Abbreviation submission := (WorkerSubmission Worker Plan).
Abbreviation proxy_actor := (EstablishedActor ProxyInstalled).

Record CancelAuthority := authority_issued { authority_key : Key; authority_operation : N }.

Record WorkerChangeReceipt := mkChangeReceipt { receipt_key : Key; receipt_cancel : CancelAuthority }.

Record WorkerChangeRejection (Reason : Type) := mkChangeRejection {
  rejected_key : Key;
  rejected_submission : submission;
  rejected_reason : Reason
}.
Arguments mkChangeRejection {Reason} _ _ _.

Inductive StopRejection : Type :=
| StopRejected_Unknown (key : Key)
| StopRejected_Unavailable (key : Key)
| StopRejected_AlreadyStopping (key : Key)
| StopRejected_ShuttingDown (key : Key)
| StopRejected_OperationExhausted (key : Key).

Inductive DynamicStatus : Type :=
| Status_CreatingProxy
| Status_WaitingForStartup
| Status_AwaitingProxy
| Status_Ready (proxy : EstablishedRecipient ProxyEndpoint)
| Status_Empty
| Status_Replacing
| Status_Stopping
| Status_Cancelling
| Status_Retiring
| Status_Draining.

Inductive QueryReply : Type :=
| Query_Unknown (key : Key)
| Query_Known (key : Key) (status : DynamicStatus).

Inductive CancellationReceipt : Type :=
| Cancel_Returned (authority : CancelAuthority) (s : submission)
| Cancel_Pending (authority : CancelAuthority) (phase : DynamicStatus)
| Cancel_Committed (authority : CancelAuthority) (resulting_phase : DynamicStatus)
| Cancel_Cancelled (authority : CancelAuthority)
| Cancel_Stale (authority : CancelAuthority)
| Cancel_Draining (authority : CancelAuthority).

Definition DirectoryRoute : Type := ReplyRoute Addr ReplyEndpoint.
Definition StartReply : Type := result WorkerChangeReceipt (WorkerChangeRejection StartRejection).
Definition ReplaceReply : Type := result WorkerChangeReceipt (WorkerChangeRejection ReplaceRejection).
Definition StopReply : Type := result Key StopRejection.

Inductive DynamicCommand : Type :=
| Directory_Start (key : Key) (s : submission) (reply_to : DirectoryRoute)
| Directory_Replace (key : Key) (s : submission) (reply_to : DirectoryRoute)
| Directory_Stop (key : Key) (reply_to : DirectoryRoute)
| Directory_Query (key : Key) (reply_to : DirectoryRoute)
| Directory_Cancel (authority : CancelAuthority) (reply_to : DirectoryRoute).

(** ** Proxy inputs *)

Definition ProxyReceipt : Type := @ProxyInputReceipt proxy_actor.

Definition ProxyInputResult : Type := ActionItemResult ProxyOperation ProxyReceipt ChildInputReason Never.

(** [StableProxyCreationSettlement] and the batch it came in *)
Definition ProxySettlement : Type :=
  ChildSettlement Nonce StableProxy ProxyError ProxyInitialization ProxyInstalled.
Definition ProxiesSettled : Type :=
  CreationsSettled Nonce StableProxy ProxyError ProxyInitialization ProxyInstalled.

(** [ChildReport<T>] *)
Record ChildReport (T : Type) := mkChildReport { report_child : CreationId; report_value : T }.
Arguments mkChildReport {T} _ _.
Arguments report_child {T} _.
Arguments report_value {T} _.

(** ** Lifecycle ([lifecycle.rs]) *)

Record EntryStopFailure := mkStopFailure {
  failure_reason : EntryStopFailureReason;
  failure_stopped : option (ChildStopped Addr)
}.

Inductive CancellationOutcome : Type :=
| Cancellation_WorkerReturned
| Cancellation_ProxyInputRejected
| Cancellation_ProxyReported (outcome : ProxyOutcome).

Inductive InterruptedWorker : Type :=
| Interrupted_Submission (s : submission)
| Interrupted_ProxyInputRejected
| Interrupted_ProxyReported (outcome : ProxyOutcome).

Inductive ReplacementFailure : Type :=
| Failed_ProxyRefused (w : Worker) (startup : Plan) (phase : ProxyPhase)
| Failed_WorkerAttemptsExhausted (w : Worker) (startup : Plan)
| Failed_WorkerCreationRejected (rejection : WorkerCreationRejection Worker WorkerError HostedInitialization)
    (startup : Plan) (stopped : option (ChildStopped Addr))
| Failed_WorkerUnavailable (drain : ProxyDrain).

Inductive DynamicLifecycle : Type :=
| Life_Started (key : Key) (generation operation : N) (proxy : proxy_actor)
| Life_StartCreationRejected (key : Key) (generation : N) (s : submission) (creation : ProxySettlement)
| Life_WorkerChangeInterrupted (key : Key) (generation operation : N)
    (interruption : WorkerChangeInterruption) (worker : InterruptedWorker)
| Life_StartInputRejected (key : Key) (generation : N)
| Life_ReplacementInputRejected (key : Key) (generation operation : N)
| Life_StartOutcomeRejected (key : Key) (generation operation : N) (outcome : InitialWorkerOutcome)
| Life_Replaced (key : Key) (generation operation : N) (proxy : proxy_actor)
| Life_ReplacementFailed (key : Key) (generation operation : N) (failure : ReplacementFailure)
| Life_StopFinished (key : Key) (generation operation : N) (proxy : proxy_actor)
    (r : result (ChildStopped Addr) EntryStopFailure)
| Life_UnexpectedWorkerStopped (key : Key) (generation : N) (worker : WorkerAttempt) (readiness : Ready)
    (stopped : ChildStopped Addr) (disposition : UnexpectedExit)
| Life_CommandUnavailable (key : Key) (generation : N) (sender : Addr) (phase : ProxyPhase) (command : Msg)
| Life_OperationCancelled (key : Key) (generation operation : N) (change : WorkerChange)
    (outcome : CancellationOutcome)
| Life_EntryRetired (key : Key) (generation : N) (cause : EntryRetirement).

(** ** Diagnostics ([diagnostic.rs]) *)

Inductive DynamicDiagnostic : Type :=
| Dynamic_RejectedInput (key : Key) (s : submission)
| Dynamic_RejectedProxyOutcome (report : ChildReport ProxyOutcome)
| Dynamic_ProxyDiagnosticReported (report : ChildReport ProxyDiagnostic)
| Dynamic_ProxyInputRejected (key : Key) (generation : N) (input : ProxyInputResult)
| Dynamic_ProxyCreationRejected (key : Key) (generation : N) (creation : ProxySettlement)
| Dynamic_ProxyShutdownRejected (key : Key) (generation : N) (input : ProxyInputResult)
| Dynamic_RejectedProxyStop (stopped : ChildStopped Addr).

(** ** Events ([event.rs]) *)

Inductive DynamicSupervisorEvent : Type :=
| Event_Command (u : User Addr DynamicCommand)
| Event_ProxyCreationsSettled (proxies : ProxiesSettled)
| Event_ProxyInputSettled (input : ProxyInputResult)
| Event_ProxyReported (report : ChildReport ProxyOutcome)
| Event_ProxyDiagnosed (report : ChildReport ProxyDiagnostic)
| Event_ProxyStopped (stopped : ChildStopped Addr)
| Event_Shutdown (s : ShutdownRequested)
| Event_ShutdownScheduleSettled (r : ScheduleResult)
| Event_ShutdownElapsed (e : TimerElapsed TimerId).

Definition DynamicEvent_user (from : Addr) (message : DynamicCommand) : DynamicSupervisorEvent :=
  Event_Command (mkUser from message).

Definition DynamicEvent_into_user (e : DynamicSupervisorEvent) :
  result (User Addr DynamicCommand) DynamicSupervisorEvent :=
  match e with Event_Command u => Ok u | e => Err e end.

#[export] Instance DynamicEvent_User : UserEvent Addr DynamicCommand DynamicSupervisorEvent := {
  user := DynamicEvent_user;
  into_user := DynamicEvent_into_user
}.

(** ** Retirement of an entry ([entry/retirement.rs]) *)

Inductive ServiceAvailability : Type :=
| Service_Ready (worker : WorkerAttempt) (readiness : Ready)
| Service_Empty (previous : WorkerAttempt).

Inductive ProxyShutdown : Type :=
| ProxyShutdown_AwaitingSettlement (witness : ProxyOperationWitness)
| ProxyShutdown_Accepted (operation : ProxyOperationId)
| ProxyShutdown_Rejected.

Inductive ProxyInputPurpose : Type :=
| Purpose_Cancellation (change : WorkerChange)
| Purpose_InterruptedStart (operation : N)
| Purpose_SupervisorStart (operation : N)
| Purpose_SupervisorReplacement (operation : N) (service : ServiceAvailability).

Inductive ProxyInputCustody : Type :=
| Input_AwaitingSettlement (witness : ProxyOperationWitness)
| Input_AwaitingOutcome (operation : ProxyOperationId)
| Input_Rejected
| Input_ProxyReported (outcome : ProxyOutcome).

Inductive RetiringWork : Type :=
| Work_StartFailed
| Work_UnexpectedWorkerStopped
| Work_InterruptedStart
| Work_SupervisorShutdown (service : option ServiceAvailability)
| Work_CancelledWorkerReturned (change : WorkerChange)
| Work_Transferred (purpose : ProxyInputPurpose) (input : ProxyInputCustody).

Record ProxyRetirement := mkRetirement {
  retirement_proxy : proxy_actor;
  retirement_shutdown : ProxyShutdown;
  retirement_work : RetiringWork;
  retirement_stopped : option (ChildStopped Addr)
}.

Definition into_interrupted_worker (i : ProxyInputCustody) : result InterruptedWorker ProxyInputCustody :=
  match i with
  | Input_Rejected => Ok Interrupted_ProxyInputRejected
  | Input_ProxyReported outcome => Ok (Interrupted_ProxyReported outcome)
  | input => Err input
  end.

Definition settle_input (work : RetiringWork) (input : ProxyInputResult) :
  result (RetiringWork * option ProxyInputResult) (RetiringWork * ProxyInputResult) :=
  match work with
  | Work_Transferred purpose (Input_AwaitingSettlement witness) =>
      match witness_admit witness input with
      | Ok (Attempted (Settlement.Accepted receipt)) =>
          Ok (Work_Transferred purpose (Input_AwaitingOutcome (receipt_operation receipt)), None)
      | Ok input => Ok (Work_Transferred purpose Input_Rejected, Some input)
      | Err (witness, input) => Err (Work_Transferred purpose (Input_AwaitingSettlement witness), input)
      end
  | work => Err (work, input)
  end.

Definition retirement_begin (creation : CreationId) (proxy : proxy_actor) (work : RetiringWork) :
  Alloc (ProxyRetirement * ProxyOperation) :=
  '(witness, operation) ← operation_shutdown creation;
  mret (mkRetirement proxy (ProxyShutdown_AwaitingSettlement witness) work None, operation).

(** ** Entries ([entry/mod.rs]) *)

Inductive WorkerChangeDisposition : Type := Disposition_Committed | Disposition_Cancelled.

Inductive DynamicEntryPhase : Type :=
| Entry_CreatingProxy (s : submission)
| Entry_ShuttingDownProxyCreation
| Entry_DrainingProxyCreationStop
| Entry_WaitingForStartup (proxy : proxy_actor) (s : submission)
| Entry_WaitingForProxyInput (proxy : proxy_actor) (witness : ProxyOperationWitness)
| Entry_WaitingForProxyOutcome (proxy : proxy_actor) (operation : ProxyOperationId)
| Entry_CancellingProxyCreation
| Entry_StoppingProxyCreation (start_operation : N) (s : submission)
| Entry_Available (proxy : proxy_actor) (service : ServiceAvailability) (latest : WorkerChangeDisposition)
| Entry_ReplacementQueued (proxy : proxy_actor) (service : ServiceAvailability) (s : submission)
| Entry_ReplacementAwaitingReceipt (proxy : proxy_actor) (service : ServiceAvailability)
    (witness : ProxyOperationWitness)
| Entry_ReplacementAwaitingOutcome (proxy : proxy_actor) (service : ServiceAvailability)
    (operation : ProxyOperationId)
| Entry_Stopping (proxy : proxy_actor) (restorable : option ServiceAvailability) (shutdown : ProxyShutdown)
    (stopped : option (ChildStopped Addr))
| Entry_Retiring (r : ProxyRetirement).

Definition service_status (proxy : proxy_actor) (service : ServiceAvailability) : DynamicStatus :=
  match service with
  | Service_Ready _ _ => Status_Ready (actor_recipient proxy)
  | Service_Empty _ => Status_Empty
  end.

Definition phase_status (p : DynamicEntryPhase) : DynamicStatus :=
  match p with
  | Entry_CreatingProxy _ => Status_CreatingProxy
  | Entry_ShuttingDownProxyCreation | Entry_DrainingProxyCreationStop => Status_Draining
  | Entry_WaitingForStartup _ _ => Status_WaitingForStartup
  | Entry_WaitingForProxyInput _ _ | Entry_WaitingForProxyOutcome _ _ => Status_AwaitingProxy
  | Entry_CancellingProxyCreation => Status_Cancelling
  | Entry_StoppingProxyCreation _ _ => Status_Stopping
  | Entry_Available proxy service _ => service_status proxy service
  | Entry_ReplacementQueued _ _ _ | Entry_ReplacementAwaitingReceipt _ _ _
  | Entry_ReplacementAwaitingOutcome _ _ _ => Status_Replacing
  | Entry_Stopping _ _ _ _ => Status_Stopping
  | Entry_Retiring _ => Status_Retiring
  end.

Abbreviation interruption := (N * WorkerChangeInterruption * submission)%type.

(** What a shutdown makes of an established proxy: its remaining work and the
    submission that it never got. *)
Definition shutdown_work (p : DynamicEntryPhase) (operation : N) :
  option (proxy_actor * RetiringWork * option interruption) :=
  match p with
  | Entry_WaitingForStartup proxy s =>
      Some (proxy, Work_SupervisorShutdown None, Some (operation, SupervisorShutdown Change_Start, s))
  | Entry_WaitingForProxyInput proxy witness =>
      Some (proxy, Work_Transferred (Purpose_SupervisorStart operation) (Input_AwaitingSettlement witness), None)
  | Entry_WaitingForProxyOutcome proxy proxy_operation =>
      Some (proxy, Work_Transferred (Purpose_SupervisorStart operation) (Input_AwaitingOutcome proxy_operation),
            None)
  | Entry_Available proxy service _ => Some (proxy, Work_SupervisorShutdown (Some service), None)
  | Entry_ReplacementQueued proxy service s =>
      Some (proxy, Work_SupervisorShutdown (Some service),
            Some (operation, SupervisorShutdown Change_Replacement, s))
  | Entry_ReplacementAwaitingReceipt proxy service witness =>
      Some (proxy, Work_Transferred (Purpose_SupervisorReplacement operation service)
                     (Input_AwaitingSettlement witness), None)
  | Entry_ReplacementAwaitingOutcome proxy service proxy_operation =>
      Some (proxy, Work_Transferred (Purpose_SupervisorReplacement operation service)
                     (Input_AwaitingOutcome proxy_operation), None)
  | _ => None
  end.

Definition phase_shutdown (p : DynamicEntryPhase) (creation : CreationId) (operation : N) :
  Alloc (DynamicEntryPhase * option ProxyOperation * option interruption) :=
  match p with
  | Entry_CreatingProxy s =>
      mret (Entry_ShuttingDownProxyCreation, None, Some (operation, SupervisorShutdown Change_Start, s))
  | Entry_StoppingProxyCreation start_operation s =>
      mret (Entry_DrainingProxyCreationStop, None, Some (start_operation, ExplicitStop operation, s))
  | p =>
      match shutdown_work p operation with
      | None => mret (p, None, None)
      | Some (proxy, work, interruption) =>
          '(retirement, shutdown) ← retirement_begin creation proxy work;
          mret (Entry_Retiring retirement, Some shutdown, interruption)
      end
  end.

Record DynamicEntry := mkEntry {
  entry_generation : N;
  entry_operation : N;
  entry_creation : CreationId;
  entry_phase : DynamicEntryPhase
}.

Definition with_phase (e : DynamicEntry) (p : DynamicEntryPhase) : DynamicEntry :=
  mkEntry (entry_generation e) (entry_operation e) (entry_creation e) p.

End DirectoryProtocol.

Arguments mkChangeRejection {DV Reason} _ _ _.
Arguments mkChildReport {T} _ _.
Arguments report_child {T} _.
Arguments report_value {T} _.

(** The route of lifecycle messages is any delivery route. *)
Class DirectoryTypes := {
  #[global] directory_values :: DirectoryValues;
  LifecycleRoute : Type;
  LifecycleSends : Type;
  DirectoryDiagnosticRoute : Type;
  #[global] lifecycle_sends :: SendEffects LifecycleSends;
  #[global] lifecycle_route :: DeliveryRoute LifecycleRoute DynamicLifecycle LifecycleSends
}.

Section DirectoryState.
  Context `{DT : DirectoryTypes}.

(** [requests.rs] *)
Record DynamicSupervisorRequests := mkDirectoryRequests {
  proxy_observations : InterpreterRequests ObserveChild;
  proxy_operations : list ProxyOperation;
  shutdown_schedules : list (ScheduleAfter TimerId);
  start_replies : ReplyDeliveries (Delivery Addr StartReply) (EstablishedDelivery ReplyEndpoint StartReply);
  replace_replies : ReplyDeliveries (Delivery Addr ReplaceReply) (EstablishedDelivery ReplyEndpoint ReplaceReply);
  stop_replies : ReplyDeliveries (Delivery Addr StopReply) (EstablishedDelivery ReplyEndpoint StopReply);
  query_replies : ReplyDeliveries (Delivery Addr QueryReply) (EstablishedDelivery ReplyEndpoint QueryReply);
  cancel_replies : ReplyDeliveries (Delivery Addr CancellationReceipt)
                     (EstablishedDelivery ReplyEndpoint CancellationReceipt);
  lifecycle : LifecycleSends;
  diagnostics : InterpreterRequests (DiagnosticAction DirectoryDiagnosticRoute DynamicDiagnostic)
}.

#[export] Instance DirectoryRequests_Sends : SendEffects DynamicSupervisorRequests := {
  sends_empty :=
    mkDirectoryRequests sends_empty [] [] sends_empty sends_empty sends_empty sends_empty sends_empty
      sends_empty sends_empty;
  sends_append a b :=
    mkDirectoryRequests (sends_append (proxy_observations a) (proxy_observations b))
      (proxy_operations a ++ proxy_operations b)
      (shutdown_schedules a ++ shutdown_schedules b)
      (sends_append (start_replies a) (start_replies b))
      (sends_append (replace_replies a) (replace_replies b))
      (sends_append (stop_replies a) (stop_replies b))
      (sends_append (query_replies a) (query_replies b))
      (sends_append (cancel_replies a) (cancel_replies b))
      (sends_append (lifecycle a) (lifecycle b))
      (sends_append (diagnostics a) (diagnostics b))
}.

Definition DirectoryActions : Type := Actions StableProxy Never DynamicSupervisorRequests.

(** [mod.rs] *)
Inductive SupervisorAvailability : Type :=
| Accepting (drain : ActorDrainPolicy)
| ShuttingDown (deadline : ShutdownDeadline).

Definition Services : Type := @BTreeMap Key DynamicEntry.

Record DynamicSupervisor := mkDirectory {
  services : Services;
  entries : EntryCapacity;
  startup_limit : StartupLimit;
  generations : option N;
  operations : option N;
  proxy_creations : CreationSequence;
  unexpected_exit : UnexpectedExit;
  availability : SupervisorAvailability;
  lifecycle_to : LifecycleRoute;
  diagnostics_to : DiagnosticDisposition DirectoryDiagnosticRoute
}.

(** [config.rs] *)
Record Config := mkConfig {
  config_entries : EntryCapacity;
  config_startup : StartupLimit;
  config_exit : UnexpectedExit;
  config_shutdown : ActorDrainPolicy;
  config_lifecycle : LifecycleRoute;
  config_diagnostics : DiagnosticDisposition DirectoryDiagnosticRoute
}.

Definition directory_new (c : Config) : DynamicSupervisor :=
  mkDirectory [] (config_entries c) (config_startup c) (Some 1%N) (Some 1%N) CreationSequence_new
    (config_exit c) (Accepting (config_shutdown c)) (config_lifecycle c) (config_diagnostics c).

End DirectoryState.

Section Directory.
  Context `{DT : DirectoryTypes}.

Abbreviation submission := (WorkerSubmission Worker Plan).
Abbreviation proxy_actor := (EstablishedActor ProxyInstalled).
Abbreviation acted := (result DirectoryActions DynamicSupervisorEvent).

(** A supervisor with the next fresh allocation. *)
Definition Self : Type := nat * DynamicSupervisor.

Definition alloc {X} (self : Self) (m : Alloc X) : Self * X :=
  let '(n, x) := m self.1 in ((n, self.2), x).

Definition set_services (self : Self) (m : Services) : Self :=
  let '(n, s) := self in
  (n, mkDirectory m (entries s) (startup_limit s) (generations s) (operations s) (proxy_creations s)
        (unexpected_exit s) (availability s) (lifecycle_to s) (diagnostics_to s)).

Definition set_generations (self : Self) (g : option N) : Self :=
  let '(n, s) := self in
  (n, mkDirectory (services s) (entries s) (startup_limit s) g (operations s) (proxy_creations s)
        (unexpected_exit s) (availability s) (lifecycle_to s) (diagnostics_to s)).

Definition set_operations (self : Self) (o : option N) : Self :=
  let '(n, s) := self in
  (n, mkDirectory (services s) (entries s) (startup_limit s) (generations s) o (proxy_creations s)
        (unexpected_exit s) (availability s) (lifecycle_to s) (diagnostics_to s)).

Definition set_creations (self : Self) (c : CreationSequence) : Self :=
  let '(n, s) := self in
  (n, mkDirectory (services s) (entries s) (startup_limit s) (generations s) (operations s) c
        (unexpected_exit s) (availability s) (lifecycle_to s) (diagnostics_to s)).

Definition set_availability (self : Self) (a : SupervisorAvailability) : Self :=
  let '(n, s) := self in
  (n, mkDirectory (services s) (entries s) (startup_limit s) (generations s) (operations s) (proxy_creations s)
        (unexpected_exit s) a (lifecycle_to s) (diagnostics_to s)).

(** [self.services.insert(key, entry)] *)
Definition put (self : Self) (key : Key) (e : DynamicEntry) : Self :=
  set_services self (bt_insert key e (services self.2)).

(** [self.operations = operation.checked_add(1)] *)
Definition advance_operations (self : Self) (operation : N) : Self :=
  set_operations self (checked_add u64_max operation 1).

(** ** Requests: each lane is assigned *)

Definition no_requests : DynamicSupervisorRequests := sends_empty.

Definition with_operations (l : list ProxyOperation) (r : DynamicSupervisorRequests) : DynamicSupervisorRequests :=
  mkDirectoryRequests (proxy_observations r) l (shutdown_schedules r) (start_replies r) (replace_replies r)
    (stop_replies r) (query_replies r) (cancel_replies r) (lifecycle r) (diagnostics r).

Definition with_schedules (l : list (ScheduleAfter TimerId)) (r : DynamicSupervisorRequests) :
  DynamicSupervisorRequests :=
  mkDirectoryRequests (proxy_observations r) (proxy_operations r) l (start_replies r) (replace_replies r)
    (stop_replies r) (query_replies r) (cancel_replies r) (lifecycle r) (diagnostics r).

Definition with_lifecycle (l : LifecycleSends) (r : DynamicSupervisorRequests) : DynamicSupervisorRequests :=
  mkDirectoryRequests (proxy_observations r) (proxy_operations r) (shutdown_schedules r) (start_replies r)
    (replace_replies r) (stop_replies r) (query_replies r) (cancel_replies r) l (diagnostics r).

Definition started_reply (to : DirectoryRoute) (reply : StartReply) (r : DynamicSupervisorRequests) :
  DynamicSupervisorRequests :=
  mkDirectoryRequests (proxy_observations r) (proxy_operations r) (shutdown_schedules r) (deliver to reply)
    (replace_replies r) (stop_replies r) (query_replies r) (cancel_replies r) (lifecycle r) (diagnostics r).

Definition replaced_reply (to : DirectoryRoute) (reply : ReplaceReply) (r : DynamicSupervisorRequests) :
  DynamicSupervisorRequests :=
  mkDirectoryRequests (proxy_observations r) (proxy_operations r) (shutdown_schedules r) (start_replies r)
    (deliver to reply) (stop_replies r) (query_replies r) (cancel_replies r) (lifecycle r) (diagnostics r).

Definition stopped_reply (to : DirectoryRoute) (reply : StopReply) (r : DynamicSupervisorRequests) :
  DynamicSupervisorRequests :=
  mkDirectoryRequests (proxy_observations r) (proxy_operations r) (shutdown_schedules r) (start_replies r)
    (replace_replies r) (deliver to reply) (query_replies r) (cancel_replies r) (lifecycle r) (diagnostics r).

Definition queried_reply (to : DirectoryRoute) (reply : QueryReply) (r : DynamicSupervisorRequests) :
  DynamicSupervisorRequests :=
  mkDirectoryRequests (proxy_observations r) (proxy_operations r) (shutdown_schedules r) (start_replies r)
    (replace_replies r) (stop_replies r) (deliver to reply) (cancel_replies r) (lifecycle r) (diagnostics r).

Definition cancelled_reply (to : DirectoryRoute) (reply : CancellationReceipt) (r : DynamicSupervisorRequests) :
  DynamicSupervisorRequests :=
  mkDirectoryRequests (proxy_observations r) (proxy_operations r) (shutdown_schedules r) (start_replies r)
    (replace_replies r) (stop_replies r) (query_replies r) (deliver to reply) (lifecycle r) (diagnostics r).

Definition observing (creation : CreationId) (r : DynamicSupervisorRequests) : DynamicSupervisorRequests :=
  mkDirectoryRequests (InterpreterRequests_one (mkObserveChild creation)) (proxy_operations r)
    (shutdown_schedules r) (start_replies r) (replace_replies r) (stop_replies r) (query_replies r)
    (cancel_replies r) (lifecycle r) (diagnostics r).

Definition diagnosing (self : Self) (d : DynamicDiagnostic) (r : DynamicSupervisorRequests) :
  DynamicSupervisorRequests :=
  mkDirectoryRequests (proxy_observations r) (proxy_operations r) (shutdown_schedules r) (start_replies r)
    (replace_replies r) (stop_replies r) (query_replies r) (cancel_replies r) (lifecycle r)
    (InterpreterRequests_one (diagnostic_action (diagnostics_to self.2) d)).

(** [Ok(Actions::send(requests))] *)
Definition sending (r : DynamicSupervisorRequests) : acted := Ok (send r).

(** [self.lifecycle.clone().deliver(message)] *)
Definition publish (self : Self) (m : DynamicLifecycle) : LifecycleSends := deliver (lifecycle_to self.2) m.

(** ** Entries *)

Definition take_proxy_entry (self : Self) (creation : CreationId) : option (Self * Key * DynamicEntry) :=
  '(_, (key, entry), rest) ← take_at (fun kv => bool_decide (entry_creation kv.2 = creation)) (services self.2);
  Some (set_services self rest, key, entry).

(** A transferred input that is not settled, or whose outcome is not reported. *)
Definition occupies (p : DynamicEntryPhase) : nat :=
  match p with
  | Entry_WaitingForProxyInput _ _ | Entry_WaitingForProxyOutcome _ _
  | Entry_ReplacementAwaitingReceipt _ _ _ | Entry_ReplacementAwaitingOutcome _ _ _
  | Entry_Retiring (mkRetirement _ _ (Work_Transferred _ (Input_AwaitingSettlement _ | Input_AwaitingOutcome _)) _) =>
      1
  | _ => 0
  end.

Definition waits (p : DynamicEntryPhase) : bool :=
  match p with Entry_WaitingForStartup _ _ | Entry_ReplacementQueued _ _ _ => true | _ => false end.

(** [min_by_key]: the first of the least operations *)
Fixpoint oldest (l : list (N * Key)) : option (N * Key) :=
  match l with
  | [] => None
  | x :: l => match oldest l with
              | Some y => if (y.1 <? x.1)%N then Some y else Some x
              | None => Some x
              end
  end.

Definition waiting_entries (m : Services) : list (N * Key) :=
  omap (fun kv => if waits (entry_phase kv.2) then Some (entry_operation kv.2, kv.1) else None) m.

Definition authorize_waiting (self : Self) : Self * list ProxyOperation :=
  let occupied := sum_list_with (fun kv => occupies (entry_phase kv.2)) (services self.2) in
  if startup_maximum (startup_limit self.2) <=? occupied then (self, [])
  else
    match oldest (waiting_entries (services self.2)) with
    | None => (self, [])
    | Some (_, key) =>
        match bt_remove key (services self.2) with
        | None => (self, [])
        | Some (entry, rest) =>
            let self := set_services self rest in
            match entry_phase entry with
            | Entry_WaitingForStartup proxy s =>
                let '(self, (witness, request)) := alloc self (operation_initial (entry_creation entry) s) in
                (put self key (with_phase entry (Entry_WaitingForProxyInput proxy witness)), [request])
            | Entry_ReplacementQueued proxy service s =>
                let '(self, (witness, request)) := alloc self (operation_replacement (entry_creation entry) s) in
                (put self key (with_phase entry (Entry_ReplacementAwaitingReceipt proxy service witness)), [request])
            | phase => (put self key (with_phase entry phase), [])
            end
        end
    end.

(** ** Retirement messages *)

Definition entry_retired (self : Self) (key : Key) (generation : N) (cause : EntryRetirement) : LifecycleSends :=
  publish self (Life_EntryRetired key generation cause).

Definition operation_cancelled (self : Self) (key : Key) (generation operation : N) (change : WorkerChange)
  (outcome : CancellationOutcome) : LifecycleSends :=
  sends_append (publish self (Life_OperationCancelled key generation operation change outcome))
    (publish self (Life_EntryRetired key generation Retired_Cancellation)).

(** ** Commands *)

Definition start_admission (self : Self) (key : Key) : result (N * N) StartRejection :=
  if bt_contains key (services self.2) then Err Start_AlreadyExists
  else if entries_maximum (entries self.2) <=? length (services self.2) then Err Start_AtCapacity
  else
    match generations self.2, operations self.2 with
    | Some generation, Some operation => Ok (generation, operation)
    | None, _ => Err Start_EntryGenerationExhausted
    | Some _, None => Err Start_OperationExhausted
    end.

Definition start (self : Self) (key : Key) (s : submission) (reply_to : DirectoryRoute) : Self * acted :=
  let rejected reason := sending (started_reply reply_to (Err (mkChangeRejection key s reason)) no_requests) in
  match start_admission self key with
  | Err reason => (self, rejected reason)
  | Ok (generation, operation) =>
      let '(creations, fresh) := issue (proxy_creations self.2) in
      let self := set_creations self creations in
      match fresh with
      | None => (self, rejected Start_ProxyCreationExhausted)
      | Some creation =>
          let self := set_generations self (checked_add u64_max generation 1) in
          let self := advance_operations self operation in
          let self := put self key (mkEntry generation operation creation (Entry_CreatingProxy s)) in
          let requests :=
            started_reply reply_to (Ok (mkChangeReceipt key (authority_issued key operation)))
              (observing creation no_requests) in
          (self, Ok (mkActions requests (Creations_one (birth creation StableProxy.new)) Continue))
      end
  end.

Definition replace (self : Self) (key : Key) (s : submission) (reply_to : DirectoryRoute) : Self * acted :=
  let rejected reason := sending (replaced_reply reply_to (Err (mkChangeRejection key s reason)) no_requests) in
  match bt_remove key (services self.2) with
  | None => (self, rejected Replace_Unknown)
  | Some (entry, rest) =>
      let self := set_services self rest in
      match entry_phase entry with
      | Entry_Available proxy service latest =>
          match operations self.2 with
          | None =>
              (put self key (with_phase entry (Entry_Available proxy service latest)),
               rejected Replace_OperationExhausted)
          | Some operation =>
              let self := advance_operations self operation in
              let self := put self key (mkEntry (entry_generation entry) operation (entry_creation entry)
                                          (Entry_ReplacementQueued proxy service s)) in
              let '(self, waiting) := authorize_waiting self in
              (self, sending (replaced_reply reply_to (Ok (mkChangeReceipt key (authority_issued key operation)))
                                (with_operations waiting no_requests)))
          end
      | phase => (put self key (with_phase entry phase), rejected Replace_Unavailable)
      end
  end.

Definition stop_operation_exhausted (self : Self) (key : Key) (e : DynamicEntry) (reply_to : DirectoryRoute) :
  Self * acted :=
  (put self key e, sending (stopped_reply reply_to (Err (StopRejected_OperationExhausted key)) no_requests)).

(** The proxy is asked to stop, and the entry waits for its stop. *)
Definition begin_stop (self : Self) (key : Key) (e : DynamicEntry) (operation : N) (proxy : proxy_actor)
  (restorable : option ServiceAvailability) (messages : LifecycleSends) (reply_to : DirectoryRoute) : Self * acted :=
  let '(self, (witness, shutdown)) := alloc self (operation_shutdown (entry_creation e)) in
  (put self key (mkEntry (entry_generation e) operation (entry_creation e)
                   (Entry_Stopping proxy restorable (ProxyShutdown_AwaitingSettlement witness) None)),
   sending (with_lifecycle messages (stopped_reply reply_to (Ok key) (with_operations [shutdown] no_requests)))).

(** The proxy that holds the input of an initial start is retired. *)
Definition stop_transferred (self : Self) (key : Key) (e : DynamicEntry) (operation : N) (proxy : proxy_actor)
  (input : ProxyInputCustody) (reply_to : DirectoryRoute) : Self * acted :=
  let '(self, (retirement, shutdown)) :=
    alloc self (retirement_begin (entry_creation e) proxy
                  (Work_Transferred (Purpose_InterruptedStart (entry_operation e)) input)) in
  (put self key (mkEntry (entry_generation e) operation (entry_creation e) (Entry_Retiring retirement)),
   sending (stopped_reply reply_to (Ok key) (with_operations [shutdown] no_requests))).

Definition stop (self : Self) (key : Key) (reply_to : DirectoryRoute) : Self * acted :=
  match bt_remove key (services self.2) with
  | None => (self, sending (stopped_reply reply_to (Err (StopRejected_Unknown key)) no_requests))
  | Some (entry, rest) =>
      let self := set_services self rest in
      match entry_phase entry with
      | Entry_Available proxy service _ =>
          match operations self.2 with
          | None =>
              stop_operation_exhausted self key
                (with_phase entry (Entry_Available proxy service Disposition_Committed)) reply_to
          | Some operation =>
              begin_stop (advance_operations self operation) key entry operation proxy (Some service) sends_empty
                reply_to
          end
      | Entry_CreatingProxy s =>
          match operations self.2 with
          | None => stop_operation_exhausted self key (with_phase entry (Entry_CreatingProxy s)) reply_to
          | Some operation =>
              let self := advance_operations self operation in
              (put self key (mkEntry (entry_generation entry) operation (entry_creation entry)
                               (Entry_StoppingProxyCreation (entry_operation entry) s)),
               sending (stopped_reply reply_to (Ok key) no_requests))
          end
      | Entry_WaitingForStartup proxy s =>
          match operations self.2 with
          | None => stop_operation_exhausted self key (with_phase entry (Entry_WaitingForStartup proxy s)) reply_to
          | Some operation =>
              let self := advance_operations self operation in
              let messages :=
                publish self (Life_WorkerChangeInterrupted key (entry_generation entry) (entry_operation entry)
                                (ExplicitStop operation) (Interrupted_Submission s)) in
              begin_stop self key entry operation proxy None messages reply_to
          end
      | Entry_WaitingForProxyInput proxy witness =>
          match operations self.2 with
          | None =>
              stop_operation_exhausted self key (with_phase entry (Entry_WaitingForProxyInput proxy witness)) reply_to
          | Some operation =>
              stop_transferred (advance_operations self operation) key entry operation proxy
                (Input_AwaitingSettlement witness) reply_to
          end
      | Entry_WaitingForProxyOutcome proxy proxy_operation =>
          match operations self.2 with
          | None =>
              stop_operation_exhausted self key
                (with_phase entry (Entry_WaitingForProxyOutcome proxy proxy_operation)) reply_to
          | Some operation =>
              stop_transferred (advance_operations self operation) key entry operation proxy
                (Input_AwaitingOutcome proxy_operation) reply_to
          end
      | (Entry_Stopping _ _ _ _ | Entry_StoppingProxyCreation _ _) as phase =>
          (put self key (with_phase entry phase),
           sending (stopped_reply reply_to (Err (StopRejected_AlreadyStopping key)) no_requests))
      | phase =>
          (put self key (with_phase entry phase),
           sending (stopped_reply reply_to (Err (StopRejected_Unavailable key)) no_requests))
      end
  end.

Definition query (self : Self) (key : Key) (reply_to : DirectoryRoute) : Self * acted :=
  let reply :=
    match bt_get key (services self.2) with
    | Some entry => Query_Known key (phase_status (entry_phase entry))
    | None => Query_Unknown key
    end in
  (self, sending (queried_reply reply_to reply no_requests)).

(** What a cancellation makes of the phase of its operation: the next phase, the
    shutdown of the proxy, and the receipt. *)
Definition cancel_phase (e : DynamicEntry) (authority : CancelAuthority) :
  Alloc (DynamicEntryPhase * list ProxyOperation * CancellationReceipt) :=
  let retire proxy work receipt : Alloc (DynamicEntryPhase * list ProxyOperation * CancellationReceipt) :=
    '(retirement, shutdown_request) ← retirement_begin (entry_creation e) proxy work;
    mret (Entry_Retiring retirement, [shutdown_request], receipt) in
  match entry_phase e with
  | Entry_CreatingProxy s => mret (Entry_CancellingProxyCreation, [], Cancel_Returned authority s)
  | Entry_WaitingForStartup proxy s =>
      retire proxy (Work_CancelledWorkerReturned Change_Start) (Cancel_Returned authority s)
  | Entry_WaitingForProxyInput proxy witness =>
      retire proxy (Work_Transferred (Purpose_Cancellation Change_Start) (Input_AwaitingSettlement witness))
        (Cancel_Pending authority Status_AwaitingProxy)
  | Entry_WaitingForProxyOutcome proxy proxy_operation =>
      retire proxy (Work_Transferred (Purpose_Cancellation Change_Start) (Input_AwaitingOutcome proxy_operation))
        (Cancel_Pending authority Status_AwaitingProxy)
  | Entry_CancellingProxyCreation as phase => mret (phase, [], Cancel_Cancelled authority)
  | Entry_Retiring (mkRetirement _ _
      (Work_CancelledWorkerReturned _ | Work_Transferred (Purpose_Cancellation _) _) _) as phase =>
      mret (phase, [], Cancel_Cancelled authority)
  | Entry_Retiring _ as phase => mret (phase, [], Cancel_Committed authority Status_Retiring)
  | (Entry_ShuttingDownProxyCreation | Entry_DrainingProxyCreationStop) as phase =>
      mret (phase, [], Cancel_Draining authority)
  | Entry_Available proxy service latest =>
      mret (Entry_Available proxy service latest, [],
            match latest with
            | Disposition_Committed => Cancel_Committed authority (service_status proxy service)
            | Disposition_Cancelled => Cancel_Cancelled authority
            end)
  | Entry_ReplacementQueued proxy service s =>
      mret (Entry_Available proxy service Disposition_Cancelled, [], Cancel_Returned authority s)
  | Entry_ReplacementAwaitingReceipt proxy _ witness =>
      retire proxy (Work_Transferred (Purpose_Cancellation Change_Replacement) (Input_AwaitingSettlement witness))
        (Cancel_Pending authority Status_Replacing)
  | Entry_ReplacementAwaitingOutcome proxy _ proxy_operation =>
      retire proxy
        (Work_Transferred (Purpose_Cancellation Change_Replacement) (Input_AwaitingOutcome proxy_operation))
        (Cancel_Pending authority Status_Replacing)
  | (Entry_Stopping _ _ _ _ | Entry_StoppingProxyCreation _ _) as phase =>
      mret (phase, [], Cancel_Committed authority Status_Stopping)
  end.

Definition cancel (self : Self) (authority : CancelAuthority) (reply_to : DirectoryRoute) : Self * acted :=
  let key := authority_key authority in
  let stale := sending (cancelled_reply reply_to (Cancel_Stale authority) no_requests) in
  match bt_remove key (services self.2) with
  | None => (self, stale)
  | Some (entry, rest) =>
      let self := set_services self rest in
      if negb (bool_decide (authority_operation authority = entry_operation entry)) then
        (put self key entry, stale)
      else
        let '(self, (phase, shutdown, receipt)) := alloc self (cancel_phase entry authority) in
        (put self key (with_phase entry phase),
         sending (cancelled_reply reply_to receipt (with_operations shutdown no_requests)))
  end.

Definition command_while_shutting_down (self : Self) (c : DynamicCommand) : Self * acted :=
  (self,
   sending
     match c with
     | Directory_Start key s reply_to =>
         started_reply reply_to (Err (mkChangeRejection key s Start_ShuttingDown)) no_requests
     | Directory_Replace key s reply_to =>
         replaced_reply reply_to (Err (mkChangeRejection key s Replace_ShuttingDown)) no_requests
     | Directory_Stop key reply_to =>
         stopped_reply reply_to (Err (StopRejected_ShuttingDown key)) no_requests
     | Directory_Query key reply_to =>
         queried_reply reply_to
           match bt_get key (services self.2) with
           | Some _ => Query_Known key Status_Draining
           | None => Query_Unknown key
           end no_requests
     | Directory_Cancel authority reply_to => cancelled_reply reply_to (Cancel_Draining authority) no_requests
     end).

Definition command (self : Self) (c : DynamicCommand) : Self * acted :=
  match availability self.2 with
  | ShuttingDown _ => command_while_shutting_down self c
  | Accepting _ =>
      match c with
      | Directory_Start key s reply_to => start self key s reply_to
      | Directory_Replace key s reply_to => replace self key s reply_to
      | Directory_Query key reply_to => query self key reply_to
      | Directory_Cancel authority reply_to => cancel self authority reply_to
      | Directory_Stop key reply_to => stop self key reply_to
      end
  end.

(** ** Shutdown *)

Definition next_service_key (m : Services) (previous : option Key) : option Key :=
  fst <$> match previous with
          | Some previous => head (List.filter (fun kv => ltb previous kv.1) m)
          | None => head m
          end.

(** The shutdown of one entry that was removed from the directory. *)
Definition shutdown_entry (self : Self) (key : Key) (e : DynamicEntry) (requests : DynamicSupervisorRequests) :
  Self * DynamicSupervisorRequests :=
  let '(self, (phase, shutdown, interrupted)) :=
    alloc self (phase_shutdown (entry_phase e) (entry_creation e) (entry_operation e)) in
  let requests :=
    match shutdown with
    | Some shutdown => with_operations (send_item shutdown (proxy_operations requests)) requests
    | None => requests
    end in
  let requests :=
    match interrupted with
    | Some (operation, interruption, s) =>
        with_lifecycle (sends_append (lifecycle requests)
          (publish self (Life_WorkerChangeInterrupted key (entry_generation e) operation interruption
                           (Interrupted_Submission s)))) requests
    | None => requests
    end in
  (put self key (with_phase e phase), requests).

(** The loop over the live map; it ends within the number of entries. *)
Fixpoint shutdown_loop (fuel : nat) (self : Self) (next : option Key) (requests : DynamicSupervisorRequests) :
  Self * DynamicSupervisorRequests :=
  match fuel, next with
  | S fuel, Some key =>
      match bt_remove key (services self.2) with
      | None => shutdown_loop fuel self (next_service_key (services self.2) (Some key)) requests
      | Some (entry, rest) =>
          let self := set_services self rest in
          let next := next_service_key (services self.2) (Some key) in
          let '(self, requests) := shutdown_entry self key entry requests in
          shutdown_loop fuel self next requests
      end
  | _, _ => (self, requests)
  end.

Definition begin_shutdown (self : Self) : Self * acted :=
  match availability self.2 with
  | ShuttingDown _ => (self, Ok cont)
  | Accepting actor_drain =>
      let '(deadline, schedule) := deadline_begin actor_drain in
      let self := set_availability self (ShuttingDown deadline) in
      let requests :=
        match schedule with
        | Some schedule => with_schedules (send_item schedule (shutdown_schedules no_requests)) no_requests
        | None => no_requests
        end in
      let '(self, requests) :=
        shutdown_loop (length (services self.2)) self (next_service_key (services self.2) None) requests in
      (self, sending requests)
  end.

Definition apply_shutdown_step (r : Self * acted) : Self * acted :=
  let '(self, a) := r in
  (self,
   map_result (fun a : DirectoryActions =>
     match availability self.2, head (services self.2) with
     | Accepting _, _ => a
     | ShuttingDown _, None | ShuttingDown (NotScheduled _), Some _ | ShuttingDown (Elapsed _), Some _ =>
         mkActions (sends a) (creates a) (Stop the_Stopped)
     | ShuttingDown _, Some _ => a
     end) a).

(** ** Settled creations *)

(** A proxy that was created for an entry that is on its way out is retired. *)
Definition retire_created (self : Self) (key : Key) (e : DynamicEntry) (proxy : proxy_actor) (work : RetiringWork) :
  Self * acted :=
  let '(self, (retirement, shutdown_request)) := alloc self (retirement_begin (entry_creation e) proxy work) in
  (put self key (with_phase e (Entry_Retiring retirement)),
   sending (with_operations [shutdown_request] no_requests)).

(** ... or stopped, for an explicit stop. *)
Definition stop_created (self : Self) (key : Key) (e : DynamicEntry) (proxy : proxy_actor)
  (messages : LifecycleSends) : Self * acted :=
  let '(self, (witness, shutdown_request)) := alloc self (operation_shutdown (entry_creation e)) in
  (put self key (with_phase e (Entry_Stopping proxy None (ProxyShutdown_AwaitingSettlement witness) None)),
   sending (with_lifecycle messages (with_operations [shutdown_request] no_requests))).

(** The rejected creation of an entry that is removed. *)
Definition creation_rejected (self : Self) (key : Key) (e : DynamicEntry) (creation : ProxySettlement)
  (messages : LifecycleSends) : Self * acted :=
  (self, sending (diagnosing self (Dynamic_ProxyCreationRejected key (entry_generation e) creation)
                    (with_lifecycle messages no_requests))).

Definition accept_creation (self : Self) (key : Key) (e : DynamicEntry) (settlement : ProxySettlement) :
  Self * acted :=
  let generation := entry_generation e in
  match entry_phase e with
  | Entry_CreatingProxy s =>
      match resolve settlement with
      | ProxyCommitted proxy =>
          let self := put self key (with_phase e (Entry_WaitingForStartup proxy s)) in
          let '(self, waiting) := authorize_waiting self in
          (self, sending (with_operations waiting no_requests))
      | ProxyRejected creation =>
          (self, sending (with_lifecycle
                   (publish self (Life_StartCreationRejected key generation s creation)) no_requests))
      end
  | Entry_ShuttingDownProxyCreation =>
      match resolve settlement with
      | ProxyCommitted proxy => retire_created self key e proxy (Work_SupervisorShutdown None)
      | ProxyRejected creation =>
          creation_rejected self key e creation (entry_retired self key generation Retired_Shutdown)
      end
  | Entry_DrainingProxyCreationStop =>
      match resolve settlement with
      | ProxyCommitted proxy => stop_created self key e proxy sends_empty
      | ProxyRejected creation =>
          creation_rejected self key e creation (entry_retired self key generation Retired_Stop)
      end
  | Entry_CancellingProxyCreation =>
      match resolve settlement with
      | ProxyCommitted proxy => retire_created self key e proxy (Work_CancelledWorkerReturned Change_Start)
      | ProxyRejected creation =>
          creation_rejected self key e creation
            (operation_cancelled self key generation (entry_operation e) Change_Start Cancellation_WorkerReturned)
      end
  | Entry_StoppingProxyCreation start_operation s =>
      let interrupted :=
        publish self (Life_WorkerChangeInterrupted key generation start_operation
                        (ExplicitStop (entry_operation e)) (Interrupted_Submission s)) in
      match resolve settlement with
      | ProxyCommitted proxy => stop_created self key e proxy interrupted
      | ProxyRejected creation =>
          creation_rejected self key e creation
            (sends_append interrupted (entry_retired self key generation Retired_Stop))
      end
  | phase =>
      (put self key (with_phase e phase),
       Err (Event_ProxyCreationsSettled (Creation_Settled (Creations_one settlement))))
  end.

Definition accept_creations (self : Self) (proxies : ProxiesSettled) : Self * acted :=
  match proxies with
  | Creation_Settled settlements =>
      match into_one settlements with
      | Ok settlement =>
          match take_proxy_entry self (identity settlement).1 with
          | Some (self, key, entry) => accept_creation self key entry settlement
          | None => (self, Err (Event_ProxyCreationsSettled (Creation_Settled (Creations_one settlement))))
          end
      | Err settlements => (self, Err (Event_ProxyCreationsSettled (Creation_Settled settlements)))
      end
  | settlement => (self, Err (Event_ProxyCreationsSettled settlement))
  end.

(** ** Settled proxy inputs *)

Definition entry_stop_result (stopped : option (ChildStopped Addr)) (input : ProxyInputResult) :
  result ProxyReceipt (EntryStopFailure * ProxyInputResult) :=
  match input with
  | Attempted (Settlement.Accepted receipt) => Ok receipt
  | Attempted (Rejected item reason) =>
      Err (mkStopFailure (ControlRejected reason) stopped, Attempted (Rejected item reason))
  | Attempted (Corrupt item fault) =>
      Err (mkStopFailure (Stop_InterpreterCorrupt fault) stopped, Attempted (Corrupt item fault))
  | Unattempted item => Err (mkStopFailure Stop_InterpretationSkipped stopped, Unattempted item)
  | Attempted (Blocked _ prerequisite) => match prerequisite with end
  end.

Definition proxy_input_creation (input : ProxyInputResult) : CreationId :=
  match input with
  | Attempted (Settlement.Accepted receipt) => receipt_creation receipt
  | Attempted (Rejected o _) | Attempted (Corrupt o _) | Unattempted o => operation_creation o
  | Attempted (Blocked _ prerequisite) => match prerequisite with end
  end.

Definition accept_start_input (self : Self) (key : Key) (e : DynamicEntry) (proxy : proxy_actor)
  (witness : ProxyOperationWitness) (input : ProxyInputResult) : Self * acted :=
  match witness_admit witness input with
  | Err (witness, input) =>
      (put self key (with_phase e (Entry_WaitingForProxyInput proxy witness)), Err (Event_ProxyInputSettled input))
  | Ok (Attempted (Settlement.Accepted receipt)) =>
      (put self key (with_phase e (Entry_WaitingForProxyOutcome (receipt_proxy receipt) (receipt_operation receipt))),
       Ok cont)
  | Ok input =>
      let '(self, (retirement, operation_request)) :=
        alloc self (retirement_begin (entry_creation e) proxy Work_StartFailed) in
      let self := put self key (with_phase e (Entry_Retiring retirement)) in
      let '(self, waiting) := authorize_waiting self in
      (self, sending (diagnosing self (Dynamic_ProxyInputRejected key (entry_generation e) input)
               (with_lifecycle (publish self (Life_StartInputRejected key (entry_generation e)))
                 (with_operations ([operation_request] ++ waiting) no_requests))))
  end.

Definition accept_replacement_input (self : Self) (key : Key) (e : DynamicEntry) (proxy : proxy_actor)
  (service : ServiceAvailability) (witness : ProxyOperationWitness) (input : ProxyInputResult) : Self * acted :=
  match witness_admit witness input with
  | Err (witness, input) =>
      (put self key (with_phase e (Entry_ReplacementAwaitingReceipt proxy service witness)),
       Err (Event_ProxyInputSettled input))
  | Ok (Attempted (Settlement.Accepted receipt)) =>
      (put self key (with_phase e (Entry_ReplacementAwaitingOutcome (receipt_proxy receipt) service
                                     (receipt_operation receipt))),
       Ok cont)
  | Ok input =>
      let self := put self key (with_phase e (Entry_Available proxy service Disposition_Committed)) in
      let '(self, waiting) := authorize_waiting self in
      (self, sending (diagnosing self (Dynamic_ProxyInputRejected key (entry_generation e) input)
               (with_lifecycle
                 (publish self (Life_ReplacementInputRejected key (entry_generation e) (entry_operation e)))
                 (with_operations waiting no_requests))))
  end.

(** The messages of a stop that is over. *)
Definition stop_finished (self : Self) (key : Key) (e : DynamicEntry) (proxy : proxy_actor)
  (r : result (ChildStopped Addr) EntryStopFailure) : LifecycleSends :=
  publish self (Life_StopFinished key (entry_generation e) (entry_operation e) proxy r).

Definition accept_stopping_input (self : Self) (key : Key) (e : DynamicEntry) (proxy : proxy_actor)
  (restorable : option ServiceAvailability) (witness : ProxyOperationWitness)
  (stopped : option (ChildStopped Addr)) (input : ProxyInputResult) : Self * acted :=
  let generation := entry_generation e in
  match witness_admit witness input with
  | Err (witness, input) =>
      (put self key (with_phase e (Entry_Stopping proxy restorable (ProxyShutdown_AwaitingSettlement witness) stopped)),
       Err (Event_ProxyInputSettled input))
  | Ok input =>
      match entry_stop_result stopped input with
      | Ok receipt =>
          match stopped with
          | Some stopped =>
              (self, sending (with_lifecycle
                       (sends_append (stop_finished self key e (receipt_proxy receipt) (Ok stopped))
                          (entry_retired self key generation Retired_Stop)) no_requests))
          | None =>
              (put self key (with_phase e (Entry_Stopping (receipt_proxy receipt) restorable
                               (ProxyShutdown_Accepted (receipt_operation receipt)) None)),
               sending no_requests)
          end
      | Err (failure, input) =>
          let diagnosed messages :=
            sending (with_lifecycle messages
              (diagnosing self (Dynamic_ProxyShutdownRejected key generation input) no_requests)) in
          match failure_stopped failure, restorable with
          | None, Some service =>
              (put self key (with_phase e (Entry_Available proxy service Disposition_Committed)),
               diagnosed (stop_finished self key e proxy (Err failure)))
          | None, None =>
              (put self key (with_phase e (Entry_Retiring
                               (mkRetirement proxy ProxyShutdown_Rejected Work_InterruptedStart None))),
               diagnosed (stop_finished self key e proxy (Err failure)))
          | Some _, _ =>
              (self, diagnosed (sends_append (stop_finished self key e proxy (Err failure))
                                  (entry_retired self key generation Retired_Stop)))
          end
      end
  end.

(** ** Closing a retirement *)

Definition close_retirement (self : Self) (key : Key) (generation operation : N) (r : ProxyRetirement) :
  result LifecycleSends ProxyRetirement :=
  match retirement_shutdown r, retirement_stopped r with
  | ProxyShutdown_AwaitingSettlement _, _ | _, None => Err r
  | shutdown, Some stopped =>
      match retirement_work r with
      | Work_StartFailed => Ok (entry_retired self key generation Retired_StartFailed)
      | Work_UnexpectedWorkerStopped => Ok (entry_retired self key generation Retired_UnexpectedWorkerStopped)
      | Work_InterruptedStart => Ok (entry_retired self key generation Retired_Stop)
      | Work_SupervisorShutdown _ => Ok (entry_retired self key generation Retired_Shutdown)
      | Work_CancelledWorkerReturned change =>
          Ok (operation_cancelled self key generation operation change Cancellation_WorkerReturned)
      | Work_Transferred (Purpose_Cancellation change) input =>
          match input with
          | Input_Rejected =>
              Ok (operation_cancelled self key generation operation change Cancellation_ProxyInputRejected)
          | Input_ProxyReported outcome =>
              Ok (operation_cancelled self key generation operation change (Cancellation_ProxyReported outcome))
          | _ => Err r
          end
      | Work_Transferred (Purpose_InterruptedStart start_operation) input =>
          match into_interrupted_worker input with
          | Err _ => Err r
          | Ok worker =>
              let interrupted :=
                publish self (Life_WorkerChangeInterrupted key generation start_operation (ExplicitStop operation)
                                worker) in
              let retired := entry_retired self key generation Retired_Stop in
              match shutdown with
              | ProxyShutdown_Accepted _ =>
                  Ok (sends_append
                        (sends_append interrupted
                           (publish self (Life_StopFinished key generation operation (retirement_proxy r) (Ok stopped))))
                        retired)
              | _ => Ok (sends_append interrupted retired)
              end
          end
      | Work_Transferred (Purpose_SupervisorStart worker_operation) input =>
          match into_interrupted_worker input with
          | Err _ => Err r
          | Ok worker =>
              Ok (sends_append
                    (publish self (Life_WorkerChangeInterrupted key generation worker_operation
                                     (SupervisorShutdown Change_Start) worker))
                    (entry_retired self key generation Retired_Shutdown))
          end
      | Work_Transferred (Purpose_SupervisorReplacement worker_operation _) input =>
          match into_interrupted_worker input with
          | Err _ => Err r
          | Ok worker =>
              Ok (sends_append
                    (publish self (Life_WorkerChangeInterrupted key generation worker_operation
                                     (SupervisorShutdown Change_Replacement) worker))
                    (entry_retired self key generation Retired_Shutdown))
          end
      end
  end.

Definition settle_retirement (self : Self) (key : Key) (e : DynamicEntry) (r : ProxyRetirement) :
  Self * LifecycleSends :=
  match close_retirement self key (entry_generation e) (entry_operation e) r with
  | Ok messages => (self, messages)
  | Err r => (put self key (with_phase e (Entry_Retiring r)), sends_empty)
  end.

(** The settlement of the shutdown of a retiring proxy, or the input that is not
    it; with the requests that it asks for. *)
Definition retiring_shutdown (self : Self) (key : Key) (e : DynamicEntry) (r : ProxyRetirement)
  (input : ProxyInputResult) :
  proxy_actor * ProxyShutdown * option ProxyInputResult * DynamicSupervisorRequests :=
  let '(mkRetirement proxy shutdown work stopped) := r in
  let rejected input :=
    diagnosing self (Dynamic_ProxyShutdownRejected key (entry_generation e) input) in
  match shutdown with
  | ProxyShutdown_AwaitingSettlement witness =>
      match witness_admit witness input with
      | Ok (Attempted (Settlement.Accepted receipt)) =>
          (receipt_proxy receipt, ProxyShutdown_Accepted (receipt_operation receipt), None, no_requests)
      | Ok input =>
          match work with
          | Work_Transferred (Purpose_InterruptedStart _) _ =>
              match entry_stop_result stopped input with
              | Ok receipt =>
                  (receipt_proxy receipt, ProxyShutdown_Accepted (receipt_operation receipt), None, no_requests)
              | Err (failure, input) =>
                  (proxy, ProxyShutdown_Rejected, None,
                   rejected input (with_lifecycle (stop_finished self key e proxy (Err failure)) no_requests))
              end
          | _ => (proxy, ProxyShutdown_Rejected, None, rejected input no_requests)
          end
      | Err (witness, input) => (proxy, ProxyShutdown_AwaitingSettlement witness, Some input, no_requests)
      end
  | shutdown => (proxy, shutdown, Some input, no_requests)
  end.

Definition accept_retiring_input (self : Self) (key : Key) (e : DynamicEntry) (r : ProxyRetirement)
  (input : ProxyInputResult) : Self * acted :=
  let '(proxy, shutdown, remaining, requests) := retiring_shutdown self key e r input in
  let settled work requests :=
    let '(self, messages) :=
      settle_retirement self key e (mkRetirement proxy shutdown work (retirement_stopped r)) in
    let requests := with_lifecycle (sends_append (lifecycle requests) messages) requests in
    let '(self, waiting) := authorize_waiting self in
    (self, sending (with_operations waiting requests)) in
  match remaining with
  | None => settled (retirement_work r) requests
  | Some input =>
      match settle_input (retirement_work r) input with
      | Ok (work, None) => settled work requests
      | Ok (work, Some input) =>
          settled work (diagnosing self (Dynamic_ProxyInputRejected key (entry_generation e) input) requests)
      | Err (work, input) =>
          (put self key (with_phase e (Entry_Retiring (mkRetirement proxy shutdown work (retirement_stopped r)))),
           Err (Event_ProxyInputSettled input))
      end
  end.

Definition accept_proxy_input (self : Self) (input : ProxyInputResult) : Self * acted :=
  match take_proxy_entry self (proxy_input_creation input) with
  | None => (self, Err (Event_ProxyInputSettled input))
  | Some (self, key, e) =>
      match entry_phase e with
      | Entry_WaitingForProxyInput proxy witness => accept_start_input self key e proxy witness input
      | Entry_ReplacementAwaitingReceipt proxy service witness =>
          accept_replacement_input self key e proxy service witness input
      | Entry_Stopping proxy restorable (ProxyShutdown_AwaitingSettlement witness) stopped =>
          accept_stopping_input self key e proxy restorable witness stopped input
      | Entry_Retiring r => accept_retiring_input self key e r input
      | phase => (put self key (with_phase e phase), Err (Event_ProxyInputSettled input))
      end
  end.

(** ** Proxy stops *)

Definition accept_proxy_stop (self : Self) (stopped : ChildStopped Addr) : Self * acted :=
  match take_proxy_entry self (stopped_child stopped) with
  | None => (self, sending (diagnosing self (Dynamic_RejectedProxyStop stopped) no_requests))
  | Some (self, key, e) =>
      match entry_phase e with
      | Entry_Stopping proxy restorable (ProxyShutdown_AwaitingSettlement witness) None =>
          (put self key (with_phase e (Entry_Stopping proxy restorable
                           (ProxyShutdown_AwaitingSettlement witness) (Some stopped))),
           Ok cont)
      | Entry_Stopping proxy _ (ProxyShutdown_Accepted _) None =>
          (self, sending (with_lifecycle
                   (sends_append (stop_finished self key e proxy (Ok stopped))
                      (entry_retired self key (entry_generation e) Retired_Stop)) no_requests))
      | Entry_Retiring (mkRetirement proxy shutdown work None) =>
          let '(self, messages) := settle_retirement self key e (mkRetirement proxy shutdown work (Some stopped)) in
          (self, sending (with_lifecycle messages no_requests))
      | phase =>
          (put self key (with_phase e phase),
           sending (diagnosing self (Dynamic_RejectedProxyStop stopped) no_requests))
      end
  end.

(** ** Proxy reports *)

Definition replacement_rejected (self : Self) (key : Key) (e : DynamicEntry) (report : ChildReport ProxyOutcome) :
  Self * acted :=
  (put self key e, sending (diagnosing self (Dynamic_RejectedProxyOutcome report) no_requests)).

Definition service_worker (s : ServiceAvailability) : WorkerAttempt :=
  match s with Service_Ready worker _ | Service_Empty worker => worker end.

(** The worker that an outcome says was replaced. *)
Definition outcome_replaces (o : ReplacementOutcome) : option WorkerAttempt :=
  match o with
  | Replacement_AttemptsExhausted replaces _ _ | Replacement_CancelledBeforeBirth replaces _ _
  | Replacement_Resolved replaces _ => Some replaces
  | Replacement_NotReplaceable _ _ _ => None
  end.

(** The service after a replacement, or with the reason of its failure;
    [None] for a cancellation before birth. *)
Definition replacement_service (service : ServiceAvailability) (o : ReplacementOutcome) :
  option (result ServiceAvailability (ServiceAvailability * ReplacementFailure)) :=
  match o with
  | Replacement_Resolved _ (Result_Ready attempt readiness) => Some (Ok (Service_Ready attempt readiness))
  | Replacement_NotReplaceable w startup phase => Some (Err (service, Failed_ProxyRefused w startup phase))
  | Replacement_AttemptsExhausted _ w startup => Some (Err (service, Failed_WorkerAttemptsExhausted w startup))
  | Replacement_Resolved replaces (Result_CreationRejected rejection startup stopped) =>
      Some (Err (Service_Empty replaces, Failed_WorkerCreationRejected rejection startup stopped))
  | Replacement_Resolved _ (Result_Unavailable attempt drain) =>
      Some (Err (Service_Empty attempt, Failed_WorkerUnavailable drain))
  | Replacement_CancelledBeforeBirth _ _ _ => None
  end.

Definition accept_replacement_outcome (self : Self) (key : Key) (e : DynamicEntry) (child : CreationId)
  (proxy : proxy_actor) (service : ServiceAvailability) (o : ReplacementOutcome) : Self * acted :=
  let rejected := replacement_rejected self key e (mkChildReport child (Outcome_Replacement o)) in
  if match outcome_replaces o with
     | Some replaces => negb (bool_decide (replaces = service_worker service))
     | None => false
     end then rejected
  else
    match replacement_service service o with
    | None => rejected
    | Some replacement =>
        let '(service, message) :=
          match replacement with
          | Ok service => (service, Life_Replaced key (entry_generation e) (entry_operation e) proxy)
          | Err (service, failure) =>
              (service, Life_ReplacementFailed key (entry_generation e) (entry_operation e) failure)
          end in
        let self := put self key (with_phase e (Entry_Available proxy service Disposition_Committed)) in
        let '(self, waiting) := authorize_waiting self in
        (self, sending (with_lifecycle (publish self message) (with_operations waiting no_requests)))
    end.

(** Whether a late outcome belongs to the retired input. *)
Definition purpose_accepts (p : ProxyInputPurpose) (o : ProxyOutcome) : bool :=
  match p, o with
  | (Purpose_Cancellation Change_Start | Purpose_InterruptedStart _ | Purpose_SupervisorStart _), Outcome_Initial _ =>
      true
  | (Purpose_Cancellation Change_Replacement | Purpose_SupervisorReplacement _ _), Outcome_Replacement _ => true
  | _, _ => false
  end.

Definition accept_retiring_outcome (self : Self) (key : Key) (e : DynamicEntry) (child : CreationId)
  (r : ProxyRetirement) (purpose : ProxyInputPurpose) (outcome : ProxyOutcome) : Self * acted :=
  if purpose_accepts purpose outcome then
    let '(self, messages) :=
      settle_retirement self key e
        (mkRetirement (retirement_proxy r) (retirement_shutdown r)
           (Work_Transferred purpose (Input_ProxyReported outcome)) (retirement_stopped r)) in
    let '(self, waiting) := authorize_waiting self in
    (self, sending (with_operations waiting (with_lifecycle messages no_requests)))
  else replacement_rejected self key e (mkChildReport child outcome).

Definition accept_proxy_report (self : Self) (report : ChildReport ProxyOutcome) : Self * acted :=
  let '(mkChildReport child outcome) := report in
  match take_proxy_entry self child with
  | None => (self, sending (diagnosing self (Dynamic_RejectedProxyOutcome report) no_requests))
  | Some (self, key, e) =>
      let generation := entry_generation e in
      match entry_phase e, outcome with
      | Entry_WaitingForProxyOutcome proxy _, Outcome_Initial (Initial_Resolved (Result_Ready attempt readiness)) =>
          let self :=
            put self key (with_phase e (Entry_Available proxy (Service_Ready attempt readiness) Disposition_Committed)) in
          let '(self, waiting) := authorize_waiting self in
          (self, sending (with_lifecycle (publish self (Life_Started key generation (entry_operation e) proxy))
                            (with_operations waiting no_requests)))
      | Entry_WaitingForProxyOutcome proxy _, Outcome_Initial outcome =>
          let '(self, (retirement, shutdown_request)) :=
            alloc self (retirement_begin (entry_creation e) proxy Work_StartFailed) in
          let self := put self key (with_phase e (Entry_Retiring retirement)) in
          let '(self, waiting) := authorize_waiting self in
          (self, sending (with_lifecycle
                   (publish self (Life_StartOutcomeRejected key generation (entry_operation e) outcome))
                   (with_operations ([shutdown_request] ++ waiting) no_requests)))
      | Entry_ReplacementAwaitingOutcome proxy service _, Outcome_Replacement outcome =>
          accept_replacement_outcome self key e child proxy service outcome
      | Entry_Retiring (mkRetirement _ _ (Work_Transferred purpose (Input_AwaitingOutcome _)) _ as r),
        (Outcome_Initial _ | Outcome_Replacement _) as outcome =>
          accept_retiring_outcome self key e child r purpose outcome
      | phase, Outcome_ServiceUnavailable sender proxy_phase command =>
          (put self key (with_phase e phase),
           sending (with_lifecycle
             (publish self (Life_CommandUnavailable key generation sender proxy_phase command)) no_requests))
      | Entry_Available proxy (Service_Ready worker readiness) latest as phase,
        Outcome_WorkerStopped stopped_worker stopped =>
          if bool_decide (worker = stopped_worker) then
            let disposition := unexpected_exit self.2 in
            let '(self, (phase, shutdown)) :=
              match disposition with
              | KeepEmpty => (self, (Entry_Available proxy (Service_Empty worker) latest, []))
              | Retire =>
                  let '(self, (retirement, shutdown_request)) :=
                    alloc self (retirement_begin (entry_creation e) proxy Work_UnexpectedWorkerStopped) in
                  (self, (Entry_Retiring retirement, [shutdown_request]))
              end in
            (put self key (with_phase e phase),
             sending (with_lifecycle
               (publish self (Life_UnexpectedWorkerStopped key generation stopped_worker readiness stopped disposition))
               (with_operations shutdown no_requests)))
          else replacement_rejected self key (with_phase e phase) (mkChildReport child outcome)
      | phase, outcome => replacement_rejected self key (with_phase e phase) (mkChildReport child outcome)
      end
  end.

(** ** The transition *)

Definition init (self : Self) : Self * acted := (self, Ok cont).

(** A deadline is asked only while the supervisor shuts down. *)
Definition on_deadline {X} (self : Self) (accept : ShutdownDeadline -> ShutdownDeadline * result () X) (input : X)
  (event : X -> DynamicSupervisorEvent) : Self * acted :=
  match availability self.2 with
  | ShuttingDown deadline =>
      let '(deadline, accepted) := accept deadline in
      (set_availability self (ShuttingDown deadline),
       match accepted with Ok _ => Ok cont | Err input => Err (event input) end)
  | Accepting _ => (self, Err (event input))
  end.

Definition dispatch (self : Self) (input : DynamicSupervisorEvent) : Self * acted :=
  match input with
  | Event_Command (mkUser _ message) => command self message
  | Event_ProxyCreationsSettled proxies => accept_creations self proxies
  | Event_ProxyInputSettled input => accept_proxy_input self input
  | Event_ProxyReported report => accept_proxy_report self report
  | Event_ProxyDiagnosed report =>
      (self, sending (diagnosing self (Dynamic_ProxyDiagnosticReported report) no_requests))
  | Event_ProxyStopped stopped => accept_proxy_stop self stopped
  | Event_Shutdown _ => begin_shutdown self
  | Event_ShutdownScheduleSettled input =>
      on_deadline self (fun d => accept_schedule d input) input Event_ShutdownScheduleSettled
  | Event_ShutdownElapsed elapsed =>
      on_deadline self (fun d => accept_elapsed d elapsed) elapsed Event_ShutdownElapsed
  end.

Definition transition (self : Self) (input : DynamicSupervisorEvent) : Self * acted :=
  apply_shutdown_step (dispatch self input).

End Directory.
