(* ===== verification/DirectoryInvariant.v ===== *)
(** * The invariant of the dynamic supervisor

    What every step of a directory keeps: its bounds, its correlations and its
    startup limit; the custody of every worker that was submitted to it; and one
    end for every service it admitted. *)

From stdpp Require Import base list list_numbers option numbers sorting.
From S2P Require Import Prelude Effects BTreeMap Timers Restart Termination Settlement Interpretation Creation.
From S2P Require Import Workers WorkerPreparation WorkerStartup ProxyWorker ProxyState StableProxy ProxyInvariant ProxyOperation PoolPolicy.
From S2P Require Import Directory.

(** ** Ordered maps: an entry taken out and put back *)

Section Detached.
  Context {K V : Type} `{!Ord K}.
  Implicit Types m rest : @BTreeMap K V.

#[local] Instance ltb_antisym : AntiSymm (=) (fun a b : K * V => ltb (fst a) (fst b) = true).
Proof. intros a b H1 H2. pose proof (ltb_trans _ _ _ H1 H2) as H. by rewrite ltb_irrefl in H. Qed.

Lemma sorted_unique m m' : sorted m -> sorted m' -> m ≡ₚ m' -> m = m'.
Proof. apply StronglySorted_unique. apply _. Qed.

Lemma delete_sorted i m : sorted m -> sorted (base.delete i m).
Proof.
  unfold sorted. revert i. induction m as [|kv m IH]; intros [|i] Hs; cbn; [done..| |]; inversion Hs; subst; [done|].
  constructor; [by apply IH|]. by apply Forall_delete.
Qed.

(** [rest] is [m] without its entry of [key]. *)
Record detached m (key : K) (e : V) rest : Prop := {
  detached_perm : m ≡ₚ (key, e) :: rest;
  detached_sorted : sorted rest;
  detached_fresh : key ∉ (fst <$> rest);
  detached_back : bt_insert key e rest = m
}.

Lemma detached_intro m key e rest : sorted m -> sorted rest -> m ≡ₚ (key, e) :: rest -> detached m key e rest.
Proof.
  intros Hm Hr Hp. assert (Hf : key ∉ (fst <$> rest)).
  { pose proof (sorted_keys_NoDup _ Hm) as Hn. rewrite Hp in Hn. by inversion Hn. }
  split; auto. apply sorted_unique; auto using bt_insert_sorted. by rewrite bt_insert_Permutation, Hp.
Qed.

Lemma bt_remove_detached m key e rest : sorted m -> bt_remove key m = Some (e, rest) -> detached m key e rest.
Proof.
  intros Hs (Hg & ->)%bt_remove_Some. apply detached_intro; auto using bt_delete_sorted.
  by rewrite bt_delete_Permutation.
Qed.

Lemma take_detached p m i key e rest : sorted m -> take_at p m = Some (i, (key, e), rest) -> detached m key e rest.
Proof.
  intros Hs Ht. pose proof (take_at_Permutation _ _ _ _ _ Ht) as Hp.
  apply take_at_Some in Ht as (_ & _ & -> & _). apply detached_intro; auto using delete_sorted.
Qed.

End Detached.

Section DirectoryObservations.
  Context `{DT : DirectoryTypes}.

Abbreviation submission := (WorkerSubmission Worker Plan).
Abbreviation acted := (result DirectoryActions DynamicSupervisorEvent).

(** ** What an entry holds *)

(** The submission that an entry still owns. *)
Definition held_phase (p : DynamicEntryPhase) : list submission :=
  match p with
  | Entry_CreatingProxy s | Entry_WaitingForStartup _ s | Entry_StoppingProxyCreation _ s
  | Entry_ReplacementQueued _ _ s => [s]
  | _ => []
  end.

Definition waiting (p : DynamicEntryPhase) : nat := if waits p then 1 else 0.

(** Phases of a directory that shuts down. *)
Definition leaving (p : DynamicEntryPhase) : bool :=
  match p with
  | Entry_ShuttingDownProxyCreation | Entry_DrainingProxyCreationStop | Entry_CancellingProxyCreation
  | Entry_Stopping _ _ _ _ | Entry_Retiring _ | Entry_Available _ _ _ => true
  | _ => false
  end.

Definition held (m : Services) : list submission := m ≫= fun kv => held_phase (entry_phase kv.2).
Definition present (m : Services) : list (Key * N) := (fun kv => (kv.1, entry_generation kv.2)) <$> m.
Definition occupied (m : Services) : nat := sum_list_with (fun kv => occupies (entry_phase kv.2)) m.
Definition queued (m : Services) : nat := sum_list_with (fun kv => waiting (entry_phase kv.2)) m.

Definition closing (self : Self) : bool :=
  match availability self.2 with Accepting _ => false | ShuttingDown _ => true end.

(** ** The invariant *)

Definition creation_before (c : CreationSequence) (i : CreationId) : Prop := below (next c) (creation_number i).

Record table_ok (self : Self) (m : Services) : Prop := {
  table_sorted : sorted m;
  table_generations : NoDup (entry_generation ∘ snd <$> m);
  table_creations : NoDup (entry_creation ∘ snd <$> m);
  table_issued : Forall (fun kv => below (generations self.2) (entry_generation kv.2) /\
    below (operations self.2) (entry_operation kv.2) /\
    creation_before (proxy_creations self.2) (entry_creation kv.2)) m;
  table_leaving : closing self = true -> Forall (fun kv => leaving (entry_phase kv.2) = true) m
}.

Definition limit (self : Self) : nat := startup_maximum (startup_limit self.2).

Record directory_ok (self : Self) : Prop := {
  ok_table : table_ok self (services self.2);
  ok_capacity : length (services self.2) <= entries_maximum (entries self.2);
  ok_limit : occupied (services self.2) <= limit self;
  ok_fair : limit self <= occupied (services self.2) \/ queued (services self.2) = 0
}.


(** ** Observations of a step *)

Context `{!RouteLaws LifecycleRoute DynamicLifecycle LifecycleSends}.

Definition messages_of (l : LifecycleSends) : list DynamicLifecycle := snd <$> addressed l.

(** The message that ends a service. *)
Definition ended (m : DynamicLifecycle) : option (Key * N) :=
  match m with
  | Life_EntryRetired key generation _ | Life_StartCreationRejected key generation _ _ => Some (key, generation)
  | _ => None
  end.

Definition message_submission (m : DynamicLifecycle) : option submission :=
  match m with
  | Life_StartCreationRejected _ _ s _ | Life_WorkerChangeInterrupted _ _ _ _ (Interrupted_Submission s) => Some s
  | _ => None
  end.

Definition operation_submission (o : ProxyOperation) : option submission :=
  match ProxyState.command (operation_control o) with
  | Command_Start s | Command_Replace s => Some s
  | Command_Shutdown => None
  end.

Definition change_submission {Reason} (r : result WorkerChangeReceipt (WorkerChangeRejection Reason)) :
  option submission :=
  match r with Ok _ => None | Err rejection => Some (rejected_submission _ rejection) end.

Definition receipt_submission (r : CancellationReceipt) : option submission :=
  match r with Cancel_Returned _ s => Some s | _ => None end.

(** The submissions that leave the directory: to a proxy, or back. *)
Definition handed (r : DynamicSupervisorRequests) : list submission :=
  omap operation_submission (proxy_operations r) ++
  omap (change_submission ∘ snd) (addressed (start_replies r)) ++
  omap (change_submission ∘ snd) (addressed (replace_replies r)) ++
  omap (receipt_submission ∘ snd) (addressed (cancel_replies r)) ++
  omap message_submission (messages_of (lifecycle r)).

Definition closed (r : DynamicSupervisorRequests) : list (Key * N) := omap ended (messages_of (lifecycle r)).

Lemma messages_empty : messages_of sends_empty = [].
Proof. unfold messages_of. by rewrite addressed_empty. Qed.

Lemma messages_append a b : messages_of (sends_append a b) = messages_of a ++ messages_of b.
Proof. unfold messages_of. by rewrite addressed_append, fmap_app. Qed.

Lemma messages_publish self m : messages_of (publish self m) = [m].
Proof. unfold messages_of, publish. by rewrite addressed_deliver. Qed.

(** ** One entry *)

Definition occupancy (oe : option DynamicEntry) : nat := from_option (occupies ∘ entry_phase) 0 oe.
Definition demand (oe : option DynamicEntry) : nat := from_option (waiting ∘ entry_phase) 0 oe.
Definition holding (oe : option DynamicEntry) : list submission := from_option (held_phase ∘ entry_phase) [] oe.
Definition ending (key : Key) (e : DynamicEntry) (oe : option DynamicEntry) : list (Key * N) :=
  match oe with Some _ => [] | None => [(key, entry_generation e)] end.

Definition settled (oe : option DynamicEntry) (key : Key) (rest : Services) : Services :=
  match oe with Some e => bt_insert key e rest | None => rest end.

(** The same service, perhaps under a later operation. *)
Definition continues (self : Self) (e e' : DynamicEntry) : Prop :=
  entry_generation e' = entry_generation e /\ entry_creation e' = entry_creation e /\
  below (operations self.2) (entry_operation e') /\ (closing self = true -> leaving (entry_phase e') = true).

Lemma settled_sums (f : DynamicEntryPhase -> nat) m key e rest oe : detached m key e rest ->
  sum_list_with (fun kv => f (entry_phase kv.2)) m =
    f (entry_phase e) + sum_list_with (fun kv => f (entry_phase kv.2)) rest /\
  sum_list_with (fun kv => f (entry_phase kv.2)) (settled oe key rest) =
    from_option (f ∘ entry_phase) 0 oe + sum_list_with (fun kv => f (entry_phase kv.2)) rest.
Proof.
  intros [Hp Hs Hf _]. split; [by rewrite Hp|]. destruct oe as [e'|]; cbn [settled]; [|done].
  by rewrite bt_insert_Permutation.
Qed.

Lemma settled_lists m key e rest oe : detached m key e rest ->
  (forall e', oe = Some e' -> entry_generation e' = entry_generation e) ->
  held m ≡ₚ held_phase (entry_phase e) ++ held rest /\
  held (settled oe key rest) ≡ₚ holding oe ++ held rest /\
  ending key e oe ++ present (settled oe key rest) ≡ₚ present m /\
  length (settled oe key rest) <= length m.
Proof.
  intros [Hp Hs Hf _] Hg. unfold held, present. split_and!.
  - by rewrite Hp.
  - destruct oe as [e'|]; cbn [settled]; [|done]. by rewrite bt_insert_Permutation.
  - destruct oe as [e'|]; cbn [settled ending app]; [|by rewrite Hp].
    rewrite bt_insert_Permutation, Hp by done. cbn. by rewrite (Hg e' eq_refl).
  - rewrite Hp. destruct oe as [e'|]; cbn [settled]; [rewrite bt_insert_Permutation by done|]; cbn; lia.
Qed.

(** Two directories that differ in their entries, fresh allocations, and the
    operations issued since. *)
Record aligned (self self' : Self) : Prop := {
  aligned_entries : entries self'.2 = entries self.2;
  aligned_startup : startup_limit self'.2 = startup_limit self.2;
  aligned_generations : generations self'.2 = generations self.2;
  aligned_operations x : below (operations self.2) x -> below (operations self'.2) x;
  aligned_creations : proxy_creations self'.2 = proxy_creations self.2;
  aligned_exit : unexpected_exit self'.2 = unexpected_exit self.2;
  aligned_availability : availability self'.2 = availability self.2;
  aligned_lifecycle : lifecycle_to self'.2 = lifecycle_to self.2;
  aligned_diagnostics : diagnostics_to self'.2 = diagnostics_to self.2
}.

Lemma aligned_refl self : aligned self self.
Proof. by split. Qed.

Lemma aligned_trans a b c : aligned a b -> aligned b c -> aligned a c.
Proof. intros [] []. split; auto; congruence. Qed.

Lemma aligned_closing a b : aligned a b -> closing b = closing a.
Proof. intros H. unfold closing. by rewrite (aligned_availability _ _ H). Qed.

Lemma table_aligned a b m : aligned a b -> table_ok a m -> table_ok b m.
Proof.
  intros Ha [Ts Tg Tc Ti Tl]. split; auto.
  - destruct Ha as [_ _ -> Ho -> _ _ _ _]. eapply Forall_impl; [exact Ti|]. naive_solver.
  - by rewrite (aligned_closing _ _ Ha).
Qed.

Lemma aligned_services self m : aligned self (set_services self m).
Proof. destruct self as [n []]. by split. Qed.

Lemma services_set self m : services (set_services self m).2 = m.
Proof. by destruct self as [n []]. Qed.

Lemma aligned_put self key e : aligned self (put self key e).
Proof. apply aligned_services. Qed.

Lemma services_put self key e : services (put self key e).2 = bt_insert key e (services self.2).
Proof. apply services_set. Qed.

Lemma aligned_alloc {X} self (m : Alloc X) self' x : alloc self m = (self', x) -> aligned self self' /\ services self'.2 = services self.2.
Proof. unfold alloc. destruct (m self.1) as [n' y]. intros [= <- <-]. by split. Qed.

(** An entry that goes on, or is removed, keeps the table. *)
Lemma table_settled self m key e rest oe : table_ok self m -> detached m key e rest ->
  match oe with Some e' => continues self e e' | None => True end -> table_ok self (settled oe key rest).
Proof.
  intros [Ts Tg Tc Ti Tl] [Hp Hs Hf _] Hc. rewrite Hp in Tg, Tc, Ti.
  assert (Tl' : closing self = true -> Forall (fun kv => leaving (entry_phase kv.2) = true) rest).
  { intros Hcl. specialize (Tl Hcl). rewrite Hp in Tl. by inversion Tl. }
  inversion Ti as [|? ? He Ti']; subst. destruct oe as [e'|]; cbn [settled].
  - destruct Hc as (Hg & Hcr & Hop & Hle).
    split; [by apply bt_insert_sorted|rewrite bt_insert_Permutation by done..]; cbn; unfold compose; cbn.
    + by rewrite Hg.
    + by rewrite Hcr.
    + constructor; [|done]. cbn in *. rewrite Hg, Hcr. naive_solver.
    + intros Hcl. constructor; auto.
  - split; auto; [by inversion Tg|by inversion Tc].
Qed.

Lemma aligned_advance self n : operations self.2 = Some n ->
  aligned self (advance_operations self n) /\ services (advance_operations self n).2 = services self.2 /\
  below (operations (advance_operations self n).2) n.
Proof.
  destruct self as [k s]. cbn. intros Ho. split_and!; [|done|apply below_next]. split; try done.
  cbn. rewrite Ho. intros x. apply below_checked_add.
Qed.

(** ** Authorization *)

Lemma oldest_elem l x : oldest l = Some x -> x ∈ l.
Proof.
  revert x. induction l as [|y l IH]; intros x; cbn; [done|].
  destruct (oldest l) as [z|]; [|intros [= <-]; left]. case_match; intros [= <-]; [right; by apply IH|left].
Qed.

Lemma oldest_none l : oldest l = None -> l = [].
Proof. destruct l as [|x l]; cbn; [done|]. destruct (oldest l); [|done]. by case_match. Qed.

Lemma waiting_none m : waiting_entries m = [] -> queued m = 0.
Proof.
  unfold waiting_entries, queued, waiting. induction m as [|[k e] m IH]; cbn; [done|].
  destruct (waits (entry_phase e)); [done|]. intros H. by rewrite IH.
Qed.

Lemma waiting_elem m n key : sorted m -> (n, key) ∈ waiting_entries m ->
  exists e, bt_get key m = Some e /\ waits (entry_phase e) = true.
Proof.
  intros Hs ([k e] & Hin & He)%list_elem_of_omap. cbn in He. destruct (waits (entry_phase e)) eqn:Hw; [|done].
  injection He as <- <-. exists e. split; [|done]. by apply bt_get_Some.
Qed.

Lemma authorize_spec self self' ops : sorted (services self.2) -> authorize_waiting self = (self', ops) ->
  aligned self self' /\
  ((services self'.2 = services self.2 /\ ops = [] /\
    (limit self <= occupied (services self.2) \/ queued (services self.2) = 0)) \/
   exists key e rest p op s, detached (services self.2) key e rest /\
     services self'.2 = bt_insert key (with_phase e p) rest /\ occupied (services self.2) < limit self /\
     held_phase (entry_phase e) = [s] /\ held_phase p = [] /\ ops = [op] /\ operation_submission op = Some s /\
     occupies (entry_phase e) = 0 /\ occupies p = 1 /\ waiting (entry_phase e) = 1 /\ waiting p = 0 /\
     leaving (entry_phase e) = false).
Proof.
  intros Hs. unfold authorize_waiting. fold (occupied (services self.2)). fold (limit self).
  destruct (Nat.leb_spec (limit self) (occupied (services self.2))) as [Hl|Hl].
  { intros [= <- <-]. split; [apply aligned_refl|left; auto]. }
  destruct (oldest (waiting_entries (services self.2))) as [[n key]|] eqn:Ho.
  2: { intros [= <- <-]. split; [apply aligned_refl|left]. apply oldest_none, waiting_none in Ho. auto. }
  apply oldest_elem, waiting_elem in Ho as (e & Hg & Hw); [|done]. unfold bt_remove at 1. rewrite Hg.
  pose proof (bt_remove_detached _ key e _ Hs ltac:(unfold bt_remove; by rewrite Hg)) as Hd.
  destruct (entry_phase e) as [| | |proxy s| | | | | |proxy service s| | | |] eqn:Hp; try done;
    destruct (alloc _ _) as [self1 [w op]] eqn:Ha; intros [= <- <-];
    (assert (Hal : aligned self self1 /\ services self1.2 = bt_delete key (services self.2)) by
      (apply aligned_alloc in Ha as [Ha Hsv]; split; [eapply aligned_trans; [apply aligned_services|exact Ha]|];
       by rewrite Hsv, services_set));
    destruct Hal as [Hal Hsv]; (split; [eapply aligned_trans; [exact Hal|apply aligned_put]|right]);
    rewrite services_put, Hsv; eexists key, e, _, _, op, s; rewrite Hp; split_and!; try done;
    unfold alloc in Ha; cbn in Ha; injection Ha as <- <- <-; by destruct s.
Qed.

Lemma authorize_ok self self' ops :
  table_ok self (services self.2) -> length (services self.2) <= entries_maximum (entries self.2) ->
  occupied (services self.2) <= limit self ->
  (limit self <= S (occupied (services self.2)) \/ queued (services self.2) <= 1) ->
  authorize_waiting self = (self', ops) ->
  directory_ok self' /\ aligned self self' /\ present (services self'.2) ≡ₚ present (services self.2) /\
  omap operation_submission ops ++ held (services self'.2) ≡ₚ held (services self.2).
Proof.
  intros Ht Hlen Ho Hq Ha. destruct (authorize_spec _ _ _ (table_sorted _ _ Ht) Ha)
    as [Hal [(Hsv & -> & Hf)|(key & e & rest & p & op & s & Hd & Hsv & Hl & H1 & H2 & -> & H4 & H5 & H6 & H7 & H8 & H9)]].
  - unfold limit in *. destruct Hal as [Ae As] eqn:E. split_and!; [|done|by rewrite Hsv..].
    split; rewrite ?Hsv; unfold limit; rewrite ?Ae, ?As; auto. by apply (table_aligned self).
  - assert (Hcl : closing self = false).
    { destruct (closing self) eqn:Hcl; [|done]. pose proof (table_leaving _ _ Ht Hcl) as Hx.
      rewrite (detached_perm _ _ _ _ Hd) in Hx. inversion Hx; subst. cbn in *. congruence. }
    pose proof (settled_sums occupies _ _ _ _ (Some (with_phase e p)) Hd) as [O1 O2].
    pose proof (settled_sums waiting _ _ _ _ (Some (with_phase e p)) Hd) as [Q1 Q2].
    destruct (settled_lists _ _ _ _ (Some (with_phase e p)) Hd) as (L1 & L2 & L3 & L4); [by intros e' [= <-]|].
    cbn [settled from_option compose entry_phase with_phase holding ending app] in *.
    rewrite H1 in L1. rewrite H2 in L2. fold (occupied (services self.2)) in O1. fold (queued (services self.2)) in Q1.
    destruct Hal as [Ae As Ag Aop Ac Ax Aa Al Ad]. pose proof (Build_aligned _ _ Ae As Ag Aop Ac Ax Aa Al Ad) as Hal.
    split_and!; [|done|by rewrite Hsv|].
    + split; unfold limit; rewrite ?Hsv, ?Ae, ?As.
      * apply (table_aligned self); [done|].
        eapply (table_settled self _ _ _ _ (Some (with_phase e p))); [done|exact Hd|].
        split_and!; [done..| |by rewrite Hcl]. pose proof (table_issued _ _ Ht) as Hx.
        rewrite (detached_perm _ _ _ _ Hd) in Hx. inversion Hx; subst. naive_solver.
      * lia.
      * unfold occupied. fold (limit self). lia.
      * fold (limit self). unfold occupied, queued in *. lia.
    + rewrite Hsv, L2, L1. cbn. by rewrite H4.
Qed.


(** ** Accounts of a step *)

(** What a step that admits no service leaves: the invariant, every service that
    was present either present or closed by one message, and every submission
    (with [extra], the one the step was given) held or handed on. *)
Record counted (self : Self) (extra : list submission) (r : DynamicSupervisorRequests) (self' : Self) : Prop := {
  counted_ok : directory_ok self';
  counted_aligned : aligned self self';
  counted_present : closed r ++ present (services self'.2) ≡ₚ present (services self.2);
  counted_held : handed r ++ held (services self'.2) ≡ₚ extra ++ held (services self.2)
}.

Lemma directory_aligned self self' : directory_ok self -> aligned self self' -> services self'.2 = services self.2 ->
  directory_ok self'.
Proof.
  intros [T C L F] Ha Hs. pose proof (table_aligned _ _ _ Ha T) as T'. destruct Ha as [Ae As].
  split; unfold limit; rewrite ?Hs, ?Ae, ?As; auto.
Qed.

(** Nothing changed. *)
Lemma counted_same self self' extra r : directory_ok self -> aligned self self' -> services self'.2 = services self.2 ->
  closed r = [] -> handed r ≡ₚ extra -> counted self extra r self'.
Proof.
  intros Hok Ha Hs Hc Hh. split; auto; rewrite ?Hs, ?Hc; [by eapply directory_aligned|done|by rewrite Hh].
Qed.

Section Turns.
  Context (self : Self) (key : Key) (e : DynamicEntry) (rest : Services).
  Context (Hok : directory_ok self) (Hd : detached (services self.2) key e rest).

(** One entry goes on in another phase, or is removed, and holds as many startups. *)
Lemma quiet_turn self1 oe extra r :
  aligned self self1 -> services self1.2 = settled oe key rest ->
  match oe with Some e' => continues self1 e e' | None => True end ->
  occupancy oe = occupies (entry_phase e) -> demand oe <= waiting (entry_phase e) ->
  closed r = ending key e oe -> handed r ++ holding oe ≡ₚ held_phase (entry_phase e) ++ extra ->
  counted self extra r self1.
Proof.
  intros Ha Hs Hc Ho Hq Hcl Hh. destruct Hok as [T C L F].
  pose proof (settled_sums occupies _ _ _ _ oe Hd) as [O1 O2]. pose proof (settled_sums waiting _ _ _ _ oe Hd) as [Q1 Q2].
  destruct (settled_lists _ _ _ _ oe Hd) as (L1 & L2 & L3 & L4).
  { intros e' ->. by destruct Hc. }
  unfold occupied, queued, occupancy, demand in *.
  pose proof (table_settled _ _ _ _ _ oe (table_aligned _ _ _ Ha T) Hd Hc) as T'.
  split; auto; rewrite ?Hs.
  - destruct Ha as [Ae As]. split; unfold limit, occupied, queued in *; rewrite ?Hs, ?Ae, ?As; auto; lia.
  - by rewrite Hcl.
  - rewrite L2, L1, app_assoc, Hh, !app_assoc. f_equiv. by rewrite Permutation_app_comm.
Qed.

(** One entry goes on and frees at most one startup; then the oldest waiting
    entry is authorized. *)
Lemma loud_turn self1 oe extra h r self' ops :
  aligned self self1 -> services self1.2 = settled oe key rest ->
  match oe with Some e' => continues self1 e e' | None => True end ->
  occupancy oe <= occupies (entry_phase e) <= S (occupancy oe) -> demand oe <= S (waiting (entry_phase e)) ->
  authorize_waiting self1 = (self', ops) ->
  closed r = ending key e oe -> handed r ≡ₚ omap operation_submission ops ++ h ->
  h ++ holding oe ≡ₚ held_phase (entry_phase e) ++ extra ->
  counted self extra r self'.
Proof.
  intros Ha Hs Hc Ho Hq Haut Hcl Hr Hh. destruct Hok as [T C L F].
  pose proof (settled_sums occupies _ _ _ _ oe Hd) as [O1 O2]. pose proof (settled_sums waiting _ _ _ _ oe Hd) as [Q1 Q2].
  destruct (settled_lists _ _ _ _ oe Hd) as (L1 & L2 & L3 & L4).
  { intros e' ->. by destruct Hc. }
  pose proof (table_settled _ _ _ _ _ oe (table_aligned _ _ _ Ha T) Hd Hc) as T'.
  unfold occupancy, demand in *. destruct Ha as [Ae As] eqn:E.
  destruct (authorize_ok self1 self' ops) as (Hok' & Ha' & Hp & Hheld); auto.
  - by rewrite Hs.
  - rewrite Hs, Ae. lia.
  - rewrite Hs. unfold limit, occupied in *. rewrite As. lia.
  - rewrite Hs. unfold limit, occupied, queued in *. rewrite As. lia.
  - split; auto.
    + by eapply aligned_trans.
    + by rewrite Hcl, Hp, Hs.
    + rewrite Hs in Hheld. rewrite Hr, <- (app_assoc _ h), (Permutation_app_comm h), app_assoc, Hheld, L2, L1.
      rewrite (Permutation_app_comm _ h), app_assoc, Hh, !app_assoc. f_equiv. by rewrite Permutation_app_comm.
Qed.

End Turns.

(** The observations of the requests that the handlers build. *)
Lemma handed_built obs ops sch st rp sp qu ca lc dg :
  handed (mkDirectoryRequests obs ops sch st rp sp qu ca lc dg) =
  omap operation_submission ops ++ omap (change_submission ∘ snd) (addressed st) ++
  omap (change_submission ∘ snd) (addressed rp) ++ omap (receipt_submission ∘ snd) (addressed ca) ++
  omap message_submission (messages_of lc).
Proof. done. Qed.

Lemma closed_built obs ops sch st rp sp qu ca lc dg :
  closed (mkDirectoryRequests obs ops sch st rp sp qu ca lc dg) = omap ended (messages_of lc).
Proof. done. Qed.


(** ** Handlers *)

(** What a handler leaves: accounts, or the refused input with nothing changed. *)
Definition outcome_ok (self : Self) (extra : list submission) (input : DynamicSupervisorEvent) (res : Self * acted) : Prop :=
  match res with
  | (self', Ok a) => counted self extra (sends a) self' /\ creates a = Creations_empty /\ become_ a = Continue
  | (self', Err returned) => returned = input /\ self' = self
  end.

Section Handlers.
  Context (self : Self) (key : Key) (e : DynamicEntry) (rest : Services).
  Context (Hok : directory_ok self) (Hd : detached (services self.2) key e rest).

Lemma directory_put_back : put (set_services self rest) key (with_phase e (entry_phase e)) = self.
Proof.
  assert (He : with_phase e (entry_phase e) = e) by by destruct e.
  unfold put. rewrite services_set, He, (detached_back _ _ _ _ Hd). by destruct self as [n []].
Qed.

Lemma put_back_as p : entry_phase e = p -> put (set_services self rest) key (with_phase e p) = self.
Proof. intros <-. exact directory_put_back. Qed.

Lemma entry_issued : below (operations self.2) (entry_operation e) /\
  (closing self = true -> leaving (entry_phase e) = true).
Proof.
  destruct Hok as [[_ _ _ Ti Tl] _ _ _]. rewrite (detached_perm _ _ _ _ Hd) in Ti. inversion Ti; subst. split; [naive_solver|].
  intros Hc. specialize (Tl Hc). rewrite (detached_perm _ _ _ _ Hd) in Tl. by inversion Tl.
Qed.

Lemma goes_on self1 p : aligned self self1 -> (leaving (entry_phase e) = true -> leaving p = true) ->
  continues self1 e (with_phase e p).
Proof.
  intros Ha Hl. destruct entry_issued as [Ho Hc]. split_and!; [done..| |].
  - by apply (aligned_operations _ _ Ha).
  - rewrite (aligned_closing _ _ Ha). auto.
Qed.

Lemma goes_on_as self1 operation p : aligned self self1 -> below (operations self1.2) operation ->
  (leaving (entry_phase e) = true -> leaving p = true) ->
  continues self1 e (mkEntry (entry_generation e) operation (entry_creation e) p).
Proof.
  intros Ha Hb Hl. destruct entry_issued as [Ho Hc]. split_and!; [done..|]. rewrite (aligned_closing _ _ Ha). auto.
Qed.

Lemma refused_ok p input : entry_phase e = p ->
  outcome_ok self [] input (put (set_services self rest) key (with_phase e p), Err input).
Proof. intros Hp. split; [done|by apply put_back_as]. Qed.

(** The entry in place after a change of phase, with fresh allocations. *)
Lemma placed self0 e' : aligned self self0 -> services self0.2 = rest ->
  aligned self (put self0 key e') /\ services (put self0 key e').2 = settled (Some e') key rest.
Proof.
  intros Ha Hs. split; [eapply aligned_trans; [exact Ha|apply aligned_put]|]. by rewrite services_put, Hs.
Qed.

Lemma taken_aligned : aligned self (set_services self rest) /\ services (set_services self rest).2 = rest.
Proof. split; [apply aligned_services|apply services_set]. Qed.

Lemma taken_alloc {X} (m : Alloc X) self1 x : alloc (set_services self rest) m = (self1, x) ->
  aligned self self1 /\ services self1.2 = rest.
Proof.
  intros [Ha Hs]%aligned_alloc. rewrite Hs, services_set. split; [|done].
  eapply aligned_trans; [apply aligned_services|done].
Qed.

End Handlers.

End DirectoryObservations.

(** Reads the requests that a handler built. *)
Ltac observed :=
  unfold handed, closed, sending, no_requests, with_operations, with_lifecycle, with_schedules, started_reply,
    replaced_reply, stopped_reply, queried_reply, cancelled_reply, observing, diagnosing, entry_retired,
    operation_cancelled, stop_finished;
  cbn [send cont just sends proxy_operations start_replies replace_replies stop_replies query_replies cancel_replies lifecycle
       diagnostics sends_empty DirectoryRequests_Sends];
  rewrite ?messages_append, ?messages_publish, ?messages_empty, ?addressed_deliver, ?addressed_empty; cbn; rewrite ?messages_empty; cbn.

Section DirectorySteps.
  Context `{DT : DirectoryTypes} `{!RouteLaws LifecycleRoute DynamicLifecycle LifecycleSends}.

Abbreviation submission := (WorkerSubmission Worker Plan).
Abbreviation acted := (result DirectoryActions DynamicSupervisorEvent).

Lemma retirement_begin_spec self c proxy work self1 r op : alloc self (retirement_begin c proxy work) = (self1, (r, op)) ->
  operation_submission op = None /\ retirement_work r = work /\ retirement_stopped r = None.
Proof. unfold alloc. cbn. intros [= <- <- <-]. done. Qed.

Lemma operation_shutdown_spec self c self1 w op : alloc self (operation_shutdown c) = (self1, (w, op)) ->
  operation_submission op = None.
Proof. unfold alloc. cbn. by intros [= <- <- <-]. Qed.

(** Occupancy of a retirement. *)
Lemma retiring_occupies r : occupies (Entry_Retiring r) =
  match retirement_work r with
  | Work_Transferred _ (Input_AwaitingSettlement _ | Input_AwaitingOutcome _) => 1
  | _ => 0
  end.
Proof. by destruct r as [? ? [] ?]. Qed.

Section Created.
  Context (self : Self) (key : Key) (e : DynamicEntry) (rest : Services).
  Context (Hok : directory_ok self) (Hd : detached (services self.2) key e rest).

Lemma retire_created_ok input proxy work :
  leaving (entry_phase e) = true -> occupies (entry_phase e) = 0 -> held_phase (entry_phase e) = [] ->
  match work with Work_Transferred _ _ => False | _ => True end ->
  outcome_ok self [] input (retire_created (set_services self rest) key e proxy work).
Proof.
  intros Hl Ho Hh Hw. unfold retire_created. destruct (alloc _ _) as [self1 [r op]] eqn:Ha.
  destruct (taken_alloc _ _ _ _ _ Ha) as [Ha1 Hs1]. destruct (retirement_begin_spec _ _ _ _ _ _ _ Ha) as (Hop & Hwork & _).
  cbn [outcome_ok sending]. split_and!; [|done..]. destruct (placed self key rest self1 (with_phase e (Entry_Retiring r)) Ha1 Hs1) as [Hp1 Hp2].
  eapply (quiet_turn self key e rest Hok Hd _ (Some _)); [done|done| | |cbn; lia| |].
  - by apply (goes_on self key e rest Hok Hd).
  - unfold occupancy, from_option, compose. rewrite Ho. cbn [entry_phase with_phase]. rewrite retiring_occupies, Hwork. by destruct work.
  - by observed.
  - observed. rewrite Hop, Hh. done.
Qed.

Lemma stop_created_ok input proxy messages :
  occupies (entry_phase e) = 0 -> omap ended (messages_of messages) = [] ->
  omap message_submission (messages_of messages) = held_phase (entry_phase e) ->
  outcome_ok self [] input (stop_created (set_services self rest) key e proxy messages).
Proof.
  intros Ho Hm Hh. unfold stop_created. destruct (alloc _ _) as [self1 [w op]] eqn:Ha.
  destruct (taken_alloc _ _ _ _ _ Ha) as [Ha1 Hs1]. pose proof (operation_shutdown_spec _ _ _ _ _ Ha) as Hop.
  cbn [outcome_ok sending]. split_and!; [|done..].
  destruct (placed self key rest self1 (with_phase e (Entry_Stopping proxy None (ProxyShutdown_AwaitingSettlement w) None)) Ha1 Hs1) as [Hp1 Hp2].
  eapply (quiet_turn self key e rest Hok Hd _ (Some _)); [done|done| |by rewrite Ho|cbn; lia| |].
  - by apply (goes_on self key e rest Hok Hd).
  - observed. done.
  - observed. rewrite Hop, Hh. cbn. by rewrite !app_nil_r.
Qed.

(** An entry that is removed with its messages. *)
Lemma removed_ok input a :
  occupies (entry_phase e) = 0 -> creates a = Creations_empty -> become_ a = Continue ->
  closed (sends a) = [(key, entry_generation e)] -> handed (sends a) ≡ₚ held_phase (entry_phase e) ->
  outcome_ok self [] input (set_services self rest, Ok a).
Proof.
  intros Ho Hcr Hb Hc Hh. cbn. split_and!; [|done..].
  eapply (quiet_turn self key e rest Hok Hd _ None); [apply aligned_services|apply services_set|done|by rewrite Ho|cbn; lia|done|].
  cbn. by rewrite !app_nil_r.
Qed.

Lemma accept_creation_ok settlement :
  outcome_ok self [] (Event_ProxyCreationsSettled (Creation_Settled (Creations_one settlement)))
    (accept_creation (set_services self rest) key e settlement).
Proof.
  unfold accept_creation. destruct (entry_phase e) as [s| | | | | | |start_operation s| | | | | |] eqn:Hp;
    try (by apply (refused_ok self key e rest Hok Hd)).
  - destruct (resolve settlement) as [proxy|creation].
    + destruct (authorize_waiting _) as [self' ops] eqn:Ha. cbn [outcome_ok sending]. split_and!; [|done..].
      destruct (taken_aligned self rest) as [Ha0 Hs0].
      destruct (placed self key rest _ (with_phase e (Entry_WaitingForStartup proxy s)) Ha0 Hs0) as [Hp1 Hp2].
      eapply (loud_turn self key e rest Hok Hd _ (Some _) [] []); [done|done| | |cbn; lia|exact Ha| | |].
      * apply (goes_on self key e rest Hok Hd); [done|]. by rewrite Hp.
      * rewrite Hp. cbn. lia.
      * by observed.
      * by observed.
      * by rewrite Hp.
    + eapply removed_ok; [by rewrite Hp|done..| |]; observed; [done|]. by rewrite Hp.
  - destruct (resolve settlement) as [proxy|creation].
    + apply retire_created_ok; by rewrite ?Hp.
    + eapply removed_ok; [by rewrite Hp|done..| |]; observed; [done|]. by rewrite Hp.
  - destruct (resolve settlement) as [proxy|creation].
    + apply stop_created_ok; by rewrite ?Hp, ?messages_empty.
    + eapply removed_ok; [by rewrite Hp|done..| |]; observed; [done|]. by rewrite Hp.
  - destruct (resolve settlement) as [proxy|creation].
    + apply retire_created_ok; by rewrite ?Hp.
    + eapply removed_ok; [by rewrite Hp|done..| |]; observed; [done|]. by rewrite Hp.
  - destruct (resolve settlement) as [proxy|creation].
    + apply stop_created_ok; by rewrite ?Hp, ?messages_publish.
    + eapply removed_ok; [by rewrite Hp|done..| |]; observed; [done|]. by rewrite Hp.
Qed.

End Created.


Lemma take_proxy_entry_spec self c self1 key e : sorted (services self.2) ->
  take_proxy_entry self c = Some (self1, key, e) ->
  exists rest, self1 = set_services self rest /\ detached (services self.2) key e rest /\ entry_creation e = c.
Proof.
  intros Hs. unfold take_proxy_entry. destruct (take_at _ _) as [[[i [k x]] rest]|] eqn:Ht; [|done]. cbn [mbind option_bind]. intros [= <- <- <-].
  exists rest. split; [reflexivity|]. split; [by eapply take_detached|].
  apply take_at_Some in Ht as (_ & Hc & _). cbn in Hc. by apply bool_decide_eq_true_1 in Hc.
Qed.

Lemma witness_admit_spec w (input : ProxyInputResult) :
  match witness_admit w input with Ok i => i = input | Err (w', i) => w' = w /\ i = input end.
Proof. unfold witness_admit. by destruct (same_operation _ _). Qed.

Lemma directory_accept_creations_ok self proxies : directory_ok self ->
  outcome_ok self [] (Event_ProxyCreationsSettled proxies) (accept_creations self proxies).
Proof.
  intros Hok. destruct proxies as [settlements| |]; cbn [accept_creations]; [|done..].
  destruct (into_one settlements) as [settlement|l] eqn:Hone; apply into_one_inv in Hone; subst; [|done].
  destruct (take_proxy_entry _ _) as [[[self1 key] e]|] eqn:Ht; [|done].
  apply take_proxy_entry_spec in Ht as (rest & -> & Hd & _); [|by apply Hok]. by apply accept_creation_ok.
Qed.

(** Closing a retirement: it is over, or nothing was said. *)
Lemma close_retirement_spec self key g op r :
  match close_retirement self key g op r with
  | Ok l => occupies (Entry_Retiring r) = 0 /\ omap ended (messages_of l) = [(key, g)] /\
      omap message_submission (messages_of l) = []
  | Err r' => r' = r
  end.
Proof.
  rewrite retiring_occupies. unfold close_retirement, entry_retired, operation_cancelled.
  destruct r as [proxy [w|o|] work [stopped|]]; cbn [retirement_shutdown retirement_stopped retirement_work]; try done;
    (destruct work as [| | | | |[change|start|start|start service] [w|o'| |outcome]]; cbn; try done);
    by rewrite ?messages_append, ?messages_publish.
Qed.

Section Settling.
  Context (self : Self) (key : Key) (e : DynamicEntry) (rest : Services).
  Context (Hok : directory_ok self) (Hd : detached (services self.2) key e rest).

Lemma settle_retirement_spec r self1 l : settle_retirement (set_services self rest) key e r = (self1, l) ->
  exists oe, aligned self self1 /\ services self1.2 = settled oe key rest /\
    match oe with Some e' => continues self1 e e' | None => True end /\
    occupancy oe = occupies (Entry_Retiring r) /\ demand oe = 0 /\ holding oe = [] /\
    omap ended (messages_of l) = ending key e oe /\ omap message_submission (messages_of l) = [].
Proof.
  unfold settle_retirement. pose proof (close_retirement_spec (set_services self rest) key (entry_generation e) (entry_operation e) r) as Hc.
  destruct (taken_aligned self rest) as [Ha0 Hs0].
  destruct (close_retirement _ _ _ _ _) as [l'|r']; intros [= <- <-].
  - destruct Hc as (H1 & H2 & H3). exists None. by split_and!.
  - subst r'. exists (Some (with_phase e (Entry_Retiring r))).
    destruct (placed self key rest _ (with_phase e (Entry_Retiring r)) Ha0 Hs0) as [Hp1 Hp2].
    rewrite messages_empty. split_and!; try done. by apply (goes_on self key e rest Hok Hd).
Qed.

(** A phase that keeps its startup, or frees it before the next is authorized. *)
Lemma phase_quiet p r :
  occupies p = occupies (entry_phase e) -> waiting p = 0 -> (leaving (entry_phase e) = true -> leaving p = true) ->
  closed r = [] -> handed r ++ held_phase p ≡ₚ held_phase (entry_phase e) ->
  counted self [] r (put (set_services self rest) key (with_phase e p)).
Proof.
  intros Ho Hw Hl Hc Hh. destruct (taken_aligned self rest) as [Ha0 Hs0].
  destruct (placed self key rest _ (with_phase e p) Ha0 Hs0) as [Hp1 Hp2].
  eapply (quiet_turn self key e rest Hok Hd _ (Some _)); [done|done| |done|cbn; rewrite Hw; lia|done|cbn; by rewrite app_nil_r].
  by apply (goes_on self key e rest Hok Hd).
Qed.

Lemma phase_loud self0 p h r self' ops :
  aligned self self0 -> services self0.2 = rest ->
  occupies p <= occupies (entry_phase e) <= S (occupies p) -> waiting p <= 1 ->
  (leaving (entry_phase e) = true -> leaving p = true) ->
  authorize_waiting (put self0 key (with_phase e p)) = (self', ops) ->
  closed r = [] -> handed r ≡ₚ omap operation_submission ops ++ h -> h ++ held_phase p ≡ₚ held_phase (entry_phase e) ->
  counted self [] r self'.
Proof.
  intros Ha0 Hs0 Ho Hw Hl Haut Hc Hh Hhold.
  destruct (placed self key rest _ (with_phase e p) Ha0 Hs0) as [Hp1 Hp2].
  eapply (loud_turn self key e rest Hok Hd _ (Some _)); [done|done| |done| |exact Haut|done|done|cbn; by rewrite app_nil_r].
  - by apply (goes_on self key e rest Hok Hd).
  - cbn. lia.
Qed.

Lemma accept_start_input_ok proxy witness input : entry_phase e = Entry_WaitingForProxyInput proxy witness ->
  outcome_ok self [] (Event_ProxyInputSettled input)
    (accept_start_input (set_services self rest) key e proxy witness input).
Proof.
  intros Hp. unfold accept_start_input. pose proof (witness_admit_spec witness input) as Hw.
  destruct (witness_admit witness input) as [i|[w' i]]; [subst i|destruct Hw as [-> ->]; by apply (refused_ok self key e rest Hok Hd)].
  destruct input as [[receipt|item reason|item []|item fault]|item].
  1: { cbn [outcome_ok]. split_and!; [|done..]. apply phase_quiet; rewrite ?Hp; try done; by observed. }
  all: destruct (alloc _ _) as [self1 [r op]] eqn:Ha; destruct (authorize_waiting _) as [self' ops] eqn:Haut;
    cbn [outcome_ok sending]; split_and!; [|done..];
    destruct (taken_alloc _ _ _ _ _ Ha) as [Ha1 Hs1]; destruct (retirement_begin_spec _ _ _ _ _ _ _ Ha) as (Hop & Hwork & _);
    eapply (phase_loud self1 (Entry_Retiring r) []); [done|done| |cbn; lia|done|exact Haut|by observed|observed; by rewrite Hop|by rewrite Hp];
    rewrite Hp, retiring_occupies, Hwork; cbn; lia.
Qed.

Lemma accept_replacement_input_ok proxy service witness input :
  entry_phase e = Entry_ReplacementAwaitingReceipt proxy service witness ->
  outcome_ok self [] (Event_ProxyInputSettled input)
    (accept_replacement_input (set_services self rest) key e proxy service witness input).
Proof.
  intros Hp. unfold accept_replacement_input. pose proof (witness_admit_spec witness input) as Hw.
  destruct (witness_admit witness input) as [i|[w' i]]; [subst i|destruct Hw as [-> ->]; by apply (refused_ok self key e rest Hok Hd)].
  destruct (taken_aligned self rest) as [Ha0 Hs0].
  destruct input as [[receipt|item reason|item []|item fault]|item].
  1: { cbn [outcome_ok]. split_and!; [|done..]. apply phase_quiet; rewrite ?Hp; try done; by observed. }
  all: destruct (authorize_waiting _) as [self' ops] eqn:Haut; cbn [outcome_ok sending]; split_and!; [|done..];
    eapply (phase_loud _ (Entry_Available proxy service Disposition_Committed) []); [done|done|rewrite Hp; cbn; lia|cbn; lia|done|exact Haut|by observed|by observed|by rewrite Hp].
Qed.

Lemma accept_stopping_input_ok proxy restorable witness stopped input :
  entry_phase e = Entry_Stopping proxy restorable (ProxyShutdown_AwaitingSettlement witness) stopped ->
  outcome_ok self [] (Event_ProxyInputSettled input)
    (accept_stopping_input (set_services self rest) key e proxy restorable witness stopped input).
Proof.
  intros Hp. unfold accept_stopping_input. pose proof (witness_admit_spec witness input) as Hw.
  destruct (witness_admit witness input) as [i|[w' i]]; [subst i|destruct Hw as [-> ->]; by apply (refused_ok self key e rest Hok Hd)].
  destruct input as [[receipt|item reason|item []|item fault]|item]; cbn [entry_stop_result failure_stopped];
    destruct stopped as [stopped|]; [| |destruct restorable as [service|]..];
    first
      [ eapply (removed_ok self key e rest Hok Hd); [by rewrite Hp|done..| |]; observed; [done|by rewrite Hp]
      | cbn [outcome_ok sending]; (split_and!; [|done..]);
        apply phase_quiet; rewrite ?Hp; try done; by observed ].
Qed.

End Settling.


(** The settlement of a retiring proxy's shutdown hands nothing on, and an input
    that is not it stays as it is. *)
Lemma retiring_shutdown_spec self key e r input proxy shutdown remaining requests :
  retiring_shutdown self key e r input = (proxy, shutdown, remaining, requests) ->
  closed requests = [] /\ handed requests = [] /\
  match remaining with
  | Some i => i = input /\ proxy = retirement_proxy r /\ shutdown = retirement_shutdown r
  | None => True
  end.
Proof.
  unfold retiring_shutdown. destruct r as [p sh work stopped].
  assert (Hrej : forall i x, (p, ProxyShutdown_Rejected, None,
      diagnosing self (Dynamic_ProxyShutdownRejected key (entry_generation e) i) x) = (proxy, shutdown, remaining, requests) ->
      closed x = [] -> handed x = [] -> closed requests = [] /\ handed requests = [] /\
      match remaining with
      | Some i => i = input /\ proxy = p /\ shutdown = sh
      | None => True
      end).
  { intros i x [= <- <- <- <-] Hc Hh. by split_and!. }
  destruct sh as [witness|o|]; cbn [retirement_proxy retirement_shutdown];
    [|intros [= <- <- <- <-]; split_and!; try done; by observed..].
  pose proof (witness_admit_spec witness input) as Hw.
  destruct (witness_admit witness input) as [i|[w' i]];
    [subst i|destruct Hw as [-> ->]; intros [= <- <- <- <-]; split_and!; try done; by observed].
  destruct input as [[receipt|item reason|item []|item fault]|item];
    [intros [= <- <- <- <-]; split_and!; try done; by observed|..];
    (destruct work as [| | | | |[] ?]; cbn [entry_stop_result]; intros Heq; (eapply Hrej; [exact Heq|by observed..])).
Qed.

Lemma settle_input_spec work input :
  match settle_input work input with
  | Ok (work', _) => exists purpose w, work = Work_Transferred purpose (Input_AwaitingSettlement w) /\
      (work' = Work_Transferred purpose Input_Rejected \/ exists o, work' = Work_Transferred purpose (Input_AwaitingOutcome o))
  | Err (work', i) => work' = work /\ i = input
  end.
Proof.
  unfold settle_input. destruct work as [| | | | |purpose [w|o| |outcome]]; try done.
  pose proof (witness_admit_spec w input) as Hw.
  destruct (witness_admit w input) as [i|[w' i]]; [subst i|by destruct Hw as [-> ->]].
  destruct input as [[receipt|item reason|item []|item fault]|item]; eexists purpose, w; eauto.
Qed.

Section Answers.
  Context (self : Self) (key : Key) (e : DynamicEntry) (rest : Services).
  Context (Hok : directory_ok self) (Hd : detached (services self.2) key e rest).

(** A retirement with new evidence: closed or kept, and the next authorized. *)
Lemma settled_loud r r' self1 l self' ops requests :
  entry_phase e = Entry_Retiring r ->
  occupies (Entry_Retiring r') <= occupies (Entry_Retiring r) <= S (occupies (Entry_Retiring r')) ->
  settle_retirement (set_services self rest) key e r' = (self1, l) -> authorize_waiting self1 = (self', ops) ->
  closed requests = omap ended (messages_of l) ->
  handed requests = omap operation_submission ops ++ omap message_submission (messages_of l) ->
  counted self [] requests self'.
Proof.
  intros Hp Ho Hset Haut Hc Hh.
  destruct (settle_retirement_spec self key e rest Hok Hd _ _ _ Hset) as (oe & Ha & Hs & Hcont & Hocc & Hdem & Hhold & Hend & Hsub).
  eapply (loud_turn self key e rest Hok Hd self1 oe [] []); [done|done|done| | |exact Haut| | |].
  - rewrite Hp, Hocc. done.
  - rewrite Hdem. lia.
  - by rewrite Hc.
  - by rewrite Hh, Hsub.
  - by rewrite Hhold, Hp.
Qed.

Lemma accept_retiring_input_ok r input : entry_phase e = Entry_Retiring r ->
  outcome_ok self [] (Event_ProxyInputSettled input) (accept_retiring_input (set_services self rest) key e r input).
Proof.
  intros Hp. unfold accept_retiring_input.
  destruct (retiring_shutdown _ _ _ _ _) as [[[proxy shutdown] remaining] requests] eqn:Hr.
  destruct (retiring_shutdown_spec _ _ _ _ _ _ _ _ _ Hr) as (Hc & Hh & Hrem).
  assert (Hsettled : forall work dg,
    occupies (Entry_Retiring (mkRetirement proxy shutdown work (retirement_stopped r))) <= occupies (Entry_Retiring r) <=
      S (occupies (Entry_Retiring (mkRetirement proxy shutdown work (retirement_stopped r)))) ->
    closed dg = [] -> handed dg = [] -> proxy_operations dg = [] ->
    outcome_ok self [] (Event_ProxyInputSettled input)
      (let '(self0, l) := settle_retirement (set_services self rest) key e
         (mkRetirement proxy shutdown work (retirement_stopped r)) in
       let '(self2, ops) := authorize_waiting self0 in
       (self2, sending (with_operations ops (with_lifecycle (sends_append (lifecycle dg) l) dg))))).
  { intros work dg Ho Hcd Hhd Hod. destruct (settle_retirement _ _ _ _) as [self1 l] eqn:Hset.
    destruct (authorize_waiting self1) as [self' ops] eqn:Haut. cbn [outcome_ok sending]. split_and!; [|done..].
    eapply (settled_loud r); [done|exact Ho|exact Hset|exact Haut| |]; unfold closed, handed in *; cbn [send sends with_operations
      with_lifecycle proxy_operations start_replies replace_replies cancel_replies lifecycle]; rewrite messages_append, omap_app.
    - by rewrite Hcd.
    - apply app_eq_nil in Hhd as [_ [H1 [H2 [H3 H4]%app_eq_nil]%app_eq_nil]%app_eq_nil]. by rewrite H1, H2, H3, H4. }
  assert (Hno : proxy_operations requests = []).
  { revert Hr. clear. unfold retiring_shutdown. destruct r as [? [] ? ?]; repeat case_match; by intros [= <- <- <- <-]. }
  destruct remaining as [i|].
  - destruct Hrem as (-> & -> & ->). pose proof (settle_input_spec (retirement_work r) input) as Hset.
    destruct (settle_input _ _) as [[work [rejected|]]|[work i]].
    + destruct Hset as (purpose & w & Hw & Hw'). apply Hsettled; [|by observed..].
      rewrite !retiring_occupies. cbn [retirement_work]. rewrite Hw. destruct Hw' as [->|[o ->]]; cbn; lia.
    + destruct Hset as (purpose & w & Hw & Hw'). apply Hsettled; [|done..].
      rewrite !retiring_occupies. cbn [retirement_work]. rewrite Hw. destruct Hw' as [->|[o ->]]; cbn; lia.
    + destruct Hset as [-> ->]. apply (refused_ok self key e rest Hok Hd). rewrite Hp. by destruct r.
  - apply Hsettled; [|done..]. rewrite !retiring_occupies. cbn [retirement_work]. lia.
Qed.

End Answers.

Lemma accept_proxy_input_ok self input : directory_ok self ->
  outcome_ok self [] (Event_ProxyInputSettled input) (accept_proxy_input self input).
Proof.
  intros Hok. unfold accept_proxy_input. destruct (take_proxy_entry _ _) as [[[self1 key] e]|] eqn:Ht; [|done].
  apply take_proxy_entry_spec in Ht as (rest & -> & Hd & _); [|by apply Hok].
  destruct (entry_phase e) as [| | | |proxy w| | | | | |proxy service w| |proxy restorable [w|o|] stopped|r] eqn:Hp;
    try (by apply (refused_ok self key e rest Hok Hd)).
  - by apply accept_start_input_ok.
  - by apply accept_replacement_input_ok.
  - by apply accept_stopping_input_ok.
  - by apply accept_retiring_input_ok.
Qed.

(** A diagnosis that puts the entry back. *)
Lemma diagnosed_ok self key e rest p input r : directory_ok self -> detached (services self.2) key e rest -> entry_phase e = p ->
  closed r = [] -> handed r = [] ->
  outcome_ok self [] input (put (set_services self rest) key (with_phase e p), sending r).
Proof.
  intros Hok Hd Hp Hc Hh. rewrite (put_back_as self key e rest Hok Hd p Hp). cbn [outcome_ok sending]. split_and!; [|done..].
  apply counted_same; auto using aligned_refl. cbn [send sends]. by rewrite Hh.
Qed.

Lemma untouched_ok self input r : directory_ok self -> closed r = [] -> handed r = [] ->
  outcome_ok self [] input (self, sending r).
Proof.
  intros Hok Hc Hh. cbn [outcome_ok sending]. split_and!; [|done..]. apply counted_same; auto using aligned_refl. cbn [send sends]. by rewrite Hh.
Qed.

Lemma accept_proxy_stop_ok self stopped : directory_ok self ->
  outcome_ok self [] (Event_ProxyStopped stopped) (accept_proxy_stop self stopped).
Proof.
  intros Hok. unfold accept_proxy_stop. destruct (take_proxy_entry _ _) as [[[self1 key] e]|] eqn:Ht;
    [|apply untouched_ok; [done|by observed..]].
  apply take_proxy_entry_spec in Ht as (rest & -> & Hd & _); [|by apply Hok].
  destruct (entry_phase e) as [| | | | | | | | | | | |proxy restorable [w|o|] [st|]|[proxy shutdown work [st|]]] eqn:Hp;
    try (apply (diagnosed_ok self key e rest); [done|done|done|by observed..]).
  - cbn [outcome_ok]. split_and!; [|done..]. apply (phase_quiet self key e rest Hok Hd); rewrite ?Hp; try done; by observed.
  - eapply (removed_ok self key e rest Hok Hd); [by rewrite Hp|done..| |]; observed; [done|by rewrite Hp].
  - destruct (settle_retirement _ _ _ _) as [self1 l] eqn:Hset. cbn [outcome_ok sending]. split_and!; [|done..].
    destruct (settle_retirement_spec self key e rest Hok Hd _ _ _ Hset) as (oe & Ha & Hs & Hcont & Hocc & Hdem & Hhold & Hend & Hsub).
    eapply (quiet_turn self key e rest Hok Hd self1 oe); [done|done|done| | | |].
    + rewrite Hocc, Hp, !retiring_occupies. done.
    + rewrite Hdem. lia.
    + by observed.
    + observed. rewrite Hsub, Hhold, Hp. done.
Qed.

(** ** Proxy reports *)

Lemma with_phase_same e p : entry_phase e = p -> with_phase e p = e.
Proof. intros <-. by destruct e. Qed.

Section Reports.
  Context (self : Self) (key : Key) (e : DynamicEntry) (rest : Services).
  Context (Hok : directory_ok self) (Hd : detached (services self.2) key e rest).

Lemma replacement_rejected_ok e' input report : e' = e ->
  outcome_ok self [] input (replacement_rejected (set_services self rest) key e' report).
Proof.
  intros ->. unfold replacement_rejected. rewrite <- (with_phase_same e _ eq_refl) at 1.
  apply (diagnosed_ok self key e rest); [done|done|done|by observed..].
Qed.

(** An answer frees the startup that its entry held. *)
Lemma answered_ok p self0 input l ops h self' :
  aligned self self0 -> services self0.2 = rest ->
  occupies p = 0 -> occupies (entry_phase e) = 1 -> held_phase (entry_phase e) = [] -> held_phase p = [] -> waiting p = 0 ->
  (leaving (entry_phase e) = true -> leaving p = true) ->
  omap operation_submission h = [] -> omap ended (messages_of l) = [] -> omap message_submission (messages_of l) = [] ->
  authorize_waiting (put self0 key (with_phase e p)) = (self', ops) ->
  outcome_ok self [] input (self', sending (with_lifecycle l (with_operations (h ++ ops) no_requests))).
Proof.
  intros Ha Hs Hp Hocc Hhe Hhp Hw Hl Hh He Hm Haut. cbn [outcome_ok sending]. split_and!; [|done..].
  eapply (phase_loud self key e rest Hok Hd self0 p []); [done|done|rewrite Hp, Hocc; lia|lia|done|exact Haut| | |by rewrite Hhp, Hhe].
  - unfold closed. cbn [send sends lifecycle with_lifecycle]. done.
  - unfold handed. cbn [send sends with_lifecycle with_operations proxy_operations start_replies replace_replies cancel_replies lifecycle
      no_requests sends_empty DirectoryRequests_Sends]. rewrite omap_app, Hh, Hm, !addressed_empty. done.
Qed.

Lemma accept_replacement_outcome_ok child proxy service operation o :
  entry_phase e = Entry_ReplacementAwaitingOutcome proxy service operation ->
  outcome_ok self [] (Event_ProxyReported (mkChildReport child (Outcome_Replacement o)))
    (accept_replacement_outcome (set_services self rest) key e child proxy service o).
Proof.
  intros Hp. unfold accept_replacement_outcome. destruct (match outcome_replaces o with Some _ => _ | None => _ end);
    [by apply replacement_rejected_ok|].
  destruct (replacement_service service o) as [[service'|[service' failure]]|]; [| |by apply replacement_rejected_ok];
    destruct (authorize_waiting _) as [self' ops] eqn:Haut; destruct (taken_aligned self rest) as [Ha0 Hs0];
    (eapply (answered_ok _ _ _ _ _ []); [exact Ha0|exact Hs0|..|exact Haut]); rewrite ?Hp, ?messages_publish; done.
Qed.

Lemma accept_retiring_outcome_ok child r purpose operation outcome : entry_phase e = Entry_Retiring r ->
  retirement_work r = Work_Transferred purpose (Input_AwaitingOutcome operation) ->
  outcome_ok self [] (Event_ProxyReported (mkChildReport child outcome))
    (accept_retiring_outcome (set_services self rest) key e child r purpose outcome).
Proof.
  intros Hp Hw. unfold accept_retiring_outcome. destruct (purpose_accepts _ _); [|by apply replacement_rejected_ok].
  destruct (settle_retirement _ _ _ _) as [self1 l] eqn:Hset. destruct (authorize_waiting self1) as [self' ops] eqn:Haut.
  cbn [outcome_ok sending]. split_and!; [|done..].
  eapply (settled_loud self key e rest Hok Hd r); [done| |exact Hset|exact Haut|by observed|by observed].
  rewrite !retiring_occupies, Hw. cbn. lia.
Qed.

Lemma worker_stopped_ok proxy worker readiness latest stopped_worker stopped disposition input :
  entry_phase e = Entry_Available proxy (Service_Ready worker readiness) latest ->
  outcome_ok self [] input
    (let '(self, (phase, shutdown)) :=
       match disposition with
       | KeepEmpty => (set_services self rest, (Entry_Available proxy (Service_Empty worker) latest, []))
       | Retire =>
           let '(self, (retirement, shutdown_request)) :=
             alloc (set_services self rest) (retirement_begin (entry_creation e) proxy Work_UnexpectedWorkerStopped) in
           (self, (Entry_Retiring retirement, [shutdown_request]))
       end in
     (put self key (with_phase e phase),
      sending (with_lifecycle
        (publish self (Life_UnexpectedWorkerStopped key (entry_generation e) stopped_worker readiness stopped disposition))
        (with_operations shutdown no_requests)))).
Proof.
  intros Hp. destruct disposition.
  - cbn [outcome_ok sending]. split_and!; [|done..].
    apply (phase_quiet self key e rest Hok Hd); rewrite ?Hp; try done; by observed.
  - destruct (alloc _ _) as [self1 [r op]] eqn:Ha. destruct (taken_alloc _ _ _ _ _ Ha) as [Ha1 Hs1].
    destruct (retirement_begin_spec _ _ _ _ _ _ _ Ha) as (Hop & Hwork & _). cbn [outcome_ok sending]. split_and!; [|done..].
    destruct (placed self key rest self1 (with_phase e (Entry_Retiring r)) Ha1 Hs1) as [Hp1 Hp2].
    eapply (quiet_turn self key e rest Hok Hd _ (Some _)); [done|done| | |cbn; lia| |].
    + by apply (goes_on self key e rest Hok Hd).
    + unfold occupancy, from_option, compose. cbn [entry_phase with_phase]. by rewrite retiring_occupies, Hwork, Hp.
    + by observed.
    + observed. by rewrite Hop, Hp.
Qed.

(** The report of a service that was asked for while it was unavailable. *)
Lemma unavailable_ok p sender phase message input : entry_phase e = p ->
  outcome_ok self [] input
    (put (set_services self rest) key (with_phase e p),
     sending (with_lifecycle (publish (set_services self rest)
       (Life_CommandUnavailable key (entry_generation e) sender phase message)) no_requests)).
Proof. intros Hp. apply (diagnosed_ok self key e rest); [done|done|done|by observed..]. Qed.

End Reports.

Lemma accept_proxy_report_ok self report : directory_ok self ->
  outcome_ok self [] (Event_ProxyReported report) (accept_proxy_report self report).
Proof.
  intros Hok. destruct report as [child outcome]. unfold accept_proxy_report.
  destruct (take_proxy_entry _ _) as [[[self1 key] e]|] eqn:Ht; [|apply untouched_ok; [done|by observed..]].
  apply take_proxy_entry_spec in Ht as (rest & -> & Hd & _); [|by apply Hok].
  destruct (entry_phase e) as [| | | | |proxy po| | |proxy [worker readiness|w0] latest| | |proxy service po| |r] eqn:Hp.
  all: destruct outcome as [o|o|stopped_worker stopped'|sender phase message];
    try (by apply (unavailable_ok self key e rest Hok Hd));
    try (by apply (replacement_rejected_ok self key e rest Hok Hd), with_phase_same).
  - destruct (taken_aligned self rest) as [Ha0 Hs0].
    destruct o as [| |[]]; [| | |destruct (authorize_waiting _) as [self' ops] eqn:Haut;
      (eapply (answered_ok self key e rest Hok Hd _ _ _ _ _ []); [exact Ha0|exact Hs0|..|exact Haut]); by rewrite ?Hp, ?messages_publish|..].
    all: destruct (alloc _ _) as [self1 [r op]] eqn:Ha; destruct (authorize_waiting _) as [self' ops] eqn:Haut;
      destruct (taken_alloc _ _ _ _ _ Ha) as [Ha1 Hs1]; destruct (retirement_begin_spec _ _ _ _ _ _ _ Ha) as (Hop & Hwork & _);
      (eapply (answered_ok self key e rest Hok Hd _ _ _ _ _ [op]); [exact Ha1|exact Hs1|..|exact Haut]);
      rewrite ?Hp, ?messages_publish, ?retiring_occupies, ?Hwork; try done; cbn; by rewrite Hop.
  - case_bool_decide; [|by apply (replacement_rejected_ok self key e rest Hok Hd), with_phase_same].
    by apply (worker_stopped_ok self key e rest Hok Hd).
  - by eapply accept_replacement_outcome_ok.
  - destruct r as [p sh [| | | | |purpose [w|po| |oc]] st];
      try (by apply (replacement_rejected_ok self key e rest Hok Hd), with_phase_same).
    by eapply accept_retiring_outcome_ok.
  - destruct r as [p sh [| | | | |purpose [w|po| |oc]] st];
      try (by apply (replacement_rejected_ok self key e rest Hok Hd), with_phase_same).
    by eapply accept_retiring_outcome_ok.
  - destruct r as [p sh [| | | | |purpose [w|po| |oc]] st];
      by apply (replacement_rejected_ok self key e rest Hok Hd), with_phase_same.
  - destruct r as [p sh [| | | | |purpose [w|po| |oc]] st]; by apply (unavailable_ok self key e rest Hok Hd).
Qed.


(** ** Commands *)

Definition submitted_command (c : DynamicCommand) : list submission :=
  match c with Directory_Start _ s _ | Directory_Replace _ s _ => [s] | _ => [] end.

(** What a command that admits no service leaves. *)
Definition commanded (self : Self) (extra : list submission) (res : Self * acted) : Prop :=
  exists a, res.2 = Ok a /\ counted self extra (sends a) res.1 /\ creates a = Creations_empty /\ become_ a = Continue.

Lemma commanded_same self extra r : directory_ok self -> closed r = [] -> handed r ≡ₚ extra ->
  commanded self extra (self, sending r).
Proof. intros Hok Hc Hh. eexists. split_and!; [done| |done..]. apply counted_same; auto using aligned_refl. Qed.

Lemma taken_advance self rest n : operations self.2 = Some n ->
  aligned self (advance_operations (set_services self rest) n) /\
  services (advance_operations (set_services self rest) n).2 = rest /\
  below (operations (advance_operations (set_services self rest) n).2) n.
Proof.
  intros Ho. assert (Ho' : operations (set_services self rest).2 = Some n) by by destruct self as [k []].
  apply aligned_advance in Ho' as (Ha & Hs & Hb). rewrite Hs, services_set. split_and!; auto.
  eapply aligned_trans; [apply aligned_services|done].
Qed.

Lemma taken_operations self rest : operations (set_services self rest).2 = operations self.2.
Proof. by destruct self as [k []]. Qed.

Section Commands.
  Context (self : Self) (key : Key) (e : DynamicEntry) (rest : Services).
  Context (Hok : directory_ok self) (Hd : detached (services self.2) key e rest).

Lemma commanded_back e' extra r : e' = e -> closed r = [] -> handed r ≡ₚ extra ->
  commanded self extra (put (set_services self rest) key e', sending r).
Proof.
  intros -> Hc Hh. rewrite <- (with_phase_same e _ eq_refl), (directory_put_back self key e rest Hok Hd). by apply commanded_same.
Qed.

(** The entry goes on under an operation, and keeps its startup. *)
Lemma commanded_phase self0 operation p extra r :
  aligned self self0 -> services self0.2 = rest -> below (operations self0.2) operation ->
  occupies p = occupies (entry_phase e) -> waiting p <= waiting (entry_phase e) ->
  (leaving (entry_phase e) = true -> leaving p = true) -> closed r = [] ->
  handed r ++ held_phase p ≡ₚ held_phase (entry_phase e) ++ extra ->
  commanded self extra (put self0 key (mkEntry (entry_generation e) operation (entry_creation e) p), sending r).
Proof.
  intros Ha Hs Hb Ho Hw Hl Hc Hh. eexists. split_and!; [done| |done..].
  destruct (placed self key rest self0 (mkEntry (entry_generation e) operation (entry_creation e) p) Ha Hs) as [Hp1 Hp2].
  eapply (quiet_turn self key e rest Hok Hd _ (Some _)); [done|done| |done|done|done|done].
  apply (goes_on_as self key e rest Hok Hd); [done| |done].
  by apply (aligned_operations _ _ (aligned_put _ _ _)).
Qed.

Lemma cancel_phase_spec self0 authority self1 p ops receipt :
  alloc self0 (cancel_phase e authority) = (self1, (p, ops, receipt)) ->
  occupies p = occupies (entry_phase e) /\ waiting p <= waiting (entry_phase e) /\
  (leaving (entry_phase e) = true -> leaving p = true) /\ omap operation_submission ops = [] /\
  option_list (receipt_submission receipt) ++ held_phase p = held_phase (entry_phase e).
Proof.
  unfold alloc, cancel_phase. destruct (entry_phase e) as [| | | | | | | |? ? []| | | | |r] eqn:Hp;
    [..|destruct r as [? ? [| | | | |[] ?] ?]]; cbn; intros [= <- <- <- <-]; cbn; split_and!; try done; lia.
Qed.

Lemma begin_stop_ok operation n proxy restorable messages reply_to :
  operations self.2 = Some n -> operation = n ->
  occupies (entry_phase e) = 0 -> omap ended (messages_of messages) = [] ->
  omap message_submission (messages_of messages) = held_phase (entry_phase e) ->
  commanded self [] (begin_stop (advance_operations (set_services self rest) n) key e operation proxy restorable messages reply_to).
Proof.
  intros Hn -> Ho Hm Hs. destruct (taken_advance self rest n Hn) as (Ha & Hsv & Hb). unfold begin_stop.
  destruct (alloc _ _) as [self1 [w op]] eqn:Hal. pose proof (operation_shutdown_spec _ _ _ _ _ Hal) as Hop.
  apply aligned_alloc in Hal as [Ha1 Hs1]. apply commanded_phase; [by eapply aligned_trans|by rewrite Hs1| |by rewrite Ho|cbn; lia|done|..].
  - by apply (aligned_operations _ _ Ha1).
  - by observed.
  - observed. rewrite Hop, Hs. cbn. by rewrite app_nil_r.
Qed.

Lemma stop_transferred_ok operation n proxy input reply_to :
  operations self.2 = Some n -> operation = n -> occupies (entry_phase e) = 1 -> held_phase (entry_phase e) = [] ->
  match input with Input_AwaitingSettlement _ | Input_AwaitingOutcome _ => True | _ => False end ->
  commanded self [] (stop_transferred (advance_operations (set_services self rest) n) key e operation proxy input reply_to).
Proof.
  intros Hn -> Ho Hh Hi. destruct (taken_advance self rest n Hn) as (Ha & Hsv & Hb). unfold stop_transferred.
  destruct (alloc _ _) as [self1 [r op]] eqn:Hal. destruct (retirement_begin_spec _ _ _ _ _ _ _ Hal) as (Hop & Hwork & _).
  apply aligned_alloc in Hal as [Ha1 Hs1]. apply commanded_phase; [by eapply aligned_trans|by rewrite Hs1| | |cbn; lia|done|..].
  - by apply (aligned_operations _ _ Ha1).
  - rewrite retiring_occupies, Hwork, Ho. by destruct input.
  - by observed.
  - observed. by rewrite Hop, Hh.
Qed.

Lemma cancel_taken_ok authority reply_to : authority_operation authority = entry_operation e ->
  commanded self []
    (let '(self, (phase, shutdown, receipt)) := alloc (set_services self rest) (cancel_phase e authority) in
     (put self key (with_phase e phase), sending (cancelled_reply reply_to receipt (with_operations shutdown no_requests)))).
Proof.
  intros Ho. destruct (alloc _ _) as [self1 [[p ops] receipt]] eqn:Hal.
  destruct (cancel_phase_spec _ _ _ _ _ _ Hal) as (H1 & H2 & H3 & H4 & H5).
  destruct (taken_alloc _ _ _ _ _ Hal) as [Ha1 Hs1]. apply commanded_phase; auto.
  - apply (aligned_operations _ _ Ha1). by apply (entry_issued self key e rest Hok Hd).
  - by observed.
  - observed. rewrite H4, <- H5. destruct (receipt_submission receipt); cbn; by rewrite ?app_nil_r.
Qed.

End Commands.

Lemma cancel_ok self authority reply_to : directory_ok self -> commanded self [] (cancel self authority reply_to).
Proof.
  intros Hok. unfold cancel. destruct (bt_remove _ _) as [[e rest]|] eqn:Hr; [|apply commanded_same; [done|by observed..]].
  apply bt_remove_detached in Hr; [|by apply Hok]. case_bool_decide as Ho; cbn [negb].
  - by apply (cancel_taken_ok self _ e rest Hok Hr).
  - apply (commanded_back self _ e rest Hok Hr); [done|by observed..].
Qed.

Lemma stop_ok self key reply_to : directory_ok self -> commanded self [] (stop self key reply_to).
Proof.
  intros Hok. unfold stop. destruct (bt_remove _ _) as [[e rest]|] eqn:Hr; [|apply commanded_same; [done|by observed..]].
  apply bt_remove_detached in Hr; [|by apply Hok]. rewrite !taken_operations.
  destruct (operations self.2) as [n|] eqn:Hn;
    destruct (entry_phase e) as [s| | |proxy s|proxy w|proxy po| | |proxy service latest| | | | |] eqn:Hp;
    try (apply (commanded_back self _ e rest Hok Hr); [by apply with_phase_same|by observed..]).
  - destruct (taken_advance self rest n Hn) as (Ha & Hsv & Hb).
    apply (commanded_phase self key e rest Hok Hr); rewrite ?Hp; auto; try done; by observed.
  - apply (begin_stop_ok self key e rest Hok Hr); rewrite ?Hp, ?messages_publish; done.
  - by apply (stop_transferred_ok self key e rest Hok Hr); rewrite ?Hp.
  - by apply (stop_transferred_ok self key e rest Hok Hr); rewrite ?Hp.
  - apply (begin_stop_ok self key e rest Hok Hr); rewrite ?Hp, ?messages_empty; done.
  - unfold stop_operation_exhausted. destruct (taken_aligned self rest) as [Ha0 Hs0].
    destruct (entry_issued self key e rest Hok Hr) as [Hi _].
    apply (commanded_phase self key e rest Hok Hr); rewrite ?Hp; auto; try done; [|by observed..].
    by apply (aligned_operations _ _ Ha0).
Qed.

Lemma replace_ok self key s reply_to : directory_ok self -> closing self = false -> commanded self [s] (replace self key s reply_to).
Proof.
  intros Hok Hcl. unfold replace. destruct (bt_remove _ _) as [[e rest]|] eqn:Hr; [|apply commanded_same; [done|by observed..]].
  apply bt_remove_detached in Hr; [|by apply Hok]. rewrite !taken_operations.
  destruct (entry_phase e) as [| | | | | | | |proxy service latest| | | | |] eqn:Hp;
    try (apply (commanded_back self _ e rest Hok Hr); [by apply with_phase_same|by observed..]).
  destruct (operations self.2) as [n|] eqn:Hn;
    [|apply (commanded_back self _ e rest Hok Hr); [by apply with_phase_same|by observed..]].
  destruct (taken_advance self rest n Hn) as (Ha & Hsv & Hb). destruct (authorize_waiting _) as [self' ops] eqn:Haut.
  eexists. split_and!; [done| |done..].
  destruct (placed self key rest _ (mkEntry (entry_generation e) n (entry_creation e) (Entry_ReplacementQueued proxy service s)) Ha Hsv) as [Hp1 Hp2].
  eapply (loud_turn self key e rest Hok Hr _ (Some _) [s] []); [done|done| | |cbn; lia|exact Haut| | |].
  - split_and!; [done..|by apply (aligned_operations _ _ (aligned_put _ _ _))|]. by rewrite (aligned_closing _ _ Hp1), Hcl.
  - rewrite Hp. cbn. lia.
  - by observed.
  - by observed.
  - by rewrite Hp.
Qed.

(** ** A start *)

(** The service that a start admits: its proxy is created under the next
    generation. *)
Definition admissions (self : Self) (input : DynamicSupervisorEvent) (a : DirectoryActions) : list (Key * N) :=
  match input, items (creates a), generations self.2 with
  | Event_Command (mkUser _ (Directory_Start key _ _)), _ :: _, Some generation => [(key, generation)]
  | _, _, _ => []
  end.

Definition submitted (input : DynamicSupervisorEvent) : list submission :=
  match input with Event_Command (mkUser _ c) => submitted_command c | _ => [] end.

(** What a step leaves. *)
Record stepped (self : Self) (input : DynamicSupervisorEvent) (a : DirectoryActions) (self' : Self) : Prop := {
  stepped_ok : directory_ok self';
  stepped_services : closed (sends a) ++ present (services self'.2) ≡ₚ admissions self input a ++ present (services self.2);
  stepped_held : handed (sends a) ++ held (services self'.2) ≡ₚ submitted input ++ held (services self.2);
  stepped_generations : match admissions self input a with
    | [] => generations self'.2 = generations self.2
    | l => exists key g, l = [(key, g)] /\ generations self.2 = Some g /\ generations self'.2 = checked_add u64_max g 1
    end;
  stepped_closing : closing self = true -> closing self' = true;
  stepped_births : creates a = Creations_empty \/ closing self = false;
  stepped_limits : entries self'.2 = entries self.2 /\ startup_limit self'.2 = startup_limit self.2
}.

Lemma counted_stepped self input a self' : counted self (submitted input) (sends a) self' -> creates a = Creations_empty ->
  stepped self input a self'.
Proof.
  intros [Ho Ha Hp Hh] Hc. assert (Hn : admissions self input a = []).
  { unfold admissions. rewrite Hc. cbn. by repeat case_match. }
  split; auto; rewrite ?Hn; [done| |by rewrite (aligned_closing _ _ Ha)|]; by destruct Ha.
Qed.

(** A directory with more counters drawn. *)
Lemma table_drawn self self' m : table_ok self m ->
  (forall x, below (generations self.2) x -> below (generations self'.2) x) ->
  (forall x, below (operations self.2) x -> below (operations self'.2) x) ->
  (forall c, creation_before (proxy_creations self.2) c -> creation_before (proxy_creations self'.2) c) ->
  (closing self' = true -> Forall (fun kv => leaving (entry_phase kv.2) = true) m) -> table_ok self' m.
Proof. intros [Ts Tg Tc Ti Tl] H1 H2 H3 H4. split; auto. eapply Forall_impl; [exact Ti|]. naive_solver. Qed.

(** A new entry, whose generation and creation were just drawn. *)
Lemma table_added self self' m key e : table_ok self m -> table_ok self' m -> key ∉ (fst <$> m) ->
  generations self.2 = Some (entry_generation e) -> next (proxy_creations self.2) = Some (creation_number (entry_creation e)) ->
  below (generations self'.2) (entry_generation e) -> below (operations self'.2) (entry_operation e) ->
  creation_before (proxy_creations self'.2) (entry_creation e) -> closing self' = false ->
  table_ok self' (bt_insert key e m).
Proof.
  intros [Ts Tg Tc Ti Tl] [_ _ _ Ti' _] Hf Hg Hc H1 H2 H3 H4.
  split; [by apply bt_insert_sorted|rewrite bt_insert_Permutation by done; cbn; unfold compose..|by rewrite H4].
  - constructor; [|done]. cbn. intros ([k e0] & He & Hin)%list_elem_of_fmap. rewrite Forall_forall in Ti.
    specialize (Ti _ Hin) as (Hb & _). cbn in *. rewrite Hg, He in Hb. cbn in Hb. lia.
  - constructor; [|done]. cbn. intros ([k e0] & He & Hin)%list_elem_of_fmap. rewrite Forall_forall in Ti.
    specialize (Ti _ Hin) as (_ & _ & Hb). cbn in *. unfold creation_before in Hb. rewrite Hc in Hb. cbn in Hb. rewrite He in Hb. lia.
  - by constructor.
Qed.

Lemma added_sums (f : DynamicEntryPhase -> nat) (m : Services) key e : key ∉ (fst <$> m) ->
  sum_list_with (fun kv => f (entry_phase kv.2)) (bt_insert key e m) =
    f (entry_phase e) + sum_list_with (fun kv => f (entry_phase kv.2)) m.
Proof. intros Hf. by rewrite bt_insert_Permutation. Qed.

Lemma start_ok self from key s reply_to : directory_ok self -> closing self = false ->
  exists a, (start self key s reply_to).2 = Ok a /\ become_ a = Continue /\
    stepped self (Event_Command (mkUser from (Directory_Start key s reply_to))) a (start self key s reply_to).1.
Proof.
  intros Hok Hcl. assert (Hrej : forall reason self', aligned self self' -> services self'.2 = services self.2 ->
    exists a, sending (started_reply reply_to (Err (mkChangeRejection key s reason)) no_requests) = Ok a /\ become_ a = Continue /\
    stepped self (Event_Command (mkUser from (Directory_Start key s reply_to))) a self').
  { intros reason self' Ha Hs. eexists. split_and!; [done..|]. apply counted_stepped; [|done]. apply counted_same; [done..|by observed|by observed]. }
  unfold start, start_admission. destruct (bt_contains key _) eqn:Hkey; [apply Hrej; auto using aligned_refl|].
  apply bt_contains_false in Hkey.
  destruct (Nat.leb_spec (entries_maximum (entries self.2)) (length (services self.2))) as [Hc|Hc]; [apply Hrej; auto using aligned_refl|].
  destruct (generations self.2) as [g|] eqn:Hg, (operations self.2) as [o|] eqn:Ho; try (apply Hrej; auto using aligned_refl).
  unfold issue. destruct (next (proxy_creations self.2)) as [c|] eqn:Hn; cbn [fst snd].
  2: { apply Hrej; destruct self as [k []]; by split. }
  eexists. split_and!; [done..|]. destruct Hok as [T C L F].
  destruct self as [k d]. cbn in *. destruct d as [sv en st gen ops cr ue av lc dg]. cbn in *. subst gen ops.
  split; cbn.
  - split; cbn.
    + eapply table_added; [exact T| |done|done|by cbn|apply below_next|apply below_next|apply below_next|done].
      eapply table_drawn; [exact T|..]; cbn; try (intros x; apply below_checked_add).
      * intros [x]. unfold creation_before. cbn. rewrite Hn. apply below_checked_add.
      * by apply (table_leaving _ _ T).
    + rewrite bt_insert_Permutation by done. cbn. lia.
    + unfold occupied in *. by rewrite (added_sums occupies).
    + unfold occupied, queued in *. by rewrite (added_sums occupies), (added_sums waiting).
  - unfold closed. cbn. rewrite messages_empty. unfold present. cbn. by rewrite bt_insert_Permutation.
  - observed. unfold held. rewrite bt_insert_Permutation by done. by destruct reply_to.
  - eexists _, _. split_and!; done.
  - done.
  - by right.
  - done.
Qed.

Lemma command_ok self from c : directory_ok self ->
  exists a, (command self c).2 = Ok a /\ become_ a = Continue /\ stepped self (Event_Command (mkUser from c)) a (command self c).1.
Proof.
  intros Hok. assert (Hcmd : forall res, commanded self (submitted_command c) res ->
    exists a, res.2 = Ok a /\ become_ a = Continue /\ stepped self (Event_Command (mkUser from c)) a res.1).
  { intros res (a & -> & Hc & Hcr & Hb). eexists. split_and!; [done..|]. by apply counted_stepped. }
  unfold command. destruct (availability self.2) as [drain|deadline] eqn:Hav.
  - assert (Hcl : closing self = false) by (unfold closing; by rewrite Hav).
    destruct c; [by apply start_ok|apply Hcmd..]; cbn [submitted_command];
      auto using replace_ok, stop_ok, cancel_ok. apply commanded_same; [done|by observed..].
  - apply Hcmd. destruct c; apply commanded_same; try done; by observed.
Qed.


(** ** The shutdown of the directory *)

(** An entry and what a shutdown makes of it. *)
Record shut (e e' : DynamicEntry) : Prop := {
  shut_generation : entry_generation e' = entry_generation e;
  shut_operation : entry_operation e' = entry_operation e;
  shut_creation : entry_creation e' = entry_creation e;
  shut_leaving : leaving (entry_phase e') = true;
  shut_serving : match entry_phase e' with Entry_Available _ _ _ => False | _ => True end;
  shut_occupies : occupies (entry_phase e') = occupies (entry_phase e);
  shut_waiting : waiting (entry_phase e') = 0;
  shut_held : held_phase (entry_phase e') = []
}.

Definition shut_pair (kv kv' : Key * DynamicEntry) : Prop := kv'.1 = kv.1 /\ shut kv.2 kv'.2.

(** The entry has a proxy that nobody asked to stop. *)
Definition unasked (p : DynamicEntryPhase) : bool :=
  match p with
  | Entry_WaitingForStartup _ _ | Entry_WaitingForProxyInput _ _ | Entry_WaitingForProxyOutcome _ _
  | Entry_Available _ _ _ | Entry_ReplacementQueued _ _ _ | Entry_ReplacementAwaitingReceipt _ _ _
  | Entry_ReplacementAwaitingOutcome _ _ _ => true
  | _ => false
  end.

(** What the shutdown does to an entry, and what it sends to its proxy: one
    shutdown request under the operation that the retirement then waits for, or
    nothing when there is no proxy yet or it was asked before. *)
Definition asked (e e' : DynamicEntry) (ops : list ProxyOperation) : Prop :=
  if unasked (entry_phase e) then
    exists proxy w work, entry_phase e' = Entry_Retiring (mkRetirement proxy (ProxyShutdown_AwaitingSettlement w) work None) /\
      ops = [mkOperation (entry_creation e) control_shutdown (mkOperationId (witness_token w))]
  else ops = [] /\
    entry_phase e' =
      match entry_phase e with
      | Entry_CreatingProxy _ => Entry_ShuttingDownProxyCreation
      | Entry_StoppingProxyCreation _ _ => Entry_DrainingProxyCreationStop
      | phase => phase
      end.

Lemma phase_shutdown_spec self e self1 p shutdown interrupted :
  alloc self (phase_shutdown (entry_phase e) (entry_creation e) (entry_operation e)) = (self1, (p, shutdown, interrupted)) ->
  shut e (with_phase e p) /\ asked e (with_phase e p) (option_list shutdown) /\
  omap operation_submission (option_list shutdown) = [] /\
  option_list (snd <$> interrupted) = held_phase (entry_phase e).
Proof.
  unfold alloc, asked. destruct (entry_phase e) as [| | | | | | | | | | | | |r] eqn:Hp; cbn; intros [= <- <- <- <-];
    (split_and!; [|by eauto|done..]); split; try done; cbn; by rewrite Hp.
Qed.

Lemma shutdown_entry_spec self key e requests self' requests' : shutdown_entry self key e requests = (self', requests') ->
  exists e' ops, shut e e' /\ asked e e' ops /\ proxy_operations requests' = proxy_operations requests ++ ops /\
    aligned self self' /\ services self'.2 = bt_insert key e' (services self.2) /\
    closed requests' = closed requests /\ handed requests' ≡ₚ handed requests ++ held_phase (entry_phase e).
Proof.
  unfold shutdown_entry. destruct (alloc _ _) as [self1 [[p shutdown] interrupted]] eqn:Ha.
  destruct (phase_shutdown_spec _ _ _ _ _ _ Ha) as (Hsh & Hask & Hop & Hin). apply aligned_alloc in Ha as [Ha Hs].
  intros Heq. exists (with_phase e p), (option_list shutdown). split; [done|]. split; [done|].
  split. { injection Heq as _ <-. destruct shutdown, interrupted as [[[o i] s]|]; cbn; by rewrite ?app_nil_r. }
  assert (Hself : self' = put self1 key (with_phase e p)) by (by injection Heq as <- _). subst self'.
  split; [eapply aligned_trans; [exact Ha|apply aligned_put]|]. split; [by rewrite services_put, Hs|].
  injection Heq as <-. unfold send_item.
  destruct shutdown as [op|]; cbn in Hop; [destruct (operation_submission op) eqn:Hso; [done|]|];
    destruct interrupted as [[[o i] s]|]; cbn in Hin; rewrite <- Hin; unfold closed, handed;
    cbn [with_operations with_lifecycle proxy_operations start_replies replace_replies cancel_replies lifecycle];
    rewrite ?messages_append, ?messages_publish, ?omap_app; cbn; rewrite ?Hso, ?app_nil_r, <- ?app_assoc; done.
Qed.

Lemma filter_after key (d todo : Services) : Forall (fun kv => ltb kv.1 key = true) d ->
  Forall (fun kv => ltb key kv.1 = true) todo -> List.filter (fun kv => ltb key kv.1) (d ++ todo) = todo.
Proof.
  intros Hd Ht. rewrite List.filter_app. assert (E : List.filter (fun kv => ltb key kv.1) d = []).
  { induction Hd as [|kv d Hk Hd IH]; [done|]. cbn. destruct (ltb key kv.1) eqn:E; [|done].
    pose proof (ltb_trans _ _ _ Hk E) as H. by rewrite ltb_irrefl in H. }
  rewrite E. cbn. clear E. induction Ht as [|kv t Hk Ht IH]; [done|]. cbn. by rewrite Hk, IH.
Qed.

Lemma sorted_around (d todo : Services) key e : sorted (d ++ (key, e) :: todo) ->
  Forall (fun kv => ltb kv.1 key = true) d /\ Forall (fun kv => ltb key kv.1 = true) todo /\ sorted (d ++ todo).
Proof.
  induction d as [|[k x] d IH]; cbn; [intros [Hs Hf]%sorted_cons; auto|].
  intros [Hs Hf]%sorted_cons. destruct (IH Hs) as (H1 & H2 & H3). apply Forall_app in Hf as [Hf1 Hf2].
  inversion Hf2; subst. split_and!; auto. apply sorted_cons. split; [done|]. by apply Forall_app.
Qed.

(** The loop visits every entry once, in key order. *)
Lemma shutdown_loop_spec todo : forall self d requests self' requests',
  services self.2 = d ++ todo -> sorted (d ++ todo) ->
  shutdown_loop (length todo) self (fst <$> head todo) requests = (self', requests') ->
  exists todo' asks, Forall2 shut_pair todo todo' /\ Forall3 asked todo.*2 todo'.*2 asks /\
    proxy_operations requests' = proxy_operations requests ++ concat asks /\
    aligned self self' /\ services self'.2 = d ++ todo' /\
    closed requests' = closed requests /\ handed requests' ≡ₚ handed requests ++ held todo.
Proof.
  induction todo as [|[key e] todo IH]; intros self d requests self' requests' Hsv Hs; cbn [length shutdown_loop].
  { intros [= <- <-]. exists [], []. split_and!; [done|constructor|by rewrite app_nil_r|apply aligned_refl|done|done|by rewrite app_nil_r]. }
  cbn [head fmap option_fmap option_map fst]. destruct (sorted_around _ _ _ _ Hs) as (Hb & Ha & Hsd).
  assert (Hdet : forall x, sorted (d ++ (key, x) :: todo) -> detached (d ++ (key, x) :: todo) key x (d ++ todo)).
  { intros x Hx. apply detached_intro; [done..|]. by rewrite Permutation_middle. }
  assert (Hx : forall x, sorted (d ++ (key, x) :: todo)).
  { intros x. clear -Hs. induction d as [|kv d IH]; cbn in *.
    - apply sorted_cons in Hs as [H1 H2]. by apply sorted_cons.
    - destruct kv as [k v]. apply sorted_cons in Hs as [H1 H2]. apply sorted_cons. split; [auto|].
      apply Forall_app in H2 as [H2 H3]. apply Forall_app. split; [done|]. inversion H3; subst. by constructor. }
  assert (Hrem : bt_remove key (services self.2) = Some (e, d ++ todo)).
  { unfold bt_remove. assert (Hg : bt_get key (services self.2) = Some e).
    { rewrite Hsv. apply bt_get_Some; [done|]. apply elem_of_app. right. left. }
    rewrite Hg. do 2 f_equal. apply sorted_unique; [apply bt_delete_sorted; by rewrite Hsv|done|].
    apply (Permutation_cons_inv (a := (key, e))). rewrite (bt_delete_Permutation _ _ _ Hg), Hsv. by rewrite Permutation_middle. }
  rewrite Hrem. rewrite services_set. unfold next_service_key at 1. rewrite filter_after by done.
  destruct (shutdown_entry _ _ _ _) as [self1 requests1] eqn:He.
  apply shutdown_entry_spec in He as (e' & ops & Hsh & Hask & Hop & Ha1 & Hs1 & Hc1 & Hh1). rewrite services_set in Hs1.
  rewrite (detached_back _ _ _ _ (Hdet e' (Hx e'))) in Hs1. intros Hl.
  destruct (IH self1 (d ++ [(key, e')]) requests1 self' requests') as (todo' & asks & H2 & Hasks & Hops & H3 & H4 & H5 & H6); [by rewrite <- app_assoc|rewrite <- app_assoc; apply Hx|done|].
  exists ((key, e') :: todo'), (ops :: asks). split_and!.
  - constructor; [by split|done].
  - by constructor.
  - rewrite Hops, Hop. cbn. by rewrite app_assoc.
  - eapply aligned_trans; [|exact H3]. eapply aligned_trans; [apply aligned_services|exact Ha1].
  - by rewrite H4, <- app_assoc.
  - by rewrite H5, Hc1.
  - rewrite H6, Hh1. unfold held. by rewrite bind_cons, <- app_assoc.
Qed.


Lemma shut_lists m m' : Forall2 shut_pair m m' ->
  length m' = length m /\ fst <$> m' = fst <$> m /\ entry_generation ∘ snd <$> m' = entry_generation ∘ snd <$> m /\
  entry_creation ∘ snd <$> m' = entry_creation ∘ snd <$> m /\ present m' = present m /\ occupied m' = occupied m /\
  queued m' = 0 /\ held m' = [] /\ Forall (fun kv => leaving (entry_phase kv.2) = true) m'.
Proof.
  induction 1 as [|[k e] [k' e'] m m' [Hk [Hg Ho Hc Hl Hsv Hocc Hw Hh]] H IH]; cbn in *; [done|]. subst k'.
  destruct IH as (I1 & I2 & I3 & I4 & I5 & I6 & I7 & I8 & I9). unfold present, occupied, queued, held in *.
  split_and!; cbn; unfold compose; cbn; rewrite ?Hg, ?Hc, ?Hocc, ?Hw, ?Hh; cbn; try congruence; [by f_equal..|by constructor].
Qed.

Lemma sorted_keys (m m' : Services) : fst <$> m' = fst <$> m -> sorted m -> sorted m'.
Proof.
  revert m'. induction m as [|[k e] m IH]; intros [|[k' e'] m']; cbn; try done; intros [= -> Hf] [Hs Hk]%sorted_cons.
  apply sorted_cons. split; [by apply IH|]. rewrite Forall_forall. intros [k1 e1] Hin. cbn.
  assert (Hin' : k1 ∈ fst <$> m). { rewrite <- Hf. apply list_elem_of_fmap. by exists (k1, e1). }
  apply list_elem_of_fmap in Hin' as ([k2 e2] & -> & Hin'). rewrite Forall_forall in Hk. by apply (Hk _ Hin').
Qed.

Lemma shut_issued (P : N -> N -> CreationId -> Prop) m m' : Forall2 shut_pair m m' ->
  Forall (fun kv : Key * DynamicEntry => P (entry_generation kv.2) (entry_operation kv.2) (entry_creation kv.2)) m ->
  Forall (fun kv => P (entry_generation kv.2) (entry_operation kv.2) (entry_creation kv.2)) m'.
Proof.
  induction 1 as [|[k e] [k' e'] m m' [Hk [Hg Ho Hc Hl Hsv Hocc Hw Hh]] H IH]; [done|]. intros Hf. inversion Hf; subst.
  constructor; [|by apply IH]. cbn in *. by rewrite Hg, Ho, Hc.
Qed.

(** The directory that begins to shut down. *)
Lemma shut_ok self self' deadline : directory_ok self ->
  aligned (set_availability self (ShuttingDown deadline)) self' -> Forall2 shut_pair (services self.2) (services self'.2) ->
  directory_ok self'.
Proof.
  intros [[Ts Tg Tc Ti Tl] C L F] Ha H2. destruct (shut_lists _ _ H2) as (I1 & I2 & I3 & I4 & I5 & I6 & I7 & I8 & I9).
  pose proof (aligned_closing _ _ Ha) as Hcl. destruct self as [k []]. destruct Ha as [Ae As Ag Ao Ac _ _ _ _]. cbn in *.
  split; unfold limit in *; cbn in *; rewrite ?I1, ?I6, ?I7, ?Ae, ?As; auto.
  split; rewrite ?I3, ?I4; auto.
  - by eapply sorted_keys.
  - rewrite Ag, Ac. eapply (shut_issued (fun g o c => below generations g /\ below (Directory.operations self'.2) o /\
      creation_before proxy_creations c)); [exact H2|]. eapply Forall_impl; [exact Ti|]. naive_solver.
Qed.

(** The first shutdown request reaches every entry. *)
Lemma begin_shutdown_spec self drain : directory_ok self -> availability self.2 = Accepting drain ->
  exists requests self', begin_shutdown self = (self', sending requests) /\
    aligned (set_availability self (ShuttingDown (deadline_begin drain).1)) self' /\
    Forall2 shut_pair (services self.2) (services self'.2) /\
    (exists asks, Forall3 asked (services self.2).*2 (services self'.2).*2 asks /\ proxy_operations requests = concat asks) /\
    closed requests = [] /\ handed requests ≡ₚ held (services self.2).
Proof.
  intros Hok Hav. unfold begin_shutdown. rewrite Hav. destruct (deadline_begin drain) as [deadline schedule]. cbn [fst].
  assert (Hsv : services (set_availability self (ShuttingDown deadline)).2 = services self.2) by by destruct self as [k []].
  rewrite !Hsv. destruct (shutdown_loop _ _ _ _) as [self' requests'] eqn:Hl.
  apply (shutdown_loop_spec (services self.2) _ []) in Hl as (m' & asks & H2 & Hasks & Hops & Ha & Hs & Hc & Hh); [|done|apply Hok].
  cbn [app] in Hs. subst m'. exists requests', self'. split_and!; [done..| | |].
  - exists asks. split; [done|]. by rewrite Hops; destruct schedule.
  - rewrite Hc. destruct schedule; by observed.
  - rewrite Hh. destruct schedule; by observed.
Qed.

Lemma directory_begin_shutdown_ok self s : directory_ok self ->
  exists a, (begin_shutdown self).2 = Ok a /\ become_ a = Continue /\ stepped self (Event_Shutdown s) a (begin_shutdown self).1.
Proof.
  intros Hok. destruct (availability self.2) as [drain|deadline] eqn:Hav.
  2: { unfold begin_shutdown. rewrite Hav. eexists. split_and!; [done..|]. apply counted_stepped; [|done].
       apply counted_same; auto using aligned_refl; by observed. }
  destruct (begin_shutdown_spec self drain Hok Hav) as (requests & self' & -> & Ha & H2 & _ & Hc & Hh).
  pose proof (shut_ok _ _ _ Hok Ha H2) as Hok'. destruct (shut_lists _ _ H2) as (_ & _ & _ & _ & I5 & _ & _ & I8 & _).
  eexists. split_and!; [done..|]. split; cbn [sends send sending fst]; auto.
  - by rewrite Hc, I5.
  - by rewrite Hh, I8, app_nil_r.
  - cbn. rewrite (aligned_generations _ _ Ha). by destruct self as [k []].
  - unfold closing. by rewrite Hav.
  - destruct Ha as [-> -> _ _ _ _ _ _ _]. by destruct self as [k []].
Qed.

(** ** Steps *)

Definition step_ok (self : Self) (input : DynamicSupervisorEvent) (res : Self * acted) : Prop :=
  match res with
  | (self', Ok a) => stepped self input a self'
  | (self', Err returned) => returned = input /\ self' = self
  end.

(** Only the shutdown step stops the actor. *)
Definition goes (res : Self * acted) : Prop := match res.2 with Ok a => become_ a = Continue | Err _ => True end.

Lemma outcome_step self input res : outcome_ok self [] input res -> submitted input = [] ->
  step_ok self input res /\ goes res.
Proof.
  destruct res as [self' [a|i]]; cbn; [|done]. intros (Hc & Hcr & Hb) Hs. split; [|done]. apply counted_stepped; [by rewrite Hs|done].
Qed.

Lemma on_deadline_ok {X} self (accept : ShutdownDeadline -> ShutdownDeadline * result () X) input event :
  directory_ok self -> (forall d d' i, accept d = (d', Err i) -> d' = d /\ i = input) -> submitted (event input) = [] ->
  (forall a, admissions self (event input) a = []) ->
  step_ok self (event input) (on_deadline self accept input event) /\ goes (on_deadline self accept input event).
Proof.
  intros Hok Herr Hsub Hadm. unfold on_deadline. destruct (availability self.2) as [drain|d] eqn:Hav; [done|].
  destruct (accept d) as [d' [u|i]] eqn:Ha.
  - cbn [step_ok]. split; [|done]. destruct Hok as [[Ts Tg Tc Ti Tl] C L F]. destruct self as [k []]. cbn in *. subst.
    split; cbn; rewrite ?Hadm, ?Hsub; try done; [by observed..|by left].
  - apply Herr in Ha as [-> ->]. split; [|done]. cbn. split; [done|]. destruct self as [k []]. cbn in *. by subst.
Qed.

Lemma directory_dispatch_ok self input : directory_ok self ->
  step_ok self input (dispatch self input) /\ goes (dispatch self input).
Proof.
  intros Hok. destruct input as [[from c]|proxies|i|report|report|stopped|s|r|t]; cbn [dispatch].
  - destruct (command_ok self from c Hok) as (a & Ha & Hb & Hs). destruct (command self c) as [self' r]. cbn in *. by subst.
  - by (apply outcome_step; [by apply directory_accept_creations_ok|]).
  - by (apply outcome_step; [by apply accept_proxy_input_ok|]).
  - by (apply outcome_step; [by apply accept_proxy_report_ok|]).
  - apply outcome_step; [|done]. apply untouched_ok; [done|by observed..].
  - by (apply outcome_step; [by apply accept_proxy_stop_ok|]).
  - destruct (directory_begin_shutdown_ok self s Hok) as (a & Ha & Hb & Hs). destruct (begin_shutdown self) as [self' r]. cbn in *. by subst.
  - apply on_deadline_ok; try done. intros d d' i. unfold accept_schedule, admit_result.
    destruct d; try (by intros [= <- <-]). destruct (accepts_result _ _); [|by intros [= <- <-]]. destruct r as [[| |? []|]|]; by intros [=].
  - apply on_deadline_ok; try done. intros d d' i. unfold accept_elapsed, admit_elapsed.
    destruct d; try (by intros [= <- <-]). destruct (same_key _ _ _); [done|by intros [= <- <-]].
Qed.

Lemma directory_transition_ok self input : directory_ok self -> step_ok self input (transition self input).
Proof.
  intros Hok. destruct (directory_dispatch_ok self input Hok) as [Hs _]. unfold transition.
  destruct (dispatch self input) as [self' [a|i]]; cbn in *; [|done]. by repeat case_match; destruct Hs.
Qed.

End DirectorySteps.
