(* ===== verification/DirectoryCorrect.v ===== *)
(** * Correctness of the dynamic supervisor

    Over any run of a directory: the custody of submissions, one end for every
    service, the startup limit, the answers to commands, and the drain of a
    directory that shuts down. *)

From stdpp Require Import base list list_numbers option numbers sorting.
From S2P Require Import Prelude Effects BTreeMap Timers Restart Termination Settlement Interpretation Creation.
From S2P Require Import Workers WorkerPreparation WorkerStartup ProxyWorker ProxyState StableProxy ProxyInvariant ProxyOperation PoolPolicy.
From S2P Require Import Directory DirectoryInvariant.

Section DirectoryDrain.
  Context `{DT : DirectoryTypes} `{!RouteLaws LifecycleRoute DynamicLifecycle LifecycleSends}.

Abbreviation submission := (WorkerSubmission Worker Plan).
Abbreviation acted := (result DirectoryActions DynamicSupervisorEvent).

(** ** The answers that a leaving entry still waits for *)

Definition shutdown_rank (s : ProxyShutdown) : nat :=
  match s with ProxyShutdown_AwaitingSettlement _ => 1 | _ => 0 end.

Definition work_rank (w : RetiringWork) : nat :=
  match w with
  | Work_Transferred _ (Input_AwaitingSettlement _) => 2
  | Work_Transferred _ (Input_AwaitingOutcome _) => 1
  | _ => 0
  end.

Definition unstopped (s : option (ChildStopped Addr)) : nat := match s with None => 1 | Some _ => 0 end.

Definition phase_rank (p : DynamicEntryPhase) : nat :=
  match p with
  | Entry_Retiring r =>
      1 + shutdown_rank (retirement_shutdown r) + work_rank (retirement_work r) + unstopped (retirement_stopped r)
  | Entry_Available _ (Service_Empty _) _ => 1
  | Entry_Available _ (Service_Ready _ _) _ => 6
  | Entry_ShuttingDownProxyCreation | Entry_CancellingProxyCreation => 6
  | Entry_Stopping _ _ shutdown stopped => 7 + shutdown_rank shutdown + unstopped stopped
  | _ => 10
  end.

Definition drain_rank (m : Services) : nat := sum_list_with (fun kv => phase_rank (entry_phase kv.2)) m.

Definition serving (p : DynamicEntryPhase) : bool := match p with Entry_Available _ _ _ => true | _ => false end.

(** Nothing changed, or one entry is nearer to its end; an available entry that
    keeps its proxy stays available. *)
Definition drains (exit : UnexpectedExit) (m m' : Services) : Prop :=
  m' = m \/ exists key e rest oe, detached m key e rest /\ m' = settled oe key rest /\
    from_option (phase_rank ∘ entry_phase) 0 oe < phase_rank (entry_phase e) /\
    (exit = KeepEmpty -> serving (entry_phase e) = true -> from_option (serving ∘ entry_phase) false oe = true).

(** The entry is gone, or nearer to its end without serving again. *)
Definition advances (key : Key) (e : DynamicEntry) (rest m' : Services) : Prop :=
  exists oe, m' = settled oe key rest /\ from_option (phase_rank ∘ entry_phase) 0 oe < phase_rank (entry_phase e) /\
    from_option (serving ∘ entry_phase) false oe = false.

Lemma phase_rank_bounds p : 1 <= phase_rank p <= 10.
Proof.
  destruct p as [| | | | | | | |? [] ?| | | |? ? [] []|[? [] [| | | | |? []] []]]; cbn; lia.
Qed.

Lemma drains_rank exit m m' : drains exit m m' -> m' = m \/ drain_rank m' < drain_rank m.
Proof.
  intros [->|(key & e & rest & oe & Hd & -> & Hlt & _)]; [by left|right].
  destruct (settled_sums phase_rank _ _ _ _ oe Hd) as [H1 H2]. unfold drain_rank. lia.
Qed.

Lemma drain_rank_bound m : drain_rank m <= 10 * length m.
Proof.
  unfold drain_rank. induction m as [|[k e] m IH]; cbn [sum_list_with length]; [lia|].
  pose proof (phase_rank_bounds (entry_phase e)). cbn in *. lia.
Qed.

(** A directory that shuts down authorizes nothing. *)
Lemma authorize_idle self : Forall (fun kv => leaving (entry_phase kv.2) = true) (services self.2) ->
  authorize_waiting self = (self, []).
Proof.
  intros Hf. unfold authorize_waiting. assert (Hw : waiting_entries (services self.2) = []).
  { unfold waiting_entries. induction Hf as [|[k e] m Hl Hf IH]; [done|]. cbn in *. by destruct (entry_phase e). }
  rewrite Hw. by destruct (_ <=? _).
Qed.

Lemma advances_removed key e rest : advances key e rest rest.
Proof. exists None. split_and!; [done| |done]. pose proof (phase_rank_bounds (entry_phase e)). cbn. lia. Qed.

Lemma advances_phase key e rest self0 p : services self0.2 = rest -> phase_rank p < phase_rank (entry_phase e) -> serving p = false ->
  advances key e rest (services (put self0 key (with_phase e p)).2).
Proof. intros Hs Hlt Hp. rewrite services_put, Hs. by exists (Some (with_phase e p)). Qed.

Lemma advances_drains exit m key e rest m' : detached m key e rest -> serving (entry_phase e) = false ->
  advances key e rest m' -> drains exit m m'.
Proof. intros Hd Hs (oe & -> & Hlt & _). right. exists key, e, rest, oe. by rewrite Hs. Qed.

Section Entry.
  Context (exit : UnexpectedExit) (self : Self) (key : Key) (e : DynamicEntry) (rest : Services).
  Context (Hok : directory_ok self) (Hcl : closing self = true) (Hd : detached (services self.2) key e rest).

Lemma rest_leaving : leaving (entry_phase e) = true /\ Forall (fun kv => leaving (entry_phase kv.2) = true) rest.
Proof.
  pose proof (table_leaving _ _ (ok_table _ Hok) Hcl) as Hl. rewrite (detached_perm _ _ _ _ Hd) in Hl. by inversion Hl.
Qed.

Lemma drains_removed : serving (entry_phase e) = false -> drains exit (services self.2) rest.
Proof. intros Hna. eapply advances_drains; [done..|apply advances_removed]. Qed.

Lemma drains_phase self0 p : services self0.2 = rest -> phase_rank p < phase_rank (entry_phase e) ->
  (exit = KeepEmpty -> serving (entry_phase e) = true -> serving p = true) ->
  drains exit (services self.2) (services (put self0 key (with_phase e p)).2).
Proof. intros Hs Hlt Hk. rewrite services_put, Hs. right. by exists key, e, rest, (Some (with_phase e p)). Qed.

Lemma drains_back p : entry_phase e = p -> drains exit (services self.2) (services (put (set_services self rest) key (with_phase e p)).2).
Proof. intros Hp. rewrite (put_back_as self key e rest Hok Hd) by done. by left. Qed.

Lemma authorize_placed p self0 : services self0.2 = rest -> leaving p = true ->
  authorize_waiting (put self0 key (with_phase e p)) = (put self0 key (with_phase e p), []).
Proof.
  intros Hs Hl. apply authorize_idle. rewrite services_put, Hs, bt_insert_Permutation by apply (detached_fresh _ _ _ _ Hd).
  constructor; [done|apply rest_leaving].
Qed.

Lemma settle_retirement_advances r : phase_rank (Entry_Retiring r) < phase_rank (entry_phase e) ->
  let '(self1, _) := settle_retirement (set_services self rest) key e r in
  advances key e rest (services self1.2) /\ authorize_waiting self1 = (self1, []).
Proof.
  intros Hlt. unfold settle_retirement.
  pose proof (close_retirement_spec (set_services self rest) key (entry_generation e) (entry_operation e) r) as Hc.
  destruct (close_retirement _ _ _ _ _) as [l|r'].
  - split; [rewrite services_set; apply advances_removed|]. apply authorize_idle. rewrite services_set. apply rest_leaving.
  - subst r'. split; [apply advances_phase; [apply services_set|done|done]|]. apply authorize_placed; [apply services_set|done].
Qed.

Lemma settle_retirement_drains r : serving (entry_phase e) = false -> phase_rank (Entry_Retiring r) < phase_rank (entry_phase e) ->
  let '(self1, _) := settle_retirement (set_services self rest) key e r in
  drains exit (services self.2) (services self1.2) /\ authorize_waiting self1 = (self1, []).
Proof.
  intros Hna Hlt. pose proof (settle_retirement_advances r Hlt) as Ha. destruct (settle_retirement _ _ _ _) as [self1 l].
  destruct Ha as [Ha Hi]. split; [by eapply advances_drains|done].
Qed.

Lemma alloc_services {X} (m : Alloc X) self1 x : alloc (set_services self rest) m = (self1, x) -> services self1.2 = rest.
Proof. intros Ha. by destruct (taken_alloc _ _ _ _ _ Ha). Qed.

Lemma retirement_begin_rank self0 c proxy work self1 r op : alloc self0 (retirement_begin c proxy work) = (self1, (r, op)) ->
  phase_rank (Entry_Retiring r) = 3 + work_rank work.
Proof. unfold alloc. cbn. intros [= <- <- <-]. cbn. lia. Qed.

Lemma retire_created_drains proxy work : phase_rank (entry_phase e) = 6 -> work_rank work = 0 -> serving (entry_phase e) = false ->
  drains exit (services self.2) (services (retire_created (set_services self rest) key e proxy work).1.2).
Proof.
  intros Hr Hw Hna. unfold retire_created. destruct (alloc _ _) as [self1 [r op]] eqn:Ha. cbn [fst].
  apply drains_phase; [by eapply alloc_services| |by rewrite Hna]. rewrite (retirement_begin_rank _ _ _ _ _ _ _ Ha), Hr, Hw. lia.
Qed.

Lemma stop_created_drains proxy l : phase_rank (entry_phase e) = 10 -> serving (entry_phase e) = false ->
  drains exit (services self.2) (services (stop_created (set_services self rest) key e proxy l).1.2).
Proof.
  intros Hr Hna. unfold stop_created. destruct (alloc _ _) as [self1 [w op]] eqn:Ha. cbn [fst].
  apply drains_phase; [by eapply alloc_services| |by rewrite Hna]. rewrite Hr. cbn. lia.
Qed.

Lemma accept_creation_drains settlement :
  drains exit (services self.2) (services (accept_creation (set_services self rest) key e settlement).1.2).
Proof.
  destruct rest_leaving as [Hl _]. unfold accept_creation, creation_rejected.
  destruct (entry_phase e) eqn:Hp; try done; try (by apply drains_back);
    destruct (resolve settlement); cbn [fst]; rewrite ?services_set; try (by apply drains_removed; rewrite Hp).
  - apply retire_created_drains; [by rewrite Hp|done|by rewrite Hp].
  - apply stop_created_drains; by rewrite Hp.
  - apply retire_created_drains; [by rewrite Hp|done|by rewrite Hp].
Qed.

Lemma accept_stopping_input_drains proxy restorable witness stopped input :
  entry_phase e = Entry_Stopping proxy restorable (ProxyShutdown_AwaitingSettlement witness) stopped ->
  drains exit (services self.2)
    (services (accept_stopping_input (set_services self rest) key e proxy restorable witness stopped input).1.2).
Proof.
  intros Hp. unfold accept_stopping_input. pose proof (witness_admit_spec witness input) as Hw.
  destruct (witness_admit witness input) as [i|[w' i]]; [subst i|destruct Hw as [-> ->]; by apply drains_back].
  destruct input as [[receipt|item reason|item []|item fault]|item]; cbn [entry_stop_result failure_stopped];
    destruct stopped as [stopped|]; try destruct restorable as [[]|]; cbn [fst];
    first [ rewrite services_set; by apply drains_removed; rewrite Hp
          | apply drains_phase; [apply services_set|rewrite Hp; cbn; lia|by rewrite Hp] ].
Qed.

Lemma retiring_shutdown_rank self0 r input proxy shutdown requests :
  retiring_shutdown self0 key e r input = (proxy, shutdown, None, requests) ->
  shutdown_rank shutdown < shutdown_rank (retirement_shutdown r).
Proof.
  unfold retiring_shutdown. destruct r as [p [witness|o|] work stopped]; [|done..]. cbn [retirement_shutdown].
  destruct (witness_admit witness input) as [i|[w' i]]; [|done].
  destruct i as [[]|]; [|destruct work as [| | | | |[] ?]; cbn [entry_stop_result]..]; try (intros [= <- <- <-]; cbn; lia).
  all: repeat case_match; intros [= <- <- <-]; cbn; lia.
Qed.

Lemma accept_retiring_input_drains r input : entry_phase e = Entry_Retiring r ->
  drains exit (services self.2) (services (accept_retiring_input (set_services self rest) key e r input).1.2).
Proof.
  intros Hp. unfold accept_retiring_input. destruct (retiring_shutdown _ _ _ _ _) as [[[proxy shutdown] remaining] requests] eqn:Hr.
  destruct (retiring_shutdown_spec _ _ _ _ _ _ _ _ _ Hr) as (_ & _ & Hrem).
  assert (Hsettled : forall work dg,
    shutdown_rank shutdown + work_rank work < shutdown_rank (retirement_shutdown r) + work_rank (retirement_work r) ->
    drains exit (services self.2) (services (let '(self0, l) := settle_retirement (set_services self rest) key e
         (mkRetirement proxy shutdown work (retirement_stopped r)) in
       let '(self2, ops) := authorize_waiting self0 in
       (self2, sending (with_operations ops (with_lifecycle (sends_append (lifecycle dg) l) dg)))).1.2)).
  { intros work dg Hlt. pose proof (settle_retirement_drains (mkRetirement proxy shutdown work (retirement_stopped r))) as Hs.
    destruct (settle_retirement _ _ _ _) as [self1 l]. destruct Hs as [Hs Ha]; [by rewrite Hp|rewrite Hp; cbn; lia|]. by rewrite Ha. }
  destruct remaining as [i|].
  - destruct Hrem as (-> & -> & ->). pose proof (settle_input_spec (retirement_work r) input) as Hset.
    destruct (settle_input _ _) as [[work [rejected|]]|[work i]].
    + destruct Hset as (purpose & w & Hw & Hw'). apply Hsettled. rewrite Hw. destruct Hw' as [->|[o ->]]; cbn; lia.
    + destruct Hset as (purpose & w & Hw & Hw'). apply Hsettled. rewrite Hw. destruct Hw' as [->|[o ->]]; cbn; lia.
    + destruct Hset as [-> ->]. apply drains_back. rewrite Hp. by destruct r.
  - apply Hsettled. apply retiring_shutdown_rank in Hr. lia.
Qed.

End Entry.

Section Inputs.
  Context (exit : UnexpectedExit) (self : Self) (Hok : directory_ok self) (Hcl : closing self = true).

Lemma accept_creations_drains proxies : drains exit (services self.2) (services (accept_creations self proxies).1.2).
Proof.
  destruct proxies as [settlements| |]; cbn [accept_creations]; [|by left..].
  destruct (into_one settlements) as [settlement|l]; [|by left].
  destruct (take_proxy_entry _ _) as [[[self1 key] e]|] eqn:Ht; [|by left].
  apply take_proxy_entry_spec in Ht as (rest & -> & Hd & _); [|by apply Hok]. by apply accept_creation_drains.
Qed.

Lemma accept_proxy_input_drains input : drains exit (services self.2) (services (accept_proxy_input self input).1.2).
Proof.
  unfold accept_proxy_input. destruct (take_proxy_entry _ _) as [[[self1 key] e]|] eqn:Ht; [|by left].
  apply take_proxy_entry_spec in Ht as (rest & -> & Hd & _); [|by apply Hok].
  destruct (rest_leaving self key e rest Hok Hcl Hd) as [Hl _].
  destruct (entry_phase e) as [| | | |proxy w| | | | | |proxy service w| |proxy restorable [w|o|] stopped|r] eqn:Hp;
    try done; try (by apply (drains_back exit self key e rest Hok Hd)).
  - by apply accept_stopping_input_drains.
  - by apply accept_retiring_input_drains.
Qed.

Lemma accept_proxy_stop_drains stopped : drains exit (services self.2) (services (accept_proxy_stop self stopped).1.2).
Proof.
  unfold accept_proxy_stop. destruct (take_proxy_entry _ _) as [[[self1 key] e]|] eqn:Ht; [|by left].
  apply take_proxy_entry_spec in Ht as (rest & -> & Hd & _); [|by apply Hok].
  destruct (entry_phase e) as [| | | | | | | | | | | |proxy restorable [w|o|] [st|]|[proxy shutdown work [st|]]] eqn:Hp;
    try (by apply (drains_back exit self key e rest Hok Hd)).
  - eapply drains_phase; [done|apply services_set|rewrite Hp; cbn; lia|by rewrite Hp].
  - cbn [fst]. rewrite services_set. eapply drains_removed; [done|by rewrite Hp].
  - pose proof (settle_retirement_drains exit self key e rest Hok Hcl Hd (mkRetirement proxy shutdown work (Some stopped))) as Hs.
    destruct (settle_retirement _ _ _ _) as [self1 l]. apply Hs; rewrite Hp; [done|cbn; lia].
Qed.

Lemma accept_retiring_outcome_drains key e rest child r purpose operation outcome :
  detached (services self.2) key e rest -> entry_phase e = Entry_Retiring r ->
  retirement_work r = Work_Transferred purpose (Input_AwaitingOutcome operation) ->
  drains exit (services self.2)
    (services (accept_retiring_outcome (set_services self rest) key e child r purpose outcome).1.2).
Proof.
  intros Hd Hp Hw. unfold accept_retiring_outcome. destruct (purpose_accepts _ _).
  - pose proof (settle_retirement_drains exit self key e rest Hok Hcl Hd (mkRetirement (retirement_proxy r) (retirement_shutdown r)
      (Work_Transferred purpose (Input_ProxyReported outcome)) (retirement_stopped r))) as Hs.
    destruct (settle_retirement _ _ _ _) as [self1 l]. destruct Hs as [Hs Ha]; [by rewrite Hp|rewrite Hp; cbn; rewrite Hw; cbn; lia|]. by rewrite Ha.
  - unfold replacement_rejected. cbn [fst]. rewrite <- (with_phase_same e _ eq_refl) at 1. by eapply drains_back.
Qed.

Lemma accept_proxy_report_drains report : exit = unexpected_exit self.2 -> drains exit (services self.2) (services (accept_proxy_report self report).1.2).
Proof.
  intros Hexit. destruct report as [child outcome]. unfold accept_proxy_report.
  destruct (take_proxy_entry _ _) as [[[self1 key] e]|] eqn:Ht; [|by left].
  apply take_proxy_entry_spec in Ht as (rest & -> & Hd & _); [|by apply Hok].
  destruct (rest_leaving self key e rest Hok Hcl Hd) as [Hl _]. unfold replacement_rejected.
  destruct (entry_phase e) as [| | | | |proxy po| | |proxy [worker readiness|w0] latest| | |proxy service po| |r] eqn:Hp; try done.
  all: try (destruct outcome; by apply (drains_back exit self key e rest Hok Hd)).
  - destruct outcome; try (by apply (drains_back exit self key e rest Hok Hd)).
    case_bool_decide; [|by apply (drains_back exit self key e rest Hok Hd)].
    assert (Hx : unexpected_exit (set_services self rest).2 = exit) by (rewrite Hexit; by destruct self as [k []]). rewrite Hx.
    destruct exit; [|destruct (alloc _ _) as [self1 [r op]] eqn:Ha]; cbn [fst].
    + eapply drains_phase; [done|apply services_set|rewrite Hp; cbn; lia|done].
    + eapply drains_phase; [done|by eapply alloc_services| |done]. rewrite (retirement_begin_rank _ _ _ _ _ _ _ Ha), Hp. cbn. lia.
  - destruct outcome, r as [p sh [| | | | |purpose [w'|po| |oc]] st]; try (by apply (drains_back exit self key e rest Hok Hd));
      by eapply accept_retiring_outcome_drains.
Qed.

Lemma transition_services input : services (transition self input).1.2 = services (dispatch self input).1.2.
Proof. unfold transition. by destruct (dispatch self input) as [self' [a|i]]. Qed.

Lemma on_deadline_services {X} (accept : ShutdownDeadline -> ShutdownDeadline * result () X) input event :
  services (on_deadline self accept input event).1.2 = services self.2.
Proof.
  unfold on_deadline. destruct (availability self.2) as [|d]; [done|]. destruct (accept d) as [d' r]. by destruct self as [k []].
Qed.

Lemma transition_drains input : exit = unexpected_exit self.2 -> drains exit (services self.2) (services (transition self input).1.2).
Proof.
  intros Hexit. rewrite transition_services. destruct input as [[from c]|proxies|i|report|report|stopped|s|r|t]; cbn [dispatch].
  - unfold command. unfold closing in Hcl. destruct (availability self.2); [done|by left].
  - apply accept_creations_drains.
  - apply accept_proxy_input_drains.
  - by apply accept_proxy_report_drains.
  - by left.
  - apply accept_proxy_stop_drains.
  - unfold begin_shutdown. unfold closing in Hcl. destruct (availability self.2); [done|by left].
  - left. apply on_deadline_services.
  - left. apply on_deadline_services.
Qed.

End Inputs.

(** ** Runs *)

Fixpoint run (self : Self) (inputs : list DynamicSupervisorEvent) : Self * list acted :=
  match inputs with
  | [] => (self, [])
  | input :: inputs =>
      let '(self, res) := transition self input in
      let '(self, l) := run self inputs in (self, res :: l)
  end.

Definition sent (res : acted) : DynamicSupervisorRequests := match res with Ok a => sends a | Err _ => no_requests end.

(** The services that a run admits. *)
Fixpoint admitted (self : Self) (inputs : list DynamicSupervisorEvent) : list (Key * N) :=
  match inputs with
  | [] => []
  | input :: inputs =>
      let '(self', res) := transition self input in
      match res with Ok a => admissions self input a | Err _ => [] end ++ admitted self' inputs
  end.

(** The directory that a configuration builds. *)
Definition fresh (n : nat) (c : Config) : Self := (n, directory_new c).

Lemma fresh_ok n c : directory_ok (fresh n c).
Proof. split; cbn; [|lia|unfold occupied; cbn; lia|by right]. split; cbn; try done; by constructor. Qed.

Lemma closed_none : closed no_requests = [].
Proof. by observed. Qed.

Lemma handed_none : handed no_requests = [].
Proof. by observed. Qed.

(** A command is never refused. *)
Lemma command_answered self from c : directory_ok self -> exists self' a,
  transition self (Event_Command (mkUser from c)) = (self', Ok a) /\ stepped self (Event_Command (mkUser from c)) a self'.
Proof.
  intros Hok. destruct (command_ok self from c Hok) as (a & Ha & _ & _). pose proof (directory_transition_ok self (Event_Command (mkUser from c)) Hok) as Hs.
  unfold transition in *. cbn [dispatch] in *. destruct (command self c) as [self' res]. cbn in Ha. subst res. cbn in *. eauto.
Qed.

(** A step, with the input that it took. *)
Lemma transition_taken self input self' res : directory_ok self -> transition self input = (self', res) ->
  directory_ok self' /\ handed (sent res) ++ held (services self'.2) ≡ₚ submitted input ++ held (services self.2).
Proof.
  intros Hok Ht. pose proof (directory_transition_ok self input Hok) as Hs. rewrite Ht in Hs. destruct res as [a|i]; cbn in Hs.
  - split; apply Hs.
  - destruct Hs as [-> ->]. split; [done|]. cbn [sent]. rewrite handed_none. destruct input as [[from c]|?|?|?|?|?|?|?|?]; try done.
    destruct (command_answered self from c Hok) as (? & ? & Hc & _). by rewrite Ht in Hc.
Qed.

Lemma run_ok inputs : forall self self' l, directory_ok self -> run self inputs = (self', l) -> directory_ok self'.
Proof.
  induction inputs as [|input inputs IH]; intros self self' l Hok; cbn; [by intros [= <- <-]|].
  destruct (transition self input) as [self1 res] eqn:Ht. destruct (run self1 inputs) as [self2 l2] eqn:Hr. intros [= <- <-].
  eapply IH; [|exact Hr]. by destruct (transition_taken _ _ _ _ Hok Ht).
Qed.

Lemma run_limits inputs : forall self self' l, directory_ok self -> run self inputs = (self', l) ->
  entries self'.2 = entries self.2 /\ startup_limit self'.2 = startup_limit self.2.
Proof.
  induction inputs as [|input inputs IH]; intros self self' l Hok; cbn [run]; [by intros [= <- <-]|].
  destruct (transition self input) as [self1 res] eqn:Ht. destruct (run self1 inputs) as [self2 l2] eqn:Hr. intros [= <- <-].
  destruct (transition_taken _ _ _ _ Hok Ht) as [Hok1 _]. destruct (IH _ _ _ Hok1 Hr) as [-> ->].
  pose proof (directory_transition_ok self input Hok) as Hs. rewrite Ht in Hs. destruct res; cbn in Hs; [apply Hs|by destruct Hs as [_ ->]].
Qed.

Lemma run_conserves inputs : forall self self' l, directory_ok self -> run self inputs = (self', l) ->
  (inputs ≫= submitted) ++ held (services self.2) ≡ₚ (l ≫= fun res => handed (sent res)) ++ held (services self'.2).
Proof.
  induction inputs as [|input inputs IH]; intros self self' l Hok; cbn [run]; [by intros [= <- <-]|].
  destruct (transition self input) as [self1 res] eqn:Ht. destruct (run self1 inputs) as [self2 l2] eqn:Hr. intros [= <- <-].
  destruct (transition_taken _ _ _ _ Hok Ht) as [Hok1 Hh]. pose proof (IH _ _ _ Hok1 Hr) as H. rewrite !bind_cons, <- !(app_assoc (submitted input)).
  rewrite <- app_assoc, <- H, (Permutation_app_comm _ (held (services self.2))), app_assoc, <- Hh, <- !app_assoc.
  f_equiv. apply Permutation_app_comm.
Qed.

Lemma run_services inputs : forall self self' l, directory_ok self -> run self inputs = (self', l) ->
  admitted self inputs ++ present (services self.2) ≡ₚ (l ≫= fun res => closed (sent res)) ++ present (services self'.2) /\
  NoDup (snd <$> admitted self inputs) /\
  (forall x, below (generations self.2) x -> x ∉ (snd <$> admitted self inputs)).
Proof.
  induction inputs as [|input inputs IH]; intros self self' l Hok; cbn [run admitted].
  { intros [= <- <-]. split_and!; [done|constructor|]. intros x _ Hx. inversion Hx. }
  destruct (transition self input) as [self1 res] eqn:Ht. destruct (run self1 inputs) as [self2 l2] eqn:Hr. intros [= <- <-].
  pose proof (directory_transition_ok self input Hok) as Hs. rewrite Ht in Hs.
  destruct (transition_taken _ _ _ _ Hok Ht) as [Hok1 _]. destruct (IH _ _ _ Hok1 Hr) as (H1 & H2 & H3).
  destruct res as [a|i]; cbn in Hs.
  2: { destruct Hs as [-> ->]. rewrite bind_cons. cbn [app sent]. rewrite closed_none. by split_and!. }
  destruct Hs as [_ Hsv _ Hg _ _ _]. cbn [sent]. split_and!.
  - rewrite bind_cons. cbn [sent]. rewrite <- !app_assoc, <- H1. rewrite (Permutation_app_comm (admitted _ _) (present (services self.2))), app_assoc, <- Hsv, <- !app_assoc.
    f_equiv. apply Permutation_app_comm.
  - rewrite fmap_app. destruct (admissions self input a) as [|x adm] eqn:Ha; [done|].
    destruct Hg as (key & g & -> & Hg1 & Hg2). cbn. constructor; [|done]. apply H3. rewrite Hg2. apply below_next.
  - intros x Hx. rewrite fmap_app. destruct (admissions self input a) as [|y adm] eqn:Ha; [rewrite <- Hg in Hx; by apply H3|].
    destruct Hg as (key & g & -> & Hg1 & Hg2). cbn. rewrite Hg1 in Hx. intros [Heq|Hin]%elem_of_cons; [subst; cbn in Hx; lia|].
    revert Hin. apply H3. rewrite Hg2. by apply below_checked_add.
Qed.


(** ** Answers *)

(** The number of replies on each lane. *)
Definition lanes (r : DynamicSupervisorRequests) : list nat :=
  [length (addressed (start_replies r)); length (addressed (replace_replies r)); length (addressed (stop_replies r));
   length (addressed (query_replies r)); length (addressed (cancel_replies r))].

Definition statuses (m : Services) : list (Key * DynamicStatus) := (fun kv => (kv.1, phase_status (entry_phase kv.2))) <$> m.

Definition receipt_authority (r : CancellationReceipt) : CancelAuthority :=
  match r with
  | Cancel_Returned a _ | Cancel_Pending a _ | Cancel_Committed a _ | Cancel_Cancelled a | Cancel_Stale a | Cancel_Draining a => a
  end.

(** What a query is told. *)
Definition queried (self : Self) (key : Key) : QueryReply :=
  match bt_get key (services self.2) with
  | Some e => Query_Known key (if closing self then Status_Draining else phase_status (entry_phase e))
  | None => Query_Unknown key
  end.

(** The answer to a command. *)
Definition replied (self : Self) (c : DynamicCommand) (r : DynamicSupervisorRequests) (self' : Self) : Prop :=
  match c with
  | Directory_Start key s to =>
      lanes r = [1; 0; 0; 0; 0] /\ exists reply, addressed (start_replies r) = [(to, reply)] /\
      match reply with
      | Ok receipt => receipt_key receipt = key /\ bt_get key (services self.2) = None /\
          exists e, bt_get key (services self'.2) = Some e /\ entry_phase e = Entry_CreatingProxy s /\
            receipt_cancel receipt = authority_issued key (entry_operation e)
      | Err rejection => rejected_key _ rejection = key /\ rejected_submission _ rejection = s /\
          services self'.2 = services self.2
      end
  | Directory_Replace key s to =>
      lanes r = [0; 1; 0; 0; 0] /\ exists reply, addressed (replace_replies r) = [(to, reply)] /\
      match reply with
      | Ok receipt => receipt_key receipt = key /\ authority_key (receipt_cancel receipt) = key /\
          exists e proxy service latest, bt_get key (services self.2) = Some e /\
            entry_phase e = Entry_Available proxy service latest
      | Err rejection => rejected_key _ rejection = key /\ rejected_submission _ rejection = s /\
          services self'.2 = services self.2
      end
  | Directory_Stop key to =>
      lanes r = [0; 0; 1; 0; 0] /\ exists reply, addressed (stop_replies r) = [(to, reply)] /\
      match reply with
      | Ok k => k = key /\ is_Some (bt_get key (services self.2))
      | Err _ => statuses (services self'.2) = statuses (services self.2)
      end
  | Directory_Query key to =>
      lanes r = [0; 0; 0; 1; 0] /\ addressed (query_replies r) = [(to, queried self key)] /\ self' = self
  | Directory_Cancel authority to =>
      lanes r = [0; 0; 0; 0; 1] /\ exists receipt, addressed (cancel_replies r) = [(to, receipt)] /\
      receipt_authority receipt = authority /\
      if closing self then receipt = Cancel_Draining authority /\ self' = self
      else
        (receipt = Cancel_Stale authority <->
          entry_operation <$> bt_get (authority_key authority) (services self.2) <> Some (authority_operation authority)) /\
        (forall s, receipt = Cancel_Returned authority s -> s ∈ held (services self.2))
  end.

Ltac replying := unfold lanes; observed; split; [reflexivity|eexists; split; [reflexivity|]].

Lemma bt_get_inserted (m : Services) key e : key ∉ (fst <$> m) -> bt_get key (bt_insert key e m) = Some e.
Proof.
  induction m as [|[k x] m IH]; cbn; [by rewrite bool_decide_true|]. intros [Hne Hin]%not_elem_of_cons.
  rewrite bool_decide_false by done. destruct (leb key k); cbn; [by rewrite bool_decide_true|].
  rewrite bool_decide_false by done. auto.
Qed.

Section Answers.
  Context (self : Self) (Hok : directory_ok self) (Hcl : closing self = false).

Lemma start_replied key s to : exists a, (start self key s to).2 = Ok a /\
  replied self (Directory_Start key s to) (sends a) (start self key s to).1.
Proof.
  unfold start, start_admission. assert (Hrej : forall reason self', services self'.2 = services self.2 ->
    replied self (Directory_Start key s to) (started_reply to (Err (mkChangeRejection key s reason)) no_requests) self').
  { intros reason self' Hs. cbn [replied]. replying. done. }
  destruct (bt_contains key _) eqn:Hkey; [eexists; split; [done|by apply Hrej]|]. apply bt_contains_false in Hkey.
  destruct (_ <=? _); [eexists; split; [done|by apply Hrej]|].
  destruct (generations self.2) as [g|] eqn:Hg, (operations self.2) as [o|] eqn:Ho; try (eexists; split; [done|by apply Hrej]).
  unfold issue. destruct (next (proxy_creations self.2)) as [c|] eqn:Hn; cbn [fst snd].
  - eexists. split; [done|]. cbn [replied sends]. replying. split_and!; [done|by apply bt_get_None|].
    destruct self as [k []]. cbn in *. eexists. split_and!; [by apply bt_get_inserted|done..].
  - eexists. split; [done|]. apply Hrej. by destruct self as [k []].
Qed.

Lemma replace_replied key s to : exists a, (replace self key s to).2 = Ok a /\
  replied self (Directory_Replace key s to) (sends a) (replace self key s to).1.
Proof.
  unfold replace. assert (Hrej : forall reason self', services self'.2 = services self.2 ->
    replied self (Directory_Replace key s to) (replaced_reply to (Err (mkChangeRejection key s reason)) no_requests) self').
  { intros reason self' Hs. cbn [replied]. replying. done. }
  destruct (bt_remove _ _) as [[e rest]|] eqn:Hr; [|eexists; split; [done|by apply Hrej]].
  pose proof (bt_remove_Some _ _ _ _ Hr) as [Hget _]. apply bt_remove_detached in Hr; [|by apply Hok].
  assert (Hback : forall p, entry_phase e = p -> services (put (set_services self rest) key (with_phase e p)).2 = services self.2).
  { intros p Hp. by rewrite (put_back_as self key e rest Hok Hr). }
  destruct (entry_phase e) as [| | | | | | | |proxy service latest| | | | |] eqn:Hp;
    try (eexists; split; [done|by apply Hrej, Hback]).
  destruct (operations _) as [n|] eqn:Hn; [|eexists; split; [done|by apply Hrej, Hback]].
  destruct (authorize_waiting _) as [self' ops]. eexists. split; [done|]. cbn [replied sends sending send]. replying.
  split_and!; [done..|]. by eexists e, proxy, service, latest.
Qed.

Lemma statuses_phase key e rest p : detached (services self.2) key e rest -> phase_status p = phase_status (entry_phase e) ->
  statuses (services (put (set_services self rest) key (with_phase e p)).2) = statuses (services self.2).
Proof.
  intros Hd Hp. rewrite services_put, services_set, <- (detached_back _ _ _ _ Hd). unfold statuses.
  pose proof (detached_fresh _ _ _ _ Hd) as Hf. clear Hd. induction rest as [|[k x] rest IH]; cbn; [by rewrite Hp|].
  apply not_elem_of_cons in Hf as [Hne Hf]. rewrite !bool_decide_false by done.
  destruct (leb key k); cbn; [by rewrite Hp|]. f_equal. by apply IH.
Qed.

Lemma stop_replied key to : exists a, (stop self key to).2 = Ok a /\
  replied self (Directory_Stop key to) (sends a) (stop self key to).1.
Proof.
  unfold stop. assert (Hrej : forall reason self', statuses (services self'.2) = statuses (services self.2) ->
    replied self (Directory_Stop key to) (stopped_reply to (Err reason) no_requests) self').
  { intros reason self' Hs. cbn [replied]. replying. done. }
  destruct (bt_remove _ _) as [[e rest]|] eqn:Hr; [|eexists; split; [done|by apply Hrej]].
  pose proof (bt_remove_Some _ _ _ _ Hr) as [Hget _]. apply bt_remove_detached in Hr; [|by apply Hok].
  destruct (operations _) as [n|]; unfold stop_operation_exhausted, begin_stop, stop_transferred;
    destruct (entry_phase e) eqn:Hp; try (eexists; split; [done|]; by apply Hrej, statuses_phase; rewrite ?Hp);
    try (destruct (alloc _ _) as [self1 [w op]]);
    (eexists; split; [done|]; cbn [replied sends sending send]; replying; done).
Qed.

Lemma cancel_receipt e authority n x : cancel_phase e authority n = x ->
  receipt_authority x.2.2 = authority /\ x.2.2 <> Cancel_Stale authority /\
  (forall s, x.2.2 = Cancel_Returned authority s -> s ∈ held_phase (entry_phase e)).
Proof.
  intros <-. unfold cancel_phase. destruct (entry_phase e) as [| | | | | | | |? ? []| | | | |[? ? [| | | | |[] ?] ?]]; cbn;
    split_and!; try done; intros ? [= <-]; by left.
Qed.

Lemma held_detached m key e rest s : detached m key e rest -> s ∈ held_phase (entry_phase e) -> s ∈ held m.
Proof. intros Hd Hs. unfold held. rewrite (detached_perm _ _ _ _ Hd), bind_cons. apply elem_of_app. by left. Qed.

Lemma cancel_replied authority to : exists a, (cancel self authority to).2 = Ok a /\
  replied self (Directory_Cancel authority to) (sends a) (cancel self authority to).1.
Proof.
  unfold cancel. cbn [replied]. rewrite Hcl. destruct (bt_remove _ _) as [[e rest]|] eqn:Hr.
  - pose proof (bt_remove_Some _ _ _ _ Hr) as [Hget _]. apply bt_remove_detached in Hr; [|by apply Hok].
    rewrite Hget. cbn [fmap option_fmap option_map]. case_bool_decide as Ho; cbn [negb].
    + unfold alloc. destruct (cancel_phase e authority (set_services self rest).1) as [n' [[p ops] receipt]] eqn:Hc.
      destruct (cancel_receipt _ _ _ _ Hc) as (H1 & H2 & H3). cbn [snd] in *. eexists. split; [done|]. cbn [sends sending send].
      replying. split_and!; [done|split; [done|congruence]|]. intros s Hs. eapply held_detached; [exact Hr|by apply H3].
    + eexists. split; [done|]. cbn [sends sending send]. replying. split_and!; [done|split; [congruence|done]|done].
  - apply bt_remove_None in Hr. rewrite Hr. eexists. split; [done|]. cbn [sends sending send]. replying. done.
Qed.

End Answers.

Lemma command_replied self c : directory_ok self ->
  exists a, (command self c).2 = Ok a /\ replied self c (sends a) (command self c).1.
Proof.
  intros Hok. unfold command. destruct (availability self.2) as [drain|deadline] eqn:Hav.
  - assert (Hcl : closing self = false) by (unfold closing; by rewrite Hav).
    destruct c; auto using start_replied, replace_replied, stop_replied, cancel_replied.
    eexists. split; [done|]. cbn [replied sends sending send query fst]. unfold queried. rewrite Hcl. unfold lanes. observed. done.
  - assert (Hcl : closing self = true) by (unfold closing; by rewrite Hav).
    destruct c; eexists; (split; [done|]); cbn [replied sends sending send fst command_while_shutting_down]; unfold queried; rewrite ?Hcl;
      unfold lanes; observed; (split; [done|]); try (eexists; split; [done|]; done).
    split; [|done]. by destruct (bt_get _ _).
Qed.


(** ** Directories that shut down *)

(** Whether the shutdown deadline is over. *)
Definition expired (self : Self) : bool :=
  match availability self.2 with ShuttingDown (NotScheduled _ | Elapsed _) => true | _ => false end.

Definition stops (self : Self) : bool :=
  closing self && match services self.2 with [] => true | _ :: _ => expired self end.

Lemma transition_verdict self input self' a : directory_ok self -> transition self input = (self', Ok a) ->
  become_ a = if stops self' then Stop the_Stopped else Continue.
Proof.
  intros Hok. unfold transition. destruct (directory_dispatch_ok self input Hok) as [_ Hg].
  destruct (dispatch self input) as [self1 [b|i]]; [|done]. cbn in Hg |- *. intros [= <- <-]. unfold stops, closing, expired.
  destruct (availability self1.2) as [|[]], (services self1.2); cbn; done.
Qed.

(** Nobody holds a submission any more. *)
Lemma closing_held self : directory_ok self -> closing self = true -> held (services self.2) = [].
Proof.
  intros Hok Hcl. pose proof (table_leaving _ _ (ok_table _ Hok) Hcl) as Hl. unfold held.
  induction Hl as [|[k e] m He Hl IH]; [done|]. rewrite bind_cons, IH. cbn in *. by destruct (entry_phase e).
Qed.

Lemma transition_closing self input : directory_ok self -> closing self = true -> closing (transition self input).1 = true.
Proof.
  intros Hok Hcl. pose proof (directory_transition_ok self input Hok) as Hs. destruct (transition self input) as [self' [a|i]]; cbn in *.
  - by apply (stepped_closing _ _ _ _ Hs).
  - by destruct Hs as [_ ->].
Qed.

Lemma transition_fine self input : directory_ok self -> directory_ok (transition self input).1.
Proof. intros Hok. destruct (transition self input) as [self' res] eqn:Ht. by destruct (transition_taken _ _ _ _ Hok Ht). Qed.

(** A shutting down directory answers a command from its lanes alone. *)
Lemma closing_command self from c : closing self = true ->
  proxy_operations (sent (transition self (Event_Command (mkUser from c))).2) = [].
Proof.
  unfold closing. intros Hcl. unfold transition. cbn [dispatch]. unfold command. destruct (availability self.2) eqn:Ha; [done|]. cbn.
  rewrite Ha. by repeat case_match; destruct c.
Qed.

Lemma closing_operations self input : directory_ok self -> closing self = true ->
  omap operation_submission (proxy_operations (sent (transition self input).2)) = [].
Proof.
  intros Hok Hcl. destruct (transition self input) as [self' res] eqn:Ht. pose proof (transition_closing self input Hok Hcl) as Hcl'.
  destruct (transition_taken _ _ _ _ Hok Ht) as [Hok' Hh]. rewrite Ht in Hcl'. cbn in *.
  rewrite !closing_held, !app_nil_r in Hh by done.
  destruct input as [[from c]|?|?|?|?|?|?|?|?]; cbn in Hh;
    [pose proof (closing_command self from c Hcl) as Hop; rewrite Ht in Hop; cbn in Hop; by rewrite Hop|
     apply Permutation_nil_r in Hh; unfold handed in Hh; by apply app_eq_nil in Hh as [Hh _]..].
Qed.

(** [changing self inputs n]: in the run of [inputs] from [self], at least [n]
    inputs change the services; any inputs may come between them. *)
Inductive changing : Self -> list DynamicSupervisorEvent -> nat -> Prop :=
  | changing_nil self : changing self [] 0
  | changing_passed self input inputs n :
      changing (transition self input).1 inputs n -> changing self (input :: inputs) n
  | changing_changed self input inputs n :
      services (transition self input).1.2 <> services self.2 ->
      changing (transition self input).1 inputs n -> changing self (input :: inputs) (S n).

Lemma changing_bound self inputs n : changing self inputs n -> directory_ok self -> closing self = true ->
  n <= drain_rank (services self.2).
Proof.
  induction 1 as [self|self input inputs n _ IH|self input inputs n Hne _ IH]; intros Hok Hcl; [lia|..];
    specialize (IH (transition_fine self input Hok) (transition_closing self input Hok Hcl));
    destruct (drains_rank _ _ _ (transition_drains _ self Hok Hcl input eq_refl)) as [Heq|Hlt]; [|lia|done|lia].
  by rewrite Heq in IH.
Qed.

Definition served (key : Key) (m : Services) : bool :=
  match bt_get key m with Some e => serving (entry_phase e) | None => false end.

Lemma served_elem key m : sorted m -> served key m = true <-> exists e, (key, e) ∈ m /\ serving (entry_phase e) = true.
Proof.
  intros Hs. unfold served. split.
  - destruct (bt_get key m) as [e|] eqn:Hg; [|done]. intros He. exists e. split; [|done]. by apply bt_get_Some.
  - intros (e & Hin & He). apply bt_get_Some in Hin; [|done]. by rewrite Hin.
Qed.

Lemma drains_served m m' key : sorted m -> sorted m' -> drains KeepEmpty m m' -> served key m = true -> served key m' = true.
Proof.
  intros Hs Hs' [->|(k & e & rest & oe & Hd & -> & _ & Hk)]; [done|]. rewrite !served_elem by done.
  intros (e0 & Hin & He0). pose proof (detached_perm _ _ _ _ Hd) as Hp. rewrite Hp in Hin. apply elem_of_cons in Hin as [[= -> ->]|Hin].
  - specialize (Hk eq_refl He0). destruct oe as [e'|]; cbn in Hk; [|done]. exists e'. split; [|done]. cbn.
    rewrite bt_insert_Permutation by apply (detached_fresh _ _ _ _ Hd). left.
  - exists e0. split; [|done]. destruct oe as [e'|]; cbn; [|done].
    rewrite bt_insert_Permutation by apply (detached_fresh _ _ _ _ Hd). by right.
Qed.

(** A deadline that waits for the actor graph never passes. *)
Definition unlimited (self : Self) : Prop := availability self.2 = ShuttingDown Unlimited.

Lemma outcome_aligned self extra input res : outcome_ok self extra input res -> aligned self res.1.
Proof. destruct res as [self' [a|i]]; cbn; [by intros ([] & _ & _)|]. intros [_ ->]. apply aligned_refl. Qed.

Lemma unlimited_step self input : directory_ok self -> unlimited self ->
  unlimited (transition self input).1 /\ unexpected_exit (transition self input).1.2 = unexpected_exit self.2.
Proof.
  unfold unlimited. intros Hok Hu. assert (E : (transition self input).1 = (dispatch self input).1).
  { unfold transition. by destruct (dispatch self input). }
  rewrite E. clear E. assert (Hal : forall res extra, outcome_ok self extra input res ->
    availability res.1.2 = ShuttingDown Unlimited /\ unexpected_exit res.1.2 = unexpected_exit self.2).
  { intros res extra [] %outcome_aligned. split; congruence. }
  destruct input as [[from c]|proxies|i|report|report|stopped|s|r|t]; cbn [dispatch].
  - unfold command. by rewrite Hu.
  - by eapply Hal, directory_accept_creations_ok.
  - by eapply Hal, accept_proxy_input_ok.
  - by eapply Hal, accept_proxy_report_ok.
  - done.
  - by eapply Hal, accept_proxy_stop_ok.
  - unfold begin_shutdown. by rewrite Hu.
  - unfold on_deadline. rewrite Hu. cbn. destruct self as [k []]. by cbn in *; subst.
  - unfold on_deadline. rewrite Hu. cbn. destruct self as [k []]. by cbn in *; subst.
Qed.

Lemma stranded_run inputs : forall self key self' l, directory_ok self -> unlimited self -> unexpected_exit self.2 = KeepEmpty ->
  served key (services self.2) = true -> run self inputs = (self', l) ->
  served key (services self'.2) = true /\ Forall (fun res => match res with Ok a => become_ a = Continue | Err _ => True end) l.
Proof.
  induction inputs as [|input inputs IH]; intros self key self' l Hok Hu Hx Hk; cbn [run]; [by intros [= <- <-]|].
  assert (Hcl : closing self = true) by (unfold closing; by rewrite Hu).
  pose proof (transition_drains _ self Hok Hcl input eq_refl) as Hdr. rewrite Hx in Hdr.
  pose proof (transition_fine self input Hok) as Hok1. destruct (unlimited_step self input Hok Hu) as [Hu1 Hx1].
  destruct (transition self input) as [self1 res] eqn:Ht. cbn [fst] in *. destruct (run self1 inputs) as [self2 l2] eqn:Hr.
  intros [= <- <-]. assert (Hk1 : served key (services self1.2) = true).
  { eapply drains_served; [..|exact Hdr|exact Hk]; by apply ok_table. }
  destruct (IH self1 key self2 l2) as [H1 H2]; [done|done|congruence|done|done|]. split; [done|]. constructor; [|done].
  destruct res as [a|i]; [|done]. rewrite (transition_verdict _ _ _ _ Hok Ht). unfold stops, expired. rewrite Hu1.
  unfold served in Hk1. destruct (services self1.2); cbn in *; [done|]. by rewrite andb_false_r.
Qed.


(** ** A leaving entry always waits for something *)

Definition live_phase (p : DynamicEntryPhase) : bool :=
  match p with
  | Entry_Stopping _ _ (ProxyShutdown_Accepted _) (Some _) | Entry_Stopping _ _ ProxyShutdown_Rejected _ => false
  | Entry_Retiring r =>
      0 <? shutdown_rank (retirement_shutdown r) + work_rank (retirement_work r) + unstopped (retirement_stopped r)
  | _ => true
  end.

Definition lively (self : Self) : Prop := Forall (fun kv => live_phase (entry_phase kv.2) = true) (services self.2).

Lemma lively_same self self' : services self'.2 = services self.2 -> lively self -> lively self'.
Proof. unfold lively. by intros ->. Qed.

Lemma lively_put self key e : live_phase (entry_phase e) = true -> lively self -> lively (put self key e).
Proof.
  intros He. unfold lively. rewrite services_put. assert (Hkv : live_phase (entry_phase (key, e).2) = true) by done.
  induction 1 as [|[k x] m Hx Hm IH]; cbn [bt_insert]; [auto|]. case_bool_decide; [auto|]. destruct (leb key k); auto.
Qed.

Lemma lively_alloc {X} self (m : Alloc X) self' x : alloc self m = (self', x) -> lively self -> lively self'.
Proof. intros Ha. apply lively_same. by apply aligned_alloc in Ha as [_ ?]. Qed.

Lemma lively_without self (m : Services) : Forall (fun kv => live_phase (entry_phase kv.2) = true) m -> lively (set_services self m).
Proof. unfold lively. by rewrite services_set. Qed.

Lemma lively_removed self key e rest : bt_remove key (services self.2) = Some (e, rest) -> lively self ->
  lively (set_services self rest) /\ live_phase (entry_phase e) = true.
Proof.
  intros [Hg ->]%bt_remove_Some Hl. unfold lively in Hl. rewrite <- (bt_delete_Permutation _ _ _ Hg) in Hl.
  inversion Hl; subst. split; [by apply lively_without|done].
Qed.

Lemma lively_taken self creation self1 key e : take_proxy_entry self creation = Some (self1, key, e) -> lively self ->
  lively self1 /\ live_phase (entry_phase e) = true.
Proof.
  unfold take_proxy_entry. destruct (take_at _ _) as [[[i [k x]] rest]|] eqn:Ht; [|done]. cbn. intros [= <- <- <-] Hl.
  unfold lively in Hl. rewrite (take_at_Permutation _ _ _ _ _ Ht) in Hl. inversion Hl; subst. split; [by apply lively_without|done].
Qed.

Lemma lively_begin self c proxy work self' r op : alloc self (retirement_begin c proxy work) = (self', (r, op)) ->
  live_phase (Entry_Retiring r) = true.
Proof. unfold alloc. cbn. intros [= _ <- _]. cbn. by destruct (work_rank work). Qed.

Lemma lively_authorize self : lively self -> lively (authorize_waiting self).1.
Proof.
  intros Hl. unfold authorize_waiting. destruct (_ <=? _); [done|]. destruct (oldest _) as [[o key]|]; [|done].
  destruct (bt_remove _ _) as [[e rest]|] eqn:Hr; [|done]. destruct (lively_removed _ _ _ _ Hr Hl) as [Hl1 He].
  destruct (entry_phase e) eqn:Hp; try (by apply lively_put);
    destruct (alloc _ _) as [self1 [w op]] eqn:Ha; by apply lively_put, (lively_alloc _ _ _ _ Ha).
Qed.

(** A retirement that does not close still waits. *)
Lemma close_live self key generation operation r r' : close_retirement self key generation operation r = Err r' ->
  live_phase (Entry_Retiring r') = true.
Proof.
  unfold close_retirement. destruct r as [proxy [w|o|] [| | | | |[] []] [st|]]; cbn; intros [= <-]; done.
Qed.

Lemma lively_settle self key e r : lively self -> lively (settle_retirement self key e r).1.
Proof.
  intros Hl. unfold settle_retirement. destruct (close_retirement _ _ _ _ _) as [l|r'] eqn:Hc; [done|].
  apply lively_put; [by eapply close_live|done].
Qed.

(** Splits a handler into its branches, and collects what its calls keep. *)
Ltac lively_branch :=
  repeat match goal with
  | |- context [alloc ?s ?m] => let Ha := fresh "Ha" in destruct (alloc s m) as [? [? ?]] eqn:Ha
  | |- context [authorize_waiting ?s] =>
      let H := fresh "H" in assert (H : lively s -> lively (authorize_waiting s).1) by apply lively_authorize;
      destruct (authorize_waiting s) as [? ?]; cbn [fst] in H
  | |- context [settle_retirement ?s ?k ?e ?r] =>
      let H := fresh "H" in assert (H : lively s -> lively (settle_retirement s k e r).1) by apply lively_settle;
      destruct (settle_retirement s k e r) as [? ?]; cbn [fst] in H
  end; cbn [fst snd].

Ltac lively_done :=
  repeat match goal with
  | H : lively ?s -> lively ?t |- lively ?t => apply H
  | Ha : alloc ?s (retirement_begin _ _ _) = (?t, (?r, _)) |- context [Entry_Retiring ?r] => apply (lively_begin _ _ _ _ _ _ _ Ha)
  | Ha : alloc ?s _ = (?t, _) |- lively ?t => apply (lively_alloc _ _ _ _ Ha)
  | |- lively (put _ _ _) => apply lively_put
  end; try done.

Lemma lively_set_operations self o : lively self -> lively (set_operations self o).
Proof. apply lively_same. by destruct self as [k []]. Qed.

Lemma lively_start self key s to : lively self -> lively (start self key s to).1.
Proof.
  intros Hl. unfold start. destruct (start_admission self key) as [[g o]|reason]; [|done].
  destruct (issue _) as [creations [creation|]]; cbn [fst]; [apply lively_put; [done|]|];
    revert Hl; apply lively_same; by destruct self as [k []].
Qed.

Lemma lively_replace self key s to : lively self -> lively (replace self key s to).1.
Proof.
  intros Hl. unfold replace. destruct (bt_remove _ _) as [[e rest]|] eqn:Hr; [|done].
  destruct (lively_removed _ _ _ _ Hr Hl) as [Hl1 He].
  destruct (entry_phase e) eqn:Hp; try (by apply lively_put).
  destruct (operations _); [|by apply lively_put]. lively_branch. lively_done. by apply lively_set_operations.
Qed.

Lemma lively_stop self key to : lively self -> lively (stop self key to).1.
Proof.
  intros Hl. unfold stop. destruct (bt_remove _ _) as [[e rest]|] eqn:Hr; [|done].
  destruct (lively_removed _ _ _ _ Hr Hl) as [Hl1 He].
  destruct (entry_phase e) eqn:Hp; try (by apply lively_put);
    destruct (operations _); unfold stop_operation_exhausted, begin_stop, stop_transferred; lively_branch; lively_done;
    by apply lively_set_operations.
Qed.

Lemma lively_cancel self authority to : lively self -> lively (cancel self authority to).1.
Proof.
  intros Hl. unfold cancel. destruct (bt_remove _ _) as [[e rest]|] eqn:Hr; [|done].
  destruct (lively_removed _ _ _ _ Hr Hl) as [Hl1 He]. case_bool_decide; cbn [negb]; [|by apply lively_put].
  destruct (alloc _ _) as [self1 [[p ops] receipt]] eqn:Ha. cbn [fst].
  apply lively_put; [|by apply (lively_alloc _ _ _ _ Ha)]. revert Ha. unfold alloc, cancel_phase.
  destruct (entry_phase e) as [| | | | | | | | | | | | |[? ? [| | | | |[] ?] ?]]; cbn; intros [= _ <- _ _]; cbn in *; try done;
    by destruct (work_rank _).
Qed.

Lemma lively_command self c : lively self -> lively (command self c).1.
Proof.
  intros Hl. unfold command. destruct (availability self.2); [|done].
  destruct c; auto using lively_start, lively_replace, lively_stop, lively_cancel.
Qed.

Lemma lively_creations self proxies : lively self -> lively (accept_creations self proxies).1.
Proof.
  intros Hl. unfold accept_creations. destruct proxies as [settlements| |]; [|done..].
  destruct (into_one settlements) as [s|]; [|done].
  destruct (take_proxy_entry _ _) as [[[self1 key] e]|] eqn:Ht; [|done]. destruct (lively_taken _ _ _ _ _ Ht Hl) as [Hl1 He].
  unfold accept_creation. destruct (entry_phase e) eqn:Hp; try (by apply lively_put);
    destruct (resolve s); unfold creation_rejected, retire_created, stop_created; lively_branch; lively_done.
Qed.

Lemma lively_proxy_stop self stopped : lively self -> lively (accept_proxy_stop self stopped).1.
Proof.
  intros Hl. unfold accept_proxy_stop.
  destruct (take_proxy_entry _ _) as [[[self1 key] e]|] eqn:Ht; [|done]. destruct (lively_taken _ _ _ _ _ Ht Hl) as [Hl1 He].
  destruct (entry_phase e) as [| | | | | | | | | | | |proxy restorable [w|o|] [st|]|[proxy shutdown work [st|]]] eqn:Hp;
    lively_branch; lively_done.
Qed.

Lemma lively_proxy_input self input : lively self -> lively (accept_proxy_input self input).1.
Proof.
  intros Hl. unfold accept_proxy_input.
  destruct (take_proxy_entry _ _) as [[[self1 key] e]|] eqn:Ht; [|done]. destruct (lively_taken _ _ _ _ _ Ht Hl) as [Hl1 He].
  destruct (entry_phase e) as [| | | |proxy w| | | | | |proxy service w| |proxy restorable [w|o|] stopped|r] eqn:Hp;
    try (by apply lively_put).
  - unfold accept_start_input. destruct (witness_admit w input) as [[[]|]|[]]; lively_branch; lively_done.
  - unfold accept_replacement_input. destruct (witness_admit w input) as [[[]|]|[]]; lively_branch; lively_done.
  - unfold accept_stopping_input. destruct (witness_admit w input) as [i|[]]; [|by apply lively_put].
    destruct (entry_stop_result stopped i) as [receipt|[f i']]; [destruct stopped; cbn [fst]; lively_done|].
    destruct (failure_stopped f), restorable; cbn [fst]; lively_done.
  - unfold accept_retiring_input. destruct (retiring_shutdown _ _ _ _ _) as [[[proxy shutdown] remaining] requests] eqn:Hr.
    destruct (retiring_shutdown_spec _ _ _ _ _ _ _ _ _ Hr) as (_ & _ & Hrem).
    destruct remaining as [i|]; [|lively_branch; lively_done]. destruct Hrem as (-> & -> & ->).
    pose proof (settle_input_spec (retirement_work r) input) as Hset.
    destruct (settle_input _ _) as [[work [rejected|]]|[work i]]; [lively_branch; lively_done..|].
    destruct Hset as [-> ->]. by apply lively_put.
Qed.

Lemma lively_proxy_report self report : lively self -> lively (accept_proxy_report self report).1.
Proof.
  intros Hl. destruct report as [child outcome]. unfold accept_proxy_report.
  destruct (take_proxy_entry _ _) as [[[self1 key] e]|] eqn:Ht; [|done]. destruct (lively_taken _ _ _ _ _ Ht Hl) as [Hl1 He].
  unfold replacement_rejected, accept_retiring_outcome, accept_replacement_outcome, replacement_rejected.
  destruct (entry_phase e) as [| | | | |proxy po| | |proxy [worker readiness|w0] latest| | |proxy service po| |[p sh [| | | | |purpose [w'|po| |oc]] st]] eqn:Hp;
    destruct outcome as [oi|ore|ow ostop|osender oph oc0]; try (by apply lively_put).
  - destruct oi as [| |[]]; lively_branch; lively_done.
  - case_bool_decide; [|by apply lively_put]. destruct (unexpected_exit _); lively_branch; lively_done.
  - destruct (match outcome_replaces _ with Some _ => _ | None => _ end); [lively_branch; lively_done; by rewrite Hp|].
    destruct (replacement_service service ore) as [[s|[s f]]|]; lively_branch; lively_done; by rewrite Hp.
  - destruct (purpose_accepts _ _); lively_branch; lively_done; by rewrite Hp.
  - destruct (purpose_accepts _ _); lively_branch; lively_done; by rewrite Hp.
Qed.

Lemma asked_live e e' ops : asked e e' ops -> live_phase (entry_phase e) = true -> live_phase (entry_phase e') = true.
Proof.
  unfold asked. destruct (entry_phase e); cbn [unasked]; try (by intros [_ ->]);
    intros (px & wx & wk & -> & _) _; cbn; by destruct (work_rank wk).
Qed.

Lemma lively_shutdown self : directory_ok self -> lively self -> lively (begin_shutdown self).1.
Proof.
  intros Hok Hl. destruct (availability self.2) as [drain|deadline] eqn:Hav; [|unfold begin_shutdown; by rewrite Hav].
  destruct (begin_shutdown_spec self drain Hok Hav) as (requests & self' & -> & _ & _ & (asks & H3 & _) & _). cbn [fst].
  unfold lively in *. revert Hl H3. generalize (services self.2) (services self'.2). clear. intros m m'. revert m' asks.
  induction m as [|[k e] m IH]; intros [|[k' e'] m'] asks Hl H3; inversion H3; subst; constructor; inversion Hl; subst; eauto using asked_live.
Qed.

Lemma transition_lively self input : directory_ok self -> lively self -> lively (transition self input).1.
Proof.
  intros Hok Hl. unfold transition. assert (lively (dispatch self input).1); [|by destruct (dispatch self input)].
  destruct input as [[from c]|proxies|i|report|report|stopped|s|r|t]; cbn [dispatch];
    auto using lively_command, lively_creations, lively_proxy_input, lively_proxy_report, lively_proxy_stop, lively_shutdown;
    unfold on_deadline; repeat case_match; try done; revert Hl; apply lively_same; by destruct self as [k []].
Qed.

Lemma run_lively inputs : forall self self' l, directory_ok self -> lively self -> run self inputs = (self', l) -> lively self'.
Proof.
  induction inputs as [|input inputs IH]; intros self self' l Hok Hl; cbn [run]; [by intros [= <- <-]|].
  pose proof (transition_lively self input Hok Hl) as Hl1. pose proof (transition_fine self input Hok) as Hok1.
  destruct (transition self input) as [self1 res]. destruct (run self1 inputs) as [self2 l2] eqn:Hr. intros [= <- <-]. eauto.
Qed.

(** ** The answers that a leaving entry waits for *)

Definition birthing (p : DynamicEntryPhase) : bool :=
  match p with
  | Entry_ShuttingDownProxyCreation | Entry_DrainingProxyCreationStop | Entry_CancellingProxyCreation => true
  | _ => false
  end.

(** The operations whose settlements are awaited: the proxy's shutdown and its
    last input. *)
Definition unsettled (p : DynamicEntryPhase) : list ProxyOperationWitness :=
  match p with
  | Entry_Stopping _ _ (ProxyShutdown_AwaitingSettlement w) _ => [w]
  | Entry_Retiring r =>
      match retirement_shutdown r with ProxyShutdown_AwaitingSettlement w => [w] | _ => [] end ++
      match retirement_work r with Work_Transferred _ (Input_AwaitingSettlement w) => [w] | _ => [] end
  | _ => []
  end.

Definition unreported (p : DynamicEntryPhase) : option ProxyInputPurpose :=
  match p with
  | Entry_Retiring (mkRetirement _ _ (Work_Transferred purpose (Input_AwaitingOutcome _)) _) => Some purpose
  | _ => None
  end.

Definition running (p : DynamicEntryPhase) : bool :=
  match p with
  | Entry_Stopping _ _ (ProxyShutdown_AwaitingSettlement _ | ProxyShutdown_Accepted _) None
  | Entry_Retiring (mkRetirement _ _ _ None) => true
  | _ => false
  end.

(** An answer of the host that an entry waits for: any settlement of its proxy's
    creation, the acceptance of an operation, the report of the last input, or
    the stop of the proxy. *)
Inductive awaits (e : DynamicEntry) : DynamicSupervisorEvent -> Prop :=
  | awaits_creation s :
      birthing (entry_phase e) = true -> (identity s).1 = entry_creation e ->
      awaits e (Event_ProxyCreationsSettled (Creation_Settled (Creations_one s)))
  | awaits_receipt w receipt :
      w ∈ unsettled (entry_phase e) -> receipt_creation receipt = entry_creation e ->
      receipt_operation receipt = mkOperationId (witness_token w) ->
      awaits e (Event_ProxyInputSettled (Attempted (Settlement.Accepted receipt)))
  | awaits_report purpose outcome :
      unreported (entry_phase e) = Some purpose -> purpose_accepts purpose outcome = true ->
      awaits e (Event_ProxyReported (mkChildReport (entry_creation e) outcome))
  | awaits_stop stopped :
      running (entry_phase e) = true -> stopped_child stopped = entry_creation e ->
      awaits e (Event_ProxyStopped stopped).

Section Awaited.
  Context (self : Self) (key : Key) (e : DynamicEntry) (rest : Services).
  Context (Hok : directory_ok self) (Hcl : closing self = true) (Hd : detached (services self.2) key e rest).

Lemma take_entry : take_proxy_entry self (entry_creation e) = Some (set_services self rest, key, e).
Proof.
  destruct (take_proxy_entry self (entry_creation e)) as [[[self1 k] x]|] eqn:Ht.
  - apply take_proxy_entry_spec in Ht as (rest' & -> & Hd' & Hc); [|apply Hok].
    pose proof (table_creations _ _ (ok_table _ Hok)) as Hn.
    assert (Heq : (k, x) = (key, e)).
    { pose proof (detached_perm _ _ _ _ Hd) as Hp. pose proof (detached_perm _ _ _ _ Hd') as Hp'.
      assert (Hin : (k, x) ∈ (key, e) :: rest) by (rewrite <- Hp, Hp'; left).
      apply elem_of_cons in Hin as [|Hin]; [done|]. rewrite Hp in Hn. cbn in Hn. inversion Hn as [|? ? Hnin _]; subst.
      destruct Hnin. unfold compose. rewrite <- Hc. apply list_elem_of_fmap. by exists (k, x). }
    simplify_eq. do 3 f_equal. pose proof (detached_perm _ _ _ _ Hd') as H1. rewrite (detached_perm _ _ _ _ Hd) in H1.
    f_equal. apply sorted_unique; [apply (detached_sorted _ _ _ _ Hd')|apply (detached_sorted _ _ _ _ Hd)|].
    symmetry. by eapply Permutation_cons_inv.
  - exfalso. unfold take_proxy_entry in Ht. destruct (take_at _ _) as [[[i [k x]] r]|] eqn:Ha; [done|].
    apply take_at_None in Ha. rewrite (detached_perm _ _ _ _ Hd) in Ha. inversion Ha as [|? ? Hf _]; subst. cbn in Hf.
    by rewrite bool_decide_true in Hf.
Qed.

Lemma awaited_creation s : birthing (entry_phase e) = true -> (identity s).1 = entry_creation e ->
  exists self' a, accept_creations self (Creation_Settled (Creations_one s)) = (self', Ok a) /\ advances key e rest (services self'.2).
Proof.
  intros Hb Hi. unfold accept_creations. assert (Ho : into_one (Creations_one s) = Ok s) by done. rewrite Ho. rewrite Hi, take_entry.
  unfold accept_creation, creation_rejected, retire_created, stop_created.
  destruct (entry_phase e) eqn:Hp; try done; destruct (resolve s);
    try (do 2 eexists; split; [done|]; rewrite services_set; apply advances_removed).
  all: destruct (alloc _ _) as [self1 [r op]] eqn:Ha; do 2 eexists; (split; [done|]);
    (apply advances_phase; [by eapply alloc_services| |done]); rewrite Hp.
  all: first [rewrite (retirement_begin_rank _ _ _ _ _ _ _ Ha)|idtac]; cbn; lia.
Qed.

Lemma witness_admits w receipt : receipt_operation receipt = mkOperationId (witness_token w) ->
  witness_admit w (Attempted (Settlement.Accepted receipt) : ProxyInputResult) = Ok (Attempted (Settlement.Accepted receipt)).
Proof. intros Hr. unfold witness_admit, same_operation. cbn. rewrite Hr. cbn. by rewrite bool_decide_true. Qed.

Lemma awaited_receipt w receipt : w ∈ unsettled (entry_phase e) -> receipt_creation receipt = entry_creation e ->
  receipt_operation receipt = mkOperationId (witness_token w) ->
  exists self' a, accept_proxy_input self (Attempted (Settlement.Accepted receipt)) = (self', Ok a) /\
    advances key e rest (services self'.2).
Proof.
  intros Hu Hc Hr. unfold accept_proxy_input. cbn [proxy_input_creation]. rewrite Hc, take_entry.
  pose proof (witness_admits w receipt Hr) as Hw.
  destruct (entry_phase e) as [| | | | | | | | | | | |proxy restorable [w'|o|] stopped|r] eqn:Hp; try (by inversion Hu).
  - apply list_elem_of_singleton in Hu. subst w'. unfold accept_stopping_input. rewrite Hw. cbn [entry_stop_result].
    destruct stopped as [st|]; do 2 eexists; (split; [done|]); [rewrite services_set; apply advances_removed|].
    apply advances_phase; [apply services_set|rewrite Hp; cbn; lia|done].
  - unfold accept_retiring_input. destruct (retiring_shutdown _ _ _ _ _) as [[[proxy shutdown] remaining] requests] eqn:Hrs.
    destruct (retiring_shutdown_spec _ _ _ _ _ _ _ _ _ Hrs) as (_ & _ & Hrem).
    assert (Hset : forall work dg,
      shutdown_rank shutdown + work_rank work < shutdown_rank (retirement_shutdown r) + work_rank (retirement_work r) ->
      exists self' a, (let '(self0, l) := settle_retirement (set_services self rest) key e
           (mkRetirement proxy shutdown work (retirement_stopped r)) in
         let '(self2, ops) := authorize_waiting self0 in
         (self2, sending (with_operations ops (with_lifecycle (sends_append (lifecycle dg) l) dg)))) = (self', Ok a) /\
        advances key e rest (services self'.2)).
    { intros work dg Hlt. pose proof (settle_retirement_advances self key e rest Hok Hcl Hd (mkRetirement proxy shutdown work (retirement_stopped r))) as Hs.
      destruct (settle_retirement _ _ _ _) as [self1 l]. destruct Hs as [Hs ->]; [rewrite Hp; cbn; lia|]. eauto. }
    destruct remaining as [i|]; [|apply Hset; apply retiring_shutdown_rank in Hrs; lia].
    destruct Hrem as (-> & -> & ->). destruct r as [p sh work st]. cbn [retirement_work retirement_shutdown retirement_stopped unsettled] in *.
    apply elem_of_app in Hu as [Hu|Hu].
    { destruct sh as [w'|o|]; try (by inversion Hu). apply list_elem_of_singleton in Hu. subst w'.
      unfold retiring_shutdown in Hrs. by rewrite Hw in Hrs. }
    destruct work as [| | | | |purpose []]; try (by inversion Hu). apply list_elem_of_singleton in Hu. subst.
    cbn [settle_input]. rewrite Hw. apply Hset. cbn. lia.
Qed.

Lemma awaited_report purpose outcome : unreported (entry_phase e) = Some purpose -> purpose_accepts purpose outcome = true ->
  exists self' a, accept_proxy_report self (mkChildReport (entry_creation e) outcome) = (self', Ok a) /\
    advances key e rest (services self'.2).
Proof.
  intros Hu Hacc. unfold accept_proxy_report. rewrite take_entry.
  destruct (entry_phase e) as [| | | | | | | | | | | | |[proxy shutdown [| | | | |purpose' []] stopped]] eqn:Hp; try done.
  cbn in Hu. simplify_eq. unfold accept_retiring_outcome. rewrite Hacc.
  pose proof (settle_retirement_advances self key e rest Hok Hcl Hd (mkRetirement proxy shutdown (Work_Transferred purpose (Input_ProxyReported outcome)) stopped)) as Hset.
  destruct outcome; [| |by destruct purpose as [[]| | |]..]; cbn [retirement_proxy retirement_shutdown retirement_stopped];
    (destruct (settle_retirement _ _ _ _) as [self1 l]; destruct Hset as [Ha ->]; [rewrite Hp; cbn; lia|]; eauto).
Qed.

Lemma awaited_stop stopped : running (entry_phase e) = true -> stopped_child stopped = entry_creation e ->
  exists self' a, accept_proxy_stop self stopped = (self', Ok a) /\ advances key e rest (services self'.2).
Proof.
  intros Hrun Hs. unfold accept_proxy_stop. rewrite Hs, take_entry.
  destruct (entry_phase e) as [| | | | | | | | | | | |proxy restorable [w|o|] [st|]|[proxy shutdown work [st|]]] eqn:Hp; try done.
  - do 2 eexists. split; [done|]. apply advances_phase; [apply services_set|rewrite Hp; cbn; lia|done].
  - do 2 eexists. split; [done|]. rewrite services_set. apply advances_removed.
  - pose proof (settle_retirement_advances self key e rest Hok Hcl Hd (mkRetirement proxy shutdown work (Some stopped))) as Hset.
    destruct (settle_retirement _ _ _ _) as [self1 l]. destruct Hset as [Ha _]; [rewrite Hp; cbn; lia|]. eauto.
Qed.

Lemma awaited_dispatch input : awaits e input ->
  exists self' a, dispatch self input = (self', Ok a) /\ advances key e rest (services self'.2).
Proof.
  destruct 1; cbn [dispatch]; eauto using awaited_creation, awaited_receipt, awaited_report, awaited_stop.
Qed.

End Awaited.

(** A host that gives an entry an answer it waits for, in any order. *)
Inductive cooperative : Self -> list DynamicSupervisorEvent -> Prop :=
  | cooperative_nil self : cooperative self []
  | cooperative_cons self key e input inputs :
      (key, e) ∈ services self.2 -> awaits e input -> cooperative (transition self input).1 inputs ->
      cooperative self (input :: inputs).

(** A directory that shuts down and has no entry that serves again. *)
Record drainable (self : Self) : Prop := {
  drainable_ok : directory_ok self;
  drainable_closing : closing self = true;
  drainable_lively : lively self;
  drainable_idle : Forall (fun kv => serving (entry_phase kv.2) = false) (services self.2)
}.

Lemma elem_detached self key e : directory_ok self -> (key, e) ∈ services self.2 ->
  exists rest, detached (services self.2) key e rest.
Proof.
  intros Hok Hin. pose proof (table_sorted _ _ (ok_table _ Hok)) as Hs. apply bt_get_Some in Hin; [|done].
  exists (bt_delete key (services self.2)). apply bt_remove_detached; [done|]. unfold bt_remove. by rewrite Hin.
Qed.

Lemma awaited_step self key e input : drainable self -> (key, e) ∈ services self.2 -> awaits e input ->
  drainable (transition self input).1 /\ drain_rank (services (transition self input).1.2) < drain_rank (services self.2) /\
  exists a, (transition self input).2 = Ok a /\ (services (transition self input).1.2 = [] -> become_ a = Stop the_Stopped).
Proof.
  intros [Hok Hcl Hl Hi] Hin Ha. destruct (elem_detached _ _ _ Hok Hin) as [rest Hd].
  destruct (awaited_dispatch self key e rest Hok Hcl Hd input Ha) as (self' & a & Hdis & oe & Hs & Hlt & Hsrv).
  assert (Ht : exists b, transition self input = (self', Ok b)) by (unfold transition; rewrite Hdis; cbn; eauto).
  destruct Ht as [b Ht]. pose proof (transition_fine self input Hok) as Hok1. pose proof (transition_closing self input Hok Hcl) as Hcl1.
  pose proof (transition_lively self input Hok Hl) as Hl1. pose proof (transition_verdict _ _ _ _ Hok Ht) as Hv.
  rewrite Ht in *. cbn [fst snd] in *. split; [split; [done..|]|split].
  - rewrite (detached_perm _ _ _ _ Hd) in Hi. inversion Hi as [|? ? _ Hrest]; subst. rewrite Hs. destruct oe as [e'|]; cbn in *; [|done].
    rewrite bt_insert_Permutation by apply (detached_fresh _ _ _ _ Hd). by constructor.
  - rewrite Hs. destruct (settled_sums phase_rank _ _ _ _ oe Hd) as [H1 H2]. unfold drain_rank. lia.
  - exists b. split; [done|]. intros He. rewrite Hv. unfold stops. by rewrite Hcl1, He.
Qed.

Section Progress.
  (** What the host answers with. *)
  Context (installed : EstablishedActor ProxyInstalled) (initial : InitialWorkerOutcome) (replacement : ReplacementOutcome).

Lemma live_awaits e : leaving (entry_phase e) = true -> serving (entry_phase e) = false -> live_phase (entry_phase e) = true ->
  exists input, awaits e input.
Proof.
  intros Hl Hs Hv. set (stopped := mkChildStopped (entry_creation e) (Ok Normal) 0%N : ChildStopped Addr).
  set (settlement := Attempted (Settlement.Accepted (Outcome_Established (mkCommitted (entry_creation e) Birth installed))) : ProxySettlement).
  set (receipt := fun w => mkReceipt (entry_creation e) installed (mkOperationId (witness_token w)) : ProxyReceipt).
  destruct (entry_phase e) as [| | | | | | | | | | | |proxy restorable [w|o|] [st|]|[proxy [w|o|] work [st|]]] eqn:Hp; try done.
  all: try (eexists; apply (awaits_creation e settlement); [by rewrite Hp|done]).
  all: try (eexists; apply (awaits_stop e stopped); [by rewrite Hp|done]).
  all: try (eexists; apply (awaits_receipt e w (receipt w)); [rewrite Hp; cbn; auto using list_elem_of_here|done..]).
  all: destruct work as [| | | | |purpose [w|po| |oc]]; try done.
  all: try (eexists; apply (awaits_receipt e w (receipt w)); [rewrite Hp; cbn; auto using list_elem_of_here|done..]).
  all: exists (Event_ProxyReported (mkChildReport (entry_creation e)
         match purpose with
         | Purpose_Cancellation Change_Replacement | Purpose_SupervisorReplacement _ _ => Outcome_Replacement replacement
         | _ => Outcome_Initial initial
         end)); apply (awaits_report e purpose); [by rewrite Hp|by destruct purpose as [[]| | |]].
Qed.

Lemma drainable_awaits self : drainable self -> services self.2 <> [] -> exists key e input, (key, e) ∈ services self.2 /\ awaits e input.
Proof.
  intros [Hok Hcl Hl Hi] Hne. pose proof (table_leaving _ _ (ok_table _ Hok) Hcl) as Hlv. unfold lively in Hl.
  destruct (services self.2) as [|[key e] m]; [done|]. inversion Hl; inversion Hi; inversion Hlv; subst.
  destruct (live_awaits e) as [input Ha]; [done..|]. exists key, e, input. split; [left|done].
Qed.

End Progress.

(** The last answer stops the directory that it empties. *)
Definition halted (self : Self) (l : list acted) : Prop :=
  services self.2 = [] -> l <> [] -> exists a, last l = Some (Ok a) /\ become_ a = Stop the_Stopped.

Lemma directory_run_cons self input inputs :
  run self (input :: inputs) = ((run (transition self input).1 inputs).1, (transition self input).2 :: (run (transition self input).1 inputs).2).
Proof. cbn [run]. destruct (transition self input) as [self1 res]. cbn. by destruct (run self1 inputs). Qed.

Lemma directory_run_app inputs inputs' : forall self,
  run self (inputs ++ inputs') =
    ((run (run self inputs).1 inputs').1, (run self inputs).2 ++ (run (run self inputs).1 inputs').2).
Proof.
  induction inputs as [|input inputs IH]; intros self; [apply surjective_pairing|]. cbn [app]. by rewrite !directory_run_cons, IH.
Qed.

Lemma cooperative_drains self answers : cooperative self answers -> drainable self ->
  drainable (run self answers).1 /\
  length answers + drain_rank (services (run self answers).1.2) <= drain_rank (services self.2) /\
  halted (run self answers).1 (run self answers).2.
Proof.
  induction 1 as [self|self key e input inputs Hin Ha Hc IH]; intros Hdr.
  { cbn. split_and!; [done|lia|]. by intros _ ?. }
  destruct (awaited_step self key e input Hdr Hin Ha) as (Hdr1 & Hlt & a & Hres & Hstop). destruct (IH Hdr1) as (H1 & H2 & H3).
  rewrite directory_run_cons. cbn [fst snd length]. split_and!; [done|lia|]. intros He _. destruct (run _ inputs) as [self2 l2] eqn:Hr. cbn [fst snd] in *.
  destruct l2 as [|x l2]; [|destruct (H3 He ltac:(done)) as (b & Hb & Hb'); by exists b].
  destruct inputs; [|by rewrite directory_run_cons in Hr]. injection Hr as <-. exists a. rewrite Hres. auto.
Qed.

Lemma cooperative_app self answers answers' : cooperative self answers -> cooperative (run self answers).1 answers' ->
  cooperative self (answers ++ answers').
Proof.
  induction 1 as [self|self key e input inputs Hin Ha Hc IH]; [done|]. rewrite directory_run_cons. cbn [app fst]. intros H.
  econstructor; eauto.
Qed.

(** As long as entries are left, some answer is awaited. *)
Lemma drains_out (installed : EstablishedActor ProxyInstalled) (initial : InitialWorkerOutcome) (replacement : ReplacementOutcome) rank : forall self, drainable self -> drain_rank (services self.2) <= rank ->
  exists answers, cooperative self answers /\ services (run self answers).1.2 = [].
Proof.
  induction rank as [|rank IH]; intros self Hdr Hle; (destruct (services self.2) as [|kv m] eqn:Hs;
    [exists []; split; [constructor|done]|]);
    destruct (drainable_awaits installed initial replacement self Hdr) as (key & e & input & Hin & Ha); try (by rewrite Hs);
    destruct (awaited_step self key e input Hdr Hin Ha) as (Hdr1 & Hlt & _); rewrite Hs in Hlt; [lia|].
  destruct (IH (transition self input).1 Hdr1 ltac:(lia)) as (answers & Hc & He).
  exists (input :: answers). split; [by econstructor|]. by rewrite directory_run_cons.
Qed.


(** ** Properties *)

(** C5. Every submission is accounted for.  Over any run of a dynamic supervisor,
    the workers submitted by start and replace commands are, each exactly once,
    handed to a proxy, returned in a rejection, a cancellation or a lifecycle
    message, or still held by an entry. *)
Theorem directory_submissions_conserved n c inputs self l :
  run (fresh n c) inputs = (self, l) ->
  inputs ≫= submitted ≡ₚ (l ≫= fun res => handed (sent res)) ++ held (services self.2).
Proof.
  intros Hr. rewrite <- (run_conserves inputs _ _ _ (fresh_ok n c) Hr). cbn. by rewrite app_nil_r.
Qed.

(** C6. Every service ends once.  The services that a run admits carry distinct
    generations, and each is either still in the directory or ended by exactly
    one lifecycle message: the rejection of its proxy's creation, or the
    retirement of its entry. *)
Theorem directory_services_end_once n c inputs self l :
  run (fresh n c) inputs = (self, l) ->
  admitted (fresh n c) inputs ≡ₚ (l ≫= fun res => closed (sent res)) ++ present (services self.2) /\
  NoDup (snd <$> admitted (fresh n c) inputs).
Proof.
  intros Hr. destruct (run_services inputs _ _ _ (fresh_ok n c) Hr) as (H1 & H2 & _). split; [|done].
  rewrite <- H1. cbn. by rewrite app_nil_r.
Qed.

(** C9. Startups are bounded and never idle.  In every reachable directory the
    entries fit the configured capacity, their generations and proxy creations
    are distinct, at most the configured number of proxies work on a start or a
    replacement, and when fewer do, no entry waits for its turn. *)
Theorem directory_startup_fair n c inputs self l :
  run (fresh n c) inputs = (self, l) ->
  length (services self.2) <= entries_maximum (config_entries c) /\
  NoDup (entry_generation ∘ snd <$> services self.2) /\ NoDup (entry_creation ∘ snd <$> services self.2) /\
  occupied (services self.2) <= startup_maximum (config_startup c) /\
  (occupied (services self.2) < startup_maximum (config_startup c) ->
   Forall (fun kv => waits (entry_phase kv.2) = false) (services self.2)).
Proof.
  intros Hr. destruct (run_ok _ _ _ _ (fresh_ok n c) Hr) as [[Ts Tg Tc Ti Tl] C L F].
  destruct (run_limits _ _ _ _ (fresh_ok n c) Hr) as [He Hs]. unfold limit in *. rewrite He in C. rewrite Hs in L, F. cbn in *.
  split_and!; auto. intros Hlt. destruct F as [F|F]; [lia|]. revert F. clear. unfold queued, waiting.
  induction (services self.2) as [|[k e] m IH]; cbn; [constructor|]. destruct (waits (entry_phase e)) eqn:Hw; [lia|].
  constructor; [done|]. by apply IH.
Qed.

(** C27. A refused input changes nothing.  When a reachable directory refuses an
    input, it gives back that very input, is left exactly as it was, and the
    input was no command. *)
Theorem directory_refusal_inert n c inputs self l input self' returned :
  run (fresh n c) inputs = (self, l) -> transition self input = (self', Err returned) ->
  returned = input /\ self' = self /\ match input with Event_Command _ => False | _ => True end.
Proof.
  intros Hr Ht. pose proof (run_ok _ _ _ _ (fresh_ok n c) Hr) as Hok. pose proof (directory_transition_ok self input Hok) as Hs.
  rewrite Ht in Hs. cbn in Hs. destruct Hs as [-> ->]. split_and!; [done..|]. destruct input as [[from cmd]|?|?|?|?|?|?|?|?]; try done.
  destruct (command_answered self from cmd Hok) as (? & ? & Hc & _). by rewrite Ht in Hc.
Qed.

(** C10. Every command is answered at once, by one reply to its own route on the
    lane of its kind.  A rejected start or replacement returns its submission
    and leaves the entries as they were, and an accepted start finds a new key.
    A query changes nothing and tells the entry's status, which is draining for
    every entry of a directory that shuts down.  While the directory accepts
    commands, a cancellation is stale exactly when its operation is not the
    entry's latest, and a returned submission was held by an entry; while it
    shuts down, every cancellation is answered as draining and changes
    nothing. *)
Theorem directory_command_answered n c inputs self l from cmd :
  run (fresh n c) inputs = (self, l) ->
  exists self' a, transition self (Event_Command (mkUser from cmd)) = (self', Ok a) /\ replied self cmd (sends a) self'.
Proof.
  intros Hr. pose proof (run_ok _ _ _ _ (fresh_ok n c) Hr) as Hok. destruct (command_replied self cmd Hok) as (a & Ha & Hrep).
  unfold transition. cbn [dispatch]. destruct (command self cmd) as [self' res]. cbn in Ha, Hrep. subst res.
  eexists self', _. split; [reflexivity|]. by repeat case_match.
Qed.

(** C16. The shutdown reaches every entry.  The first shutdown request of a
    reachable directory visits each entry once: none keeps serving or waiting,
    each keeps its key, generation, operation and creation, and from then on the
    directory is shutting down.  Each proxy that nobody had asked to stop is sent
    one shutdown request, in the order of the keys and under the operation that
    its retiring entry then waits for; nothing else is sent to a proxy.  The
    submissions that the entries still held are handed back. *)
Theorem directory_shutdown_reaches_all n c inputs self l s :
  run (fresh n c) inputs = (self, l) -> closing self = false ->
  let '(self', res) := transition self (Event_Shutdown s) in
  closing self' = true /\ Forall2 shut_pair (services self.2) (services self'.2) /\
  (exists asks, Forall3 asked (services self.2).*2 (services self'.2).*2 asks /\ proxy_operations (sent res) = concat asks) /\
  handed (sent res) ≡ₚ held (services self.2) /\ closed (sent res) = [].
Proof.
  intros Hr Hcl. pose proof (run_ok _ _ _ _ (fresh_ok n c) Hr) as Hok. unfold closing in Hcl.
  destruct (availability self.2) as [drain|] eqn:Hav; [|done]. unfold transition. cbn [dispatch].
  destruct (begin_shutdown_spec self drain Hok Hav) as (requests & self' & -> & Ha & H2 & (asks & Ho & Hops) & Hc & Hh).
  cbn. assert (Hcl' : closing self' = true). { rewrite (aligned_closing _ _ Ha). by destruct self as [k []]. }
  split_and!; [done|done|exists asks; split; [done|]|..]; by repeat case_match.
Qed.

(** C17. A directory that shuts down only drains.  Every input leaves it shutting
    down, births no proxy, sends no worker to a proxy, returns what it was
    given at once, and either leaves the entries as they are or lowers the rank
    of the answers that they still wait for. *)
Theorem directory_drain_admits_nothing n c inputs self l input :
  run (fresh n c) inputs = (self, l) -> closing self = true ->
  let '(self', res) := transition self input in
  closing self' = true /\ handed (sent res) ≡ₚ submitted input /\
  omap operation_submission (proxy_operations (sent res)) = [] /\
  match res with Ok a => creates a = Creations_empty | Err _ => True end /\
  (services self'.2 = services self.2 \/ drain_rank (services self'.2) < drain_rank (services self.2)).
Proof.
  intros Hr Hcl. pose proof (run_ok _ _ _ _ (fresh_ok n c) Hr) as Hok.
  pose proof (closing_operations self input Hok Hcl) as Hop. pose proof (transition_closing self input Hok Hcl) as Hcl'.
  pose proof (drains_rank _ _ _ (transition_drains _ self Hok Hcl input eq_refl)) as Hdr.
  pose proof (directory_transition_ok self input Hok) as Hs. destruct (transition self input) as [self' res] eqn:Ht. cbn [fst snd] in *.
  destruct (transition_taken _ _ _ _ Hok Ht) as [Hok' Hh]. rewrite !closing_held, !app_nil_r in Hh by done.
  split_and!; auto. destruct res as [a|i]; [|done]. cbn in Hs. destruct (stepped_births _ _ _ _ Hs); congruence.
Qed.

(** C18. The drain ends.  However many inputs the host delivers to a directory
    that shuts down, and whatever they are, at most ten times as many of them as
    the directory has entries change its entries; the inputs that change none may
    come in between. *)
Theorem directory_drain_terminates n c inputs self l inputs' changes :
  run (fresh n c) inputs = (self, l) -> closing self = true -> changing self inputs' changes ->
  changes <= 10 * length (services self.2).
Proof.
  intros Hr Hcl Hch. pose proof (run_ok _ _ _ _ (fresh_ok n c) Hr) as Hok.
  pose proof (changing_bound self inputs' changes Hch Hok Hcl). pose proof (drain_rank_bound (services self.2)). lia.
Qed.

(** C19. The drain can always be completed.  Take a directory that shuts down and
    in which no refused stop has made an entry available again.  While entries
    are left, each of them waits for a definite answer of the host: the
    settlement of its proxy's creation, the acceptance of an operation, the
    report of its last input, or the stop of its proxy.  However the host orders
    such answers, it gives at most ten per entry, and it can always go on until
    no entry is left; with the last answer the directory stops. *)
Theorem directory_drain_completes n c inputs self l
  (installed : EstablishedActor ProxyInstalled) (initial : InitialWorkerOutcome) (replacement : ReplacementOutcome) answers :
  run (fresh n c) inputs = (self, l) -> closing self = true ->
  Forall (fun kv => serving (entry_phase kv.2) = false) (services self.2) -> cooperative self answers ->
  length answers <= 10 * length (services self.2) /\
  exists more self' l', cooperative self (answers ++ more) /\ run self (answers ++ more) = (self', l') /\
    services self'.2 = [] /\
    (l' <> [] -> exists a, last l' = Some (Ok a) /\ become_ a = Stop the_Stopped).
Proof.
  intros Hr Hcl Hi Hc. assert (Hdr : drainable self).
  { split; [by eapply run_ok, Hr; apply fresh_ok|done|eapply run_lively, Hr; [apply fresh_ok|constructor]|done]. }
  destruct (cooperative_drains self answers Hc Hdr) as (Hdr1 & Hlen & _). pose proof (drain_rank_bound (services self.2)) as Hb.
  split; [lia|]. destruct (drains_out installed initial replacement _ _ Hdr1 (le_n _)) as (more & Hm & He).
  pose proof (cooperative_app _ _ _ Hc Hm) as Hall. destruct (cooperative_drains self (answers ++ more) Hall Hdr) as (_ & _ & Hh).
  exists more, (run self (answers ++ more)).1, (run self (answers ++ more)).2. rewrite directory_run_app in *. cbn [fst snd] in *.
  split_and!; [done|done|done|]. by apply Hh.
Qed.

(** The directory stops exactly when its shutdown is over: when it shuts
    down and its last entry is gone, or its deadline could not be scheduled or
    has passed. *)
Theorem directory_stops_exactly n c inputs self l input self' a :
  run (fresh n c) inputs = (self, l) -> transition self input = (self', Ok a) ->
  become_ a = if stops self' then Stop the_Stopped else Continue.
Proof. intros Hr. by apply transition_verdict, (run_ok _ _ _ _ (fresh_ok n c) Hr). Qed.

(** A departure of the code from its document.  docs/actor-laws/dynamic-supervisor.md
    retires an entry whose proxy dies in any phase and turns every entry of a
    directory that shuts down into a drain entry.  In the code a stop that is
    refused after the shutdown puts its entry back as available, and without a
    deadline, where the directory keeps the proxies of stopped workers, that
    entry stays available whatever the host delivers: the directory never
    stops. *)
Theorem directory_stranded n c inputs self l key inputs' self' l' :
  run (fresh n c) inputs = (self, l) -> unlimited self -> unexpected_exit self.2 = KeepEmpty ->
  served key (services self.2) = true -> run self inputs' = (self', l') ->
  served key (services self'.2) = true /\
  Forall (fun res => match res with Ok a => become_ a = Continue | Err _ => True end) l'.
Proof. intros Hr. apply stranded_run, (run_ok _ _ _ _ (fresh_ok n c) Hr). Qed.

End DirectoryDrain.

(** ** A concrete directory

    Two entries at most, one startup at a time; workers that stop leave their
    proxies empty, and the shutdown has no deadline. *)

Definition directory_demo_workers : WorkerTypes := {|
  Worker := nat; WorkerError := nat; WorkerChild := nat; WorkerPhase := nat; WorkerSends := nat;
  Addr := nat; Msg := nat; Nonce := nat; Installed := nat; Endpoint := nat;
  Plan := nat; Ready := nat; Rejection := nat; worker_endpoint := fun i => i
|}.

Definition directory_demo_values : DirectoryValues := {|
  directory_workers := directory_demo_workers;
  Key := nat; directory_key_ord := nat_Ord; ProxyInstalled := nat; ProxyEndpoint := nat; ProxyError := nat;
  ProxyInitialization := nat; ReplyEndpoint := nat; proxy_endpoint := fun i => i
|}.

Definition directory_demo : DirectoryTypes := {|
  directory_values := directory_demo_values;
  LifecycleRoute := Recipient nat;
  LifecycleSends := list (Delivery nat (DynamicLifecycle (DV := directory_demo_values)));
  DirectoryDiagnosticRoute := nat;
  lifecycle_sends := Vec_SendEffects _;
  lifecycle_route := Recipient_DeliveryRoute nat _
|}.

#[local] Existing Instance directory_demo.

#[local] Instance directory_demo_laws : RouteLaws LifecycleRoute DynamicLifecycle LifecycleSends :=
  Recipient_RouteLaws nat _.

Definition directory_demo_config : Config :=
  mkConfig (mkEntryCapacity (mkPositive 2)) (mkStartupLimit (mkPositive 1)) KeepEmpty WaitForActorGraph
    (mkRecipient 99) Terminate.

Definition directory_sender : Addr := 0.
Definition directory_key (n : nat) : Key := n.
Definition directory_id (n : N) : CreationId := Build_CreationId n.
Definition directory_to (address : nat) : DirectoryRoute := Logical (mkRecipient (address : Addr)).
Definition directory_worker (w : nat) : WorkerSubmission Worker Plan := with_startup (w : Worker) (20 : Plan).
Definition directory_command (c : DynamicCommand) : DynamicSupervisorEvent := Event_Command (mkUser directory_sender c).

Definition directory_start (key w : nat) : DynamicSupervisorEvent :=
  directory_command (Directory_Start (directory_key key) (directory_worker w) (directory_to 50)).
Definition directory_replace (key w : nat) : DynamicSupervisorEvent :=
  directory_command (Directory_Replace (directory_key key) (directory_worker w) (directory_to 51)).
Definition directory_stop (key : nat) : DynamicSupervisorEvent :=
  directory_command (Directory_Stop (directory_key key) (directory_to 52)).
Definition directory_query (key : nat) : DynamicSupervisorEvent :=
  directory_command (Directory_Query (directory_key key) (directory_to 53)).
Definition directory_created (n : N) : DynamicSupervisorEvent :=
  Event_ProxyCreationsSettled (Creation_Settled (Creations_one
    (Attempted (Settlement.Accepted (Outcome_Established
      (mkCommitted (directory_id n) Birth (actor_issued (7 : ProxyInstalled)))))))).
Definition directory_accepted (n : N) (t : Token) : DynamicSupervisorEvent :=
  Event_ProxyInputSettled (Attempted (Settlement.Accepted
    (mkReceipt (directory_id n) (actor_issued (7 : ProxyInstalled)) (mkOperationId t)))).
Definition directory_failed (n : N) (t : Token) : DynamicSupervisorEvent :=
  Event_ProxyInputSettled (Attempted (Rejected (mkOperation (directory_id n) control_shutdown (mkOperationId t))
    ClosedControlLane)).
Definition directory_attempt (n : N) : WorkerAttempt := mkAttempt (directory_id n) 0.
Definition directory_ready (n : N) : DynamicSupervisorEvent :=
  Event_ProxyReported (mkChildReport (directory_id n)
    (Outcome_Initial (Initial_Resolved (Result_Ready (directory_attempt n) (9 : Ready))))).
Definition directory_replaced (n : N) : DynamicSupervisorEvent :=
  Event_ProxyReported (mkChildReport (directory_id n)
    (Outcome_Replacement (Replacement_Resolved (directory_attempt n) (Result_Ready (directory_attempt (n + 10)) (9 : Ready))))).
Definition directory_gone (n : N) : DynamicSupervisorEvent :=
  Event_ProxyStopped (mkChildStopped (directory_id n) (Ok Normal) 0%N).
Definition directory_closing : DynamicSupervisorEvent := Event_Shutdown the_ShutdownRequested.

(** The first service is ready; the second waits for its proxy. *)
Definition directory_serving : list DynamicSupervisorEvent :=
  [directory_start 5 10; directory_created 1; directory_accepted 1 0; directory_ready 1; directory_start 6 11].

(** ... and a replacement holds the only startup while the second start waits. *)
Definition directory_busy : list DynamicSupervisorEvent :=
  directory_serving ++ [directory_replace 5 12; directory_created 2; directory_start 7 13].

Definition directory_at (inputs : list DynamicSupervisorEvent) : Self * list (result DirectoryActions DynamicSupervisorEvent) :=
  run (fresh 0 directory_demo_config) inputs.


(** The replacement holds the startup; a third start is over the capacity. *)
Example directory_busy_statuses :
  statuses (services (directory_at directory_busy).1.2) = [(directory_key 5, Status_Replacing); (directory_key 6, Status_WaitingForStartup)] /\
  held (services (directory_at directory_busy).1.2) = [directory_worker 11] /\
  ((directory_at directory_busy).2 ≫= fun res => handed (sent res)) =
    [directory_worker 10; directory_worker 12; directory_worker 13].
Proof. vm_compute. by split_and!. Qed.

(** The stop of a served entry is asked for, the directory shuts down, and the
    proxy refuses the stop: the entry is available again. *)
Definition directory_trapped : list DynamicSupervisorEvent :=
  directory_serving ++ [directory_stop 5; directory_closing; directory_failed 1 1].

Definition directory_draining : list DynamicSupervisorEvent := directory_busy ++ [directory_closing].

(** The answers that the drain waits for. *)
Definition directory_answers : list DynamicSupervisorEvent :=
  [directory_accepted 1 1; directory_replaced 1; directory_accepted 1 2; directory_gone 1; directory_accepted 2 3;
   directory_gone 2].

Lemma directory_at_run inputs :
  run (fresh 0 directory_demo_config) inputs = ((directory_at inputs).1, (directory_at inputs).2).
Proof. apply surjective_pairing. Qed.

(** They empty it, and it stops. *)
Example directory_answers_end :
  services (directory_at (directory_draining ++ directory_answers)).1.2 = [] /\
  ((fun res => match res with Ok a => become_ a | Err _ => Continue end) <$>
     last (directory_at (directory_draining ++ directory_answers)).2) = Some (Stop the_Stopped).
Proof. vm_compute. by split. Qed.

(** *** Witnesses *)

Lemma directory_submissions_conserved_witness :
  directory_busy ≫= submitted ≡ₚ [directory_worker 10; directory_worker 12; directory_worker 13; directory_worker 11].
Proof.
  pose proof (directory_submissions_conserved (DT := directory_demo) 0 directory_demo_config directory_busy
    (directory_at directory_busy).1 (directory_at directory_busy).2 (directory_at_run _)) as H.
  destruct directory_busy_statuses as (_ & H1 & H2). rewrite H1, H2 in H. exact H.
Defined.

Lemma directory_services_end_once_witness :
  admitted (fresh 0 directory_demo_config) (directory_draining ++ directory_answers) ≡ₚ [(directory_key 5, 1%N); (directory_key 6, 2%N)].
Proof.
  destruct (directory_services_end_once (DT := directory_demo) 0 directory_demo_config (directory_draining ++ directory_answers)
    (directory_at (directory_draining ++ directory_answers)).1 (directory_at (directory_draining ++ directory_answers)).2
    (directory_at_run _)) as [H _].
  rewrite H. vm_compute. reflexivity.
Defined.

Lemma directory_startup_fair_witness :
  length (services (directory_at directory_busy).1.2) <= 2 /\ occupied (services (directory_at directory_busy).1.2) <= 1.
Proof.
  destruct (directory_startup_fair (DT := directory_demo) 0 directory_demo_config directory_busy
    (directory_at directory_busy).1 (directory_at directory_busy).2 (directory_at_run _)) as (H1 & _ & _ & H2 & _).
  split; [exact H1|exact H2].
Defined.

Lemma directory_refusal_inert_witness :
  (transition (directory_at directory_busy).1 (directory_accepted 1 9)).1 = (directory_at directory_busy).1.
Proof.
  destruct (directory_refusal_inert (DT := directory_demo) 0 directory_demo_config directory_busy
    (directory_at directory_busy).1 (directory_at directory_busy).2 (directory_accepted 1 9)
    (transition (directory_at directory_busy).1 (directory_accepted 1 9)).1 (directory_accepted 1 9)
    (directory_at_run _)) as (_ & H & _); [vm_compute; reflexivity|exact H].
Defined.

Lemma directory_command_answered_witness : exists self' a,
  transition (directory_at directory_busy).1 (directory_stop 6) = (self', Ok a) /\ lanes (sends a) = [0; 0; 1; 0; 0].
Proof.
  destruct (directory_command_answered (DT := directory_demo) 0 directory_demo_config directory_busy
    (directory_at directory_busy).1 (directory_at directory_busy).2 directory_sender (Directory_Stop (directory_key 6) (directory_to 52))
    (directory_at_run _)) as (self' & a & Ht & Hl & _).
  exists self', a. split; [exact Ht|exact Hl].
Defined.

Lemma directory_shutdown_reaches_all_witness :
  Forall2 shut_pair (services (directory_at directory_busy).1.2)
    (services (transition (directory_at directory_busy).1 directory_closing).1.2) /\
  operation_creation <$> proxy_operations (sent (transition (directory_at directory_busy).1 directory_closing).2) =
    [directory_id 1; directory_id 2].
Proof.
  pose proof (directory_shutdown_reaches_all (DT := directory_demo) 0 directory_demo_config directory_busy
    (directory_at directory_busy).1 (directory_at directory_busy).2 the_ShutdownRequested (directory_at_run _)) as H.
  rewrite (surjective_pairing (transition _ _)) in H. split; [apply H|]; vm_compute; reflexivity.
Defined.

Lemma directory_drain_admits_nothing_witness :
  drain_rank (services (transition (directory_at directory_draining).1 (directory_accepted 1 1)).1.2) <
  drain_rank (services (directory_at directory_draining).1.2).
Proof.
  pose proof (directory_drain_admits_nothing (DT := directory_demo) 0 directory_demo_config directory_draining
    (directory_at directory_draining).1 (directory_at directory_draining).2 (directory_accepted 1 1) (directory_at_run _)) as H.
  rewrite (surjective_pairing (transition _ _)) in H. destruct H as (_ & _ & _ & _ & [H|H]); [vm_compute; reflexivity| |exact H].
  exfalso. revert H. vm_compute. discriminate.
Defined.

(** A query, a repeated shutdown and a command that is turned away come between
    the answers: nine inputs, six of which change the entries. *)
Definition directory_interrupted : list DynamicSupervisorEvent :=
  match directory_answers with
  | a1 :: a2 :: rest => a1 :: directory_query 5 :: directory_closing :: a2 :: directory_start 8 14 :: rest
  | short => short
  end.

Lemma directory_drain_terminates_witness :
  length directory_interrupted = 9 /\ changing (directory_at directory_draining).1 directory_interrupted 6 /\ 6 <= 20.
Proof.
  assert (Hch : changing (directory_at directory_draining).1 directory_interrupted 6).
  { apply changing_changed; [vm_compute; discriminate|]. do 2 apply changing_passed.
    apply changing_changed; [vm_compute; discriminate|]. apply changing_passed.
    do 4 (apply changing_changed; [vm_compute; discriminate|]). apply changing_nil. }
  split; [reflexivity|split; [exact Hch|]].
  apply (directory_drain_terminates (DT := directory_demo) 0 directory_demo_config directory_draining
    (directory_at directory_draining).1 (directory_at directory_draining).2 directory_interrupted 6 (directory_at_run _));
    [vm_compute; reflexivity|exact Hch].
Defined.

Definition directory_proxy : EstablishedActor ProxyInstalled := actor_issued (7 : ProxyInstalled).
Definition directory_initial : InitialWorkerOutcome := Initial_Resolved (Result_Ready (directory_attempt 1) (9 : Ready)).
Definition directory_replacement : ReplacementOutcome :=
  Replacement_Resolved (directory_attempt 1) (Result_Ready (directory_attempt 11) (9 : Ready)).

(** Two awaited answers are given; the rest of the drain exists. *)
Lemma directory_drain_completes_witness :
  cooperative (directory_at directory_draining).1 (take 2 directory_answers) /\
  exists more, services (run (directory_at directory_draining).1 (take 2 directory_answers ++ more)).1.2 = [].
Proof.
  assert (Hc : cooperative (directory_at directory_draining).1 (take 2 directory_answers)).
  { eapply (cooperative_cons _ (directory_key 5)); [vm_compute; left|eapply awaits_receipt; [vm_compute; right; left|reflexivity..]|].
    eapply (cooperative_cons _ (directory_key 5)); [vm_compute; left|eapply awaits_report; vm_compute; reflexivity|].
    apply cooperative_nil. }
  split; [exact Hc|].
  destruct (directory_drain_completes (DT := directory_demo) 0 directory_demo_config directory_draining
    (directory_at directory_draining).1 (directory_at directory_draining).2 directory_proxy directory_initial directory_replacement
    (take 2 directory_answers) (directory_at_run _)) as (_ & more & self' & l' & _ & Hr & He & _);
    [vm_compute; reflexivity|vm_compute; repeat constructor|exact Hc|].
  exists more. rewrite Hr. exact He.
Defined.

Lemma directory_stops_exactly_witness :
  exists a, (transition (directory_at (directory_draining ++ take 5 directory_answers)).1 (directory_gone 2)).2 = Ok a /\
    become_ a = Stop the_Stopped.
Proof.
  set (self := (directory_at (directory_draining ++ take 5 directory_answers)).1).
  destruct (transition self (directory_gone 2)) as [self' [a|i]] eqn:Ht; [|exfalso; revert Ht; vm_compute; discriminate].
  exists a. split; [reflexivity|].
  rewrite (directory_stops_exactly (DT := directory_demo) 0 directory_demo_config (directory_draining ++ take 5 directory_answers)
    self (directory_at (directory_draining ++ take 5 directory_answers)).2 (directory_gone 2) self' a (directory_at_run _) Ht).
  apply (f_equal fst) in Ht. cbn [fst] in Ht. rewrite <- Ht. vm_compute. reflexivity.
Defined.

Lemma directory_stranded_witness :
  served (directory_key 5) (services (run (directory_at directory_trapped).1 [directory_gone 1; directory_closing]).1.2) = true.
Proof.
  apply (directory_stranded (DT := directory_demo) 0 directory_demo_config directory_trapped
    (directory_at directory_trapped).1 (directory_at directory_trapped).2 (directory_key 5) [directory_gone 1; directory_closing]
    (run (directory_at directory_trapped).1 [directory_gone 1; directory_closing]).1
    (run (directory_at directory_trapped).1 [directory_gone 1; directory_closing]).2 (directory_at_run _));
    vm_compute; reflexivity.
Defined.
